(* ===== verification/_CoqProject ===== *)
-Q . S2P
Prelude.v
Threads.v
Money.v
Balances.v
Escrow.v
Halt.v
DepositModel.v
Indexer.v
Deposits.v
DepositScan.v
DepositsDemo.v
TronModel.v
Tron.v
TronDemo.v
WithdrawalModel.v
Withdrawals.v
WithdrawalsDemo.v
P2PModel.v
P2P.v
SettlementModel.v
Settlement.v
SettlementDemo.v
SettlementWorker.v
SettlementRuns.v
SettlementRunsDemo.v
AuditModel.v
Audits.v
AuditsDemo.v
FeedModel.v
Feed.v
FeedRuns.v
FeedDemo.v
ApprovalModel.v
Approvals.v
ApprovalsDemo.v
TransferModel.v
Transfers.v
TransfersDemo.v
OrdersModel.v
Orders.v
OrdersRuns.v
OrdersFaults.v
OrdersDemo.v
OrderBookModel.v
OrderBook.v
OrderBookDemo.v
AuthModel.v
Auth.v
AuthCodes.v
AuthDemo.v
ConvertModel.v
Conversions.v
ConvertDemo.v
