(* ===== verification/Prelude.v ===== *)
(** * Verification of the exchange backend

    The program is a cryptocurrency exchange. Its backend (TypeScript, [apps/backend/src])
    keeps users' balances in PostgreSQL, trades them on a spot market whose matches come
    from a separate matching engine, runs a peer-to-peer (P2P) market with escrow, credits
    deposits that indexers ([apps/indexer]) find on the chains, and pays withdrawals out of
    hot wallets. This library models the code that moves money and proves what makes it correct.

    ** How the parts interact

    Every amount is a decimal ([Money]) in a row of [user_balances], with an append-only
    [balance_ledger] ([Balances]). P2P orders ([P2PModel]) move a seller's funding balance
    into an escrow and out of it to the buyer or back ([Escrow]). A match of the spot
    engine is a row of [settlement_events] that the settlement worker, or the stream
    consumer, turns into balance updates, rows of a hash-chained ledger and trades in one
    transaction ([SettlementModel], [SettlementWorker]); Redis flags stop trading and
    settlement ([Halt]). Timers check the books of settlement against each other, and a
    mismatch opens the circuit that stops it ([AuditModel]). The chain indexer scans blocks, records deposits and credits them
    ([Indexer]) beside the backend's own credit path ([DepositModel]). A withdrawal locks
    the amount and the fee, may wait for an admin, is queued, signed and broadcast, and
    takes the lock with it or gives it back ([WithdrawalModel]). A spot order locks what it
    may cost and is sent to the engine; a cancel gives back what its rest needs ([OrdersModel]).
    The engine's matches reach [settlement_events] by the request that caused them and by a
    poller with a cursor per engine, at the same time ([FeedModel]). Critical actions of
    admins (withdrawals, manual credits, halts) wait for the approval of other admins, the
    last of whom executes them ([ApprovalModel]). Users move money between their accounts
    and to each other, with an Idempotency-Key that Redis remembers ([TransferModel]). They exchange
    currencies at listed prices ([ConvertModel]). Tron
    deposits are listed per address ([TronModel]) and recorded like those of [Indexer]. What
    traders see of the open orders is an in-memory book, sent to web clients as snapshots
    and deltas ([OrderBookModel]); no money depends on it. Who a request acts for is decided
    by a session, which a one-time code opens and a token names ([AuthModel]); the models of
    the other parts take the user id that [app.authenticate] found.

    ** Files

    - [Prelude]: the state and error monad, [preserves], processes and their triples
      ([Proc], [hoare], [node] for a process that may be stopped), tables owned by another
      component ([Store], [zoom]), sums over maps and lists, sorting, the tactics.
    - [Threads]: requests and jobs that share a database: a [thread] is a sequence of atomic
      statements, a [pool_step] interleaves threads, crashes and the environment, [safe]
      and [spec] are a rely-guarantee logic for them.
    - [Money]: [lib/decimal.ts], [config/monetary-precision.ts], [services/spot-decimal.ts],
      [services/settlement/decimal-utils.ts], [lib/monetary-invariants.ts].
    - [Balances]: [lib/user-balance-helper.ts], [lib/balance-ledger.ts],
      [services/spot-balance.service.ts]. The abstract account is [spec_step].
    - [Escrow]: [services/p2p-escrow.service.ts], [lib/currency-resolver.ts].
    - [Halt]: [lib/trading-halt.ts].
    - [DepositModel]: [services/deposit-credit.service.ts],
      [services/sanctions-screening.service.ts], the repair of [GET /balances/funding].
      [Indexer]: [apps/indexer/src/services] ([ChainIndexer.ts], [ConfirmationTracker.ts],
      [nonEvmDepositFlow.ts], [BitcoinIndexer.ts]). [Deposits] proves what credits do,
      [DepositScan] what scans do, [DepositsDemo] has a concrete chain.
    - [TronModel]: [apps/indexer/src/services/TronIndexer.ts]: the address codec, the amounts,
      the configuration, a tick. [Tron] proves the codec and the listings, [TronDemo]
      evaluates a tick.
    - [WithdrawalModel]: [services/withdrawal-approval.service.ts],
      [services/withdrawal-signing.service.ts], the caps of [services/hot-wallet.service.ts],
      the on-chain branch of [POST /withdrawals] and its cancel and e-mail routes in
      [routes/wallet.fastify.ts]. [Withdrawals] proves what runs of them keep,
      [WithdrawalsDemo] evaluates it.
    - [P2PModel] (definitions) and [P2P] (theorems): [services/p2p.service.ts],
      [p2p-expiry.service.ts], [p2p-sla-worker.service.ts], the limits of
      [abuse-resilience.service.ts].
    - [SettlementModel]: [processSettlementEventRow] of
      [services/settlement/settlement-worker.ts] with [settlement-ledger-deltas.ts] and
      [spot-settlement-order-writes.ts]. [Settlement] proves what one settlement does,
      [SettlementDemo] has a concrete runtime and database.
    - [SettlementWorker]: [processOneEvent], [runOnce], the JetStream entry and its
      acknowledgements ([match-events-settlement-stream.service.ts]), the circuit
      ([settlement-circuit.ts]), the operator's [replay_failed] of
      [routes/admin-operations.fastify.ts]. [SettlementRuns] proves what runs of them keep,
      [SettlementRunsDemo] evaluates it.
    - [AuditModel]: [services/settlement/global-balance-auditor.ts],
      [settlement-replay-validator.ts], [ledger-compaction.service.ts] with the trigger of
      [database/migrate.ts] that guards the ledger, [services/spot-integrity.service.ts] and
      the round of all of them in [services/tier1-reconciliation.service.ts]. [Audits] proves
      when a round passes, [AuditsDemo] evaluates rounds that do not.
    - [FeedModel]: [services/settlement/match-event-persistence.service.ts],
      [match-poller.ts], the engine's answer to a poll, the hand-over of a request's own
      matches ([services/spot-engine-live-bridge.service.ts]), the dedup of live events and
      the recovery anchor. [Feed] has the invariants of its statements, [FeedRuns] what all
      interleavings keep, [FeedDemo] evaluates it.
    - [OrdersModel]: the order routes of [routes/spot.fastify.ts], the checks of
      [services/spot-risk.service.ts], the stop triggers of [services/spot-trigger.service.ts]
      and the cancel-all of [routes/admin-control.fastify.ts]. [Orders] proves what each does
      to the locks, [OrdersRuns] joins them with settlement, [OrdersFaults] has the defects,
      [OrdersDemo] a trade from placement to cancel.
    - [ApprovalModel]: [services/admin-approval.service.ts],
      [admin-approval-policy.service.ts], [maker-checker-execute.service.ts],
      [admin-manual-credit-apply.service.ts], the retry and break-glass routes of
      [routes/admin.fastify.ts]. [Approvals] proves what all interleavings keep and what
      two admins at once can break, [ApprovalsDemo] evaluates it.
    - [TransferModel]: [POST /transfer] and the internal branch of [POST /withdrawals] in
      [routes/wallet.fastify.ts], [debitAvailableBalance] and [creditBalanceForAccount] of
      [services/wallet.service.ts], the commands of [lib/redis.ts] they use. [Transfers] has
      the theorems, [TransfersDemo] evaluates them.
    - [ConvertModel]: [POST /instant], [POST /limit] and the cancel of
      [routes/convert.fastify.ts]. [Conversions] proves what they keep, [ConvertDemo]
      evaluates them and the defects.
    - [OrderBookModel]: [services/spot-in-memory-orderbook.service.ts], the database's book
      ([spot-orderbook-cache.service.ts]), the hydration, the publisher of deltas
      ([spot-orderbook-ws-engine.service.ts]), the public book, what the order routes and
      the engine's matches do to the book, and the client in [apps/frontend/src]
      ([lib/orderbookDelta.ts], [SpotMarketDataContext.tsx], [hooks/useSpotWs.ts]).
      [OrderBook] has the theorems, [OrderBookDemo] the examples and the defects.
    - [AuthModel]: [services/otp.service.ts], [services/session.service.ts], the code and
      password reset of [services/auth.service.ts], the routes of [routes/auth.fastify.ts]
      that make and verify codes, sign up, log in, renew and close sessions and reset a
      password, and [app.authenticate] of [server.ts]. [Auth] proves who can come to have a
      session, [AuthCodes] refines the codes and follows closed sessions, [AuthDemo]
      evaluates logins and the defects.

    ** How code is modelled

    A handler is a program of the monad [M S A]: a function from the tables it touches to a
    result and the new tables, or to the message it throws. [db.transaction] and
    BEGIN/COMMIT/ROLLBACK are [transaction]: a throw leaves the state. One SQL statement is
    one step; statements of one transaction run without interleaving, which the row locks
    give, and where the code reads before it locks, the interleavings are modelled as steps
    ([Escrow.escrow_pays_once]) or the theorem says that calls do not overlap. The feed, the approvals, transfers, conversions and signing in, whose handlers
    run beside each other, are threads ([Threads]) of which any statement may fail and which
    may stop anywhere. Ids, random uuids, the clock and the rows other
    transactions hold are arguments. Outside threads a failure of the database itself is not modelled; the
    failure of writes the code only logs (Redis, the dead-letter table) is.

    A decimal is an integer of [10^-36] units ([Money.dec]); decimal.js is the class
    [DecimalJs], whose laws (a result that has no more digits than [Decimal.precision] is
    exact, otherwise rounded toward zero) hold of the concrete [decimal_36]. Theorems on
    exact amounts assume the inputs fit ([Settlement.column]: 18 places and room below the
    precision). Hashing, JSON, decimal texts, [Number] and the locale's order are the class
    [Runtime]; [SettlementDemo.demo_runtime] is a concrete one. User ids are uuids in
    canonical form, so that SQL casts to uuid do not change them; a JavaScript number is an
    integer or NaN. Loops over rows are structural recursions; a batch has its length as
    fuel, and [SettlementRuns.worker_drains] shows how long suffices when rows are not locked
    and failures can be recorded.

    ** What the theorems show

    - Money and balances: locks cover all fills; the balance operations refine an abstract
      account and keep the ledger complete.
    - Escrow: funds are conserved, the escrow bucket is the sum of the open escrows, an
      escrow pays once under all interleavings; an escrow on a chain-specific row is stuck.
    - P2P: order and escrow agree in every reachable state, orders follow the state
      machine, money is conserved; lemmas show that ads cover their orders, that a pending
      order can be cancelled, the exact effect of a release, and defects.
    - Deposits: a deposit is credited at most once under all interleavings of the backend
      and the indexers. The backend's own credit never runs (PostgreSQL refuses its first
      SELECT, a lemma); its repair of a completed deposit is exact. Lemmas show that a block's
      transfers become deposits, that the tracker credits flagged deposits and that a restart
      skips blocks.
    - Tron: addresses round-trip and are distinct for distinct accounts; after a call that
      runs alone each listed native transfer to a wallet has one deposit, and nothing else is
      added. Lemmas: a tick is a run of the deposits' steps, so a deposit is credited once
      there too; of two token transfers in one transaction the second is lost.
    - Withdrawals: over sequences of calls that do not overlap, each stopped anywhere, money
      leaves exactly with completed withdrawals and rows follow the state machine. While
      every lock is on the row the withdrawal names, rejection always succeeds with the exact
      effect (a lemma has the same for the completion of a broadcast). Lemmas show the
      defects: overlapping signing runs, a broadcast whose answer is lost, a lock that fell
      back to the global row, the cancel route.
    - Halt: flags fail closed.
    - Settlement: the exact effect on four accounts and conservation up to the recorded fees
      (except for rebates with a selling taker, where the code charges what it records as a
      rebate), the two ledgers agree with the balances. The books are an invariant of all
      sequences of ticks, messages, operator actions and restarts, with lost connections
      between the statements that record a failure; two settlements that overlap fork the
      hash chain (a lemma), so the steps are one at a time. A violation stops settlement once
      the batch under way has ended, if Redis takes the write. Lemmas show that the queue
      empties, that the ledger is tamper-evident, and the defects.
    - Audits: after every such run with rebates off and agreeing precisions a round that
      nothing disturbs passes; the aggregate audit, whose reads are not one snapshot, can race
      with a settlement and then stops all of them. Lemmas show that the compaction deletes
      nothing, and that rebates or an event without a date stop settlement.
    - Match feed: while engines keep their ids, whatever requests, polls, stream messages and
      settlements run between each other, a match is queued at most once and has ledger rows
      exactly when its row is processed; when requests pull their matches, a poll followed by
      the worker queues and decides every match of the log. Lemmas show that the cursor of an
      engine never skips a match while no request hands over its own matches inline, that
      the inline hand-over can lose a match of another request and that an engine that
      restarts its ids has matches queued again.
    - Spot orders: each answer of a placement fixes what it did, including the answers that
      report a failure of an order the engine accepted. Over runs of requests and settlements
      that do not overlap (limit buys, prices of 8 decimals, matches settled while their
      orders are open) locked funds cover the open orders, so in the older layout an open
      order can always be cancelled with the exact release. The defects are lemmas of
      [OrdersFaults] and [OrdersDemo]; one is that two concurrent cancels release twice.
    - Approvals: under all interleavings an approved request has enough distinct checkers,
      its maker not among them, unless a break-glass execution that is logged approved it.
      Lemmas show that too few checkers move nothing, that the last approval of a manual
      credit has its exact effect, that two last approvals at once credit twice, and that an
      approval read before a rejection undoes it.
    - Transfers: over all interleavings, with keys that expire from Redis, money is conserved
      and an Idempotency-Key moves money to another user at most once. Lemmas show that a
      transfer between own accounts is exact and its stored answer is repeated, and that it
      is moved twice when it is retried after its answer was lost.
    - Conversions: over all interleavings the rows of the table explain every change of the
      funds and the ledger; an instant conversion that is left alone is exact or moves
      nothing; nobody gains by converting there and back at fixed prices. Lemmas of
      [ConvertDemo] show the defects (a key converts again once it has expired); limit orders
      are never executed.
    - Order book: the levels are well typed as long as no dust below [10^-12] comes; the book
      is the sum of the resting orders and a phantom quantity that never goes away (a defect:
      orders that filled on arrival, and fills under another text than the column's); a
      client holds the book that was published under its sequence number, whatever messages
      are lost, repeated or reordered, if subscriptions and REST answers come when nothing is
      unpublished. The other defects are lemmas of [OrderBookDemo].
    - Signing in: under all interleavings a session belongs to a user one of whose
      identifiers a code was made for and presented within ten minutes, and a login by the
      full identifier whose settings were read had every second factor verified; one after
      the other, requests see the codes as a specification with three tries and one use; a
      session that a request, left alone, has closed stays closed. [AuthDemo] shows what falls
      outside: the fallback of the login without second factors, codes and refresh tokens
      used twice at once, a Redis delete that is lost, sessions that outlive a password reset.

    ** Not modelled

    Other HTTP and websocket routes; passkeys, OAuth, the set-up of second factors, changes of a
    user's identifiers and preferences, the logins of admins and the rate limits before routes;
    notifications, caches and metrics; network
    clients (engine, blockchains, price feeds); the database schema beyond the keys and
    checks used (column widths only where a value can reach them: withdrawals, conversions); the rest of the web clients; the matching engine (Rust), gateway (Go) and
    scripts. Of the backend's own logic the volume fee tiers, the writing of system
    snapshots, the deposit sweeps with the reconciliation of wallets, the
    address allocation of the wallet service, the writer process of the order book with its
    NATS consumer, and candles and tickers are left out; so are timers and back-off delays,
    and the lists, previews and audit logs of the approvals; the in-process spot matcher is
    no longer called. *)
From stdpp Require Import base gmap strings list fin_maps.
From Stdlib Require Import ZArith Lia.

Declare Scope prog_scope.
Delimit Scope prog_scope with prog.
Local Open Scope Z_scope.

(** ** Fallible, stateful programs

    A handler reads and writes a state of type [S] and either returns or throws
    an [Error], which is modelled by its message because the callers dispatch
    on the message. *)
Inductive outcome (A : Type) : Type :=
  | Ret (a : A)
  | Throw (e : string).
Arguments Ret {A} a.
Arguments Throw {A} e.

Definition M (S A : Type) : Type := S → outcome (A * S).

Definition ret {S A} (a : A) : M S A := λ s, Ret (a, s).
Definition throw {S A} (e : string) : M S A := λ _, Throw e.
Definition bind {S A B} (m : M S A) (f : A → M S B) : M S B := λ s,
  match m s with
  | Ret (a, s1) => f a s1
  | Throw e => Throw e
  end.
Definition gets {S A} (f : S → A) : M S A := λ s, Ret (f s, s).
Definition modify {S} (f : S → S) : M S unit := λ s, Ret (tt, f s).
(** [if (!b) throw new Error(e)] *)
Definition require {S} (b : bool) (e : string) : M S unit :=
  if b then ret tt else throw e.
(** [rows[0]] with a throw when there is none *)
Definition get_or {S A} (o : option A) (e : string) : M S A :=
  match o with Some a => ret a | None => throw e end.

Notation "'let*' x ':=' m 'in' k" := (bind m (λ x, k))
  (at level 10, x pattern, m at level 100, k at level 200) : prog_scope.
Notation "m ;;; k" := (bind m (λ _, k))
  (at level 100, k at level 200, right associativity) : prog_scope.
Open Scope prog_scope.

(** [for (const x of l) { ... }] *)
Fixpoint foreach {S A} (l : list A) (f : A → M S unit) : M S unit :=
  match l with
  | [] => ret tt
  | x :: l' => f x ;;; foreach l' f
  end.

(** [db.transaction(run)]: COMMIT on return, ROLLBACK and rethrow on a throw. *)
Definition transaction {S A} (m : M S A) (s : S) : outcome A * S :=
  match m s with
  | Ret (a, s') => (Ret a, s')
  | Throw e => (Throw e, s)
  end.

Section Inversion.
Context {S A B : Type}.

Lemma bind_Ret (m : M S A) (f : A → M S B) s a s1 :
  m s = Ret (a, s1) → bind m f s = f a s1.
Proof. unfold bind. by intros ->. Qed.

Lemma bind_Throw (m : M S A) (f : A → M S B) s e :
  m s = Throw e → bind m f s = Throw e.
Proof. unfold bind. by intros ->. Qed.

Lemma bind_Ret_inv (m : M S A) (f : A → M S B) s b s' :
  bind m f s = Ret (b, s') → ∃ a s1, m s = Ret (a, s1) ∧ f a s1 = Ret (b, s').
Proof.
  unfold bind. destruct (m s) as [[a s1]|e] eqn:E; [eauto|done].
Qed.

Lemma ret_inv (a : A) s b s' : @ret S A a s = Ret (b, s') → b = a ∧ s' = s.
Proof. unfold ret. by intros [= -> ->]. Qed.

Lemma require_inv (c : bool) e (s : S) u s' :
  require c e s = Ret (u, s') → c = true ∧ s' = s.
Proof. unfold require, ret, throw. destruct c; by intros [=]. Qed.

Lemma require_true (c : bool) e (s : S) : c = true → require c e s = Ret (tt, s).
Proof. by intros ->. Qed.

Lemma require_false (c : bool) e (s : S) : c = false → require c e s = Throw e.
Proof. by intros ->. Qed.

Lemma get_or_Some (o : option A) e (s : S) a : o = Some a → get_or o e s = Ret (a, s).
Proof. by intros ->. Qed.

Lemma get_or_inv (o : option A) e (s : S) a s' :
  get_or o e s = Ret (a, s') → o = Some a ∧ s' = s.
Proof. unfold get_or, ret, throw. destruct o; intros [=]; by subst. Qed.

Lemma gets_inv (f : S → A) s a s' : gets f s = Ret (a, s') → a = f s ∧ s' = s.
Proof. unfold gets. by intros [= -> ->]. Qed.

Lemma modify_inv (f : S → S) s u s' : modify f s = Ret (u, s') → s' = f s.
Proof. unfold modify. by intros [= _ ->]. Qed.

Lemma transaction_Ret (m : M S A) s a s' :
  transaction m s = (Ret a, s') → m s = Ret (a, s').
Proof. unfold transaction. destruct (m s) as [[??]|?]; by intros [= -> ->]. Qed.

Lemma transaction_Throw (m : M S A) s e s' :
  transaction m s = (Throw e, s') → m s = Throw e ∧ s' = s.
Proof. unfold transaction. destruct (m s) as [[??]|?]; intros [=]; by subst. Qed.
End Inversion.

(** ** Invariants of programs *)
Definition preserves {S A} (I : S → Prop) (m : M S A) : Prop :=
  ∀ s a s', I s → m s = Ret (a, s') → I s'.

Create HintDb prog discriminated.
Create Rewrite HintDb prog.

Section Preserves.
Context {S : Type} (I : S → Prop).

Lemma preserves_ret {A} (a : A) : preserves I (ret a).
Proof. intros s b s' HI [= _ <-]. done. Qed.

Lemma preserves_throw {A} e : preserves I (@throw S A e).
Proof. intros s b s' _ [=]. Qed.

Lemma preserves_gets {A} (f : S → A) : preserves I (gets f).
Proof. intros s b s' HI [= _ <-]. done. Qed.

Lemma preserves_require b e : preserves I (require b e).
Proof. unfold require. destruct b; [apply preserves_ret | apply preserves_throw]. Qed.

Lemma preserves_get_or {A} (o : option A) e : preserves I (get_or o e).
Proof. unfold get_or. destruct o; [apply preserves_ret | apply preserves_throw]. Qed.

Lemma preserves_bind {A B} (m : M S A) (f : A → M S B) :
  preserves I m → (∀ a, preserves I (f a)) → preserves I (bind m f).
Proof.
  intros Hm Hf s b s' HI Hrun.
  apply bind_Ret_inv in Hrun as (a & s1 & H1 & H2). apply (Hf a s1 b s'); [|done]. by apply (Hm s a s1).
Qed.

Lemma preserves_foreach {A} (l : list A) (f : A → M S unit) :
  (∀ x, preserves I (f x)) → preserves I (foreach l f).
Proof.
  intros Hf. induction l as [|x l IH]; simpl; [apply preserves_ret|].
  apply preserves_bind; auto.
Qed.
End Preserves.

#[export] Hint Resolve preserves_ret preserves_throw preserves_gets
  preserves_require preserves_get_or preserves_bind preserves_foreach : prog.

(** ** Processes

    A process runs several statements and transactions: what was committed before a throw
    stays. [try_catch p h] is [try { p } catch (e) { h(e) }]. *)
Definition Proc (S A : Type) : Type := S → outcome A * S.
Definition pret {S A} (a : A) : Proc S A := λ s, (Ret a, s).
Definition pthrow {S A} (e : string) : Proc S A := λ s, (Throw e, s).
Definition pbind {S A B} (p : Proc S A) (f : A → Proc S B) : Proc S B := λ s,
  match p s with
  | (Ret a, s1) => f a s1
  | (Throw e, s1) => (Throw e, s1)
  end.
Definition try_catch {S A} (p : Proc S A) (h : string → Proc S A) : Proc S A := λ s,
  match p s with
  | (Ret a, s1) => (Ret a, s1)
  | (Throw e, s1) => h e s1
  end.
Notation "'do*' x ':=' p 'in' k" := (pbind p (λ x, k))
  (at level 10, x pattern, p at level 100, k at level 200) : prog_scope.
Notation "p >>> k" := (pbind p (λ _, k))
  (at level 100, k at level 200, right associativity) : prog_scope.

(** Triples: from a state of [P] the process returns a value and a state of [Q], or throws
    in a state of [E]. *)
Definition hoare {S A} (P : S → Prop) (p : Proc S A) (Q : A → S → Prop) (E : S → Prop) : Prop :=
  ∀ s, P s → match p s with (Ret a, s') => Q a s' | (Throw _, s') => E s' end.

Section Hoare.
Context {S : Type}.
Implicit Types P E : S → Prop.

Lemma hoare_ret {A} P E (a : A) (Q : A → S → Prop) :
  (∀ s, P s → Q a s) → hoare P (pret a) Q E.
Proof. intros HPQ s Hs. by apply HPQ. Qed.

Lemma hoare_throw {A} P E e (Q : A → S → Prop) : (∀ s, P s → E s) → hoare P (pthrow e) Q E.
Proof. intros HPE s Hs. by apply HPE. Qed.

Lemma hoare_bind {A B} P (p : Proc S A) R (f : A → Proc S B) Q E :
  hoare P p R E → (∀ a, hoare (R a) (f a) Q E) → hoare P (pbind p f) Q E.
Proof.
  intros Hp Hf s Hs. specialize (Hp s Hs). unfold pbind.
  destruct (p s) as [[a|e] s1]; [by apply Hf|done].
Qed.

Lemma hoare_catch {A} P (p : Proc S A) h (Q : A → S → Prop) R E :
  hoare P p Q R → (∀ e, hoare R (h e) Q E) → hoare P (try_catch p h) Q E.
Proof.
  intros Hp Hh s Hs. specialize (Hp s Hs). unfold try_catch.
  destruct (p s) as [[a|e] s1]; [done|by apply Hh].
Qed.

Lemma hoare_pre {A} P P' (p : Proc S A) Q E :
  (∀ s, P s → P' s) → hoare P' p Q E → hoare P p Q E.
Proof. intros HP Hp s Hs. by apply Hp, HP. Qed.

Lemma hoare_post {A} P (p : Proc S A) Q Q' E :
  (∀ a s, Q' a s → Q a s) → hoare P p Q' E → hoare P p Q E.
Proof.
  intros HQ Hp s Hs. specialize (Hp s Hs). destruct (p s) as [[a|e] s1]; [by apply HQ|done].
Qed.

Lemma hoare_post_throw {A} P (p : Proc S A) Q E E' :
  (∀ s, E' s → E s) → hoare P p Q E' → hoare P p Q E.
Proof.
  intros HE Hp s Hs. specialize (Hp s Hs). destruct (p s) as [[a|e] s1]; [done|by apply HE].
Qed.

Lemma hoare_exists {A X} (P : X → S → Prop) (p : Proc S A) Q E :
  (∀ x, hoare (P x) p Q E) → hoare (λ s, ∃ x, P x s) p Q E.
Proof. intros Hp s [x Hs]. by apply (Hp x). Qed.

(** A fact that does not depend on the state. *)
Lemma hoare_pure {A} (F : Prop) P (p : Proc S A) Q E :
  (F → hoare P p Q E) → hoare (λ s, F ∧ P s) p Q E.
Proof. intros Hp s [HF Hs]. by apply Hp. Qed.
End Hoare.

(** A process over a database [D]: the messages of type [X] it handed to other services (a
    ghost), and the number of statements after which it stops, if it does. *)
Record node (D X : Type) := Node { nd_db : D; nd_sent : list X; nd_budget : option nat }.
Arguments Node {D X} _ _ _.
Arguments nd_db {D X} _.
Arguments nd_sent {D X} _.
Arguments nd_budget {D X} _.

(** One transaction or statement. *)
Definition tx {D X A} (m : M D A) : Proc (node D X) A := λ n,
  match nd_budget n with
  | Some O => (Throw "stopped", n)
  | b =>
      let '(r, d) := transaction m (nd_db n) in
      (r, Node d (nd_sent n) (pred <$> b))
  end.
(** One call of another service, with its answer. *)
Definition send {D X A} (x : X) (answer : A) : Proc (node D X) A := λ n,
  match nd_budget n with
  | Some O => (Throw "stopped", n)
  | b => (Ret answer, Node (nd_db n) (nd_sent n ++ [x]) (pred <$> b))
  end.

Definition at_ {D X} (P : D → Prop) (n : node D X) : Prop := P (nd_db n).

Section Nodes.
Context {D X : Type}.
Implicit Types P E : D → Prop.

Lemma hoare_tx {A} P (m : M D A) Q E :
  (∀ d, P d → match m d with Ret (a, d') => Q a d' | Throw _ => True end) →
  (∀ d, P d → E d) →
  hoare (at_ (X := X) P) (tx m) (λ a, at_ (Q a)) (at_ E).
Proof.
  intros Hm HE n Hn. unfold tx, transaction, at_ in *.
  destruct (nd_budget n) as [[|b]|]; [by apply HE| |];
    (specialize (Hm _ Hn); destruct (m (nd_db n)) as [[a d]|e]; [done|by apply HE]).
Qed.

Lemma hoare_read {A} P E (f : D → A) :
  (∀ d, P d → E d) →
  hoare (at_ (X := X) P) (tx (gets f)) (λ a, at_ (λ d, P d ∧ a = f d)) (at_ E).
Proof. intros HE. by apply hoare_tx. Qed.

Lemma hoare_send {A} P E (x : X) (a : A) :
  (∀ d, P d → E d) → hoare (at_ P) (send x a) (λ _, at_ P) (at_ E).
Proof.
  intros HE n Hn. unfold send, at_ in *. by destruct (nd_budget n) as [[|b]|]; [apply HE| |].
Qed.

(** Triples of a process that is not stopped: it throws only where a transaction does. *)
Definition unstopped (P : D → Prop) (n : node D X) : Prop := nd_budget n = None ∧ P (nd_db n).

Lemma hoare_tx_live {A} P (m : M D A) Q E :
  (∀ d, P d → match m d with Ret (a, d') => Q a d' | Throw _ => E d end) →
  hoare (unstopped P) (tx m) (λ a, unstopped (Q a)) (unstopped E).
Proof.
  intros Hm n [Hb Hn]. unfold tx, transaction. rewrite Hb. specialize (Hm _ Hn).
  by destruct (m (nd_db n)) as [[a d]|e].
Qed.

Lemma hoare_send_live {A} P E (x : X) (a : A) :
  hoare (unstopped P) (send x a) (λ b, unstopped (λ d, b = a ∧ P d)) (unstopped E).
Proof. intros n [Hb Hn]. unfold send. by rewrite Hb. Qed.

Lemma pbind_tx {A B} (m : M D A) (f : A → Proc (node D X) B) n a d :
  nd_budget n = None → m (nd_db n) = Ret (a, d) →
  pbind (tx m) f n = f a (Node d (nd_sent n) None).
Proof. intros Hb Hm. unfold pbind, tx, transaction. by rewrite Hb, Hm. Qed.
End Nodes.

(** ** Tables owned by another component

    A component that embeds another component's tables is an instance of
    [Store]; the owner's operations run on the embedding state by [zoom]. *)
Class Store (S T : Type) := {
  sget : S → T;
  sput : T → S → S;
  sget_sput : ∀ t s, sget (sput t s) = t;
  sput_sget : ∀ s, sput (sget s) s = s;
  sput_sput : ∀ t t' s, sput t (sput t' s) = sput t s;
}.
#[export] Hint Rewrite @sget_sput @sput_sget @sput_sput : prog.

Definition zoom {S T A} `{Store S T} (m : M T A) : M S A := λ s,
  match m (sget s) with
  | Ret (a, t) => Ret (a, sput t s)
  | Throw e => Throw e
  end.

Lemma zoom_inv {S T A} `{Store S T} (m : M T A) (s : S) a s' :
  zoom m s = Ret (a, s') → ∃ t, m (sget s) = Ret (a, t) ∧ s' = sput t s.
Proof. unfold zoom. destruct (m (sget s)) as [[??]|?]; intros [=]; subst; eauto. Qed.

Lemma zoom_Ret {S T A} `{Store S T} (m : M T A) (s : S) a t :
  m (sget s) = Ret (a, t) → zoom m s = Ret (a, sput t s).
Proof. unfold zoom. by intros ->. Qed.

(** [run_inv H] peels one statement off [H : p s = Ret _]; [run_all H] peels
    every statement it can. *)
Ltac run_inv H :=
  lazymatch type of H with
  | bind _ _ _ = Ret _ =>
      let a := fresh "a" in let s := fresh "st" in let Hm := fresh "Hm" in
      apply bind_Ret_inv in H as (a & s & Hm & H); simpl in H;
      try (run_inv Hm)
  | ret _ _ = Ret _ =>
      first [apply ret_inv in H as [-> ->] | apply ret_inv in H as [_ ->]]
  | throw _ _ = Ret _ => discriminate H
  | require _ _ _ = Ret _ =>
      let Hc := fresh "Hc" in apply require_inv in H as [Hc ->]
  | get_or _ _ _ = Ret _ =>
      let Hc := fresh "Hc" in apply get_or_inv in H as [Hc ->]
  | gets _ _ = Ret _ => apply gets_inv in H as [-> ->]
  | modify _ _ = Ret _ => apply modify_inv in H as ->
  | zoom _ _ = Ret _ =>
      let t := fresh "t" in apply zoom_inv in H as (t & H & ->); simpl in H; try (run_inv H)
  | (if ?b then _ else _) _ = Ret _ =>
      let E := fresh "E" in destruct b eqn:E; simpl in H; try (run_inv H)
  | match ?b with _ => _ end _ = Ret _ =>
      let E := fresh "E" in destruct b eqn:E; simpl in H; try (run_inv H)
  end.
Ltac run_all H := repeat (run_inv H).

(** ** Sums over finite maps *)
Section MapSum.
Context {K V : Type} `{Countable K}.

(** [msum f m] is the sum of [f k v] over the entries of [m]. *)
Definition msum (f : K → V → Z) (m : gmap K V) : Z :=
  map_fold (λ k v acc, f k v + acc) 0 m.

Lemma msum_empty f : msum f ∅ = 0.
Proof. apply map_fold_empty. Qed.

Lemma msum_insert_None f (m : gmap K V) k v :
  m !! k = None → msum f (<[k := v]> m) = f k v + msum f m.
Proof.
  intros Hk. unfold msum. rewrite map_fold_insert_L; [done| |done].
  intros; lia.
Qed.

Lemma msum_lookup f (m : gmap K V) k v :
  m !! k = Some v → msum f m = f k v + msum f (delete k m).
Proof.
  intros Hk. rewrite <- (insert_delete_id m k v Hk) at 1.
  apply msum_insert_None, lookup_delete_eq.
Qed.

Lemma msum_insert_Some f (m : gmap K V) k v v0 :
  m !! k = Some v0 → msum f (<[k := v]> m) = msum f m - f k v0 + f k v.
Proof.
  intros Hk. rewrite (msum_lookup f m k v0 Hk).
  rewrite <- insert_delete_eq, msum_insert_None by apply lookup_delete_eq. lia.
Qed.

Lemma msum_nonneg f (m : gmap K V) :
  (∀ k v, m !! k = Some v → 0 ≤ f k v) → 0 ≤ msum f m.
Proof.
  induction m as [|k v m Hk IH] using map_ind; intros Hpos.
  - by rewrite msum_empty.
  - rewrite msum_insert_None by done.
    assert (0 ≤ f k v) by (apply Hpos; apply lookup_insert_eq).
    assert (0 ≤ msum f m); [|lia]. apply IH. intros k' v' Hk'. apply Hpos.
    rewrite lookup_insert_ne; [done|]. intros ->. congruence.
Qed.

Lemma msum_ext f g (m : gmap K V) :
  (∀ k v, m !! k = Some v → f k v = g k v) → msum f m = msum g m.
Proof.
  induction m as [|k v m Hk IH] using map_ind; intros Heq; [done|].
  rewrite !msum_insert_None by done. f_equal.
  - apply Heq, lookup_insert_eq.
  - apply IH. intros k' v' Hk'. apply Heq.
    rewrite lookup_insert_ne; [done|]. intros ->. congruence.
Qed.

Lemma msum_zero (m : gmap K V) : msum (λ _ _, 0) m = 0.
Proof.
  induction m as [|k v m Hk IH] using map_ind; [apply msum_empty|].
  by rewrite msum_insert_None, IH.
Qed.
End MapSum.
#[export] Hint Rewrite @msum_empty : prog.

(** Sums over lists. *)
Definition lsum {A} (f : A → Z) (l : list A) : Z := foldr (λ x acc, f x + acc) 0 l.

Lemma lsum_app {A} (f : A → Z) l1 l2 : lsum f (l1 ++ l2) = lsum f l1 + lsum f l2.
Proof. induction l1 as [|x l1 IH]; simpl; [done|]. unfold lsum in *. simpl. lia. Qed.

Lemma lsum_snoc {A} (f : A → Z) l x : lsum f (l ++ [x]) = lsum f l + f x.
Proof. rewrite lsum_app. unfold lsum. simpl. lia. Qed.

Lemma lsum_insert {A} (f : A → Z) l i x y :
  l !! i = Some x → lsum f (<[i := y]> l) = lsum f l - f x + f y.
Proof.
  revert i. induction l as [|z l IH]; intros [|i] Hi; simplify_eq/=; [lia|].
  rewrite IH by done. lia.
Qed.

Lemma lsum_0 {A} (f : A → Z) l : (∀ i x, l !! i = Some x → f x = 0) → lsum f l = 0.
Proof.
  induction l as [|x l IH]; intros Hf; [done|]. simpl.
  rewrite (Hf 0%nat x), IH by (done || (intros i; apply (Hf (S i)))). done.
Qed.

Lemma lsum_nonneg {A} (f : A → Z) l : (∀ x, x ∈ l → 0 ≤ f x) → 0 ≤ lsum f l.
Proof.
  induction l as [|x l IH]; intros Hpos; [done|]. simpl.
  assert (0 ≤ f x) by (apply Hpos; left).
  assert (0 ≤ lsum f l) by (apply IH; intros y Hy; apply Hpos; by right).
  unfold lsum in *. lia.
Qed.
#[export] Hint Rewrite @lsum_app @lsum_snoc : prog.

(** [a.sort(cmp)] with [le x y] for [cmp(x, y) <= 0]: a stable sort. *)
Fixpoint sort_insert {A} (le : A → A → bool) (x : A) (l : list A) : list A :=
  match l with
  | [] => [x]
  | y :: l' => if le x y then x :: y :: l' else y :: sort_insert le x l'
  end.
Definition sort_by {A} (le : A → A → bool) (l : list A) : list A := foldr (sort_insert le) [] l.

Lemma sort_insert_Permutation {A} (le : A → A → bool) x l : sort_insert le x l ≡ₚ x :: l.
Proof.
  induction l as [|y l IH]; [done|]. simpl. destruct (le x y); [done|].
  rewrite IH. apply Permutation_swap.
Qed.

Lemma sort_by_Permutation {A} (le : A → A → bool) l : sort_by le l ≡ₚ l.
Proof.
  induction l as [|x l IH]; [done|]. simpl. by rewrite sort_insert_Permutation, IH.
Qed.

(** [Array.from(new Map(l.map(x => [key(x), x])).values())] for values that their key
    determines: the first of each key. *)
Fixpoint dedup_by {A} (key : A → string) (seen : list string) (l : list A) : list A :=
  match l with
  | [] => []
  | x :: l' => if bool_decide (key x ∈ seen) then dedup_by key seen l'
               else x :: dedup_by key (key x :: seen) l'
  end.

Lemma sort_insert_elem {A} (le : A → A → bool) x y l : y ∈ sort_insert le x l ↔ y = x ∨ y ∈ l.
Proof.
  induction l as [|z l IH]; simpl; [set_solver|].
  destruct (le x z); set_solver.
Qed.

Lemma sort_by_elem {A} (le : A → A → bool) y l : y ∈ sort_by le l ↔ y ∈ l.
Proof.
  induction l as [|x l IH]; [done|]. simpl. rewrite sort_insert_elem, IH. set_solver.
Qed.

(** The head of a sorted list is below every element. *)
Lemma sort_by_head {A} (le : A → A → bool) l x :
  (∀ a b, le a b = true ∨ le b a = true) →
  (∀ a b c, le a b = true → le b c = true → le a c = true) →
  head (sort_by le l) = Some x → ∀ y, y ∈ l → le x y = true.
Proof.
  intros Htot Htrans. revert x. induction l as [|z l IH]; intros x Hx y Hy; [set_solver|].
  simpl in Hx. destruct (sort_by le l) as [|h l'] eqn:E; simpl in Hx.
  - injection Hx as ->. assert (l = []) as ->.
    { destruct l as [|a l]; [done|]. assert (a ∈ sort_by le (a :: l)) as Ha
        by (apply sort_by_elem; left). rewrite E in Ha. by apply not_elem_of_nil in Ha. }
    apply elem_of_cons in Hy as [->|Hy]; [by destruct (Htot x x)|set_solver].
  - pose proof (IH h eq_refl) as Hh. destruct (le z h) eqn:Ez; injection Hx as <-;
      apply elem_of_cons in Hy as [->|Hy]; eauto; [by destruct (Htot z z)|].
    destruct (Htot h z); congruence.
Qed.

(** ** Reachability *)
Lemma rtc_invariant {S} (R : S → S → Prop) (I : S → Prop) s s' :
  (∀ x y, I x → R x y → I y) → I s → rtc R s s' → I s'.
Proof. intros Hstep HI Hrtc. revert HI. induction Hrtc; eauto. Qed.

(** Runs the next statement of a program on a known state. *)
Ltac step := erewrite bind_Ret;
  [|first [ eassumption | apply get_or_Some; eassumption | apply require_true; eassumption
          | reflexivity | apply require_true ]].

(** Boolean guards to propositions. *)
Ltac bool_prop :=
  repeat match goal with
  | H : (_ && _)%bool = true |- _ => apply andb_prop in H as [??]
  | H : negb _ = true |- _ => apply negb_true_iff in H
  | H : negb _ = false |- _ => apply negb_false_iff in H
  | H : bool_decide _ = true |- _ => apply bool_decide_eq_true in H
  | H : bool_decide _ = false |- _ => apply bool_decide_eq_false in H
  | H : (_ || _)%bool = false |- _ => apply orb_false_elim in H as [??]
  | H : (_ <=? _) = true |- _ => apply Z.leb_le in H
  | H : (_ <=? _) = false |- _ => apply Z.leb_gt in H
  | H : (_ <? _) = true |- _ => apply Z.ltb_lt in H
  | H : (_ <? _) = false |- _ => apply Z.ltb_ge in H
  | H : (_ =? _) = true |- _ => apply Z.eqb_eq in H
  | H : (_ =? _) = false |- _ => apply Z.eqb_neq in H
  | H : String.eqb _ _ = true |- _ => apply String.eqb_eq in H
  | H : String.eqb _ _ = false |- _ => apply String.eqb_neq in H
  end.
