(* ===== verification/Threads.v ===== *)
(** * Interleaved processes

    Several requests and jobs run against one database at the same time: each is a
    [thread], a program whose statements are atomic and may fail, and a [pool] runs the
    threads in any order, beside steps of the environment. [safe] is the rely-guarantee
    reading of a thread: it holds under every interference that keeps the invariant [I]
    and is allowed by [G]; [pool_safe] makes an invariant of all runs from it. *)
From stdpp Require Import base list strings relations.
From S2P Require Import Prelude.
Local Open Scope prog_scope.

(** [await]ed statements; what follows is given the answer, or the error of a statement
    that failed. *)
Inductive thread (D A : Type) : Type :=
  | Done (o : outcome A)
  | Stmt {X : Type} (m : M D X) (k : outcome X → thread D A).
Arguments Done {D A} o.
Arguments Stmt {D A X} m k.

Definition tret {D A} (a : A) : thread D A := Done (Ret a).
Definition tthrow {D A} (e : string) : thread D A := Done (Throw e).
(** One transaction or statement on its own connection. *)
Definition stmt {D A} (m : M D A) : thread D A := Stmt m Done.
Fixpoint tbind {D A B} (t : thread D A) (f : A → thread D B) : thread D B :=
  match t with
  | Done (Ret a) => f a
  | Done (Throw e) => tthrow e
  | Stmt m k => Stmt m (λ o, tbind (k o) f)
  end.
(** [try { t } catch (e) { h(e) }] *)
Fixpoint tcatch {D A} (t : thread D A) (h : string → thread D A) : thread D A :=
  match t with
  | Done (Ret a) => tret a
  | Done (Throw e) => h e
  | Stmt m k => Stmt m (λ o, tcatch (k o) h)
  end.
Notation "'await*' x ':=' t 'in' k" := (tbind t (λ x, k))
  (at level 10, x pattern, t at level 100, k at level 200) : prog_scope.

(** [for (const x of l) { acc = await f(acc, x) }] *)
Fixpoint tfold {D A B} (f : B → A → thread D B) (acc : B) (l : list A) : thread D B :=
  match l with
  | [] => tret acc
  | x :: l' => await* acc' := f acc x in tfold f acc' l'
  end.

(** The outcome of [p], [p.catch(log)], and [try { await p } finally { await q.catch(log) }]. *)
Definition attempt {D A} (p : thread D A) : thread D (outcome A) :=
  tcatch (await* a := p in tret (Ret a)) (λ e, tret (Throw e)).
Definition best_effort {D} (p : thread D unit) : thread D unit := tcatch p (λ _, tret tt).
Definition finally {D A} (p : thread D A) (q : thread D unit) : thread D A :=
  await* o := attempt p in await* _ := best_effort q in Done o.
(** [Promise.all([p, q])] of two requests to different servers, which may be served in either
    order; it fails when one of them does. *)
Definition both {D A B} (second_first : bool) (p : thread D A) (q : thread D B) : thread D (A * B) :=
  if second_first then
    await* b := attempt q in await* a := attempt p in
    await* x := Done a in await* y := Done b in tret (x, y)
  else
    await* a := attempt p in await* b := attempt q in
    await* x := Done a in await* y := Done b in tret (x, y).

Definition db_error : string := "Connection terminated".

(** The next statement, which the database may refuse. *)
Definition advance {D A} (refused : bool) (t : thread D A) (d : D) : option (thread D A * D) :=
  match t with
  | Done _ => None
  | Stmt m k => if refused then Some (k (Throw db_error), d)
                else let '(o, d') := transaction m d in Some (k o, d')
  end.

(** A thread that runs alone. *)
Fixpoint alone {D A} (t : thread D A) (d : D) : outcome A * D :=
  match t with
  | Done o => (o, d)
  | Stmt m k => let '(o, d') := transaction m d in alone (k o) d'
  end.

Lemma alone_stmt {D A} (m : M D A) d : alone (stmt m) d = transaction m d.
Proof. simpl. by destruct (transaction m d). Qed.

Lemma alone_gets {D A} (f : D → A) d : alone (stmt (gets f)) d = (Ret (f d), d).
Proof. done. Qed.

Lemma alone_run {D A} (m : M D A) d a d' : m d = Ret (a, d') → alone (stmt m) d = (Ret a, d').
Proof. intros Hm. rewrite alone_stmt. unfold transaction. by rewrite Hm. Qed.

Lemma alone_advance {D A} (t t' : thread D A) d d' : advance false t d = Some (t', d') → alone t d = alone t' d'.
Proof. destruct t as [o|X m k]; simpl; [done|]. destruct (transaction m d). by intros [= <- <-]. Qed.

Lemma alone_bind {D A B} (t : thread D A) (f : A → thread D B) d :
  alone (tbind t f) d
  = match alone t d with
    | (Ret a, d') => alone (f a) d'
    | (Throw e, d') => (Throw e, d')
    end.
Proof.
  revert d. induction t as [[a|e]|X m k IH]; intros d; simpl; [done|done|].
  destruct (transaction m d) as [o d']. apply IH.
Qed.

Lemma alone_catch {D A} (t : thread D A) h d :
  alone (tcatch t h) d
  = match alone t d with
    | (Ret a, d') => (Ret a, d')
    | (Throw e, d') => alone (h e) d'
    end.
Proof.
  revert d. induction t as [[a|e]|X m k IH]; intros d; simpl; [done|done|].
  destruct (transaction m d) as [o d']. apply IH.
Qed.

Lemma alone_best_effort {D} (m : M D unit) d :
  alone (best_effort (stmt m)) d = (Ret tt, match m d with Ret (_, d') => d' | Throw _ => d end).
Proof. simpl. unfold transaction. by destruct (m d) as [[[] d']|]. Qed.
Lemma alone_attempt {D A} (t : thread D A) d : alone (attempt t) d = (Ret (alone t d).1, (alone t d).2).
Proof.
  unfold attempt. rewrite alone_catch, alone_bind. by destruct (alone t d) as [[a|e] d'].
Qed.
(** When both succeed alone. *)
Lemma alone_both {D A B} (p : thread D A) (q : thread D B) f d :
  alone (both f p q) d =
  if f then let '(b, d1) := alone q d in let '(a, d2) := alone p d1 in
            (match a, b with Ret x, Ret y => Ret (x, y) | Ret _, Throw e => Throw e | Throw e, _ => Throw e end, d2)
  else let '(a, d1) := alone p d in let '(b, d2) := alone q d1 in
            (match a, b with Ret x, Ret y => Ret (x, y) | Ret _, Throw e => Throw e | Throw e, _ => Throw e end, d2).
Proof.
  destruct f; unfold both; rewrite alone_bind, alone_attempt.
  - destruct (alone q d) as [b d1]. simpl. rewrite alone_bind, alone_attempt.
    destruct (alone p d1) as [[x|e] d2], b; done.
  - destruct (alone p d) as [a d1]. simpl. rewrite alone_bind, alone_attempt.
    destruct (alone q d1) as [[y|e] d2], a; done.
Qed.

(** A schedule: which thread takes a step, and whether its statement is refused. A choice
    that has no step is skipped. *)
Fixpoint schedule {D A} (l : list (nat * bool)) (p : D * list (thread D A)) : D * list (thread D A) :=
  match l with
  | [] => p
  | (i, refused) :: l' =>
      schedule l'
        match p.2 !! i with
        | Some t => match advance refused t p.1 with
                    | Some (t', d') => (d', <[i := t']> p.2)
                    | None => p
                    end
        | None => p
        end
  end.

Lemma schedule_app {D A} l1 l2 (p : D * list (thread D A)) :
  schedule (l1 ++ l2) p = schedule l2 (schedule l1 p).
Proof. revert p. induction l1 as [|[i refused] l1 IH]; intros p; simpl; [done|apply IH]. Qed.

Lemma schedule_head {D A} (t t' : thread D A) d d' s l :
  advance false t d = Some (t', d') → schedule ((0%nat, false) :: l) (d, t :: s) = schedule l (d', t' :: s).
Proof. intros Ha. simpl. by rewrite Ha. Qed.
Lemma schedule_first {D A} (t t' s : thread D A) d d' l :
  advance false t d = Some (t', d') → schedule ((0%nat, false) :: l) (d, [t; s]) = schedule l (d', [t'; s]).
Proof. apply schedule_head. Qed.
Lemma schedule_second {D A} (t t' s : thread D A) d d' l :
  advance false t d = Some (t', d') → schedule ((1%nat, false) :: l) (d, [s; t]) = schedule l (d', [s; t']).
Proof. intros Ha. simpl. by rewrite Ha. Qed.

(** A thread that is given the next steps runs as it does alone. *)
Lemma schedule_alone {D A} i (t : thread D A) d ts :
  ts !! i = Some t →
  ∃ n, schedule (repeat (i, false) n) (d, ts) = ((alone t d).2, <[i := Done (alone t d).1]> ts).
Proof.
  revert d ts. induction t as [o|X m k IH]; intros d ts Hi.
  - exists 0%nat. simpl. by rewrite list_insert_id.
  - destruct (transaction m d) as [o d'] eqn:E.
    destruct (IH o d' (<[i := k o]> ts)) as [n Hn].
    { apply list_lookup_insert_eq. by apply lookup_lt_Some in Hi. }
    exists (S n). simpl. rewrite Hi. simpl. rewrite E, Hn. by rewrite list_insert_insert_eq.
Qed.

(** One thread after the other. *)
Lemma schedule_both {D A} (t1 t2 : thread D A) d o1 d1 o2 d2 :
  alone t1 d = (o1, d1) → alone t2 d1 = (o2, d2) →
  ∃ l, schedule l (d, [t1; t2]) = (d2, [Done o1; Done o2]).
Proof.
  intros H1 H2. destruct (schedule_alone 0 t1 d [t1; t2] eq_refl) as [n Hn].
  destruct (schedule_alone 1 t2 d1 [Done o1; t2] eq_refl) as [m Hm].
  exists (repeat (0%nat, false) n ++ repeat (1%nat, false) m). rewrite schedule_app, Hn, H1. simpl.
  by rewrite Hm, H2.
Qed.

Lemma schedule_both_swapped {D A} (t1 t2 : thread D A) d o1 d1 o2 d2 :
  alone t2 d = (o2, d1) → alone t1 d1 = (o1, d2) →
  ∃ l, schedule l (d, [t1; t2]) = (d2, [Done o1; Done o2]).
Proof.
  intros H2 H1. destruct (schedule_alone 1 t2 d [t1; t2] eq_refl) as [m Hm].
  destruct (schedule_alone 0 t1 d1 [t1; Done o2] eq_refl) as [n Hn].
  exists (repeat (1%nat, false) m ++ repeat (0%nat, false) n). rewrite schedule_app, Hm, H2. simpl.
  by rewrite Hn, H1.
Qed.

Section Pools.
Context {D A : Type}.

(** Steps of a pool: a thread takes its next step, the environment changes the state, or
    a thread starts. A thread that never runs again has crashed. *)
Inductive pool_step (R : D → D → Prop) (starts : D → thread D A → Prop) :
    D * list (thread D A) → D * list (thread D A) → Prop :=
  | pool_run i refused t t' d d' ts :
      ts !! i = Some t → advance refused t d = Some (t', d') →
      pool_step R starts (d, ts) (d', <[i := t']> ts)
  | pool_env d d' ts : R d d' → pool_step R starts (d, ts) (d', ts)
  | pool_start t d ts : starts d t → pool_step R starts (d, ts) (d, ts ++ [t]).

Lemma schedule_steps R starts l p : rtc (pool_step R starts) p (schedule l p).
Proof.
  revert p. induction l as [|[i refused] l IH]; intros [d ts]; simpl; [done|].
  destruct (ts !! i) as [t|] eqn:Hi; [|apply IH].
  destruct (advance refused t d) as [[t' d']|] eqn:Ha; [|apply IH].
  eapply rtc_l; [by eapply pool_run|]. apply IH.
Qed.

(** A pool of threads that start in one state. *)
Lemma schedule_pool R (starts : D → thread D A → Prop) d ts l :
  Forall (starts d) ts → rtc (pool_step R starts) (d, []) (schedule l (d, ts)).
Proof.
  intros Hts. transitivity (d, ts); [|apply schedule_steps].
  assert (∀ ts0, rtc (pool_step R starts) (d, ts0) (d, ts0 ++ ts)) as Hs; [|apply (Hs [])]. induction Hts as [|t ts Ht Hts IH]; intros ts0; [by rewrite app_nil_r|].
  eapply rtc_l; [by apply (pool_start _ _ t)|]. replace (ts0 ++ t :: ts) with ((ts0 ++ [t]) ++ ts) by by rewrite <- app_assoc.
  apply IH.
Qed.
End Pools.

(** ** Rely and guarantee *)
Section Safe.
Context {D : Type} (I : D → Prop) (G : D → D → Prop).
Context (G_refl : ∀ d, G d d) (G_trans : ∀ d1 d2 d3, G d1 d2 → G d2 d3 → G d1 d3).

Fixpoint safe {A} (t : thread D A) (Q : outcome A → D → Prop) (d : D) : Prop :=
  match t with
  | Done o => I d ∧ Q o d
  | Stmt m k => ∀ d', I d' → G d d' →
      safe (k (Throw db_error)) Q d' ∧
      let '(o, d'') := transaction m d' in I d'' ∧ G d' d'' ∧ safe (k o) Q d''
  end.

(** An assertion no allowed interference invalidates. *)
Definition stable (P : D → Prop) : Prop := ∀ d d', I d → I d' → P d → G d d' → P d'.

Lemma stable_and P P' : stable P → stable P' → stable (λ d, P d ∧ P' d).
Proof. intros H1 H2 d d' Hd Hd' [Hp Hp'] HG. split; [by apply (H1 d)|by apply (H2 d)]. Qed.
Lemma stable_const (F : Prop) : stable (λ _, F).
Proof. by intros d d'. Qed.
Lemma stable_all {X} (P : X → D → Prop) : (∀ x, stable (P x)) → stable (λ d, ∀ x, P x d).
Proof. intros Hs d d' Hd Hd' HP HG x. by apply (Hs x d d'). Qed.

Definition spec {A} (P : D → Prop) (t : thread D A) (Q : outcome A → D → Prop) : Prop :=
  ∀ d, I d → P d → safe t Q d.

Lemma safe_mono {A} (t : thread D A) (Q Q' : outcome A → D → Prop) d :
  (∀ o d, I d → Q o d → Q' o d) → safe t Q d → safe t Q' d.
Proof.
  intros HQ. revert d. induction t as [o|X m k IH]; intros d; simpl.
  - intros [Hd Ho]. split; auto.
  - intros Hs d' Hd' HG. destruct (Hs d' Hd' HG) as [Ht Hm]. split; [by apply IH|].
    destruct (transaction m d') as [o d'']. destruct Hm as (? & ? & ?). auto.
Qed.

Lemma safe_bind {A B} (t : thread D A) (f : A → thread D B) Q d :
  safe t (λ o d, match o with Ret a => safe (f a) Q d | Throw e => Q (Throw e) d end) d →
  safe (tbind t f) Q d.
Proof.
  revert d. induction t as [[a|e]|X m k IH]; intros d; simpl; [by intros [_ ?]|done|].
  intros Hs d' Hd' HG. destruct (Hs d' Hd' HG) as [Ht Hm]. split; [by apply IH|].
  destruct (transaction m d') as [o d'']. destruct Hm as (? & ? & ?). auto.
Qed.

Lemma safe_catch {A} (t : thread D A) h Q d :
  safe t (λ o d, match o with Ret a => Q (Ret a) d | Throw e => safe (h e) Q d end) d →
  safe (tcatch t h) Q d.
Proof.
  revert d. induction t as [[a|e]|X m k IH]; intros d; simpl; [done|by intros [_ ?]|].
  intros Hs d' Hd' HG. destruct (Hs d' Hd' HG) as [Ht Hm]. split; [by apply IH|].
  destruct (transaction m d') as [o d'']. destruct Hm as (? & ? & ?). auto.
Qed.

(** A thread that is safe stays so under interference, until it has finished. *)
Lemma safe_stable {A} (t : thread D A) (Q : outcome A → D → Prop) d d' :
  (∀ o, stable (Q o)) → I d' → G d d' → safe t Q d → safe t Q d'.
Proof.
  intros HQ Hd' HG. destruct t as [o|X m k]; simpl.
  - intros [Hd Ho]. split; [done|]. by apply (HQ o d d').
  - intros Hs d1 Hd1 HG1. apply Hs; [done|]. by apply (G_trans d d').
Qed.

Lemma spec_ret {A} P (a : A) (Q : outcome A → D → Prop) :
  (∀ d, I d → P d → Q (Ret a) d) → spec P (tret a) Q.
Proof. intros HQ d Hd HP. simpl. auto. Qed.
Lemma spec_throw {A} P e (Q : outcome A → D → Prop) :
  (∀ d, I d → P d → Q (Throw e) d) → spec P (tthrow e) Q.
Proof. intros HQ d Hd HP. simpl. auto. Qed.

Lemma spec_stmt {A} P (m : M D A) (Q : outcome A → D → Prop) :
  stable P →
  (∀ d, I d → P d → Q (Throw db_error) d) →
  (∀ d, I d → P d → match m d with
                    | Ret (a, d') => I d' ∧ G d d' ∧ Q (Ret a) d'
                    | Throw e => Q (Throw e) d
                    end) →
  spec P (stmt m) Q.
Proof.
  intros HP Hf Hm d Hd Hp. simpl. intros d' Hd' HG.
  pose proof (HP d d' Hd Hd' Hp HG) as Hp'. split; [split; auto|].
  specialize (Hm d' Hd' Hp'). unfold transaction. destruct (m d') as [[a d'']|e].
  - destruct Hm as (? & ? & ?). auto.
  - auto.
Qed.

Lemma spec_bind {A B} P (t : thread D A) (f : A → thread D B) R Q :
  spec P t R → (∀ a, spec (R (Ret a)) (f a) Q) → (∀ e d, I d → R (Throw e) d → Q (Throw e) d) →
  spec P (tbind t f) Q.
Proof.
  intros Ht Hf He d Hd Hp. apply safe_bind. apply (safe_mono _ R); [|by apply Ht].
  intros [a|e] d' Hd' HR; [by apply Hf|by apply He].
Qed.

Lemma spec_catch {A} P (t : thread D A) h R Q :
  spec P t R → (∀ a d, I d → R (Ret a) d → Q (Ret a) d) → (∀ e, spec (R (Throw e)) (h e) Q) →
  spec P (tcatch t h) Q.
Proof.
  intros Ht Ha Hh d Hd Hp. apply safe_catch. apply (safe_mono _ R); [|by apply Ht].
  intros [a|e] d' Hd' HR; [by apply Ha|by apply Hh].
Qed.

Lemma spec_pre {A} P P' (t : thread D A) Q : (∀ d, I d → P d → P' d) → spec P' t Q → spec P t Q.
Proof. intros HP Ht d Hd Hp. apply Ht; auto. Qed.
Lemma spec_post {A} P (t : thread D A) (Q Q' : outcome A → D → Prop) :
  (∀ o d, I d → Q' o d → Q o d) → spec P t Q' → spec P t Q.
Proof. intros HQ Ht d Hd Hp. apply (safe_mono _ Q'); auto. Qed.

(** Frame: an assertion no interference invalidates is still there afterwards. *)
Lemma spec_frame {A} (F : D → Prop) P (t : thread D A) Q :
  stable F → spec P t Q → spec (λ d, F d ∧ P d) t (λ o d, F d ∧ Q o d).
Proof.
  intros HF Ht d Hd [Hf Hp]. specialize (Ht d Hd Hp). clear Hp. revert d Hd Hf Ht.
  induction t as [o|X m k IH]; intros d Hd Hf; simpl.
  - intros [_ ?]. auto.
  - intros Hs d' Hd' HG. destruct (Hs d' Hd' HG) as [Hthrow Hm].
    pose proof (HF d d' Hd Hd' Hf HG) as Hf'. split; [by apply IH|].
    destruct (transaction m d') as [o d'']. destruct Hm as (Hd'' & HG'' & Hk).
    split_and!; [done|done|]. apply IH; [done| |done]. by apply (HF d').
Qed.

(** A fold keeps an assertion that says what is left of the list. *)
Lemma spec_fold {A B} (P : B → list A → D → Prop) (f : B → A → thread D B) (Q : outcome B → D → Prop) l acc :
  (∀ acc x l, spec (P acc (x :: l)) (f acc x)
     (λ o d, match o with Ret acc' => P acc' l d | Throw e => Q (Throw e) d end)) →
  (∀ acc d, I d → P acc [] d → Q (Ret acc) d) →
  spec (P acc l) (tfold f acc l) Q.
Proof.
  intros Hf Hend. revert acc. induction l as [|x l IH]; intros acc; simpl; [by apply spec_ret; auto|].
  apply (spec_bind _ _ _ _ _ (Hf acc x l)); [by apply IH|done].
Qed.

(** What a safe thread does when it runs alone. *)
Lemma safe_alone {A} (t : thread D A) Q d :
  I d → safe t Q d → let '(o, d') := alone t d in I d' ∧ G d d' ∧ Q o d'.
Proof.
  revert d. induction t as [o|X m k IH]; intros d Hd; simpl; [by intros [_ ?]|].
  intros Hs. destruct (Hs d Hd (G_refl d)) as [_ Hm]. destruct (transaction m d) as [o d1].
  destruct Hm as (Hd1 & HG1 & Hs1). specialize (IH o d1 Hd1 Hs1).
  destruct (alone (k o) d1) as [o' d2]. destruct IH as (? & ? & ?). split_and!; [done| |done].
  by apply (G_trans d d1).
Qed.

(** Every state a pool of safe threads reaches has the invariant. *)
Definition all_safe {A} (p : D * list (thread D A)) : Prop :=
  I p.1 ∧ Forall (λ t, safe t (λ _ _, True) p.1) p.2.

Lemma true_stable {A} (o : outcome A) : stable (λ _, True).
Proof. by intros d d'. Qed.

Lemma pool_step_safe {A} (R : D → D → Prop) (starts : D → thread D A → Prop) p p' :
  (∀ d d', I d → R d d' → I d' ∧ G d d') →
  (∀ d t, I d → starts d t → safe t (λ _ _, True) d) →
  pool_step R starts p p' → all_safe p → all_safe p'.
Proof.
  intros Henv Hstart Hstep [Hd Hts]. simpl in *.
  assert (∀ d d', I d' → G d d' → Forall (λ t, safe t (λ (_ : outcome A) _, True) d) p.2 →
    Forall (λ t, safe t (λ (_ : outcome A) _, True) d') p.2) as Hweak.
  { intros d d' Hd' HG Hall. eapply Forall_impl; [exact Hall|]. intros t Ht.
    apply (safe_stable t _ d d'); [|done|done|done]. intros o. apply stable_const. }
  destruct Hstep as [i refused t t' d d' ts Hi Ha|d d' ts HR|t d ts Ht]; simpl in *.
  - pose proof (Forall_lookup_1 _ _ _ _ Hts Hi) as Hs. destruct t as [o|X m k]; [done|].
    simpl in *. destruct (Hs d Hd (G_refl d)) as [Hf Hm]. destruct refused.
    + injection Ha as <- <-. split; [done|]. by apply Forall_insert.
    + destruct (transaction m d) as [o d1]. injection Ha as <- <-. destruct Hm as (Hd1 & HG1 & Hs1).
      split; [done|]. apply Forall_insert; [by apply (Hweak d)|done].
  - destruct (Henv d d' Hd HR) as [Hd' HG]. split; [done|]. by apply (Hweak d).
  - split; [done|]. apply Forall_app. split; [done|]. apply Forall_singleton. by apply Hstart.
Qed.

Lemma pool_safe {A} (R : D → D → Prop) (starts : D → thread D A → Prop) p p' :
  (∀ d d', I d → R d d' → I d' ∧ G d d') →
  (∀ d t, I d → starts d t → safe t (λ _ _, True) d) →
  rtc (pool_step R starts) p p' → all_safe p → all_safe p'.
Proof.
  intros Henv Hstart Hrun. induction Hrun as [|p1 p2 p3 Hstep _ IH]; [done|].
  intros Hs. apply IH. by apply (pool_step_safe R starts p1).
Qed.
End Safe.

(** ** Threads that establish a fact

    [yields P t F]: from [P] the thread keeps the invariant, and [F] holds of its answer. *)
Section Yields.
Context {D : Type} {I : D → Prop} {G : D → D → Prop}.
Context `{!Reflexive G}.

Definition yields {A} (P : D → Prop) (t : thread D A) (F : A → D → Prop) : Prop :=
  spec I G P t (λ o d, match o with Ret a => F a d | Throw _ => True end).

Lemma yields_ret {A} P (a : A) F : (∀ d, I d → P d → F a d) → yields P (tret a) F.
Proof. intros HF. apply (spec_ret I G _ _ (λ o d, match o with Ret a => F a d | Throw _ => True end)), HF. Qed.
Lemma yields_throw {A} P e F : yields P (@tthrow D A e) F.
Proof. intros d Hd Hp. done. Qed.
Lemma yields_done {A} P (o : outcome A) F :
  (∀ a d, o = Ret a → I d → P d → F a d) → yields P (Done o) F.
Proof. intros HF d Hd Hp. split; [done|]. destruct o; [by apply HF|done]. Qed.
Lemma yields_pre {A} P P' (t : thread D A) F : (∀ d, I d → P d → P' d) → yields P' t F → yields P t F.
Proof. apply spec_pre. Qed.
Lemma yields_post {A} P (t : thread D A) F F' : (∀ a d, I d → F a d → F' a d) → yields P t F → yields P t F'.
Proof. intros HF. apply spec_post. intros [a|e] d Hd; [by apply HF|done]. Qed.
Lemma yields_bind {A B} P (t : thread D A) (f : A → thread D B) F F' :
  stable I G P → yields P t F → (∀ a, yields (λ d, P d ∧ F a d) (f a) F') → yields P (tbind t f) F'.
Proof.
  intros HP Ht Hf. eapply spec_bind.
  - eapply (spec_pre I G _ (λ d, P d ∧ P d)); [auto|]. apply (spec_frame I G P); [done|exact Ht].
  - intros a. apply Hf.
  - done.
Qed.
Lemma yields_catch {A} P (t : thread D A) h F :
  stable I G P → yields P t F → (∀ e, yields P (h e) F) → yields P (tcatch t h) F.
Proof.
  intros HP Ht Hh. eapply spec_catch.
  - eapply (spec_pre I G _ (λ d, P d ∧ P d)); [auto|]. apply (spec_frame I G P); [done|exact Ht].
  - intros a d Hd [_ ?]. done.
  - intros e. eapply spec_pre; [|apply Hh]. by intros d Hd [? _].
Qed.
Lemma yields_stmt {A} P (m : M D A) F :
  stable I G P →
  (∀ d, I d → P d → match m d with Ret (a, d') => I d' ∧ G d d' ∧ F a d' | Throw _ => True end) →
  yields P (stmt m) F.
Proof.
  intros HP Hm. apply (spec_stmt I G (@reflexivity _ G _)); [done|done|]. intros d Hd Hp. specialize (Hm d Hd Hp).
  by destruct (m d) as [[a d']|].
Qed.
Lemma yields_gets {A} P (f : D → A) F : stable I G P → (∀ d, I d → P d → F (f d) d) → yields P (stmt (gets f)) F.
Proof. intros HP HF. apply yields_stmt; [done|]. intros d Hd Hp. split_and!; [done|reflexivity|auto]. Qed.
Lemma yields_keeps {A} P (t : thread D A) F : stable I G P → yields P t F → yields P t (λ a d, P d ∧ F a d).
Proof.
  intros HP Ht. eapply spec_post; [|eapply (spec_pre I G _ (λ d, P d ∧ P d)); [auto|]; apply (spec_frame I G P); [done|exact Ht]].
  intros [a|e] d Hd [? ?]; auto.
Qed.
Lemma yields_attempt {A} P (t : thread D A) F :
  stable I G P → yields P t F → yields P (attempt t) (λ o d, match o with Ret a => F a d | Throw _ => True end).
Proof.
  intros HP Ht. apply yields_catch; [done| |].
  - apply (yields_bind _ _ _ F); [done|done|]. intros a. apply yields_ret. by intros d Hd [_ ?].
  - intros e. by apply yields_ret.
Qed.
Lemma yields_best_effort P p : stable I G P → yields P p (λ _ _, True) → yields P (best_effort p) (λ _ _, True).
Proof. intros HP Hp. apply yields_catch; [done|done|]. intros e. by apply yields_ret. Qed.
Lemma yields_fold {A B} P (f : B → A → thread D B) acc l :
  stable I G P → (∀ acc x, yields P (f acc x) (λ _ _, True)) → yields P (tfold f acc l) (λ _ _, True).
Proof.
  intros HP Hf. revert acc. induction l as [|x l IH]; intros acc; cbn [tfold]; [by apply yields_ret|].
  apply (yields_bind _ _ _ (λ _ _, True)); [done|apply Hf|]. intros acc'. eapply yields_pre; [|apply IH]. by intros d Hd [? _].
Qed.
(** Two requests at once: what each establishes must survive the other. *)
Lemma yields_both {A B} P f (p : thread D A) (q : thread D B) Fa Fb :
  stable I G P → (∀ a, stable I G (Fa a)) → (∀ b, stable I G (Fb b)) →
  yields P p Fa → yields P q Fb → yields P (both f p q) (λ x d, Fa x.1 d ∧ Fb x.2 d).
Proof.
  intros HP Ha Hb Hp Hq. unfold both.
  assert (∀ o, stable I G (λ d, match (o : outcome A) with Ret a => Fa a d | Throw _ => True end)) as Ha'.
  { intros [a|e]; [apply Ha|apply stable_const]. }
  assert (∀ o, stable I G (λ d, match (o : outcome B) with Ret b => Fb b d | Throw _ => True end)) as Hb'.
  { intros [b|e]; [apply Hb|apply stable_const]. }
  destruct f.
  - eapply yields_bind; [done|by apply yields_attempt|]. intros b.
    eapply yields_bind; [by apply stable_and| |].
    { eapply yields_pre; [|by apply yields_attempt]. by intros d Hd [? _]. }
    intros a. destruct a as [a|e], b as [b|e']; simpl; try apply yields_throw.
    apply yields_ret. intros d Hd [[_ ?] ?]. done.
  - eapply yields_bind; [done|by apply yields_attempt|]. intros a.
    eapply yields_bind; [by apply stable_and| |].
    { eapply yields_pre; [|by apply yields_attempt]. by intros d Hd [? _]. }
    intros b. destruct a as [a|e], b as [b|e']; simpl; try apply yields_throw.
    apply yields_ret. intros d Hd [[_ ?] ?]. done.
Qed.
End Yields.
Arguments yields {D} I G {A} P t F.

(** ** Threads that keep the invariant

    [keeps t]: whatever the thread does, the invariant holds, and an assertion that no
    interference invalidates is still there afterwards. *)
Section Keeps.
Context {D : Type} {I : D → Prop} {G : D → D → Prop} `{!Reflexive G}.

Definition keeps {A} (t : thread D A) : Prop := ∀ P, stable I G P → spec I G P t (λ _ d, P d).

Lemma keeps_ret {A} (a : A) : keeps (tret a).
Proof. intros P HP. by apply spec_ret. Qed.
Lemma keeps_done {A} (o : outcome A) : keeps (Done o).
Proof. by intros P HP d Hd Hp. Qed.
Lemma keeps_throw {A} e : keeps (@tthrow D A e).
Proof. apply keeps_done. Qed.
Lemma keeps_bind {A B} (t : thread D A) (f : A → thread D B) :
  keeps t → (∀ a, keeps (f a)) → keeps (tbind t f).
Proof.
  intros Ht Hf P HP. apply (spec_bind _ _ _ _ _ (λ _ d, P d)); [by apply Ht|intros a; by apply Hf|done].
Qed.
Lemma keeps_catch {A} (t : thread D A) h : keeps t → (∀ e, keeps (h e)) → keeps (tcatch t h).
Proof.
  intros Ht Hh P HP. apply (spec_catch _ _ _ _ _ (λ _ d, P d)); [by apply Ht|done|intros e; by apply Hh].
Qed.
Lemma keeps_stmt {A} (m : M D A) :
  (∀ d, I d → match m d with Ret (_, d') => I d' ∧ G d d' | Throw _ => True end) → keeps (stmt m).
Proof.
  intros Hm P HP. apply (spec_stmt _ _ (@reflexivity _ G _)); [done|done|]. intros d Hd Hp.
  specialize (Hm d Hd). destruct (m d) as [[a d']|e]; [|done]. destruct Hm as [Hd' HG].
  split_and!; [done|done|]. by apply (HP d).
Qed.
Lemma keeps_gets {A} (f : D → A) : keeps (stmt (gets f)).
Proof. apply keeps_stmt. intros d Hd. split; [done|reflexivity]. Qed.
Lemma attempt_keeps {A} (p : thread D A) : keeps p → keeps (attempt p).
Proof.
  intros Hp. apply keeps_catch; [apply keeps_bind; [done|]; intros a; apply keeps_ret|]. intros e. apply keeps_ret.
Qed.
Lemma best_effort_keeps p : keeps p → keeps (best_effort p).
Proof. intros Hp. apply keeps_catch; [done|]. intros e. apply keeps_ret. Qed.
Lemma finally_keeps {A} (p : thread D A) q : keeps p → keeps q → keeps (finally p q).
Proof.
  intros Hp Hq. apply keeps_bind; [by apply attempt_keeps|]. intros o.
  apply keeps_bind; [by apply best_effort_keeps|]. intros _. apply keeps_done.
Qed.
Lemma both_keeps {A B} f (p : thread D A) (q : thread D B) : keeps p → keeps q → keeps (both f p q).
Proof.
  intros Hp Hq. destruct f; unfold both; (apply keeps_bind; [by apply attempt_keeps|]; intros a);
    (apply keeps_bind; [by apply attempt_keeps|]; intros b);
    (apply keeps_bind; [apply keeps_done|]; intros x); (apply keeps_bind; [apply keeps_done|]; intros y); apply keeps_ret.
Qed.
End Keeps.
Arguments keeps {D} I G {A} t.
