(* ===== verification/Money.v ===== *)
(** * Decimal arithmetic and monetary guards

    [lib/decimal.ts], [config/monetary-precision.ts], [services/spot-decimal.ts],
    [services/settlement/decimal-utils.ts] and [lib/monetary-invariants.ts].

    A finite decimal is an integer number of [10^-36] units: the columns are
    [NUMERIC(36,18)], so a product of two column values is still an integer
    number of units. The package decimal.js is a parameter, [DecimalJs]: what the
    code relies on is that an operation rounds its exact result to
    [Decimal.precision] significant digits, and so changes nothing when the
    result has no more digits than that. PostgreSQL's NUMERIC arithmetic
    ([+], [-], [>=]) is exact. *)
From stdpp Require Import base gmap strings list.
From Stdlib Require Import ZArith Lia.
From S2P Require Import Prelude.
Local Open Scope Z_scope.

(** ** Units *)
Definition SCALE : Z := 36.
Definition one : Z := 10 ^ SCALE.
(** [dec m e] is the literal [m * 10^-e]. *)
Definition dec (m e : Z) : Z := m * 10 ^ (SCALE - e).

(** Truncation toward zero to a multiple of [u]. *)
Definition trunc (u x : Z) : Z := Z.quot x u * u.

Section Trunc.
Context (u : Z) (Hu : 0 < u).

Lemma trunc_bounds x : 0 ≤ x → 0 ≤ trunc u x ∧ trunc u x ≤ x < trunc u x + u.
Proof.
  intros Hx. unfold trunc. rewrite Z.quot_div_nonneg by lia.
  pose proof (Z.mul_div_le x u Hu). pose proof (Z.mul_succ_div_gt x u Hu).
  pose proof (Z.div_pos x u Hx Hu). nia.
Qed.

Lemma trunc_opp x : trunc u (- x) = - trunc u x.
Proof. unfold trunc. rewrite Z.quot_opp_l by lia. lia. Qed.

Lemma trunc_0 : trunc u 0 = 0.
Proof. unfold trunc. rewrite Z.quot_0_l; lia. Qed.

Lemma trunc_divide x : (u | trunc u x).
Proof. unfold trunc. apply Z.divide_factor_r. Qed.

Lemma trunc_exact x : (u | x) → trunc u x = x.
Proof. intros [q ->]. unfold trunc. rewrite Z.quot_mul; lia. Qed.

Lemma trunc_idemp x : trunc u (trunc u x) = trunc u x.
Proof. apply trunc_exact, trunc_divide. Qed.

Lemma trunc_mono x y : x ≤ y → trunc u x ≤ trunc u y.
Proof. intros Hxy. unfold trunc. pose proof (Z.quot_le_mono x y u Hu Hxy). nia. Qed.

Lemma trunc_add_le x y : 0 ≤ x → 0 ≤ y → trunc u x + trunc u y ≤ trunc u (x + y).
Proof.
  intros Hx Hy. rewrite <- (trunc_exact (trunc u x + trunc u y)).
  - apply trunc_mono. pose proof (trunc_bounds x Hx). pose proof (trunc_bounds y Hy). lia.
  - apply Z.divide_add_r; apply trunc_divide.
Qed.
End Trunc.

Lemma pow10_pos k : 0 ≤ k → 0 < 10 ^ k.
Proof. intros. apply Z.pow_pos_nonneg; lia. Qed.

(** [d.toDecimalPlaces(p, ROUND_DOWN)] *)
Definition ulp (p : Z) : Z := 10 ^ Z.max 0 (SCALE - p).
Definition toDP (p x : Z) : Z := trunc (ulp p) x.

Lemma ulp_pos p : 0 < ulp p.
Proof. apply pow10_pos. lia. Qed.
#[export] Hint Resolve ulp_pos : core.

Lemma toDP_bounds p x : 0 ≤ x → 0 ≤ toDP p x ∧ toDP p x ≤ x < toDP p x + ulp p.
Proof. apply trunc_bounds, ulp_pos. Qed.

Lemma toDP_idem p x : toDP p (toDP p x) = toDP p x.
Proof. apply trunc_idemp, ulp_pos. Qed.

(** ** decimal.js *)
Class DecimalJs := {
  (** [Decimal.precision] *)
  precision : Z;
  (** the rounding an arithmetic operation applies to its exact result *)
  sig : Z → Z;
  precision_pos : 0 < precision;
  (** a result of at most [precision] significant digits is returned as it is *)
  sig_exact : ∀ k x, 0 ≤ k → (10 ^ k | x) → Z.abs x < 10 ^ (k + precision) → sig x = x;
  (** [Decimal.rounding] is [ROUND_DOWN]: a result is rounded toward zero *)
  sig_bounds : ∀ x, 0 ≤ x → 0 ≤ sig x ≤ x;
}.

(** Rounding to significant digits, toward zero ([Decimal.ROUND_DOWN]): drop the
    smallest number of low digits that leaves [P] of them. *)
Fixpoint drop_digits (P : Z) (fuel : nat) (k x : Z) : Z :=
  if Z.abs x <? 10 ^ (k + P) then k
  else match fuel with
       | O => k
       | S f => drop_digits P f (k + 1) x
       end.
Definition sig_down (P x : Z) : Z :=
  trunc (10 ^ drop_digits P (S (Z.to_nat (Z.log2 (Z.abs x)))) 0 x) x.

Lemma drop_digits_bounds P fuel k0 x k :
  k0 ≤ k → Z.abs x < 10 ^ (k + P) → k0 ≤ drop_digits P fuel k0 x ≤ k.
Proof.
  revert k0. induction fuel as [|f IH]; intros k0 Hk Hx; simpl.
  - destruct (_ <? _); lia.
  - destruct (Z.abs x <? 10 ^ (k0 + P)) eqn:E; [lia|]. bool_prop.
    assert (k0 ≠ k) by (intros ->; lia).
    pose proof (IH (k0 + 1) ltac:(lia) Hx). lia.
Qed.

Lemma divide_pow10 j k x : 0 ≤ j ≤ k → (10 ^ k | x) → (10 ^ j | x).
Proof.
  intros Hjk Hx. apply Z.divide_trans with (10 ^ k); [|done].
  exists (10 ^ (k - j)). rewrite <- Z.pow_add_r by lia. f_equal; lia.
Qed.

Lemma sig_down_exact P k x :
  0 ≤ k → (10 ^ k | x) → Z.abs x < 10 ^ (k + P) → sig_down P x = x.
Proof.
  intros Hk Hdiv Hx. unfold sig_down.
  match goal with |- trunc (10 ^ ?d) x = x => set (j := d) end.
  assert (0 ≤ j ≤ k) by (by apply drop_digits_bounds).
  apply trunc_exact; [apply pow10_pos; lia|]. by apply divide_pow10 with k.
Qed.

Lemma sig_down_bounds P x : 0 ≤ x → 0 ≤ sig_down P x ≤ x.
Proof.
  intros Hx. unfold sig_down.
  match goal with |- context [trunc ?u x] => pose proof (trunc_bounds u) as Hb end.
  assert (∀ fuel k, 0 ≤ k → 0 ≤ drop_digits P fuel k x) as Hk.
  { induction fuel as [|f IH]; intros k Hk; cbn [drop_digits]; destruct (_ <? _); try done.
    apply IH. lia. }
  destruct (Hb ltac:(apply pow10_pos, Hk; lia) x Hx) as (? & ? & _). lia.
Qed.

(** The configuration of the server process:
    [Decimal.set({ precision: 36, rounding: Decimal.ROUND_DOWN })]. *)
Definition decimal_36 : DecimalJs := {|
  precision := 36;
  sig := sig_down 36;
  precision_pos := eq_refl;
  sig_exact := sig_down_exact 36;
  sig_bounds := sig_down_bounds 36;
|}.

(** The value of a decimal string: [new Decimal(s)] is finite or not. *)
Inductive decval : Type :=
  | Fin (x : Z)
  | NonFinite.

(** [config/monetary-precision.ts] *)
Definition AMOUNT_PRECISION : Z := 8.
Definition PRICE_PRECISION : Z := 18.

Section Arithmetic.
Context `{DecimalJs}.

(** [a.plus(b)], [a.minus(b)], [a.times(b)] *)
Definition dplus (a b : Z) : Z := sig (a + b).
Definition dminus (a b : Z) : Z := sig (a - b).
Definition dtimes (a b : Z) : Z := sig (Z.quot (a * b) one).
(** [a.div(b)] *)
Definition ddiv (a b : Z) : Z := sig (Z.quot (a * one) b).

(** *** [services/settlement/decimal-utils.ts] *)
Definition TAKER_FEE_RATE : Z := dec 1 3.
Definition MAKER_FEE_RATE : Z := dec 5 4.
Definition tradeValue (price qty : Z) : Z := dtimes price qty.
Definition takerFee (tradeValueDecimal : Z) : Z := dtimes tradeValueDecimal TAKER_FEE_RATE.
Definition makerFee (tradeValueDecimal : Z) : Z := dtimes tradeValueDecimal MAKER_FEE_RATE.

(** *** [services/spot-decimal.ts] *)
Definition lockAmountQuote (price qty precision : Z) : Z :=
  let p := toDP precision price in
  let q := toDP precision qty in
  toDP precision (dtimes p q).
Definition lockAmountBase (qty precision : Z) : Z := toDP precision qty.
Definition debitAmountQuote (price qty precision : Z) : Z :=
  lockAmountQuote price qty precision.
Definition debitAmountBase (qty precision : Z) : Z := lockAmountBase qty precision.
Definition unlockAmountQuote (price qty precision : Z) : Z :=
  lockAmountQuote price qty precision.
Definition unlockAmountBase (qty precision : Z) : Z := lockAmountBase qty precision.
Definition toDecimalPlaces (value precision : Z) : Z := toDP precision value.
End Arithmetic.

(** *** [lib/monetary-invariants.ts]

    The message of a violation is the prefix and the label; the offending value
    that the code appends is left out. *)
Definition INVARIANT_PREFIX : string := "[INVARIANT_VIOLATION]".
Definition violation (label why : string) : string :=
  INVARIANT_PREFIX +:+ " " +:+ label +:+ why.

Section Guards.
Context {S : Type}.

Definition assertNonNegative (label : string) (v : decval) : M S unit :=
  match v with
  | NonFinite => throw (violation label ": value must be finite")
  | Fin d => require (negb (d <? 0)) (violation label ": value must be >= 0")
  end.

Definition assertValidDecimal (label : string) (v : decval) : M S unit :=
  match v with
  | NonFinite => throw (violation label ": value must be finite decimal")
  | Fin _ => ret tt
  end.

Definition assertDebitNotExceedLocked (debit locked : Z) : M S unit :=
  require (negb (locked <? debit)) (violation "debit must not exceed locked" "").
Definition assertUnlockNotExceedLocked (unlock locked : Z) : M S unit :=
  require (negb (locked <? unlock)) (violation "unlock must not exceed locked" "").
Definition assertDebitNotExceedAvailable (debit available : Z) : M S unit :=
  require (negb (available <? debit)) (violation "debit must not exceed available" "").
End Guards.

(** ** Lemmas *)
Section ArithmeticFacts.
Context `{DecimalJs}.

(** A result that is a multiple of [10^-(36-k)] below [10^(precision-36+k)] keeps
    all its digits. *)
Definition in_range (k x : Z) : Prop :=
  0 ≤ k ∧ (10 ^ k | x) ∧ Z.abs x < 10 ^ (k + precision).

Lemma sig_in_range k x : in_range k x → sig x = x.
Proof. intros (?&?&?). by apply sig_exact with k. Qed.

Lemma in_range_le k x y :
  in_range k y → (10 ^ k | x) → 0 ≤ x ≤ y → in_range k x.
Proof. intros (?&?&?) ? ?. unfold in_range. repeat split; try done. lia. Qed.

Lemma sig_0 : sig 0 = 0.
Proof.
  apply sig_exact with 0; [lia|apply Z.divide_0_r|].
  simpl. apply pow10_pos. pose proof precision_pos. lia.
Qed.

(** The product of two amounts rounded to 8 places has 16 places. *)
Lemma product_8_divide p q :
  toDP 8 p * toDP 8 q = Z.quot (toDP 8 p * toDP 8 q) one * one ∧
  (10 ^ 20 | Z.quot (toDP 8 p * toDP 8 q) one).
Proof.
  unfold toDP.
  destruct (trunc_divide (ulp 8) p) as [a ->].
  destruct (trunc_divide (ulp 8) q) as [b ->].
  replace (a * ulp 8 * (b * ulp 8)) with (a * b * 10 ^ 20 * one)
    by (change (ulp 8) with (10 ^ 28); unfold one, SCALE; lia).
  rewrite Z.quot_mul by done. split; [done|]. apply Z.divide_factor_r.
Qed.
End ArithmeticFacts.

(** The lock formula without digit loss. *)
Definition exactQuote (p q : Z) : Z := toDP 8 (Z.quot (toDP 8 p * toDP 8 q) one).

Lemma one_pos : 0 < one.
Proof. reflexivity. Qed.

Lemma exactQuote_bounds p q : 0 ≤ p → 0 ≤ q → 0 ≤ exactQuote p q ∧ exactQuote p q * one ≤ p * q.
Proof.
  intros Hp Hq. unfold exactQuote.
  destruct (toDP_bounds 8 p Hp) as (HP0 & HP1 & _).
  destruct (toDP_bounds 8 q Hq) as (HQ0 & HQ1 & _).
  pose proof one_pos. destruct (product_8_divide p q) as [Hpq _].
  assert (0 ≤ Z.quot (toDP 8 p * toDP 8 q) one) as Hz by (apply Z.quot_pos; nia).
  destruct (toDP_bounds 8 _ Hz) as (? & ? & _). split; [done|].
  assert (toDP 8 p * toDP 8 q ≤ p * q) by nia. nia.
Qed.

Lemma exactQuote_add p q1 q2 :
  0 ≤ p → 0 ≤ q1 → 0 ≤ q2 → exactQuote p q1 + exactQuote p q2 ≤ exactQuote p (q1 + q2).
Proof.
  intros Hp Hq1 Hq2. unfold exactQuote, toDP at 1 4 7.
  destruct (toDP_bounds 8 p Hp) as (HP0 & _).
  destruct (toDP_bounds 8 q1 Hq1) as (HQ1 & _).
  destruct (toDP_bounds 8 q2 Hq2) as (HQ2 & _).
  pose proof one_pos.
  destruct (product_8_divide p q1) as [H1 _], (product_8_divide p q2) as [H2 _],
    (product_8_divide p (q1 + q2)) as [H12 _].
  assert (toDP 8 q1 + toDP 8 q2 ≤ toDP 8 (q1 + q2)) by (by apply trunc_add_le).
  etransitivity; [apply trunc_add_le; [done|apply Z.quot_pos; nia..]|].
  apply trunc_mono; [done|]. nia.
Qed.

Section LockCovers.
Context `{DecimalJs}.

Lemma lockAmountQuote_exact p q :
  0 ≤ p → 0 ≤ q → toDP 8 p * toDP 8 q < 10 ^ (56 + precision) →
  lockAmountQuote p q AMOUNT_PRECISION = exactQuote p q.
Proof.
  intros Hp Hq Hlt. unfold lockAmountQuote, exactQuote, dtimes, AMOUNT_PRECISION.
  f_equal. destruct (product_8_divide p q) as [Heq Hdiv].
  destruct (toDP_bounds 8 p Hp) as (HP0 & _).
  destruct (toDP_bounds 8 q Hq) as (HQ0 & _).
  pose proof one_pos. pose proof precision_pos.
  assert (10 ^ (56 + precision) = 10 ^ (20 + precision) * one) as Hpow
    by (unfold one, SCALE; rewrite <- Z.pow_add_r by lia; f_equal; lia).
  apply sig_in_range with 20. repeat split; [lia|done|].
  rewrite Z.abs_eq by (apply Z.quot_pos; nia). nia.
Qed.

(** C1. What an order locks covers every way it can fill: for an order at price
    [p], whatever the fills, the quote amounts debited fill by fill add up to no
    more than the amount locked for their total, and the lock is never above the
    exact notional. Each fill is rounded down on its own, so the debits can fall
    short of the lock but not exceed it. *)
Theorem lock_covers_fills (p : Z) (fills : list Z) :
  0 ≤ p → Forall (λ q, 0 ≤ q) fills →
  toDP 8 p * toDP 8 (lsum id fills) < 10 ^ (56 + precision) →
  lsum (λ q, debitAmountQuote p q AMOUNT_PRECISION) fills
    ≤ lockAmountQuote p (lsum id fills) AMOUNT_PRECISION
  ∧ lockAmountQuote p (lsum id fills) AMOUNT_PRECISION * one ≤ p * lsum id fills.
Proof.
  intros Hp Hfills.
  assert (0 ≤ lsum id fills) as Hsum
    by (apply lsum_nonneg; intros x Hx; by apply (Forall_forall _ fills)).
  intros Hlt. rewrite (lockAmountQuote_exact p (lsum id fills)) by done.
  split; [|by apply exactQuote_bounds].
  clear Hsum. revert Hlt. induction Hfills as [|q l Hq Hl IH]; intros Hlt.
  { by apply exactQuote_bounds. }
  assert (0 ≤ lsum id l) as Hsum
    by (apply lsum_nonneg; intros x Hx; by apply (Forall_forall _ l)).
  change (lsum id (q :: l)) with (q + lsum id l) in *.
  change (lsum ?f (q :: l)) with (f q + lsum f l).
  assert (toDP 8 q ≤ toDP 8 (q + lsum id l)) by (apply trunc_mono; [done|lia]).
  assert (toDP 8 (lsum id l) ≤ toDP 8 (q + lsum id l)) by (apply trunc_mono; [done|lia]).
  destruct (toDP_bounds 8 p Hp) as (HP0 & _).
  pose proof (exactQuote_add p q (lsum id l) Hp Hq Hsum).
  unfold debitAmountQuote at 1. rewrite lockAmountQuote_exact by nia.
  specialize (IH ltac:(nia)). lia.
Qed.
End LockCovers.

Lemma lock_covers_fills_witness :
  let p := dec 10150 2 in
  let fills := [dec 333333333 9; dec 333333333 9; dec 1 8] in
  (lsum (λ q, @debitAmountQuote decimal_36 p q AMOUNT_PRECISION) fills
     ≤ @lockAmountQuote decimal_36 p (lsum id fills) AMOUNT_PRECISION
   ∧ @lockAmountQuote decimal_36 p (lsum id fills) AMOUNT_PRECISION * one
     ≤ p * lsum id fills)
  ∧ lsum (λ q, @debitAmountQuote decimal_36 p q AMOUNT_PRECISION) fills = dec 6766666699 8
  ∧ @lockAmountQuote decimal_36 p (lsum id fills) AMOUNT_PRECISION = dec 6766666700 8.
Proof.
  split; [|split; vm_compute; reflexivity].
  apply (@lock_covers_fills decimal_36 (dec 10150 2)
    [dec 333333333 9; dec 333333333 9; dec 1 8]).
  - vm_compute. discriminate.
  - repeat constructor; vm_compute; discriminate.
  - vm_compute. reflexivity.
Defined.
