(* ===== verification/Balances.v ===== *)
(** * The balance store

    [lib/user-balance-helper.ts], [lib/balance-ledger.ts] and
    [services/spot-balance.service.ts]: the [user_balances] table, its append-only
    [balance_ledger], and the four operations on trading accounts. A row is keyed by
    (user, currency, chain, account type), as the table's unique key is. The theorems:
    every operation is the abstract account operation it stands for ([account]),
    balances stay non-negative, and the ledger is a complete running account of the
    trading buckets. *)
From stdpp Require Import base gmap strings list fin_maps.
From Stdlib Require Import ZArith Lia.
From S2P Require Import Prelude Money.
Local Open Scope Z_scope.

(** ** Tables *)
Definition CHAIN_ID_GLOBAL : string := "".

Record bal_key := BalKey {
  user_id : string;
  currency_id : string;
  chain_id : string;
  account_type : string;
}.
#[export] Instance bal_key_eq_dec : EqDecision bal_key.
Proof. solve_decision. Defined.
#[export] Instance bal_key_countable : Countable bal_key.
Proof.
  refine (inj_countable'
    (λ k, (user_id k, currency_id k, chain_id k, account_type k))
    (λ '(u, c, ch, a), BalKey u c ch a) _).
  by intros [].
Defined.

Record user_balance := UserBalance {
  available_balance : Z;
  locked_balance : Z;
  pending_balance : Z;
  escrow_balance : Z;
  total_deposited : Z;
}.

Inductive balance_type := Available | Locked | Pending.
#[export] Instance balance_type_eq_dec : EqDecision balance_type.
Proof. solve_decision. Defined.

Record ledger_entry := LedgerEntry {
  le_user_id : string;
  le_currency_id : string;
  le_account_type : string;
  le_debit : Z;
  le_credit : Z;
  le_balance_before : Z;
  le_balance_after : Z;
  le_reference_type : string;
  le_reference_id : string;
  le_balance_type : balance_type;
}.

Record balances := Balances {
  user_balances : gmap bal_key user_balance;
  balance_ledger : list ledger_entry;
}.

#[export] Instance balances_store : Store balances balances.
Proof. refine {| sget := λ s, s; sput := λ t _, t |}; done. Defined.

(** ** SQL statements on [user_balances] *)
Definition zero_row : user_balance := UserBalance 0 0 0 0 0.

(** [SET available_balance = available_balance + da, ...] *)
Definition add_buckets (r : user_balance) (da dl dp de dt : Z) : user_balance :=
  UserBalance (available_balance r + da) (locked_balance r + dl)
    (pending_balance r + dp) (escrow_balance r + de) (total_deposited r + dt).

(** [SELECT ... WHERE key AND cond FOR UPDATE], the first row *)
Definition select_balance (k : bal_key) (cond : user_balance → bool) :
    M balances (option user_balance) :=
  gets (λ s, match user_balances s !! k with
             | Some r => if cond r then Some r else None
             | None => None
             end).

Definition put_row (k : bal_key) (r : user_balance) (s : balances) : balances :=
  Balances (<[k := r]> (user_balances s)) (balance_ledger s).

(** [UPDATE ... SET ... WHERE key AND cond RETURNING *], the first row *)
Definition update_balance (k : bal_key) (cond : user_balance → bool)
    (f : user_balance → user_balance) : M balances (option user_balance) :=
  let* sel := select_balance k cond in
  match sel with
  | Some r => modify (put_row k (f r)) ;;; ret (Some (f r))
  | None => ret None
  end.

(** ** [lib/user-balance-helper.ts] *)

(** [INSERT ... ON CONFLICT (user_id, currency_id, chain_id, account_type) DO NOTHING] *)
Definition ensureUserBalanceRow (k : bal_key) : M balances unit :=
  modify (λ s, match user_balances s !! k with
               | Some _ => s
               | None => put_row k zero_row s
               end).

Definition ensureUserBalanceRowsBulk (userId : string) (currencyIds : list string)
    (chainId accountType : string) : M balances unit :=
  foreach currencyIds (λ cid, ensureUserBalanceRow (BalKey userId cid chainId accountType)).

Definition assertUserBalanceUpdated (upd : option user_balance) : M balances user_balance :=
  get_or upd "user_balances UPDATE affected 0 rows".

Definition row_nonneg (r : user_balance) : bool :=
  negb ((available_balance r <? 0) || (locked_balance r <? 0)
        || (pending_balance r <? 0) || (escrow_balance r <? 0)).

(** The columns are NUMERIC, so the finiteness test of the code always passes. *)
Definition assertBalanceInvariant (r : user_balance) : M balances unit :=
  require (row_nonneg r) "user_balances invariant violated".

(** ** [lib/balance-ledger.ts] *)
Definition insertBalanceLedger (e : ledger_entry) : M balances unit :=
  modify (λ s, Balances (user_balances s) (balance_ledger s ++ [e])).

(** ** [services/spot-balance.service.ts]

    [ref] is [ledgerRef], [uuid] what [crypto.randomUUID()] returns. *)
Definition ACCOUNT_TYPE : string := "trading".
Definition trading_key (userId currencyId : string) : bal_key :=
  BalKey userId currencyId CHAIN_ID_GLOBAL ACCOUNT_TYPE.

Definition ledger_ref := option (string * string).
Definition ref_type (ref : ledger_ref) (dflt : string) : string :=
  match ref with Some (t, _) => t | None => dflt end.
Definition ref_id (ref : ledger_ref) (uuid : string) : string :=
  match ref with Some (_, i) => i | None => uuid end.

Definition trading_entry (userId currencyId : string) (debit credit before after : Z)
    (refType refId : string) (bt : balance_type) : ledger_entry :=
  LedgerEntry userId currencyId ACCOUNT_TYPE debit credit before after refType refId bt.

Definition lockTradingBalance (userId currencyId : string) (amount : Z)
    (ref : ledger_ref) (uuid : string) : M balances bool :=
  let refType := ref_type ref "adjustment" in
  let refId := ref_id ref uuid in
  let k := trading_key userId currencyId in
  let enough r := amount <=? available_balance r in
  ensureUserBalanceRow k ;;;
  let* lockSel := select_balance k enough in
  match lockSel with
  | None => ret false
  | Some selRow =>
      let* result := update_balance k enough (λ r, add_buckets r (- amount) amount 0 0 0) in
      match result with
      | None => ret false
      | Some row =>
          assertBalanceInvariant row ;;;
          insertBalanceLedger (trading_entry userId currencyId amount 0
            (available_balance selRow) (available_balance row) refType refId Available) ;;;
          insertBalanceLedger (trading_entry userId currencyId 0 amount
            (locked_balance selRow) (locked_balance row) refType refId Locked) ;;;
          ret true
      end
  end.

Definition unlockTradingBalance (userId currencyId : string) (amount : Z)
    (ref : ledger_ref) (uuid : string) : M balances unit :=
  let refType := ref_type ref "adjustment" in
  let refId := ref_id ref uuid in
  let k := trading_key userId currencyId in
  let enough r := amount <=? locked_balance r in
  ensureUserBalanceRow k ;;;
  let* lockSel := select_balance k enough in
  let* selRow := get_or lockSel "unlockTradingBalance: no rows or insufficient locked" in
  let* result := update_balance k enough (λ r, add_buckets r amount (- amount) 0 0 0) in
  let* row := assertUserBalanceUpdated result in
  assertBalanceInvariant row ;;;
  insertBalanceLedger (trading_entry userId currencyId 0 amount
    (available_balance selRow) (available_balance row) refType refId Available) ;;;
  insertBalanceLedger (trading_entry userId currencyId amount 0
    (locked_balance selRow) (locked_balance row) refType refId Locked).

Definition debitLockedTradingBalance (userId currencyId : string) (amount : Z)
    (ref : ledger_ref) (uuid : string) : M balances bool :=
  let refType := ref_type ref "trade_sell" in
  let refId := ref_id ref uuid in
  let k := trading_key userId currencyId in
  let enough r := amount <=? locked_balance r in
  ensureUserBalanceRow k ;;;
  let* lockSel := select_balance k enough in
  match lockSel with
  | None => ret false
  | Some selRow =>
      let balanceBefore := locked_balance selRow in
      let* result := update_balance k enough (λ r, add_buckets r 0 (- amount) 0 0 0) in
      match result with
      | None => ret false
      | Some row =>
          assertBalanceInvariant row ;;;
          insertBalanceLedger (trading_entry userId currencyId amount 0
            balanceBefore (locked_balance row) refType refId Locked) ;;;
          ret true
      end
  end.

Definition creditTradingBalance (userId currencyId : string) (amount : Z)
    (ref : ledger_ref) (uuid : string) : M balances unit :=
  let refType := ref_type ref "trade_buy" in
  let refId := ref_id ref uuid in
  let k := trading_key userId currencyId in
  ensureUserBalanceRow k ;;;
  let* lockSel := select_balance k (λ _, true) in
  let* selRow := get_or lockSel "creditTradingBalance: no balance row" in
  let balanceBefore := available_balance selRow in
  let* result := update_balance k (λ _, true) (λ r, add_buckets r amount 0 0 0 0) in
  let* row := assertUserBalanceUpdated result in
  assertBalanceInvariant row ;;;
  insertBalanceLedger (trading_entry userId currencyId 0 amount
    balanceBefore (available_balance row) refType refId Available).

(** ** What each operation does, on every branch *)
Definition row_of (k : bal_key) (s : balances) : user_balance :=
  default zero_row (user_balances s !! k).

(** The state after [ensureUserBalanceRow]. *)
Definition ensured (k : bal_key) (s : balances) : balances :=
  put_row k (row_of k s) s.

Definition post (k : bal_key) (r : user_balance) (es : list ledger_entry) (s : balances) :
    balances :=
  Balances (<[k := r]> (user_balances s)) (balance_ledger s ++ es).

Lemma ensure_run k s : ensureUserBalanceRow k s = Ret (tt, ensured k s).
Proof.
  unfold ensureUserBalanceRow, modify, ensured, row_of, put_row.
  destruct s as [rows l]; simpl. destruct (rows !! k) eqn:E; simpl; [|done].
  by rewrite insert_id.
Qed.

Lemma ensured_lookup k s : user_balances (ensured k s) !! k = Some (row_of k s).
Proof. apply lookup_insert_eq. Qed.

Lemma select_ensured k cond s :
  select_balance k cond (ensured k s)
  = Ret (if cond (row_of k s) then Some (row_of k s) else None, ensured k s).
Proof. unfold select_balance, gets. by rewrite ensured_lookup. Qed.

Lemma update_ensured k cond f s :
  update_balance k cond f (ensured k s)
  = if cond (row_of k s)
    then Ret (Some (f (row_of k s)), post k (f (row_of k s)) [] s)
    else Ret (None, ensured k s).
Proof.
  unfold update_balance, bind. rewrite select_ensured.
  destruct (cond _); simpl; [|done].
  unfold put_row, post, ensured; simpl. by rewrite insert_insert_eq, app_nil_r.
Qed.

Lemma insert_ledger_post k r es e s :
  insertBalanceLedger e (post k r es s) = Ret (tt, post k r (es ++ [e]) s).
Proof. unfold insertBalanceLedger, modify, post; simpl. by rewrite app_assoc. Qed.

(** Executes a balance operation on a symbolic state. *)
Ltac balance_exec :=
  repeat first
    [ rewrite ensure_run | rewrite select_ensured | rewrite update_ensured
    | rewrite insert_ledger_post
    | progress unfold bind, ret, throw, require, get_or, assertUserBalanceUpdated,
        assertBalanceInvariant
    | progress cbv beta iota ].

Section Runs.
Context (u c : string) (a : Z) (ref : ledger_ref) (uuid : string) (s : balances).
Let k := trading_key u c.
Let r := row_of k s.

Lemma lock_run :
  let r' := add_buckets r (- a) a 0 0 0 in
  let t := ref_type ref "adjustment" in
  let i := ref_id ref uuid in
  lockTradingBalance u c a ref uuid s =
  if a <=? available_balance r
  then if row_nonneg r'
       then Ret (true, post k r'
              [trading_entry u c a 0 (available_balance r) (available_balance r') t i Available;
               trading_entry u c 0 a (locked_balance r) (locked_balance r') t i Locked] s)
       else Throw "user_balances invariant violated"
  else Ret (false, ensured k s).
Proof.
  intros. unfold lockTradingBalance. fold k. balance_exec. fold r.
  destruct (a <=? available_balance r) eqn:E; [|done]. balance_exec. fold r. rewrite E.
  fold r'. destruct (row_nonneg r'); balance_exec; done.
Qed.

Lemma unlock_run :
  let r' := add_buckets r a (- a) 0 0 0 in
  let t := ref_type ref "adjustment" in
  let i := ref_id ref uuid in
  unlockTradingBalance u c a ref uuid s =
  if a <=? locked_balance r
  then if row_nonneg r'
       then Ret (tt, post k r'
              [trading_entry u c 0 a (available_balance r) (available_balance r') t i Available;
               trading_entry u c a 0 (locked_balance r) (locked_balance r') t i Locked] s)
       else Throw "user_balances invariant violated"
  else Throw "unlockTradingBalance: no rows or insufficient locked".
Proof.
  intros. unfold unlockTradingBalance. fold k. balance_exec. fold r.
  destruct (a <=? locked_balance r) eqn:E; [|done]. balance_exec. fold r. rewrite E.
  fold r'. balance_exec. fold r'. destruct (row_nonneg r'); balance_exec; done.
Qed.

Lemma debit_run :
  let r' := add_buckets r 0 (- a) 0 0 0 in
  let t := ref_type ref "trade_sell" in
  let i := ref_id ref uuid in
  debitLockedTradingBalance u c a ref uuid s =
  if a <=? locked_balance r
  then if row_nonneg r'
       then Ret (true, post k r'
              [trading_entry u c a 0 (locked_balance r) (locked_balance r') t i Locked] s)
       else Throw "user_balances invariant violated"
  else Ret (false, ensured k s).
Proof.
  intros. unfold debitLockedTradingBalance. fold k. balance_exec. fold r.
  destruct (a <=? locked_balance r) eqn:E; [|done]. balance_exec. fold r. rewrite E.
  fold r'. destruct (row_nonneg r'); balance_exec; done.
Qed.

Lemma credit_run :
  let r' := add_buckets r a 0 0 0 0 in
  let t := ref_type ref "trade_buy" in
  let i := ref_id ref uuid in
  creditTradingBalance u c a ref uuid s =
  if row_nonneg r'
  then Ret (tt, post k r'
         [trading_entry u c 0 a (available_balance r) (available_balance r') t i Available] s)
  else Throw "user_balances invariant violated".
Proof.
  intros. unfold creditTradingBalance. fold k. balance_exec. fold r r'.
  destruct (row_nonneg r'); balance_exec; done.
Qed.
End Runs.

(** ** The abstract account

    What the store promises for a trading account: a pair of non-negative amounts,
    and four operations, each of which is refused when it would overdraw a part. *)
Record account := Account { acc_available : Z; acc_locked : Z }.

Inductive trading_op :=
  | OpLock (u c : string) (a : Z)
  | OpUnlock (u c : string) (a : Z)
  | OpDebitLocked (u c : string) (a : Z)
  | OpCredit (u c : string) (a : Z).

Definition op_account (o : trading_op) : string * string :=
  match o with
  | OpLock u c _ | OpUnlock u c _ | OpDebitLocked u c _ | OpCredit u c _ => (u, c)
  end.

Definition spec_step (o : trading_op) (x : account) : option account :=
  let '(Account av lk) := x in
  let ok (g : bool) (av' lk' : Z) :=
    if g && (0 <=? av') && (0 <=? lk') then Some (Account av' lk') else None in
  match o with
  | OpLock _ _ a => ok (a <=? av) (av - a) (lk + a)
  | OpUnlock _ _ a => ok (a <=? lk) (av + a) (lk - a)
  | OpDebitLocked _ _ a => ok (a <=? lk) av (lk - a)
  | OpCredit _ _ a => ok true (av + a) lk
  end.

Definition run_op (o : trading_op) (ref : ledger_ref) (uuid : string) : M balances bool :=
  match o with
  | OpLock u c a => lockTradingBalance u c a ref uuid
  | OpUnlock u c a => unlockTradingBalance u c a ref uuid ;;; ret true
  | OpDebitLocked u c a => debitLockedTradingBalance u c a ref uuid
  | OpCredit u c a => creditTradingBalance u c a ref uuid ;;; ret true
  end.

Definition account_of (s : balances) (u c : string) : account :=
  let r := row_of (trading_key u c) s in
  Account (available_balance r) (locked_balance r).

Definition balances_wf (s : balances) : Prop :=
  ∀ k r, user_balances s !! k = Some r → row_nonneg r = true.

Lemma row_nonneg_true r :
  row_nonneg r = true ↔ 0 ≤ available_balance r ∧ 0 ≤ locked_balance r
    ∧ 0 ≤ pending_balance r ∧ 0 ≤ escrow_balance r.
Proof.
  unfold row_nonneg. rewrite negb_true_iff, !orb_false_iff, !Z.ltb_ge. tauto.
Qed.

Lemma wf_row_of s k : balances_wf s → row_nonneg (row_of k s) = true.
Proof.
  intros Hwf. unfold row_of. destruct (user_balances s !! k) eqn:E; simpl; [eauto|done].
Qed.

Lemma wf_insert s k r l :
  balances_wf s → row_nonneg r = true → balances_wf (Balances (<[k := r]> (user_balances s)) l).
Proof.
  intros Hwf Hr k' r' Hl; simpl in *.
  destruct (decide (k = k')) as [<-|Hne].
  - rewrite lookup_insert_eq in Hl. by simplify_eq.
  - rewrite lookup_insert_ne in Hl by done. eauto.
Qed.

Lemma wf_singleton k r l : row_nonneg r = true → balances_wf (Balances {[k := r]} l).
Proof. intros Hr k' r' Hl. simpl in Hl. by apply lookup_singleton_Some in Hl as [_ <-]. Qed.

Lemma wf_ensured s k : balances_wf s → balances_wf (ensured k s).
Proof. intros. apply wf_insert; [done|]. by apply wf_row_of. Qed.

Lemma row_of_insert_eq k r rows l : row_of k (Balances (<[k := r]> rows) l) = r.
Proof. unfold row_of; simpl. by rewrite lookup_insert_eq. Qed.

Lemma row_of_insert_ne k k' r rows l l' :
  k ≠ k' → row_of k' (Balances (<[k := r]> rows) l) = row_of k' (Balances rows l').
Proof. intros. unfold row_of; simpl. by rewrite lookup_insert_ne. Qed.

Lemma row_of_ensured k k' s : row_of k' (ensured k s) = row_of k' s.
Proof.
  unfold ensured, put_row. destruct (decide (k = k')) as [<-|Hne].
  - apply row_of_insert_eq.
  - destruct s. by apply row_of_insert_ne.
Qed.

Lemma account_of_ensured k s u c : account_of (ensured k s) u c = account_of s u c.
Proof. unfold account_of. by rewrite !row_of_ensured. Qed.

Lemma trading_key_inj u c u' c' : trading_key u c = trading_key u' c' ↔ (u, c) = (u', c').
Proof. unfold trading_key. split; intros; by simplify_eq. Qed.

Lemma account_of_post u c r es s u' c' :
  account_of (post (trading_key u c) r es s) u' c' =
  if decide ((u, c) = (u', c')) then Account (available_balance r) (locked_balance r)
  else account_of s u' c'.
Proof.
  unfold account_of, post. case_decide as E.
  - simplify_eq. by rewrite !row_of_insert_eq.
  - assert (trading_key u c ≠ trading_key u' c') by (by rewrite trading_key_inj).
    destruct s as [rows l]. by rewrite !(row_of_insert_ne _ _ _ _ _ l).
Qed.

Lemma add_buckets_nonneg r da dl :
  row_nonneg r = true →
  row_nonneg (add_buckets r da dl 0 0 0)
  = ((0 <=? available_balance r + da) && (0 <=? locked_balance r + dl))%bool.
Proof.
  rewrite row_nonneg_true. intros (?&?&?&?).
  apply eq_true_iff_eq. rewrite row_nonneg_true; simpl.
  rewrite andb_true_iff, !Z.leb_le. split; [tauto|]. intros [??]. repeat split; lia.
Qed.

(** The normal form the four operations share: a guard on the row, the change of the
    two buckets, the ledger entries, and what happens when the guard fails. *)
Definition op_guard (o : trading_op) (r : user_balance) : bool :=
  match o with
  | OpLock _ _ a => a <=? available_balance r
  | OpUnlock _ _ a | OpDebitLocked _ _ a => a <=? locked_balance r
  | OpCredit _ _ _ => true
  end.
Definition op_post_row (o : trading_op) (r : user_balance) : user_balance :=
  match o with
  | OpLock _ _ a => add_buckets r (- a) a 0 0 0
  | OpUnlock _ _ a => add_buckets r a (- a) 0 0 0
  | OpDebitLocked _ _ a => add_buckets r 0 (- a) 0 0 0
  | OpCredit _ _ a => add_buckets r a 0 0 0 0
  end.
Definition op_entries (o : trading_op) (ref : ledger_ref) (uuid : string)
    (r : user_balance) : list ledger_entry :=
  let r' := op_post_row o r in
  let i := ref_id ref uuid in
  let av u c d cr t := trading_entry u c d cr (available_balance r) (available_balance r') t i Available in
  let lk u c d cr t := trading_entry u c d cr (locked_balance r) (locked_balance r') t i Locked in
  match o with
  | OpLock u c a =>
      let t := ref_type ref "adjustment" in [av u c a 0 t; lk u c 0 a t]
  | OpUnlock u c a =>
      let t := ref_type ref "adjustment" in [av u c 0 a t; lk u c a 0 t]
  | OpDebitLocked u c a => [lk u c a 0 (ref_type ref "trade_sell")]
  | OpCredit u c a => [av u c 0 a (ref_type ref "trade_buy")]
  end.
Definition op_key (o : trading_op) : bal_key := uncurry trading_key (op_account o).
Definition op_refused (o : trading_op) (s : balances) : outcome (bool * balances) :=
  match o with
  | OpUnlock _ _ _ => Throw "unlockTradingBalance: no rows or insufficient locked"
  | _ => Ret (false, ensured (op_key o) s)
  end.

Lemma run_op_run (o : trading_op) (ref : ledger_ref) (uuid : string) (s : balances) :
  let r := row_of (op_key o) s in
  run_op o ref uuid s =
  if op_guard o r
  then if row_nonneg (op_post_row o r)
       then Ret (true, post (op_key o) (op_post_row o r) (op_entries o ref uuid r) s)
       else Throw "user_balances invariant violated"
  else op_refused o s.
Proof.
  cbv zeta. destruct o as [u c a|u c a|u c a|u c a]; unfold run_op, bind.
  - apply lock_run.
  - rewrite unlock_run. cbv zeta. simpl op_guard.
    change (op_key (OpUnlock u c a)) with (trading_key u c).
    destruct (_ <=? _); [|done]. simpl op_post_row. by destruct (row_nonneg _).
  - apply debit_run.
  - rewrite credit_run. cbv zeta. simpl op_guard. cbv iota.
    change (op_key (OpCredit u c a)) with (trading_key u c).
    simpl op_post_row. by destruct (row_nonneg _).
Qed.

(** The outcome of a handler against the abstract step. *)
Definition refines_step (o : trading_op) (s : balances) (out : outcome (bool * balances)) : Prop :=
  match spec_step o (uncurry (account_of s) (op_account o)) with
  | Some x =>
      ∃ s', out = Ret (true, s') ∧ balances_wf s' ∧
        ∀ u c, account_of s' u c = if decide (op_account o = (u, c)) then x else account_of s u c
  | None =>
      (∃ e, out = Throw e) ∨
      (∃ s', out = Ret (false, s') ∧ balances_wf s' ∧ ∀ u c, account_of s' u c = account_of s u c)
  end.

Lemma spec_step_run (o : trading_op) (s : balances) :
  balances_wf s →
  let r := row_of (op_key o) s in
  spec_step o (uncurry (account_of s) (op_account o)) =
  if op_guard o r && row_nonneg (op_post_row o r)
  then Some (Account (available_balance (op_post_row o r)) (locked_balance (op_post_row o r)))
  else None.
Proof.
  intros Hwf. cbv zeta.
  pose proof (add_buckets_nonneg (row_of (op_key o) s)) as Hnn.
  specialize (λ da dl, Hnn da dl (wf_row_of _ _ Hwf)).
  destruct o as [u c a|u c a|u c a|u c a]; simpl; rewrite Hnn;
    change (op_key _) with (trading_key u c);
    rewrite ?Z.add_0_r, <- ?Z.sub_opp_r, ?Z.opp_involutive, ?Z.add_opp_r;
    try rewrite <- andb_assoc; done.
Qed.

(** C2. The four trading-balance operations implement the abstract account: on a
    well-formed store, for an amount of any sign, an operation returns true exactly
    when the abstract step is allowed, and then it has that step's effect on its own
    account and none on the others; otherwise it returns false or throws, and no
    account changes. *)
Theorem run_op_refines (o : trading_op) (ref : ledger_ref) (uuid : string) (s : balances) :
  balances_wf s → refines_step o s (run_op o ref uuid s).
Proof.
  intros Hwf. unfold refines_step. rewrite spec_step_run, run_op_run by done. cbv zeta.
  destruct (op_guard o _); simpl.
  - destruct (row_nonneg _) eqn:E; [|left; by eexists].
    eexists; split; [done|]. split; [by apply wf_insert|]. intros u c.
    unfold op_key. destruct (op_account o) as [u' c']. apply account_of_post.
  - unfold op_refused. destruct o as [u c a|u c a|u c a|u c a]; [right| left|right|right].
    2: { by eexists. }
    all: eexists; split; [done|]; split; [by apply wf_ensured|];
      intros; apply account_of_ensured.
Qed.

(** ** The ledger as a running account *)
Definition bucket (bt : balance_type) (r : user_balance) : Z :=
  match bt with
  | Available => available_balance r
  | Locked => locked_balance r
  | Pending => escrow_balance r
  end.

Definition entry_for (ac u c : string) (bt : balance_type) (e : ledger_entry) : bool :=
  bool_decide (le_account_type e = ac ∧ le_user_id e = u ∧ le_currency_id e = c
    ∧ le_balance_type e = bt).

Definition entry_delta (ac u c : string) (bt : balance_type) (e : ledger_entry) : Z :=
  if entry_for ac u c bt e then le_credit e - le_debit e else 0.

(** [SUM(credit - debit)] over the entries of one bucket *)
Definition ledger_sum (ac u c : string) (bt : balance_type) (l : list ledger_entry) : Z :=
  lsum (entry_delta ac u c bt) l.

(** Every entry starts from the bucket's balance so far and records the change. *)
Inductive running (ac : string) : list ledger_entry → Prop :=
  | running_nil : running ac []
  | running_snoc l e :
      running ac l →
      (le_account_type e = ac →
       le_balance_before e = ledger_sum ac (le_user_id e) (le_currency_id e) (le_balance_type e) l
       ∧ le_balance_after e = le_balance_before e + le_credit e - le_debit e) →
      running ac (l ++ [e]).

Definition ledger_complete (s : balances) : Prop :=
  running ACCOUNT_TYPE (balance_ledger s) ∧
  ∀ u c bt, bt ≠ Pending →
    bucket bt (row_of (trading_key u c) s) = ledger_sum ACCOUNT_TYPE u c bt (balance_ledger s).

Lemma ledger_sum_snoc ac u c bt l e :
  ledger_sum ac u c bt (l ++ [e]) = ledger_sum ac u c bt l + entry_delta ac u c bt e.
Proof. apply lsum_snoc. Qed.

Lemma entry_delta_trading u c d cr b a t i bt u' c' bt' :
  entry_delta ACCOUNT_TYPE u' c' bt' (trading_entry u c d cr b a t i bt)
  = if decide ((u, c) = (u', c') ∧ bt = bt') then cr - d else 0.
Proof.
  unfold entry_delta, entry_for; simpl.
  case_bool_decide as E1; case_decide as E2; try done; exfalso.
  - apply E2. destruct E1 as (_&->&->&->). done.
  - apply E1. destruct E2 as [[= -> ->] ->]. done.
Qed.

(** Writing entries for one account: the change of each bucket is the sum of the
    entries, and each entry continues from the row. *)
Lemma ledger_complete_post u c r' es s :
  ledger_complete s →
  let r := row_of (trading_key u c) s in
  (∀ bt, bt ≠ Pending → bucket bt r' = bucket bt r + ledger_sum ACCOUNT_TYPE u c bt es) →
  (∀ u' c' bt, (u, c) ≠ (u', c') → ledger_sum ACCOUNT_TYPE u' c' bt es = 0) →
  running ACCOUNT_TYPE (balance_ledger s ++ es) →
  ledger_complete (post (trading_key u c) r' es s).
Proof.
  intros [Hrun Hsum] r Hr' Hother Hrun'. split; [done|].
  intros u' c' bt Hbt. unfold post; simpl. unfold ledger_sum at 1. rewrite lsum_app.
  change (lsum (entry_delta ?a ?b ?d ?e) ?l) with (ledger_sum a b d e l).
  destruct (decide ((u, c) = (u', c'))) as [[= <- <-]|Hne].
  - rewrite row_of_insert_eq, Hr', <- Hsum by done. done.
  - rewrite Hother by done. rewrite Z.add_0_r, <- Hsum by done.
    destruct s as [rows l]. rewrite (row_of_insert_ne _ _ _ _ _ l); [done|].
    by rewrite trading_key_inj.
Qed.

Lemma ledger_complete_ensured k s : ledger_complete s → ledger_complete (ensured k s).
Proof.
  intros [Hrun Hsum]. split; [done|]. intros. rewrite row_of_ensured. by apply Hsum.
Qed.

Lemma running_one ac l e :
  running ac l → le_account_type e = ac →
  le_balance_before e = ledger_sum ac (le_user_id e) (le_currency_id e) (le_balance_type e) l →
  le_balance_after e = le_balance_before e + le_credit e - le_debit e →
  running ac (l ++ [e]).
Proof. intros. by constructor. Qed.

Lemma running_two u c e1 e2 l :
  running ACCOUNT_TYPE l →
  le_account_type e1 = ACCOUNT_TYPE → le_account_type e2 = ACCOUNT_TYPE →
  le_user_id e1 = u → le_user_id e2 = u → le_currency_id e1 = c → le_currency_id e2 = c →
  le_balance_type e1 ≠ le_balance_type e2 →
  le_balance_before e1 = ledger_sum ACCOUNT_TYPE u c (le_balance_type e1) l →
  le_balance_before e2 = ledger_sum ACCOUNT_TYPE u c (le_balance_type e2) l →
  le_balance_after e1 = le_balance_before e1 + le_credit e1 - le_debit e1 →
  le_balance_after e2 = le_balance_before e2 + le_credit e2 - le_debit e2 →
  running ACCOUNT_TYPE (l ++ [e1; e2]).
Proof.
  intros Hl Ha1 Ha2 <- Hu2 <- Hc2 Hbt Hb1 Hb2 Hn1 Hn2.
  change [e1; e2] with ([e1] ++ [e2]). rewrite app_assoc.
  apply running_one; [by apply running_one|done| |done].
  rewrite Hu2, Hc2, ledger_sum_snoc, Hb2.
  assert (entry_delta ACCOUNT_TYPE (le_user_id e1) (le_currency_id e1) (le_balance_type e2) e1 = 0)
    as ->; [|lia].
  unfold entry_delta, entry_for. case_bool_decide as E; [|done]. by destruct E as (_&_&_&?).
Qed.

Ltac ledger_deltas :=
  unfold ledger_sum, lsum; simpl; rewrite ?entry_delta_trading;
  repeat case_decide; simplify_eq; simpl in *; try (exfalso; naive_solver); try lia.

(** C3. The balance ledger is a complete running account of the trading buckets: if
    every available and locked trading balance equals the sum of its ledger entries,
    and each entry starts at the balance so far, then this stays so after any of the
    four operations, whatever its outcome. *)
Theorem ledger_complete_preserved (o : trading_op) (ref : ledger_ref) (uuid : string) :
  preserves ledger_complete (run_op o ref uuid).
Proof.
  intros s b s' Hlc Hrun. rewrite run_op_run in Hrun. cbv zeta in Hrun.
  destruct (op_guard o _).
  2: { destruct o; simpl in Hrun; simplify_eq; by apply ledger_complete_ensured. }
  destruct (row_nonneg _); [|done]. injection Hrun as <- <-.
  pose proof Hlc as [Hl Hsum].
  destruct o as [u c a|u c a|u c a|u c a];
    pose proof (Hsum u c Available ltac:(done)) as Hav;
    pose proof (Hsum u c Locked ltac:(done)) as Hlk; simpl in Hav, Hlk;
    change (op_key _) with (trading_key u c);
    (apply ledger_complete_post; [done| | |]).
  all: try (intros bt Hbt; destruct bt; [| |done]; ledger_deltas).
  all: try (intros u' c' bt Hne; ledger_deltas).
  1,2: apply running_two with u c; simpl; try done; lia.
  all: apply running_one; simpl; try done; lia.
Qed.

(** Transactions on the store, from an empty database. *)
Definition empty_balances : balances := Balances ∅ [].

Inductive trading_step : balances → balances → Prop :=
  | trading_tx o ref uuid s :
      trading_step s (snd (transaction (run_op o ref uuid) s)).

Lemma empty_complete : ledger_complete empty_balances.
Proof. split; [constructor|]. intros u c [] ?; done. Qed.

Lemma ledger_complete_preserved_witness :
  let k := trading_key "alice" "USDT" in
  let s := post k (UserBalance 100 0 0 0 0)
             [trading_entry "alice" "USDT" 0 100 0 100 "deposit" "d1" Available]
             empty_balances in
  ledger_complete s ∧
  ∃ s', run_op (OpLock "alice" "USDT" 40) None "uuid-1" s = Ret (true, s') ∧
    ledger_complete s' ∧ account_of s' "alice" "USDT" = Account 60 40 ∧
    length (balance_ledger s') = 3%nat.
Proof.
  intros k s.
  assert (ledger_complete s) as Hs.
  { apply ledger_complete_post; [apply empty_complete| | |].
    - intros bt Hbt. destruct bt; done.
    - intros u' c' bt Hne. ledger_deltas.
    - apply running_one; [constructor|done..]. }
  split; [done|]. eexists. split; [vm_compute; reflexivity|].
  split; [|split; vm_compute; reflexivity].
  refine (ledger_complete_preserved (OpLock "alice" "USDT" 40) None "uuid-1" s true _ Hs _).
  vm_compute. reflexivity.
Defined.

Lemma run_op_refines_witness :
  let s := Balances {[trading_key "bob" "BTC" := UserBalance 5 0 0 0 0]} [] in
  balances_wf s ∧ refines_step (OpLock "bob" "BTC" 3) s (run_op (OpLock "bob" "BTC" 3) None "u" s)
  ∧ spec_step (OpLock "bob" "BTC" 3) (account_of s "bob" "BTC") = Some (Account 2 3)
  ∧ refines_step (OpLock "bob" "BTC" 9) s (run_op (OpLock "bob" "BTC" 9) None "u" s)
  ∧ spec_step (OpLock "bob" "BTC" 9) (account_of s "bob" "BTC") = None.
Proof.
  intros s.
  assert (balances_wf s) as Hs.
  { apply wf_singleton. reflexivity. }
  split; [exact Hs|].
  split; [apply (run_op_refines (OpLock "bob" "BTC" 3) None "u" s Hs)|].
  split; [vm_compute; reflexivity|].
  split; [apply (run_op_refines (OpLock "bob" "BTC" 9) None "u" s Hs)|].
  vm_compute; reflexivity.
Defined.

(** ** Unlocking undoes locking *)
Lemma row_of_post k r es s : row_of k (post k r es s) = r.
Proof. apply row_of_insert_eq. Qed.

Lemma row_of_post_ne k k' r es s : k ≠ k' → row_of k' (post k r es s) = row_of k' s.
Proof. intros. destruct s. by apply row_of_insert_ne. Qed.

Lemma add_buckets_opp r a : add_buckets (add_buckets r (- a) a 0 0 0) a (- a) 0 0 0 = r.
Proof. destruct r. unfold add_buckets; simpl. f_equal; lia. Qed.

(** Unlocking what was locked restores the store: after a successful lock,
    unlocking the same amount succeeds, every balance row is the one before the
    lock, and the two pairs of ledger entries cancel out in every bucket. *)
Theorem lock_unlock_roundtrip (u c : string) (a : Z) (r1 r2 : ledger_ref)
    (uuid1 uuid2 : string) (s s1 : balances) :
  balances_wf s → lockTradingBalance u c a r1 uuid1 s = Ret (true, s1) →
  ∃ s2, unlockTradingBalance u c a r2 uuid2 s1 = Ret (tt, s2) ∧
    (∀ k, row_of k s2 = row_of k s) ∧
    ∀ u' c' bt, ledger_sum ACCOUNT_TYPE u' c' bt (balance_ledger s2)
      = ledger_sum ACCOUNT_TYPE u' c' bt (balance_ledger s).
Proof.
  intros Hwf Hlock. rewrite lock_run in Hlock. cbv zeta in Hlock.
  destruct (_ <=? _) eqn:E; [|done]. destruct (row_nonneg _) eqn:E2; [|done].
  injection Hlock as <-. rewrite unlock_run, row_of_post. cbv zeta.
  rewrite add_buckets_opp, (wf_row_of _ _ Hwf).
  apply row_nonneg_true in E2 as (_ & Hlk & _). simpl in Hlk.
  pose proof (wf_row_of s (trading_key u c) Hwf) as (_&Hlk0&_)%row_nonneg_true.
  rewrite (proj2 (Z.leb_le _ _)) by (simpl; lia).
  eexists; split; [done|]. split.
  - intros k. destruct (decide (trading_key u c = k)) as [<-|Hne].
    + apply row_of_post.
    + by rewrite !row_of_post_ne.
  - intros u' c' bt. simpl. unfold ledger_sum. rewrite !lsum_app. ledger_deltas.
Qed.

Lemma lock_unlock_roundtrip_witness :
  let s := Balances {[trading_key "bob" "BTC" := UserBalance 5 1 0 0 0]} [] in
  ∃ s1, lockTradingBalance "bob" "BTC" 3 None "u1" s = Ret (true, s1) ∧
  account_of s1 "bob" "BTC" = Account 2 4 ∧
  ∃ s2, unlockTradingBalance "bob" "BTC" 3 None "u2" s1 = Ret (tt, s2) ∧
    (∀ k, row_of k s2 = row_of k s) ∧
    ∀ u' c' bt, ledger_sum ACCOUNT_TYPE u' c' bt (balance_ledger s2)
      = ledger_sum ACCOUNT_TYPE u' c' bt (balance_ledger s).
Proof.
  intros s. eexists. split; [vm_compute; reflexivity|]. split; [vm_compute; reflexivity|].
  apply (lock_unlock_roundtrip "bob" "BTC" 3 None None "u1" "u2" s).
  - apply wf_singleton. reflexivity.
  - vm_compute. reflexivity.
Defined.

(** ** The funds of a currency

    Everything users own of it: available, locked and escrowed, in every account. *)
Definition worth (r : user_balance) : Z :=
  available_balance r + locked_balance r + escrow_balance r.
Definition funds (c : string) (s : balances) : Z :=
  msum (λ k r, if String.eqb (currency_id k) c then worth r else 0) (user_balances s).

Lemma funds_put c k r l s :
  funds c (Balances (<[k := r]> (user_balances s)) l)
  = funds c s + (if String.eqb (currency_id k) c then worth r - worth (row_of k s) else 0).
Proof.
  unfold funds, row_of; simpl. destruct (user_balances s !! k) as [r0|] eqn:E; simpl.
  - rewrite (msum_insert_Some _ _ _ _ _ E). destruct (String.eqb _ _); lia.
  - rewrite msum_insert_None by done. destruct (String.eqb _ _); unfold worth; simpl; lia.
Qed.

Lemma funds_post c k r es s :
  funds c (post k r es s)
  = funds c s + (if String.eqb (currency_id k) c then worth r - worth (row_of k s) else 0).
Proof. apply funds_put. Qed.

Lemma funds_ensured c k s : funds c (ensured k s) = funds c s.
Proof. unfold ensured, put_row. rewrite funds_put. destruct (String.eqb _ _); lia. Qed.

#[export] Hint Rewrite row_of_post row_of_ensured funds_post funds_ensured : prog.

(** ** Statements on a row that is known to exist *)
Section KnownRow.
Context (k : bal_key) (s : balances) (r : user_balance).
Context (Hk : user_balances s !! k = Some r).

Lemma select_known cond : select_balance k cond s = Ret (if cond r then Some r else None, s).
Proof. unfold select_balance, gets. by rewrite Hk. Qed.

Lemma update_known cond f :
  update_balance k cond f s
  = if cond r then Ret (Some (f r), post k (f r) [] s) else Ret (None, s).
Proof.
  unfold update_balance, bind. rewrite select_known. destruct (cond r); [|done].
  unfold modify, ret, put_row, post. by rewrite app_nil_r.
Qed.

Lemma row_of_known : row_of k s = r.
Proof. unfold row_of. by rewrite Hk. Qed.
End KnownRow.

Lemma post_lookup k r es s : user_balances (post k r es s) !! k = Some r.
Proof. apply lookup_insert_eq. Qed.

Lemma post_lookup_ne k k' r es s :
  k ≠ k' → user_balances (post k r es s) !! k' = user_balances s !! k'.
Proof. apply lookup_insert_ne. Qed.

Lemma ensured_lookup_ne k k' s :
  k ≠ k' → user_balances (ensured k s) !! k' = user_balances s !! k'.
Proof. apply lookup_insert_ne. Qed.

(** A row that exists stays when another row is ensured. *)
Lemma ensured_lookup_mono k k' s r :
  user_balances s !! k' = Some r → user_balances (ensured k s) !! k' = Some r.
Proof.
  intros Hk'. destruct (decide (k = k')) as [<-|Hne].
  - by rewrite ensured_lookup, (row_of_known _ _ _ Hk').
  - by rewrite ensured_lookup_ne.
Qed.

Lemma wf_post s k r es : balances_wf s → row_nonneg r = true → balances_wf (post k r es s).
Proof. apply wf_insert. Qed.

(** ** One row replaced *)
(** [b'] is [b] with row [k] replaced by [r']. *)
Definition row_change (k : bal_key) (r' : user_balance) (b b' : balances) : Prop :=
  (∀ k', row_of k' b' = if decide (k' = k) then r' else row_of k' b) ∧
  (∀ c, funds c b' = funds c b
     + (if String.eqb (currency_id k) c then worth r' - worth (row_of k b) else 0)) ∧
  (balances_wf b → row_nonneg r' = true → balances_wf b').

Lemma row_change_post k r' es b : row_change k r' b (post k r' es b).
Proof.
  split; [|split].
  - intros k'. case_decide as E; [subst; apply row_of_post|].
    apply row_of_post_ne. congruence.
  - intros c. apply funds_post.
  - apply wf_post.
Qed.

Lemma row_change_ensured k k0 r' es b : row_change k r' b (post k r' es (ensured k0 b)).
Proof.
  destruct (row_change_post k r' es (ensured k0 b)) as (Hr & Hf & Hw). split; [|split].
  - intros k'. rewrite Hr. case_decide; [done|]. apply row_of_ensured.
  - intros c. by rewrite Hf, funds_ensured, row_of_ensured.
  - intros Hb Hn. apply Hw; [by apply wf_ensured|done].
Qed.

Lemma row_change_refl k b : row_change k (row_of k b) b b.
Proof.
  split; [|split].
  - intros k'. case_decide; by subst.
  - intros c. destruct (String.eqb _ _); lia.
  - done.
Qed.
