(* ===== verification/Escrow.v ===== *)
(** * P2P escrow

    [services/p2p-escrow.service.ts] and [lib/currency-resolver.ts]: the seller's
    funds move from available to escrow when an order is created, and from escrow to
    the buyer (release) or back (refund) once. The theorems: funds are conserved and
    the escrow bucket covers the open escrows of accounts without a chain, an escrow
    pays out once under every interleaving of the statements of concurrent calls, and
    an escrow taken from a chain-specific balance row can be neither released nor
    refunded. *)
From stdpp Require Import base gmap strings list fin_maps.
From Stdlib Require Import ZArith Lia Ascii.
From S2P Require Import Prelude Money Balances.
Local Open Scope Z_scope.

(** ** Tables *)
Inductive escrow_status := EscLocked | EscReleased | EscRefunded.
#[export] Instance escrow_status_eq_dec : EqDecision escrow_status.
Proof. solve_decision. Defined.

Record escrow := Escrow {
  esc_user_id : string;
  esc_currency_id : string;
  esc_token_id : string;
  esc_amount : Z;
  esc_status : escrow_status;
  esc_p2p_order_id : option string;
  (** [admin_frozen_at IS NOT NULL] *)
  esc_admin_frozen : bool;
}.

Record token := Token { tok_symbol : string; tok_chain_id : option string }.
Record currency := Currency { cur_id : string; cur_symbol : string }.

Record escrow_db := EscrowDb {
  edb_balances : balances;
  escrows : gmap string escrow;
  tokens : gmap string token;
  currencies : list currency;
}.

#[export] Instance escrow_db_balances : Store escrow_db balances.
Proof.
  refine {| sget := edb_balances;
            sput := λ b d, EscrowDb b (escrows d) (tokens d) (currencies d) |}; by intros [].
Defined.
#[export] Instance escrow_db_store : Store escrow_db escrow_db.
Proof. refine {| sget := λ s, s; sput := λ t _, t |}; done. Defined.

Definition put_escrow (id : string) (e : escrow) (d : escrow_db) : escrow_db :=
  EscrowDb (edb_balances d) (<[id := e]> (escrows d)) (tokens d) (currencies d).

(** ** [lib/currency-resolver.ts] *)
Definition upper_ascii (a : ascii) : ascii :=
  let n := N_of_ascii a in
  if (97 <=? n)%N && (n <=? 122)%N then ascii_of_N (n - 32) else a.
Fixpoint upper (s : string) : string :=
  match s with "" => "" | String a s' => String (upper_ascii a) (upper s') end.
Fixpoint ltrim (s : string) : string :=
  match s with String " "%char s' => ltrim s' | _ => s end.
Fixpoint rtrim (s : string) : string :=
  match s with
  | "" => ""
  | String a s' => match rtrim s' with
                   | "" => if Ascii.eqb a " " then "" else String a ""
                   | t => String a t
                   end
  end.
(** [UPPER(TRIM(s))] *)
Definition upper_trim (s : string) : string := upper (ltrim (rtrim s)).

Definition getCurrencyIdBySymbol (symbol : string) (d : escrow_db) : option string :=
  cur_id <$> find (λ c, String.eqb (upper_trim (cur_symbol c)) (upper_trim symbol)) (currencies d).

Definition getCurrencyIdForToken (tokenId : string) (d : escrow_db) : option string :=
  t ← tokens d !! tokenId; getCurrencyIdBySymbol (tok_symbol t) d.

(** ** [moveToEscrow] *)
Definition toAmount (amount : Z) : Z := toDP AMOUNT_PRECISION amount.
Definition funding_key (userId currencyId chainId : string) : bal_key :=
  BalKey userId currencyId chainId "funding".
Definition funding_entry (userId currencyId : string) (debit credit before after : Z)
    (refType refId : string) (bt : balance_type) : ledger_entry :=
  LedgerEntry userId currencyId "funding" debit credit before after refType refId bt.

Section Escrow.
Context `{DecimalJs}.

(** The available to escrow move on one balance row, as both branches of
    [moveToEscrow] write it. *)
Definition move_available_to_escrow (k : bal_key) (amountStr : Z) :
    M balances (option user_balance) :=
  update_balance k (λ r, amountStr <=? available_balance r)
    (λ r, add_buckets r (- amountStr) 0 0 amountStr 0).

Definition move_entries (sellerId currencyId refId : string) (avBefore escBefore amountDec : Z) :
    M balances unit :=
  insertBalanceLedger (funding_entry sellerId currencyId amountDec 0
    (toDP AMOUNT_PRECISION avBefore) (toDP AMOUNT_PRECISION (dminus avBefore amountDec))
    "p2p_escrow_lock" refId Available) ;;;
  insertBalanceLedger (funding_entry sellerId currencyId 0 amountDec
    (toDP AMOUNT_PRECISION escBefore) (toDP AMOUNT_PRECISION (dplus escBefore amountDec))
    "p2p_escrow_lock" refId Pending).

(** [uuid] is [crypto.randomUUID()], [escrowId] the id the INSERT returns. *)
Definition moveToEscrow (sellerId tokenId : string) (amount : decval)
    (p2pOrderId : option string) (uuid escrowId : string) : M escrow_db string :=
  assertValidDecimal "moveToEscrow.amount" amount ;;;
  assertNonNegative "moveToEscrow.amount" amount ;;;
  let* amountFin := get_or (match amount with Fin x => Some x | NonFinite => None end) "" in
  let amountStr := toAmount amountFin in
  require (negb (amountStr <=? 0)) "moveToEscrow: amount must be positive" ;;;
  let* cur := gets (getCurrencyIdForToken tokenId) in
  let* currencyId := get_or cur "moveToEscrow: no currency_id for token" in
  let* tok := gets (λ d, tokens d !! tokenId) in
  let chainId := default CHAIN_ID_GLOBAL (t ← tok; tok_chain_id t) in
  let k := funding_key sellerId currencyId chainId in
  zoom (ensureUserBalanceRow k) ;;;
  let* sel := zoom (select_balance k (λ _, true)) in
  let* row := get_or sel "moveToEscrow: balance row not found" in
  let refId := default uuid p2pOrderId in
  let* upd := zoom (move_available_to_escrow k amountStr) in
  (if bool_decide (upd = None) && negb (String.eqb chainId CHAIN_ID_GLOBAL) then
     let kg := funding_key sellerId currencyId CHAIN_ID_GLOBAL in
     zoom (ensureUserBalanceRow kg) ;;;
     let* selGlobal := zoom (select_balance kg (λ _, true)) in
     let* rowGlobal := get_or selGlobal "moveToEscrow: balance row not found" in
     let* fallback := zoom (move_available_to_escrow kg amountStr) in
     let* after := zoom (assertUserBalanceUpdated fallback) in
     zoom (assertBalanceInvariant after) ;;;
     zoom (move_entries sellerId currencyId refId (available_balance rowGlobal)
       (escrow_balance rowGlobal) amountStr)
   else
     let* after := zoom (assertUserBalanceUpdated upd) in
     zoom (assertBalanceInvariant after) ;;;
     zoom (move_entries sellerId currencyId refId (available_balance row)
       (escrow_balance row) amountStr)) ;;;
  let* dup := gets (λ d, escrows d !! escrowId) in
  require (bool_decide (dup = None)) "duplicate key value violates unique constraint" ;;;
  modify (put_escrow escrowId
    (Escrow sellerId currencyId tokenId amountStr EscLocked p2pOrderId false)) ;;;
  ret escrowId.

(** ** [releaseFromEscrow] and [refundFromEscrow]

    Each is its first SELECT followed by the statements that run under the row
    lock its guarded UPDATE takes. *)
Inductive escrow_result := Moved | AlreadyReleased | AlreadyRefunded.

(** [SELECT status, admin_frozen_at FROM escrows WHERE id = $1] and the early
    returns on it: [Some already] to return at once, [None] to go on. *)
Definition escrow_check (escrowId : string) (already : escrow_result) :
    M escrow_db (option escrow_result) :=
  let* check := gets (λ d, escrows d !! escrowId) in
  let* row := get_or check "Escrow not found" in
  if negb (bool_decide (esc_status row = EscLocked)) then ret (Some already)
  else require (negb (esc_admin_frozen row)) "ESCROW_ADMIN_FROZEN" ;;; ret None.

(** [UPDATE escrows SET status = st WHERE id AND status = 'locked' AND
    admin_frozen_at IS NULL RETURNING ...] *)
Definition set_status (e : escrow) (st : escrow_status) : escrow :=
  Escrow (esc_user_id e) (esc_currency_id e) (esc_token_id e) (esc_amount e) st
    (esc_p2p_order_id e) (esc_admin_frozen e).
Definition close_escrow (escrowId : string) (st : escrow_status) :
    M escrow_db (option escrow) :=
  let* cur := gets (λ d, escrows d !! escrowId) in
  match cur with
  | Some e =>
      if bool_decide (esc_status e = EscLocked) && negb (esc_admin_frozen e) then
        modify (put_escrow escrowId (set_status e st)) ;;; ret (Some e)
      else ret None
  | None => ret None
  end.

(** The debit of the escrow bucket both paths start with; it returns the row as the
    SELECT read it. *)
Definition debit_escrow (notFound sellerId currencyId : string) (amountStr : Z)
    (escrowId : string) : M balances user_balance :=
  let k := funding_key sellerId currencyId CHAIN_ID_GLOBAL in
  let* sel := select_balance k (λ _, true) in
  let* row := get_or sel notFound in
  let* upd := update_balance k (λ r, amountStr <=? escrow_balance r)
                (λ r, add_buckets r 0 0 0 (- amountStr) 0) in
  let* after := assertUserBalanceUpdated upd in
  assertBalanceInvariant after ;;;
  insertBalanceLedger (funding_entry sellerId currencyId amountStr 0
    (toDP AMOUNT_PRECISION (escrow_balance row))
    (toDP AMOUNT_PRECISION (dminus (escrow_balance row) amountStr))
    "p2p_escrow_release" escrowId Pending) ;;;
  ret row.

(** The credit of the available bucket both paths end with. *)
Definition credit_available (userId currencyId : string) (amountStr : Z) (escrowId : string)
    (avBefore : Z) : M balances unit :=
  let k := funding_key userId currencyId CHAIN_ID_GLOBAL in
  let* upd := update_balance k (λ _, true) (λ r, add_buckets r amountStr 0 0 0 0) in
  let* after := assertUserBalanceUpdated upd in
  assertBalanceInvariant after ;;;
  insertBalanceLedger (funding_entry userId currencyId 0 amountStr
    (toDP AMOUNT_PRECISION avBefore) (toDP AMOUNT_PRECISION (dplus avBefore amountStr))
    "p2p_escrow_release" escrowId Available).

(** The statements after the check, up to the balance moves. *)
Definition pay_out (escrowId : string) (st : escrow_status) (already : escrow_result)
    (pay : escrow → M balances unit) : M escrow_db escrow_result :=
  let* statusUpd := close_escrow escrowId st in
  match statusUpd with
  | None =>
      let* recheck := gets (λ d, escrows d !! escrowId) in
      require (match recheck with Some e => negb (esc_admin_frozen e) | None => true end)
        "ESCROW_ADMIN_FROZEN" ;;;
      ret already
  | Some row => zoom (pay row) ;;; ret Moved
  end.

Definition release_pay (escrowId buyerId : string) (row : escrow) : M balances unit :=
  let sellerId := esc_user_id row in
  let currencyId := esc_currency_id row in
  let amountStr := toAmount (esc_amount row) in
  ensureUserBalanceRow (funding_key sellerId currencyId CHAIN_ID_GLOBAL) ;;;
  ensureUserBalanceRow (funding_key buyerId currencyId CHAIN_ID_GLOBAL) ;;;
  debit_escrow "releaseFromEscrow: seller balance row not found"
    sellerId currencyId amountStr escrowId ;;;
  let* buyerSel := select_balance (funding_key buyerId currencyId CHAIN_ID_GLOBAL) (λ _, true) in
  let* buyerRow := get_or buyerSel "releaseFromEscrow: buyer balance row not found" in
  credit_available buyerId currencyId amountStr escrowId (available_balance buyerRow).

(** Both "before" values of a refund come from its one SELECT. *)
Definition refund_pay (escrowId : string) (row : escrow) : M balances unit :=
  let sellerId := esc_user_id row in
  let currencyId := esc_currency_id row in
  let amountStr := toAmount (esc_amount row) in
  ensureUserBalanceRow (funding_key sellerId currencyId CHAIN_ID_GLOBAL) ;;;
  let* before := debit_escrow "refundFromEscrow: seller balance row not found"
                   sellerId currencyId amountStr escrowId in
  credit_available sellerId currencyId amountStr escrowId (available_balance before).

Definition release_body (escrowId buyerId : string) : M escrow_db escrow_result :=
  pay_out escrowId EscReleased AlreadyReleased (release_pay escrowId buyerId).

Definition refund_body (escrowId : string) : M escrow_db escrow_result :=
  pay_out escrowId EscRefunded AlreadyRefunded (refund_pay escrowId).

Definition releaseFromEscrow (escrowId buyerId : string) : M escrow_db escrow_result :=
  let* early := escrow_check escrowId AlreadyReleased in
  match early with Some r => ret r | None => release_body escrowId buyerId end.

Definition refundFromEscrow (escrowId : string) : M escrow_db escrow_result :=
  let* early := escrow_check escrowId AlreadyRefunded in
  match early with Some r => ret r | None => refund_body escrowId end.
End Escrow.

(** ** What the balance moves do *)
Section Moves.
Context `{DecimalJs}.
Let gkey (u c : string) : bal_key := funding_key u c CHAIN_ID_GLOBAL.

Lemma debit_escrow_run nf u c a id s r :
  user_balances s !! gkey u c = Some r →
  ∃ es, debit_escrow nf u c a id s =
    if a <=? escrow_balance r
    then if row_nonneg (add_buckets r 0 0 0 (- a) 0)
         then Ret (r, post (gkey u c) (add_buckets r 0 0 0 (- a) 0) es s)
         else Throw "user_balances invariant violated"
    else Throw "user_balances UPDATE affected 0 rows".
Proof.
  intros Hk. eexists. unfold debit_escrow, gkey in *.
  unfold bind at 1. rewrite (select_known _ _ _ Hk). cbv beta iota.
  unfold bind at 1, get_or, ret. cbv beta iota.
  unfold bind at 1. rewrite (update_known _ _ _ Hk).
  destruct (_ <=? _); [|done]. unfold assertUserBalanceUpdated, get_or.
  unfold bind, ret, assertBalanceInvariant, require. destruct (row_nonneg _); [|done].
  unfold ret. rewrite insert_ledger_post. done.
Qed.

Lemma credit_available_run u c a id before s r :
  user_balances s !! gkey u c = Some r →
  ∃ es, credit_available u c a id before s =
    if row_nonneg (add_buckets r a 0 0 0 0)
    then Ret (tt, post (gkey u c) (add_buckets r a 0 0 0 0) es s)
    else Throw "user_balances invariant violated".
Proof.
  intros Hk. eexists. unfold credit_available, gkey in *.
  unfold bind at 1. rewrite (update_known _ _ _ Hk). cbv beta iota.
  unfold assertUserBalanceUpdated, get_or.
  unfold bind, ret, assertBalanceInvariant, require. destruct (row_nonneg _); [|done].
  unfold ret. rewrite insert_ledger_post. done.
Qed.

(** The payment of an escrow: [a] leaves the seller's escrow bucket for the
    receiver's available bucket. *)
Definition paid (seller receiver c : string) (a : Z) (s s' : balances) : Prop :=
  ∃ es1 es2,
    let rs := row_of (gkey seller c) s in
    let s1 := post (gkey seller c) (add_buckets rs 0 0 0 (- a) 0) es1
                (ensured (gkey receiver c) (ensured (gkey seller c) s)) in
    let rr := row_of (gkey receiver c) s1 in
    a ≤ escrow_balance rs ∧
    row_nonneg (add_buckets rs 0 0 0 (- a) 0) = true ∧
    row_nonneg (add_buckets rr a 0 0 0 0) = true ∧
    s' = post (gkey receiver c) (add_buckets rr a 0 0 0 0) es2 s1.

(** The outcome of a payment: it succeeds as [paid], or it throws. *)
Definition pays (pay : M balances unit) (seller receiver c : string) (a : Z) : Prop := ∀ s,
  (∀ s', pay s = Ret (tt, s') → paid seller receiver c a s s') ∧
  (row_nonneg (row_of (gkey receiver c) s) = true → row_nonneg (row_of (gkey seller c) s) = true →
   0 ≤ a ≤ escrow_balance (row_of (gkey seller c) s) → ∃ s', pay s = Ret (tt, s')) ∧
  (escrow_balance (row_of (gkey seller c) s) < a →
   pay s = Throw "user_balances UPDATE affected 0 rows").

Lemma pays_intro pay seller receiver c a :
  (∀ s, ∃ es1 es2,
    let rs := row_of (gkey seller c) s in
    let s1 := post (gkey seller c) (add_buckets rs 0 0 0 (- a) 0) es1
                (ensured (gkey receiver c) (ensured (gkey seller c) s)) in
    let rr := row_of (gkey receiver c) s1 in
    pay s = if a <=? escrow_balance rs
    then if row_nonneg (add_buckets rs 0 0 0 (- a) 0)
         then if row_nonneg (add_buckets rr a 0 0 0 0)
              then Ret (tt, post (gkey receiver c) (add_buckets rr a 0 0 0 0) es2 s1)
              else Throw "user_balances invariant violated"
         else Throw "user_balances invariant violated"
    else Throw "user_balances UPDATE affected 0 rows") →
  pays pay seller receiver c a.
Proof.
  intros Hall s. destruct (Hall s) as (es1 & es2 & Hpay). cbv zeta in Hpay.
  set (rs := row_of (gkey seller c) s) in *.
  set (s0 := ensured (gkey receiver c) (ensured (gkey seller c) s)) in *.
  set (s1 := post (gkey seller c) (add_buckets rs 0 0 0 (- a) 0) es1 s0) in *.
  set (rr := row_of (gkey receiver c) s1) in *.
  rewrite Hpay. split; [|split].
  - intros s' Hret. destruct (_ <=? _) eqn:E; [|done].
    destruct (row_nonneg (add_buckets rs _ _ _ _ _)) eqn:E2; [|done].
    destruct (row_nonneg (add_buckets rr _ _ _ _ _)) eqn:E3; [|done].
    injection Hret as <-. bool_prop. by exists es1, es2.
  - intros Hnr Hns Ha. rewrite (proj2 (Z.leb_le _ _)) by lia.
    apply row_nonneg_true in Hns, Hnr. fold rs in Hns.
    rewrite (proj2 (row_nonneg_true _)) by (simpl; lia).
    rewrite (proj2 (row_nonneg_true _)); [by eexists|].
    unfold rr, s1. destruct (decide (gkey seller c = gkey receiver c)) as [<-|Hne].
    + rewrite row_of_post. simpl. lia.
    + rewrite row_of_post_ne by done. unfold s0. rewrite !row_of_ensured. simpl. lia.
  - intros Ha. by rewrite (proj2 (Z.leb_gt _ _)) by lia.
Qed.

(** The seller's row, then the receiver's, in the state after the debit. *)
Lemma receiver_known seller receiver c s rs' es1 :
  let s1 := post (gkey seller c) rs' es1 (ensured (gkey receiver c) (ensured (gkey seller c) s)) in
  user_balances s1 !! gkey receiver c = Some (row_of (gkey receiver c) s1).
Proof.
  intros s1. unfold s1. destruct (decide (gkey seller c = gkey receiver c)) as [<-|Hne].
  - by rewrite row_of_post, post_lookup.
  - rewrite row_of_post_ne, post_lookup_ne by done. by rewrite row_of_ensured, ensured_lookup.
Qed.

Lemma ensured_twice k s : ensured k (ensured k s) = ensured k s.
Proof.
  unfold ensured at 1. rewrite row_of_ensured. unfold ensured, put_row; simpl.
  by rewrite insert_insert_eq.
Qed.

Lemma release_pays id buyer e :
  pays (release_pay id buyer e) (esc_user_id e) buyer (esc_currency_id e) (toAmount (esc_amount e)).
Proof.
  apply pays_intro. intros s. unfold release_pay.
  set (c := esc_currency_id e). set (a := toAmount (esc_amount e)). set (seller := esc_user_id e).
  set (s0 := ensured (gkey buyer c) (ensured (gkey seller c) s)).
  assert (user_balances s0 !! gkey seller c = Some (row_of (gkey seller c) s)) as Hs0
    by apply ensured_lookup_mono, ensured_lookup.
  destruct (debit_escrow_run "releaseFromEscrow: seller balance row not found" seller c a id
    s0 _ Hs0) as [es1 Hdebit].
  pose proof (receiver_known seller buyer c s (add_buckets (row_of (gkey seller c) s) 0 0 0 (- a) 0)
    es1) as Hs1; cbv zeta in Hs1.
  edestruct (credit_available_run buyer c a id) as [es2 Hcredit]; [exact Hs1|].
  exists es1, es2. cbv zeta. unfold bind at 1. rewrite ensure_run. unfold bind at 1.
  rewrite ensure_run. fold (gkey seller c) (gkey buyer c) s0. unfold bind at 1. rewrite Hdebit.
  destruct (_ <=? _); [|done].
  destruct (row_nonneg (add_buckets (row_of (gkey seller c) s) 0 0 0 (- a) 0)); [|done].
  unfold bind at 1. rewrite (select_known _ _ _ Hs1). cbv beta iota.
  unfold bind, get_or, ret. apply Hcredit.
Qed.

Lemma refund_pays id e :
  pays (refund_pay id e) (esc_user_id e) (esc_user_id e) (esc_currency_id e)
    (toAmount (esc_amount e)).
Proof.
  apply pays_intro. intros s. unfold refund_pay.
  set (c := esc_currency_id e). set (a := toAmount (esc_amount e)). set (seller := esc_user_id e).
  destruct (debit_escrow_run "refundFromEscrow: seller balance row not found" seller c a id
    (ensured (gkey seller c) s) _ (ensured_lookup _ _)) as [es1 Hdebit].
  pose proof (receiver_known seller seller c s (add_buckets (row_of (gkey seller c) s) 0 0 0 (- a) 0)
    es1) as Hs1; cbv zeta in Hs1.
  edestruct (credit_available_run seller c a id
    (available_balance (row_of (gkey seller c) s))) as [es2 Hcredit]; [exact Hs1|].
  rewrite ensured_twice in Hcredit.
  exists es1, es2. cbv zeta. rewrite ensured_twice. unfold bind at 1. rewrite ensure_run.
  fold (gkey seller c). unfold bind at 1. rewrite Hdebit. destruct (_ <=? _); [|done].
  destruct (row_nonneg (add_buckets (row_of (gkey seller c) s) 0 0 0 (- a) 0)); [|done].
  apply Hcredit.
Qed.
End Moves.

(** ** A call that closes an escrow, uniformly *)
Inductive escrow_call :=
  | CallRelease (escrowId buyerId : string)
  | CallRefund (escrowId : string).

Definition call_escrow (c : escrow_call) : string :=
  match c with CallRelease id _ | CallRefund id => id end.
Definition call_already (c : escrow_call) : escrow_result :=
  match c with CallRelease _ _ => AlreadyReleased | CallRefund _ => AlreadyRefunded end.
Definition call_status (c : escrow_call) : escrow_status :=
  match c with CallRelease _ _ => EscReleased | CallRefund _ => EscRefunded end.
Definition call_receiver (c : escrow_call) (e : escrow) : string :=
  match c with CallRelease _ b => b | CallRefund _ => esc_user_id e end.

Section Calls.
Context `{DecimalJs}.

Definition run_body (c : escrow_call) : M escrow_db escrow_result :=
  match c with CallRelease id b => release_body id b | CallRefund id => refund_body id end.
Definition run_call (c : escrow_call) : M escrow_db escrow_result :=
  match c with
  | CallRelease id b => releaseFromEscrow id b
  | CallRefund id => refundFromEscrow id
  end.

Definition call_pay (c : escrow_call) (e : escrow) : M balances unit :=
  match c with
  | CallRelease id b => release_pay id b e
  | CallRefund id => refund_pay id e
  end.

Lemma call_pays c e :
  pays (call_pay c e) (esc_user_id e) (call_receiver c e) (esc_currency_id e)
    (toAmount (esc_amount e)).
Proof. destruct c; [apply release_pays | apply refund_pays]. Qed.

Definition closed_db (c : escrow_call) (e : escrow) (b : balances) (d : escrow_db) : escrow_db :=
  EscrowDb b (<[call_escrow c := set_status e (call_status c)]> (escrows d)) (tokens d) (currencies d).

Lemma run_body_run c d :
  run_body c d =
  match escrows d !! call_escrow c with
  | None => Ret (call_already c, d)
  | Some e =>
      if bool_decide (esc_status e = EscLocked) && negb (esc_admin_frozen e)
      then match call_pay c e (edb_balances d) with
           | Ret (_, b) => Ret (Moved, closed_db c e b d)
           | Throw m => Throw m
           end
      else if esc_admin_frozen e then Throw "ESCROW_ADMIN_FROZEN"
      else Ret (call_already c, d)
  end.
Proof.
  assert (run_body c = pay_out (call_escrow c) (call_status c) (call_already c) (call_pay c)) as ->
    by (by destruct c).
  unfold pay_out, close_escrow. unfold bind at 1 2, gets at 1.
  destruct (escrows d !! call_escrow c) as [e|] eqn:E; [destruct (_ && _)%bool eqn:E2|].
  all: unfold modify, ret, bind at 1 2, gets, require, zoom; rewrite ?E; try done.
  - change (sget (put_escrow _ _ d)) with (edb_balances d).
    by destruct (call_pay c e (edb_balances d)) as [[[] s']|].
  - by destruct (esc_admin_frozen e).
Qed.
End Calls.

Section CallFacts.
Context `{DecimalJs}.

Lemma run_call_run c d :
  run_call c d =
  match escrows d !! call_escrow c with
  | None => Throw "Escrow not found"
  | Some e => if bool_decide (esc_status e = EscLocked) then run_body c d
              else Ret (call_already c, d)
  end.
Proof.
  assert (run_call c d = bind (escrow_check (call_escrow c) (call_already c))
            (λ early, match early with Some r => ret r | None => run_body c end) d) as ->
    by (destruct c; reflexivity).
  unfold escrow_check, bind, gets, get_or, ret, throw, require.
  destruct (escrows d !! call_escrow c) as [e|] eqn:E; [|done].
  destruct (bool_decide _) eqn:E2; simpl; [|done].
  destruct (esc_admin_frozen e) eqn:E3; [|done]. simpl. by rewrite run_body_run, E, E2, E3.
Qed.

(** What a call that moved funds did. *)
Lemma run_call_moved c d d' :
  run_call c d = Ret (Moved, d') →
  ∃ e b, escrows d !! call_escrow c = Some e ∧ esc_status e = EscLocked ∧
    esc_admin_frozen e = false ∧ d' = closed_db c e b d ∧
    paid (esc_user_id e) (call_receiver c e) (esc_currency_id e) (toAmount (esc_amount e))
      (edb_balances d) b.
Proof.
  rewrite run_call_run, run_body_run.
  destruct (escrows d !! call_escrow c) as [e|]; [|done].
  assert (∀ d0, Ret (call_already c, d0) ≠ Ret (Moved, d')) as Hal by (by destruct c).
  destruct (bool_decide _) eqn:E1; [|intros Hx; by destruct (Hal d)]. simpl.
  destruct (esc_admin_frozen e) eqn:E2; simpl; [done|].
  destruct (call_pay c e (edb_balances d)) as [[[] b]|] eqn:E3; [|done].
  intros Heq. injection Heq as <-. bool_prop. exists e, b.
  do 4 (split; [done|]). by apply call_pays in E3.
Qed.

(** A call that does not move funds leaves the database as it is. *)
Lemma run_call_not_moved c d r d' :
  run_call c d = Ret (r, d') → r ≠ Moved → d' = d.
Proof.
  rewrite run_call_run, run_body_run.
  destruct (escrows d !! call_escrow c) as [e|]; [|done].
  destruct (bool_decide _); [|by intros [= _ ->]]. simpl.
  destruct (negb _); simpl; [|destruct (esc_admin_frozen e); by intros [=]].
  by destruct (call_pay _ _ _) as [[[] ?]|]; intros [=].
Qed.

Lemma paid_funds seller receiver c a s s' c' :
  paid seller receiver c a s s' → funds c' s' = funds c' s.
Proof.
  intros (es1 & es2 & Ha & _ & _ & ->). rewrite !funds_post, !funds_ensured, !row_of_ensured.
  simpl. destruct (String.eqb c c'); [|lia]. unfold worth; simpl. lia.
Qed.

Lemma paid_wf seller receiver c a s s' : paid seller receiver c a s s' → balances_wf s → balances_wf s'.
Proof.
  intros (es1 & es2 & Ha & H1 & H2 & ->) Hwf.
  apply wf_post; [|done]. apply wf_post; [|done]. by repeat apply wf_ensured.
Qed.

(** The move into escrow, on the row it was taken from. *)
Definition moved_in (k : bal_key) (a : Z) (b b' : balances) : Prop :=
  ∃ s0 es, (∀ k', row_of k' s0 = row_of k' b) ∧ (∀ c, funds c s0 = funds c b) ∧
    (balances_wf b → balances_wf s0) ∧
    a ≤ available_balance (row_of k b) ∧
    row_nonneg (add_buckets (row_of k b) (- a) 0 0 a 0) = true ∧
    b' = post k (add_buckets (row_of k b) (- a) 0 0 a 0) es s0.

Definition token_chain (tokenId : string) (d : escrow_db) : string :=
  default CHAIN_ID_GLOBAL (t ← tokens d !! tokenId; tok_chain_id t).

Lemma move_entries_run seller cur refId x y a k r es s :
  ∃ es', move_entries seller cur refId x y a (post k r es s) = Ret (tt, post k r es' s).
Proof.
  eexists. unfold move_entries, bind. rewrite insert_ledger_post. cbv beta iota.
  rewrite insert_ledger_post. reflexivity.
Qed.

Lemma move_row_run k a s :
  move_available_to_escrow k a (ensured k s) =
  if a <=? available_balance (row_of k s)
  then Ret (Some (add_buckets (row_of k s) (- a) 0 0 a 0),
            post k (add_buckets (row_of k s) (- a) 0 0 a 0) [] s)
  else Ret (None, ensured k s).
Proof. unfold move_available_to_escrow. rewrite update_ensured. reflexivity. Qed.

Lemma require_run {S} (b : bool) e (s : S) : require b e s = if b then Ret (tt, s) else Throw e.
Proof. by destruct b. Qed.

(** The statements that take the funds from one row, on either branch. *)
Lemma move_taken seller cur refId x y k a b s0 t1 r u b' :
  (∀ k', row_of k' s0 = row_of k' b) → (∀ c, funds c s0 = funds c b) →
  (balances_wf b → balances_wf s0) →
  move_available_to_escrow k a (ensured k s0) = Ret (Some r, t1) →
  row_nonneg r = true →
  move_entries seller cur refId x y a t1 = Ret (u, b') →
  moved_in k a b b'.
Proof.
  intros Hrow Hfunds Hwf Hmove Hnn Hent. rewrite move_row_run, Hrow in Hmove.
  destruct (_ <=? _) eqn:E; [|done]. injection Hmove as <- <-. bool_prop.
  destruct (move_entries_run seller cur refId x y a k
    (add_buckets (row_of k b) (- a) 0 0 a 0) [] s0) as [es' Hes].
  rewrite Hes in Hent. injection Hent as _ <-. by exists s0, es'.
Qed.

Lemma assertValidDecimal_inv n v (s : escrow_db) u s' :
  assertValidDecimal n v s = Ret (u, s') → s' = s.
Proof. unfold assertValidDecimal, require, ret, throw. repeat case_match; by intros [=]. Qed.

Lemma moveToEscrow_inv seller tok amount order uuid id d r d' :
  moveToEscrow seller tok amount order uuid id d = Ret (r, d') →
  ∃ x cur ch b', amount = Fin x ∧ r = id ∧ 0 < toAmount x ∧
    getCurrencyIdForToken tok d = Some cur ∧
    (ch = token_chain tok d ∨
     ch = CHAIN_ID_GLOBAL ∧
     available_balance (row_of (funding_key seller cur (token_chain tok d)) (edb_balances d))
       < toAmount x) ∧
    escrows d !! id = None ∧
    moved_in (funding_key seller cur ch) (toAmount x) (edb_balances d) b' ∧
    d' = EscrowDb b' (<[id := Escrow seller cur tok (toAmount x) EscLocked order false]> (escrows d))
           (tokens d) (currencies d).
Proof.
  unfold moveToEscrow. intros Hrun.
  destruct amount as [x|]; [|run_inv Hrun; discriminate].
  run_all Hrun; run_all Hm3; apply assertValidDecimal_inv in Hm as ->;
    fold (token_chain tok d) in *; set (k := funding_key seller a2 (token_chain tok d)) in *;
    rewrite ensure_run in Hm0; injection Hm0 as <- <-;
    rewrite select_ensured in Hm1; injection Hm1 as <- <-.
  - rewrite ensure_run in Hm4. injection Hm4 as <- <-.
    rewrite select_ensured in Hm5. injection Hm5 as <- <-.
    bool_prop. subst a6. unfold assertUserBalanceUpdated, assertBalanceInvariant in *.
    run_inv Hm7. run_inv Hm8. rewrite move_row_run in Hm2.
    destruct (_ <=? _) eqn:Eav; [done|]. injection Hm2 as <-. subst a13.
    bool_prop. exists x, a2, CHAIN_ID_GLOBAL, t7. do 2 (split; [done|]). split; [lia|].
    do 2 (split; [by auto|]). split; [done|]. split; [|done].
    eapply move_taken; [| | |exact Hm6| |exact Hm3]; [| | |done].
    + intros; apply row_of_ensured.
    + intros; apply funds_ensured.
    + apply wf_ensured.
  - unfold assertUserBalanceUpdated, assertBalanceInvariant in *.
    run_inv Hm4. run_inv Hm5. subst a6. bool_prop.
    exists x, a2, (token_chain tok d), t4. do 2 (split; [done|]). split; [lia|].
    do 2 (split; [by auto|]). split; [done|]. split; [|done].
    by eapply move_taken; [| | |exact Hm2| |exact Hm3].
Qed.
End CallFacts.

(** ** Escrow transactions *)
Inductive escrow_op :=
  | OpMove (sellerId tokenId : string) (amount : decval) (order : option string)
      (uuid escrowId : string)
  | OpCall (c : escrow_call).

Section System.
Context `{DecimalJs}.

Definition run_escrow_op (o : escrow_op) : M escrow_db unit :=
  match o with
  | OpMove u t a ord uuid id => moveToEscrow u t a ord uuid id ;;; ret tt
  | OpCall c => run_call c ;;; ret tt
  end.

Inductive escrow_step : escrow_db → escrow_db → Prop :=
  | escrow_tx o d : escrow_step d (snd (transaction (run_escrow_op o) d)).

Definition call_closed (c : escrow_call) (e : escrow) (d d' : escrow_db) : Prop :=
  ∃ b, escrows d !! call_escrow c = Some e ∧ esc_status e = EscLocked ∧
    esc_admin_frozen e = false ∧ d' = closed_db c e b d ∧
    paid (esc_user_id e) (call_receiver c e) (esc_currency_id e) (toAmount (esc_amount e))
      (edb_balances d) b.

(** Every transaction either leaves the database, moves funds in, or closes one
    escrow. *)
Lemma escrow_step_cases d d' :
  escrow_step d d' →
  d' = d ∨
  (∃ c e, call_closed c e d d') ∨
  (∃ seller tok amount order uuid id r,
    moveToEscrow seller tok amount order uuid id d = Ret (r, d')).
Proof.
  intros [o d0]. unfold transaction, run_escrow_op.
  destruct o as [u t a ord uuid id|c]; unfold bind, ret.
  - destruct (moveToEscrow _ _ _ _ _ _ d0) as [[r d1]|] eqn:E; simpl; [|by left].
    right; right. by exists u, t, a, ord, uuid, id, r.
  - destruct (run_call c d0) as [[[] d1]|] eqn:E; simpl; [| | |by left].
    + right; left. apply run_call_moved in E as (e & b & Hrest). by exists c, e, b.
    + left. by apply run_call_not_moved in E.
    + left. by apply run_call_not_moved in E.
Qed.

Lemma moved_in_funds k a b b' c : moved_in k a b b' → funds c b' = funds c b.
Proof.
  intros (s0 & es & Hrow & Hf & _ & _ & _ & ->). rewrite funds_post, Hf, Hrow.
  destruct (String.eqb _ _); unfold worth; simpl; lia.
Qed.

Lemma moved_in_wf k a b b' : moved_in k a b b' → balances_wf b → balances_wf b'.
Proof. intros (s0 & es & _ & _ & Hwf & _ & Hnn & ->) Hb. apply wf_post; auto. Qed.

(** C4. The escrow service moves funds and never creates or destroys them: any
    sequence of escrow transactions, committed or rolled back, in any order, keeps
    the sum of the available, locked and escrow balances of every currency, and keeps
    every balance non-negative. *)
Theorem escrow_conserves (d d' : escrow_db) :
  balances_wf (edb_balances d) → rtc escrow_step d d' →
  balances_wf (edb_balances d') ∧ ∀ c, funds c (edb_balances d') = funds c (edb_balances d).
Proof.
  intros Hwf.
  apply (rtc_invariant escrow_step (λ x, balances_wf (edb_balances x) ∧
    ∀ c, funds c (edb_balances x) = funds c (edb_balances d))); [|done].
  intros x y [Hx Hf] Hstep.
  apply escrow_step_cases in Hstep as [->|[(c & e & b & _ & _ & _ & -> & Hp)|
    (u & t & a & o & uu & id & r & Hm)]]; [done| |].
  - simpl. split; [by eapply paid_wf|]. intros c'. by rewrite (paid_funds _ _ _ _ _ _ _ Hp).
  - apply moveToEscrow_inv in Hm as (z & cur & ch & b & _ & _ & _ & _ & _ & _ & Hin & ->).
    simpl. split; [by eapply moved_in_wf|]. intros c'. by rewrite (moved_in_funds _ _ _ _ _ Hin).
Qed.

(** ** Solvency *)

(** What the locked escrows of a user and currency add up to. *)
Definition owes (u c : string) (e : escrow) : Z :=
  if bool_decide (esc_user_id e = u ∧ esc_currency_id e = c ∧ esc_status e = EscLocked)
  then esc_amount e else 0.
Definition owed (u c : string) (m : gmap string escrow) : Z := msum (λ _ e, owes u c e) m.

Definition escrow_amount_ok (e : escrow) : Prop :=
  0 < esc_amount e ∧ toAmount (esc_amount e) = esc_amount e.

Definition global_escrow (u c : string) (d : escrow_db) : Z :=
  escrow_balance (row_of (funding_key u c CHAIN_ID_GLOBAL) (edb_balances d)).

Definition tokens_global (d : escrow_db) : Prop := ∀ t, token_chain t d = CHAIN_ID_GLOBAL.

Definition solvent (d : escrow_db) : Prop :=
  balances_wf (edb_balances d) ∧ tokens_global d ∧
  (∀ id e, escrows d !! id = Some e → escrow_amount_ok e) ∧
  ∀ u c, global_escrow u c d = owed u c (escrows d).

Lemma owed_le u c m id e :
  (∀ i x, m !! i = Some x → escrow_amount_ok x) →
  m !! id = Some e → owes u c e ≤ owed u c m.
Proof.
  intros Hok Hid. unfold owed. rewrite (msum_lookup _ _ _ _ Hid).
  assert (0 ≤ msum (λ _ x, owes u c x) (delete id m)); [|lia].
  apply msum_nonneg. intros k v Hk. apply lookup_delete_Some in Hk as [_ Hk].
  apply Hok in Hk as [Hpos _]. unfold owes. case_bool_decide; lia.
Qed.

Lemma set_status_closed_owes u c e st : st ≠ EscLocked → owes u c (set_status e st) = 0.
Proof. intros. unfold owes. case_bool_decide as E; [|done]. by destruct E as (_&_&?). Qed.

Lemma call_status_closed c : call_status c ≠ EscLocked.
Proof. by destruct c. Qed.

Lemma funding_key_ne u c u' c' ch :
  ¬ (u = u' ∧ c = c') → funding_key u c ch ≠ funding_key u' c' ch.
Proof. unfold funding_key. intros Hne [=]. auto. Qed.

(** The seller's global escrow bucket after a payment. *)
Lemma paid_escrow seller receiver c a s s' u c' :
  paid seller receiver c a s s' →
  escrow_balance (row_of (funding_key u c' CHAIN_ID_GLOBAL) s')
  = escrow_balance (row_of (funding_key u c' CHAIN_ID_GLOBAL) s)
    - (if bool_decide (seller = u ∧ c = c') then a else 0).
Proof.
  intros (es1 & es2 & _ & _ & _ & ->).
  assert (∀ k es r s0, escrow_balance (row_of (funding_key u c' CHAIN_ID_GLOBAL) (post k r es s0))
    = escrow_balance (row_of (funding_key u c' CHAIN_ID_GLOBAL) s0)
      + (if decide (k = funding_key u c' CHAIN_ID_GLOBAL)
         then escrow_balance r - escrow_balance (row_of k s0) else 0)) as Hpost.
  { intros. case_decide as E; [subst k; rewrite row_of_post; lia|].
    rewrite row_of_post_ne by done. lia. }
  rewrite !Hpost, !row_of_ensured. simpl.
  assert (bool_decide (seller = u ∧ c = c')
    = bool_decide (funding_key seller c CHAIN_ID_GLOBAL = funding_key u c' CHAIN_ID_GLOBAL)) as ->.
  { apply bool_decide_ext. unfold funding_key. split; [by intros [-> ->]|by intros [= -> ->]]. }
  repeat case_decide; repeat case_bool_decide; try done; lia.
Qed.

Lemma solvent_closed c e d d' : call_closed c e d d' → solvent d → solvent d'.
Proof.
  intros (b & He & Hst & _ & -> & Hp) (Hwf & Htok & Hok & Hsolv).
  pose proof (Hok _ _ He) as [Hpos Hamt].
  split; [by eapply paid_wf|]. split; [done|]. split.
  - intros id e' He'. simpl in He'. apply lookup_insert_Some in He' as [[<- <-]|[_ He']]; [|by eauto]. done.
  - intros u cu. unfold global_escrow, owed in *; simpl.
    rewrite (paid_escrow _ _ _ _ _ _ _ _ Hp), Hsolv, (msum_insert_Some _ _ _ _ _ He).
    rewrite set_status_closed_owes by apply call_status_closed.
    rewrite Hamt. unfold owes. rewrite Hst.
    repeat case_bool_decide; naive_solver lia.
Qed.

Lemma solvent_moved seller tok amount order uuid id d r d' :
  moveToEscrow seller tok amount order uuid id d = Ret (r, d') → solvent d → solvent d'.
Proof.
  intros Hm (Hwf & Htok & Hok & Hsolv).
  apply moveToEscrow_inv in Hm as (z & cur & ch & b & _ & _ & Hpos & _ & Hch & Hid & Hin & ->).
  assert (ch = CHAIN_ID_GLOBAL) as -> by (destruct Hch as [->|[-> _]]; [apply Htok|done]).
  split; [by eapply moved_in_wf|]. split; [done|]. split.
  - intros id' e' He'. simpl in He'. apply lookup_insert_Some in He' as [[_ <-]|[_ He']]; [|eauto].
    split; [done|]. apply toDP_idem.
  - intros u c. unfold global_escrow, owed in *; simpl.
    rewrite msum_insert_None, <- Hsolv by done. unfold owes; simpl.
    destruct Hin as (s0 & es & Hrow & _ & _ & _ & _ & ->).
    case_bool_decide as E.
    + destruct E as (-> & -> & _). rewrite row_of_post. simpl. lia.
    + rewrite row_of_post_ne, Hrow by (apply funding_key_ne; naive_solver). lia.
Qed.

Lemma solvent_step d d' : solvent d → escrow_step d d' → solvent d'.
Proof.
  intros Hx Hstep.
  apply escrow_step_cases in Hstep as [->|[(c & e & Hc)|(u & t & a & o & uu & id & r & Hm)]];
    [done|by eapply solvent_closed|by eapply solvent_moved].
Qed.

(** C5. The escrow bucket of an account is exactly what its open escrows add up to:
    when no token names a chain, every sequence of escrow transactions, committed or
    rolled back, keeps every user's global escrow balance equal to the sum of the
    locked escrows of that user and currency. *)
Theorem escrow_solvent (d d' : escrow_db) :
  solvent d → rtc escrow_step d d' → solvent d'.
Proof. apply rtc_invariant, solvent_step. Qed.

(** On a solvent database a locked escrow that is not frozen can be paid. *)
Lemma call_succeeds c e d :
  solvent d → escrows d !! call_escrow c = Some e → esc_status e = EscLocked →
  esc_admin_frozen e = false →
  ∃ b, run_call c d = Ret (Moved, closed_db c e b d) ∧ call_closed c e d (closed_db c e b d) ∧
    paid (esc_user_id e) (call_receiver c e) (esc_currency_id e) (esc_amount e) (edb_balances d) b.
Proof.
  intros (Hwf & Htok & Hok & Hsolv) He Hst Hfr. destruct (Hok _ _ He) as [Hpos Hamt].
  pose proof (owed_le (esc_user_id e) (esc_currency_id e) _ _ _ Hok He) as Hle.
  rewrite <- Hsolv in Hle. unfold owes in Hle. rewrite bool_decide_eq_true_2 in Hle by done.
  destruct (call_pays c e (edb_balances d)) as (Hpaid & Hpay & _). rewrite Hamt in *.
  destruct Hpay as [b Hb]; [by apply wf_row_of..|unfold global_escrow in Hle; lia|].
  specialize (Hpaid _ Hb). exists b. split; [|split; [|done]].
  - rewrite run_call_run, run_body_run, He, bool_decide_eq_true_2, Hfr by done. simpl. by rewrite Hb.
  - exists b. by rewrite Hamt.
Qed.

(** The receiver's available balance after a payment. *)
Lemma paid_available seller receiver c a s s' :
  paid seller receiver c a s s' →
  available_balance (row_of (funding_key receiver c CHAIN_ID_GLOBAL) s')
  = available_balance (row_of (funding_key receiver c CHAIN_ID_GLOBAL) s) + a.
Proof.
  intros (es1 & es2 & _ & _ & _ & ->). rewrite row_of_post. simpl.
  destruct (decide (funding_key seller c CHAIN_ID_GLOBAL = funding_key receiver c CHAIN_ID_GLOBAL))
    as [Heq|Hne].
  - rewrite Heq, row_of_post. simpl. lia.
  - rewrite row_of_post_ne by done. by rewrite !row_of_ensured.
Qed.

(** An open escrow can always be closed, and only once: on a solvent database,
    releasing or refunding a locked escrow that no admin froze succeeds and moves its
    amount from the seller's escrow bucket to the receiver's available bucket; every
    later release or refund of it returns "already" and changes nothing. *)
Theorem escrow_closes_once (c : escrow_call) (e : escrow) (d : escrow_db) :
  solvent d → escrows d !! call_escrow c = Some e → esc_status e = EscLocked →
  esc_admin_frozen e = false →
  ∃ d', run_call c d = Ret (Moved, d') ∧ solvent d' ∧
    global_escrow (esc_user_id e) (esc_currency_id e) d'
      = global_escrow (esc_user_id e) (esc_currency_id e) d - esc_amount e ∧
    (let k := funding_key (call_receiver c e) (esc_currency_id e) CHAIN_ID_GLOBAL in
     available_balance (row_of k (edb_balances d'))
     = available_balance (row_of k (edb_balances d)) + esc_amount e) ∧
    ∀ c2, call_escrow c2 = call_escrow c → run_call c2 d' = Ret (call_already c2, d').
Proof.
  intros Hs He Hst Hfr.
  destruct (call_succeeds c e d Hs He Hst Hfr) as (b & Hrun & Hcl & Hpaid).
  exists (closed_db c e b d). split; [done|]. split; [|split; [|split]].
  - by apply (solvent_closed c e d).
  - unfold global_escrow; simpl. rewrite (paid_escrow _ _ _ _ _ _ _ _ Hpaid).
    by rewrite bool_decide_eq_true_2.
  - by apply paid_available in Hpaid.
  - intros c2 Hc2. rewrite run_call_run. simpl. rewrite Hc2, lookup_insert_eq. simpl.
    by rewrite bool_decide_eq_false_2 by apply call_status_closed.
Qed.
End System.

(** ** Interleaved calls

    Concurrent calls run their first SELECT and the rest of their statements at
    different moments: the guarded UPDATE takes the row lock of the escrow and the
    statements after it run under that lock and those of the balance rows. Between
    any two moments another call runs, or an administrator freezes an escrow. *)
Inductive phase :=
  | Started
  | Checked
  | Finished (r : option escrow_result).

Definition sessions := list (escrow_call * phase).

Definition set_frozen (b : bool) (e : escrow) : escrow :=
  Escrow (esc_user_id e) (esc_currency_id e) (esc_token_id e) (esc_amount e) (esc_status e)
    (esc_p2p_order_id e) b.

Section Interleaving.
Context `{DecimalJs}.

Definition after_check (c : escrow_call) (d : escrow_db) : phase :=
  match escrow_check (call_escrow c) (call_already c) d with
  | Ret (None, _) => Checked
  | Ret (Some r, _) => Finished (Some r)
  | Throw _ => Finished None
  end.

Definition after_body (c : escrow_call) (d : escrow_db) : phase * escrow_db :=
  match transaction (run_body c) d with
  | (Ret r, d') => (Finished (Some r), d')
  | (Throw _, d') => (Finished None, d')
  end.

Inductive sched : escrow_db * sessions → escrow_db * sessions → Prop :=
  | sched_check d l i c :
      l !! i = Some (c, Started) → sched (d, l) (d, <[i := (c, after_check c d)]> l)
  | sched_body d l i c :
      l !! i = Some (c, Checked) →
      sched (d, l) (snd (after_body c d), <[i := (c, fst (after_body c d))]> l)
  | sched_freeze d l id e b :
      escrows d !! id = Some e → sched (d, l) (put_escrow id (set_frozen b e) d, l).

(** The number of calls that paid the escrow [id] out. *)
Definition paid_out (id : string) (s : escrow_call * phase) : Z :=
  match s with
  | (c, Finished (Some Moved)) => if String.eqb (call_escrow c) id then 1 else 0
  | _ => 0
  end.
Definition payouts (id : string) (l : sessions) : Z := lsum (paid_out id) l.

Lemma after_body_cases c d :
  (∃ e, fst (after_body c d) = Finished (Some Moved) ∧ call_closed c e d (snd (after_body c d))) ∨
  (snd (after_body c d) = d ∧ ∀ id, paid_out id (c, fst (after_body c d)) = 0).
Proof.
  unfold after_body, transaction. rewrite run_body_run.
  destruct (escrows d !! call_escrow c) as [e|] eqn:E; [|right; simpl; by destruct c].
  destruct (_ && _)%bool eqn:E1.
  - destruct (call_pay c e (edb_balances d)) as [[[] b]|] eqn:E2; [|by right].
    left. exists e. split; [done|]. exists b. bool_prop. do 4 (split; [done|]).
    by apply call_pays in E2.
  - destruct (esc_admin_frozen e); right; simpl; by destruct c.
Qed.

Definition is_locked (e : escrow) : bool := bool_decide (esc_status e = EscLocked).

Definition payout_inv (id : string) (locked0 : bool) (s : escrow_db * sessions) : Prop :=
  ∃ e, escrows (fst s) !! id = Some e ∧
    payouts id (snd s) = (if locked0 && negb (is_locked e) then 1 else 0) ∧
    (locked0 = false → is_locked e = false).

Lemma payout_inv_body id locked0 d l i c :
  l !! i = Some (c, Checked) → payout_inv id locked0 (d, l) →
  payout_inv id locked0 (snd (after_body c d), <[i := (c, fst (after_body c d))]> l).
Proof.
  intros Hi (e & He & Hpay & Hl). simpl in *. unfold payout_inv, payouts in *; simpl.
  rewrite (lsum_insert _ _ _ _ _ Hi).
  destruct (after_body_cases c d) as [(e' & Hret & b & He' & Hst & Hfr & Hd' & Hp)|[Hd Hret]].
  - rewrite Hret, Hd'. simpl. destruct (String.eqb_spec (call_escrow c) id) as [Heq|Hne].
    + rewrite Heq in *. assert (e' = e) as -> by congruence. exists (set_status e (call_status c)).
      rewrite lookup_insert_eq. split; [done|]. rewrite Hpay. unfold is_locked in *.
      rewrite Hst in *. simpl. rewrite (bool_decide_eq_false_2 (_ = EscLocked))
        by apply call_status_closed. destruct locked0; simpl; naive_solver lia.
    + exists e. rewrite lookup_insert_ne by done. split; [done|]. split; [lia|done].
  - rewrite Hd, Hret. exists e. split; [done|]. split; [|done]. simpl. lia.
Qed.

Lemma payout_inv_step id locked0 s s' :
  payout_inv id locked0 s → sched s s' → payout_inv id locked0 s'.
Proof.
  intros Hinv Hstep. destruct Hstep as [d l i c Hi|d l i c Hi|d l id' e' b He'].
  - destruct Hinv as (e & He & Hpay & Hl). exists e. split; [done|]. split; [|done]. simpl.
    unfold payouts in *. rewrite (lsum_insert _ _ _ _ _ Hi). simpl in Hpay.
    rewrite Hpay. unfold after_check, escrow_check, bind, gets, get_or. simpl.
    destruct (escrows d !! call_escrow c) as [e2|]; [|simpl; lia].
    unfold ret. destruct (negb (bool_decide _)); [destruct c; simpl; lia|].
    unfold require, throw. destruct (esc_admin_frozen e2); simpl; lia.
  - by apply payout_inv_body.
  - destruct Hinv as (e & He & Hpay & Hl). simpl in *. unfold payout_inv. simpl.
    destruct (decide (id' = id)) as [->|Hne].
    + simplify_eq. exists (set_frozen b e). by rewrite lookup_insert_eq.
    + exists e. by rewrite lookup_insert_ne.
Qed.

(** C6. An escrow pays out at most once, however its calls interleave: from any
    database, let any number of release and refund calls start, and let their first
    SELECT and their remaining statements run in any order, with administrators
    freezing and unfreezing escrows in between. Then the number of calls that moved
    the escrow's funds is one if the escrow was locked and no longer is, and zero
    otherwise. *)
Theorem escrow_pays_once (id : string) (d d' : escrow_db) (l l' : sessions) (e : escrow) :
  escrows d !! id = Some e → (∀ i c p, l !! i = Some (c, p) → p = Started) →
  rtc sched (d, l) (d', l') →
  ∃ e', escrows d' !! id = Some e' ∧
    payouts id l' = if is_locked e && negb (is_locked e') then 1 else 0.
Proof.
  intros He Hstart Hrtc.
  assert (payout_inv id (is_locked e) (d, l)) as Hinv.
  { exists e. split; [done|]. split; [|done]. simpl. rewrite andb_negb_r.
    apply lsum_0. intros i [c p] Hi. by rewrite (Hstart _ _ _ Hi). }
  pose proof (rtc_invariant sched (payout_inv id (is_locked e)) _ _
    (payout_inv_step id (is_locked e)) Hinv Hrtc) as (e' & He' & Hpay & _).
  by exists e'.
Qed.

(** An escrow taken from a chain-specific balance row is stuck: when the token
    names a chain and the seller has the funds on that chain's row, [moveToEscrow]
    locks them there, while release and refund debit the row without a chain; if that
    row has less in escrow, every release and refund of the escrow throws, and the
    funds stay in escrow. *)
Theorem chain_escrow_stuck (seller tok cur id uuid r : string) (x : Z) (order : option string)
    (d d' : escrow_db) (c : escrow_call) :
  getCurrencyIdForToken tok d = Some cur →
  token_chain tok d ≠ CHAIN_ID_GLOBAL →
  toAmount x ≤ available_balance (row_of (funding_key seller cur (token_chain tok d)) (edb_balances d)) →
  global_escrow seller cur d < toAmount x →
  moveToEscrow seller tok (Fin x) order uuid id d = Ret (r, d') →
  call_escrow c = id →
  run_call c d' = Throw "user_balances UPDATE affected 0 rows" ∧
  is_locked <$> (escrows d' !! id) = Some true.
Proof.
  intros Hcur Hchain Hav Hglob Hmove Hid.
  apply moveToEscrow_inv in Hmove as
    (x' & cur' & ch & b & [= <-] & -> & Hpos & Hcur' & Hch & _ & Hin & ->).
  simplify_eq. destruct Hch as [->|[_ Hlt]]; [|lia].
  destruct Hin as (s0 & es & Hrow & _ & _ & _ & _ & ->).
  rewrite run_call_run, run_body_run. simpl. rewrite lookup_insert_eq. simpl.
  split; [|done].
  set (e := Escrow _ _ _ _ _ _ _). set (b := post _ _ _ _).
  destruct (call_pays c e b) as (_ & _ & Hthrow). rewrite Hthrow; [done|].
  unfold e, b; simpl. rewrite row_of_post_ne by (unfold funding_key; congruence).
  rewrite Hrow. unfold toAmount in *. rewrite toDP_idem. done.
Qed.
End Interleaving.

(** ** Concrete runs *)
#[local] Existing Instance decimal_36.

Definition usdt_db (chain : option string) (row_chain : string) : escrow_db :=
  EscrowDb (Balances {[funding_key "alice" "c-usdt" row_chain := UserBalance (dec 10 0) 0 0 0 0]} [])
    ∅ {["t-usdt" := Token "USDT" chain]} [Currency "c-usdt" "usdt"].
Definition demo_move (m : Z) (id : string) : escrow_op :=
  OpMove "alice" "t-usdt" (Fin (dec m 0)) (Some "order-1") "uuid-1" id.
Definition demo_db (ops : list escrow_op) (d : escrow_db) : escrow_db :=
  foldl (λ x o, snd (transaction (run_escrow_op o) x)) d ops.

Lemma demo_rtc ops d : rtc escrow_step d (demo_db ops d).
Proof.
  revert d. induction ops as [|o ops IH]; intros d; [apply rtc_refl|].
  eapply rtc_l; [apply escrow_tx|]. apply IH.
Qed.

Lemma usdt_wf chain row_chain : balances_wf (edb_balances (usdt_db chain row_chain)).
Proof. apply wf_singleton. vm_compute. reflexivity. Qed.

Lemma usdt_solvent : solvent (usdt_db None CHAIN_ID_GLOBAL).
Proof.
  split; [apply usdt_wf|]. split; [|split].
  - intros t. unfold token_chain; simpl.
    rewrite lookup_singleton. by case_decide.
  - intros id e. simpl. by rewrite lookup_empty.
  - intros u c. unfold owed; simpl. rewrite msum_empty.
    unfold global_escrow, row_of; simpl.
    rewrite lookup_singleton. by case_decide.
Qed.

Lemma escrow_conserves_witness :
  let d := usdt_db None CHAIN_ID_GLOBAL in
  let d' := demo_db [demo_move 4 "e1"; OpCall (CallRelease "e1" "bob"); OpCall (CallRefund "e1")] d in
  (balances_wf (edb_balances d') ∧ ∀ c, funds c (edb_balances d') = funds c (edb_balances d)) ∧
  funds "c-usdt" (edb_balances d') = dec 10 0 ∧
  available_balance (row_of (funding_key "bob" "c-usdt" CHAIN_ID_GLOBAL) (edb_balances d')) = dec 4 0.
Proof.
  intros d d'. split; [|split; vm_compute; reflexivity].
  apply (escrow_conserves d d'); [apply usdt_wf | apply demo_rtc].
Defined.

Lemma escrow_solvent_witness :
  let d := usdt_db None CHAIN_ID_GLOBAL in
  let d' := demo_db [demo_move 4 "e1"; demo_move 5 "e2"; OpCall (CallRefund "e1")] d in
  solvent d' ∧ global_escrow "alice" "c-usdt" d' = dec 5 0 ∧
  owed "alice" "c-usdt" (escrows d') = dec 5 0.
Proof.
  intros d d'. split; [|split; vm_compute; reflexivity].
  apply (escrow_solvent d d'); [apply usdt_solvent | apply demo_rtc].
Defined.

Lemma escrow_closes_once_witness :
  let d := demo_db [demo_move 4 "e1"] (usdt_db None CHAIN_ID_GLOBAL) in
  let e := Escrow "alice" "c-usdt" "t-usdt" (dec 4 0) EscLocked (Some "order-1") false in
  ∃ d', run_call (CallRelease "e1" "bob") d = Ret (Moved, d') ∧ solvent d' ∧
    global_escrow "alice" "c-usdt" d' = global_escrow "alice" "c-usdt" d - dec 4 0 ∧
    (let k := funding_key "bob" "c-usdt" CHAIN_ID_GLOBAL in
     available_balance (row_of k (edb_balances d'))
     = available_balance (row_of k (edb_balances d)) + dec 4 0) ∧
    ∀ c2, call_escrow c2 = "e1" → run_call c2 d' = Ret (call_already c2, d').
Proof.
  intros d e.
  assert (solvent d) as Hs.
  { apply (rtc_invariant escrow_step solvent (usdt_db None CHAIN_ID_GLOBAL));
      [apply solvent_step|apply usdt_solvent|apply demo_rtc]. }
  apply (escrow_closes_once (CallRelease "e1" "bob") e d Hs);
    [vm_compute; reflexivity | reflexivity | reflexivity].
Defined.

Lemma sched_then s s1 s2 s3 : sched s s1 → s1 = s2 → rtc sched s2 s3 → rtc sched s s3.
Proof. intros H1 <- H2. by apply rtc_l with s1. Qed.

Lemma escrow_pays_once_witness :
  let d := demo_db [demo_move 4 "e1"] (usdt_db None CHAIN_ID_GLOBAL) in
  let rel := CallRelease "e1" "bob" in let ref := CallRefund "e1" in
  let l0 := [(rel, Started); (ref, Started)] in
  let l1 := [(rel, Checked); (ref, Started)] in
  let l2 := [(rel, Checked); (ref, Checked)] in
  let d3 := snd (after_body ref d) in
  let d4 := snd (after_body rel d3) in
  let l3 := [(rel, Checked); (ref, Finished (Some Moved))] in
  let l4 := [(rel, Finished (Some AlreadyReleased)); (ref, Finished (Some Moved))] in
  (∃ e', escrows d4 !! "e1" = Some e' ∧
    payouts "e1" l4 = if true && negb (is_locked e') then 1 else 0) ∧
  esc_status <$> (escrows d4 !! "e1") = Some EscRefunded.
Proof.
  intros d rel ref l0 l1 l2 d3 d4 l3 l4. split; [|vm_compute; reflexivity].
  apply (escrow_pays_once "e1" d d4 l0 l4
    (Escrow "alice" "c-usdt" "t-usdt" (dec 4 0) EscLocked (Some "order-1") false)).
  - vm_compute. reflexivity.
  - intros [|[|i]] c p Hi; simpl in Hi; by simplify_eq.
  - apply (sched_then _ _ (d, l1) _ (sched_check d l0 0 rel eq_refl));
      [vm_compute; reflexivity|].
    apply (sched_then _ _ (d, l2) _ (sched_check d l1 1 ref eq_refl));
      [vm_compute; reflexivity|].
    apply (sched_then _ _ (d3, l3) _ (sched_body d l2 1 ref eq_refl));
      [vm_compute; reflexivity|].
    apply (sched_then _ _ (d4, l4) _ (sched_body d3 l3 0 rel eq_refl));
      [vm_compute; reflexivity|apply rtc_refl].
Defined.

Lemma chain_escrow_stuck_witness :
  let d := usdt_db (Some "tron") "tron" in
  let m := moveToEscrow "alice" "t-usdt" (Fin (dec 4 0)) (Some "order-1") "uuid-1" "e1" in
  let d' := match m d with Ret (_, d') => d' | Throw _ => d end in
  m d = Ret ("e1", d') ∧
  (run_call (CallRelease "e1" "bob") d' = Throw "user_balances UPDATE affected 0 rows" ∧
   is_locked <$> (escrows d' !! "e1") = Some true) ∧
  run_call (CallRefund "e1") d' = Throw "user_balances UPDATE affected 0 rows".
Proof.
  intros d m d'. split; [vm_compute; reflexivity|]. split; [|vm_compute; reflexivity].
  apply (chain_escrow_stuck "alice" "t-usdt" "c-usdt" "e1" "uuid-1" "e1" (dec 4 0) (Some "order-1")
    d d' (CallRelease "e1" "bob")).
  all: vm_compute; try reflexivity; discriminate.
Defined.
