(* ===== verification/Halt.v ===== *)
(** * Halt and circuit flags

    [lib/trading-halt.ts]: the trading halt and the settlement circuit are Redis keys
    read with retries. The theorem: both fail closed, so that a flag is seen as
    cleared only when some read answered and what it answered is not "set". *)
From stdpp Require Import base strings list.
From Stdlib Require Import ZArith Lia Ascii.
From S2P Require Import Prelude.

(** A read of a Redis key: the value, or the error the client threw. *)
Definition redis_read : Type := outcome (option string).

Definition REDIS_STATE_READ_ATTEMPTS : nat := 4.

(** [reads] are the results the successive [redis.get] calls would have. *)
Fixpoint redisGetWithRetries (attempts : nat) (reads : list redis_read) (lastErr : string) :
    redis_read :=
  match attempts, reads with
  | S n, Ret v :: _ => Ret v
  | S n, Throw e :: reads' => redisGetWithRetries n reads' e
  | S n, [] => Throw lastErr
  | O, _ => Throw lastErr
  end.

Definition lower_ascii (a : ascii) : ascii :=
  let n := N_of_ascii a in
  if (65 <=? n)%N && (n <=? 90)%N then ascii_of_N (n + 32) else a.
Fixpoint lower (s : string) : string :=
  match s with "" => "" | String a s' => String (lower_ascii a) (lower s') end.

(** [v === '1' || String(v).toLowerCase() === 'true'], where [String(null)] is "null" *)
Definition flag_set (v : option string) : bool :=
  String.eqb (default "null" v) "1" || String.eqb (lower (default "null" v)) "true".

Definition read_flag (reads : list redis_read) : bool :=
  match redisGetWithRetries REDIS_STATE_READ_ATTEMPTS reads "" with
  | Ret v => flag_set v
  | Throw _ => true
  end.

Definition getTradingHalted (reads : list redis_read) : bool := read_flag reads.
Definition isTradingHalted (reads : list redis_read) : bool := getTradingHalted reads.
Definition getSettlementCircuitOpen (reads : list redis_read) : bool := read_flag reads.

(** The key after [setTradingHalt] or [setSettlementCircuitOpen]. *)
Definition setFlag (on : bool) : option string := if on then Some "1" else None.
Definition setTradingHalt (halted : bool) : option string := setFlag halted.
Definition setSettlementCircuitOpen (open : bool) : option string := setFlag open.

Lemma redis_retries_Ret n reads e v :
  redisGetWithRetries n reads e = Ret v →
  ∃ i, (i < n)%nat ∧ reads !! i = Some (Ret v) ∧
    ∀ j, (j < i)%nat → ∃ e', reads !! j = Some (Throw e').
Proof.
  revert reads e. induction n as [|n IH]; intros [|[w|e'] reads] e Hget; simplify_eq/=.
  - exists 0%nat. split; [lia|]. split; [done|]. intros j Hj. lia.
  - apply IH in Hget as (i & Hi & Hv & Hj). exists (S i). split; [lia|]. split; [done|].
    intros [|j] Hlt; [by exists e'|]. simpl. apply Hj. lia.
Qed.

(** The halt and circuit flags fail closed: they read as cleared exactly when one of
    the first four reads answers, every read before it failed, and the answer is
    neither "1" nor "true" in any case; in particular when Redis cannot be read at all
    trading is halted and settlement is stopped. *)
Theorem flags_fail_closed (reads : list redis_read) :
  (getTradingHalted reads = false ↔
   ∃ i v, (i < REDIS_STATE_READ_ATTEMPTS)%nat ∧ reads !! i = Some (Ret v) ∧
     (∀ j, (j < i)%nat → ∃ e, reads !! j = Some (Throw e)) ∧ flag_set v = false) ∧
  getSettlementCircuitOpen reads = getTradingHalted reads ∧
  ∀ on, getTradingHalted [Ret (setTradingHalt on)] = on.
Proof.
  split; [|split; [done|by intros []]].
  unfold getTradingHalted, read_flag. split.
  - destruct (redisGetWithRetries _ reads "") as [v|] eqn:E; [|done]. intros Hv.
    apply redis_retries_Ret in E as (i & Hi & Hr & Hj). by exists i, v.
  - intros (i & v & Hi & Hr & Hj & Hv).
    assert (∀ n e, (i < n)%nat → redisGetWithRetries n reads e = Ret v) as Hget.
    { clear Hi. revert reads Hr Hj. induction i as [|i IH]; intros [|r reads] Hr Hj [|n] e Hn;
        simplify_eq/=; try lia; [done|].
      destruct (Hj 0%nat) as [e' He']; [lia|]. simplify_eq/=.
      apply IH; [done| |lia]. intros j Hlt. apply (Hj (S j)). lia. }
    by rewrite Hget.
Qed.
