(* ===== verification/DepositModel.v ===== *)
(** * Deposits: the tables, the sanctions check and the backend's credit

    [services/deposit-credit.service.ts], [services/sanctions-screening.service.ts] and
    the repair of [GET /balances/funding] in [routes/wallet.fastify.ts]. The columns are
    those of [database/migrate.ts] (amounts and confirmations are NOT NULL, a deposit's
    currency exists, one row per chain, transaction and address). A timestamp that is
    only tested for NULL is a boolean.

    A call that runs several transactions has the type [deposit_db → outcome A * deposit_db]:
    what was committed before a throw stays. *)
From stdpp Require Import base gmap strings list fin_maps.
From Stdlib Require Import ZArith Lia Ascii.
From S2P Require Import Prelude Money Balances Escrow.
Local Open Scope Z_scope.

(** ** Tables *)
Inductive deposit_status := DepPending | DepCompleted | DepFailed.
#[export] Instance deposit_status_eq_dec : EqDecision deposit_status.
Proof. solve_decision. Defined.

Record deposit := Deposit {
  dep_user_id : string;
  dep_currency_id : string;
  dep_chain_id : string;
  dep_tx_hash : string;
  dep_to_address : string;
  dep_amount : Z;
  dep_confirmations : Z;
  dep_required_confirmations : Z;
  dep_block_number : Z;
  dep_status : deposit_status;
  (** [credited_at IS NOT NULL], [balance_applied_at IS NOT NULL] *)
  dep_credited : bool;
  dep_applied : bool;
  dep_is_flagged : option bool;
  dep_flagged_reason : option string;
  dep_created_at : Z;
}.

Record aml_log := AmlLog {
  al_user_id : string; al_txn_type : string; al_asset : string; al_amount : Z }.
Record aml_alert := AmlAlert {
  aa_user_id : string; aa_alert_type : string; aa_deposit_id : string; aa_reason : string }.
Record wallet := Wallet {
  wal_id : string; wal_user_id : string; wal_address : string; wal_chain_id : string }.

Record deposit_db := DepositDb {
  ddb_balances : balances;
  deposits : gmap string deposit;
  dep_currencies : list currency;
  (** [LOWER(contract_address)] of the currencies that have one, with their ids *)
  contract_currencies : list (string * string);
  wallets : list wallet;
  aml_transaction_logs : list aml_log;
  aml_alerts : list aml_alert;
  (** [user_activity_logs]: user and deposit *)
  activity_logs : list (string * string);
}.

#[export] Instance deposit_db_balances : Store deposit_db balances.
Proof.
  refine {| sget := ddb_balances;
            sput := λ b d, DepositDb b (deposits d) (dep_currencies d) (contract_currencies d)
                             (wallets d) (aml_transaction_logs d) (aml_alerts d)
                             (activity_logs d) |}; by intros [].
Defined.

Definition put_deposits (m : gmap string deposit) (d : deposit_db) : deposit_db :=
  DepositDb (ddb_balances d) m (dep_currencies d) (contract_currencies d) (wallets d)
    (aml_transaction_logs d) (aml_alerts d) (activity_logs d).

(** [UPDATE deposits SET ... WHERE id = $1 AND cond RETURNING *], the row before the
    update, which differs from the returned one only in the columns that are set *)
Definition update_deposit (id : string) (cond : deposit → bool) (f : deposit → deposit) :
    M deposit_db (option deposit) :=
  let* found := gets (λ d, deposits d !! id) in
  match found with
  | Some dep =>
      if cond dep then
        modify (λ d, put_deposits (<[id := f dep]> (deposits d)) d) ;;; ret (Some dep)
      else ret None
  | None => ret None
  end.

(** [SET status = st, credited_at = ..., balance_applied_at = ...] *)
Definition set_deposit_state (dep : deposit) (st : deposit_status) (credited applied : bool) :
    deposit :=
  Deposit (dep_user_id dep) (dep_currency_id dep) (dep_chain_id dep) (dep_tx_hash dep)
    (dep_to_address dep) (dep_amount dep) (dep_confirmations dep)
    (dep_required_confirmations dep) (dep_block_number dep) st credited applied
    (dep_is_flagged dep) (dep_flagged_reason dep) (dep_created_at dep).
Definition set_completed (dep : deposit) : deposit :=
  set_deposit_state dep DepCompleted true true.
Definition set_flagged (reason : string) (dep : deposit) : deposit :=
  Deposit (dep_user_id dep) (dep_currency_id dep) (dep_chain_id dep) (dep_tx_hash dep)
    (dep_to_address dep) (dep_amount dep) (dep_confirmations dep)
    (dep_required_confirmations dep) (dep_block_number dep) (dep_status dep)
    (dep_credited dep) (dep_applied dep) (Some true) (Some reason) (dep_created_at dep).
Definition set_confirmations (n : Z) (dep : deposit) : deposit :=
  Deposit (dep_user_id dep) (dep_currency_id dep) (dep_chain_id dep) (dep_tx_hash dep)
    (dep_to_address dep) (dep_amount dep) n
    (dep_required_confirmations dep) (dep_block_number dep) (dep_status dep)
    (dep_credited dep) (dep_applied dep) (dep_is_flagged dep) (dep_flagged_reason dep)
    (dep_created_at dep).

(** ** [areDepositsPaused]

    The rows of the two settings queries; a query that fails reads as no row. *)
Inductive setting_value := SetBool (b : bool) | SetText (s : string) | SetOther.

Record pause_reads := PauseReads {
  toggle_rows : option (list (option bool));
  emergency_rows : option (list setting_value);
}.

Definition lower_ascii (a : ascii) : ascii :=
  let n := N_of_ascii a in
  if (65 <=? n)%N && (n <=? 90)%N then ascii_of_N (n + 32) else a.
Fixpoint lower (s : string) : string :=
  match s with "" => "" | String a s' => String (lower_ascii a) (lower s') end.

Definition areDepositsPaused (p : pause_reads) : bool :=
  let toggleDisabled :=
    match default [] (toggle_rows p) with Some false :: _ => true | _ => false end in
  let emergencyActive :=
    match default [] (emergency_rows p) with
    | SetBool b :: _ => b
    | SetText s :: _ =>
        String.eqb s "1" || String.eqb s "true" || String.eqb (lower s) "true"
    | _ => false
    end in
  toggleDisabled || emergencyActive.

(** ** [services/sanctions-screening.service.ts] *)
Record sanctions_params := SanctionsParams {
  sp_address : option string;
  sp_asset : string;
  sp_amount : Z;
  sp_user_id : string;
}.
Record sanctions_result := SanctionsResult {
  sr_allowed : bool;
  sr_reason : option string;
  sr_provider : option string;
}.
Record sanctions_config := SanctionsConfig {
  sc_provider : string; sc_apiUrl : string; sc_apiKey : string }.

Definition SANCTIONS_UNAVAILABLE : string := "Sanctions service unavailable".
Definition SANCTIONS_NOT_CONFIGURED : string :=
  "Sanctions provider not configured (production requires screening)".

(** The answer of the provider: [None] when the request throws, times out or its body
    is not a JSON object. *)
Record provider_reply := ProviderReply {
  pr_ok : bool;
  pr_allowed : option bool;
  pr_reason : option string;
}.

(** [env] has the trimmed environment variables, [rows] the settings ([None] when the
    query fails); a setting that is missing or empty changes nothing. *)
Definition setting (k : string) (rows : list (string * string)) (dflt : string) : string :=
  match find (λ r, String.eqb (fst r) k && negb (String.eqb (snd r) "")) rows with
  | Some (_, v) => v
  | None => dflt
  end.
Definition getSanctionsConfig (env : sanctions_config) (rows : option (list (string * string))) :
    sanctions_config :=
  if String.eqb (sc_apiUrl env) "" || String.eqb (sc_apiKey env) "" then
    match rows with
    | Some r => SanctionsConfig (setting "SANCTIONS_PROVIDER" r (sc_provider env))
                  (setting "SANCTIONS_API_URL" r (sc_apiUrl env))
                  (setting "SANCTIONS_API_KEY" r (sc_apiKey env))
    | None => env
    end
  else env.

(** What a sanctions check depends on outside the request. *)
Record sanctions_world := SanctionsWorld {
  sw_isProduction : bool;
  sw_env : sanctions_config;
  sw_settings : option (list (string * string));
  sw_provider : sanctions_params → option provider_reply;
}.

Definition callSanctionsProvider (w : sanctions_world) (params : sanctions_params)
    (cfg : sanctions_config) : sanctions_result :=
  let blocked := SanctionsResult false (Some SANCTIONS_UNAVAILABLE) (Some (sc_provider cfg)) in
  if String.eqb (sc_apiUrl cfg) "" || String.eqb (sc_apiKey cfg) "" then blocked
  else match sw_provider w params with
       | None => blocked
       | Some res =>
           if negb (pr_ok res) then blocked
           else SanctionsResult (negb (bool_decide (pr_allowed res = Some false)))
                  (pr_reason res) (Some (sc_provider cfg))
       end.

Definition checkSanctions (w : sanctions_world) (params : sanctions_params) : sanctions_result :=
  let cfg := getSanctionsConfig (sw_env w) (sw_settings w) in
  if String.eqb (sc_provider cfg) "" || String.eqb (sc_provider cfg) "none"
     || String.eqb (sc_apiUrl cfg) "" || String.eqb (sc_apiKey cfg) ""
  then if sw_isProduction w then SanctionsResult false (Some SANCTIONS_NOT_CONFIGURED) None
       else SanctionsResult true None None
  else callSanctionsProvider w params cfg.

(** ** [services/deposit-credit.service.ts] *)
Record credit_result := CreditResult { cr_credited : bool; cr_reason : option string }.

Definition markDepositFlagged (depositId userId asset : string) (amount : Z) (reason : string) :
    M deposit_db unit :=
  update_deposit depositId (λ _, true) (set_flagged reason) ;;;
  modify (λ d, DepositDb (ddb_balances d) (deposits d) (dep_currencies d)
    (contract_currencies d) (wallets d)
    (aml_transaction_logs d ++ [AmlLog userId "deposit_flagged" asset amount])
    (aml_alerts d ++ [AmlAlert userId "sanctions_deposit_blocked" depositId reason])
    (activity_logs d)).

(** The rows [creditDepositIfConfirmed] and [creditOverdueDepositsForUser] select. *)
Definition creditable (dep : deposit) : bool :=
  bool_decide (dep_status dep = DepPending)
  && negb (bool_decide (dep_is_flagged dep = Some true))
  && negb (dep_applied dep)
  && (dep_required_confirmations dep <=? dep_confirmations dep)
  && (0 <? dep_amount dep).

Definition deposit_key (dep : deposit) : bal_key :=
  funding_key (dep_user_id dep) (dep_currency_id dep) CHAIN_ID_GLOBAL.

Definition symbol_of (currencyId : string) (d : deposit_db) : option string :=
  cur_symbol <$> find (λ c, String.eqb (cur_id c) currencyId) (dep_currencies d).

(** [SET available += a, pending = GREATEST(pending - a, 0), total_deposited += a] *)
Definition add_deposit (a : Z) (r : user_balance) : user_balance :=
  UserBalance (available_balance r + a) (locked_balance r)
    (Z.max (pending_balance r - a) 0) (escrow_balance r) (total_deposited r + a).
(** The repair path leaves [pending_balance]. *)
Definition add_applied (a : Z) (r : user_balance) : user_balance :=
  add_buckets r a 0 0 0 a.

Section Backend.
Context `{DecimalJs}.

(** The balance statements both paths end with. *)
Definition credit_statements (notFound depositId : string) (dep : deposit) (a : Z)
    (add : Z → user_balance → user_balance) : M balances unit :=
  let k := deposit_key dep in
  ensureUserBalanceRow k ;;;
  let* balSel := select_balance k (λ _, true) in
  let* balRow := get_or balSel notFound in
  let avBefore := available_balance balRow in
  let* balUpd := update_balance k (λ _, true) (add a) in
  let* row := assertUserBalanceUpdated balUpd in
  assertBalanceInvariant row ;;;
  insertBalanceLedger (funding_entry (dep_user_id dep) (dep_currency_id dep) 0 a
    (toDP AMOUNT_PRECISION avBefore) (toDP AMOUNT_PRECISION (dplus avBefore a))
    "deposit" depositId Available).

(** The first SELECT of [creditDepositIfConfirmed]: an unqualified FOR UPDATE over
    [deposits LEFT JOIN currencies]. PostgreSQL refuses it when it plans the statement,
    whatever rows there are. *)
Definition nullable_lock_error : string :=
  "FOR UPDATE cannot be applied to the nullable side of an outer join".
Definition select_for_credit (depositId : string) : M deposit_db (option deposit) :=
  throw nullable_lock_error.

(** What the transaction does with a row of that SELECT. *)
Definition credit_selected (w : sanctions_world) (depositId : string) (dep : deposit) :
    M deposit_db credit_result :=
  let* symbol := gets (symbol_of (dep_currency_id dep)) in
  let amount := toDP AMOUNT_PRECISION (dep_amount dep) in
  if amount <=? 0 then ret (CreditResult false None)
  else
    let asset := default "UNKNOWN" symbol in
    let sanctions := checkSanctions w
      (SanctionsParams (Some (dep_to_address dep)) asset amount (dep_user_id dep)) in
    if negb (sr_allowed sanctions) then
      markDepositFlagged depositId (dep_user_id dep) asset amount
        (default "Sanctions check failed" (sr_reason sanctions)) ;;;
      ret (CreditResult false (sr_reason sanctions))
    else
      update_deposit depositId (λ _, true) set_completed ;;;
      zoom (credit_statements "deposit_credit: balance row not found" depositId dep
              amount add_deposit) ;;;
      ret (CreditResult true None).

(** The transaction of [creditDepositIfConfirmed]. *)
Definition credit_body (w : sanctions_world) (depositId : string) : M deposit_db credit_result :=
  let* found := select_for_credit depositId in
  match found with
  | None => ret (CreditResult false None)
  | Some dep => credit_selected w depositId dep
  end.

Definition creditDepositIfConfirmed (p : pause_reads) (w : sanctions_world)
    (depositId : string) (d : deposit_db) : outcome credit_result * deposit_db :=
  if areDepositsPaused p then (Ret (CreditResult false (Some "deposits_paused")), d)
  else transaction (credit_body w depositId) d.

(** [SELECT id FROM deposits WHERE user_id = $1 AND ... ORDER BY created_at ASC] *)
Definition overdue_deposits (userId : string) (d : deposit_db) : list string :=
  fst <$> sort_by (λ a b, dep_created_at (snd a) <=? dep_created_at (snd b))
    (filter (λ '(_, dep), Is_true (String.eqb (dep_user_id dep) userId && creditable dep))
       (map_to_list (deposits d))).

(** The loop of [creditOverdueDepositsForUser]; [ps] are the pause flags each call reads. *)
Fixpoint credit_each (p : string → pause_reads) (w : sanctions_world) (ids : list string)
    (credited skipped : Z) (d : deposit_db) : outcome (Z * Z) * deposit_db :=
  match ids with
  | [] => (Ret (credited, skipped), d)
  | id :: ids' =>
      match creditDepositIfConfirmed (p id) w id d with
      | (Ret res, d1) =>
          if cr_credited res then credit_each p w ids' (credited + 1) skipped d1
          else credit_each p w ids' credited (skipped + 1) d1
      | (Throw e, d1) => (Throw e, d1)
      end
  end.

Definition creditOverdueDepositsForUser (p0 : pause_reads) (p : string → pause_reads)
    (w : sanctions_world) (userId : string) (d : deposit_db) : outcome (Z * Z) * deposit_db :=
  if areDepositsPaused p0 then (Ret (0, 0), d)
  else credit_each p w (overdue_deposits userId d) 0 0 d.

(** The transaction of [applyBalanceForOneCompletedDeposit]. *)
Definition unapplied (dep : deposit) : bool :=
  bool_decide (dep_status dep = DepCompleted) && dep_credited dep && negb (dep_applied dep)
  && (0 <? dep_amount dep).
Definition set_applied (dep : deposit) : deposit :=
  set_deposit_state dep (dep_status dep) (dep_credited dep) true.

Definition apply_body (depositId : string) : M deposit_db credit_result :=
  let* upd := update_deposit depositId unapplied set_applied in
  match upd with
  | None => ret (CreditResult false None)
  | Some dep =>
      let amount := toDP AMOUNT_PRECISION (dep_amount dep) in
      if amount <=? 0 then ret (CreditResult false None)
      else
        zoom (credit_statements "deposit_apply_balance: balance row not found" depositId dep
                amount add_applied) ;;;
        ret (CreditResult true None)
  end.

Definition applyBalanceForOneCompletedDeposit (p : pause_reads) (depositId : string)
    (d : deposit_db) : outcome credit_result * deposit_db :=
  if areDepositsPaused p then (Ret (CreditResult false (Some "deposits_paused")), d)
  else transaction (apply_body depositId) d.

(** The repair loop of [GET /balances/funding]; a throw ends it and is only logged. *)
Definition unapplied_deposits (userId : string) (d : deposit_db) : list string :=
  fst <$> filter (λ '(_, dep), Is_true (String.eqb (dep_user_id dep) userId && unapplied dep
                    && bool_decide (symbol_of (dep_currency_id dep) d ≠ None)))
            (map_to_list (deposits d)).
Fixpoint repair_each (p : string → pause_reads) (ids : list string) (d : deposit_db) : deposit_db :=
  match ids with
  | [] => d
  | id :: ids' =>
      match applyBalanceForOneCompletedDeposit (p id) id d with
      | (Ret _, d1) => repair_each p ids' d1
      | (Throw _, d1) => d1
      end
  end.
Definition repair_funding (p : string → pause_reads) (userId : string) (d : deposit_db) :
    deposit_db :=
  repair_each p (unapplied_deposits userId d) d.
End Backend.
