(* ===== verification/Indexer.v ===== *)
(** * The chain indexer

    [apps/indexer/src/services]: [ChainIndexer.ts] scans the blocks of an EVM chain for
    transfers to watched addresses, [nonEvmDepositFlow.ts] and [BitcoinIndexer.ts] record
    the transactions an address API lists, and both kinds of deposits are credited once
    they have enough confirmations ([ConfirmationTracker.ts], [creditReadyDepositsForChain]).
    What a chain node or an address API answers is an argument; [None] is an error. *)
From stdpp Require Import base gmap strings list fin_maps pretty.
From Stdlib Require Import ZArith Lia Ascii.
From S2P Require Import Prelude Money Balances Escrow DepositModel.
Local Open Scope Z_scope.

(** [NUMERIC(36,18)]: PostgreSQL rounds to 18 places, half away from zero. *)
Definition numeric_18 (x : Z) : Z := trunc (10 ^ 18) (x + Z.sgn x * (5 * 10 ^ 17)).

(** ** [recordDeposit] *)
Record transfer := Transfer {
  tr_txHash : string;
  tr_toAddress : string;
  (** the token's contract, [None] for the native token *)
  tr_tokenAddress : option string;
  tr_symbol : string;
  (** in units of the token, and its number of decimals *)
  tr_raw : Z;
  tr_decimals : Z;
  tr_blockNumber : Z;
}.
(** [formatUnits(raw, decimals)] *)
Definition tr_amount (t : transfer) : Z := dec (tr_raw t) (tr_decimals t).

Definition currency_by_symbol (symbol : string) (d : deposit_db) : option string :=
  cur_id <$> find (λ c, String.eqb (upper (cur_symbol c)) (upper symbol)) (dep_currencies d).
Definition currency_of_transfer (t : transfer) (d : deposit_db) : option string :=
  match
    addr ← tr_tokenAddress t;
    snd <$> find (λ c, String.eqb (fst c) (lower addr)) (contract_currencies d)
  with
  | Some id => Some id
  | None => currency_by_symbol (tr_symbol t) d
  end.

(** The unique key of [deposits]. *)
Definition same_key (chainId txHash toAddress : string) (dep : deposit) : bool :=
  String.eqb (dep_chain_id dep) chainId && String.eqb (dep_tx_hash dep) txHash
  && String.eqb (dep_to_address dep) toAddress.
Definition find_deposit (chainId txHash toAddress : string) (d : deposit_db) :
    option (string * deposit) :=
  find (λ p, same_key chainId txHash toAddress (snd p)) (map_to_list (deposits d)).

(** [INSERT INTO deposits ... ON CONFLICT (chain_id, tx_hash, to_address) DO NOTHING
    RETURNING id]; [id] is [gen_random_uuid()] *)
Definition insert_deposit (id : string) (dep : deposit) : M deposit_db bool :=
  let* dup := gets (find_deposit (dep_chain_id dep) (dep_tx_hash dep) (dep_to_address dep)) in
  match dup with
  | Some _ => ret false
  | None =>
      let* used := gets (λ d, deposits d !! id) in
      require (bool_decide (used = None)) "duplicate key value violates unique constraint" ;;;
      let* known := gets (symbol_of (dep_currency_id dep)) in
      require (bool_decide (known ≠ None)) "violates foreign key constraint" ;;;
      modify (λ d, put_deposits (<[id := dep]> (deposits d)) d) ;;; ret true
  end.

Definition updatePendingBalance (userId currencyId : string) (amount : Z) : M deposit_db unit :=
  let* known := gets (symbol_of currencyId) in
  match known with
  | None => ret tt
  | Some _ =>
      let k := funding_key userId currencyId CHAIN_ID_GLOBAL in
      zoom (modify (λ b, put_row k (add_buckets (row_of k b) 0 0 amount 0 0) b))
  end.

(** [now] is the time of the insert. *)
Definition new_deposit (userId currencyId chainId txHash toAddress : string)
    (amount confirmations required blockNumber now : Z) : deposit :=
  Deposit userId currencyId chainId txHash toAddress (numeric_18 amount) confirmations required
    blockNumber DepPending false false (Some false) None now.

Definition recordDeposit (chainKey : string) (confirmations : Z) (id : string) (now : Z)
    (t : transfer) : M deposit_db unit :=
  if tr_raw t <=? 0 then ret tt
  else
    let* owner := gets (λ d, find (λ w, String.eqb (lower (wal_address w)) (tr_toAddress t)
                               && String.eqb (wal_chain_id w) chainKey) (wallets d)) in
    match owner with
    | None => ret tt
    | Some w =>
        let* cur := gets (currency_of_transfer t) in
        match cur with
        | None => ret tt
        | Some currencyId =>
            let* inserted := insert_deposit id
              (new_deposit (wal_user_id w) currencyId (wal_chain_id w) (tr_txHash t)
                 (tr_toAddress t) (tr_amount t) 0 confirmations (tr_blockNumber t) now) in
            if inserted then updatePendingBalance (wal_user_id w) currencyId (tr_amount t)
            else ret tt
        end
    end.

(** ** [ChainIndexer] *)
Record chain_tx := ChainTx { tx_hash : string; tx_to : option string; tx_value : Z }.
(** A log of the [Transfer] topic, with the address in its third topic if it has one. *)
Record transfer_log := TransferLog {
  log_address : string; log_txHash : string; log_to : option string; log_amount : Z }.

Record chain_config := ChainConfig {
  cc_key : string; cc_symbol : string; cc_decimals : Z; cc_confirmations : Z }.
(** [getBlockNumber]; [getBlock(n, true)] and [getLogs] of block [n]; whether the second
    [getBlock], for the timestamp of a log, answers; [fetchTokenInfo]. *)
Record chain_node := ChainNode {
  node_head : option Z;
  node_block : Z → option (list chain_tx);
  node_logs : Z → option (list transfer_log);
  node_timestamp : transfer_log → bool;
  node_token : string → option (string * Z);
}.

(** A block number as the indexer holds it: a number, or the text of one. The driver returns
    a BIGINT column as text, so what [loadLastProcessedBlock] reads from [indexer_state] is
    text. A comparison of two texts is the order of strings, any other one is numeric, and
    [+ 1] appends to a text. *)
Inductive block_ref := BNum (n : Z) | BText (n : Z).
Definition block_value (b : block_ref) : Z := match b with BNum n | BText n => n end.
Definition block_le (a b : block_ref) : bool :=
  match a, b with
  | BText m, BText n => String.leb (pretty m) (pretty n)
  | _, _ => block_value a <=? block_value b
  end.
Definition block_next (b : block_ref) : block_ref :=
  match b with BNum n => BNum (n + 1) | BText n => BText (10 * n + 1) end.

Definition token_contracts := list (string * (string * Z)).
Record chain_indexer := ChainIndexer {
  ci_config : chain_config;
  watchedAddresses : list string;
  tokenContracts : token_contracts;
  lastProcessedBlock : block_ref;
  (** [last_block] of the chain's row of [indexer_state], if there is one *)
  savedBlock : option Z;
}.
Definition set_blocks (ix : chain_indexer) (toks : token_contracts) (last : block_ref)
    (saved : option Z) : chain_indexer :=
  ChainIndexer (ci_config ix) (watchedAddresses ix) toks last saved.

(** The transfers of a block that [processNativeTransfers] passes to [recordDeposit]. *)
Definition native_transfer (ix : chain_indexer) (n : Z) (tx : chain_tx) : option transfer :=
  to ← tx_to tx;
  if bool_decide (lower to ∈ watchedAddresses ix) && (0 <? tx_value tx)
  then Some (Transfer (tx_hash tx) (lower to) None (cc_symbol (ci_config ix)) (tx_value tx)
               (cc_decimals (ci_config ix)) n)
  else None.

(** [tokenContracts.get(addr)], else [fetchTokenInfo], which it remembers. *)
Definition token_info (toks : token_contracts) (node : chain_node) (addr : string) :
    token_contracts * option (string * Z) :=
  match find (λ p, String.eqb (fst p) addr) toks with
  | Some (_, i) => (toks, Some i)
  | None => match node_token node addr with
            | Some i => (toks ++ [(addr, i)], Some i)
            | None => (toks, None)
            end
  end.

(** [processTransferLog]: the table of tokens after it, and the transfer it records. *)
Definition log_transfer (watched : list string) (node : chain_node) (n : Z)
    (toks : token_contracts) (l : transfer_log) : token_contracts * option transfer :=
  match log_to l with
  | Some to =>
      if bool_decide (lower to ∈ watched) then
        let addr := lower (log_address l) in
        let '(toks', info) := token_info toks node addr in
        (toks', '(symbol, decimals) ← info;
                if (0 <? log_amount l) && node_timestamp node l
                then Some (Transfer (log_txHash l) (lower to) (Some addr) symbol
                             (log_amount l) decimals n)
                else None)
      else (toks, None)
  | None => (toks, None)
  end.

Fixpoint token_transfers (watched : list string) (node : chain_node) (n : Z)
    (toks : token_contracts) (logs : list transfer_log) : token_contracts * list transfer :=
  match logs with
  | [] => (toks, [])
  | l :: logs' =>
      let '(toks1, t) := log_transfer watched node n toks l in
      let '(toks2, ts) := token_transfers watched node n toks1 logs' in
      (toks2, option_list t ++ ts)
  end.

(** Records transfers one by one; [recordDeposit] catches its own errors. [ids] gives the
    uuids. *)
Fixpoint record_all (chainKey : string) (confirmations : Z) (ids : nat → string) (now : Z)
    (l : list transfer) (d : deposit_db) : deposit_db :=
  match l with
  | [] => d
  | t :: l' =>
      record_all chainKey confirmations (λ i, ids (S i)) now l'
        (snd (transaction (recordDeposit chainKey confirmations (ids 0%nat) now t) d))
  end.

(** [getBlock] refuses a text that is neither a tag nor in hexadecimal. *)
Definition getBlock (node : chain_node) (b : block_ref) : option (list chain_tx) :=
  match b with BNum n => node_block node n | BText _ => None end.

(** [processBlock]; an error of [getLogs] is caught in [processTokenTransfers] and only
    logged. *)
Definition processBlock (node : chain_node) (ids : nat → string) (now : Z) (b : block_ref)
    (st : chain_indexer * deposit_db) : chain_indexer * deposit_db :=
  let '(ix, d) := st in
  if block_le b (lastProcessedBlock ix) then st
  else match getBlock node b with
       | None => st
       | Some txs =>
           let n := block_value b in
           let '(toks, ts) := token_transfers (watchedAddresses ix) node n (tokenContracts ix)
                                (default [] (node_logs node n)) in
           (set_blocks ix toks b ((λ _, n) <$> savedBlock ix),
            record_all (cc_key (ci_config ix)) (cc_confirmations (ci_config ix)) ids now
              (omap (native_transfer ix n) txs ++ ts) d)
       end.

(** The loop of [startHttpPolling]'s tick, at most ten blocks. *)
Fixpoint catch_up (fuel : nat) (node : chain_node) (ids : nat → nat → string) (now target : Z)
    (st : chain_indexer * deposit_db) : chain_indexer * deposit_db :=
  match fuel with
  | O => st
  | S f =>
      if block_value (lastProcessedBlock (fst st)) <? target
      then catch_up f node ids now target
             (processBlock node (ids f) now (block_next (lastProcessedBlock (fst st))) st)
      else st
  end.
Definition MAX_PER_TICK : nat := 10.

(** A tick of [startHttpPolling]: the heartbeat, then the blocks up to the confirmed head. *)
Definition poll_tick (node : chain_node) (ids : nat → nat → string) (now : Z)
    (st : chain_indexer * deposit_db) : chain_indexer * deposit_db :=
  match node_head node with
  | None => st
  | Some head =>
      let '(ix, d) := st in
      let safe := head - cc_confirmations (ci_config ix) in
      let beat := Z.max (block_value (lastProcessedBlock ix)) safe in
      let saved := match savedBlock ix with Some s => Z.max s beat | None => beat end in
      catch_up MAX_PER_TICK node ids now (Z.max 0 safe)
        (set_blocks ix (tokenContracts ix) (lastProcessedBlock ix) (Some saved), d)
  end.

(** [loadLastProcessedBlock]; [None] when it throws. *)
Definition loadLastProcessedBlock (node : chain_node) (ix : chain_indexer) :
    option chain_indexer :=
  match savedBlock ix with
  | Some s => Some (set_blocks ix (tokenContracts ix) (BText s) (Some s))
  | None => (λ head, set_blocks ix (tokenContracts ix) (BNum head) (Some head)) <$> node_head node
  end.

(** ** [nonEvmDepositFlow.ts] *)
Record non_evm_input := NonEvmInput {
  ne_chainId : string;
  ne_txHash : string;
  ne_toAddress : string;
  ne_currencyId : string;
  ne_amount : Z;
  ne_confirmations : Z;
  ne_requiredConfirmations : Z;
  ne_blockNumber : Z;
}.

Record record_result := RecordResult {
  rr_id : string; rr_status : deposit_status; rr_confirmationsBefore : Z; rr_existed : bool }.

Definition recordOrUpdateDeposit (id : string) (now : Z) (input : non_evm_input) :
    M deposit_db (option record_result) :=
  if ne_amount input <=? 0 then ret None
  else
    let* existing := gets (find_deposit (ne_chainId input) (ne_txHash input) (ne_toAddress input)) in
    match existing with
    | Some (rid, row) =>
        (if (dep_confirmations row <? ne_confirmations input)
            && bool_decide (dep_status row = DepPending)
         then update_deposit rid (λ _, true) (λ dep, set_confirmations
                (Z.max (dep_confirmations dep) (ne_confirmations input)) dep) ;;; ret tt
         else ret tt) ;;;
        ret (Some (RecordResult rid (dep_status row) (dep_confirmations row) true))
    | None =>
        let* owner := gets (λ d, find (λ w, String.eqb (wal_address w) (ne_toAddress input)
                                   && String.eqb (wal_chain_id w) (ne_chainId input)) (wallets d)) in
        match owner with
        | None => ret None
        | Some w =>
            let* inserted := insert_deposit id
              (new_deposit (wal_user_id w) (ne_currencyId input) (ne_chainId input)
                 (ne_txHash input) (ne_toAddress input) (ne_amount input)
                 (ne_confirmations input) (ne_requiredConfirmations input)
                 (ne_blockNumber input) now) in
            if inserted then ret (Some (RecordResult id DepPending 0 false)) else ret None
        end
    end.

(** The statements both indexer credits share, on the row read earlier ([dep]): the mutex
    on [balance_applied_at] has been taken. *)
Definition indexer_credit (notFound invariant depositId : string) (dep : deposit) :
    M balances unit :=
  let k := deposit_key dep in
  ensureUserBalanceRow k ;;;
  let* lockSel := select_balance k (λ _, true) in
  let* before := get_or lockSel notFound in
  let* balUpd := update_balance k (λ _, true) (add_deposit (dep_amount dep)) in
  let* row := get_or balUpd invariant in
  require (negb (available_balance row <? 0)) invariant ;;;
  insertBalanceLedger (funding_entry (dep_user_id dep) (dep_currency_id dep) 0 (dep_amount dep)
    (available_balance before) (available_balance row) "deposit" depositId Available).

Definition log_activity (userId depositId : string) : M deposit_db unit :=
  modify (λ d, DepositDb (ddb_balances d) (deposits d) (dep_currencies d)
    (contract_currencies d) (wallets d) (aml_transaction_logs d) (aml_alerts d)
    (activity_logs d ++ [(userId, depositId)])).

Definition not_applied (dep : deposit) : bool := negb (dep_applied dep).

Definition creditConfirmedDeposit_body (depositId : string) (dep : deposit) : M deposit_db bool :=
  let* markDone := update_deposit depositId not_applied set_completed in
  match markDone with
  | None => ret false
  | Some _ =>
      let* known := gets (symbol_of (dep_currency_id dep)) in
      require (bool_decide (known ≠ None)) "currency_id not found" ;;;
      zoom (indexer_credit "creditConfirmedDeposit: balance row not found after ensure"
              "creditConfirmedDeposit: balance invariant violated after credit" depositId dep) ;;;
      log_activity (dep_user_id dep) depositId ;;;
      ret true
  end.

(** A throw is rolled back, logged and answered with [false]. *)
Definition creditConfirmedDeposit (depositId : string) (dep : deposit) (d : deposit_db) :
    bool * deposit_db :=
  match transaction (creditConfirmedDeposit_body depositId dep) d with
  | (Ret b, d') => (b, d')
  | (Throw _, d') => (false, d')
  end.

(** The rows [creditReadyDepositsForChain] works on, in order of creation. *)
Definition by_creation (a b : string * deposit) : bool :=
  dep_created_at (snd a) <=? dep_created_at (snd b).
Definition ready_rows (chainId : string) (d : deposit_db) : list (string * deposit) :=
  take 100 (sort_by by_creation
    (filter (λ '(_, dep), Is_true (String.eqb (dep_chain_id dep) chainId
              && bool_decide (dep_status dep = DepPending) && not_applied dep
              && bool_decide (symbol_of (dep_currency_id dep) d ≠ None)))
       (map_to_list (deposits d)))).

Definition update_confirmations (id : string) (n : Z) (d : deposit_db) : deposit_db :=
  snd (transaction (update_deposit id (λ _, true) (set_confirmations n)) d).

(** One iteration of its loop, on a row as it was read. *)
Definition ready_item (conf : string → string → option Z) (row : string * deposit)
    (d : deposit_db) : bool * deposit_db :=
  let '(id, dep) := row in
  match conf (dep_tx_hash dep) (dep_to_address dep) with
  | None => (false, d)
  | Some n =>
      let d1 := if n =? dep_confirmations dep then d else update_confirmations id n d in
      if dep_required_confirmations dep <=? n then creditConfirmedDeposit id dep d1
      else (false, d1)
  end.

Fixpoint ready_loop (conf : string → string → option Z) (rows : list (string * deposit))
    (credited : Z) (d : deposit_db) : Z * deposit_db :=
  match rows with
  | [] => (credited, d)
  | row :: rows' =>
      let '(ok, d1) := ready_item conf row d in
      ready_loop conf rows' (if ok then credited + 1 else credited) d1
  end.
Definition creditReadyDepositsForChain (chainId : string)
    (conf : string → string → option Z) (d : deposit_db) : Z * deposit_db :=
  ready_loop conf (ready_rows chainId d) 0 d.

(** ** [BitcoinIndexer.processAddress]

    The outputs the address API lists: an output of a spend has [tx_input_n] other
    than -1. *)
Record tx_ref := TxRef {
  ref_tx_hash : string; ref_confirmations : Z; ref_block_height : Z; ref_value : Z;
  ref_tx_input_n : Z; ref_double_spend : bool }.

Definition bitcoin_input (currencyId address : string) (required : Z) (r : tx_ref) :
    non_evm_input :=
  NonEvmInput "bitcoin" (ref_tx_hash r) address currencyId (dec (ref_value r) 8)
    (Z.max 0 (ref_confirmations r)) required (Z.max 0 (ref_block_height r)).
Definition is_deposit (r : tx_ref) : bool :=
  (ref_tx_input_n r =? -1) && negb (ref_double_spend r) && (0 <? ref_value r).

Fixpoint processAddress (currencyId address : string) (required : Z) (ids : nat → string)
    (now : Z) (refs : list tx_ref) (d : deposit_db) : deposit_db :=
  match refs with
  | [] => d
  | r :: refs' =>
      processAddress currencyId address required (λ i, ids (S i)) now refs'
        (if is_deposit r
         then snd (transaction (recordOrUpdateDeposit (ids 0%nat) now
                     (bitcoin_input currencyId address required r)) d)
         else d)
  end.

(** ** [ConfirmationTracker] *)
Inductive receipt := RpcError | NoReceipt | ReceiptFailed | ReceiptOk.
Record chain_rpc := ChainRpc {
  rpc_blockNumber : option Z;
  rpc_receipt : string → receipt;
}.

Definition confirm_body (depositId : string) (dep : deposit) : M deposit_db bool :=
  let* upd := update_deposit depositId not_applied set_completed in
  match upd with
  | None => ret false
  | Some _ =>
      let* known := gets (symbol_of (dep_currency_id dep)) in
      (match known with
       | None => ret tt
       | Some _ =>
           zoom (indexer_credit "indexer_deposit_credit: balance row not found after ensure"
             "indexer_deposit_credit: balance invariant violated after credit" depositId dep)
       end) ;;;
      log_activity (dep_user_id dep) depositId ;;;
      ret true
  end.

Definition set_failed (dep : deposit) : deposit :=
  set_deposit_state dep DepFailed (dep_credited dep) (dep_applied dep).

Definition confirmDeposit (rpc : chain_rpc) (depositId : string) (dep : deposit)
    (d : deposit_db) : deposit_db :=
  let credit := snd (transaction (confirm_body depositId dep) d) in
  if String.eqb (dep_tx_hash dep) "" then credit
  else match rpc_receipt rpc (dep_tx_hash dep) with
       | RpcError | NoReceipt => d
       | ReceiptFailed => snd (transaction (update_deposit depositId (λ _, true) set_failed) d)
       | ReceiptOk => credit
       end.

(** The rows [checkPendingDeposits] reads. *)
Definition pending_rows (d : deposit_db) : list (string * deposit) :=
  take 100 (sort_by by_creation
    (filter (λ '(_, dep), Is_true (bool_decide (dep_status dep = DepPending)
              && bool_decide (symbol_of (dep_currency_id dep) d ≠ None)))
       (map_to_list (deposits d)))).
Definition chain_key (dep : deposit) : string :=
  if String.eqb (dep_chain_id dep) "" then "ethereum" else dep_chain_id dep.

(** One iteration of [processChainDeposits]. *)
Definition track_item (rpc : chain_rpc) (currentBlock : Z) (row : string * deposit)
    (d : deposit_db) : deposit_db :=
  let '(id, dep) := row in
  let confirmations := currentBlock - dep_block_number dep in
  let d1 := update_confirmations id confirmations d in
  if dep_required_confirmations dep <=? confirmations then confirmDeposit rpc id dep d1 else d1.

Definition processChainDeposits (provider : string → option chain_rpc) (chain : string)
    (rows : list (string * deposit)) (d : deposit_db) : deposit_db :=
  match rpc ← provider chain; n ← rpc_blockNumber rpc; Some (rpc, n) with
  | Some (rpc, n) => foldl (λ d row, track_item rpc n row d) d rows
  | None => d
  end.

Definition checkPendingDeposits (provider : string → option chain_rpc) (d : deposit_db) :
    deposit_db :=
  let rows := pending_rows d in
  foldl (λ d chain, processChainDeposits provider chain
           (filter (λ row, chain_key (snd row) = chain) rows) d)
    d (dedup_by id [] (chain_key ∘ snd <$> rows)).
