(* ===== verification/Deposits.v ===== *)
(** * Deposits: theorems

    Over the backend's credit and repair ([DepositModel]) and the indexer ([Indexer]): what
    one repair does on every branch, that the backend's own credit always throws, that every deposit is credited at most once whatever the services
    do in whatever order, what a scan of a block records, and where flagged deposits and
    skipped blocks escape the rules. *)
From stdpp Require Import base gmap strings list fin_maps pretty.
From Stdlib Require Import ZArith Lia.
From S2P Require Import Prelude Money Balances Escrow DepositModel Indexer.
Local Open Scope Z_scope.

(** ** Runs of the statements *)
Lemma update_deposit_run id cond f d :
  update_deposit id cond f d =
  match deposits d !! id with
  | Some dep => if cond dep then Ret (Some dep, put_deposits (<[id := f dep]> (deposits d)) d)
                else Ret (None, d)
  | None => Ret (None, d)
  end.
Proof.
  unfold update_deposit, bind, gets. destruct (deposits d !! id) as [dep|]; [|done].
  by destruct (cond dep).
Qed.

Section Runs.
Context `{DecimalJs}.

Definition credit_entry (id : string) (dep : deposit) (a before after : Z) : ledger_entry :=
  funding_entry (dep_user_id dep) (dep_currency_id dep) 0 a before after "deposit" id Available.

Lemma credit_statements_run nf id dep a add b :
  let k := deposit_key dep in
  let r := row_of k b in
  credit_statements nf id dep a add b =
  if row_nonneg (add a r)
  then Ret (tt, post k (add a r)
         [credit_entry id dep a (toDP AMOUNT_PRECISION (available_balance r))
            (toDP AMOUNT_PRECISION (dplus (available_balance r) a))] b)
  else Throw "user_balances invariant violated".
Proof.
  intros k r. unfold credit_statements. fold k. balance_exec. fold r.
  destruct (row_nonneg _); balance_exec; done.
Qed.

Lemma indexer_credit_run nf iv id dep b :
  let k := deposit_key dep in
  let r := row_of k b in
  let r' := add_deposit (dep_amount dep) r in
  indexer_credit nf iv id dep b =
  if available_balance r' <? 0 then Throw iv
  else Ret (tt, post k r'
         [credit_entry id dep (dep_amount dep) (available_balance r) (available_balance r')] b).
Proof.
  intros k r r'. unfold indexer_credit. fold k. balance_exec. fold r r'.
  destruct (available_balance r' <? 0); balance_exec; simpl; balance_exec; done.
Qed.
End Runs.

(** ** What one credit does *)
Lemma add_deposit_nonneg a r : 0 ≤ a → row_nonneg r = true → row_nonneg (add_deposit a r) = true.
Proof. rewrite !row_nonneg_true. simpl. lia. Qed.

(** The database after a deposit has been completed and credited. *)
Definition credited_db (id : string) (dep : deposit) (b : balances) (d : deposit_db) :
    deposit_db :=
  sput b (put_deposits (<[id := set_completed dep]> (deposits d)) d).
(** The database after a deposit has been flagged. *)
Definition flagged_db (id : string) (dep : deposit) (asset : string) (a : Z) (reason : string)
    (d : deposit_db) : deposit_db :=
  DepositDb (ddb_balances d) (<[id := set_flagged reason dep]> (deposits d)) (dep_currencies d)
    (contract_currencies d) (wallets d)
    (aml_transaction_logs d ++ [AmlLog (dep_user_id dep) "deposit_flagged" asset a])
    (aml_alerts d ++ [AmlAlert (dep_user_id dep) "sanctions_deposit_blocked" id reason])
    (activity_logs d).

Section Credit.
Context `{DecimalJs}.

Definition rounded (dep : deposit) : Z := toDP AMOUNT_PRECISION (dep_amount dep).
Definition screening (w : sanctions_world) (dep : deposit) (d : deposit_db) : sanctions_result :=
  checkSanctions w (SanctionsParams (Some (dep_to_address dep))
    (default "UNKNOWN" (symbol_of (dep_currency_id dep) d)) (rounded dep) (dep_user_id dep)).
(** The balances after the backend's credit. *)
Definition credited_balances (id : string) (dep : deposit) (b : balances) : balances :=
  let r := row_of (deposit_key dep) b in
  post (deposit_key dep) (add_deposit (rounded dep) r)
    [credit_entry id dep (rounded dep) (toDP AMOUNT_PRECISION (available_balance r))
       (toDP AMOUNT_PRECISION (dplus (available_balance r) (rounded dep)))] b.

Lemma credit_selected_run w id dep d :
  deposits d !! id = Some dep →
  credit_selected w id dep d =
  if rounded dep <=? 0 then Ret (CreditResult false None, d)
  else
    let s := screening w dep d in
    if sr_allowed s
    then if row_nonneg (add_deposit (rounded dep) (row_of (deposit_key dep) (ddb_balances d)))
         then Ret (CreditResult true None,
                credited_db id dep (credited_balances id dep (ddb_balances d)) d)
         else Throw "user_balances invariant violated"
    else Ret (CreditResult false (sr_reason s),
           flagged_db id dep (default "UNKNOWN" (symbol_of (dep_currency_id dep) d))
             (rounded dep) (default "Sanctions check failed" (sr_reason s)) d).
Proof.
  intros Hdep. unfold credit_selected.
  unfold bind at 1, gets at 1. fold (rounded dep). destruct (rounded dep <=? 0) eqn:Ha; [done|].
  fold (screening w dep d). cbv zeta. destruct (sr_allowed _); simpl.
  - unfold bind at 1. rewrite update_deposit_run, Hdep. cbv beta iota.
    unfold bind, zoom. rewrite credit_statements_run. simpl sget. fold (rounded dep).
    by destruct (row_nonneg _).
  - unfold markDepositFlagged, bind, modify, ret. rewrite update_deposit_run, Hdep. done.
Qed.

(** The balances after the repair of one completed deposit. *)
Definition applied_balances (id : string) (dep : deposit) (b : balances) : balances :=
  let r := row_of (deposit_key dep) b in
  post (deposit_key dep) (add_applied (rounded dep) r)
    [credit_entry id dep (rounded dep) (toDP AMOUNT_PRECISION (available_balance r))
       (toDP AMOUNT_PRECISION (dplus (available_balance r) (rounded dep)))] b.

Lemma apply_body_run id d :
  apply_body id d =
  match deposits d !! id with
  | Some dep =>
      if negb (unapplied dep) then Ret (CreditResult false None, d)
      else
        let d1 := put_deposits (<[id := set_applied dep]> (deposits d)) d in
        if rounded dep <=? 0 then Ret (CreditResult false None, d1)
        else if row_nonneg (add_applied (rounded dep) (row_of (deposit_key dep) (ddb_balances d)))
        then Ret (CreditResult true None, sput (applied_balances id dep (ddb_balances d)) d1)
        else Throw "user_balances invariant violated"
  | None => Ret (CreditResult false None, d)
  end.
Proof.
  unfold apply_body. unfold bind at 1. rewrite update_deposit_run.
  destruct (deposits d !! id) as [dep|] eqn:Hdep; [|done].
  destruct (unapplied dep); [|done]. cbn [negb]. fold (rounded dep). cbv zeta.
  destruct (rounded dep <=? 0); [done|].
  unfold bind, zoom, ret. rewrite credit_statements_run. simpl sget. fold (rounded dep).
  by destruct (row_nonneg _).
Qed.
End Credit.

Section Backend.
Context `{DecimalJs}.

(** The backend's own credit never credits: unless deposits are paused its first SELECT
    throws, and nothing changes. *)
Theorem backend_credit_throws (p : pause_reads) (w : sanctions_world) (id : string)
    (d : deposit_db) :
  creditDepositIfConfirmed p w id d =
  (if areDepositsPaused p then Ret (CreditResult false (Some "deposits_paused"))
   else Throw nullable_lock_error, d).
Proof. unfold creditDepositIfConfirmed. by destruct (areDepositsPaused p). Qed.

Lemma overdue_complete user d id dep :
  deposits d !! id = Some dep → dep_user_id dep = user → creditable dep = true →
  id ∈ overdue_deposits user d.
Proof.
  intros Hid <- Hc. unfold overdue_deposits. apply list_elem_of_fmap. exists (id, dep).
  split; [done|]. apply sort_by_elem, list_elem_of_filter. split.
  - rewrite String.eqb_refl, Hc. done.
  - by apply elem_of_map_to_list.
Qed.

(** So the repair of overdue deposits throws as soon as there is one, and credits none. *)
Lemma overdue_credit_throws (p0 : pause_reads) (p : string → pause_reads) (w : sanctions_world)
    (user id : string) (dep : deposit) (d : deposit_db) :
  areDepositsPaused p0 = false → (∀ i, areDepositsPaused (p i) = false) →
  deposits d !! id = Some dep → dep_user_id dep = user → creditable dep = true →
  creditOverdueDepositsForUser p0 p w user d = (Throw nullable_lock_error, d).
Proof.
  intros Hp0 Hp Hid Hu Hc. unfold creditOverdueDepositsForUser. rewrite Hp0.
  pose proof (overdue_complete user d id dep Hid Hu Hc) as Hin.
  destruct (overdue_deposits user d) as [|i ids]; [by apply elem_of_nil in Hin|].
  cbn [credit_each]. by rewrite backend_credit_throws, (Hp i).
Qed.

(** *** The repair of completed deposits *)
Lemma add_applied_nonneg a r : 0 ≤ a → row_nonneg r = true → row_nonneg (add_applied a r) = true.
Proof. rewrite !row_nonneg_true. simpl. lia. Qed.

(** [d'] is [d] with the completed deposit [id], which was [dep], applied. *)
Definition applied_exactly (id : string) (dep : deposit) (d d' : deposit_db) : Prop :=
  deposits d !! id = Some dep ∧ unapplied dep = true ∧ 0 < rounded dep ∧
  rounded dep ≤ dep_amount dep < rounded dep + ulp AMOUNT_PRECISION ∧
  deposits d' = <[id := set_applied dep]> (deposits d) ∧
  (∀ k, row_of k (ddb_balances d') = let r := row_of k (ddb_balances d) in
     if decide (k = deposit_key dep) then add_applied (rounded dep) r else r) ∧
  (∃ before after, balance_ledger (ddb_balances d')
     = balance_ledger (ddb_balances d) ++ [credit_entry id dep (rounded dep) before after]).

(** No balance and no other deposit changes; a deposit whose amount rounds down to zero
    counts as applied. *)
Definition not_credited (id : string) (d d' : deposit_db) : Prop :=
  ddb_balances d' = ddb_balances d ∧
  (d' = d ∨ ∃ dep, deposits d !! id = Some dep ∧ unapplied dep = true ∧ rounded dep ≤ 0 ∧
     deposits d' = <[id := set_applied dep]> (deposits d)).

Lemma unapplied_set_applied dep : unapplied (set_applied dep) = false.
Proof. unfold unapplied. simpl. by rewrite andb_false_r. Qed.

Lemma unapplied_amount dep : unapplied dep = true → 0 < dep_amount dep.
Proof. unfold unapplied. intros Hu. bool_prop. lia. Qed.

Lemma apply_cases p id d :
  balances_wf (ddb_balances d) →
  ∃ res d', applyBalanceForOneCompletedDeposit p id d = (Ret res, d') ∧
    balances_wf (ddb_balances d') ∧ dep_currencies d' = dep_currencies d ∧
    (if cr_credited res then areDepositsPaused p = false ∧ ∃ dep, applied_exactly id dep d d'
     else not_credited id d d') ∧
    (∀ i dep, deposits d' !! i = Some dep → unapplied dep = true → deposits d !! i = Some dep) ∧
    (areDepositsPaused p = false → ∀ dep, deposits d' !! id = Some dep → unapplied dep = false).
Proof.
  intros Hwf. unfold applyBalanceForOneCompletedDeposit.
  assert (∀ dep i x, <[id := set_applied dep]> (deposits d) !! i = Some x → unapplied x = true →
    deposits d !! i = Some x) as Hother.
  { intros dep i x. destruct (decide (id = i)) as [<-|]; [|by rewrite lookup_insert_ne by done].
    rewrite lookup_insert_eq. intros [= <-]. by rewrite unapplied_set_applied. }
  destruct (areDepositsPaused p).
  { eexists _, d. split; [done|]. repeat (split; [by auto || by split; [|left]|]). done. }
  unfold transaction. rewrite apply_body_run.
  destruct (deposits d !! id) as [dep|] eqn:Hdep; cycle 1.
  { eexists _, d. split; [done|]. repeat (split; [by auto || by split; [|left]|]). naive_solver. }
  destruct (unapplied dep) eqn:Hu; cbn [negb]; cycle 1.
  { eexists _, d. split; [done|]. repeat (split; [by auto || by split; [|left]|]). naive_solver. }
  cbv zeta. destruct (rounded dep <=? 0) eqn:Hr; bool_prop.
  { eexists _, _. split; [done|]. split; [done|]. split; [done|]. split.
    { split; [done|]. right. by exists dep. }
    split; [apply Hother|]. intros _ x. simpl. rewrite lookup_insert_eq. intros [= <-].
    apply unapplied_set_applied. }
  rewrite add_applied_nonneg by (lia || by apply wf_row_of).
  eexists _, _. split; [done|]. split; [|split; [done|split; [|split]]].
  - simpl. apply wf_post; [done|]. apply add_applied_nonneg; [lia|by apply wf_row_of].
  - split; [done|]. exists dep. split; [done|]. split; [done|]. split; [lia|].
    split; [|split; [done|split]].
    + pose proof (toDP_bounds AMOUNT_PRECISION (dep_amount dep)).
      pose proof (unapplied_amount dep Hu). unfold rounded. lia.
    + intros k. simpl. unfold applied_balances. case_decide as E.
      * subst. apply row_of_post.
      * apply row_of_post_ne. congruence.
    + by eexists _, _.
  - apply Hother.
  - intros _ x. simpl. rewrite lookup_insert_eq. intros [= <-]. apply unapplied_set_applied.
Qed.

Lemma repair_each_clears p ids d :
  balances_wf (ddb_balances d) → (∀ i, areDepositsPaused (p i) = false) →
  let d' := repair_each p ids d in
  dep_currencies d' = dep_currencies d ∧
  ∀ i dep, deposits d' !! i = Some dep → unapplied dep = true →
    deposits d !! i = Some dep ∧ i ∉ ids.
Proof.
  intros Hwf Hp. revert d Hwf. induction ids as [|id ids IH]; intros d Hwf; cbv zeta.
  { split; [done|]. intros i dep Hi _. split; [done|]. apply not_elem_of_nil. }
  destruct (apply_cases (p id) id d Hwf) as (res & d1 & Hrun & Hwf1 & Hc1 & _ & Hold & Hid).
  cbn [repair_each]. rewrite Hrun. destruct (IH d1 Hwf1) as [Hc Hrest].
  split; [by rewrite Hc|]. intros i dep Hi Hu. destruct (Hrest i dep Hi Hu) as [Hi1 Hin].
  split; [by apply Hold|]. rewrite not_elem_of_cons. split; [|done].
  intros ->. specialize (Hid (Hp id) dep Hi1). congruence.
Qed.

(** C11. The backend's repair applies completed deposits exactly. One call of
    [applyBalanceForOneCompletedDeposit] always returns; when it answers "credited" the
    deposit was completed, credited and not applied, it becomes applied, its owner's global
    funding row gains exactly the amount rounded down to 8 places in the available and the
    total deposited bucket, one ledger line is written, and no other row changes; otherwise
    no balance changes. And while deposits are not paused the repair of
    [GET /balances/funding], running alone, leaves the user no unapplied deposit of a known
    currency. *)
Theorem repair_credits_exactly (p : string → pause_reads) (id user : string) (d : deposit_db) :
  balances_wf (ddb_balances d) →
  (∃ res d', applyBalanceForOneCompletedDeposit (p id) id d = (Ret res, d') ∧
     if cr_credited res
     then areDepositsPaused (p id) = false ∧ ∃ dep, applied_exactly id dep d d'
     else not_credited id d d') ∧
  ((∀ i, areDepositsPaused (p i) = false) →
   ∀ i dep, deposits (repair_funding p user d) !! i = Some dep → dep_user_id dep = user →
     symbol_of (dep_currency_id dep) (repair_funding p user d) ≠ None → unapplied dep = false).
Proof.
  intros Hwf. split.
  { destruct (apply_cases (p id) id d Hwf) as (res & d' & Hrun & _ & _ & Hres & _). by exists res, d'. }
  intros Hp i dep Hi Hu Hs. destruct (unapplied dep) eqn:E; [exfalso|done].
  unfold repair_funding in *.
  destruct (repair_each_clears p (unapplied_deposits user d) d Hwf Hp) as [Hc Hrest].
  destruct (Hrest i dep Hi E) as [Hd []]. unfold unapplied_deposits.
  apply list_elem_of_fmap. exists (i, dep). split; [done|]. apply list_elem_of_filter. split.
  - rewrite Hu, String.eqb_refl, E. unfold symbol_of in *. rewrite Hc in Hs.
    by rewrite bool_decide_eq_true_2.
  - by apply elem_of_map_to_list.
Qed.
End Backend.

(** ** Every deposit is credited at most once *)
Definition deposit_line (id : string) (e : ledger_entry) : Prop :=
  le_reference_type e = "deposit" ∧ le_reference_id e = id.
#[export] Instance deposit_line_dec id e : Decision (deposit_line id e).
Proof. unfold deposit_line. apply _. Defined.
Definition deposit_lines (id : string) (l : list ledger_entry) : list ledger_entry :=
  filter (deposit_line id) l.

Definition same_terms (p dep : deposit) : Prop :=
  dep_user_id p = dep_user_id dep ∧ dep_currency_id p = dep_currency_id dep ∧
  dep_amount p = dep_amount dep ∧ dep_chain_id p = dep_chain_id dep ∧
  dep_tx_hash p = dep_tx_hash dep ∧ dep_to_address p = dep_to_address dep.

(** The line of a credit: the whole amount (indexer) or its first 8 decimals (backend). *)
Definition line_ok (dep : deposit) (e : ledger_entry) : Prop :=
  le_user_id e = dep_user_id dep ∧ le_currency_id e = dep_currency_id dep ∧
  le_account_type e = "funding" ∧ le_balance_type e = Available ∧ le_debit e = 0 ∧
  (le_credit e = dep_amount dep ∨ le_credit e = rounded dep).

(** A deposit that has not been applied has no credit; one that has been applied has one,
    or none when its amount rounds down to zero. *)
Definition credited_once (id : string) (dep : deposit) (l : list ledger_entry) : Prop :=
  if dep_applied dep
  then (∃ e, deposit_lines id l = [e] ∧ line_ok dep e) ∨ (deposit_lines id l = [] ∧ rounded dep ≤ 0)
  else deposit_lines id l = [].

(** What the operations do to the deposits and the ledger. *)
Inductive deposit_move : deposit_db → deposit_db → Prop :=
  | mv_update d d' id dep dep' :
      deposits d !! id = Some dep → same_terms dep dep' → dep_applied dep' = dep_applied dep →
      deposits d' = <[id := dep']> (deposits d) → dep_currencies d' = dep_currencies d →
      balance_ledger (ddb_balances d') = balance_ledger (ddb_balances d) → deposit_move d d'
  | mv_other d d' es :
      deposits d' = deposits d → dep_currencies d' = dep_currencies d →
      Forall (λ e, le_reference_type e ≠ "deposit") es →
      balance_ledger (ddb_balances d') = balance_ledger (ddb_balances d) ++ es → deposit_move d d'
  | mv_credit d d' id dep dep' e :
      deposits d !! id = Some dep → same_terms dep dep' → dep_applied dep = false →
      dep_applied dep' = true → deposits d' = <[id := dep']> (deposits d) →
      dep_currencies d' = dep_currencies d → deposit_line id e → line_ok dep e →
      balance_ledger (ddb_balances d') = balance_ledger (ddb_balances d) ++ [e] → deposit_move d d'
  | mv_dust d d' id dep dep' :
      deposits d !! id = Some dep → same_terms dep dep' → dep_applied dep = false →
      dep_applied dep' = true → rounded dep ≤ 0 → deposits d' = <[id := dep']> (deposits d) →
      dep_currencies d' = dep_currencies d →
      balance_ledger (ddb_balances d') = balance_ledger (ddb_balances d) → deposit_move d d'
  | mv_insert d d' id dep :
      deposits d !! id = None → dep_applied dep = false →
      find_deposit (dep_chain_id dep) (dep_tx_hash dep) (dep_to_address dep) d = None →
      symbol_of (dep_currency_id dep) d ≠ None →
      deposits d' = <[id := dep]> (deposits d) → dep_currencies d' = dep_currencies d →
      balance_ledger (ddb_balances d') = balance_ledger (ddb_balances d) → deposit_move d d'.

Definition same_deposit_key (p q : deposit) : Prop :=
  dep_chain_id p = dep_chain_id q ∧ dep_tx_hash p = dep_tx_hash q ∧
  dep_to_address p = dep_to_address q.

Record deposits_ok (d : deposit_db) : Prop := {
  ok_lines : ∀ id dep, deposits d !! id = Some dep →
    credited_once id dep (balance_ledger (ddb_balances d));
  ok_fresh : ∀ id, deposits d !! id = None →
    deposit_lines id (balance_ledger (ddb_balances d)) = [];
  ok_currency : ∀ id dep, deposits d !! id = Some dep → symbol_of (dep_currency_id dep) d ≠ None;
  ok_keys : ∀ i j p q, deposits d !! i = Some p → deposits d !! j = Some q →
    same_deposit_key p q → i = j;
}.

Lemma deposit_lines_other id l es :
  Forall (λ e, le_reference_type e ≠ "deposit") es →
  deposit_lines id (l ++ es) = deposit_lines id l.
Proof.
  intros Hes. unfold deposit_lines. rewrite filter_app.
  assert (filter (deposit_line id) es = []) as ->; [|by rewrite app_nil_r].
  induction Hes as [|e es He _ IH]; [done|]. rewrite filter_cons_False; [done|].
  by intros [? _].
Qed.

Lemma deposit_lines_snoc id id' l e :
  deposit_line id' e →
  deposit_lines id (l ++ [e]) = if decide (id = id') then deposit_lines id l ++ [e] else deposit_lines id l.
Proof.
  intros [Ht Hi]. unfold deposit_lines. rewrite filter_app. case_decide as E.
  - subst. rewrite filter_cons_True by done. done.
  - rewrite filter_cons_False by (intros [_ ?]; congruence). by rewrite filter_nil, app_nil_r.
Qed.

Lemma same_terms_rounded p dep : same_terms p dep → rounded p = rounded dep.
Proof. unfold rounded. by intros (_ & _ & -> & _). Qed.

Lemma line_ok_terms p dep e : same_terms p dep → line_ok p e → line_ok dep e.
Proof.
  intros Hst. pose proof (same_terms_rounded _ _ Hst) as Hr. destruct Hst as (? & ? & ? & _).
  unfold line_ok. rewrite Hr. intuition congruence.
Qed.

Lemma symbol_of_ext c d d' : dep_currencies d' = dep_currencies d → symbol_of c d' = symbol_of c d.
Proof. unfold symbol_of. by intros ->. Qed.

Lemma find_deposit_None c t a d id dep :
  find_deposit c t a d = None → deposits d !! id = Some dep →
  ¬ (dep_chain_id dep = c ∧ dep_tx_hash dep = t ∧ dep_to_address dep = a).
Proof.
  unfold find_deposit. intros Hf Hid (<- & <- & <-).
  apply find_none with (x := (id, dep)) in Hf; [|by apply list_elem_of_In, elem_of_map_to_list].
  unfold same_key in Hf. simpl in Hf. by rewrite !String.eqb_refl in Hf.
Qed.

(** The three tables of a row that stays at its place. *)
Lemma deposits_ok_put d d' id dep dep' :
  deposits_ok d → deposits d !! id = Some dep → same_terms dep dep' →
  deposits d' = <[id := dep']> (deposits d) → dep_currencies d' = dep_currencies d →
  credited_once id dep' (balance_ledger (ddb_balances d')) →
  (∀ j, j ≠ id → deposit_lines j (balance_ledger (ddb_balances d'))
                 = deposit_lines j (balance_ledger (ddb_balances d))) →
  deposits_ok d'.
Proof.
  intros [Hl Hf Hc Hk] Hid (_ & Hcur & _ & Hch & Htx & Hto) Hd' Hcs Hnew Hold. split.
  - intros j p. rewrite Hd'. destruct (decide (id = j)) as [<-|Hne].
    + rewrite lookup_insert_eq. by intros [= <-].
    + rewrite lookup_insert_ne by done. intros Hj. pose proof (Hl j p Hj) as Hlj.
      unfold credited_once in *. by rewrite Hold by done.
  - intros j. rewrite Hd'. destruct (decide (id = j)) as [<-|Hne].
    + by rewrite lookup_insert_eq.
    + rewrite lookup_insert_ne by done. intros Hj. rewrite Hold by done. by apply Hf.
  - intros j p. rewrite Hd', (symbol_of_ext _ _ _ Hcs). destruct (decide (id = j)) as [<-|Hne].
    + rewrite lookup_insert_eq. intros [= <-]. rewrite <- Hcur. by apply (Hc id).
    + rewrite lookup_insert_ne by done. apply Hc.
  - assert (∀ j p, deposits d' !! j = Some p → ∃ q, deposits d !! j = Some q ∧ same_deposit_key p q)
      as Hback.
    { intros j p. rewrite Hd'. destruct (decide (id = j)) as [<-|Hne].
      - rewrite lookup_insert_eq. intros [= <-]. exists dep. by rewrite Hid.
      - rewrite lookup_insert_ne by done. intros ?. by exists p. }
    intros i j p q Hi Hj (? & ? & ?).
    destruct (Hback i p Hi) as (p' & Hp' & ? & ? & ?), (Hback j q Hj) as (q' & Hq' & ? & ? & ?).
    apply (Hk i j p' q'); [done..|]. unfold same_deposit_key. repeat split; congruence.
Qed.

Lemma deposit_move_ok d d' : deposits_ok d → deposit_move d d' → deposits_ok d'.
Proof.
  intros Hok Hmv. pose proof Hok as [Hl Hf Hc Hk].
  destruct Hmv as [d d' id dep dep' Hid Hst Hap Hd' Hcs Hled|d d' es Hd' Hcs Hes Hled
    |d d' id dep dep' e Hid Hst Hna Hap Hd' Hcs Hline Hlok Hled
    |d d' id dep dep' Hid Hst Hna Hap Hdust Hd' Hcs Hled|d d' id dep Hid Hna Hkey Hsym Hd' Hcs Hled].
  - apply (deposits_ok_put d d' id dep dep'); rewrite ?Hled; try done.
    pose proof (Hl id dep Hid) as Hld. unfold credited_once in *. rewrite Hap.
    rewrite <- (same_terms_rounded _ _ Hst). destruct (dep_applied dep); [|done].
    destruct Hld as [(e & ? & ?)|?]; [left; exists e; split; [done|]; by apply line_ok_terms with dep
      |by right].
  - assert (∀ id, deposit_lines id (balance_ledger (ddb_balances d'))
                  = deposit_lines id (balance_ledger (ddb_balances d))) as Heq
      by (intros; rewrite Hled; by apply deposit_lines_other).
    split; intros *; rewrite ?Hd', ?(symbol_of_ext _ _ _ Hcs); eauto.
    + intros Hid. unfold credited_once. rewrite Heq. by apply Hl.
    + rewrite Heq. apply Hf.
  - apply (deposits_ok_put d d' id dep dep'); try done.
    + unfold credited_once. rewrite Hap, Hled. left. exists e.
      rewrite (deposit_lines_snoc id id _ _ Hline), decide_True by done.
      pose proof (Hl id dep Hid) as Hld. unfold credited_once in Hld. rewrite Hna in Hld.
      rewrite Hld. split; [done|]. by apply line_ok_terms with dep.
    + intros j Hj. by rewrite Hled, (deposit_lines_snoc j id _ _ Hline), decide_False.
  - apply (deposits_ok_put d d' id dep dep'); rewrite ?Hled; try done.
    unfold credited_once. rewrite Hap. right. rewrite <- (same_terms_rounded _ _ Hst).
    pose proof (Hl id dep Hid) as Hld. unfold credited_once in Hld. by rewrite Hna in Hld.
  - split; rewrite ?Hled.
    + intros j p. rewrite Hd'. destruct (decide (id = j)) as [<-|Hne].
      * rewrite lookup_insert_eq. intros [= <-]. unfold credited_once. rewrite Hna. by apply Hf.
      * rewrite lookup_insert_ne by done. apply Hl.
    + intros j. rewrite Hd'. destruct (decide (id = j)) as [<-|Hne].
      * by rewrite lookup_insert_eq.
      * rewrite lookup_insert_ne by done. apply Hf.
    + intros j p. rewrite Hd', (symbol_of_ext _ _ _ Hcs).
      destruct (decide (id = j)) as [<-|Hne].
      * rewrite lookup_insert_eq. by intros [= <-].
      * rewrite lookup_insert_ne by done. apply Hc.
    + assert (∀ j p, j ≠ id → deposits d' !! j = Some p → ¬ same_deposit_key p dep) as Hother.
      { intros j p Hj. rewrite Hd', lookup_insert_ne by done. intros Hp ?.
        by apply (find_deposit_None _ _ _ _ _ _ Hkey Hp). }
      intros i j p q Hi Hj Hsame.
      assert (∀ p, deposits d' !! id = Some p → p = dep) as Hat
        by (intros p'; rewrite Hd', lookup_insert_eq; congruence).
      destruct (decide (i = id)) as [->|Hi'], (decide (j = id)) as [->|Hj']; [done| | |].
      * rewrite (Hat p Hi) in Hsame. destruct (Hother j q Hj' Hj).
        destruct Hsame as (? & ? & ?). by repeat split.
      * rewrite (Hat q Hj) in Hsame. by destruct (Hother i p Hi' Hi).
      * rewrite Hd', lookup_insert_ne in Hi, Hj by done. by apply (Hk i j p q).
Qed.

(** *** The operations are such moves *)
Definition moves : deposit_db → deposit_db → Prop := rtc deposit_move.

Lemma moves_trans d1 d2 d3 : moves d1 d2 → moves d2 d3 → moves d1 d3.
Proof. apply rtc_trans. Qed.

Lemma moves_ok d d' : deposits_ok d → moves d d' → deposits_ok d'.
Proof. intros Hok. apply (rtc_invariant deposit_move deposits_ok); [apply deposit_move_ok|done]. Qed.

Lemma moves_transaction {A} (m : M deposit_db A) d :
  (∀ a d', m d = Ret (a, d') → moves d d') → moves d (snd (transaction m d)).
Proof.
  intros Hm. unfold transaction. destruct (m d) as [[a d']|e] eqn:E; simpl; [by apply (Hm a)|].
  apply rtc_refl.
Qed.

(** A row as it was read, in a database where it may have changed since. *)
Definition snapshot (d : deposit_db) (row : string * deposit) : Prop :=
  ∃ dep, deposits d !! fst row = Some dep ∧ same_terms (snd row) dep.

Lemma same_terms_refl dep : same_terms dep dep.
Proof. by repeat split. Qed.

Lemma same_terms_trans p q r : same_terms p q → same_terms q r → same_terms p r.
Proof. unfold same_terms. intuition congruence. Qed.

Lemma snapshot_move d d' row : snapshot d row → deposit_move d d' → snapshot d' row.
Proof.
  intros (dep & Hid & Hst) Hmv. unfold snapshot.
  assert (∀ j p p', deposits d !! j = Some p → same_terms p p' →
    deposits d' = <[j := p']> (deposits d) →
    ∃ q, deposits d' !! fst row = Some q ∧ same_terms (snd row) q) as Hput.
  { intros j p p' Hj Hpp ->. destruct (decide (j = fst row)) as [->|Hne].
    - rewrite lookup_insert_eq. exists p'. split; [done|]. rewrite Hid in Hj. simplify_eq.
      by apply same_terms_trans with p.
    - rewrite lookup_insert_ne by done. eauto. }
  destruct Hmv; eauto.
  - exists dep. match goal with E : deposits d' = _ |- _ => rewrite E end. done.
  - exists dep. match goal with E : deposits d' = _ |- _ => rewrite E end.
    rewrite lookup_insert_ne; [done|]. intros ->. congruence.
Qed.

Lemma snapshot_moves d d' row : snapshot d row → moves d d' → snapshot d' row.
Proof.
  intros Hs. apply (rtc_invariant deposit_move (λ d, snapshot d row)); [|done].
  intros. by eapply snapshot_move.
Qed.

Lemma moves_once d d' : deposit_move d d' → moves d d'.
Proof. apply rtc_once. Qed.

Lemma update_deposit_moves id f d :
  (∀ dep, same_terms dep (f dep) ∧ dep_applied (f dep) = dep_applied dep) →
  moves d (snd (transaction (update_deposit id (λ _, true) f) d)).
Proof.
  intros Hf. apply moves_transaction. intros a d'. rewrite update_deposit_run.
  destruct (deposits d !! id) as [dep|] eqn:Hid; intros [= _ <-]; [|apply rtc_refl].
  apply moves_once. destruct (Hf dep). by eapply mv_update.
Qed.

Lemma update_confirmations_moves id n d : moves d (update_confirmations id n d).
Proof. apply update_deposit_moves. intros dep. by repeat split. Qed.

Lemma insert_deposit_moves id dep d b d' :
  dep_applied dep = false → insert_deposit id dep d = Ret (b, d') → moves d d'.
Proof.
  intros Hna Hrun. unfold insert_deposit in Hrun. unfold bind at 1, gets at 1 in Hrun.
  destruct (find_deposit _ _ _ d) as [?|] eqn:Hkey; [injection Hrun as _ <-; apply rtc_refl|].
  run_all Hrun. bool_prop. apply moves_once. by eapply (mv_insert _ _ id dep).
Qed.

Lemma balance_moves (b : balances) d :
  balance_ledger b = balance_ledger (ddb_balances d) → moves d (sput b d).
Proof.
  intros Hb. apply moves_once. apply mv_other with []; [done..|]. simpl. by rewrite app_nil_r.
Qed.

Lemma updatePendingBalance_moves u c a d x d' :
  updatePendingBalance u c a d = Ret (x, d') → moves d d'.
Proof.
  unfold updatePendingBalance, bind, gets. destruct (symbol_of c d); intros [= _ <-];
    [|apply rtc_refl]. by apply balance_moves.
Qed.

Lemma recordDeposit_moves ck cf id now t d :
  moves d (snd (transaction (recordDeposit ck cf id now t) d)).
Proof.
  apply moves_transaction. intros x d' Hrun. unfold recordDeposit in Hrun.
  destruct (_ <=? _); [injection Hrun as _ <-; apply rtc_refl|].
  unfold bind at 1, gets at 1 in Hrun. destruct (find _ (wallets d)) as [w|];
    [|injection Hrun as _ <-; apply rtc_refl].
  unfold bind at 1, gets at 1 in Hrun. destruct (currency_of_transfer t d) as [c|];
    [|injection Hrun as _ <-; apply rtc_refl].
  apply bind_Ret_inv in Hrun as (b & d1 & Hins & Hrun).
  apply insert_deposit_moves in Hins; [|done]. destruct b.
  - apply updatePendingBalance_moves in Hrun. by apply moves_trans with d1.
  - by injection Hrun as _ <-.
Qed.

Lemma record_all_moves ck cf ids now l d : moves d (record_all ck cf ids now l d).
Proof.
  revert ids d. induction l as [|t l IH]; intros ids d; [apply rtc_refl|]. cbn [record_all].
  eapply moves_trans; [apply recordDeposit_moves|apply IH].
Qed.

Lemma processBlock_moves node ids now b ix d :
  moves d (snd (processBlock node ids now b (ix, d))).
Proof.
  unfold processBlock. destruct (block_le _ _); [apply rtc_refl|].
  destruct (getBlock node b); [|apply rtc_refl].
  destruct (token_transfers _ _ _ _ _). apply record_all_moves.
Qed.

Lemma recordOrUpdateDeposit_moves id now input d :
  moves d (snd (transaction (recordOrUpdateDeposit id now input) d)).
Proof.
  apply moves_transaction. intros x d' Hrun. unfold recordOrUpdateDeposit in Hrun.
  destruct (_ <=? _); [injection Hrun as _ <-; apply rtc_refl|].
  unfold bind at 1, gets at 1 in Hrun.
  destruct (find_deposit _ _ _ d) as [[rid row]|].
  - unfold bind, ret in Hrun.
    destruct (_ && _); [|injection Hrun as _ <-; apply rtc_refl].
    rewrite update_deposit_run in Hrun.
    destruct (deposits d !! rid) as [dep|] eqn:Hid; injection Hrun as _ <-; [|apply rtc_refl].
    apply moves_once. apply (mv_update _ _ rid dep (set_confirmations
      (Z.max (dep_confirmations dep) (ne_confirmations input)) dep)); done.
  - unfold bind at 1, gets at 1 in Hrun. destruct (find _ (wallets d)) as [w|];
      [|injection Hrun as _ <-; apply rtc_refl].
    apply bind_Ret_inv in Hrun as (b & d1 & Hins & Hrun).
    apply insert_deposit_moves in Hins; [|done]. by destruct b; injection Hrun as _ <-.
Qed.

Lemma processAddress_moves cid a req ids now refs d :
  moves d (processAddress cid a req ids now refs d).
Proof.
  revert ids d. induction refs as [|r refs IH]; intros ids d; [apply rtc_refl|].
  cbn [processAddress]. destruct (is_deposit r); [|apply IH].
  eapply moves_trans; [apply recordOrUpdateDeposit_moves|apply IH].
Qed.

(** *** The credits *)
Section Moves.
Context `{DecimalJs}.

Lemma credit_entry_line id dep a x y : deposit_line id (credit_entry id dep a x y).
Proof. by split. Qed.

Lemma credit_entry_ok id p dep a x y :
  same_terms p dep → a = dep_amount p ∨ a = rounded p → line_ok dep (credit_entry id p a x y).
Proof.
  intros Hst Ha. rewrite (same_terms_rounded _ _ Hst) in Ha.
  destruct Hst as (? & ? & Hamt & _). rewrite Hamt in Ha. unfold line_ok; simpl. repeat split; done.
Qed.

Lemma credit_selected_moves w id dep d :
  deposits d !! id = Some dep → creditable dep = true →
  moves d (snd (transaction (credit_selected w id dep) d)).
Proof.
  intros Hid Hc. apply moves_transaction. intros x d'. rewrite (credit_selected_run w id dep d Hid).
  destruct (_ <=? 0) eqn:E; [intros [= _ <-]; apply rtc_refl|].
  bool_prop. cbv zeta. destruct (sr_allowed _).
  - destruct (row_nonneg _); [|done]. intros [= _ <-]. apply moves_once.
    assert (dep_applied dep = false) by (unfold creditable in *; by bool_prop).
    eapply (mv_credit _ _ id dep (set_completed dep)); try done;
      [apply (credit_entry_line id dep)|apply credit_entry_ok; [done|by right]].
  - intros [= _ <-]. apply moves_once. by eapply (mv_update _ _ id dep (set_flagged _ dep)).
Qed.

Lemma creditDepositIfConfirmed_moves p w id d :
  moves d (snd (creditDepositIfConfirmed p w id d)).
Proof. rewrite backend_credit_throws. apply rtc_refl. Qed.

Lemma credit_each_moves p w ids c s d : moves d (snd (credit_each p w ids c s d)).
Proof.
  revert c s d. induction ids as [|id ids IH]; intros c s d; [apply rtc_refl|].
  cbn [credit_each]. pose proof (creditDepositIfConfirmed_moves (p id) w id d) as Hone.
  destruct (creditDepositIfConfirmed (p id) w id d) as [[res|e] d1]; simpl in Hone; [|done].
  destruct (cr_credited res); eapply moves_trans; eauto.
Qed.

Lemma overdue_moves p0 p w user d : moves d (snd (creditOverdueDepositsForUser p0 p w user d)).
Proof.
  unfold creditOverdueDepositsForUser. destruct (areDepositsPaused p0); [apply rtc_refl|].
  apply credit_each_moves.
Qed.

Lemma apply_body_moves id d : moves d (snd (transaction (apply_body id) d)).
Proof.
  apply moves_transaction. intros x d'. rewrite apply_body_run.
  destruct (deposits d !! id) as [dep|] eqn:Hid; [|intros [= _ <-]; apply rtc_refl].
  destruct (unapplied dep) eqn:Hu; [|intros [= _ <-]; apply rtc_refl].
  assert (dep_applied dep = false) by (unfold unapplied in Hu; by bool_prop). cbn [negb]. cbv zeta.
  destruct (rounded dep <=? 0) eqn:Hr; bool_prop.
  - intros [= _ <-]. apply moves_once. by eapply (mv_dust _ _ id dep (set_applied dep)).
  - destruct (row_nonneg _); [|done]. intros [= _ <-]. apply moves_once.
    eapply (mv_credit _ _ id dep (set_applied dep)); try done;
      [apply (credit_entry_line id dep)|apply credit_entry_ok; [done|by right]].
Qed.

Lemma applyBalance_moves p id d : moves d (snd (applyBalanceForOneCompletedDeposit p id d)).
Proof.
  unfold applyBalanceForOneCompletedDeposit. destruct (areDepositsPaused p); [apply rtc_refl|].
  apply apply_body_moves.
Qed.

Lemma repair_moves p ids d : moves d (repair_each p ids d).
Proof.
  revert d. induction ids as [|id ids IH]; intros d; [apply rtc_refl|]. cbn [repair_each].
  pose proof (applyBalance_moves (p id) id d) as Hone.
  destruct (applyBalanceForOneCompletedDeposit (p id) id d) as [[res|e] d1]; simpl in Hone; [|done].
  by eapply moves_trans.
Qed.
End Moves.

Section IndexerMoves.
Context `{DecimalJs}.

(** Both credits of the indexer, on a row read earlier. *)
Lemma indexer_moves (nf iv : string) id p d dep :
  deposits d !! id = Some dep → same_terms p dep → dep_applied dep = false → ∀ b x,
  indexer_credit nf iv id p (ddb_balances d) = Ret (x, b) →
  moves d (credited_db id dep b d).
Proof.
  intros Hid Hst Hna b x. rewrite indexer_credit_run. destruct (_ <? _); [done|].
  intros [= _ <-]. apply moves_once. eapply (mv_credit _ _ id dep (set_completed dep)); try done;
    [apply (credit_entry_line id p)|apply credit_entry_ok; [done|by left]].
Qed.

Lemma log_activity_moves u id d x d' : log_activity u id d = Ret (x, d') → moves d d'.
Proof.
  intros [= _ <-]. apply moves_once. apply mv_other with []; [done..|]. simpl. by rewrite app_nil_r.
Qed.

Lemma zoom_put_deposits {A} (m : M balances A) ds d :
  zoom m (put_deposits ds d)
  = match m (ddb_balances d) with
    | Ret (a, b) => Ret (a, sput b (put_deposits ds d))
    | Throw e => Throw e
    end.
Proof. done. Qed.

Lemma creditConfirmed_moves id p d :
  snapshot d (id, p) → moves d (snd (creditConfirmedDeposit id p d)).
Proof.
  intros (dep & Hid & Hst). simpl in Hid, Hst. unfold creditConfirmedDeposit.
  assert (moves d (snd (transaction (creditConfirmedDeposit_body id p) d))) as Hm.
  { apply moves_transaction. intros x d' Hrun. unfold creditConfirmedDeposit_body in Hrun.
    unfold bind at 1 in Hrun. rewrite update_deposit_run, Hid in Hrun.
    destruct (not_applied dep) eqn:Hna; [|injection Hrun as _ <-; apply rtc_refl].
    unfold bind at 1, gets at 1 in Hrun.
    apply bind_Ret_inv in Hrun as (? & d1 & Hreq & Hrun). apply require_inv in Hreq as [_ ->].
    apply bind_Ret_inv in Hrun as (? & d2 & Hz & Hrun). rewrite zoom_put_deposits in Hz.
    destruct (indexer_credit _ _ _ _ _) as [[y b]|] eqn:Hc in Hz; [|done]. injection Hz as _ <-.
    apply bind_Ret_inv in Hrun as (? & d3 & Hlog & Hrun). injection Hrun as _ <-.
    eapply moves_trans; [|by eapply log_activity_moves].
    apply (indexer_moves _ _ id p d dep Hid Hst) with (2 := Hc).
    unfold not_applied in Hna. by bool_prop. }
  destruct (transaction _ d) as [[b|e] d1] eqn:E; apply Hm.
Qed.

Lemma confirm_body_moves id p d :
  deposits_ok d → snapshot d (id, p) → moves d (snd (transaction (confirm_body id p) d)).
Proof.
  intros Hok (dep & Hid & Hst). simpl in Hid, Hst.
  apply moves_transaction. intros x d' Hrun. unfold confirm_body in Hrun.
  unfold bind at 1 in Hrun. rewrite update_deposit_run, Hid in Hrun.
  destruct (not_applied dep) eqn:Hna; [|injection Hrun as _ <-; apply rtc_refl].
  unfold bind at 1, gets at 1 in Hrun.
  pose proof (ok_currency d Hok id dep Hid) as Hcur.
  rewrite <- (proj1 (proj2 Hst)) in Hcur.
  change (symbol_of (dep_currency_id p) (put_deposits _ d))
    with (symbol_of (dep_currency_id p) d) in Hrun.
  destruct (symbol_of (dep_currency_id p) d) as [sym|]; [|done].
  apply bind_Ret_inv in Hrun as (? & d2 & Hz & Hrun). rewrite zoom_put_deposits in Hz.
  destruct (indexer_credit _ _ _ _ _) as [[y b]|] eqn:Hc in Hz; [|done]. injection Hz as _ <-.
  apply bind_Ret_inv in Hrun as (? & d3 & Hlog & Hrun). injection Hrun as _ <-.
  eapply moves_trans; [|by eapply log_activity_moves].
  apply (indexer_moves _ _ id p d dep Hid Hst) with (2 := Hc).
  unfold not_applied in Hna. by bool_prop.
Qed.

Lemma confirmDeposit_moves rpc id p d :
  deposits_ok d → snapshot d (id, p) → moves d (confirmDeposit rpc id p d).
Proof.
  intros Hok Hsnap. unfold confirmDeposit.
  pose proof (confirm_body_moves id p d Hok Hsnap) as Hcredit.
  destruct (String.eqb _ _); [done|]. destruct (rpc_receipt rpc _); try apply rtc_refl; [|done].
  apply update_deposit_moves. intros dep. by repeat split.
Qed.

Lemma track_item_moves rpc n row d :
  deposits_ok d → snapshot d row → moves d (track_item rpc n row d).
Proof.
  destruct row as [id p]. intros Hok Hsnap. unfold track_item.
  pose proof (update_confirmations_moves id (n - dep_block_number p) d) as Hup.
  destruct (_ <=? _); [|done]. eapply moves_trans; [done|].
  apply confirmDeposit_moves; [by eapply moves_ok|by eapply snapshot_moves].
Qed.

Lemma ready_item_moves conf row d : snapshot d row → moves d (snd (ready_item conf row d)).
Proof.
  destruct row as [id p]. intros Hsnap. unfold ready_item.
  destruct (conf _ _) as [n|]; [|apply rtc_refl].
  set (d1 := if n =? dep_confirmations p then d else update_confirmations id n d).
  assert (moves d d1) as H1.
  { unfold d1. destruct (_ =? _); [apply rtc_refl|apply update_confirmations_moves]. }
  destruct (_ <=? n); [|done]. eapply moves_trans; [done|].
  apply creditConfirmed_moves. by eapply snapshot_moves.
Qed.
End IndexerMoves.

(** *** Runs of all services *)
Record deposit_sys := DepositSys {
  ds_db : deposit_db;
  (** the rows the indexer has read and may still work on *)
  ds_read : list (string * deposit);
}.

Section Runs2.
Context `{DecimalJs}.

Inductive deposit_step : deposit_sys → deposit_sys → Prop :=
  | st_credit p w id d l :
      deposit_step (DepositSys d l) (DepositSys (snd (creditDepositIfConfirmed p w id d)) l)
  (** were its SELECT accepted (locking [deposits] alone) *)
  | st_credit_selected w id dep d l :
      deposits d !! id = Some dep → creditable dep = true →
      deposit_step (DepositSys d l)
        (DepositSys (snd (transaction (credit_selected w id dep) d)) l)
  | st_overdue p0 p w user d l :
      deposit_step (DepositSys d l)
        (DepositSys (snd (creditOverdueDepositsForUser p0 p w user d)) l)
  | st_apply p id d l :
      deposit_step (DepositSys d l)
        (DepositSys (snd (applyBalanceForOneCompletedDeposit p id d)) l)
  | st_repair p user d l :
      deposit_step (DepositSys d l) (DepositSys (repair_funding p user d) l)
  | st_scan node ids now b ix d l :
      deposit_step (DepositSys d l) (DepositSys (snd (processBlock node ids now b (ix, d))) l)
  | st_bitcoin cid a req ids now refs d l :
      deposit_step (DepositSys d l) (DepositSys (processAddress cid a req ids now refs d) l)
  | st_record id now input d l :
      deposit_step (DepositSys d l)
        (DepositSys (snd (transaction (recordOrUpdateDeposit id now input) d)) l)
  | st_read_pending d l : deposit_step (DepositSys d l) (DepositSys d (l ++ pending_rows d))
  | st_read_ready chain d l : deposit_step (DepositSys d l) (DepositSys d (l ++ ready_rows chain d))
  | st_track rpc n row d l :
      row ∈ l → deposit_step (DepositSys d l) (DepositSys (track_item rpc n row d) l)
  | st_ready conf row d l :
      row ∈ l → deposit_step (DepositSys d l) (DepositSys (snd (ready_item conf row d)) l)
  | st_restart d l : deposit_step (DepositSys d l) (DepositSys d [])
  (** other services change balances and write ledger lines that are not of deposits *)
  | st_other b es d l :
      balance_ledger b = balance_ledger (ddb_balances d) ++ es →
      Forall (λ e, le_reference_type e ≠ "deposit") es →
      deposit_step (DepositSys d l) (DepositSys (sput b d) l).

Definition sys_ok (s : deposit_sys) : Prop :=
  deposits_ok (ds_db s) ∧ ∀ row, row ∈ ds_read s → snapshot (ds_db s) row.

Lemma elem_of_map_snapshot d row : row ∈ map_to_list (deposits d) → snapshot d row.
Proof.
  destruct row as [id p]. rewrite elem_of_map_to_list. intros Hid. exists p. by split.
Qed.

Lemma elem_of_take {A} (x : A) n l : x ∈ take n l → x ∈ l.
Proof. intros Hx. rewrite <- (take_drop n l). apply elem_of_app. by left. Qed.

Lemma read_snapshot d row (f : string * deposit → Prop) `{∀ x, Decision (f x)} :
  row ∈ take 100 (sort_by by_creation (filter f (map_to_list (deposits d)))) → snapshot d row.
Proof.
  intros [_ Hrow]%elem_of_take%sort_by_elem%list_elem_of_filter.
  by apply elem_of_map_snapshot.
Qed.

Lemma sys_ok_moves d d' l l' :
  sys_ok (DepositSys d l) → moves d d' → (∀ row, row ∈ l' → row ∈ l) → sys_ok (DepositSys d' l').
Proof.
  intros [Hok Hl] Hm Hsub. split; [by eapply moves_ok|]. simpl. intros row Hrow.
  eapply snapshot_moves; [|done]. by apply Hl, Hsub.
Qed.

Lemma sys_ok_step s s' : sys_ok s → deposit_step s s' → sys_ok s'.
Proof.
  intros Hsys Hst. pose proof Hsys as [Hok Hl].
  destruct Hst; simpl in Hok, Hl.
  all: try (eapply sys_ok_moves; [done| |done]).
  - apply creditDepositIfConfirmed_moves.
  - by apply credit_selected_moves.
  - apply overdue_moves.
  - apply applyBalance_moves.
  - apply repair_moves.
  - apply processBlock_moves.
  - apply processAddress_moves.
  - apply recordOrUpdateDeposit_moves.
  - split; [done|]. simpl. intros row [?|Hrow]%elem_of_app; [by apply Hl|].
    by eapply read_snapshot.
  - split; [done|]. simpl. intros row [?|Hrow]%elem_of_app; [by apply Hl|].
    by eapply read_snapshot.
  - apply track_item_moves; [done|by apply Hl].
  - apply ready_item_moves. by apply Hl.
  - split; [done|]. simpl. set_solver.
  - apply moves_once. by apply mv_other with es.
Qed.

(** The system before the first deposit. *)
Definition no_deposits (s : deposit_sys) : Prop :=
  deposits (ds_db s) = ∅ ∧ ds_read s = [] ∧
  ∀ id, deposit_lines id (balance_ledger (ddb_balances (ds_db s))) = [].

Lemma no_deposits_ok s : no_deposits s → sys_ok s.
Proof.
  intros (Hd & Hl & Hled). split; [|rewrite Hl; set_solver].
  split; intros *; rewrite ?Hd, ?lookup_empty; done.
Qed.

(** C10. A deposit is credited at most once: in every database that the backend's credit,
    overdue and repair calls, the indexers' scans, the confirmation tracker and the non-EVM
    credit (both on rows they read earlier, in any interleaving), restarts, and other
    services that write no deposit lines can reach, each deposit that was applied has
    exactly one ledger line, to its owner, in its currency, for its amount or its amount
    rounded down to 8 places (or none if that rounds to zero), a deposit that was not
    applied has none, and a transaction output is one deposit. *)
Theorem deposit_credited_at_most_once (s s' : deposit_sys) :
  no_deposits s → rtc deposit_step s s' →
  (∀ id dep, deposits (ds_db s') !! id = Some dep →
     credited_once id dep (balance_ledger (ddb_balances (ds_db s')))) ∧
  (∀ i j p q, deposits (ds_db s') !! i = Some p → deposits (ds_db s') !! j = Some q →
     same_deposit_key p q → i = j).
Proof.
  intros H0 Hrun.
  destruct (rtc_invariant deposit_step sys_ok s s' sys_ok_step (no_deposits_ok s H0) Hrun)
    as [[Hl _ _ Hk] _].
  by split.
Qed.
End Runs2.

(** ** A flagged deposit is credited all the same *)
Section Flagged.
Context `{DecimalJs}.

(** The confirmation tracker does not look at the sanctions flag: a pending deposit
    that is flagged, which the backend's own condition excludes, is credited in full by the next run of the tracker that finds it confirmed, and stays flagged. *)
Theorem flagged_deposit_credited (rpc : chain_rpc) (n : Z) (id : string) (dep : deposit)
    (d : deposit_db) :
  balances_wf (ddb_balances d) → deposits d !! id = Some dep →
  dep_is_flagged dep = Some true → dep_applied dep = false → 0 ≤ dep_amount dep →
  symbol_of (dep_currency_id dep) d ≠ None → rpc_receipt rpc (dep_tx_hash dep) = ReceiptOk →
  dep_required_confirmations dep ≤ n - dep_block_number dep →
  creditable dep = false ∧
  let d' := track_item rpc n (id, dep) d in
  (∃ dep', deposits d' !! id = Some dep' ∧ dep_status dep' = DepCompleted ∧
     dep_is_flagged dep' = Some true) ∧
  row_of (deposit_key dep) (ddb_balances d')
    = add_deposit (dep_amount dep) (row_of (deposit_key dep) (ddb_balances d)).
Proof.
  intros Hwf Hid Hfl Hna Hamt Hsym Hrec Hconf. split.
  { unfold creditable. by rewrite Hfl, andb_false_r. }
  cbv zeta. unfold track_item. rewrite (proj2 (Z.leb_le _ _) Hconf).
  set (m := n - dep_block_number dep). set (dep1 := set_confirmations m dep).
  assert (update_confirmations id m d = put_deposits (<[id := dep1]> (deposits d)) d) as ->.
  { unfold update_confirmations, transaction. by rewrite update_deposit_run, Hid. }
  set (d1 := put_deposits _ d).
  assert (transaction (confirm_body id dep) d1 = (Ret true,
    DepositDb (post (deposit_key dep) (add_deposit (dep_amount dep) (row_of (deposit_key dep) (ddb_balances d)))
      [credit_entry id dep (dep_amount dep) (available_balance (row_of (deposit_key dep) (ddb_balances d)))
         (available_balance (row_of (deposit_key dep) (ddb_balances d)) + dep_amount dep)] (ddb_balances d))
      (<[id := set_completed dep1]> (deposits d1)) (dep_currencies d) (contract_currencies d) (wallets d)
      (aml_transaction_logs d) (aml_alerts d) (activity_logs d ++ [(dep_user_id dep, id)]))) as Hrun.
  { unfold transaction, confirm_body. unfold bind at 1. rewrite update_deposit_run.
    assert (deposits d1 !! id = Some dep1) as -> by apply lookup_insert_eq.
    change (not_applied dep1) with (negb (dep_applied dep)). rewrite Hna.
    unfold bind at 1, gets at 1. cbn [negb]. cbv beta iota.
    erewrite (symbol_of_ext (dep_currency_id dep) d); [|reflexivity].
    destruct (symbol_of (dep_currency_id dep) d); [|done].
    unfold bind at 1. rewrite zoom_put_deposits, indexer_credit_run. simpl available_balance.
    pose proof (wf_row_of _ (deposit_key dep) Hwf) as (? & _)%row_nonneg_true.
    rewrite (proj2 (Z.ltb_ge _ _)); [done|]. simpl. lia. }
  unfold confirmDeposit. rewrite Hrec.
  assert ((if String.eqb (dep_tx_hash dep) "" then snd (transaction (confirm_body id dep) d1)
           else snd (transaction (confirm_body id dep) d1))
          = snd (transaction (confirm_body id dep) d1)) as -> by by destruct (String.eqb _ _).
  rewrite Hrun. split.
  - exists (set_completed dep1). split; [apply lookup_insert_eq|done].
  - apply row_of_post.
Qed.
End Flagged.
