(* ===== verification/DepositScan.v ===== *)
(** * What a scan of a block records

    Theorems on [ChainIndexer] ([Indexer]): every transfer of a scanned block to a watched
    address of a user gets a deposit, but one per transaction and address; after a restart
    the poller makes no progress and the first block that arrives over the websocket
    leaves all blocks before it unscanned. *)
From stdpp Require Import base gmap strings list fin_maps pretty.
From Stdlib Require Import ZArith Lia.
From S2P Require Import Prelude Money Balances Escrow DepositModel Indexer Deposits.
Local Open Scope Z_scope.

(** ** Recording *)
Definition transfer_owner (ck : string) (d : deposit_db) (t : transfer) : option wallet :=
  find (λ w, String.eqb (lower (wal_address w)) (tr_toAddress t)
             && String.eqb (wal_chain_id w) ck) (wallets d).

(** A transfer that [recordDeposit] accepts, with its owner and currency. *)
Definition recordable (ck : string) (d : deposit_db) (t : transfer) (w : wallet) (c : string) :
    Prop :=
  0 < tr_raw t ∧ transfer_owner ck d t = Some w ∧ currency_of_transfer t d = Some c ∧
  symbol_of c d ≠ None.

Definition deposit_of (cf now : Z) (t : transfer) (w : wallet) (c : string) : deposit :=
  new_deposit (wal_user_id w) c (wal_chain_id w) (tr_txHash t) (tr_toAddress t) (tr_amount t) 0 cf
    (tr_blockNumber t) now.

(** The tables that a recording leaves. *)
Definition same_settings (d d' : deposit_db) : Prop :=
  wallets d' = wallets d ∧ dep_currencies d' = dep_currencies d ∧
  contract_currencies d' = contract_currencies d.

Lemma owner_chain ck d t w : transfer_owner ck d t = Some w → wal_chain_id w = ck.
Proof. unfold transfer_owner. intros [_ Hw]%find_some. by bool_prop. Qed.

Lemma recordDeposit_known ck cf id now t w c d x :
  recordable ck d t w c → find_deposit ck (tr_txHash t) (tr_toAddress t) d = Some x →
  recordDeposit ck cf id now t d = Ret (tt, d).
Proof.
  intros (Hraw & Hw & Hc & _) Hx. unfold recordDeposit.
  rewrite (proj2 (Z.leb_gt _ _)) by lia. unfold bind at 1, gets at 1.
  fold (transfer_owner ck d t). rewrite Hw. unfold bind at 1, gets at 1. rewrite Hc.
  unfold insert_deposit. simpl. rewrite (owner_chain _ _ _ _ Hw).
  unfold bind, gets. by rewrite Hx.
Qed.

Lemma recordDeposit_new ck cf id now t w c d :
  recordable ck d t w c → find_deposit ck (tr_txHash t) (tr_toAddress t) d = None →
  deposits d !! id = None →
  ∃ d', recordDeposit ck cf id now t d = Ret (tt, d') ∧ same_settings d d' ∧
    deposits d' = <[id := deposit_of cf now t w c]> (deposits d).
Proof.
  intros (Hraw & Hw & Hc & Hsym) Hx Hid. eexists. split.
  - unfold recordDeposit.
    rewrite (proj2 (Z.leb_gt _ _)) by lia. unfold bind at 1, gets at 1.
    fold (transfer_owner ck d t). rewrite Hw. unfold bind at 1, gets at 1. rewrite Hc.
    fold (deposit_of cf now t w c). unfold insert_deposit.
    change (dep_chain_id (deposit_of cf now t w c)) with (wal_chain_id w).
    change (dep_tx_hash (deposit_of cf now t w c)) with (tr_txHash t).
    change (dep_to_address (deposit_of cf now t w c)) with (tr_toAddress t).
    change (dep_currency_id (deposit_of cf now t w c)) with c.
    rewrite (owner_chain _ _ _ _ Hw). unfold bind at 1. unfold bind at 1, gets at 1. rewrite Hx.
    unfold bind at 1, gets at 1. unfold bind at 1. rewrite Hid.
    rewrite require_true by by apply bool_decide_eq_true. unfold bind at 1, gets at 1.
    unfold bind at 1. rewrite require_true by by apply bool_decide_eq_true.
    unfold bind at 1, modify at 1, ret at 1. cbv beta iota.
    unfold updatePendingBalance, bind, gets.
    change (symbol_of c (put_deposits _ d)) with (symbol_of c d).
    destruct (symbol_of c d); [reflexivity|by destruct Hsym].
  - split; [by repeat split|]. reflexivity.
Qed.

(** A call that records nothing leaves the database. *)
Lemma recordDeposit_cases ck cf id now t d :
  deposits d !! id = None →
  let d' := snd (transaction (recordDeposit ck cf id now t) d) in
  same_settings d d' ∧
  (deposits d' = deposits d ∨ ∃ w c, recordable ck d t w c ∧
     find_deposit ck (tr_txHash t) (tr_toAddress t) d = None ∧
     deposits d' = <[id := deposit_of cf now t w c]> (deposits d)).
Proof.
  intros Hid. cbv zeta. unfold transaction.
  destruct (recordDeposit ck cf id now t d) as [[x d']|e] eqn:Hrun;
    [|split; [by repeat split|by left]]. simpl.
  assert (deposits d' = deposits d ∧ d' = d ∨
    ∃ w c, recordable ck d t w c ∧ find_deposit ck (tr_txHash t) (tr_toAddress t) d = None) as Hor.
  { unfold recordDeposit in Hrun. destruct (_ <=? _) eqn:Hraw; bool_prop;
      [injection Hrun as _ <-; by left|].
    unfold bind at 1, gets at 1 in Hrun. fold (transfer_owner ck d t) in Hrun.
    destruct (transfer_owner ck d t) as [w|] eqn:Hw; [|injection Hrun as _ <-; by left].
    unfold bind at 1, gets at 1 in Hrun. destruct (currency_of_transfer t d) as [c|] eqn:Hc;
      [|injection Hrun as _ <-; by left].
    apply bind_Ret_inv in Hrun as (b & d1 & Hins & Hrun). unfold insert_deposit in Hins.
    unfold bind at 1, gets at 1 in Hins. simpl in Hins. rewrite (owner_chain _ _ _ _ Hw) in Hins.
    destruct (find_deposit ck (tr_txHash t) (tr_toAddress t) d) as [y|] eqn:Hx.
    { injection Hins as <- <-. injection Hrun as _ <-. by left. }
    run_all Hins. bool_prop. right. exists w, c. split; [|done]. split; [lia|]. done. }
  destruct Hor as [[? ->]|(w & c & Hrec & Hx)]; [split; [by repeat split|by left]|].
  destruct (recordDeposit_new ck cf id now t w c d Hrec Hx Hid) as (d2 & Hrun2 & Hs & Hd2).
  rewrite Hrun2 in Hrun. injection Hrun as _ <-. split; [done|]. right. eauto.
Qed.

(** ** Recording a list of transfers *)
Definition transfer_key (t : transfer) : string * string := (tr_txHash t, tr_toAddress t).

Lemma same_settings_recordable ck d d' t w c :
  same_settings d d' → recordable ck d t w c → recordable ck d' t w c.
Proof.
  intros (Hw & Hc & Hcc) (? & Hown & Hcur & Hsym).
  unfold recordable, transfer_owner, currency_of_transfer, currency_by_symbol, symbol_of in *.
  by rewrite Hw, Hc, Hcc.
Qed.

Lemma find_deposit_is_None c t a d :
  (∀ id dep, deposits d !! id = Some dep →
     ¬ (dep_chain_id dep = c ∧ dep_tx_hash dep = t ∧ dep_to_address dep = a)) →
  find_deposit c t a d = None.
Proof.
  intros Hall. unfold find_deposit. destruct (find _ _) as [[id dep]|] eqn:E; [|done].
  apply find_some in E as [Hin Hkey]. apply list_elem_of_In, elem_of_map_to_list in Hin.
  unfold same_key in Hkey. simpl in Hkey. bool_prop. by destruct (Hall id dep Hin).
Qed.

Lemma find_deposit_is_Some c t a d id dep :
  deposits d !! id = Some dep → dep_chain_id dep = c → dep_tx_hash dep = t →
  dep_to_address dep = a → find_deposit c t a d ≠ None.
Proof. intros Hid Hc Ht Ha Hn. by apply (find_deposit_None _ _ _ _ _ _ Hn Hid). Qed.

Definition fresh_ids (ids : nat → string) (d : deposit_db) : Prop :=
  (∀ i j, ids i = ids j → i = j) ∧ ∀ i, deposits d !! ids i = None.

(** One recording: at most the row of its own id is new. *)
Lemma record_one ck cf ids now t d :
  fresh_ids ids d →
  let d1 := snd (transaction (recordDeposit ck cf (ids 0%nat) now t) d) in
  same_settings d d1 ∧ fresh_ids (λ i, ids (S i)) d1 ∧
  (∀ id dep, deposits d !! id = Some dep → deposits d1 !! id = Some dep) ∧
  (∀ id dep, deposits d1 !! id = Some dep → deposits d !! id = Some dep ∨
     id = ids 0%nat ∧ ∃ w c, recordable ck d t w c ∧ dep = deposit_of cf now t w c ∧
       find_deposit ck (tr_txHash t) (tr_toAddress t) d = None).
Proof.
  intros [Hinj Hfresh]. cbv zeta.
  destruct (recordDeposit_cases ck cf (ids 0%nat) now t d (Hfresh 0%nat)) as [Hs Hd1].
  set (d1 := snd _) in *. split; [done|].
  destruct Hd1 as [Hd1|(w & c & Hrec & Hx & Hd1)]; rewrite Hd1; unfold fresh_ids; rewrite Hd1.
  - split; [|by split; [|left]]. split; [|done]. intros i j Hij%Hinj. by injection Hij.
  - split; [|split].
    + split; [intros i j Hij%Hinj; by injection Hij|]. intros i.
      rewrite lookup_insert_ne; [done|]. by intros Hij%Hinj.
    + intros id dep Hid. rewrite lookup_insert_ne; [done|]. intros <-. by rewrite Hfresh in Hid.
    + intros id dep. destruct (decide (ids 0%nat = id)) as [<-|Hne].
      * rewrite lookup_insert_eq. intros [= <-]. right. split; [done|]. eauto.
      * rewrite lookup_insert_ne by done. by left.
Qed.

Lemma record_all_keeps ck cf ids now l d id dep :
  fresh_ids ids d → deposits d !! id = Some dep →
  deposits (record_all ck cf ids now l d) !! id = Some dep.
Proof.
  revert ids d. induction l as [|t l IH]; intros ids d Hids Hid; [done|]. cbn [record_all].
  destruct (record_one ck cf ids now t d Hids) as (_ & Hids1 & Hkeep & _). eauto.
Qed.

(** A row of a later id appears only for a later transfer. *)
Lemma record_all_old ck cf ids now l d id :
  fresh_ids ids d → (∀ i, ids i ≠ id) → deposits d !! id = None →
  deposits (record_all ck cf ids now l d) !! id = None.
Proof.
  revert ids d. induction l as [|t l IH]; intros ids d Hids Hne Hid; [done|]. cbn [record_all].
  destruct (record_one ck cf ids now t d Hids) as (_ & Hids1 & _ & Hback).
  apply IH; [done|auto|].
  destruct (deposits (snd _) !! id) as [p|] eqn:E; [|done].
  destruct (Hback id p E) as [?|[-> _]]; [congruence|]. by destruct (Hne 0%nat).
Qed.

Lemma record_all_first ck cf now : ∀ l ids d i t w c,
  fresh_ids ids d → l !! i = Some t → recordable ck d t w c →
  find_deposit ck (tr_txHash t) (tr_toAddress t) d = None →
  (∀ j t', (j < i)%nat → l !! j = Some t' → transfer_key t' ≠ transfer_key t) →
  deposits (record_all ck cf ids now l d) !! ids i = Some (deposit_of cf now t w c).
Proof.
  induction l as [|t0 l IH]; intros ids d i t w c Hids Hi Hrec Hx Hfirst; [done|].
  cbn [record_all]. destruct (record_one ck cf ids now t0 d Hids) as (Hs & Hids1 & _ & Hback).
  destruct i as [|i]; simpl in Hi.
  - injection Hi as ->. apply record_all_keeps; [done|].
    destruct (recordDeposit_new ck cf (ids 0%nat) now t w c d Hrec Hx (proj2 Hids 0%nat))
      as (d' & Hrun & _ & Hd').
    unfold transaction. rewrite Hrun. simpl. rewrite Hd'. apply lookup_insert_eq.
  - apply (IH (λ k, ids (S k))); [done|done|by eapply same_settings_recordable| |].
    + apply find_deposit_is_None. intros id dep Hid (Hch & Htx & Hto).
      destruct (Hback id dep Hid) as [Hold|(-> & w0 & c0 & _ & -> & _)].
      * by apply (find_deposit_None _ _ _ _ _ _ Hx Hold).
      * apply (Hfirst 0%nat t0); [lia|done|]. unfold transfer_key. simpl in Htx, Hto. congruence.
    + intros j t' Hj Ht'. apply (Hfirst (S j)); [lia|done].
Qed.

Lemma record_all_dropped ck cf now : ∀ l ids d j t,
  fresh_ids ids d → l !! j = Some t →
  find_deposit ck (tr_txHash t) (tr_toAddress t) d ≠ None ∨
    (∃ i t' w c, (i < j)%nat ∧ l !! i = Some t' ∧ transfer_key t' = transfer_key t ∧
                 recordable ck d t' w c) →
  deposits (record_all ck cf ids now l d) !! ids j = None.
Proof.
  induction l as [|t0 l IH]; intros ids d j t Hids Hj Hdup; [done|]. cbn [record_all].
  destruct (record_one ck cf ids now t0 d Hids) as (Hs & Hids1 & Hkeep & Hback).
  assert (find_deposit ck (tr_txHash t) (tr_toAddress t) d ≠ None →
    find_deposit ck (tr_txHash t) (tr_toAddress t)
      (snd (transaction (recordDeposit ck cf (ids 0%nat) now t0) d)) ≠ None) as Hmono.
  { intros Hx. destruct (find_deposit _ _ _ d) as [[id dep]|] eqn:E; [|done].
    unfold find_deposit in E. apply find_some in E as [Hin Hkey].
    apply list_elem_of_In, elem_of_map_to_list in Hin. unfold same_key in Hkey. simpl in Hkey.
    bool_prop. eapply find_deposit_is_Some; eauto. }
  destruct j as [|j]; simpl in Hj.
  - injection Hj as ->. apply record_all_old; [done| |].
    { intros i Hi. by apply (proj1 Hids) in Hi. }
    destruct (deposits (snd _) !! ids 0%nat) as [p|] eqn:E; [|done].
    destruct (Hback _ p E) as [Hold|(_ & w & c & _ & _ & Hn)].
    + by rewrite (proj2 Hids) in Hold.
    + destruct Hdup as [?|(i & _ & _ & _ & Hlt & _)]; [done|lia].
  - apply (IH (λ k, ids (S k)) _ j t); [done|done|].
    destruct Hdup as [Hx|([|i] & t' & w & c & Hlt & Hi & Hkey & Hrec)]; [left; by apply Hmono| |].
    + injection Hi as ->. left. unfold transfer_key in Hkey. injection Hkey as Htx Hto.
      rewrite <- Htx, <- Hto in *.
      destruct (find_deposit ck (tr_txHash t') (tr_toAddress t') d) eqn:E; [by apply Hmono|].
      destruct (recordDeposit_new ck cf (ids 0%nat) now t' w c d Hrec E (proj2 Hids 0%nat))
        as (d' & Hrun & _ & Hd').
      unfold transaction. rewrite Hrun. simpl.
      eapply (find_deposit_is_Some _ _ _ d' (ids 0%nat) (deposit_of cf now t' w c));
        [by rewrite Hd', lookup_insert_eq| |done|done].
      destruct Hrec as (_ & Hw & _). apply (owner_chain _ _ _ _ Hw).
    + right. exists i, t', w, c. split; [lia|]. split; [done|]. split; [done|].
      by eapply same_settings_recordable.
Qed.

(** The transfers of a block, as [processBlock] records them. *)
Definition block_transfers (ix : chain_indexer) (node : chain_node) (n : Z)
    (txs : list chain_tx) : list transfer :=
  omap (native_transfer ix n) txs
  ++ snd (token_transfers (watchedAddresses ix) node n (tokenContracts ix)
            (default [] (node_logs node n))).

(** A scan of a block records every transfer to a watched address of a user, but one
    per transaction and address: when a block after the last one is fetched, the first
    transfer with its transaction and recipient becomes a pending deposit of the recipient's
    owner with its amount, and every further transfer of that transaction to that address is
    dropped. The scan then counts as the last block, in memory and in the saved state. *)
Theorem block_deposits_recorded (node : chain_node) (ids : nat → string) (now n : Z)
    (ix : chain_indexer) (d : deposit_db) (txs : list chain_tx) (i : nat) (t : transfer)
    (w : wallet) (c : string) :
  let ck := cc_key (ci_config ix) in
  let l := block_transfers ix node n txs in
  block_value (lastProcessedBlock ix) < n → node_block node n = Some txs → fresh_ids ids d →
  l !! i = Some t → recordable ck d t w c →
  find_deposit ck (tr_txHash t) (tr_toAddress t) d = None →
  (∀ j t', (j < i)%nat → l !! j = Some t' → transfer_key t' ≠ transfer_key t) →
  let '(ix', d') := processBlock node ids now (BNum n) (ix, d) in
  deposits d' !! ids i = Some (deposit_of (cc_confirmations (ci_config ix)) now t w c) ∧
  (∀ j t', (i < j)%nat → l !! j = Some t' → transfer_key t' = transfer_key t →
     deposits d' !! ids j = None) ∧
  lastProcessedBlock ix' = BNum n ∧ (savedBlock ix ≠ None → savedBlock ix' = Some n).
Proof.
  intros ck l Hn Hb Hids Hi Hrec Hx Hfirst. unfold processBlock.
  assert (block_le (BNum n) (lastProcessedBlock ix) = false) as ->.
  { unfold block_le. destruct (lastProcessedBlock ix); apply Z.leb_gt; exact Hn. }
  unfold getBlock. rewrite Hb. subst ck l. unfold block_transfers in *.
  change (block_value (BNum n)) with n.
  destruct (token_transfers _ _ _ _ _) as [toks ts]. cbn [snd] in *.
  split; [by apply record_all_first|]. split.
  - intros j t' Hj Ht' Hkey. eapply record_all_dropped; [done|done|]. right.
    by exists i, t, w, c.
  - split; [done|]. simpl. by destruct (savedBlock ix).
Qed.

(** ** After a restart *)
Lemma processBlock_text node ids now m ix d :
  processBlock node ids now (BText m) (ix, d) = (ix, d).
Proof. unfold processBlock. by destruct (block_le _ _). Qed.

Lemma catch_up_text node ids now target fuel : ∀ ix d s,
  lastProcessedBlock ix = BText s → catch_up fuel node ids now target (ix, d) = (ix, d).
Proof.
  induction fuel as [|f IH]; intros ix d s Hl; [done|]. cbn [catch_up].
  destruct (_ <? target); [|done]. simpl fst. rewrite Hl. simpl block_next.
  rewrite processBlock_text. by apply (IH ix d s).
Qed.

Lemma poll_tick_text node ids now ix d s :
  lastProcessedBlock ix = BText s →
  ∃ ix', poll_tick node ids now (ix, d) = (ix', d) ∧ lastProcessedBlock ix' = BText s ∧
    watchedAddresses ix' = watchedAddresses ix ∧ ci_config ix' = ci_config ix.
Proof.
  intros Hl. unfold poll_tick. destruct (node_head node) as [h|]; [|by exists ix].
  eexists. rewrite (catch_up_text _ _ _ _ _ _ _ s) by done. by repeat split.
Qed.

Lemma poll_ticks_text ids now nodes : ∀ ix d s,
  lastProcessedBlock ix = BText s →
  ∃ ix', foldl (λ st node, poll_tick node ids now st) (ix, d) nodes = (ix', d) ∧
    lastProcessedBlock ix' = BText s.
Proof.
  induction nodes as [|node nodes IH]; intros ix d s Hl; [by exists ix|].
  destruct (poll_tick_text node ids now ix d s Hl) as (ix' & Hrun & Hl' & _).
  simpl. rewrite Hrun. by apply IH.
Qed.

(** After a restart no block before the first websocket block is ever scanned: the
    saved block number comes back as text, so that whatever the chain node answers, the
    poller scans nothing ([+ 1] appends a digit, and the node refuses the text); when the
    websocket then delivers a block [m], that becomes the last block, and the blocks
    between the saved one and [m] are skipped by every later call. *)
Theorem restart_skips_blocks (ix ix0 : chain_indexer) (s m : Z) (nodes : list chain_node)
    (node0 node : chain_node) (ids : nat → nat → string) (wids : nat → string) (now : Z)
    (d : deposit_db) (txs : list chain_tx) :
  savedBlock ix = Some s → loadLastProcessedBlock node0 ix = Some ix0 →
  s < m → node_block node m = Some txs →
  let '(ix1, d1) := foldl (λ st n, poll_tick n ids now st) (ix0, d) nodes in
  let '(ix2, d2) := processBlock node wids now (BNum m) (ix1, d1) in
  d1 = d ∧ lastProcessedBlock ix2 = BNum m ∧
  ∀ k node' ids' now', k ≤ m →
    processBlock node' ids' now' (BNum k) (ix2, d2) = (ix2, d2).
Proof.
  intros Hs Hload Hm Hb. unfold loadLastProcessedBlock in Hload. rewrite Hs in Hload.
  injection Hload as <-.
  destruct (poll_ticks_text ids now nodes (set_blocks ix (tokenContracts ix) (BText s) (Some s)) d s
    eq_refl) as (ix1 & -> & Hl1).
  unfold processBlock at 1. rewrite Hl1. simpl block_le. rewrite (proj2 (Z.leb_gt _ _)) by done.
  simpl getBlock. rewrite Hb. destruct (token_transfers _ _ _ _ _) as [toks ts].
  split; [done|]. split; [done|]. intros k node' ids' now' Hk. unfold processBlock. simpl.
  by rewrite (proj2 (Z.leb_le _ _)).
Qed.
