(* ===== verification/DepositsDemo.v ===== *)
(** * Deposits at a concrete database

    A chain with one user's wallet, a deposit that is scanned, confirmed and credited, one
    that the screening flags, and a restart of the indexer: the theorems of [Deposits] and
    [DepositScan] applied to them. *)
From stdpp Require Import base gmap strings list fin_maps pretty.
From Stdlib Require Import ZArith Lia.
From S2P Require Import Prelude Money Balances Escrow DepositModel Indexer Deposits DepositScan.
Local Open Scope Z_scope.

Definition demo_wallet : wallet := Wallet "w1" "alice" "0xA11CE" "ethereum".
Definition demo_empty : deposit_db :=
  DepositDb empty_balances ∅ [Currency "cur-eth" "ETH"] [] [demo_wallet] [] [] [].

Definition demo_config : chain_config := ChainConfig "ethereum" "ETH" 18 25.
Definition demo_indexer : chain_indexer :=
  ChainIndexer demo_config ["0xa11ce"] [] (BNum 100) (Some 100).
(** Two transfers to the wallet, the second one twice in one transaction. *)
Definition demo_block : list chain_tx :=
  [ChainTx "0xt1" (Some "0xA11CE") (15 * 10 ^ 17);
   ChainTx "0xt2" (Some "0xa11ce") (2 * 10 ^ 18);
   ChainTx "0xt2" (Some "0xa11ce") (3 * 10 ^ 18)].
Definition demo_node : chain_node :=
  ChainNode (Some 140) (λ n, if n =? 101 then Some demo_block else Some []) (λ _, Some [])
    (λ _, true) (λ _, None).
Definition demo_ids (i : nat) : string := String.append "dep-" (pretty (N.of_nat i)).

Lemma demo_ids_fresh : fresh_ids demo_ids demo_empty.
Proof.
  split; [|done]. unfold demo_ids. intros i j Hij.
  apply (inj (String.append "dep-")) in Hij. apply (inj pretty) in Hij. lia.
Qed.

Definition demo_transfer : transfer :=
  Transfer "0xt2" "0xa11ce" None "ETH" (2 * 10 ^ 18) 18 101.

Lemma block_deposits_recorded_witness :
  let '(ix', d') := processBlock demo_node demo_ids 7 (BNum 101) (demo_indexer, demo_empty) in
  (dep_amount <$> deposits d' !! "dep-1", is_Some (deposits d' !! "dep-2"),
   lastProcessedBlock ix') = (Some (dec 2 0), is_Some (@None deposit), BNum 101).
Proof.
  pose proof (block_deposits_recorded demo_node demo_ids 7 101 demo_indexer demo_empty demo_block 1
    demo_transfer demo_wallet "cur-eth" eq_refl eq_refl demo_ids_fresh eq_refl) as Hrec.
  destruct (processBlock _ _ _ _ _) as [ix' d'].
  destruct Hrec as (H1 & H2 & H3 & _).
  - split; [reflexivity|]. split; [reflexivity|]. split; [reflexivity|]. discriminate.
  - reflexivity.
  - intros [|[|j]] t' Hj Ht'; [|lia..]. injection Ht' as <-. discriminate.
  - change "dep-1" with (demo_ids 1). change "dep-2" with (demo_ids 2). rewrite H1, H3.
    erewrite (H2 2%nat); [|lia|reflexivity|reflexivity]. vm_compute. reflexivity.
Defined.

(** The wallet's user deposits in block 102, which the websocket skips. *)
Lemma restart_skips_blocks_witness :
  let ix := set_blocks demo_indexer [] (BNum 100) (Some 100) in
  ∃ ix0, loadLastProcessedBlock demo_node ix = Some ix0 ∧
  let '(ix1, d1) := foldl (λ st n, poll_tick n (λ _, demo_ids) 7 st) (ix0, demo_empty)
                      [demo_node; demo_node] in
  let '(ix2, d2) := processBlock demo_node demo_ids 7 (BNum 139) (ix1, d1) in
  d1 = demo_empty ∧ processBlock demo_node demo_ids 8 (BNum 101) (ix2, d2) = (ix2, d2).
Proof.
  intros ix. eexists. split; [reflexivity|].
  pose proof (restart_skips_blocks ix _ 100 139 [demo_node; demo_node] demo_node demo_node
    (λ _, demo_ids) demo_ids 7 demo_empty [] eq_refl eq_refl eq_refl eq_refl) as Hskip.
  destruct (foldl _ _ _) as [ix1 d1]. destruct (processBlock _ _ _ _ _) as [ix2 d2].
  destruct Hskip as (Hd & _ & Hk). split; [done|]. by apply Hk.
Defined.

(** ** Credits *)
Definition demo_deposit (flagged : option bool) : deposit :=
  Deposit "alice" "cur-eth" "ethereum" "0xt2" "0xa11ce" (dec 123456789123 11) 30 25 101 DepPending
    false false flagged None 7.
Definition demo_db (flagged : option bool) : deposit_db :=
  put_deposits {["dep-1" := demo_deposit flagged]} demo_empty.
Definition running_flags : pause_reads := PauseReads (Some [Some true]) (Some []).
Definition demo_world (allowed : bool) : sanctions_world :=
  SanctionsWorld true (SanctionsConfig "trm" "https://api" "key") None
    (λ _, Some (ProviderReply true (Some allowed) None)).

Lemma deposit_demo_wf flagged : balances_wf (ddb_balances (demo_db flagged)).
Proof.
  intros k r Hk. change (user_balances (ddb_balances (demo_db flagged)) !! k)
    with ((∅ : gmap bal_key user_balance) !! k) in Hk. by rewrite lookup_empty in Hk.
Qed.

(** The deposit completed by an older version of the indexer, which did not apply it. *)
Definition demo_completed : deposit_db :=
  put_deposits {["dep-1" := set_deposit_state (demo_deposit None) DepCompleted true false]} demo_empty.

Lemma repair_credits_exactly_witness :
  (∃ res d', @applyBalanceForOneCompletedDeposit decimal_36 running_flags "dep-1" demo_completed
    = (Ret res, d') ∧ cr_credited res = true ∧
    ∃ dep, applied_exactly "dep-1" dep demo_completed d' ∧ rounded dep = dec 123456789 8) ∧
  ∀ i dep, deposits (@repair_funding decimal_36 (λ _, running_flags) "alice" demo_completed) !! i = Some dep →
    dep_user_id dep = "alice" →
    symbol_of (dep_currency_id dep)
      (@repair_funding decimal_36 (λ _, running_flags) "alice" demo_completed) ≠ None →
    unapplied dep = false.
Proof.
  destruct (@repair_credits_exactly decimal_36 (λ _, running_flags) "dep-1" "alice" demo_completed
    (deposit_demo_wf None)) as [(res & d' & Hrun & Hres) Hall].
  split; [|apply Hall; intros; reflexivity].
  assert (cr_credited res = true) as Hc.
  { assert (match fst (@applyBalanceForOneCompletedDeposit decimal_36 running_flags "dep-1"
      demo_completed) with Ret r => cr_credited r | Throw _ => false end = true) as Ht
      by (vm_compute; reflexivity).
    by rewrite Hrun in Ht. }
  rewrite Hc in Hres. destruct Hres as (_ & dep & Hex).
  exists res, d'. split; [done|]. split; [done|]. exists dep. split; [done|].
  destruct Hex as (Hid & _). unfold demo_completed in Hid. simpl in Hid.
  rewrite lookup_singleton_eq in Hid. injection Hid as <-. vm_compute. reflexivity.
Defined.

(** The pending deposit is credited by no call of the backend. *)
Example overdue_deposit_stays :
  @creditOverdueDepositsForUser decimal_36 running_flags (λ _, running_flags) (demo_world true)
    "alice" (demo_db None) = (Throw nullable_lock_error, demo_db None).
Proof. vm_compute. reflexivity. Qed.

Definition demo_rpc : chain_rpc := ChainRpc (Some 140) (λ _, ReceiptOk).

Lemma flagged_deposit_credited_witness :
  let d := snd (transaction (@credit_selected decimal_36 (demo_world false) "dep-1" (demo_deposit None))
                  (demo_db None)) in
  dep_is_flagged <$> deposits d !! "dep-1" = Some (Some true) ∧
  ∃ dep, deposits d !! "dep-1" = Some dep ∧
  available_balance (row_of (deposit_key dep) (ddb_balances (track_item demo_rpc 140 ("dep-1", dep) d)))
    = dec 123456789123 11.
Proof.
  cbv zeta. split; [vm_compute; reflexivity|].
  exists (set_flagged "Sanctions check failed" (demo_deposit None)).
  set (d := snd _).
  assert (deposits d !! "dep-1" = Some (set_flagged "Sanctions check failed" (demo_deposit None)))
    as Hid by (vm_compute; reflexivity).
  split; [exact Hid|].
  destruct (flagged_deposit_credited demo_rpc 140 "dep-1"
    (set_flagged "Sanctions check failed" (demo_deposit None)) d) as [_ [_ Hrow]].
  - assert (ddb_balances d = empty_balances) as -> by (vm_compute; reflexivity). apply (deposit_demo_wf None).
  - exact Hid.
  - reflexivity.
  - reflexivity.
  - vm_compute. discriminate.
  - vm_compute. discriminate.
  - reflexivity.
  - vm_compute. discriminate.
  - rewrite Hrow. vm_compute. reflexivity.
Defined.

(** The deposit of block 101 is scanned, read, confirmed by the tracker, and then offered to
    the backend again. *)
Definition demo_scanned : deposit_db :=
  snd (processBlock demo_node demo_ids 7 (BNum 101) (demo_indexer, demo_empty)).
Definition demo_row : string * deposit :=
  ("dep-0", deposit_of 25 7 (Transfer "0xt1" "0xa11ce" None "ETH" (15 * 10 ^ 17) 18 101)
              demo_wallet "cur-eth").
Definition demo_tracked : deposit_db := track_item demo_rpc 140 demo_row demo_scanned.
Definition demo_final : deposit_db :=
  snd (@creditDepositIfConfirmed decimal_36 running_flags (demo_world true) "dep-0" demo_tracked).

Lemma demo_row_read : demo_row ∈ pending_rows demo_scanned.
Proof.
  assert (pending_rows demo_scanned !! 1%nat = Some demo_row) as Hrow
    by (vm_compute; reflexivity).
  by eapply list_elem_of_lookup_2.
Qed.

Lemma deposit_credited_at_most_once_witness :
  ∃ dep e, deposits demo_final !! "dep-0" = Some dep ∧ dep_applied dep = true ∧
    deposit_lines "dep-0" (balance_ledger (ddb_balances demo_final)) = [e] ∧
    le_credit e = dec 15 1.
Proof.
  destruct (@deposit_credited_at_most_once decimal_36 (DepositSys demo_empty [])
    (DepositSys demo_final ([] ++ pending_rows demo_scanned))) as [Hone _].
  - split; [reflexivity|]. split; [reflexivity|]. intros id. reflexivity.
  - eapply rtc_l; [apply (st_scan demo_node demo_ids 7 (BNum 101) demo_indexer)|].
    eapply rtc_l; [apply st_read_pending|].
    eapply rtc_l; [apply (st_track demo_rpc 140 demo_row), demo_row_read|].
    eapply rtc_l; [apply (st_credit running_flags (demo_world true) "dep-0")|]. apply rtc_refl.
  - destruct (deposits demo_final !! "dep-0") as [dep|] eqn:Hid.
    2: { exfalso. assert (bool_decide (is_Some (deposits demo_final !! "dep-0")) = true) as Ht
           by (vm_compute; reflexivity). rewrite Hid in Ht. discriminate. }
    assert (dep_applied <$> deposits demo_final !! "dep-0" = Some true) as Hap
      by (vm_compute; reflexivity).
    rewrite Hid in Hap. injection Hap as Hap.
    assert (le_credit <$> deposit_lines "dep-0" (balance_ledger (ddb_balances demo_final))
            = [dec 15 1]) as Hl by (vm_compute; reflexivity).
    pose proof (Hone "dep-0" dep Hid) as Hc. unfold credited_once in Hc. rewrite Hap in Hc.
    simpl ds_db in Hc. destruct Hc as [(e & He & _)|[He _]]; rewrite He in Hl.
    + exists dep, e. injection Hl as Hl. exact (conj eq_refl (conj Hap (conj He Hl))).
    + exact (False_ind _ (O_S 0 (f_equal (@length Z) Hl))).
Defined.
