(* ===== verification/TronModel.v ===== *)
(** * The Tron indexer

    [apps/indexer/src/services/TronIndexer.ts]: the base58 codec of Tron addresses, the two
    listings of an address (TRC-20 and native transfers), and the tick that records deposits
    and credits those that are deep enough ([Indexer.recordOrUpdateDeposit],
    [Indexer.creditReadyDepositsForChain]). A byte is a [Z] in [0, 256). SHA-256 and what
    TronGrid answers are arguments; a reply is an error, nothing (404 or 429) or an answer. *)
From stdpp Require Import base gmap strings list pretty.
From Stdlib Require Import ZArith Lia Ascii.
From S2P Require Import Prelude Money Balances Escrow DepositModel Indexer.
Local Open Scope Z_scope.

(** ** Base 58 *)
Definition BASE58_ALPHABET : string :=
  "123456789ABCDEFGHJKLMNPQRSTUVWXYZabcdefghijkmnopqrstuvwxyz".

(** [s.indexOf(c)], [None] for -1 *)
Fixpoint indexOf (c : ascii) (s : string) : option Z :=
  match s with
  | EmptyString => None
  | String a s' => if Ascii.eqb a c then Some 0 else Z.succ <$> indexOf c s'
  end.
(** [s[i]] *)
Definition char_at (i : Z) (s : string) : string :=
  match String.get (Z.to_nat i) s with Some a => String a "" | None => "undefined" end.

(** The [while (carry > 0)] loops, which push the digits of the carry. The numbers stay
    below 2^31, where JavaScript's bit operations are those of [Z]. *)
Fixpoint push_bytes (fuel : nat) (carry : Z) : list Z :=
  match fuel with
  | O => []
  | S f => if 0 <? carry then Z.land carry 255 :: push_bytes f (Z.shiftr carry 8) else []
  end.
Fixpoint push_digits (fuel : nat) (carry : Z) : list Z :=
  match fuel with
  | O => []
  | S f => if 0 <? carry then carry mod 58 :: push_digits f (carry / 58) else []
  end.
(** Enough for a carry below 58^4. *)
Definition CARRY_FUEL : nat := 4.

(** The inner loop of [base58Decode]: the bytes, least significant first, times 58 plus the
    carry. *)
Fixpoint times_58 (bytes : list Z) (carry : Z) : list Z :=
  match bytes with
  | [] => push_bytes CARRY_FUEL carry
  | b :: bytes' =>
      let c := carry + b * 58 in Z.land c 255 :: times_58 bytes' (Z.shiftr c 8)
  end.
(** The inner loop of [base58Encode]: the digits times 256 plus the carry. *)
Fixpoint times_256 (digits : list Z) (carry : Z) : list Z :=
  match digits with
  | [] => push_digits CARRY_FUEL carry
  | d :: digits' =>
      let c := carry + Z.shiftl d 8 in c mod 58 :: times_256 digits' (c / 58)
  end.

Fixpoint decode_digits (s : string) (bytes : list Z) : option (list Z) :=
  match s with
  | EmptyString => Some bytes
  | String ch s' => idx ← indexOf ch BASE58_ALPHABET; decode_digits s' (times_58 bytes idx)
  end.
Fixpoint leading_ones (s : string) : nat :=
  match s with String "1" s' => S (leading_ones s') | _ => O end.
Definition base58Decode (str : string) : option (list Z) :=
  bytes ← decode_digits str [0];
  Some (reverse (bytes ++ replicate (leading_ones str) 0)).

Fixpoint leading_zeros (bytes : list Z) : nat :=
  match bytes with b :: bytes' => if b =? 0 then S (leading_zeros bytes') else O | [] => O end.
Definition encode_bytes (bytes digits : list Z) : list Z :=
  foldl (λ digits b, times_256 digits b) digits bytes.
Definition base58Encode (bytes : list Z) : string :=
  let zeros := leading_zeros bytes in
  let digits := encode_bytes (drop zeros bytes) [0] in
  String.concat "" (replicate zeros "1" ++ ((λ d, char_at d BASE58_ALPHABET) <$> reverse digits)).

(** ** Hexadecimal: [Buffer.toString('hex')] and [Buffer.from(s, 'hex')], which stops at the
    first two characters that are not digits *)
Definition HEX_DIGITS : string := "0123456789abcdef".
Definition hex_value (a : ascii) : option Z := indexOf (lower_ascii a) HEX_DIGITS.
Definition to_hex (bytes : list Z) : string :=
  String.concat "" ((λ b, char_at (b / 16) HEX_DIGITS +:+ char_at (b mod 16) HEX_DIGITS) <$> bytes).
Fixpoint from_hex (s : string) : list Z :=
  match s with
  | String a (String b s') =>
      match hex_value a, hex_value b with
      | Some x, Some y => 16 * x + y :: from_hex s'
      | _, _ => []
      end
  | _ => []
  end.

(** [addr] is a wallet's address; the checksum is not verified. *)
Definition base58ToHex (addr : string) : option string :=
  decoded ← base58Decode addr;
  if (length decoded <? 25)%nat then None
  else Some (to_hex (take (length decoded - 4) decoded)).

Definition strip_0x (hex : string) : string :=
  match hex with String "0" (String "x" s) => s | _ => hex end.
Definition hexToBase58 (sha256 : list Z → list Z) (hex : string) : option string :=
  let payload := from_hex (strip_0x hex) in
  if (length payload =? 21)%nat
  then Some (base58Encode (payload ++ take 4 (sha256 (sha256 payload))))
  else None.

(** ** Amounts *)

(** [s.padStart(n, '0')] *)
Definition padStart0 (n : nat) (s : string) : string :=
  String.concat "" (replicate (n - String.length s) "0") +:+ s.
(** [raw] units of [10^-decimals], as a text *)
Definition formatBaseUnits (raw decimals : Z) : string :=
  let v := Z.abs raw in
  let divisor := 10 ^ decimals in
  (if raw <? 0 then "-" else "") +:+ pretty (v / divisor) +:+ "."
    +:+ padStart0 (Z.to_nat decimals) (pretty (v mod divisor)).

(** The number a text of digits with at most one point stands for, in units of [10^-36]:
    [Number] and the database read it alike. *)
Fixpoint read_digits (s : string) (acc : Z) : option Z :=
  match s with
  | EmptyString => Some acc
  | String a s' => d ← indexOf a "0123456789"; read_digits s' (10 * acc + d)
  end.
Fixpoint split_point (s : string) : string * string :=
  match s with
  | EmptyString => ("", "")
  | String "." s' => ("", s')
  | String a s' => let '(w, f) := split_point s' in (String a w, f)
  end.
Definition split_sign (s : string) : Z * string :=
  match s with String "-" s' => (-1, s') | _ => (1, s) end.
Definition numeric (s : string) : option Z :=
  let '(sign, s') := split_sign s in
  let '(whole, frac) := split_point s' in
  w ← read_digits whole 0;
  f ← read_digits frac 0;
  Some (sign * (w * 10 ^ SCALE + f * 10 ^ (SCALE - Z.of_nat (String.length frac)))).

(** ** What TronGrid answers *)
Inductive grid_reply (A : Type) := Fails | Nothing | Answer (a : A).
Arguments Fails {A}. Arguments Nothing {A}. Arguments Answer {A} a.

Record trc20_transfer := Trc20Transfer {
  tt_transaction_id : string;
  tt_to : string;
  (** [None] when [BigInt] throws on it *)
  tt_value : option Z;
  tt_token : option string;
}.
(** The first contract of a transaction, if there is one: its type, and its value's
    recipient and amount. *)
Record tron_contract := TronContract {
  tc_type : string;
  tc_to_address : option string;
  tc_amount : option Z;
}.
Record native_tx := NativeTx {
  nt_txID : string;
  nt_contract : option tron_contract;
  nt_contractRet : option string;
}.
Record tron_grid := TronGrid {
  (** [wallet/getnowblock]: the number of the block, if the answer has one *)
  tg_tip : grid_reply (option Z);
  tg_trc20 : string → grid_reply (list trc20_transfer);
  tg_native : string → grid_reply (list native_tx);
  (** [wallet/gettransactioninfobyid]: the block of a transaction, 0 if it has none *)
  tg_block : string → grid_reply Z;
}.

(** ** The indexer *)
Record trc20_currency := Trc20Currency { tk_currencyId : string; tk_decimals : Z }.
Record tron_indexer := TronIndexer {
  ti_watched : list string;
  ti_trxCurrencyId : option string;
  (** contract, case-sensitive *)
  ti_trc20 : gmap string trc20_currency;
  ti_required : Z;
  ti_lastTipBlock : Z;
  ti_tickCounter : Z;
  ti_running : bool;
}.
Definition CHAIN_ID_TRON : string := "tron".
Definition DEFAULT_REQUIRED_CONFIRMATIONS : Z := 20.

Definition set_config (ix : tron_indexer) (trx : option string)
    (toks : gmap string trc20_currency) (required : Z) : tron_indexer :=
  TronIndexer (ti_watched ix) trx toks required (ti_lastTipBlock ix) (ti_tickCounter ix)
    (ti_running ix).
Definition set_watched (ix : tron_indexer) (l : list string) : tron_indexer :=
  TronIndexer l (ti_trxCurrencyId ix) (ti_trc20 ix) (ti_required ix) (ti_lastTipBlock ix)
    (ti_tickCounter ix) (ti_running ix).
Definition set_tick (ix : tron_indexer) (tip counter : Z) : tron_indexer :=
  TronIndexer (ti_watched ix) (ti_trxCurrencyId ix) (ti_trc20 ix) (ti_required ix) tip counter
    (ti_running ix).

(** What the queries of [loadConfig] and [loadWatched] return, [None] when one throws. *)
Record tron_tables := TronTables {
  (** [required_confirmations] of the row of [blockchains], if there is a row *)
  tq_confirmations : option (option (option Z));
  tq_blockchain : option (option string);
  tq_trx : option (option string);
  (** id, contract and decimals *)
  tq_tokens : option (list (string * (string * Z)));
  tq_wallets : option (list string);
}.

(** [n || d] *)
Definition or_default (n d : Z) : Z := if n =? 0 then d else n.

Definition token_table (rows : list (string * (string * Z))) : gmap string trc20_currency :=
  foldl (λ m r, <[fst (snd r) := Trc20Currency (fst r) (or_default (snd (snd r)) 6)]> m) ∅ rows.

(** [loadConfig]: a throw keeps what was set before it. *)
Definition loadConfig (q : tron_tables) (ix : tron_indexer) : tron_indexer :=
  match tq_confirmations q with
  | None => ix
  | Some row =>
      let required := match row with
                      | Some (Some n) => if n =? 0 then ti_required ix else n
                      | _ => ti_required ix
                      end in
      let ix1 := set_config ix (ti_trxCurrencyId ix) (ti_trc20 ix) required in
      match tq_blockchain q with
      | Some (Some _) =>
          match tq_trx q with
          | None => ix1
          | Some trx =>
              let ix2 := set_config ix1 trx (ti_trc20 ix) required in
              match tq_tokens q with
              | None => ix2
              | Some rows => set_config ix2 trx (token_table rows) required
              end
          end
      | _ => ix1
      end
  end.

Definition loadWatched (q : tron_tables) (ix : tron_indexer) : tron_indexer :=
  match tq_wallets q with
  | None => ix
  | Some l => set_watched ix (dedup_by id [] l)
  end.

Definition addWatchedAddress (address : string) (ix : tron_indexer) : tron_indexer :=
  if bool_decide (address ∈ ti_watched ix) then ix
  else set_watched ix (ti_watched ix ++ [address]).

(** ** Processing a listing *)

(** [fetchTxConfirmations]: the depth of a transaction, [None] if it is not known. *)
Definition fetchTxConfirmations (grid : tron_grid) (tipBlock : Z) (txHash : string) : option Z :=
  match tg_block grid txHash with
  | Answer n => if (n =? 0) || (tipBlock =? 0) then None else Some (Z.max 0 (tipBlock - n))
  | _ => None
  end.


Definition tron_input (grid : tron_grid) (ix : tron_indexer) (address txHash currencyId : string)
    (amount : Z) : non_evm_input :=
  NonEvmInput CHAIN_ID_TRON txHash address currencyId amount
    (Z.max 1 (default 1 (fetchTxConfirmations grid (ti_lastTipBlock ix) txHash)))
    (ti_required ix) 0.

(** What a transfer of the listing comes to: skipped, a throw, or a deposit. *)
Inductive item := Skip | ItemThrows | Found (input : non_evm_input).

Definition trc20_item (grid : tron_grid) (ix : tron_indexer) (address : string)
    (t : trc20_transfer) : item :=
  match contract ← tt_token t; if String.eqb contract "" then None else ti_trc20 ix !! contract with
  | None => Skip
  | Some tokenInfo =>
      if negb (String.eqb (tt_to t) address) then Skip
      else match tt_value t with
           | None => ItemThrows
           | Some raw =>
               if tk_decimals tokenInfo <? 0 then ItemThrows
               else
                 let amount := default 0 (numeric (formatBaseUnits raw (tk_decimals tokenInfo))) in
                 if amount <=? 0 then Skip
                 else Found (tron_input grid ix address (tt_transaction_id t)
                                  (tk_currencyId tokenInfo) amount)
           end
  end.

(** [ret && ret !== 'SUCCESS'] *)
Definition contract_failed (ret : option string) : bool :=
  match ret with
  | Some r => negb (String.eqb r "") && negb (String.eqb r "SUCCESS")
  | None => false
  end.
Definition trx_item (grid : tron_grid) (ix : tron_indexer) (address addressHex currencyId : string)
    (tx : native_tx) : item :=
  match nt_contract tx with
  | None => Skip
  | Some contract =>
      if negb (String.eqb (tc_type contract) "TransferContract") then Skip
      else match tc_to_address contract, tc_amount contract with
           | Some to, Some v =>
               if negb (String.eqb (lower to) (lower addressHex)) then Skip
               else if v <=? 0 then Skip
               else if contract_failed (nt_contractRet tx) then Skip
               else
                 let amount := default 0 (numeric (formatBaseUnits v 6)) in
                 if amount <=? 0 then Skip
                 else Found (tron_input grid ix address (nt_txID tx) currencyId amount)
           | _, _ => Skip
           end
  end.

(** The loops over a listing. A throw stops the loop; what was recorded before stays.
    [recordOrUpdateDeposit] catches its own errors. *)
Fixpoint process_items (items : list item) (ids : nat → string) (now : Z) (d : deposit_db) :
    bool * deposit_db :=
  match items with
  | [] => (true, d)
  | Skip :: items' => process_items items' (λ i, ids (S i)) now d
  | ItemThrows :: _ => (false, d)
  | Found input :: items' =>
      process_items items' (λ i, ids (S i)) now
        (snd (transaction (recordOrUpdateDeposit (ids 0%nat) now input) d))
  end.

Definition processTrc20Transfers (grid : tron_grid) (ix : tron_indexer) (ids : nat → string)
    (now : Z) (address : string) (d : deposit_db) : bool * deposit_db :=
  match tg_trc20 grid address with
  | Fails => (false, d)
  | Nothing => (true, d)
  | Answer l => process_items (trc20_item grid ix address <$> l) ids now d
  end.

Definition processTrxTransfers (grid : tron_grid) (ix : tron_indexer) (ids : nat → string)
    (now : Z) (address : string) (d : deposit_db) : bool * deposit_db :=
  match ti_trxCurrencyId ix with
  | None => (true, d)
  | Some currencyId =>
      match tg_native grid address with
      | Fails => (false, d)
      | Nothing => (true, d)
      | Answer l =>
          match base58ToHex address with
          | None => (true, d)
          | Some addressHex =>
              process_items (trx_item grid ix address addressHex currencyId <$> l) ids now d
          end
      end
  end.

(** ** [tick] *)

(** The two listings of an address; a throw of the first skips the second. *)
Definition process_address (grid : tron_grid) (ix : tron_indexer) (ids : nat → nat → string)
    (now : Z) (address : string) (d : deposit_db) : deposit_db :=
  let '(ok, d1) := if bool_decide (ti_trc20 ix = ∅) then (true, d)
                   else processTrc20Transfers grid ix (ids 0%nat) now address d in
  if ok then snd (processTrxTransfers grid ix (ids 1%nat) now address d1) else d1.

Fixpoint process_addresses (grid : tron_grid) (ix : tron_indexer)
    (ids : nat → nat → nat → string) (now : Z) (addresses : list string) (d : deposit_db) :
    deposit_db :=
  match addresses with
  | [] => d
  | a :: addresses' =>
      process_addresses grid ix (λ i, ids (S i)) now addresses'
        (process_address grid ix (ids 0%nat) now a d)
  end.

(** The tip of this tick and [lastTipBlock] after it. *)
Definition tick_tip (grid : tron_grid) (ix : tron_indexer) : Z * Z :=
  match tg_tip grid with
  | Fails => (0, ti_lastTipBlock ix)
  | Nothing | Answer None => (0, 0)
  | Answer (Some n) => (n, n)
  end.

(** A tick that no [stop] interrupts; the number is that of the deposits it credited. The
    two loads run concurrently, and set different fields. *)
Definition tick (grid : tron_grid) (q : tron_tables) (ids : nat → nat → nat → string) (now : Z)
    (ix : tron_indexer) (d : deposit_db) : Z * (tron_indexer * deposit_db) :=
  if negb (ti_running ix) then (0, (ix, d))
  else
    let counter := (ti_tickCounter ix + 1) mod 5 in
    let ix1 := if counter =? 0 then loadConfig q (loadWatched q ix) else ix in
    let '(tipBlock, lastTip) := tick_tip grid ix1 in
    let ix2 := set_tick ix1 lastTip counter in
    match ti_watched ix2 with
    | [] => (0, (ix2, d))
    | addresses =>
        let d1 := process_addresses grid ix2 ids now addresses d in
        let '(credited, d2) :=
          creditReadyDepositsForChain CHAIN_ID_TRON
            (λ txHash _, fetchTxConfirmations grid tipBlock txHash) d1 in
        (credited, (ix2, d2))
    end.
