(* ===== verification/Tron.v ===== *)
(** * Tron addresses and deposits

    Theorems on [TronModel]: base 58 and hexadecimal round trips, the text of an amount
    denotes it, a tick of the indexer only records and credits deposits the way every other
    service does, and a listed transfer to a wallet of a user is recorded. *)
From stdpp Require Import base gmap strings list fin_maps pretty relations.
From Stdlib Require Import ZArith Lia Ascii.
From S2P Require Import Prelude Money Balances Escrow DepositModel Indexer Deposits.
From S2P Require Import DepositScan TronModel.
Local Open Scope Z_scope.

(** ** Digit lists, least significant first *)
Section Digits.
Context (B : Z) (HB : 1 < B).

Definition le_value (ds : list Z) : Z := foldr (λ d v, d + B * v) 0 ds.
Definition in_base : list Z → Prop := Forall (λ d, 0 ≤ d < B).
(** The digits of [v] without superfluous zeros; 0 has one digit. *)
Definition digits_of (v : Z) (ds : list Z) : Prop :=
  in_base ds ∧ le_value ds = v ∧ (1 ≤ length ds)%nat ∧
  (length ds = 1%nat ∨ B ^ (Z.of_nat (length ds) - 1) ≤ v).

Lemma le_value_app l1 l2 :
  le_value (l1 ++ l2) = le_value l1 + B ^ Z.of_nat (length l1) * le_value l2.
Proof.
  induction l1 as [|d l1 IH]; [simpl; lia|]. cbn [app le_value foldr length]. fold le_value.
  change (foldr _ 0 (l1 ++ l2)) with (le_value (l1 ++ l2)). rewrite IH.
  change (foldr _ 0 l1) with (le_value l1).
  rewrite Nat2Z.inj_succ, Z.pow_succ_r by lia. lia.
Qed.

Lemma le_value_bound ds : in_base ds → 0 ≤ le_value ds < B ^ Z.of_nat (length ds).
Proof.
  induction 1 as [|d ds Hd _ IH]; [simpl; lia|]. cbn [le_value foldr length].
  change (foldr _ 0 ds) with (le_value ds).
  rewrite Nat2Z.inj_succ, Z.pow_succ_r by lia. nia.
Qed.

Lemma le_value_inj ds es :
  in_base ds → in_base es → length ds = length es → le_value ds = le_value es → ds = es.
Proof.
  intros Hds. revert es. induction Hds as [|d ds Hd _ IH]; intros es Hes Hlen Hv;
    destruct es as [|e es]; try done.
  apply Forall_cons in Hes as [He Hes]. cbn [le_value foldr] in Hv.
  change (foldr _ 0 ?l) with (le_value l) in Hv.
  assert (le_value ds = le_value es) as Hv'.
  { apply Z.le_antisymm; apply Z.le_ngt; intros Hlt; nia. }
  assert (d = e) as -> by lia. f_equal. apply IH; [done|simpl in Hlen; lia|done].
Qed.

Lemma digits_of_unique v ds es : digits_of v ds → digits_of v es → ds = es.
Proof.
  intros (Hds & Hv & Hl & Hc) (Hes & Hv' & Hl' & Hc').
  apply le_value_inj; [done..| |congruence].
  pose proof (le_value_bound ds Hds) as Hb. pose proof (le_value_bound es Hes) as Hb'.
  rewrite Hv in Hb. rewrite Hv' in Hb'.
  assert (∀ m n : nat, (1 ≤ m)%nat → (m < n)%nat → B ^ (Z.of_nat n - 1) ≤ v →
            v < B ^ Z.of_nat m → False) as Hlt.
  { intros m n Hm Hmn Hle Hlt.
    pose proof (Z.pow_le_mono_r B (Z.of_nat m) (Z.of_nat n - 1)). lia. }
  destruct (lt_eq_lt_dec (length ds) (length es)) as [[Hlt'|?]|Hlt']; [exfalso|done|exfalso].
  - destruct Hc' as [?|Hc']; [lia|]. by apply (Hlt (length ds) (length es) Hl Hlt' Hc'), Hb.
  - destruct Hc as [?|Hc]; [lia|]. by apply (Hlt (length es) (length ds) Hl' Hlt' Hc), Hb'.
Qed.

Lemma digits_of_0 : digits_of 0 [0].
Proof. split; [by repeat constructor; lia|]. simpl. split; [lia|]. split; [lia|by left]. Qed.

(** The most significant digit of a positive number. *)
Lemma digits_of_last v ds d : 0 < v → digits_of v (ds ++ [d]) → d ≠ 0.
Proof.
  intros Hv (Hb & Hval & _ & Hc) ->. rewrite le_value_app in Hval. simpl in Hval.
  apply Forall_app in Hb as [Hb _]. pose proof (le_value_bound ds Hb) as Hbd.
  rewrite length_app in Hc. simpl in Hc. destruct ds as [|e ds]; [simpl in Hval; lia|].
  destruct Hc as [Hc|Hc]; [simpl in Hc; lia|].
  replace (Z.of_nat (length (e :: ds) + 1) - 1) with (Z.of_nat (length (e :: ds))) in Hc by lia.
  lia.
Qed.

Lemma digits_of_intro b ds :
  in_base (ds ++ [b]) → b ≠ 0 → digits_of (le_value (ds ++ [b])) (ds ++ [b]).
Proof.
  intros Hb Hne. split; [done|]. split; [done|]. rewrite length_app. simpl.
  split; [lia|]. right. rewrite le_value_app. simpl.
  apply Forall_app in Hb as [Hds Hb]. apply Forall_cons in Hb as [Hb _].
  pose proof (le_value_bound ds Hds).
  replace (Z.of_nat (length ds + 1) - 1) with (Z.of_nat (length ds)) by lia. nia.
Qed.

(** *** Multiplying by a small number and adding a smaller one *)
Fixpoint push (fuel : nat) (carry : Z) : list Z :=
  match fuel with
  | O => []
  | S f => if 0 <? carry then carry mod B :: push f (carry / B) else []
  end.
Fixpoint times (fuel : nat) (m : Z) (ds : list Z) (carry : Z) : list Z :=
  match ds with
  | [] => push fuel carry
  | d :: ds' => (carry + d * m) mod B :: times fuel m ds' ((carry + d * m) / B)
  end.

Lemma push_spec fuel c :
  0 ≤ c < B ^ Z.of_nat fuel →
  in_base (push fuel c) ∧ le_value (push fuel c) = c ∧
  (0 < c → (1 ≤ length (push fuel c))%nat ∧ B ^ (Z.of_nat (length (push fuel c)) - 1) ≤ c).
Proof.
  revert c. induction fuel as [|f IH]; intros c Hc.
  { simpl in Hc. assert (c = 0) as -> by lia. split; [constructor|]. split; [done|lia]. }
  rewrite Nat2Z.inj_succ, Z.pow_succ_r in Hc by lia. cbn [push].
  destruct (Z.ltb_spec 0 c) as [Hpos|Hle];
    [|assert (c = 0) as -> by lia; split; [constructor|]; split; [done|lia]].
  destruct (IH (c / B)) as (Hb & Hv & Hl).
  { split; [apply Z.div_pos; lia|]. apply Z.div_lt_upper_bound; lia. }
  pose proof (Z.mod_pos_bound c B). pose proof (Z_div_mod_eq_full c B).
  split; [constructor; [lia|done]|]. split.
  - cbn [le_value foldr]. change (foldr _ 0 ?l) with (le_value l). rewrite Hv. lia.
  - intros _. cbn [length]. split; [lia|].
    destruct (push f (c / B)) as [|x xs] eqn:E; [simpl; lia|].
    destruct (decide (0 < c / B)) as [Hq|Hq].
    + destruct (Hl Hq) as [_ Hl'].
      replace (Z.of_nat (S (length (x :: xs))) - 1) with (Z.succ (Z.of_nat (length (x :: xs)) - 1))
        by lia.
      rewrite Z.pow_succ_r by (simpl; lia). nia.
    + assert (c / B = 0) as Hz by (pose proof (Z.div_pos c B); lia).
      rewrite Hz in E. destruct f; simpl in E; done.
Qed.

Lemma times_split fuel m ds c :
  in_base ds → 0 ≤ c ≤ m →
  ∃ r k, times fuel m ds c = r ++ push fuel k ∧ length r = length ds ∧ in_base r ∧ 0 ≤ k ≤ m ∧
    le_value r + B ^ Z.of_nat (length ds) * k = m * le_value ds + c.
Proof.
  intros Hds. revert c. induction Hds as [|d ds Hd _ IH]; intros c Hc.
  { exists [], c. split; [done|]. split; [done|]. split; [constructor|]. simpl. lia. }
  pose proof (Z.mod_pos_bound (c + d * m) B) as Hmod.
  pose proof (Z_div_mod_eq_full (c + d * m) B) as Hdm.
  destruct (IH ((c + d * m) / B)) as (r & k & Hr & Hlen & Hb & Hk & Hv).
  { split; [apply Z.div_pos; nia|]. apply Z.lt_succ_r, Z.div_lt_upper_bound; nia. }
  exists ((c + d * m) mod B :: r), k. cbn [times app length]. rewrite Hr, Hlen.
  split; [done|]. split; [done|]. split; [constructor; [lia|done]|]. split; [done|].
  cbn [le_value foldr]. change (foldr _ 0 ?l) with (le_value l).
  rewrite Nat2Z.inj_succ, Z.pow_succ_r by lia. nia.
Qed.

Lemma digits_of_times fuel m v ds c :
  1 ≤ m → m < B ^ Z.of_nat fuel → digits_of v ds → 0 ≤ c ≤ m →
  digits_of (m * v + c) (times fuel m ds c).
Proof.
  intros Hm Hf (Hb & <- & Hl & Hc) Hcm.
  destruct (times_split fuel m ds c Hb Hcm) as (r & k & -> & Hlen & Hr & Hk & Hv).
  destruct (push_spec fuel k) as (Hpb & Hpv & Hpl); [lia|].
  pose proof (le_value_bound ds Hb) as [Hpos _]. pose proof (le_value_bound r Hr) as [Hrpos _].
  assert (0 < B ^ Z.of_nat (length ds)) as Hpow by (apply Z.pow_pos_nonneg; lia).
  split; [by apply Forall_app|]. split; [rewrite le_value_app, Hpv, Hlen; done|].
  rewrite length_app, Hlen. split; [lia|].
  destruct (decide (0 < k)) as [Hk0|Hk0].
  - destruct (Hpl Hk0) as [Hpl1 Hpl2]. right. rewrite <- Hv.
    replace (Z.of_nat (length ds + length (push fuel k)) - 1)
      with (Z.of_nat (length ds) + (Z.of_nat (length (push fuel k)) - 1)) by lia.
    rewrite Z.pow_add_r by lia. nia.
  - assert (k = 0) as -> by lia. destruct fuel; simpl; rewrite Nat.add_0_r;
      (destruct Hc as [?|Hc]; [by left|right; nia]).
Qed.
End Digits.

(** ** Base 58 *)
Lemma push_bytes_push fuel c : push_bytes fuel c = push 256 fuel c.
Proof.
  revert c. induction fuel as [|f IH]; intros c; [done|]. cbn [push_bytes push].
  change 255 with (Z.ones 8). rewrite Z.land_ones, Z.shiftr_div_pow2 by lia.
  change (2 ^ 8) with 256. by rewrite IH.
Qed.
Lemma push_digits_push fuel c : push_digits fuel c = push 58 fuel c.
Proof. revert c. induction fuel as [|f IH]; intros c; [done|]. cbn [push_digits push]. by rewrite IH. Qed.

Lemma times_58_times ds c : times_58 ds c = times 256 CARRY_FUEL 58 ds c.
Proof.
  revert c. induction ds as [|d ds IH]; intros c; [apply push_bytes_push|]. cbn [times_58 times].
  change 255 with (Z.ones 8). rewrite Z.land_ones, Z.shiftr_div_pow2 by lia.
  change (2 ^ 8) with 256. by rewrite IH.
Qed.
Lemma times_256_times ds c : times_256 ds c = times 58 CARRY_FUEL 256 ds c.
Proof.
  revert c. induction ds as [|d ds IH]; intros c; [apply push_digits_push|].
  cbn [times_256 times]. rewrite Z.shiftl_mul_pow2 by lia. change (2 ^ 8) with 256. by rewrite IH.
Qed.

(** The number a list of bytes stands for, most significant first. *)
Definition be_value (B : Z) (l : list Z) : Z := foldl (λ v d, B * v + d) 0 l.

Lemma be_value_snoc B l d : be_value B (l ++ [d]) = B * be_value B l + d.
Proof. unfold be_value. by rewrite foldl_app. Qed.

Lemma be_value_reverse B l : be_value B (reverse l) = le_value B l.
Proof.
  induction l as [|d l IH]; [done|]. rewrite reverse_cons, be_value_snoc, IH.
  cbn [le_value foldr]. change (foldr _ 0 l) with (le_value B l). lia.
Qed.

Lemma be_value_zeros B n l : be_value B (replicate n 0 ++ l) = be_value B l.
Proof.
  induction n as [|n IH]; [done|]. unfold be_value in *. simpl. by rewrite Z.mul_0_r.
Qed.

Definition is_byte (b : Z) : Prop := 0 ≤ b < 256.
Definition bytes : list Z → Prop := Forall is_byte.

Lemma encode_bytes_digits l : bytes l → digits_of 58 (be_value 256 l) (encode_bytes l [0]).
Proof.
  induction l as [|b l IH] using rev_ind; intros Hl; [by apply digits_of_0|].
  apply Forall_app in Hl as [Hl Hb]. apply Forall_cons in Hb as [Hb _]. unfold is_byte in Hb.
  unfold encode_bytes. rewrite foldl_app, be_value_snoc. cbn [foldl]. rewrite times_256_times.
  apply digits_of_times; [lia|lia|by vm_compute| |lia]. by apply IH.
Qed.

Lemma decode_bytes_digits l :
  in_base 58 l → digits_of 256 (be_value 58 l) (foldl (λ bs d, times_58 bs d) [0] l).
Proof.
  induction l as [|b l IH] using rev_ind; intros Hl; [by apply digits_of_0|].
  apply Forall_app in Hl as [Hl Hb]. apply Forall_cons in Hb as [Hb _].
  rewrite foldl_app, be_value_snoc. cbn [foldl]. rewrite times_58_times.
  apply digits_of_times; [lia|lia|by vm_compute| |lia]. by apply IH.
Qed.

(** A digit's character is found again. *)
Lemma alphabet_inverse d :
  0 ≤ d < 58 →
  ∃ a, char_at d BASE58_ALPHABET = String a "" ∧ indexOf a BASE58_ALPHABET = Some d ∧
    (d ≠ 0 → a ≠ "1"%char).
Proof.
  intros Hd. assert (Forall (λ n, let d := Z.of_nat n in
    match String.get (Z.to_nat d) BASE58_ALPHABET with
    | Some a => indexOf a BASE58_ALPHABET = Some d ∧ (d = 0 ∨ Ascii.eqb a "1" = false)
    | None => False
    end) (seq 0 58)) as Hall.
  { repeat (constructor; [vm_compute; split; [reflexivity|auto]|]). constructor. }
  rewrite Forall_forall in Hall. specialize (Hall (Z.to_nat d)).
  rewrite elem_of_seq, Z2Nat.id in Hall by lia. specialize (Hall ltac:(lia)). cbv zeta in Hall.
  unfold char_at. destruct (String.get _ _) as [a|]; [|done]. destruct Hall as [Hi Ha].
  exists a. split; [done|]. split; [done|]. intros Hne ->. destruct Ha as [?|Ha]; [done|discriminate Ha].
Qed.

(** The text of a list of digits. *)
Definition text (ds : list Z) : string :=
  String.concat "" ((λ d, char_at d BASE58_ALPHABET) <$> ds).

Lemma concat_cons s l : String.concat "" (s :: l) = s +:+ String.concat "" l.
Proof.
  destruct l; simpl; [|done].
  induction s as [|a s IH]; [done|].
  change (String a s = String a (s +:+ "")). by rewrite <- IH.
Qed.

Lemma text_cons d ds : text (d :: ds) = char_at d BASE58_ALPHABET +:+ text ds.
Proof. apply concat_cons. Qed.

Lemma decode_digits_text ds bs :
  in_base 58 ds → decode_digits (text ds) bs = Some (foldl (λ bs d, times_58 bs d) bs ds).
Proof.
  intros Hds. revert bs. induction Hds as [|d ds Hd _ IH]; intros bs; [done|].
  rewrite text_cons. destruct (alphabet_inverse d Hd) as (a & -> & Hi & _).
  change (String a "" +:+ text ds) with (String a (text ds)).
  cbn [decode_digits]. rewrite Hi. apply IH.
Qed.

Lemma leading_ones_text n d ds :
  0 ≤ d < 58 → d ≠ 0 → leading_ones (text (replicate n 0 ++ d :: ds)) = n.
Proof.
  intros Hd Hne. induction n as [|n IH].
  - cbn [replicate app]. rewrite text_cons. destruct (alphabet_inverse d Hd) as (a & -> & _ & Ha).
    specialize (Ha Hne). change (String a "" +:+ text ds) with (String a (text ds)).
    cbn [leading_ones].
    destruct a as [[] [] [] [] [] [] [] []]; try done; by destruct Ha.
  - cbn [replicate app]. rewrite text_cons. change (leading_ones _) with
      (S (leading_ones (text (replicate n 0 ++ d :: ds)))). by f_equal.
Qed.

Lemma base58Encode_text bs :
  base58Encode bs = text (replicate (leading_zeros bs) 0
                            ++ reverse (encode_bytes (drop (leading_zeros bs) bs) [0])).
Proof.
  unfold base58Encode, text. rewrite fmap_app, fmap_replicate. reflexivity.
Qed.

Lemma leading_zeros_split bs :
  (∃ b, b ∈ bs ∧ b ≠ 0) →
  ∃ b rest, bs = replicate (leading_zeros bs) 0 ++ b :: rest ∧ b ≠ 0 ∧
    drop (leading_zeros bs) bs = b :: rest.
Proof.
  induction bs as [|b bs IH]; intros (x & Hx & Hne); [by apply elem_of_nil in Hx|].
  cbn [leading_zeros]. destruct (Z.eqb_spec b 0) as [->|Hb].
  - apply elem_of_cons in Hx as [->|Hx]; [done|].
    destruct IH as (y & rest & Heq & Hy & Hdrop); [eauto|]. exists y, rest.
    cbn [replicate app drop]. by rewrite <- Heq.
  - by exists b, bs.
Qed.

Lemma base58_roundtrip (bs : list Z) :
  bytes bs → (∃ b, b ∈ bs ∧ b ≠ 0) → base58Decode (base58Encode bs) = Some bs.
Proof.
  intros Hbs Hnz. destruct (leading_zeros_split bs Hnz) as (b & rest & Heq & Hb & Hdrop).
  rewrite base58Encode_text, Hdrop. set (n := leading_zeros bs) in *.
  rewrite Heq in Hbs. apply Forall_app in Hbs as [_ Hbs].
  pose proof (encode_bytes_digits (b :: rest) Hbs) as Henc.
  assert (digits_of 256 (be_value 256 (b :: rest)) (reverse (b :: rest))) as Hcanon.
  { rewrite <- (reverse_involutive (b :: rest)) at 1. rewrite be_value_reverse, reverse_cons.
    apply digits_of_intro; [lia| |done]. rewrite <- reverse_cons. by apply Forall_reverse. }
  assert (0 < be_value 256 (b :: rest)) as Hpos.
  { destruct Hcanon as (_ & Hv & _ & [Hl|Hl]); [|pose proof (Z.pow_pos_nonneg 256
      (Z.of_nat (length (reverse (b :: rest))) - 1)); rewrite length_reverse in *; simpl in *; lia].
    rewrite length_reverse in Hl. destruct rest; [|done]. unfold be_value. simpl.
    apply Forall_cons in Hbs as [Hb0 _]. unfold is_byte in Hb0. lia. }
  revert Henc Hcanon. set (v := be_value 256 (b :: rest)) in *.
  set (ds := encode_bytes (b :: rest) [0]). intros Henc Hcanon.
  destruct ds as [|d0 ds0 _] using rev_ind; [by destruct Henc as (_ & _ & ? & _); simpl in *; lia|].
  pose proof (digits_of_last 58 ltac:(lia) _ _ _ Hpos Henc) as Hd0.
  pose proof Henc as (Hin & Hval & _). pose proof Hin as [_ Hin0]%Forall_app.
  apply Forall_cons in Hin0 as [Hd0r _].
  rewrite reverse_snoc. unfold base58Decode. rewrite decode_digits_text; cycle 1.
  { apply Forall_app. split; [apply Forall_replicate; lia|].
    rewrite <- reverse_snoc. by apply Forall_reverse. }
  cbn [mbind option_bind]. rewrite leading_ones_text by done.
  assert (in_base 58 (replicate n 0 ++ d0 :: reverse ds0)) as Hin'.
  { apply Forall_app. split; [apply Forall_replicate; lia|].
    rewrite <- reverse_snoc. by apply Forall_reverse. }
  pose proof (decode_bytes_digits _ Hin') as Hdec.
  rewrite be_value_zeros, <- reverse_snoc, be_value_reverse, Hval in Hdec.
  rewrite <- reverse_snoc. rewrite (digits_of_unique 256 ltac:(lia) _ _ _ Hdec Hcanon).
  rewrite reverse_app, reverse_involutive, reverse_replicate. by rewrite <- Heq.
Qed.

(** ** Hexadecimal *)
Lemma hex_digit_inverse x :
  0 ≤ x < 16 → ∃ a, char_at x HEX_DIGITS = String a "" ∧ hex_value a = Some x ∧
    lower_ascii a = a ∧ a ≠ "x"%char.
Proof.
  intros Hx. assert (Forall (λ n, let x := Z.of_nat n in
    match String.get (Z.to_nat x) HEX_DIGITS with
    | Some a => hex_value a = Some x ∧ lower_ascii a = a ∧ Ascii.eqb a "x" = false
    | None => False
    end) (seq 0 16)) as Hall.
  { repeat (constructor; [vm_compute; repeat split; reflexivity|]). constructor. }
  rewrite Forall_forall in Hall. specialize (Hall (Z.to_nat x)).
  rewrite elem_of_seq, Z2Nat.id in Hall by lia. specialize (Hall ltac:(lia)). cbv zeta in Hall.
  unfold char_at. destruct (String.get _ _) as [a|]; [|done]. destruct Hall as (Hi & Hl & Ha).
  exists a. split; [done|]. split; [done|]. split; [done|]. intros ->. discriminate Ha.
Qed.

Lemma to_hex_cons b bs :
  is_byte b → ∃ x y, to_hex (b :: bs) = String x (String y (to_hex bs)) ∧
    hex_value x = Some (b / 16) ∧ hex_value y = Some (b mod 16) ∧
    lower_ascii x = x ∧ lower_ascii y = y ∧ y ≠ "x"%char.
Proof.
  unfold is_byte. intros Hb.
  destruct (hex_digit_inverse (b / 16)) as (x & Hx & Hxv & Hxl & _).
  { split; [apply Z.div_pos; lia|apply Z.div_lt_upper_bound; lia]. }
  destruct (hex_digit_inverse (b mod 16)) as (y & Hy & Hyv & Hyl & Hyx); [apply Z.mod_pos_bound; lia|].
  exists x, y. split; [|done]. unfold to_hex. cbn [fmap list_fmap]. rewrite concat_cons, Hx, Hy. done.
Qed.

Lemma hex_roundtrip bs : bytes bs → from_hex (to_hex bs) = bs.
Proof.
  induction 1 as [|b bs Hb _ IH]; [done|].
  destruct (to_hex_cons b bs Hb) as (x & y & -> & Hx & Hy & _). cbn [from_hex].
  rewrite Hx, Hy, IH. f_equal. pose proof (Z_div_mod_eq_full b 16). lia.
Qed.

Lemma strip_0x_to_hex bs : bytes bs → strip_0x (to_hex bs) = to_hex bs.
Proof.
  intros [|b bs' Hb _]; [done|]. destruct (to_hex_cons b bs' Hb) as (x & y & -> & _ & _ & _ & _ & Hy).
  unfold strip_0x. destruct x as [[] [] [] [] [] [] [] []]; try done.
  destruct y as [[] [] [] [] [] [] [] []]; try done; by destruct Hy.
Qed.

Lemma lower_to_hex bs : bytes bs → lower (to_hex bs) = to_hex bs.
Proof.
  induction 1 as [|b bs Hb _ IH]; [done|].
  destruct (to_hex_cons b bs Hb) as (x & y & -> & _ & _ & Hx & Hy & _). cbn [lower].
  by rewrite Hx, Hy, IH.
Qed.

(** What the code relies on of SHA-256: 32 bytes. *)
Definition hash_bytes (sha256 : list Z → list Z) : Prop :=
  ∀ l, bytes (sha256 l) ∧ length (sha256 l) = 32%nat.

(** The 21 bytes of a Tron account. *)
Definition account (payload : list Z) : Prop :=
  bytes payload ∧ length payload = 21%nat ∧ ∃ b, b ∈ payload ∧ b ≠ 0.

Lemma address_roundtrip sha payload a :
  hash_bytes sha → account payload → hexToBase58 sha (to_hex payload) = Some a →
  base58ToHex a = Some (to_hex payload).
Proof.
  intros Hsha (Hb & Hlen & x & Hx & Hne). unfold hexToBase58, base58ToHex.
  rewrite strip_0x_to_hex, hex_roundtrip by done. rewrite Hlen. intros [= <-].
  destruct (Hsha (sha payload)) as [Hh Hl]. rewrite base58_roundtrip.
  - cbn [mbind option_bind]. rewrite length_app, length_take, Hlen, Hl. simpl.
    by rewrite take_app_le, take_ge by lia.
  - apply Forall_app. split; [done|by apply Forall_take].
  - exists x. rewrite elem_of_app. auto.
Qed.

(** ** The text of an amount *)
Lemma digit_char x : (x < 10)%N → indexOf (pretty_N_char x) "0123456789" = Some (Z.of_N x).
Proof.
  intros Hx. assert (x = 0 ∨ x = 1 ∨ x = 2 ∨ x = 3 ∨ x = 4 ∨ x = 5 ∨ x = 6 ∨ x = 7 ∨ x = 8
    ∨ x = 9)%N by lia. intuition (subst; reflexivity).
Qed.

(** A number's text is read back, and no digit is a point or a sign. *)
Lemma read_pretty_go x s : read_digits (pretty_N_go x s) 0 = read_digits s (Z.of_N x).
Proof.
  revert s. induction (N.lt_wf_0 x) as [x _ IH]; intros s.
  destruct (decide (x = 0%N)) as [->|Hx]; [done|]. rewrite pretty_N_go_step by lia.
  rewrite IH by (apply N.div_lt; lia). cbn [read_digits].
  pose proof (N.mod_lt x 10 ltac:(lia)). rewrite digit_char by done. cbn [mbind option_bind].
  f_equal. pose proof (N.div_mod x 10 ltac:(lia)). lia.
Qed.

Lemma read_pretty z : 0 ≤ z → read_digits (pretty z) 0 = Some z.
Proof.
  intros Hz. destruct z as [|p|p]; [done| |lia].
  change (pretty (Z.pos p)) with (pretty_N_go (N.pos p) ""). by rewrite read_pretty_go.
Qed.

Lemma length_pretty_go k x s :
  (x < 10 ^ N.of_nat k)%N → (String.length (pretty_N_go x s) ≤ k + String.length s)%nat.
Proof.
  revert x s. induction k as [|k IH]; intros x s Hx.
  - simpl in Hx. assert (x = 0%N) as -> by lia. rewrite pretty_N_go_0. lia.
  - destruct (decide (x = 0%N)) as [->|Hne]; [rewrite pretty_N_go_0; lia|].
    rewrite pretty_N_go_step by lia.
    rewrite Nat2N.inj_succ, N.pow_succ_r in Hx by lia.
    specialize (IH (x `div` 10)%N (String (pretty_N_char (x `mod` 10)) s)).
    simpl in IH |- *. etransitivity; [apply IH|lia]. apply N.Div0.div_lt_upper_bound. lia.
Qed.

Lemma split_point_digits t f acc v :
  read_digits t acc = Some v → split_point (t +:+ String "." f) = (t, f).
Proof.
  revert acc. induction t as [|a t IH]; intros acc Hr; [done|]. cbn [read_digits] in Hr.
  destruct (indexOf a _) as [d|] eqn:Ha; [|done]. cbn [mbind option_bind] in Hr.
  change (String a t +:+ String "." f) with (String a (t +:+ String "." f)).
  specialize (IH _ Hr). cbn [split_point]. rewrite IH.
  destruct a as [[] [] [] [] [] [] [] []]; try done; discriminate Ha.
Qed.

Lemma read_zeros n s : read_digits (String.concat "" (replicate n "0") +:+ s) 0 = read_digits s 0.
Proof.
  induction n as [|n IH]; [done|]. cbn [replicate]. rewrite concat_cons. exact IH.
Qed.

Lemma string_length_app s t : String.length (s +:+ t) = (String.length s + String.length t)%nat.
Proof.
  induction s as [|a s IH]; [done|].
  change (S (String.length (s +:+ t)) = S (String.length s + String.length t)). by f_equal.
Qed.

Lemma length_padStart0 n s :
  (String.length s ≤ n)%nat → String.length (padStart0 n s) = n.
Proof.
  intros Hs. unfold padStart0. rewrite string_length_app.
  assert (∀ k, String.length (String.concat "" (replicate k "0")) = k) as ->; [|lia].
  induction k as [|k IH]; [done|]. cbn [replicate]. rewrite concat_cons, string_length_app, IH. done.
Qed.

Lemma read_padded n z : 0 ≤ z → read_digits (padStart0 n (pretty z)) 0 = Some z.
Proof. intros Hz. unfold padStart0. by rewrite read_zeros, read_pretty. Qed.

(** The fraction has as many digits as there are decimals, but for 0 decimals. *)
Lemma length_pretty d z :
  (1 ≤ d)%nat → 0 ≤ z < 10 ^ Z.of_nat d → (String.length (pretty z) ≤ d)%nat.
Proof.
  intros Hd Hz. destruct z as [|p|p]; [simpl; lia| |lia].
  change (pretty (Z.pos p)) with (pretty_N_go (N.pos p) "").
  pose proof (length_pretty_go d (N.pos p) "") as Hl. simpl in Hl. rewrite Nat.add_0_r in Hl.
  apply Hl. apply N2Z.inj_lt. rewrite N2Z.inj_pow, nat_N_Z. simpl. lia.
Qed.

Lemma numeric_unsigned w f wv fv sign t :
  read_digits w 0 = Some wv → read_digits f 0 = Some fv →
  t = (if (sign : bool) then "-" else "") +:+ w +:+ "." +:+ f → w ≠ "" →
  numeric t = Some ((if sign then -1 else 1)
    * (wv * 10 ^ SCALE + fv * 10 ^ (SCALE - Z.of_nat (String.length f)))).
Proof.
  intros Hw Hf -> Hne.
  assert (split_point (w +:+ "." +:+ f) = (w, f)) as Hsp
    by exact (split_point_digits _ _ _ _ Hw).
  unfold numeric. destruct sign.
  - change ("-" +:+ w +:+ "." +:+ f) with (String "-" (w +:+ "." +:+ f)). cbn [split_sign].
    rewrite Hsp, Hw. cbn [mbind option_bind]. by rewrite Hf.
  - change ("" +:+ w +:+ "." +:+ f) with (w +:+ "." +:+ f).
    destruct w as [|a w]; [done|].
    assert (a ≠ "-"%char) as Ha by (intros ->; discriminate Hw).
    assert (split_sign (String a w +:+ "." +:+ f) = (1, String a w +:+ "." +:+ f)) as ->.
    { change (String a w +:+ "." +:+ f) with (String a (w +:+ "." +:+ f)).
      destruct a as [[] [] [] [] [] [] [] []]; try done; by destruct Ha. }
    rewrite Hsp, Hw. cbn [mbind option_bind]. by rewrite Hf.
Qed.

Lemma pretty_nonempty (z : Z) : pretty z ≠ "".
Proof.
  destruct z as [|p|p]; [done| |done]. intros Hp.
  assert (0 ≤ Z.pos p) as Hpos by lia. pose proof (read_pretty _ Hpos) as Hr. by rewrite Hp in Hr.
Qed.

(** The text of [raw] units of 10^-decimals denotes that amount. *)
Lemma formatBaseUnits_value raw decimals :
  0 ≤ decimals ≤ SCALE → numeric (formatBaseUnits raw decimals) = Some (dec raw decimals).
Proof.
  intros Hd. unfold SCALE in Hd. pose proof (pow10_pos decimals ltac:(lia)) as Hpow.
  pose proof (Z.mod_pos_bound (Z.abs raw) (10 ^ decimals) Hpow) as Hmod.
  pose proof (Z_div_mod_eq_full (Z.abs raw) (10 ^ decimals)) as Hdm.
  pose proof (Z.div_pos (Z.abs raw) (10 ^ decimals) ltac:(lia) Hpow) as Hdiv.
  etransitivity; [apply (numeric_unsigned _ _ _ _ (raw <? 0) _ (read_pretty _ Hdiv)
    (read_padded (Z.to_nat decimals) _ (proj1 Hmod)) eq_refl (pretty_nonempty _))|].
  f_equal. unfold dec, SCALE.
  assert (10 ^ 36 = 10 ^ decimals * 10 ^ (36 - decimals)) as H36
    by (rewrite <- Z.pow_add_r by lia; f_equal; lia).
  assert (Z.abs raw mod 10 ^ decimals * 10 ^ (36 - Z.of_nat (String.length
    (padStart0 (Z.to_nat decimals) (pretty (Z.abs raw mod 10 ^ decimals)))))
    = Z.abs raw mod 10 ^ decimals * 10 ^ (36 - decimals)) as ->.
  { destruct (decide (decimals = 0)) as [->|Hne]; [change (10 ^ 0) with 1; by rewrite Z.mod_1_r|].
    rewrite length_padStart0, Z2Nat.id by (try apply length_pretty; rewrite ?Z2Nat.id; lia). done. }
  rewrite H36. destruct (Z.ltb_spec raw 0); nia.
Qed.

(** ** What a listing records *)
Definition input_owner (input : non_evm_input) (d : deposit_db) : option wallet :=
  find (λ w, String.eqb (wal_address w) (ne_toAddress input)
             && String.eqb (wal_chain_id w) (ne_chainId input)) (wallets d).
Definition input_deposit (now : Z) (input : non_evm_input) (w : wallet) : deposit :=
  new_deposit (wal_user_id w) (ne_currencyId input) (ne_chainId input) (ne_txHash input)
    (ne_toAddress input) (ne_amount input) (ne_confirmations input)
    (ne_requiredConfirmations input) (ne_blockNumber input) now.
Definition input_known (input : non_evm_input) (d : deposit_db) : option (string * deposit) :=
  find_deposit (ne_chainId input) (ne_txHash input) (ne_toAddress input) d.
Definition acceptable (input : non_evm_input) (d : deposit_db) (w : wallet) : Prop :=
  0 < ne_amount input ∧ input_owner input d = Some w ∧
  symbol_of (ne_currencyId input) d ≠ None.

Definition recorded (id : string) (now : Z) (input : non_evm_input) (d : deposit_db) : deposit_db :=
  snd (transaction (recordOrUpdateDeposit id now input) d).

(** What one recording does: the row of a new transaction of a user, a change of
    confirmations, or nothing. *)
Lemma recorded_cases id now input d :
  deposits d !! id = None →
  let d' := recorded id now input d in
  same_settings d d' ∧
  ((∃ w, acceptable input d w ∧ input_known input d = None ∧
      deposits d' = <[id := input_deposit now input w]> (deposits d)) ∨
   (∀ j, deposits d !! j = None → deposits d' !! j = None) ∧
   ∀ w, acceptable input d w → input_known input d ≠ None).
Proof.
  intros Hid. cbv zeta. unfold recorded, transaction.
  remember (recordOrUpdateDeposit id now input d) as o eqn:Hrun.
  unfold recordOrUpdateDeposit in Hrun.
  destruct (Z.leb_spec (ne_amount input) 0) as [Hle|Hpos].
  { subst o. split; [by repeat split|]. right. split; [done|]. intros w (? & _). lia. }
  unfold bind at 1, gets at 1 in Hrun. fold (input_known input d) in Hrun.
  destruct (input_known input d) as [[rid row]|] eqn:Hx.
  - unfold bind, ret in Hrun.
    destruct (_ && _); [|subst o; split; [by repeat split|right; by split]].
    rewrite update_deposit_run in Hrun.
    destruct (deposits d !! rid) as [dep|] eqn:Hrid; subst o;
      (split; [by repeat split|right]; split; [|done]); simpl; [|done].
    intros j Hj. rewrite lookup_insert_ne; [done|]. intros ->. congruence.
  - unfold bind at 1, gets at 1 in Hrun. fold (input_owner input d) in Hrun.
    destruct (input_owner input d) as [w|] eqn:Hw.
    2:{ subst o. split; [by repeat split|]. right. split; [done|].
        intros w (_ & Hw' & _). congruence. }
    fold (input_deposit now input w) in Hrun. unfold insert_deposit in Hrun.
    unfold bind at 1 in Hrun. unfold bind at 1, gets at 1 in Hrun.
    change (find_deposit _ _ _ d) with (input_known input d) in Hrun. rewrite Hx in Hrun.
    unfold bind at 1, gets at 1 in Hrun. unfold bind at 1 in Hrun. rewrite Hid in Hrun.
    rewrite require_true in Hrun by by apply bool_decide_eq_true.
    unfold bind at 1, gets at 1 in Hrun.
    change (dep_currency_id (input_deposit now input w)) with (ne_currencyId input) in Hrun.
    unfold bind at 1 in Hrun. destruct (symbol_of (ne_currencyId input) d) as [sym|] eqn:Hsym.
    + rewrite require_true in Hrun by by apply bool_decide_eq_true. subst o.
      split; [by repeat split|]. left. exists w. repeat split; [done..|]. by rewrite Hsym.
    + rewrite require_false in Hrun by (apply bool_decide_eq_false; intros Hc; by apply Hc). subst o.
      split; [by repeat split|]. right. split; [done|]. intros w' (_ & _ & Hs). congruence.
Qed.

Lemma same_settings_acceptable d d' input w :
  same_settings d d' → acceptable input d w → acceptable input d' w.
Proof.
  intros (Hw & Hc & _) (? & Hown & Hsym). unfold acceptable, input_owner, symbol_of in *.
  by rewrite Hw, Hc.
Qed.

Lemma input_known_Some input d id dep :
  deposits d !! id = Some dep → dep_chain_id dep = ne_chainId input →
  dep_tx_hash dep = ne_txHash input → dep_to_address dep = ne_toAddress input →
  input_known input d ≠ None.
Proof. apply find_deposit_is_Some. Qed.

(** Only the row of its own id may be new, and only for its own transaction. *)
Lemma recorded_one ids now input d :
  fresh_ids ids d →
  let d1 := recorded (ids 0%nat) now input d in
  same_settings d d1 ∧ fresh_ids (λ i, ids (S i)) d1 ∧
  (∀ id dep, deposits d1 !! id = Some dep → deposits d !! id = None →
     id = ids 0%nat ∧ ∃ w, acceptable input d w ∧ input_known input d = None ∧
       dep = input_deposit now input w).
Proof.
  intros [Hinj Hfresh]. cbv zeta.
  destruct (recorded_cases (ids 0%nat) now input d (Hfresh 0%nat)) as [Hs Hd1].
  set (d1 := recorded _ _ _ _) in *. split; [done|].
  destruct Hd1 as [(w & Hacc & Hx & Hd1)|[Hnone _]]; unfold fresh_ids.
  - rewrite Hd1. split.
    + split; [intros i j Hij%Hinj; by injection Hij|]. intros i.
      rewrite lookup_insert_ne; [done|]. by intros Hij%Hinj.
    + intros id dep. destruct (decide (ids 0%nat = id)) as [<-|Hne].
      * rewrite lookup_insert_eq. intros [= <-] _. eauto.
      * rewrite lookup_insert_ne by done. congruence.
  - split; [|intros id dep Hd Hn; apply Hnone in Hn; congruence].
    split; [intros i j Hij%Hinj; by injection Hij|]. intros i. by apply Hnone.
Qed.

(** A key that was known is known after any run. *)
Lemma input_known_moves input d d' :
  moves d d' → input_known input d ≠ None → input_known input d' ≠ None.
Proof.
  intros Hm Hx. unfold input_known in *.
  destruct (find_deposit _ _ _ d) as [[id dep]|] eqn:E; [|done]. clear Hx.
  unfold find_deposit in E. apply find_some in E as [Hin Hkey].
  apply list_elem_of_In, elem_of_map_to_list in Hin. unfold same_key in Hkey. simpl in Hkey.
  bool_prop. destruct (snapshot_moves d d' (id, dep)) as (p & Hp & Hst);
    [by exists dep; split|done|]. simpl in Hp, Hst.
  destruct Hst as (_ & _ & _ & Hch & Htx & Hto).
  eapply find_deposit_is_Some; [done|congruence..].
Qed.

Lemma recorded_moves id now input d : moves d (recorded id now input d).
Proof. apply recordOrUpdateDeposit_moves. Qed.

Lemma process_items_moves items ids now d : moves d (snd (process_items items ids now d)).
Proof.
  revert ids d. induction items as [|[| |input] items IH]; intros ids d; cbn [process_items].
  - apply rtc_refl.
  - apply IH.
  - apply rtc_refl.
  - eapply moves_trans; [apply recorded_moves|apply IH].
Qed.

(** A row that is new after the loop is that of a transfer of the listing. *)
Lemma process_items_only now items : ∀ ids d id dep,
  fresh_ids ids d → deposits (snd (process_items items ids now d)) !! id = Some dep →
  deposits d !! id = None →
  ∃ i input w, items !! i = Some (Found input) ∧ id = ids i ∧ acceptable input d w ∧
    input_known input d = None ∧ same_terms (input_deposit now input w) dep.
Proof.
  induction items as [|it items IH]; intros ids d id dep Hids Hd Hn; [simpl in Hd; congruence|].
  destruct it as [| |input]; cbn [process_items] in Hd.
  - destruct (IH (λ i, ids (S i)) d id dep) as (i & input & w & Hi & Hrest); [|done..|].
    { split; [intros ?? H%(proj1 Hids); by injection H|]. intros. apply (proj2 Hids). }
    by exists (S i), input, w.
  - simpl in Hd. congruence.
  - fold (recorded (ids 0%nat) now input d) in Hd.
    destruct (recorded_one ids now input d Hids) as (Hs & Hids1 & Hnew).
    set (d1 := recorded _ _ _ _) in *. destruct (deposits d1 !! id) as [p|] eqn:Hp.
    + destruct (Hnew id p Hp Hn) as (-> & w & Hacc & Hx & ->).
      exists 0%nat, input, w. do 4 (split; [done|]).
      destruct (snapshot_moves d1 _ (ids 0%nat, input_deposit now input w)
        ltac:(eexists; split; [exact Hp|done])
        (process_items_moves items (λ i, ids (S i)) now d1)) as (q & Hq & Hst).
      simpl in Hq, Hst. congruence.
    + destruct (IH (λ i, ids (S i)) d1 id dep Hids1 Hd Hp) as (i & input' & w & Hi & -> & Hacc & Hx & Hst).
      exists (S i), input', w. split; [done|]. split; [done|]. split.
      { eapply same_settings_acceptable; [|done]. destruct Hs as (? & ? & ?). by repeat split. }
      split; [|done]. destruct (input_known input' d) eqn:E; [|done].
      by destruct (input_known_moves input' d d1 (recorded_moves _ _ _ _)); [rewrite E|].
Qed.

(** The first transfer of a transaction to an address that is not known gets a deposit. *)
Lemma process_items_first now items : ∀ ids d i input w,
  fresh_ids ids d → items !! i = Some (Found input) → acceptable input d w →
  input_known input d = None →
  (∀ j it, (j < i)%nat → items !! j = Some it → it ≠ ItemThrows ∧
     ∀ input', it = Found input' → ne_txHash input' ≠ ne_txHash input) →
  ∃ dep, deposits (snd (process_items items ids now d)) !! ids i = Some dep ∧
    same_terms (input_deposit now input w) dep.
Proof.
  induction items as [|it items IH]; intros ids d i input w Hids Hi Hacc Hx Hfirst; [done|].
  destruct i as [|i]; simpl in Hi.
  - injection Hi as ->. cbn [process_items]. fold (recorded (ids 0%nat) now input d).
    destruct (recorded_cases (ids 0%nat) now input d (proj2 Hids 0%nat))
      as [_ [(w' & Hacc' & _ & Hd1)|[_ Hbad]]]; [|by destruct (Hbad w Hacc)].
    assert (w' = w) as -> by (destruct Hacc as (_ & ? & _), Hacc' as (_ & ? & _); congruence).
    apply (snapshot_moves (recorded (ids 0%nat) now input d) _
             (ids 0%nat, input_deposit now input w)); [|apply process_items_moves].
    exists (input_deposit now input w). split; [|done]. rewrite Hd1. apply lookup_insert_eq.
  - destruct (Hfirst 0%nat it ltac:(lia) eq_refl) as [Hnt Hdiff].
    assert (∀ j it, (j < i)%nat → items !! j = Some it → it ≠ ItemThrows ∧
      ∀ input', it = Found input' → ne_txHash input' ≠ ne_txHash input) as Hfirst'.
    { intros j it' Hj Hit'. apply (Hfirst (S j)); [lia|done]. }
    destruct it as [| |input0]; [| done|]; cbn [process_items].
    + apply (IH (λ k, ids (S k))); [|done..].
      split; [intros ?? H%(proj1 Hids); by injection H|]. intros. apply (proj2 Hids).
    + fold (recorded (ids 0%nat) now input0 d).
      destruct (recorded_one ids now input0 d Hids) as (Hs & Hids1 & Hnew).
      apply (IH (λ k, ids (S k))); [done|done|by eapply same_settings_acceptable| |done].
      apply find_deposit_is_None. intros id dep Hid (Hch & Htx & Hto).
      destruct (deposits d !! id) as [p|] eqn:Hp.
      * destruct (snapshot_moves d (recorded (ids 0%nat) now input0 d) (id, p)
          ltac:(by exists p; split) (recorded_moves _ _ _ _)) as (q & Hq & Hst).
        simpl in Hq, Hst. destruct Hst as (_ & _ & _ & E1 & E2 & E3).
        apply (find_deposit_None _ _ _ _ _ _ Hx Hp); repeat split; congruence.
      * destruct (Hnew id dep Hid Hp) as (_ & w0 & _ & _ & ->). simpl in Htx.
        by apply (Hdiff input0).
Qed.

(** ** The theorems *)

(** C13.. Tron addresses round-trip. [base58Decode] gives back the bytes [base58Encode] was
    given, leading zeros included, when one of them is not zero; an account's 21 bytes have an
    address, whose hexadecimal form, which the indexer compares with the recipients TronGrid
    lists, is that of the account; and two accounts with the same address are equal. *)
Theorem tron_addresses_roundtrip (sha256 : list Z → list Z) :
  hash_bytes sha256 →
  (∀ bs, bytes bs → (∃ b, b ∈ bs ∧ b ≠ 0) → base58Decode (base58Encode bs) = Some bs) ∧
  (∀ payload, account payload → ∃ a,
     hexToBase58 sha256 (to_hex payload) = Some a ∧ base58ToHex a = Some (to_hex payload)) ∧
  (∀ p q, account p → account q →
     hexToBase58 sha256 (to_hex p) = hexToBase58 sha256 (to_hex q) → p = q).
Proof.
  intros Hsha.
  assert (∀ payload, account payload → ∃ a, hexToBase58 sha256 (to_hex payload) = Some a ∧
    base58ToHex a = Some (to_hex payload)) as Hacc.
  { intros payload Hp. pose proof Hp as (Hb & Hlen & _).
    destruct (hexToBase58 sha256 (to_hex payload)) as [a|] eqn:Ha.
    - exists a. split; [done|]. by eapply address_roundtrip.
    - unfold hexToBase58 in Ha. rewrite strip_0x_to_hex, hex_roundtrip, Hlen in Ha by done. done. }
  split; [intros; by apply base58_roundtrip|]. split; [done|].
  intros p q Hp Hq Heq. destruct (Hacc p Hp) as (a & Ha & Hpa).
  destruct (Hacc q Hq) as (b & Hb & Hqb).
  assert (a = b) as -> by congruence. rewrite Hpa in Hqb. injection Hqb as Hhex.
  destruct Hp as [Hp _], Hq as [Hq _].
  by rewrite <- (hex_roundtrip p Hp), <- (hex_roundtrip q Hq), Hhex.
Qed.

Section Recording.
Context (sha256 : list Z → list Z) (grid : tron_grid) (ix : tron_indexer) (ids : nat → string)
  (now : Z) (d : deposit_db).

(** A native transfer of [v] sun to the hexadecimal address [to] that did not fail. *)
Definition trx_to (to : string) (v : Z) (tx : native_tx) : Prop :=
  0 < v ∧ contract_failed (nt_contractRet tx) = false ∧ ∃ to', lower to' = to ∧
    nt_contract tx = Some (TronContract "TransferContract" (Some to') (Some v)).

Lemma trx_item_found address payload currency tx v :
  bytes payload → trx_to (to_hex payload) v tx →
  trx_item grid ix address (to_hex payload) currency tx =
    Found (tron_input grid ix address (nt_txID tx) currency (dec v 6)).
Proof.
  intros Hb (Hv & Hret & to & Hto & Hc). unfold trx_item.
  rewrite Hc, (lower_to_hex _ Hb), Hret. cbn [tc_type tc_to_address tc_amount].
  rewrite String.eqb_refl, Hto, String.eqb_refl. cbn [negb].
  rewrite (proj2 (Z.leb_gt v 0)), formatBaseUnits_value by (unfold SCALE; lia).
  cbn [default]. rewrite (proj2 (Z.leb_gt _ 0)) by (unfold dec, SCALE; simpl; lia). done.
Qed.

Lemma trx_item_inv address payload currency tx it :
  bytes payload → trx_item grid ix address (to_hex payload) currency tx = it →
  it = Skip ∨ ∃ v, trx_to (to_hex payload) v tx ∧
    it = Found (tron_input grid ix address (nt_txID tx) currency (dec v 6)).
Proof.
  intros Hb <-. destruct (nt_contract tx) as [[ty to v]|] eqn:Hc;
    [|left; unfold trx_item; by rewrite Hc].
  destruct (String.eqb_spec ty "TransferContract") as [->|Hty];
    [|left; unfold trx_item; rewrite Hc; simpl; by rewrite (proj2 (String.eqb_neq _ _) Hty)].
  destruct to as [to|], v as [v|]; try (left; unfold trx_item; by rewrite Hc).
  destruct (contract_failed (nt_contractRet tx)) eqn:Hret;
    [left; unfold trx_item; rewrite Hc, Hret; simpl; by destruct (String.eqb _ _), (_ <=? _)|].
  destruct (String.eqb_spec (lower to) (to_hex payload)) as [Hto|Hto];
    [|left; unfold trx_item; rewrite Hc, (lower_to_hex _ Hb); simpl;
      by rewrite (proj2 (String.eqb_neq _ _) Hto)].
  destruct (Z.leb_spec v 0) as [Hv|Hv].
  - left. unfold trx_item. rewrite Hc. simpl. rewrite (proj2 (Z.leb_le v 0) Hv).
    by destruct (String.eqb _ _).
  - right. exists v. assert (trx_to (to_hex payload) v tx) as Htx by (split; [done|]; eauto).
    split; [done|]. by apply trx_item_found.
Qed.
End Recording.

Lemma same_terms_key p q : same_terms p q → same_deposit_key q p.
Proof. intros (_ & _ & _ & ? & ? & ?). by repeat split. Qed.

(** A known input has a row under its key. *)
Lemma known_row input now w d :
  input_known input d ≠ None →
  ∃ id dep, deposits d !! id = Some dep ∧ same_deposit_key dep (input_deposit now input w).
Proof.
  unfold input_known, find_deposit. destruct (find _ _) as [[id dep]|] eqn:E; [|done]. intros _.
  apply find_some in E as [Hin%list_elem_of_In%elem_of_map_to_list Hkey]. unfold same_key in Hkey.
  simpl in Hkey. bool_prop. by exists id, dep.
Qed.

(** Under the unique key the one row is the only one. *)
Lemma key_once d r (P : deposit → Prop) :
  deposits_ok d →
  (∃ id dep, deposits d !! id = Some dep ∧ same_deposit_key dep r ∧ P dep) →
  ∃ id dep, deposits d !! id = Some dep ∧ same_deposit_key dep r ∧
    (∀ j q, deposits d !! j = Some q → same_deposit_key q r → j = id) ∧ P dep.
Proof.
  intros Hok (id & dep & Hid & Hkey & HP). exists id, dep. repeat (split; [done|]). split; [|done].
  intros j q Hj Hq. apply (ok_keys d Hok j id q dep Hj Hid).
  destruct Hkey as (? & ? & ?), Hq as (? & ? & ?). repeat split; congruence.
Qed.

(** C12. The native transfers to a user's wallet are recorded exactly once. When TronGrid
    lists the transactions of a wallet's address, then after the call, running alone on a
    database that the deposit services can reach, every successful transfer to the account
    of that address has one deposit and no second one under its transaction hash and
    address; if it had none before, the deposit is of the wallet's user, in TRX, for the
    transfer's amount; every deposit the call adds is that of such a listed transfer; and
    every older deposit keeps its terms. *)
Theorem trx_transfers_recorded (sha256 : list Z → list Z) (payload : list Z) (address currency : string)
    (grid : tron_grid) (ix : tron_indexer) (ids : nat → string) (now : Z) (d : deposit_db)
    (l : list native_tx) (w : wallet) :
  hash_bytes sha256 → account payload → hexToBase58 sha256 (to_hex payload) = Some address →
  ti_trxCurrencyId ix = Some currency → symbol_of currency d ≠ None →
  find (λ w, String.eqb (wal_address w) address && String.eqb (wal_chain_id w) "tron") (wallets d)
    = Some w →
  deposits_ok d → fresh_ids ids d → tg_native grid address = Answer l → NoDup (nt_txID <$> l) →
  let d' := snd (processTrxTransfers grid ix ids now address d) in
  let row tx v := input_deposit now
    (tron_input grid ix address (nt_txID tx) currency (dec v 6)) w in
  (∀ tx v, tx ∈ l → trx_to (to_hex payload) v tx →
     ∃ id dep, deposits d' !! id = Some dep ∧ same_deposit_key dep (row tx v) ∧
       (∀ j q, deposits d' !! j = Some q → same_deposit_key q (row tx v) → j = id) ∧
       (find_deposit "tron" (nt_txID tx) address d = None → same_terms (row tx v) dep)) ∧
  (∀ id dep, deposits d' !! id = Some dep → deposits d !! id = None →
     ∃ tx v, tx ∈ l ∧ trx_to (to_hex payload) v tx ∧ same_terms (row tx v) dep) ∧
  (∀ id dep, deposits d !! id = Some dep →
     ∃ dep', deposits d' !! id = Some dep' ∧ same_terms dep dep').
Proof.
  intros Hsha Hacc Haddr Hcur Hsym Hw Hok0 Hids Hl Hnd d' row.
  pose proof Hacc as (Hb & _). subst d'. unfold processTrxTransfers.
  rewrite Hcur, Hl, (address_roundtrip _ _ _ Hsha Hacc Haddr).
  assert (∀ tx v, trx_to (to_hex payload) v tx →
    acceptable (tron_input grid ix address (nt_txID tx) currency (dec v 6)) d w) as Hok.
  { intros tx v (Hv & _). split; [simpl; unfold dec, SCALE; simpl; lia|]. by split. }
  pose proof (process_items_moves (trx_item grid ix address (to_hex payload) currency <$> l) ids now d)
    as Hmoves.
  split; [|split].
  - intros tx v Htx Hto.
    apply (key_once _ _ _ (moves_ok _ _ Hok0 Hmoves)).
    destruct (find_deposit "tron" (nt_txID tx) address d) as [x|] eqn:Hx.
    { assert (input_known (tron_input grid ix address (nt_txID tx) currency (dec v 6)) d ≠ None)
        as Hk.
      { change (find_deposit "tron" (nt_txID tx) address d ≠ None). by rewrite Hx. }
      apply (input_known_moves _ _ _ Hmoves), (known_row _ now w) in Hk as (id & dep & Hdep & Hkey).
      by exists id, dep. }
    apply list_elem_of_lookup in Htx as [i Hi].
    destruct (process_items_first now (trx_item grid ix address (to_hex payload) currency <$> l)
      ids d i (tron_input grid ix address (nt_txID tx) currency (dec v 6)) w) as (dep & Hdep & Hst);
      [done| |by apply Hok|done| |exists (ids i), dep].
    + rewrite list_lookup_fmap, Hi. simpl. by rewrite (trx_item_found _ _ _ _ _ _ _ Hb Hto).
    + intros j it Hj Hit. rewrite list_lookup_fmap in Hit.
      destruct (l !! j) as [tx'|] eqn:Htx'; [|done]. injection Hit as Hit.
      destruct (trx_item_inv _ _ _ _ _ _ _ Hb Hit) as [->|(v' & _ & ->)]; [done|].
      split; [done|]. intros input' [= <-]. simpl. intros Heq.
      assert (j = i); [|lia]. eapply (NoDup_lookup _ _ _ (nt_txID tx)); [exact Hnd| |];
        rewrite list_lookup_fmap; [by rewrite Htx', <- Heq|by rewrite Hi].
    + split; [done|]. split; [|done]. by apply same_terms_key.
  - intros id dep Hdep Hn. destruct (process_items_only now _ ids d id dep Hids Hdep Hn)
      as (i & input & w' & Hi & -> & Hacc' & _ & Hst).
    rewrite list_lookup_fmap in Hi. destruct (l !! i) as [tx|] eqn:Htx; [|done].
    injection Hi as Hi. destruct (trx_item_inv _ _ _ _ _ _ _ Hb Hi) as [?|(v & Hto & [= ->])]; [done|].
    exists tx, v. split; [by eapply list_elem_of_lookup_2|]. split; [done|].
    assert (w' = w) as -> by (destruct Hacc' as (_ & ? & _), (Hok tx v Hto) as (_ & ? & _); congruence).
    done.
  - intros id dep Hid. apply (snapshot_moves d _ (id, dep) ltac:(by exists dep; split) Hmoves).
Qed.

(** Of two TRC-20 transfers of one transaction to an address only the first is recorded: the
    second, even of another token, never gets a deposit. *)
Theorem trc20_second_transfer_lost (grid : tron_grid) (ix : tron_indexer) (ids : nat → string)
    (now : Z) (address : string) (d : deposit_db) (l : list trc20_transfer) (i j : nat)
    (p q : non_evm_input) (w : wallet) :
  deposits_ok d → fresh_ids ids d → tg_trc20 grid address = Answer l → (i < j)%nat →
  (trc20_item grid ix address <$> l) !! i = Some (Found p) →
  (trc20_item grid ix address <$> l) !! j = Some (Found q) →
  ne_txHash p = ne_txHash q → acceptable p d w → input_known p d = None →
  (∀ k it, (k < i)%nat → (trc20_item grid ix address <$> l) !! k = Some it → it ≠ ItemThrows ∧
     ∀ input, it = Found input → ne_txHash input ≠ ne_txHash p) →
  deposits (snd (processTrc20Transfers grid ix ids now address d)) !! ids j = None.
Proof.
  intros Hok Hids Hl Hij Hi Hj Htx Hacc Hx Hfirst. unfold processTrc20Transfers. rewrite Hl.
  assert (∀ k it, (trc20_item grid ix address <$> l) !! k = Some (Found it) →
    ne_chainId it = "tron" ∧ ne_toAddress it = address) as Hkey.
  { intros k it Hk. rewrite list_lookup_fmap in Hk. destruct (l !! k) as [t|]; [|done].
    injection Hk as Hk. unfold trc20_item in Hk. destruct (mbind _ _) as [tok|]; [|done].
    destruct (negb _); [done|]. destruct (tt_value t); [|done]. destruct (_ <? 0); [done|].
    destruct (_ <=? 0); [done|]. by injection Hk as <-. }
  destruct (process_items_first now _ ids d i p w Hids Hi Hacc Hx Hfirst) as (dep & Hdep & Hst).
  set (d' := snd _) in *. destruct (deposits d' !! ids j) as [dep2|] eqn:Hd2; [exfalso|done].
  destruct (process_items_only now _ ids d (ids j) dep2 Hids Hd2 (proj2 Hids j))
    as (k & input & w' & Hk & Hjk%(proj1 Hids) & _ & _ & Hst2). subst k.
  rewrite Hj in Hk. injection Hk as <-.
  pose proof (moves_ok d d' Hok (process_items_moves _ _ _ _)) as Hok'.
  assert (ids i = ids j) as Hids_eq; [|apply (proj1 Hids) in Hids_eq; lia].
  apply (ok_keys d' Hok' _ _ dep dep2 Hdep Hd2).
  destruct Hst as (_ & _ & _ & E1 & E2 & E3), Hst2 as (_ & _ & _ & F1 & F2 & F3).
  destruct (Hkey i p Hi) as [Hc1 Ha1], (Hkey j q Hj) as [Hc2 Ha2].
  simpl in *. repeat split; congruence.
Qed.

(** ** A tick is a run of the deposit system

    So [Deposits.deposit_credited_at_most_once] covers it, interleaved with all others. *)
Section Tick.
Context `{DecimalJs}.

Lemma process_items_steps items ids now d l :
  rtc deposit_step (DepositSys d l) (DepositSys (snd (process_items items ids now d)) l).
Proof.
  revert ids d. induction items as [|[| |input] items IH]; intros ids d; cbn [process_items].
  - apply rtc_refl.
  - apply IH.
  - apply rtc_refl.
  - eapply rtc_l; [apply st_record|apply IH].
Qed.

Lemma process_addresses_steps grid ix now addresses ids d l :
  rtc deposit_step (DepositSys d l) (DepositSys (process_addresses grid ix ids now addresses d) l).
Proof.
  revert ids d. induction addresses as [|a addresses IH]; intros ids d; [apply rtc_refl|].
  cbn [process_addresses]. etransitivity; [|apply IH].
  assert (∀ ids d, rtc deposit_step (DepositSys d l)
    (DepositSys (snd (processTrc20Transfers grid ix ids now a d)) l)) as H20.
  { intros. unfold processTrc20Transfers. destruct (tg_trc20 grid a); try apply rtc_refl.
    apply process_items_steps. }
  assert (∀ ids d, rtc deposit_step (DepositSys d l)
    (DepositSys (snd (processTrxTransfers grid ix ids now a d)) l)) as Htrx.
  { intros. unfold processTrxTransfers. destruct (ti_trxCurrencyId ix); [|apply rtc_refl].
    destruct (tg_native grid a); try apply rtc_refl. destruct (base58ToHex a); [|apply rtc_refl].
    apply process_items_steps. }
  unfold process_address. destruct (bool_decide _); [apply Htrx|].
  specialize (H20 (ids 0%nat 0%nat) d). destruct (processTrc20Transfers _ _ _ _ _ d) as [[] d1];
    [|exact H20]. etransitivity; [exact H20|apply Htrx].
Qed.

Lemma ready_loop_steps conf rows n d l :
  (∀ row, row ∈ rows → row ∈ l) →
  rtc deposit_step (DepositSys d l) (DepositSys (snd (ready_loop conf rows n d)) l).
Proof.
  revert n d. induction rows as [|row rows IH]; intros n d Hl; [apply rtc_refl|].
  cbn [ready_loop]. destruct (ready_item conf row d) as [ok d1] eqn:E.
  eapply rtc_l; [apply (st_ready conf row d l); apply Hl; by left|]. rewrite E. apply IH.
  intros r Hr. apply Hl. by right.
Qed.

(** What a tick does is a run of steps that record deposits, read the rows to credit and
    credit them. *)
Lemma tick_steps grid q ids now ix d l :
  ∃ l', rtc deposit_step (DepositSys d l) (DepositSys (snd (snd (tick grid q ids now ix d))) l').
Proof.
  unfold tick. destruct (negb _); [exists l; apply rtc_refl|].
  destruct (tick_tip _ _) as [tip last]. destruct (ti_watched _) as [|a addresses];
    [exists l; apply rtc_refl|].
  set (ix2 := set_tick _ _ _). set (d1 := process_addresses _ _ _ _ _ d).
  unfold creditReadyDepositsForChain.
  set (conf := λ (txHash : string) (_ : string), fetchTxConfirmations grid tip txHash).
  pose proof (ready_loop_steps conf (ready_rows CHAIN_ID_TRON d1) 0 d1
    (l ++ ready_rows CHAIN_ID_TRON d1)) as Hloop.
  destruct (ready_loop _ _ _ d1) as [n d2]. exists (l ++ ready_rows CHAIN_ID_TRON d1).
  etransitivity; [apply process_addresses_steps|].
  eapply rtc_l; [apply (st_read_ready CHAIN_ID_TRON)|]. apply Hloop.
  intros row Hrow. apply elem_of_app. by right.
Qed.
End Tick.
