(* ===== verification/TronDemo.v ===== *)
(** * Tron at a concrete wallet

    The address codec on an account, and listings of native and TRC-20 transfers to its
    wallet: the theorems of [Tron] applied to them. *)
From stdpp Require Import base gmap strings list fin_maps pretty relations.
From Stdlib Require Import ZArith Lia.
From S2P Require Import Prelude Money Balances Escrow DepositModel Indexer Deposits.
From S2P Require Import DepositScan TronModel Tron.
Local Open Scope Z_scope.

(** A checksum in the place of SHA-256. *)
Definition demo_sha (l : list Z) : list Z := replicate 32 (lsum id l mod 256).
Lemma demo_sha_bytes : hash_bytes demo_sha.
Proof.
  intros l. split; [|apply length_replicate].
  apply Forall_replicate, Z.mod_pos_bound. lia.
Qed.

(** The account of the contract of USDT. *)
Definition demo_account : list Z := from_hex "41a614f803b6fd780986a42c78ec9c7f77e6ded13c".
Definition demo_address : string := default "" (hexToBase58 demo_sha (to_hex demo_account)).
Lemma demo_account_ok : account demo_account.
Proof.
  split; [|split; [reflexivity|]].
  - unfold bytes, is_byte. vm_compute. repeat (constructor; [split; [discriminate|reflexivity]|]).
    constructor.
  - exists 65. split; [|done]. vm_compute. by left.
Qed.

(** The address of the contract is decoded to the account TronGrid knows it by. *)
Lemma usdt_address :
  base58ToHex "TR7NHqjeKQxGTCi8q8ZY4pL8otSzgjLj6t" = Some (to_hex demo_account).
Proof. vm_compute. reflexivity. Qed.

(** A text of zeros alone does not round-trip. *)
Lemma zeros_do_not_roundtrip : base58Decode (base58Encode [0; 0]) = Some [0; 0; 0; 0].
Proof. vm_compute. reflexivity. Qed.

Lemma tron_addresses_roundtrip_witness :
  base58Decode (base58Encode [0; 0; 65; 7]) = Some [0; 0; 65; 7] ∧
  base58ToHex demo_address = Some (to_hex demo_account).
Proof.
  destruct (tron_addresses_roundtrip demo_sha demo_sha_bytes) as (H1 & H2 & _). split.
  - apply H1; [|exists 65; split; [by right; right; left|done]].
    unfold bytes, is_byte. repeat (constructor; [lia|]). constructor.
  - destruct (H2 demo_account demo_account_ok) as (a & Ha & Hhex).
    unfold demo_address. rewrite Ha. exact Hhex.
Defined.

Definition tron_wallet : wallet := Wallet "w1" "alice" demo_address "tron".
Definition tron_db : deposit_db :=
  DepositDb empty_balances ∅ [Currency "cur-trx" "TRX"; Currency "cur-usdt" "USDT"] []
    [tron_wallet] [] [] [].
Definition tron_ids (i : nat) : string := String.append "dep-" (pretty (N.of_nat i)).
Lemma tron_ids_fresh : fresh_ids tron_ids tron_db.
Proof.
  split; [|done]. unfold tron_ids. intros i j Hij.
  apply (inj (String.append "dep-")) in Hij. apply (inj pretty) in Hij. lia.
Qed.

Definition tron_transfer (tx : string) (v : Z) (ret : string) : native_tx :=
  NativeTx tx (Some (TronContract "TransferContract"
    (Some "41A614F803B6FD780986A42C78EC9C7F77E6DED13C") (Some v))) (Some ret).
(** A transfer, one that failed, and a call of a contract. *)
Definition tron_listing : list native_tx :=
  [tron_transfer "tx1" 12500000 "SUCCESS"; tron_transfer "tx2" 5000000 "REVERT";
   NativeTx "tx3" (Some (TronContract "TriggerSmartContract" None None)) (Some "SUCCESS")].
(** Two transfers of USDT in one transaction. *)
Definition usdt_listing : list trc20_transfer :=
  [Trc20Transfer "tx9" demo_address (Some 3000000) (Some "TR7usdt");
   Trc20Transfer "tx9" demo_address (Some 70000000) (Some "TR7usdt")].
Definition tron_grid_demo : tron_grid :=
  TronGrid (Answer (Some 1000)) (λ _, Answer usdt_listing) (λ _, Answer tron_listing)
    (λ tx, if String.eqb tx "tx1" then Answer 975 else Answer 995).
Definition tron_indexer_demo : tron_indexer :=
  TronIndexer [demo_address] (Some "cur-trx") {["TR7usdt" := Trc20Currency "cur-usdt" 6]} 20 1000 0
    true.

Lemma trx_transfers_recorded_witness :
  let d' := snd (processTrxTransfers tron_grid_demo tron_indexer_demo tron_ids 7 demo_address tron_db) in
  ∃ id dep, deposits d' !! id = Some dep ∧ dep_user_id dep = "alice" ∧ dep_tx_hash dep = "tx1" ∧
    dep_amount dep = dec 125 1.
Proof.
  destruct (trx_transfers_recorded demo_sha demo_account demo_address "cur-trx" tron_grid_demo
    tron_indexer_demo tron_ids 7 tron_db tron_listing tron_wallet demo_sha_bytes demo_account_ok)
    as [Hrec _].
  - vm_compute. reflexivity.
  - reflexivity.
  - discriminate.
  - reflexivity.
  - apply (no_deposits_ok (DepositSys tron_db [])). split; [reflexivity|]. split; [reflexivity|]. intros id. reflexivity.
  - exact tron_ids_fresh.
  - reflexivity.
  - repeat (constructor; [vm_compute; set_solver|]). constructor.
  - destruct (Hrec (tron_transfer "tx1" 12500000 "SUCCESS") 12500000) as (id & dep & Hd & _ & _ & Hst).
    + by left.
    + split; [lia|]. split; [reflexivity|]. eexists. split; [|reflexivity]. vm_compute. reflexivity.
    + exists id, dep. destruct (Hst ltac:(reflexivity)) as (Hu & _ & Ha & _ & Ht & _). split; [exact Hd|].
      rewrite <- Hu, <- Ht, <- Ha. split; [reflexivity|]. split; [reflexivity|].
      vm_compute. reflexivity.
Defined.

(** The second transfer of "tx9", of 70 USDT, is lost. *)
Lemma second_usdt_transfer_lost :
  let d' := snd (processTrc20Transfers tron_grid_demo tron_indexer_demo tron_ids 7 demo_address
                   tron_db) in
  dep_amount <$> deposits d' !! "dep-0" = Some (dec 3 0) ∧ deposits d' !! "dep-1" = None.
Proof. vm_compute. split; reflexivity. Qed.

(** A token without decimals is read as one with six: 5 tokens are recorded as 5 millionths. *)
Lemma token_without_decimals :
  token_table [("cur-t", ("TR7t", 0))] = {["TR7t" := Trc20Currency "cur-t" 6]}.
Proof. vm_compute. reflexivity. Qed.

(** One tick records the deposits and credits the one that is deep enough. *)
Lemma tick_credits :
  let '(credited, (ix, d)) := tick tron_grid_demo
    (TronTables None None None None None) (λ _ i j, String.append (pretty (N.of_nat i)) (tron_ids j))
    7 tron_indexer_demo tron_db in
  credited = 1.
Proof. vm_compute. reflexivity. Qed.
