(* ===== verification/WithdrawalModel.v ===== *)
(** * Withdrawals: the model

    The on-chain withdrawal of [POST /withdrawals] and [POST /withdrawals/:id/cancel]
    ([routes/wallet.fastify.ts]), the admin's decision
    ([services/withdrawal-approval.service.ts]), the signing queue
    ([services/withdrawal-signing.service.ts]) and the caps of the hot wallets
    ([services/hot-wallet.service.ts]).

    A row of [withdrawal_signing_queue] is identified by its unique idempotency key, which
    is the withdrawal's id. A call is a process over a node: the database, the transactions
    handed to the chain (a ghost), and the number of statements after which the process
    stops, if it does. *)
From stdpp Require Import base gmap strings list fin_maps.
From Stdlib Require Import ZArith Lia.
From S2P Require Import Prelude Money Balances Escrow.
Local Open Scope Z_scope.

(** ** Tables *)
Inductive w_status :=
  | WPendingEmail | WPending2fa | WPendingApproval | WPending | WCompleted | WFailed | WCancelled.
#[export] Instance w_status_eq_dec : EqDecision w_status.
Proof. solve_decision. Defined.

Record withdrawal := Withdrawal {
  w_user_id : string;
  w_token_id : string;
  w_chain_id : option string;
  w_amount : Z;
  w_fee : Z;
  w_net_amount : Z;
  w_to_address : string;
  w_account_type : string;
  w_idempotency_key : string;
  w_created_at : Z;
  w_status_ : w_status;
  w_treasury_stage : string;
  w_tx_hash : option string;
  w_failed_reason : option string;
  w_completed_at : option Z;
}.

(** [withdrawal_signing_queue_status_check] *)
Inductive q_status := QPending | QSigning | QBroadcast | QCompleted | QFailed | QUncertain.
#[export] Instance q_status_eq_dec : EqDecision q_status.
Proof. solve_decision. Defined.

Record queue_row := QueueRow {
  q_chain_id : option string;
  q_status_ : q_status;
  q_signed_tx_hex : option string;
  q_tx_hash : option string;
  q_error_message : option string;
  q_attempts : Z;
  q_max_attempts : Z;
  q_created_at : Z;
}.

(** The columns of [tokens] besides those in [Escrow.token]. *)
Record token_row := TokenRow {
  tk_is_native : bool;
  tk_decimals : Z;
  tk_withdrawal_fee : option Z;
  tk_min_withdrawal : option Z;
  tk_max_withdrawal : option Z;
  tk_is_high_risk : bool;
}.
Record hot_wallet := HotWallet {
  hw_chain_id : string;
  hw_is_active : bool;
  hw_max_single_tx : option Z;
  hw_max_daily_outflow : option Z;
  hw_balance_cache : Z;
}.
Record chain_row := ChainRow { ch_id : string; ch_type : string; ch_is_active : bool }.

Record withdraw_db := WithdrawDb {
  wdb_core : escrow_db;
  token_rows : gmap string token_row;
  withdrawals : gmap string withdrawal;
  signing_queue : gmap string queue_row;
  hot_wallets : list hot_wallet;
  chains : list chain_row;
}.

#[export] Instance withdraw_db_balances : Store withdraw_db balances.
Proof.
  refine {| sget := λ d, edb_balances (wdb_core d);
            sput := λ b d, WithdrawDb (sput b (wdb_core d)) (token_rows d) (withdrawals d)
                             (signing_queue d) (hot_wallets d) (chains d) |}; by intros [[]].
Defined.

Definition put_withdrawal (id : string) (w : withdrawal) (d : withdraw_db) : withdraw_db :=
  WithdrawDb (wdb_core d) (token_rows d) (<[id := w]> (withdrawals d)) (signing_queue d)
    (hot_wallets d) (chains d).
Definition put_queue (id : string) (q : queue_row) (d : withdraw_db) : withdraw_db :=
  WithdrawDb (wdb_core d) (token_rows d) (withdrawals d) (<[id := q]> (signing_queue d))
    (hot_wallets d) (chains d).
Definition put_wallets (hw : list hot_wallet) (d : withdraw_db) : withdraw_db :=
  WithdrawDb (wdb_core d) (token_rows d) (withdrawals d) (signing_queue d) hw (chains d).

(** [UPDATE withdrawals SET status, treasury_stage, failed_reason, tx_hash, completed_at] *)
Definition set_w (w : withdrawal) (st : w_status) (stage : string)
    (reason tx_hash : option string) (completed : option Z) : withdrawal :=
  Withdrawal (w_user_id w) (w_token_id w) (w_chain_id w) (w_amount w) (w_fee w)
    (w_net_amount w) (w_to_address w) (w_account_type w) (w_idempotency_key w)
    (w_created_at w) st stage tx_hash reason completed.
Definition set_stage (stage : string) (w : withdrawal) : withdrawal :=
  set_w w (w_status_ w) stage (w_failed_reason w) (w_tx_hash w) (w_completed_at w).
Definition set_failed_w (reason : string) (w : withdrawal) : withdrawal :=
  set_w w WFailed "failed" (Some reason) (w_tx_hash w) (w_completed_at w).
Definition set_approved (w : withdrawal) : withdrawal :=
  set_w w WPending "checker_approved" (w_failed_reason w) (w_tx_hash w) (w_completed_at w).
Definition set_completed_w (txHash : string) (now : Z) (w : withdrawal) : withdrawal :=
  set_w w WCompleted (w_treasury_stage w) (w_failed_reason w) (Some txHash) (Some now).
Definition set_cancelled (w : withdrawal) : withdrawal :=
  set_w w WCancelled (w_treasury_stage w) (w_failed_reason w) (w_tx_hash w) (w_completed_at w).

Definition set_q (q : queue_row) (st : q_status) (signed tx_hash err : option string)
    (attempts : Z) : queue_row :=
  QueueRow (q_chain_id q) st signed tx_hash err attempts (q_max_attempts q) (q_created_at q).
Definition set_q_status (st : q_status) (q : queue_row) : queue_row :=
  set_q q st (q_signed_tx_hex q) (q_tx_hash q) (q_error_message q) (q_attempts q).
Definition set_q_failed (st : q_status) (err : string) (q : queue_row) : queue_row :=
  set_q q st (q_signed_tx_hex q) (q_tx_hash q) (Some err) (q_attempts q).

Definition update_w (id : string) (f : withdrawal → withdrawal) : M withdraw_db unit :=
  modify (λ d, match withdrawals d !! id with Some w => put_withdrawal id (f w) d | None => d end).
Definition update_q (id : string) (f : queue_row → queue_row) : M withdraw_db unit :=
  modify (λ d, match signing_queue d !! id with Some q => put_queue id (f q) d | None => d end).

(** ** Nodes *)
(** Processes here hand signed transactions to the chain, with their withdrawals. *)
Definition wnode : Type := node withdraw_db (string * string).

(** [provider.broadcastTransaction(signedTx)]; [None] when it throws. The chain may have
    taken the transaction in both cases. *)
Definition broadcastTransaction (id signedTx : string) (answer : option string) :
    Proc wnode (option string) := send (id, signedTx) answer.

(** ** [services/hot-wallet.service.ts] *)
Definition active_wallet (chainId : string) (hw : hot_wallet) : bool :=
  String.eqb (hw_chain_id hw) chainId && hw_is_active hw.

Definition resolveHotWalletChainId (chainId : string) (d : withdraw_db) : option string :=
  match find (active_wallet chainId) (hot_wallets d) with
  | Some hw => Some (hw_chain_id hw)
  | None =>
      c ← find (λ c, String.eqb (ch_id c) chainId && ch_is_active c) (chains d);
      hw_chain_id <$> find (λ hw, hw_is_active hw &&
        existsb (λ c', String.eqb (ch_id c') (hw_chain_id hw) && String.eqb (ch_type c') (ch_type c))
          (chains d)) (hot_wallets d)
  end.

Definition getHotWalletByChainId (chainId : string) (d : withdraw_db) : option hot_wallet :=
  resolved ← resolveHotWalletChainId chainId d;
  find (active_wallet resolved) (hot_wallets d).

(** [since] is [NOW() - INTERVAL '24 hours']. *)
Definition getDailyOutflowForChain (since : Z) (chainId : string) (d : withdraw_db) : Z :=
  match resolveHotWalletChainId chainId d with
  | Some resolved =>
      msum (λ _ w, if bool_decide (w_chain_id w = Some resolved)
                      && bool_decide (w_status_ w = WCompleted)
                      && match w_completed_at w with Some t => since <=? t | None => false end
                   then w_net_amount w else 0) (withdrawals d)
  | None => 0
  end.

Inductive cap_code := CapOk | SINGLE_TX_CAP_EXCEEDED | DAILY_CAP_EXCEEDED.
#[export] Instance cap_code_eq_dec : EqDecision cap_code.
Proof. solve_decision. Defined.

Section Model.
Context `{DecimalJs}.

Definition checkHotWalletCaps (since : Z) (chainId : string) (netAmount : Z) (d : withdraw_db) :
    cap_code :=
  match getHotWalletByChainId chainId d with
  | None => CapOk
  | Some caps =>
      let amount := toDP 18 netAmount in
      if match hw_max_single_tx caps with Some m => toDP 18 m <? amount | None => false end
      then SINGLE_TX_CAP_EXCEEDED
      else if match hw_max_daily_outflow caps with
              | Some m => toDP 18 m <?
                  dplus (toDP 18 (getDailyOutflowForChain since chainId d)) amount
              | None => false
              end
      then DAILY_CAP_EXCEEDED
      else CapOk
  end.

(** ** [services/withdrawal-approval.service.ts] *)
Definition requiresWithdrawalApproval (amount : Z) (highRisk : bool) (tokenThreshold : option Z)
    (configThreshold : Z) : bool :=
  highRisk || (default configThreshold tokenThreshold <? amount).

Definition chainOf (w : withdrawal) : string := default CHAIN_ID_GLOBAL (w_chain_id w).
Definition accountTypeOf (raw dflt : string) : string := if String.eqb raw "" then dflt else raw.
(** [['funding', 'spot', 'trading'].includes(raw) ? raw : 'funding'] *)
Definition normal_account (raw : string) : string :=
  let a := accountTypeOf raw "funding" in
  if bool_decide (a ∈ ["funding"; "spot"; "trading"]) then a else "funding".
Definition currencyOf (w : withdrawal) (d : withdraw_db) : option string :=
  getCurrencyIdForToken (w_token_id w) (wdb_core d).
Definition withdrawal_key (w : withdrawal) (currencyId : string) : bal_key :=
  BalKey (w_user_id w) currencyId (chainOf w) (normal_account (w_account_type w)).
Definition total_of (w : withdrawal) : Z := dplus (w_amount w) (w_fee w).

Definition withdrawal_entry (k : bal_key) (debit credit before after : Z) (refId : string)
    (bt : balance_type) : ledger_entry :=
  LedgerEntry (user_id k) (currency_id k) (account_type k) debit credit before after
    "withdrawal" refId bt.

(** The release of a lock, guarded by [locked_balance >= total], as [rejectWithdrawal] and
    the cancel route write it. *)
Definition release_statements (missing : string) (k : bal_key) (total : Z) (refId : string) :
    M balances unit :=
  let enough r := total <=? locked_balance r in
  ensureUserBalanceRow k ;;;
  let* lockSel := select_balance k enough in
  let* before := get_or lockSel missing in
  let* upd := update_balance k enough (λ r, add_buckets r total (- total) 0 0 0) in
  let* row := assertUserBalanceUpdated upd in
  assertBalanceInvariant row ;;;
  insertBalanceLedger (withdrawal_entry k 0 total (available_balance before)
    (available_balance row) refId Available) ;;;
  insertBalanceLedger (withdrawal_entry k total 0 (locked_balance before)
    (locked_balance row) refId Locked).

Definition reject_body (id reason : string) : M withdraw_db unit :=
  let* found := gets (λ d, withdrawals d !! id) in
  let* w := get_or found "WITHDRAWAL_NOT_FOUND" in
  require (bool_decide (w_status_ w = WPendingApproval)) "NOT_PENDING_APPROVAL" ;;;
  let* cur := gets (currencyOf w) in
  let* currencyId := get_or cur "RELEASE_BALANCE_FAILED" in
  update_w id (set_failed_w (if String.eqb reason "" then "Rejected by admin" else reason)) ;;;
  zoom (release_statements "RELEASE_BALANCE_FAILED" (withdrawal_key w currencyId) (total_of w) id).

Definition rejectWithdrawal (id reason : string) : Proc wnode unit := tx (reject_body id reason).

(** ** [enqueueWithdrawal] *)
Record enqueue_result := EnqueueResult {
  eq_enqueued : bool; eq_reason : option string; eq_code : option cap_code }.
Definition ONLY_PENDING : string := "Only pending withdrawals can be enqueued".

Definition new_queue_row (chainId : option string) (now : Z) : queue_row :=
  QueueRow chainId QPending None None None 0 3 now.

Definition enqueue_body (since now : Z) (id : string) : M withdraw_db enqueue_result :=
  let* found := gets (λ d, withdrawals d !! id) in
  match found with
  | None => ret (EnqueueResult false (Some "Withdrawal not found") None)
  | Some w =>
      require (bool_decide (w_status_ w = WPending)) ONLY_PENDING ;;;
      let* hot := gets (getHotWalletByChainId (chainOf w)) in
      match hot with
      | None => ret (EnqueueResult false (Some "No hot wallet for chain") None)
      | Some _ =>
          let* cap := gets (checkHotWalletCaps since (chainOf w) (w_net_amount w)) in
          if negb (bool_decide (cap = CapOk))
          then ret (EnqueueResult false (Some "cap") (Some cap))
          else
            modify (λ d, match signing_queue d !! id with
                         | Some _ => d
                         | None => put_queue id (new_queue_row (w_chain_id w) now) d
                         end) ;;;
            let* check := gets (λ d, signing_queue d !! id) in
            ret (EnqueueResult
              match check with Some q => bool_decide (q_status_ q = QPending) | None => false end
              None None)
      end
  end.

Definition enqueueWithdrawal (since now : Z) (id : string) : Proc wnode enqueue_result :=
  try_catch (tx (enqueue_body since now id))
    (λ msg, match String.index 0 ONLY_PENDING msg with
            | Some _ => pthrow msg
            | None => pret (EnqueueResult false (Some msg) None)
            end).

(** ** [approveWithdrawal]

    The Redis lock is taken, held by another call, or skipped because Redis failed. *)
Inductive approve_lock := LockTaken | LockHeld | LockSkipped.

Definition approve_body (id : string) : M withdraw_db withdrawal :=
  let* found := gets (λ d, withdrawals d !! id) in
  let* w := get_or found "WITHDRAWAL_NOT_FOUND" in
  require (bool_decide (w_status_ w = WPendingApproval)) "NOT_PENDING_APPROVAL" ;;;
  update_w id set_approved ;;;
  ret w.

Definition approveWithdrawal (lock : approve_lock) (since now : Z) (id : string) :
    Proc wnode unit :=
  match lock with
  | LockHeld =>
      do* found := tx (gets (λ d, withdrawals d !! id)) in
      match w_status_ <$> found with
      | Some WPending => pret tt
      | Some WPendingApproval => pthrow "APPROVAL_IN_PROGRESS"
      | _ => pthrow "NOT_PENDING_APPROVAL"
      end
  | _ =>
      tx (approve_body id) >>>
      do* enq := enqueueWithdrawal since now id in
      match eq_code enq with
      | Some SINGLE_TX_CAP_EXCEEDED | Some DAILY_CAP_EXCEEDED => pthrow "HOT_WALLET_CAP_EXCEEDED"
      | _ => pret tt
      end
  end.

(** ** [services/withdrawal-signing.service.ts] *)
Definition MAX_ATTEMPTS : Z := 3.

(** What a run of the processor meets outside the database. *)
Inductive signer_result := SignerThrows (msg : string) | NoSigner | HasSigner.
Record sign_env := SignEnv {
  (** [redis.acquireLock] *)
  se_lock : bool;
  (** [config.signingService.remoteEnabled], [getSignerForChain] *)
  se_remote : bool;
  se_signer : signer_result;
  (** the signed transaction, [None] when signing throws *)
  se_sign : option string;
  (** the hash the node answers, [None] when it throws *)
  se_broadcast : option string;
  (** [Transaction.from(signedTx).hash], and whether the node knows it *)
  se_own_hash : option string;
  se_onchain : bool;
  (** the chain's row of [chains] has an RPC address *)
  se_chain_known : bool;
  se_since : Z;
  se_now : Z;
}.

(** *** [finishWithdrawalAfterSuccessfulBroadcast] *)
Definition complete_statements (k : bal_key) (total : Z) (refId : string) : M balances unit :=
  ensureUserBalanceRow k ;;;
  let* sel := select_balance k (λ _, true) in
  let* before := get_or sel "withdrawal_complete: balance row not found" in
  let* upd := update_balance k (λ r, total <=? locked_balance r)
                (λ r, add_buckets r 0 (- total) 0 0 0) in
  let* row := assertUserBalanceUpdated upd in
  assertBalanceInvariant row ;;;
  insertBalanceLedger (withdrawal_entry k total 0
    (toDP AMOUNT_PRECISION (locked_balance before))
    (toDP AMOUNT_PRECISION (dminus (locked_balance before) total)) refId Locked).

(** A queue status outside the column's CHECK. *)
Definition QUEUE_CHECK : string := "violates check constraint withdrawal_signing_queue_status_check".

(** [w] is the row read when the processing began. *)
Definition finish_body (id : string) (w : withdrawal) (txHash : string) (now : Z) :
    M withdraw_db bool :=
  let* cur := gets (currencyOf w) in
  let* found := gets (λ d, withdrawals d !! id) in
  match found with
  | None => update_q id (set_q_failed QFailed "Withdrawal not found") ;;; ret false
  | Some row =>
      match w_status_ row with
      | WCancelled => throw QUEUE_CHECK
      | WCompleted =>
          update_q id (λ q, set_q q QCompleted (q_signed_tx_hex q)
            (Some (default txHash (q_tx_hash q))) None (q_attempts q)) ;;;
          ret true
      | _ =>
          update_q id (λ q, set_q q QCompleted (q_signed_tx_hex q) (Some txHash) None
            (q_attempts q)) ;;;
          update_w id (set_completed_w txHash now) ;;;
          (match cur with
           | Some currencyId =>
               zoom (complete_statements (withdrawal_key w currencyId) (total_of w) id)
           | None => ret tt
           end) ;;;
          ret true
      end
  end.

Definition debit_cache (chainId : string) (wei : Z) : M withdraw_db unit :=
  modify (λ d, put_wallets ((λ hw, if active_wallet chainId hw
    then HotWallet (hw_chain_id hw) (hw_is_active hw) (hw_max_single_tx hw)
           (hw_max_daily_outflow hw) (hw_balance_cache hw - wei)
    else hw) <$> hot_wallets d) d).

Definition finishWithdrawal (id : string) (w : withdrawal) (txHash : string) (wei now : Z) :
    Proc wnode unit :=
  do* completionApplied := tx (finish_body id w txHash now) in
  if negb completionApplied then pret tt
  else
    do* resolved := tx (gets (resolveHotWalletChainId (chainOf w))) in
    match resolved with
    | Some chainId => tx (debit_cache chainId wei)
    | None => pret tt
    end.

Definition tryCompleteWithdrawalIfTxAlreadyOnChain (env : sign_env) (id : string)
    (w : withdrawal) (wei : Z) : Proc wnode bool :=
  match se_own_hash env with
  | None => pret false
  | Some txHash =>
      if negb (se_onchain env) then pret false
      else
        do* already := tx (gets (λ d, withdrawals d !! id)) in
        if bool_decide (w_status_ <$> already = Some WCompleted) then pret true
        else finishWithdrawal id w txHash wei (se_now env) >>> pret true
  end.

(** *** [markQueueFailed] *)
Definition refund_statements (k : bal_key) (total : Z) (refId : string) : M balances unit :=
  ensureUserBalanceRow k ;;;
  let* sel := select_balance k (λ _, true) in
  let* before := get_or sel "withdrawal_fail_refund: balance row not found" in
  require (negb (locked_balance before <? total)) "withdrawal_fail_refund: locked_balance" ;;;
  let* upd := update_balance k (λ _, true) (λ r, add_buckets r total (- total) 0 0 0) in
  let* row := assertUserBalanceUpdated upd in
  assertBalanceInvariant row ;;;
  insertBalanceLedger (withdrawal_entry k 0 total
    (toDP AMOUNT_PRECISION (available_balance before))
    (toDP AMOUNT_PRECISION (dplus (available_balance before) total)) refId Available) ;;;
  insertBalanceLedger (withdrawal_entry k total 0
    (toDP AMOUNT_PRECISION (locked_balance before))
    (toDP AMOUNT_PRECISION (dminus (locked_balance before) total)) refId Locked).

Definition markQueueFailed (id errorMessage : string) (refundOnFinal : bool) : Proc wnode unit :=
  do* found := tx (gets (λ d, signing_queue d !! id)) in
  match found with
  | None => pret tt
  | Some row =>
      let isFinal := q_max_attempts row <=? q_attempts row in
      if isFinal && negb refundOnFinal then
        tx (update_q id (set_q_failed QUncertain errorMessage)) >>>
        tx (update_w id (λ w, set_w w (w_status_ w) "broadcast_uncertain" (Some errorMessage)
              (w_tx_hash w) (w_completed_at w)))
      else
        tx (update_q id (set_q_failed (if isFinal then QFailed else QPending) errorMessage)) >>>
        if negb isFinal then pret tt
        else
          do* total_row := tx (gets (λ d, withdrawals d !! id)) in
          match total_row with
          | None => pret tt
          | Some w =>
              tx (update_w id (set_failed_w errorMessage)) >>>
              do* cur := tx (gets (currencyOf w)) in
              match cur with
              | Some currencyId =>
                  tx (zoom (refund_statements (withdrawal_key w currencyId) (total_of w) id))
              | None => pret tt
              end
          end
  end.

(** *** [processSigningQueue] *)
Definition claimable (q : queue_row) : bool :=
  (bool_decide (q_status_ q = QPending)
   || (bool_decide (q_status_ q = QBroadcast) && bool_decide (q_signed_tx_hex q ≠ None)))
  && (q_attempts q <? MAX_ATTEMPTS).

(** The first claimable row by [created_at]; the row as it was read. *)
Definition claim_body : M withdraw_db (option (string * queue_row)) :=
  let* rows := gets (λ d, sort_by (λ a b, q_created_at (snd a) <=? q_created_at (snd b))
    (filter (λ '(_, q), Is_true (claimable q)) (map_to_list (signing_queue d)))) in
  match rows with
  | [] => ret None
  | (id, q) :: _ =>
      update_q id (λ q, set_q q QSigning (q_signed_tx_hex q) (q_tx_hash q)
        (q_error_message q) (q_attempts q + 1)) ;;;
      ret (Some (id, q))
  end.

(** [valueWei]: the net amount in the chain's smallest unit. *)
Definition value_wei (w : withdrawal) (tk : token_row) : Z :=
  Z.div (dtimes (w_net_amount w) (10 ^ tk_decimals tk * one)) one.

(** The signed transaction: the stored one when the claimed row was a broadcast to retry. *)
Definition sign_transaction (env : sign_env) (id : string) (claimed : queue_row) :
    Proc wnode (option string) :=
  match q_status_ claimed, q_signed_tx_hex claimed with
  | QBroadcast, Some hex => pret (Some hex)
  | _, _ =>
      match se_sign env with
      | None => markQueueFailed id "Sign failed" true >>> pret None
      | Some signedTx =>
          tx (update_q id (λ q, set_q q QBroadcast (Some signedTx) (q_tx_hash q)
                (q_error_message q) (q_attempts q))) >>>
          tx (update_w id (set_stage "signed")) >>>
          pret (Some signedTx)
      end
  end.

(** After the broadcast. *)
Definition broadcast_failed (env : sign_env) (id : string) (w : withdrawal) (wei : Z) :
    Proc wnode unit :=
  do* r := tx (gets (λ d, signing_queue d !! id)) in
  if match r with Some q => q_max_attempts q <=? q_attempts q | None => false end then
    do* recovered := tryCompleteWithdrawalIfTxAlreadyOnChain env id w wei in
    if recovered then pret tt
    else markQueueFailed id "Broadcast failed after max retries" false
  else tx (update_q id (set_q_status QBroadcast)).

Definition sign_and_broadcast (env : sign_env) (id : string) (claimed : queue_row)
    (w : withdrawal) (wei : Z) : Proc wnode unit :=
  do* signed := sign_transaction env id claimed in
  match signed with
  | None => pret tt
  | Some signedTx =>
      do* sent := broadcastTransaction id signedTx (se_broadcast env) in
      match sent with
      | Some txHash =>
          tx (update_w id (set_stage "broadcasted")) >>>
          finishWithdrawal id w txHash wei (se_now env)
      | None => broadcast_failed env id w wei
      end
  end.

Definition processSigningQueueClaimed (env : sign_env) (id : string) (claimed : queue_row) :
    Proc wnode unit :=
  do* found := tx (gets (λ d, withdrawals d !! id)) in
  match found with
  | None => markQueueFailed id "Withdrawal not found" true
  | Some w =>
      if negb (bool_decide (w_status_ w = WPending))
      then markQueueFailed id "only pending withdrawals can be signed" true
      else
        do* cap := tx (gets (checkHotWalletCaps (se_since env) (chainOf w) (w_net_amount w))) in
        if negb (bool_decide (cap = CapOk)) then markQueueFailed id "cap exceeded" true
        else
          do* token := tx (gets (λ d, token_rows d !! w_token_id w)) in
          match token with
          | None => markQueueFailed id "Token not found" true
          | Some tk =>
              if negb (tk_is_native tk)
              then markQueueFailed id "Only native token withdrawals are supported by the hot wallet" true
              else if negb (se_chain_known env) then markQueueFailed id "Chain not found" true
              else
                let wei := value_wei w tk in
                if wei <=? 0 then markQueueFailed id "Invalid net amount for wei" true
                else if se_remote env then sign_and_broadcast env id claimed w wei
                else match se_signer env with
                     | SignerThrows msg => markQueueFailed id ("Signer failed: " +:+ msg) true
                     | NoSigner => markQueueFailed id "No hot wallet signer for chain" true
                     | HasSigner => sign_and_broadcast env id claimed w wei
                     end
          end
  end.

Definition release_claim (id : string) : M withdraw_db unit :=
  update_q id (λ q, set_q q QPending (q_signed_tx_hex q) (q_tx_hash q) (q_error_message q)
    (Z.max 0 (q_attempts q - 1))).

Definition processSigningQueue (env : sign_env) : Proc wnode unit :=
  do* claimed := tx claim_body in
  match claimed with
  | None => pret tt
  | Some (id, q) =>
      if negb (se_lock env) then tx (release_claim id)
      else processSigningQueueClaimed env id q
  end.

(** ** [routes/wallet.fastify.ts]: create and cancel *)
Record withdraw_request := WithdrawRequest {
  rq_user_id : string;
  rq_token_id : string;
  rq_amount : decval;
  rq_to_address : string;
  rq_account_type : string;
  rq_idempotency_key : string;
}.

(** The lock of the request's transaction: on the token's chain row, else on the global
    one. It returns the key it used. *)
Definition lock_statements (k : bal_key) (total : Z) (refId : string) : M balances bal_key :=
  let enough r := total <=? available_balance r in
  ensureUserBalanceRow k ;;;
  let* lockSel := select_balance k enough in
  let* found :=
    match lockSel with
    | Some r => ret (Some (r, k))
    | None =>
        if String.eqb (chain_id k) CHAIN_ID_GLOBAL then ret None
        else
          let kg := BalKey (user_id k) (currency_id k) CHAIN_ID_GLOBAL (account_type k) in
          ensureUserBalanceRow kg ;;;
          let* sel := select_balance kg enough in
          ret ((λ r, (r, kg)) <$> sel)
    end in
  let* found := get_or found "BALANCE_ROW_NOT_FOUND_OR_MISMATCH" in
  let '(before, used) := found in
  let* upd := update_balance used enough (λ r, add_buckets r (- total) total 0 0 0) in
  let* row := assertUserBalanceUpdated upd in
  assertBalanceInvariant row ;;;
  insertBalanceLedger (withdrawal_entry used total 0 (available_balance before)
    (available_balance row) refId Available) ;;;
  insertBalanceLedger (withdrawal_entry used 0 total (locked_balance before)
    (locked_balance row) refId Locked) ;;;
  ret used.

Definition new_withdrawal (rq : withdraw_request) (acct : string) (chain : option string)
    (amount fee net now : Z) (st : w_status) : withdrawal :=
  Withdrawal (rq_user_id rq) (rq_token_id rq) chain amount fee net (rq_to_address rq) acct
    (rq_idempotency_key rq) now st
    (if bool_decide (st = WPendingApproval) then "pending" else "checker_approved")
    None None None.

(** A value of [NUMERIC(36,18)] is below [10^18]. *)
Definition numeric_fits (x : Z) : bool := Z.abs x <? 10 ^ 54.

(** The transaction: the row (one per user and idempotency key) and its lock. *)
Definition create_body (id : string) (w : withdrawal) (currencyId : string) (total : Z) :
    M withdraw_db bal_key :=
  let* used := gets (λ d, bool_decide (withdrawals d !! id = None)
    && forallb (λ '(_, w'), negb (String.eqb (w_user_id w') (w_user_id w)
                   && String.eqb (w_idempotency_key w') (w_idempotency_key w)))
         (map_to_list (withdrawals d))) in
  require used "duplicate key value violates unique constraint" ;;;
  require (numeric_fits (w_amount w) && numeric_fits (w_fee w) && numeric_fits (w_net_amount w))
    "numeric field overflow" ;;;
  modify (put_withdrawal id w) ;;;
  zoom (lock_statements (BalKey (w_user_id w) currencyId (chainOf w) (w_account_type w)) total id).

(** What the handler reads besides the tables of the model: the available balance of the row
    [readUserBalances] finds, the limits, the starts of the day and the month, the refusal of
    the treasury policy, and the first of its other checks (risk, cooldown, KYC, address list, sanctions, second factor) that
    refuses, and whether a risk check asks for a review. *)
Record withdraw_world := WithdrawWorld {
  ww_available : option Z;
  ww_daily_limit : Z;
  ww_monthly_limit : Z;
  ww_day : Z;
  ww_month : Z;
  ww_treasury : option string;
  ww_policy : option string;
  ww_review : bool;
  ww_threshold : Z;
  ww_now : Z;
}.

Definition used_since (user : string) (t : Z) (d : withdraw_db) : Z :=
  msum (λ _ w, if String.eqb (w_user_id w) user
                  && bool_decide (w_status_ w ∈ [WPendingApproval; WPending; WCompleted])
                  && (t <=? w_created_at w)
               then w_amount w else 0) (withdrawals d).

Inductive create_result :=
  | Refused (code : string)
  | Created (st : w_status) (lockedOn : bal_key) (enqueued : option enqueue_result).

(** The token's own bounds. *)
Definition token_refusal (tk : token_row) (amount : Z) : option string :=
  let down := toDP AMOUNT_PRECISION in
  let minW := down (default 0 (tk_min_withdrawal tk)) in
  if (0 <? minW) && (amount <? minW) then Some "BELOW_MINIMUM"
  else if match tk_max_withdrawal tk with Some m => down m <? amount | None => false end
  then Some "ABOVE_MAXIMUM"
  else None.

(** The other checks on amounts, in their order; [None] when all pass. *)
Definition amount_refusal (ww : withdraw_world) (user : string)
    (amount fee : Z) (d : withdraw_db) : option string :=
  let down := toDP AMOUNT_PRECISION in
  let total := down (dplus amount fee) in
  let net := down (dminus amount fee) in
  if net <=? 0 then Some "FEE_CONFIG_MISSING"
  else if down (default 0 (ww_available ww)) <? total then Some "INSUFFICIENT_BALANCE"
  else if down (ww_daily_limit ww) <? dplus (down (used_since user (ww_day ww) d)) amount
  then Some "LIMIT_EXCEEDED"
  else if down (ww_monthly_limit ww) <? dplus (down (used_since user (ww_month ww) d)) amount
  then Some "LIMIT_EXCEEDED"
  else None.

(** [POST /withdrawals] with type [onchain], from the parsed amount on; [id] is the id of
    the new row. *)
Definition createWithdrawal (ww : withdraw_world) (rq : withdraw_request) (id : string)
    (since : Z) : Proc wnode create_result :=
  let acct := if bool_decide (rq_account_type rq ∈ ["funding"; "spot"; "trading"])
              then rq_account_type rq else "funding" in
  match rq_amount rq with
  | NonFinite => pret (Refused "INVALID_AMOUNT")
  | Fin raw =>
      let amount := toDP AMOUNT_PRECISION raw in
      if amount <=? 0 then pret (Refused "INVALID_AMOUNT")
      else
        do* d := tx (gets (λ d, d)) in
        match tokens (wdb_core d) !! rq_token_id rq, token_rows d !! rq_token_id rq with
        | Some tok, Some tk =>
            match ww_treasury ww with Some code => pret (Refused code) | None =>
            let fee := toDP AMOUNT_PRECISION (default 0 (tk_withdrawal_fee tk)) in
            match token_refusal tk amount with Some code => pret (Refused code) | None =>
            match getCurrencyIdBySymbol (tok_symbol tok) (wdb_core d) with
            | None => pret (Refused "INVALID_TOKEN")
            | Some currencyId =>
                match amount_refusal ww (rq_user_id rq) amount fee d with
                | Some code => pret (Refused code)
                | None =>
                    match ww_policy ww with
                    | Some code => pret (Refused code)
                    | None =>
                        let review := ww_review ww
                          || requiresWithdrawalApproval amount (tk_is_high_risk tk) None
                               (ww_threshold ww) in
                        let st := if review then WPendingApproval else WPending in
                        let w := new_withdrawal rq acct (tok_chain_id tok) amount fee
                          (toDP AMOUNT_PRECISION (dminus amount fee)) (ww_now ww) st in
                        do* used := tx (create_body id w currencyId
                                          (toDP AMOUNT_PRECISION (dplus amount fee))) in
                        if review then pret (Created st used None)
                        else
                          do* enq := enqueueWithdrawal since (ww_now ww) id in
                          pret (Created st used (Some enq))
                    end
                end
            end
            end
            end
        | _, _ => pret (Refused "INVALID_TOKEN")
        end
  end.

(** [POST /withdrawals/:id/cancel] *)
Definition NOT_CANCELLABLE : string := "Withdrawal no longer pending (possibly being processed)".

Definition cancel_body (id userId : string) : M withdraw_db unit :=
  let* found := gets (λ d, w ← withdrawals d !! id; tok ← tokens (wdb_core d) !! w_token_id w;
                           if String.eqb (w_user_id w) userId then Some (w, tok) else None) in
  let* found := get_or found "NOT_FOUND" in
  let '(w, tok) := found in
  require (bool_decide (w_status_ w = WPending)) NOT_CANCELLABLE ;;;
  require (match w_tx_hash w with Some h => String.eqb h "" | None => true end) "ALREADY_BROADCAST" ;;;
  let* cur := gets (λ d, getCurrencyIdBySymbol (tok_symbol tok) (wdb_core d)) in
  let* row := gets (λ d, withdrawals d !! id) in
  require (match row with
           | Some r => bool_decide (w_status_ r ∈ [WPendingApproval; WPendingEmail; WPending2fa])
           | None => false
           end) NOT_CANCELLABLE ;;;
  update_w id set_cancelled ;;;
  match cur with
  | Some currencyId =>
      zoom (release_statements "WITHDRAWAL_CANCEL_BALANCE_ROW_NOT_FOUND"
        (BalKey userId currencyId (chainOf w) (accountTypeOf (w_account_type w) "spot"))
        (toDP AMOUNT_PRECISION (total_of w)) id)
  | None => ret tt
  end.
Definition cancelWithdrawal (id userId : string) : Proc wnode unit := tx (cancel_body id userId).

(** [POST /withdrawals/:id/verify-email-otp], once the code has been checked. *)
Definition verifyEmail (since now : Z) (id : string) : Proc wnode unit :=
  do* found := tx (gets (λ d, withdrawals d !! id)) in
  match found with
  | None => pthrow "NOT_FOUND"
  | Some w =>
      tx (update_w id (λ w, if bool_decide (w_status_ w = WPendingEmail)
        then set_w w WPending (w_treasury_stage w) (w_failed_reason w) (w_tx_hash w)
               (w_completed_at w)
        else w)) >>>
      if bool_decide (w_status_ w = WPendingEmail)
      then do* _ := enqueueWithdrawal since now id in pret tt
      else pret tt
  end.
End Model.
