(* ===== verification/Withdrawals.v ===== *)
(** * Withdrawals: theorems

    Over [WithdrawalModel], for calls one after the other, in any order, that may stop after
    any statement: the
    money of a withdrawal leaves exactly once, statuses follow the state machine, and while
    no lock fell back to the global row every live withdrawal stays covered by its lock, so
    that rejecting and completing succeed with the exact effect. Then what goes wrong
    otherwise. *)
From stdpp Require Import base gmap strings list fin_maps.
From Stdlib Require Import ZArith Lia.
From S2P Require Import Prelude Money Balances Escrow WithdrawalModel.
Local Open Scope Z_scope.

Definition bal (d : withdraw_db) : balances := edb_balances (wdb_core d).

(** ** The balance statements *)
Section Statements.
Context `{DecimalJs}.

Lemma release_run missing k total id b :
  let r' := add_buckets (row_of k b) total (- total) 0 0 0 in
  match release_statements missing k total id b with
  | Ret (_, b') => total ≤ locked_balance (row_of k b) ∧ row_nonneg r' = true ∧ row_change k r' b b'
  | Throw e => locked_balance (row_of k b) < total ∧ e = missing ∨ row_nonneg r' = false
  end.
Proof.
  intros r'. unfold release_statements. balance_exec.
  destruct (total <=? _) eqn:E; bool_prop; [|by left]. balance_exec.
  rewrite (proj2 (Z.leb_le _ _)) by lia. balance_exec. fold r'.
  destruct (row_nonneg r') eqn:E2; balance_exec; [|by right].
  split; [done|]. split; [done|]. apply row_change_post.
Qed.

Lemma refund_run k total id b :
  let r' := add_buckets (row_of k b) total (- total) 0 0 0 in
  match refund_statements k total id b with
  | Ret (_, b') => total ≤ locked_balance (row_of k b) ∧ row_nonneg r' = true ∧ row_change k r' b b'
  | Throw _ => locked_balance (row_of k b) < total ∨ row_nonneg r' = false
  end.
Proof.
  intros r'. unfold refund_statements. balance_exec.
  destruct (_ <? total) eqn:E; bool_prop; cbn [negb]; [by left|]. balance_exec. fold r'.
  destruct (row_nonneg r') eqn:E2; balance_exec; [|by right].
  split; [lia|]. split; [done|]. apply row_change_post.
Qed.

Lemma complete_run k total id b :
  let r' := add_buckets (row_of k b) 0 (- total) 0 0 0 in
  match complete_statements k total id b with
  | Ret (_, b') => total ≤ locked_balance (row_of k b) ∧ row_nonneg r' = true ∧ row_change k r' b b'
  | Throw _ => locked_balance (row_of k b) < total ∨ row_nonneg r' = false
  end.
Proof.
  intros r'. unfold complete_statements. balance_exec.
  destruct (total <=? _) eqn:E; bool_prop; balance_exec; [|by left]. fold r'.
  destruct (row_nonneg r') eqn:E2; balance_exec; [|by right].
  split; [lia|]. split; [done|]. apply row_change_post.
Qed.

Definition global_of (k : bal_key) : bal_key :=
  BalKey (user_id k) (currency_id k) CHAIN_ID_GLOBAL (account_type k).

Lemma lock_run_ k total id b :
  let lock k := add_buckets (row_of k b) (- total) total 0 0 0 in
  match lock_statements k total id b with
  | Ret (used, b') =>
      used = (if total <=? available_balance (row_of k b) then k else global_of k) ∧
      total ≤ available_balance (row_of used b) ∧ row_nonneg (lock used) = true ∧
      row_change used (lock used) b b'
  | Throw _ =>
      available_balance (row_of k b) < total ∨ row_nonneg (lock k) = false
  end.
Proof.
  intros lock. unfold lock_statements. balance_exec.
  destruct (total <=? available_balance (row_of k b)) eqn:E.
  - balance_exec. rewrite E. balance_exec. fold (lock k).
    destruct (row_nonneg (lock k)) eqn:E2; balance_exec; [|by right].
    split; [done|]. split; [by bool_prop|]. split; [done|]. apply row_change_post.
  - destruct (String.eqb (chain_id k) CHAIN_ID_GLOBAL); balance_exec;
      [bool_prop; by left|]. fold (global_of k). rewrite row_of_ensured.
    destruct (total <=? available_balance (row_of (global_of k) b)) eqn:E3;
      cbn [fmap option_fmap option_map]; balance_exec;
      [|bool_prop; by left].
    rewrite row_of_ensured, E3. balance_exec. fold (lock (global_of k)).
    destruct (row_nonneg (lock (global_of k))) eqn:E4; balance_exec; [|bool_prop; by left].
    split; [done|]. split; [by bool_prop|]. split; [done|]. apply row_change_ensured.
Qed.
End Statements.

(** ** The invariant of runs *)

(** The state machine of a withdrawal. *)
Definition status_le (a b : w_status) : Prop :=
  match a with
  | WPendingEmail => b ≠ WPendingApproval ∧ b ≠ WCancelled ∧ b ≠ WPending2fa
  | WPendingApproval => b ∈ [WPendingApproval; WPending; WCompleted; WFailed]
  | WPending => b ∈ [WPending; WCompleted; WFailed]
  | _ => b = a
  end.

(** Once a withdrawal exists, nothing but its status and progress changes. *)
Definition same_w_terms (v w : withdrawal) : Prop :=
  w_user_id v = w_user_id w ∧ w_token_id v = w_token_id w ∧ w_chain_id v = w_chain_id w ∧
  w_amount v = w_amount w ∧ w_fee v = w_fee w ∧ w_net_amount v = w_net_amount w ∧
  w_to_address v = w_to_address w ∧ w_account_type v = w_account_type w.

(** The withdrawals a queue row in each status may belong to. *)
Definition q_matches (q : q_status) (w : w_status) : Prop :=
  match q with
  | QCompleted => w = WCompleted
  | QFailed => w = WPending ∨ w = WFailed
  | _ => w = WPending
  end.

Definition live (w : withdrawal) : bool :=
  bool_decide (w_status_ w ∈ [WPendingEmail; WPendingApproval; WPending]).

Section Invariant.
Context `{DecimalJs}.

(** The account a withdrawal was locked on when its lock did not fall back. *)
Definition wkey (d0 : withdraw_db) (w : withdrawal) : option bal_key :=
  withdrawal_key w <$> currencyOf w d0.
Definition live_amt (d0 : withdraw_db) (k : bal_key) (w : withdrawal) : Z :=
  if live w && bool_decide (wkey d0 w = Some k) then total_of w else 0.
Definition paid_amt (d0 : withdraw_db) (c : string) (w : withdrawal) : Z :=
  if bool_decide (w_status_ w = WCompleted) && bool_decide (currencyOf w d0 = Some c)
  then total_of w else 0.
(** What live withdrawals need of row [k], and what completed ones took of currency [c]. *)
Definition live_sum (d0 : withdraw_db) (k : bal_key) (d : withdraw_db) : Z :=
  msum (λ _ w, live_amt d0 k w) (withdrawals d).
Definition paid_out (d0 : withdraw_db) (c : string) (d : withdraw_db) : Z :=
  msum (λ _ w, paid_amt d0 c w) (withdrawals d).

Definition w_wf (d0 : withdraw_db) (w : withdrawal) : Prop :=
  0 ≤ w_amount w ∧ 0 ≤ w_fee w ∧ total_of w = w_amount w + w_fee w ∧
  is_Some (currencyOf w d0).

Definition same_tables (d0 d : withdraw_db) : Prop :=
  tokens (wdb_core d) = tokens (wdb_core d0) ∧ currencies (wdb_core d) = currencies (wdb_core d0) ∧
  token_rows d = token_rows d0.

Definition queue_ok (d : withdraw_db) : Prop := ∀ id q, signing_queue d !! id = Some q →
  ∃ w, withdrawals d !! id = Some w ∧ q_matches (q_status_ q) (w_status_ w).

(** The invariant of a run from [d0]. [strict] runs have had no lock on the global row;
    [owed] is what a withdrawal that has been marked failed is still to be given back. *)
Record wd_ok (strict : bool) (owed : bal_key → Z) (d0 d : withdraw_db) : Prop := {
  wo_tables : same_tables d0 d;
  wo_rows : balances_wf (bal d);
  wo_wf : ∀ id w, withdrawals d !! id = Some w → w_wf d0 w;
  wo_from : ∀ id w0, withdrawals d0 !! id = Some w0 →
    ∃ w, withdrawals d !! id = Some w ∧ same_w_terms w0 w ∧ status_le (w_status_ w0) (w_status_ w);
  wo_queue : queue_ok d;
  wo_money : ∀ c, funds c (bal d) + paid_out d0 c d = funds c (bal d0) + paid_out d0 c d0;
  wo_cover : strict = true → ∀ k, live_sum d0 k d + owed k ≤ locked_balance (row_of k (bal d));
}.

Lemma currencyOf_same d0 d w : same_tables d0 d → currencyOf w d = currencyOf w d0.
Proof.
  intros (Ht & Hc & _). unfold currencyOf, getCurrencyIdForToken, getCurrencyIdBySymbol. by rewrite Ht, Hc.
Qed.

Lemma status_le_trans a b c : status_le a b → status_le b c → status_le a c.
Proof. destruct a, b; simpl; intros Hab Hbc; destruct c; set_solver. Qed.

Lemma same_w_terms_trans u v w : same_w_terms u v → same_w_terms v w → same_w_terms u w.
Proof. unfold same_w_terms. intuition congruence. Qed.

Lemma same_w_terms_facts d0 v w :
  same_w_terms v w → wkey d0 v = wkey d0 w ∧ total_of v = total_of w ∧
  currencyOf v d0 = currencyOf w d0 ∧ (w_wf d0 v → w_wf d0 w).
Proof.
  intros (Hu & Ht & Hc & Ha & Hf & _ & _ & Hac).
  unfold w_wf, wkey, withdrawal_key, chainOf, currencyOf, total_of.
  by rewrite Hu, Ht, Hc, Ha, Hf, Hac.
Qed.

Lemma total_nonneg d0 w : w_wf d0 w → 0 ≤ total_of w.
Proof. intros (? & ? & -> & _). lia. Qed.

(** A queue row in a status that only live withdrawals have. *)
Definition in_progress (q : q_status) : bool :=
  bool_decide (q ∈ [QPending; QSigning; QBroadcast]).

(** One withdrawal moves on, and its account's row with it. *)
Lemma wd_update s owed owed' d0 d d' id w w' k r' :
  wd_ok s owed d0 d → withdrawals d !! id = Some w → wkey d0 w = Some k →
  same_tables d d' → withdrawals d' = <[id := w']> (withdrawals d) →
  same_w_terms w w' → status_le (w_status_ w) (w_status_ w') → queue_ok d' →
  row_change k r' (bal d) (bal d') → row_nonneg r' = true →
  worth r' + paid_amt d0 (currency_id k) w' = worth (row_of k (bal d)) + paid_amt d0 (currency_id k) w →
  (s = true → live_amt d0 k w' + owed' k - locked_balance r'
     ≤ live_amt d0 k w + owed k - locked_balance (row_of k (bal d))) →
  (∀ k', k' ≠ k → owed' k' ≤ owed k') →
  wd_ok s owed' d0 d'.
Proof.
  intros Hok Hid Hk (Ht & Hc & Htk) Hws Hst Hle Hq (Hrow & Hfunds & Hwf) Hn Hmoney Hlive Hother.
  destruct (same_w_terms_facts d0 w w' Hst) as (Hkey & Htot & Hcur & Hwfw).
  assert (∀ f, msum (λ _ w, f w) (withdrawals d')
               = msum (λ _ w, f w) (withdrawals d) - f w + f w') as Hsum.
  { intros f. rewrite Hws. by rewrite (msum_insert_Some _ _ _ _ _ Hid). }
  destruct Hok as [(Ht0 & Hc0 & Htk0) Hrows Hww Hfrom Hqueue Hmon Hcov]. split.
  - split_and!; congruence.
  - by apply Hwf.
  - intros j v. rewrite Hws. destruct (decide (id = j)) as [<-|Hne].
    + rewrite lookup_insert_eq. intros [= <-]. eauto.
    + rewrite lookup_insert_ne by done. apply Hww.
  - intros j w0 Hj. destruct (Hfrom j w0 Hj) as (v & Hv & Hsv & Hlv). rewrite Hws.
    destruct (decide (id = j)) as [<-|Hne].
    + rewrite lookup_insert_eq. exists w'. rewrite Hid in Hv. injection Hv as <-.
      split; [done|]. split; [by eapply same_w_terms_trans|by eapply status_le_trans].
    + rewrite lookup_insert_ne by done. eauto.
  - done.
  - intros c. rewrite <- (Hmon c), Hfunds. unfold paid_out. rewrite (Hsum (paid_amt d0 c)).
    destruct (String.eqb (currency_id k) c) eqn:E; bool_prop; [subst; lia|].
    assert (currencyOf w d0 ≠ Some c) as Hne.
    { intros Hcw. unfold wkey in Hk. rewrite Hcw in Hk. simpl in Hk. injection Hk as <-. done. }
    unfold paid_amt. rewrite <- Hcur, !bool_decide_eq_false_2 with (P := currencyOf w d0 = Some c)
      by done. rewrite !andb_false_r. lia.
  - intros Hs k'. unfold live_sum. rewrite (Hsum (live_amt d0 k')), Hrow.
    specialize (Hcov Hs k'). unfold live_sum in Hcov. case_decide as E.
    + subst k'. specialize (Hlive Hs). lia.
    + specialize (Hother k' E).
      assert (live_amt d0 k' w = 0 ∧ live_amt d0 k' w' = 0) as [-> ->]; [|lia].
      unfold live_amt. rewrite <- Hkey, Hk.
      rewrite !bool_decide_eq_false_2 with (P := Some k = Some k') by congruence.
      by rewrite !andb_false_r.
Qed.

Definition nobody (k : bal_key) : Z := 0.
Definition owe (k : bal_key) (x : Z) (k' : bal_key) : Z := if decide (k' = k) then x else 0.

(** The queue changes, or the balances do. *)
Lemma wd_queue s owed d0 d d' :
  wd_ok s owed d0 d → wdb_core d' = wdb_core d → token_rows d' = token_rows d →
  withdrawals d' = withdrawals d → queue_ok d' → wd_ok s owed d0 d'.
Proof.
  intros [Ht Hr Hw Hf Hq Hm Hcov] Ec Et Ew Hq'. unfold bal in *.
  split; unfold same_tables, bal, paid_out, live_sum in *; rewrite ?Ec, ?Et, ?Ew; done.
Qed.

Lemma wd_monotone s owed d0 d : wd_ok s owed d0 d → (∀ k, 0 ≤ owed k) → wd_ok s nobody d0 d.
Proof.
  intros [? ? ? ? ? ? Hcov] Ho. split; try done. intros Hs k. specialize (Hcov Hs k).
  specialize (Ho k). unfold nobody. lia.
Qed.

Lemma owe_nonneg k x k' : 0 ≤ x → 0 ≤ owe k x k'.
Proof. unfold owe. case_decide; lia. Qed.

Lemma wd_key s owed d0 d id w :
  wd_ok s owed d0 d → withdrawals d !! id = Some w →
  ∃ c, currencyOf w d = Some c ∧ wkey d0 w = Some (withdrawal_key w c) ∧ 0 ≤ total_of w.
Proof.
  intros Hok Hid. destruct (wo_wf _ _ _ _ Hok _ _ Hid) as (Ha & Hf & Ht & c & Hc).
  exists c. rewrite (currencyOf_same d0) by apply Hok. unfold wkey. rewrite Hc.
  split; [done|]. split; [done|]. lia.
Qed.

Lemma same_w_terms_refl w : same_w_terms w w.
Proof. by unfold same_w_terms. Qed.
Lemma same_w_terms_set w st stage r h t : same_w_terms w (set_w w st stage r h t).
Proof. by destruct w. Qed.
Lemma status_le_refl a : status_le a a.
Proof. destruct a; simpl; set_solver. Qed.
Hint Resolve same_w_terms_refl same_w_terms_set status_le_refl : core.

Lemma queue_ok_move d d' id w w' :
  queue_ok d → signing_queue d' = signing_queue d → withdrawals d' = <[id := w']> (withdrawals d) →
  withdrawals d !! id = Some w →
  (∀ q, signing_queue d !! id = Some q → q_matches (q_status_ q) (w_status_ w) →
     q_matches (q_status_ q) (w_status_ w')) →
  queue_ok d'.
Proof.
  intros Hq Eq Ew Hid Hm j q. rewrite Eq, Ew. intros Hj. destruct (Hq j q Hj) as (v & Hv & Hmv).
  destruct (decide (id = j)) as [<-|Hne].
  - rewrite lookup_insert_eq. exists w'. rewrite Hid in Hv. injection Hv as <-. eauto.
  - rewrite lookup_insert_ne by done. eauto.
Qed.

(** A withdrawal moves on while its account's row stays. *)
Lemma wd_status s d0 d id w w' k :
  wd_ok s nobody d0 d → withdrawals d !! id = Some w → wkey d0 w = Some k →
  same_w_terms w w' → status_le (w_status_ w) (w_status_ w') → w_status_ w' ≠ WCompleted →
  (∀ q, signing_queue d !! id = Some q → q_matches (q_status_ q) (w_status_ w) →
     q_matches (q_status_ q) (w_status_ w')) →
  wd_ok s (if live w && negb (live w') then owe k (total_of w) else nobody) d0
    (put_withdrawal id w' d).
Proof.
  intros Hok Hid Hk Hst Hle Hne Hm.
  destruct (same_w_terms_facts d0 w w' Hst) as (Hkey & Htot & Hcur & _).
  assert (live w' = true → live w = true) as Hlive.
  { unfold live. rewrite !bool_decide_eq_true.
    destruct (w_status_ w), (w_status_ w'); simpl in Hle; set_solver. }
  destruct (wd_key _ _ _ _ _ _ Hok Hid) as (_ & _ & _ & Hpos).
  eapply (wd_update s nobody _ d0 d _ id w w' k (row_of k (bal d))); try done.
  - eapply queue_ok_move; [apply (wo_queue _ _ _ _ Hok)|done..].
  - apply row_change_refl.
  - apply wf_row_of, Hok.
  - unfold paid_amt. rewrite <- Hcur, (bool_decide_eq_false_2 (w_status_ w' = WCompleted)) by done.
    destruct (decide (w_status_ w = WCompleted)) as [E|E].
    + rewrite E in Hle. cbn in Hle. congruence.
    + rewrite (bool_decide_eq_false_2 (w_status_ w = WCompleted)) by done. simpl. lia.
  - intros _. unfold live_amt. rewrite <- Hkey, <- Htot, Hk, bool_decide_eq_true_2 by done.
    rewrite !andb_true_r. unfold owe, nobody.
    destruct (live w) eqn:E1, (live w') eqn:E2; simpl; rewrite ?decide_True by done; lia.
  - intros k' Hk'. destruct (_ && _); unfold owe, nobody; [rewrite decide_False by done|]; lia.
Qed.

(** Refunds, completions and releases. *)
Lemma wd_refund s d0 d b' k w c id :
  wd_ok s (owe k (total_of w)) d0 d → withdrawals d !! id = Some w →
  wkey d0 w = Some k → k = withdrawal_key w c →
  total_of w ≤ locked_balance (row_of k (bal d)) →
  let r' := add_buckets (row_of k (bal d)) (total_of w) (- total_of w) 0 0 0 in
  row_nonneg r' = true → row_change k r' (bal d) b' →
  wd_ok s nobody d0 (sput b' d).
Proof.
  intros Hok Hid Hk Hkc Hle r' Hn Hch.
  eapply (wd_update s _ nobody d0 d _ id w w k r'); try done.
  - simpl. by rewrite insert_id.
  - apply (wo_queue _ _ _ _ Hok).
  - unfold worth, r'; simpl. lia.
  - intros _. unfold owe, nobody, r'; simpl. rewrite decide_True by done. lia.
  - intros k' Hne. unfold owe, nobody. by rewrite decide_False.
Qed.

Lemma wd_leave s d0 d b' id w w' k c r' :
  wd_ok s nobody d0 d → withdrawals d !! id = Some w → live w = true →
  wkey d0 w = Some k → k = withdrawal_key w c →
  same_w_terms w w' → status_le (w_status_ w) (w_status_ w') → live w' = false →
  worth r' = worth (row_of k (bal d)) - (if bool_decide (w_status_ w' = WCompleted) then total_of w else 0) →
  locked_balance r' = locked_balance (row_of k (bal d)) - total_of w →
  row_nonneg r' = true → row_change k r' (bal d) b' →
  ∀ d', same_tables d d' → withdrawals d' = <[id := w']> (withdrawals d) → bal d' = b' →
  queue_ok d' → wd_ok s nobody d0 d'.
Proof.
  intros Hok Hid Hl Hk Hkc Hst Hle Hl' Hworth Hlocked Hn Hch d' Htab Hw Hb Hq.
  destruct (same_w_terms_facts d0 w w' Hst) as (Hkey & Htot & Hcur & _).
  subst b'.
  eapply (wd_update s nobody nobody d0 d d' id w w' k r'); try done.
  - assert (currencyOf w d0 = Some (currency_id k)) as Hc.
    { unfold wkey in Hk. destruct (currencyOf w d0) as [c'|]; [|done]. simpl in Hk.
      by injection Hk as <-. }
    unfold paid_amt. rewrite <- Hcur, Hc, (bool_decide_eq_true_2 (Some _ = _)), !andb_true_r by done.
    rewrite (bool_decide_eq_false_2 (w_status_ w = WCompleted)), <- Htot; [lia|].
    intros E. unfold live in Hl. by rewrite E in Hl.
  - intros _. unfold live_amt. rewrite <- Hkey, Hl, Hl', Hk, bool_decide_eq_true_2 by done.
    unfold nobody. simpl. lia.
Qed.

(** *** Programs on the database *)
Definition alter_q (id : string) (f : queue_row → queue_row) (d : withdraw_db) : withdraw_db :=
  match signing_queue d !! id with Some q => put_queue id (f q) d | None => d end.

Lemma update_q_run id f d : update_q id f d = Ret (tt, alter_q id f d).
Proof. done. Qed.
Lemma update_w_run id f w d :
  withdrawals d !! id = Some w → update_w id f d = Ret (tt, put_withdrawal id (f w) d).
Proof. intros Hw. unfold update_w, modify. by rewrite Hw. Qed.
Lemma alter_q_fields id f d :
  wdb_core (alter_q id f d) = wdb_core d ∧ withdrawals (alter_q id f d) = withdrawals d ∧
  token_rows (alter_q id f d) = token_rows d ∧
  ∀ j, signing_queue (alter_q id f d) !! j
       = if decide (j = id) then f <$> signing_queue d !! id else signing_queue d !! j.
Proof.
  unfold alter_q. destruct (signing_queue d !! id) as [q|] eqn:E; simpl.
  - split_and!; [done..|]. intros j. case_decide; simplify_map_eq; done.
  - split_and!; [done..|]. intros j. case_decide; [subst; by rewrite E|done].
Qed.

Lemma wd_alter_q s owed d0 d id f w :
  wd_ok s owed d0 d → withdrawals d !! id = Some w →
  (∀ q, q_matches (q_status_ (f q)) (w_status_ w)) → wd_ok s owed d0 (alter_q id f d).
Proof.
  intros Hok Hid Hf. destruct (alter_q_fields id f d) as (Hc & Hw & Ht & Hq).
  apply (wd_queue _ _ _ d); [done..|]. intros j q. rewrite Hq, Hw. case_decide as E.
  - subst. destruct (signing_queue d !! id); [|done]. simpl. intros [= <-]. eauto.
  - apply (wo_queue _ _ _ _ Hok).
Qed.
End Invariant.

(** No fee is negative. *)
Definition fees_ok (d : withdraw_db) : Prop := ∀ id tk, token_rows d !! id = Some tk →
  0 ≤ default 0 (tk_withdrawal_fee tk).

Definition request_account (rq : withdraw_request) : string :=
  if bool_decide (rq_account_type rq ∈ ["funding"; "spot"; "trading"])
  then rq_account_type rq else "funding".

(** The user's row on the token's own chain holds the amount and the fee: the lock of the
    request does not fall back to the global row. *)
Definition own_row_covers (rq : withdraw_request) (d : withdraw_db) : bool :=
  match rq_amount rq, tokens (wdb_core d) !! rq_token_id rq, token_rows d !! rq_token_id rq with
  | Fin raw, Some tok, Some tk =>
      match getCurrencyIdBySymbol (tok_symbol tok) (wdb_core d) with
      | Some c =>
          toDP AMOUNT_PRECISION raw + toDP AMOUNT_PRECISION (default 0 (tk_withdrawal_fee tk))
          <=? available_balance (row_of (BalKey (rq_user_id rq) c
                (default CHAIN_ID_GLOBAL (tok_chain_id tok)) (request_account rq)) (bal d))
      | None => true
      end
  | _, _, _ => true
  end.

(** ** Every process keeps the invariant *)
Local Notation at_db P := (at_ (X := string * string) P) (only parsing).

Section Processes.
Context `{DecimalJs} (s : bool) (d0 : withdraw_db).
Notation ok := (wd_ok s nobody d0).

(** Withdrawal [id], read as [w], is still to be paid. *)
Definition pending_at (id : string) (w : withdrawal) (d : withdraw_db) : Prop :=
  ∃ v, withdrawals d !! id = Some v ∧ same_w_terms w v ∧ w_status_ v = WPending.
Definition held (id : string) (w : withdrawal) (d : withdraw_db) : Prop :=
  ok d ∧ pending_at id w d.

Lemma held_ok id w d : held id w d → ok d.
Proof. by intros []. Qed.
Hint Resolve held_ok : core.

Lemma held_update_q id w f :
  (∀ q, q_matches (q_status_ (f q)) WPending) →
  hoare (at_db (held id w)) (tx (update_q id f)) (λ _, at_db (held id w)) (at_db ok).
Proof.
  intros Hf. apply hoare_tx; [|eauto]. intros d (Hok & v & Hv & Hs & Hp).
  rewrite update_q_run. destruct (alter_q_fields id f d) as (_ & Hw & _ & _). split.
  - eapply wd_alter_q; [done..|]. by rewrite Hp.
  - exists v. by rewrite Hw.
Qed.

Lemma held_stage id w st r :
  hoare (at_db (held id w)) (tx (update_w id (λ w, set_w w (w_status_ w) st (r w) (w_tx_hash w)
    (w_completed_at w)))) (λ _, at_db (held id w)) (at_db ok).
Proof.
  apply hoare_tx; [|eauto]. intros d (Hok & v & Hv & Hs & Hp).
  erewrite update_w_run by done. set (v' := set_w _ _ _ _ _ _).
  destruct (wd_key _ _ _ _ _ _ Hok Hv) as (c & _ & Hk & _). split.
  - pose proof (wd_status s d0 d id v v' _ Hok Hv Hk) as Hnew. unfold live in Hnew.
    replace (w_status_ v') with (w_status_ v) in Hnew by done.
    rewrite Hp, bool_decide_eq_true_2 in Hnew by set_solver. simpl in Hnew.
    by apply Hnew; [apply same_w_terms_set|set_solver|..].
  - exists v'. simpl. rewrite lookup_insert_eq. split; [done|]. split; [|done].
    eapply same_w_terms_trans; [done|apply same_w_terms_set].
Qed.

Lemma held_lookup id w d : held id w d → ∃ v, withdrawals d !! id = Some v ∧ same_w_terms w v ∧
  w_status_ v = WPending ∧ live v = true.
Proof.
  intros (_ & v & ? & ? & Hp). exists v. split_and!; [done..|]. unfold live. by rewrite Hp.
Qed.

(** *** [markQueueFailed] *)
Definition queue_failed (id : string) (d : withdraw_db) : Prop :=
  ∀ q, signing_queue d !! id = Some q → q_status_ q = QFailed.

(** [v] has been marked failed and its lock is still to be released. *)
Definition owing (id : string) (v : withdrawal) (c : string) (d : withdraw_db) : Prop :=
  wd_ok s (owe (withdrawal_key v c) (total_of v)) d0 d ∧
  ∃ w, withdrawals d !! id = Some w ∧ same_w_terms v w.

Lemma owing_ok id v c d : owing id v c d → ok d.
Proof.
  intros (Hok & w & Hw & Hs). eapply wd_monotone; [done|].
  intros k. apply owe_nonneg. destruct (same_w_terms_facts d0 v w Hs) as (_ & -> & _).
  apply (total_nonneg d0). by eapply wo_wf.
Qed.
Hint Resolve owing_ok : core.

Lemma mark_failed_w id v msg c :
  wkey d0 v = Some (withdrawal_key v c) →
  hoare (at_db (λ d, held id v d ∧ queue_failed id d)) (tx (update_w id (set_failed_w msg)))
    (λ _, at_db (owing id v c)) (at_db ok).
Proof.
  intros Hk. apply hoare_tx; [|intros d [[? _] _]; done].
  intros d [Hh Hq]. destruct (held_lookup _ _ _ Hh) as (w & Hw & Hs & Hp & Hl).
  erewrite update_w_run by done. set (w' := set_failed_w msg w).
  destruct (same_w_terms_facts d0 v w Hs) as (Hkey & Htot & _). split.
  - pose proof (wd_status s d0 d id w w' (withdrawal_key v c) (proj1 Hh) Hw) as Hnew.
    rewrite Hl in Hnew. simpl in Hnew. rewrite Htot. apply Hnew; try done.
    + by rewrite <- Hkey.
    + rewrite Hp. simpl. set_solver.
    + intros q Hid _. rewrite (Hq q Hid). simpl. by right.
  - exists w'. simpl. rewrite lookup_insert_eq. split; [done|].
    eapply same_w_terms_trans; [done|apply same_w_terms_set].
Qed.

Lemma refund_ok id v c :
  wkey d0 v = Some (withdrawal_key v c) →
  hoare (at_db (owing id v c))
    (tx (zoom (refund_statements (withdrawal_key v c) (total_of v) id))) (λ _, at_db ok) (at_db ok).
Proof.
  intros Hk. apply hoare_tx; [|eauto].
  intros d (Hok & w & Hw & Hs). destruct (same_w_terms_facts d0 v w Hs) as (Hkey & Htot & _).
  unfold zoom. simpl. fold (bal d).
  pose proof (refund_run (withdrawal_key v c) (total_of v) id (bal d)) as Hrun.
  destruct (refund_statements _ _ _ _) as [[[] b']|e]; [|done]. destruct Hrun as (Hle & Hn & Hch).
  rewrite Htot in *.
  eapply (wd_refund s d0 d b' (withdrawal_key v c) w c id); try done; [by rewrite <- Hkey|].
  destruct Hs as (Hu & _ & Hc & _ & _ & _ & _ & Ha). unfold withdrawal_key, chainOf.
  by rewrite Hu, Hc, Ha.
Qed.

Lemma fail_queue id w st msg :
  st = QFailed ∨ st = QPending ∨ st = QUncertain →
  hoare (at_db (held id w)) (tx (update_q id (set_q_failed st msg)))
    (λ _, at_db (λ d, held id w d ∧ (st = QFailed → queue_failed id d))) (at_db ok).
Proof.
  intros Hst. assert (∀ q, q_matches (q_status_ (set_q_failed st msg q)) WPending) as Hm.
  { intros q. destruct Hst as [->|[->| ->]]; simpl; auto. }
  intros n Hn. pose proof (held_update_q id w _ Hm n Hn) as Hk. unfold tx, transaction, at_ in *.
  destruct (nd_budget n) as [[|b]|]; simpl in *; [done| |];
    (split; [done|]); intros ->; intros q; fold (alter_q id (set_q_failed QFailed msg) (nd_db n));
    rewrite (proj2 (proj2 (proj2 (alter_q_fields _ _ _)))), decide_True by done;
    (destruct (signing_queue _ !! id); [|done]); by intros [= <-].
Qed.

Lemma markQueueFailed_ok id w msg final :
  hoare (at_db (held id w)) (markQueueFailed id msg final) (λ _, at_db ok) (at_db ok).
Proof.
  unfold markQueueFailed.
  eapply hoare_bind; [by apply hoare_read; eauto|]. intros [row|].
  2:{ apply hoare_ret. by intros n [[] _]. }
  apply (hoare_pre _ (at_db (held id w))); [by intros n []|]. destruct (_ && _).
  - eapply hoare_bind; [apply fail_queue; auto|]. intros [].
    apply (hoare_pre _ (at_db (held id w))); [by intros n []|].
    eapply hoare_post; [|apply (held_stage id w "broadcast_uncertain" (λ _, Some msg))].
    by intros _ n [].
  - eapply hoare_bind; [apply fail_queue; destruct (_ <=? _); auto|]. intros [].
    destruct (_ <=? _); cbn [negb]; [|by apply hoare_ret; intros n [[] _]].
    eapply hoare_bind; [apply hoare_read; by intros d [[] _]|]. intros [v|].
    2:{ apply hoare_ret. by intros n [[[] _] _]. }
    apply (hoare_pre _ (λ n, ∃ c, currencyOf v d0 = Some c ∧
      at_db (λ d, held id v d ∧ queue_failed id d) n)).
    { intros n [[Hh Hq] Hv]. destruct (held_lookup _ _ _ Hh) as (v' & Hv' & _ & Hp & _).
      rewrite Hv' in Hv. injection Hv as Hv. subst v'.
      destruct (wd_key _ _ _ _ _ _ (held_ok _ _ _ Hh) Hv') as (c & Hc & _). exists c.
      rewrite <- (currencyOf_same d0 (nd_db n)) by apply Hh. split; [done|].
      split; [|by apply Hq]. split; [apply Hh|]. by exists v. }
    apply hoare_exists. intros c. apply hoare_pure. intros Hc.
    assert (wkey d0 v = Some (withdrawal_key v c)) as Hk by (unfold wkey; by rewrite Hc).
    eapply hoare_bind; [by apply mark_failed_w|]. intros [].
    eapply hoare_bind; [by apply hoare_read; eauto|]. intros cur.
    apply (hoare_pre _ (λ n, cur = Some c ∧ at_db (owing id v c) n)).
    { intros n [Ho ->]. split; [|done]. rewrite (currencyOf_same d0) by apply Ho. done. }
    apply hoare_pure. intros ->. by apply refund_ok.
Qed.

(** *** Completion *)
Definition completed_db (id : string) (v : withdrawal) (txHash : string) (now : Z)
    (d : withdraw_db) : withdraw_db :=
  put_withdrawal id (set_completed_w txHash now v)
    (alter_q id (λ q, set_q q QCompleted (q_signed_tx_hex q) (Some txHash) None (q_attempts q)) d).

Lemma finish_run id w v c txHash now d :
  withdrawals d !! id = Some v → w_status_ v = WPending → currencyOf w d = Some c →
  finish_body id w txHash now d
  = match complete_statements (withdrawal_key w c) (total_of w) id (bal d) with
    | Ret (_, b') => Ret (true, sput b' (completed_db id v txHash now d))
    | Throw e => Throw e
    end.
Proof.
  intros Hv Hp Hc. unfold finish_body.
  assert (∀ f, wdb_core (put_withdrawal id (set_completed_w txHash now v) (alter_q id f d)) = wdb_core d) as Hcore.
  { intros f. apply (alter_q_fields id f d). }
  rewrite (bind_Ret _ _ d (Some c) d) by (unfold gets; by rewrite Hc).
  rewrite (bind_Ret _ _ d (Some v) d) by (unfold gets; by rewrite Hv). cbv beta iota. rewrite Hp.
  erewrite bind_Ret by apply update_q_run.
  erewrite bind_Ret by (apply update_w_run; by rewrite (proj1 (proj2 (alter_q_fields _ _ _)))).
  fold (completed_db id v txHash now d).
  assert (sget (completed_db id v txHash now d) = bal d) as Hb by (exact (f_equal edb_balances (Hcore _))).
  unfold bind, zoom. rewrite Hb. by destruct (complete_statements _ _ _ _) as [[[] b']|e].
Qed.

Lemma queue_ok_completed id v txHash now d :
  queue_ok d → withdrawals d !! id = Some v → queue_ok (completed_db id v txHash now d).
Proof.
  intros Hq Hv j q. unfold completed_db; simpl.
  destruct (alter_q_fields id (λ q, set_q q QCompleted (q_signed_tx_hex q) (Some txHash) None
    (q_attempts q)) d) as (_ & -> & _ & ->). case_decide as E.
  - subst j. destruct (signing_queue d !! id); [|done]. intros [= <-].
    rewrite lookup_insert_eq. by eexists.
  - intros Hj. rewrite lookup_insert_ne by done. by apply Hq.
Qed.

Lemma finish_ok id w txHash now :
  hoare (at_db (held id w)) (tx (finish_body id w txHash now)) (λ _, at_db ok) (at_db ok).
Proof.
  apply hoare_tx; [|eauto]. intros d Hh.
  destruct (held_lookup _ _ _ Hh) as (v & Hv & Hs & Hp & Hl). destruct Hh as [Hok _].
  destruct (wd_key _ _ _ _ _ _ Hok Hv) as (c & Hc & Hk & _).
  assert (currencyOf w d = Some c) as Hcw.
  { destruct Hs as (_ & Ht & _). unfold currencyOf in *. by rewrite Ht. }
  rewrite (finish_run id w v c) by done.
  assert (withdrawal_key w c = withdrawal_key v c ∧ total_of w = total_of v) as [-> ->].
  { destruct Hs as (Hu & _ & Hch & Ha & Hf & _ & _ & Hac).
    unfold withdrawal_key, chainOf, total_of. by rewrite Hu, Hch, Ha, Hf, Hac. }
  pose proof (complete_run (withdrawal_key v c) (total_of v) id (bal d)) as Hrun.
  destruct (complete_statements _ _ _ _) as [[[] b']|e]; [|done]. destruct Hrun as (Hle & Hn & Hch).
  eapply (wd_leave s d0 d b' id v (set_completed_w txHash now v)); try done.
  - rewrite Hp. simpl. set_solver.
  - unfold worth; simpl. lia.
  - simpl. lia.
  - unfold same_tables. simpl.
    by destruct (alter_q_fields id (λ q, set_q q QCompleted (q_signed_tx_hex q) (Some txHash) None
      (q_attempts q)) d) as (-> & _ & -> & _).
  - simpl. by rewrite (proj1 (proj2 (alter_q_fields _ _ _))).
  - by apply (queue_ok_completed id v txHash now d); [apply (wo_queue _ _ _ _ Hok)|].
Qed.

Lemma finishWithdrawal_ok id w txHash wei now :
  hoare (at_db (held id w)) (finishWithdrawal id w txHash wei now) (λ _, at_db ok) (at_db ok).
Proof.
  unfold finishWithdrawal. eapply hoare_bind; [apply finish_ok|]. intros [|]; cbn [negb].
  2:{ by apply hoare_ret. }
  eapply hoare_bind; [by apply hoare_read|]. intros r.
  eapply (hoare_pre _ (at_db ok)); [by intros n []|]. destruct r; [|by apply hoare_ret].
  apply hoare_tx; [|done]. intros d Hok. unfold debit_cache, modify.
  by apply (wd_queue s nobody d0 d); [..|apply (wo_queue _ _ _ _ Hok)].
Qed.

Lemma tryComplete_ok env id w wei :
  hoare (at_db (held id w)) (tryCompleteWithdrawalIfTxAlreadyOnChain env id w wei)
    (λ b, at_db (if b then ok else held id w)) (at_db ok).
Proof.
  unfold tryCompleteWithdrawalIfTxAlreadyOnChain.
  destruct (se_own_hash env) as [h|]; [|by apply hoare_ret].
  destruct (negb _); [by apply hoare_ret|].
  eapply hoare_bind; [by apply hoare_read; eauto|]. intros a.
  apply (hoare_pre _ (at_db (held id w))); [by intros n []|].
  case_bool_decide; [apply hoare_ret; intros n; apply held_ok|].
  eapply hoare_bind; [apply finishWithdrawal_ok|]. intros []. by apply hoare_ret.
Qed.

Lemma broadcast_failed_ok env id w wei :
  hoare (at_db (held id w)) (broadcast_failed env id w wei) (λ _, at_db ok) (at_db ok).
Proof.
  unfold broadcast_failed. eapply hoare_bind; [by apply hoare_read; eauto|]. intros r.
  apply (hoare_pre _ (at_db (held id w))); [by intros n []|].
  destruct (match r with Some _ => _ | None => _ end).
  - eapply hoare_bind; [apply tryComplete_ok|]. intros [|]; [by apply hoare_ret|].
    apply markQueueFailed_ok.
  - eapply hoare_post; [|by apply held_update_q]. intros [] n. apply held_ok.
Qed.

(** *** Signing *)
Lemma sign_transaction_ok env id claimed w :
  hoare (at_db (held id w)) (sign_transaction env id claimed)
    (λ r, at_db (match r with Some _ => held id w | None => ok end)) (at_db ok).
Proof.
  assert (hoare (at_db (held id w)) (match se_sign env with
      | None => markQueueFailed id "Sign failed" true >>> pret None
      | Some signedTx =>
          tx (update_q id (λ q, set_q q QBroadcast (Some signedTx) (q_tx_hash q)
                (q_error_message q) (q_attempts q))) >>>
          tx (update_w id (set_stage "signed")) >>> pret (Some signedTx)
      end) (λ r, at_db (match r with Some _ => held id w | None => ok end)) (at_db ok)) as Hnew.
  { destruct (se_sign env) as [hex|].
    - eapply hoare_bind; [by apply held_update_q|]. intros [].
      eapply hoare_bind; [apply (held_stage id w "signed" w_failed_reason)|]. intros [].
      by apply hoare_ret.
    - eapply hoare_bind; [apply markQueueFailed_ok|]. intros []. by apply hoare_ret. }
  unfold sign_transaction. destruct (q_status_ claimed), (q_signed_tx_hex claimed); try apply Hnew.
  by apply hoare_ret.
Qed.

Lemma sign_and_broadcast_ok env id claimed w wei :
  hoare (at_db (held id w)) (sign_and_broadcast env id claimed w wei) (λ _, at_db ok) (at_db ok).
Proof.
  unfold sign_and_broadcast. eapply hoare_bind; [apply sign_transaction_ok|].
  intros [hex|]; [|by apply hoare_ret].
  eapply hoare_bind; [by apply hoare_send; eauto|].
  intros [h|]; [|apply broadcast_failed_ok].
  eapply hoare_bind; [apply (held_stage id w "broadcasted" w_failed_reason)|]. intros [].
  apply finishWithdrawal_ok.
Qed.

Lemma claimed_ok env id claimed w :
  hoare (at_db (held id w)) (processSigningQueueClaimed env id claimed) (λ _, at_db ok) (at_db ok).
Proof.
  unfold processSigningQueueClaimed.
  eapply hoare_bind; [by apply hoare_read; eauto|]. intros [v|].
  2:{ eapply hoare_pre; [|apply (markQueueFailed_ok id w)]. by intros n []. }
  apply (hoare_pre _ (at_db (held id v))).
  { intros n [Hh Hv]. destruct (held_lookup _ _ _ Hh) as (v' & Hv' & Hs & Hp & _).
    rewrite Hv' in Hv. injection Hv as ->. split; [apply Hh|]. by exists v'. }
  destruct (negb _); [apply markQueueFailed_ok|].
  eapply hoare_bind; [by apply hoare_read; eauto|]. intros cap.
  apply (hoare_pre _ (at_db (held id v))); [by intros n []|].
  destruct (negb _); [apply markQueueFailed_ok|].
  eapply hoare_bind; [by apply hoare_read; eauto|]. intros tk.
  apply (hoare_pre _ (at_db (held id v))); [by intros n []|].
  destruct tk as [tk|]; [|apply markQueueFailed_ok].
  repeat (case_match; try apply markQueueFailed_ok); apply sign_and_broadcast_ok.
Qed.

Lemma claim_ok :
  hoare (at_db ok) (tx claim_body)
    (λ r, at_db (match r with Some (id, _) => λ d, ∃ w, held id w d | None => ok end)) (at_db ok).
Proof.
  apply hoare_tx; [|done]. intros d Hok. unfold claim_body, gets, bind.
  destruct (sort_by _ _) as [|[id q] rest] eqn:E; [done|].
  assert ((id, q) ∈ filter (λ '(_, q), Is_true (claimable q)) (map_to_list (signing_queue d))) as Hin.
  { apply (sort_by_elem (λ a b, q_created_at (snd a) <=? q_created_at (snd b))). rewrite E. left. }
  apply list_elem_of_filter in Hin as [Hcl Hin]. apply elem_of_map_to_list in Hin.
  destruct (wo_queue _ _ _ _ Hok _ _ Hin) as (w & Hw & Hm).
  assert (w_status_ w = WPending) as Hp.
  { unfold claimable in Hcl. destruct (q_status_ q); try done; simpl in Hcl; done. }
  simpl. exists w. assert (ok d ∧ pending_at id w d) as Hh by (split; [done|by exists w]).
  pose proof (held_update_q id w (λ q, set_q q QSigning (q_signed_tx_hex q) (q_tx_hash q)
    (q_error_message q) (q_attempts q + 1)) ltac:(done) (Node (X := string * string) d [] None) Hh) as Hnew.
  apply Hnew.
Qed.

Lemma processSigningQueue_ok env :
  hoare (at_db ok) (processSigningQueue env) (λ _, at_db ok) (at_db ok).
Proof.
  unfold processSigningQueue. eapply hoare_bind; [apply claim_ok|].
  intros [[id q]|]; [|by apply hoare_ret]. apply hoare_exists. intros w.
  destruct (negb _); [|apply claimed_ok].
  eapply hoare_post; [|by apply held_update_q]. intros [] n. apply held_ok.
Qed.

(** *** Requests on a withdrawal *)
Lemma enqueue_ok since now id :
  hoare (at_db ok) (enqueueWithdrawal since now id) (λ _, at_db ok) (at_db ok).
Proof.
  unfold enqueueWithdrawal. apply (hoare_catch _ _ _ _ (at_db ok)).
  2:{ intros e. destruct (String.index _ _ _); [by apply hoare_throw|by apply hoare_ret]. }
  apply hoare_tx; [|done]. intros d Hok. unfold enqueue_body, gets, bind, require, ret, modify.
  destruct (withdrawals d !! id) as [w|] eqn:Hw; [|done].
  case_bool_decide as Hp; [|done]. destruct (getHotWalletByChainId _ _); [|done].
  destruct (negb _); [done|]. destruct (signing_queue d !! id) eqn:Eq; [done|].
  apply (wd_queue s nobody d0 d); [done..|]. intros j q. simpl.
  destruct (decide (id = j)) as [<-|Hne].
  - rewrite lookup_insert_eq. intros [= <-]. by exists w.
  - rewrite lookup_insert_ne by done. apply (wo_queue _ _ _ _ Hok).
Qed.

(** A status changes and nothing is owed for it. *)
Lemma alive_ok d id w w' :
  ok d → withdrawals d !! id = Some w → same_w_terms w w' →
  status_le (w_status_ w) (w_status_ w') → live w' = true → w_status_ w' = WPending →
  ok (put_withdrawal id w' d).
Proof.
  intros Hok Hid Hst Hle Hl Hp. destruct (wd_key _ _ _ _ _ _ Hok Hid) as (c & _ & Hk & _).
  pose proof (wd_status s d0 d id w w' _ Hok Hid Hk Hst Hle) as Hnew.
  rewrite Hl, andb_false_r in Hnew. apply Hnew; [by rewrite Hp|].
  intros q _ Hm. rewrite Hp. destruct (w_status_ w) eqn:E, (w_status_ w'), (q_status_ q);
    simpl in *; try done; by destruct Hm.
Qed.

Lemma approve_ok lock since now id :
  hoare (at_db ok) (approveWithdrawal lock since now id) (λ _, at_db ok) (at_db ok).
Proof.
  assert (hoare (at_db ok) (tx (approve_body id) >>>
      do* enq := enqueueWithdrawal since now id in
      match eq_code enq with
      | Some SINGLE_TX_CAP_EXCEEDED | Some DAILY_CAP_EXCEEDED => pthrow "HOT_WALLET_CAP_EXCEEDED"
      | _ => pret tt
      end) (λ _, at_db ok) (at_db ok)) as Hmain.
  { apply (hoare_bind _ _ (λ _, at_db ok)).
    - apply hoare_tx; [|done]. intros d Hok. unfold approve_body, gets, bind, get_or, require.
      destruct (withdrawals d !! id) as [w|] eqn:Hw; [|done]. cbn [ret].
      case_bool_decide as Hp; [|done]. unfold ret. rewrite (update_w_run id set_approved w) by done.
      apply (alive_ok d id w); try done. rewrite Hp. simpl. set_solver.
    - intros w. eapply hoare_bind; [apply enqueue_ok|]. intros enq.
      destruct (eq_code enq) as [[]|]; (by apply hoare_ret) || by apply hoare_throw. }
  destruct lock; [apply Hmain| |apply Hmain]. unfold approveWithdrawal.
  eapply hoare_bind; [by apply hoare_read|]. intros found.
  apply (hoare_pre _ (at_db ok)); [by intros n []|].
  destruct (w_status_ <$> found) as [[]|]; (by apply hoare_ret) || by apply hoare_throw.
Qed.

Lemma verifyEmail_ok since now id :
  hoare (at_db ok) (verifyEmail since now id) (λ _, at_db ok) (at_db ok).
Proof.
  unfold verifyEmail. eapply hoare_bind; [by apply hoare_read|]. intros [w|].
  2:{ apply hoare_throw. by intros n []. }
  apply (hoare_pre _ (at_db ok)); [by intros n []|].
  apply (hoare_bind _ _ (λ _, at_db ok)).
  - apply hoare_tx; [|done]. intros d Hok. destruct (withdrawals d !! id) as [v|] eqn:Hv.
    + erewrite update_w_run by done. simpl. case_bool_decide as Hp.
      * apply (alive_ok d id v); try done. by rewrite Hp.
      * unfold put_withdrawal. rewrite insert_id by done. by destruct d.
    + unfold update_w, modify. by rewrite Hv.
  - intros []. destruct (bool_decide _); [|by apply hoare_ret].
    eapply hoare_bind; [apply enqueue_ok|]. intros ?. by apply hoare_ret.
Qed.

Lemma cancel_throws id user d : ∃ e, cancel_body id user d = Throw e.
Proof.
  unfold cancel_body, bind, gets, get_or, require.
  destruct (w ← withdrawals d !! id; _) as [[w tok]|] eqn:E; [|by eexists]. cbn [ret].
  apply bind_Some in E as (v & Hv & E). apply bind_Some in E as (tok' & _ & E).
  destruct (String.eqb _ _); [|done]. injection E as -> ->.
  unfold ret, throw. case_bool_decide as Hp; [|by eexists].
  destruct (match w_tx_hash w with Some _ => _ | None => _ end); [|by eexists].
  rewrite Hv, bool_decide_eq_false_2; [by eexists|]. rewrite Hp. set_solver.
Qed.

Lemma cancel_ok id user : hoare (at_db ok) (cancelWithdrawal id user) (λ _, at_db ok) (at_db ok).
Proof.
  apply hoare_tx; [|done]. intros d _. by destruct (cancel_throws id user d) as [e ->].
Qed.

(** *** Rejection *)
Lemma reject_run id reason w c d :
  withdrawals d !! id = Some w → w_status_ w = WPendingApproval → currencyOf w d = Some c →
  reject_body id reason d
  = match release_statements "RELEASE_BALANCE_FAILED" (withdrawal_key w c) (total_of w) id (bal d) with
    | Ret (_, b') => Ret (tt, sput b' (put_withdrawal id (set_failed_w
        (if String.eqb reason "" then "Rejected by admin" else reason) w) d))
    | Throw e => Throw e
    end.
Proof.
  intros Hw Hp Hc. unfold reject_body.
  rewrite (bind_Ret _ _ d (Some w) d) by (unfold gets; by rewrite Hw).
  rewrite (bind_Ret _ _ d w d) by done.
  rewrite (bind_Ret _ _ d tt d) by (unfold require; by rewrite Hp).
  rewrite (bind_Ret _ _ d (Some c) d) by (unfold gets; by rewrite Hc).
  rewrite (bind_Ret _ _ d c d) by done.
  erewrite bind_Ret by (by apply update_w_run). unfold zoom. simpl. fold (bal d).
  by destruct (release_statements _ _ _ _ _) as [[[] b']|e].
Qed.

Lemma reject_ok id reason : hoare (at_db ok) (rejectWithdrawal id reason) (λ _, at_db ok) (at_db ok).
Proof.
  apply hoare_tx; [|done]. intros d Hok. destruct (reject_body id reason d) as [[[] d']|e] eqn:E; [|done].
  destruct (withdrawals d !! id) as [w|] eqn:Hw;
    [|unfold reject_body, gets, bind in E; rewrite Hw in E; done].
  destruct (decide (w_status_ w = WPendingApproval)) as [Hp|Hp].
  2:{ unfold reject_body, gets, bind in E. rewrite Hw in E. simpl in E. unfold require in E.
      rewrite bool_decide_eq_false_2 in E by done. done. }
  destruct (wd_key _ _ _ _ _ _ Hok Hw) as (c & Hc & Hk & _).
  rewrite (reject_run id reason w c) in E by done.
  pose proof (release_run "RELEASE_BALANCE_FAILED" (withdrawal_key w c) (total_of w) id (bal d)) as Hrun.
  destruct (release_statements _ _ _ _ _) as [[[] b']|e]; [|done]. injection E as <-.
  destruct Hrun as (Hle & Hn & Hch).
  eapply (wd_leave s d0 d b' id w (set_failed_w _ w)); try done.
  - unfold live. by rewrite Hp.
  - rewrite Hp. simpl. set_solver.
  - unfold worth; simpl. lia.
  - simpl. lia.
  - eapply (queue_ok_move d); [apply (wo_queue _ _ _ _ Hok)|done..|].
    intros q _. rewrite Hp. destruct (q_status_ q); simpl; try done. by intros [].
Qed.

(** *** Creation *)
Lemma wd_create d id w k r' b' :
  ok d → withdrawals d !! id = None → w_wf d0 w → wkey d0 w = Some k → live w = true →
  (s = true → locked_balance r' = locked_balance (row_of k (bal d)) + total_of w) →
  ∀ used, (s = true → used = k) → currency_id used = currency_id k →
  worth r' = worth (row_of used (bal d)) →
  row_nonneg r' = true → row_change used r' (bal d) b' →
  ok (sput b' (put_withdrawal id w d)).
Proof.
  intros [Ht Hr Hw Hf Hq Hm Hcov] Hid Hwf Hk Hl Hlock used Hused Hcur Hworth Hn (Hrow & Hfunds & Hb).
  split; unfold bal, paid_out, live_sum in *; simpl in *.
  - done.
  - by apply Hb.
  - intros j v. destruct (decide (id = j)) as [<-|Hne].
    + rewrite lookup_insert_eq. by intros [= <-].
    + rewrite lookup_insert_ne by done. apply Hw.
  - intros j w0 Hj. destruct (Hf j w0 Hj) as (v & Hv & ?). exists v.
    rewrite lookup_insert_ne by congruence. done.
  - intros j q Hj. destruct (Hq j q Hj) as (v & Hv & ?). exists v. simpl.
    rewrite lookup_insert_ne by congruence. done.
  - intros c. rewrite <- (Hm c), Hfunds, msum_insert_None by done.
    replace (paid_amt d0 c w) with 0; [destruct (String.eqb _ _); lia|].
    unfold paid_amt. rewrite bool_decide_eq_false_2; [done|]. intros E. unfold live in Hl.
    by rewrite E in Hl.
  - intros Hs k'. rewrite msum_insert_None, Hrow, Hused by done. specialize (Hcov Hs k').
    unfold live_amt at 1. rewrite Hl, Hk. unfold nobody in *. case_decide as E.
    + subst k'. rewrite bool_decide_eq_true_2, Hlock by done. simpl. lia.
    + rewrite bool_decide_eq_false_2 by congruence. simpl. lia.
Qed.

Hypothesis Hprec : 27 ≤ precision.

(** Amounts of the column's width are added exactly. *)
Lemma fits_plus x y :
  numeric_fits (toDP AMOUNT_PRECISION x) = true → numeric_fits (toDP AMOUNT_PRECISION y) = true →
  dplus (toDP AMOUNT_PRECISION x) (toDP AMOUNT_PRECISION y)
  = toDP AMOUNT_PRECISION x + toDP AMOUNT_PRECISION y.
Proof.
  unfold numeric_fits. intros Hx Hy. bool_prop. unfold dplus. apply sig_exact with 28; [lia| |].
  - assert (∀ z, (10 ^ 28 | toDP AMOUNT_PRECISION z)) as Hd by (intros z; apply (trunc_divide (ulp 8))).
    by apply Z.divide_add_r.
  - apply Z.lt_le_trans with (10 ^ 55).
    + apply Z.le_lt_trans with (1 := Z.abs_triangle _ _). change (10 ^ 55) with (10 * 10 ^ 54). lia.
    + apply Z.pow_le_mono_r; lia.
Qed.

(** The transaction of the request. *)
Lemma create_body_ok id w c total d :
  ok d → 0 ≤ w_amount w → 0 ≤ w_fee w →
  (numeric_fits (w_amount w) = true → numeric_fits (w_fee w) = true →
     total_of w = w_amount w + w_fee w ∧ total = total_of w) →
  currencyOf w d0 = Some c → live w = true → normal_account (w_account_type w) = w_account_type w →
  (s = true → total ≤ available_balance (row_of (withdrawal_key w c) (bal d))) →
  match create_body id w c total d with Ret (_, d') => ok d' | Throw _ => True end.
Proof.
  intros Hok Ha Hf Htot Hc Hl Hacct Hcov. unfold create_body, gets, bind at 1.
  unfold bind at 1, require at 1. case_bool_decide as Hid; [|done]. simpl andb.
  destruct (forallb _ _); [|done]. unfold ret at 1, bind at 1, require at 1.
  destruct (numeric_fits (w_amount w)) eqn:Hfa; [|done].
  destruct (numeric_fits (w_fee w)) eqn:Hff; [|done].
  destruct (numeric_fits (w_net_amount w)); [|done]. cbn [andb].
  destruct (Htot eq_refl eq_refl) as [Hsum ->].
  unfold bind, ret, modify, zoom. simpl. fold (bal d).
  replace (BalKey (w_user_id w) c (chainOf w) (w_account_type w)) with (withdrawal_key w c)
    by (unfold withdrawal_key; by rewrite Hacct).
  pose proof (lock_run_ (withdrawal_key w c) (total_of w) id (bal d)) as Hrun.
  destruct (lock_statements _ _ _ _) as [[used b']|e]; [|done].
  destruct Hrun as (Hused & Hle & Hn & Hch).
  assert (s = true → used = withdrawal_key w c) as Hown.
  { intros Hs. rewrite Hused. by rewrite (proj2 (Z.leb_le _ _) (Hcov Hs)). }
  eapply (wd_create d id w (withdrawal_key w c)
    (add_buckets (row_of used (bal d)) (- total_of w) (total_of w) 0 0 0)); try done.
  - unfold wkey. by rewrite Hc.
  - intros Hs. simpl. by rewrite (Hown Hs).
  - rewrite Hused. by destruct (total_of w <=? _).
  - unfold worth; simpl. lia.
Qed.

Lemma request_account_normal rq : normal_account (request_account rq) = request_account rq.
Proof.
  unfold request_account. case_bool_decide as Hin; [|by vm_compute].
  unfold normal_account, accountTypeOf.
  destruct (String.eqb (rq_account_type rq) "") eqn:E0; bool_prop.
  - rewrite E0 in Hin. set_solver.
  - by rewrite bool_decide_eq_true_2.
Qed.

Lemma create_ok ww rq id since :
  fees_ok d0 →
  hoare (at_db (λ d, ok d ∧ (s = true → own_row_covers rq d = true)))
    (createWithdrawal ww rq id since) (λ _, at_db ok) (at_db ok).
Proof.
  intros Hfees. unfold createWithdrawal, own_row_covers. fold (request_account rq).
  destruct (rq_amount rq) as [raw|]; [|apply hoare_ret; by intros n []].
  set (amount := toDP AMOUNT_PRECISION raw).
  destruct (amount <=? 0) eqn:Ea; [apply hoare_ret; by intros n []|].
  eapply hoare_bind; [apply hoare_read; by intros d []|]. intros d1.
  destruct (tokens (wdb_core d1) !! rq_token_id rq) as [tok|] eqn:Etok;
    [|apply hoare_ret; by intros n [[] _]].
  destruct (token_rows d1 !! rq_token_id rq) as [tk|] eqn:Etk; [|apply hoare_ret; by intros n [[] _]].
  destruct (ww_treasury ww); [apply hoare_ret; by intros n [[] _]|].
  set (fee := toDP AMOUNT_PRECISION (default 0 (tk_withdrawal_fee tk))).
  destruct (token_refusal tk amount); [apply hoare_ret; by intros n [[] _]|].
  destruct (getCurrencyIdBySymbol _ _) as [c|] eqn:Ec; [|apply hoare_ret; by intros n [[] _]].
  destruct (amount_refusal _ _ _ _ _); [apply hoare_ret; by intros n [[] _]|].
  destruct (ww_policy ww); [apply hoare_ret; by intros n [[] _]|].
  set (w := new_withdrawal _ _ _ _ _ _ _ _).
  eapply (hoare_bind _ _ (λ _, at_db ok)).
  - apply hoare_tx; [|by intros d [[] _]]. intros d [[Hok Hcov] ->]. bool_prop.
    rewrite Etok, Etk, Ec in Hcov. fold amount fee in Hcov.
    assert (same_tables d0 d) as (Ht & Hc & Htk) by apply Hok.
    assert (currencyOf w d0 = Some c) as Hcw.
    { rewrite <- (currencyOf_same d0 d) by done. unfold currencyOf, getCurrencyIdForToken.
      simpl. by rewrite Etok. }
    assert (0 ≤ fee) as Hfee by (apply toDP_bounds, (Hfees (rq_token_id rq)); congruence).
    assert (numeric_fits amount = true → numeric_fits fee = true →
      dplus amount fee = amount + fee ∧ toDP AMOUNT_PRECISION (dplus amount fee) = dplus amount fee)
      as Hsum.
    { intros Hfa Hff. pose proof (fits_plus raw _ Hfa Hff) as E. split; [done|].
      change (dplus amount fee = amount + fee) in E. rewrite E.
      apply trunc_exact; [apply ulp_pos|].
      apply Z.divide_add_r; apply (trunc_divide (ulp AMOUNT_PRECISION)). }
    apply create_body_ok; try done; simpl; [lia| | |].
    + unfold live; simpl. destruct (_ || _); by rewrite bool_decide_eq_true_2 by set_solver.
    + apply request_account_normal.
    + intros Hs. specialize (Hcov Hs). bool_prop.
      unfold withdrawal_key, chainOf. simpl. rewrite request_account_normal.
      destruct (sig_bounds (amount + fee)) as [Hs0 Hs1]; [lia|].
      destruct (toDP_bounds AMOUNT_PRECISION _ Hs0) as (_ & Ht0 & _). unfold dplus. etransitivity; [apply Ht0|].
      etransitivity; [apply Hs1|apply Hcov].
  - intros used. destruct (_ || _); [by apply hoare_ret|].
    eapply hoare_bind; [apply enqueue_ok|]. intros enq. by apply hoare_ret.
Qed.
End Processes.

(** ** Runs *)
Section Runs.
Context `{DecimalJs}.

(** Calls with the inputs they meet. *)
Inductive w_call :=
  | CCreate (ww : withdraw_world) (rq : withdraw_request) (id : string) (since : Z)
  | CApprove (lock : approve_lock) (since now : Z) (id : string)
  | CReject (id reason : string)
  | CCancel (id userId : string)
  | CVerifyEmail (since now : Z) (id : string)
  | CEnqueue (since now : Z) (id : string)
  | CProcess (env : sign_env).

Definition drop {A} (p : Proc wnode A) : Proc wnode unit := do* _ := p in pret tt.
Definition run_call_w (c : w_call) : Proc wnode unit :=
  match c with
  | CCreate ww rq id since => drop (createWithdrawal ww rq id since)
  | CApprove lock since now id => approveWithdrawal lock since now id
  | CReject id reason => rejectWithdrawal id reason
  | CCancel id userId => cancelWithdrawal id userId
  | CVerifyEmail since now id => verifyEmail since now id
  | CEnqueue since now id => drop (enqueueWithdrawal since now id)
  | CProcess env => processSigningQueue env
  end.
Definition no_fallback (c : w_call) (d : withdraw_db) : bool :=
  match c with CCreate _ rq _ _ => own_row_covers rq d | _ => true end.

(** One call, stopped after any number of its statements; or other services move money
    between buckets, leaving the locks of live withdrawals in place in [strict] runs. Calls
    do not overlap: each begins when the one before has ended or stopped. [server.ts] does
    not ensure this for the signing queue, whose runs start every five seconds under a lock
    of thirty ([WithdrawalsDemo.overlapping_runs_refund_completed]). *)
Inductive wstep (strict : bool) (n : wnode) : wnode → Prop :=
  | step_call c budget : (strict = true → no_fallback c (nd_db n) = true) →
      wstep strict n (snd (run_call_w c (Node (nd_db n) (nd_sent n) budget)))
  | step_other b' : balances_wf b' →
      (∀ cur, funds cur b' = funds cur (bal (nd_db n))) →
      (strict = true → ∀ k, live_sum (nd_db n) k (nd_db n) ≤ locked_balance (row_of k b')) →
      wstep strict n (Node (sput b' (nd_db n)) (nd_sent n) None).

(** Where runs start. *)
Record start_ok (strict : bool) (d : withdraw_db) : Prop := {
  st_rows : balances_wf (bal d);
  st_fees : fees_ok d;
  st_wf : ∀ id w, withdrawals d !! id = Some w → w_wf d w;
  st_queue : queue_ok d;
  st_cover : strict = true → ∀ k, live_sum d k d ≤ locked_balance (row_of k (bal d));
}.

Lemma start_wd_ok s d : start_ok s d → wd_ok s nobody d d.
Proof.
  intros [? ? ? ? Hcov]. split; try done.
  - intros id w Hw. exists w. split; [done|]. split; [done|apply status_le_refl].
  - intros Hs k. unfold nobody. specialize (Hcov Hs k). lia.
Qed.

Lemma live_sum_same d0 d k : same_tables d0 d → live_sum d k d = live_sum d0 k d.
Proof.
  intros Ht. apply msum_ext. intros id w _. unfold live_amt, wkey. by rewrite (currencyOf_same d0).
Qed.

Hypothesis Hprec : 27 ≤ precision.

Lemma drop_ok {A} s d0 (p : Proc wnode A) P :
  hoare P p (λ _, at_db (wd_ok s nobody d0)) (at_db (wd_ok s nobody d0)) →
  hoare P (drop p) (λ _, at_db (wd_ok s nobody d0)) (at_db (wd_ok s nobody d0)).
Proof. intros Hp. eapply hoare_bind; [done|]. intros a. by apply hoare_ret. Qed.

Lemma run_call_ok s d0 c :
  fees_ok d0 →
  hoare (at_db (λ d, wd_ok s nobody d0 d ∧ (s = true → no_fallback c d = true)))
    (run_call_w c) (λ _, at_db (wd_ok s nobody d0)) (at_db (wd_ok s nobody d0)).
Proof.
  intros Hfees. destruct c; simpl; [by apply drop_ok, create_ok|..];
    apply (hoare_pre _ (at_db (wd_ok s nobody d0))); try by intros n [].
  - apply approve_ok.
  - apply reject_ok.
  - apply cancel_ok.
  - apply verifyEmail_ok.
  - apply drop_ok, enqueue_ok.
  - apply processSigningQueue_ok.
Qed.

Lemma wstep_ok s d0 n n' :
  fees_ok d0 → wd_ok s nobody d0 (nd_db n) → wstep s n n' → wd_ok s nobody d0 (nd_db n').
Proof.
  intros Hfees Hok Hstep. destruct Hstep as [c budget Hc|b' Hwf Hfunds Hcov].
  - pose proof (run_call_ok s d0 c Hfees (Node (nd_db n) (nd_sent n) budget) (conj Hok Hc)) as Hrun.
    by destruct (run_call_w c _) as [[a|e] n'].
  - destruct Hok as [Ht Hr Hw Hf Hq Hm Hc]. split; try done; simpl.
    + intros c. specialize (Hm c). specialize (Hfunds c). unfold bal, paid_out in *. simpl in *. lia.
    + intros Hs k. specialize (Hcov Hs k). rewrite (live_sum_same d0) in Hcov by done.
      unfold nobody, live_sum, bal in *. simpl in *. lia.
Qed.

Lemma reach_ok s n n' :
  start_ok s (nd_db n) → rtc (wstep s) n n' → wd_ok s nobody (nd_db n) (nd_db n').
Proof.
  intros Hst Hrun. pose proof (start_wd_ok _ _ Hst) as Hok.
  apply (rtc_invariant (wstep s) (λ x, wd_ok s nobody (nd_db n) (nd_db x))) with n; [|done|done].
  intros x y Hx Hxy. eapply wstep_ok; [apply Hst|done..].
Qed.

(** C14. Among calls that do not overlap, money leaves with completed withdrawals and no
    other way: over any sequence of calls on withdrawals, one after the other, each ended or
    stopped after any of its statements, the funds of all users in a currency drop by exactly
    the totals (amount and fee) of the withdrawals that became completed. (Overlapping runs
    of the signing queue are out of scope, and break it; and a transaction can reach the
    chain for a withdrawal that does not become completed, [lost_broadcast_pays_twice].) *)
Theorem withdrawals_conserve n n' :
  start_ok false (nd_db n) → rtc (wstep false) n n' → ∀ c,
  funds c (bal (nd_db n')) + paid_out (nd_db n') c (nd_db n')
  = funds c (bal (nd_db n)) + paid_out (nd_db n) c (nd_db n).
Proof.
  intros Hst Hrun c. pose proof (reach_ok _ _ _ Hst Hrun) as Hok.
  rewrite <- (wo_money _ _ _ _ Hok c). f_equal. apply msum_ext. intros id w _.
  unfold paid_amt. by rewrite (currencyOf_same (nd_db n)) by apply Hok.
Qed.


(** *** What the locks are good for *)
Lemma live_covered n n' id w c :
  start_ok true (nd_db n) → rtc (wstep true) n n' →
  withdrawals (nd_db n') !! id = Some w → live w = true → currencyOf w (nd_db n') = Some c →
  balances_wf (bal (nd_db n')) ∧ 0 ≤ total_of w ∧
  total_of w ≤ locked_balance (row_of (withdrawal_key w c) (bal (nd_db n'))).
Proof.
  intros Hst Hrun Hw Hl Hc. pose proof (reach_ok _ _ _ Hst Hrun) as Hok.
  split; [apply Hok|]. pose proof (wo_wf _ _ _ _ Hok _ _ Hw) as Hwf.
  split; [by eapply total_nonneg|].
  pose proof (wo_cover _ _ _ _ Hok eq_refl (withdrawal_key w c)) as Hcov.
  assert (live_amt (nd_db n) (withdrawal_key w c) w = total_of w) as Hamt.
  { unfold live_amt, wkey. rewrite Hl, <- (currencyOf_same (nd_db n) (nd_db n')), Hc by apply Hok.
    simpl. by rewrite bool_decide_eq_true_2. }
  unfold nobody, live_sum in Hcov. rewrite (msum_lookup _ _ _ _ Hw), Hamt in Hcov.
  assert (0 ≤ msum (λ _ w', live_amt (nd_db n) (withdrawal_key w c) w')
            (delete id (withdrawals (nd_db n')))); [|lia].
  apply msum_nonneg. intros j v Hj. apply lookup_delete_Some in Hj as [_ Hj].
  unfold live_amt. destruct (_ && _); [|done]. apply (total_nonneg (nd_db n)).
  by apply (wo_wf _ _ _ _ Hok _ _ Hj).
Qed.


Lemma complete_enough k total id b :
  balances_wf b → 0 ≤ total → total ≤ locked_balance (row_of k b) →
  ∃ b', complete_statements k total id b = Ret (tt, b') ∧
    row_change k (add_buckets (row_of k b) 0 (- total) 0 0 0) b b'.
Proof.
  intros Hwf Ht Hle. pose proof (complete_run k total id b) as Hrun.
  assert (row_nonneg (add_buckets (row_of k b) 0 (- total) 0 0 0) = true) as Hn.
  { pose proof (wf_row_of b k Hwf) as Hr. rewrite row_nonneg_true in *. simpl. lia. }
  destruct (complete_statements _ _ _ _) as [[[] b']|e].
  - exists b'. split; [done|apply Hrun].
  - destruct Hrun as [Hlt|Hf]; [lia|congruence].
Qed.


(** After any run without a fallback to the global rows, a broadcast transaction
    completes its pending withdrawal: the withdrawal and its queue row become completed with
    the hash, its amount and fee leave the locked balance, and no other row changes. *)
Theorem broadcast_completes n n' id w c q txHash wei now :
  start_ok true (nd_db n) → rtc (wstep true) n n' →
  withdrawals (nd_db n') !! id = Some w → w_status_ w = WPending →
  signing_queue (nd_db n') !! id = Some q → currencyOf w (nd_db n') = Some c →
  ∃ n'', finishWithdrawal id w txHash wei now (Node (nd_db n') (nd_sent n') None) = (Ret tt, n'') ∧
    withdrawals (nd_db n'') !! id = Some (set_completed_w txHash now w) ∧
    (λ q, (q_status_ q, q_tx_hash q)) <$> (signing_queue (nd_db n'') !! id)
      = Some (QCompleted, Some txHash) ∧
    let k := withdrawal_key w c in let b := bal (nd_db n') in
    ∀ k', row_of k' (bal (nd_db n''))
      = if decide (k' = k) then add_buckets (row_of k b) 0 (- total_of w) 0 0 0 else row_of k' b.
Proof.
  intros Hst Hrun Hw Hp Hq Hc. assert (live w = true) as Hl by (unfold live; by rewrite Hp).
  destruct (live_covered _ _ _ _ _ Hst Hrun Hw Hl Hc) as (Hwf & Ht & Hle).
  destruct (complete_enough _ _ id _ Hwf Ht Hle) as (b' & Hb & Hch).
  set (d := sput b' (completed_db id w txHash now (nd_db n'))).
  assert (withdrawals d !! id = Some (set_completed_w txHash now w)) as Hd.
  { simpl. by rewrite lookup_insert_eq. }
  assert ((λ q, (q_status_ q, q_tx_hash q)) <$> (signing_queue d !! id)
    = Some (QCompleted, Some txHash)) as Hdq.
  { unfold d, completed_db, alter_q. rewrite Hq. simpl. by rewrite lookup_insert_eq. }
  unfold finishWithdrawal. rewrite (pbind_tx _ _ _ true d) by
    (done || by (simpl; rewrite (finish_run id w w c txHash now _ Hw Hp Hc), Hb)).
  cbn [negb]. rewrite (pbind_tx _ _ _ (resolveHotWalletChainId (chainOf w) d) d) by done.
  destruct (resolveHotWalletChainId (chainOf w) d) as [chain|].
  - exists (Node (put_wallets ((λ hw, if active_wallet chain hw
      then HotWallet (hw_chain_id hw) (hw_is_active hw) (hw_max_single_tx hw)
           (hw_max_daily_outflow hw) (hw_balance_cache hw - wei)
      else hw) <$> hot_wallets d) d) (nd_sent n') None). split_and!; [done|exact Hd|exact Hdq|apply Hch].
  - exists (Node d (nd_sent n') None). split_and!; [done|exact Hd|exact Hdq|apply Hch].
Qed.

(** *** What goes wrong *)
(** No withdrawal can be cancelled: the handler requires the status [pending], and
    then updates the row only in the statuses [pending_approval], [pending_email_verify] and
    [pending_2fa]; whatever the state, the call throws and changes nothing. *)
Theorem cancel_never_succeeds id userId n :
  ∃ e n', cancelWithdrawal id userId n = (Throw e, n') ∧ nd_db n' = nd_db n.
Proof.
  unfold cancelWithdrawal, tx, transaction. destruct (cancel_throws id userId (nd_db n)) as [e ->].
  destruct (nd_budget n) as [[|b]|]; by do 2 eexists.
Qed.

(** A withdrawal whose lock fell back to the user's global row is stuck: the row that
    stores its chain does not hold the lock, so unless that account has as much locked for
    something else, the admin's rejection throws, and once it is approved and its
    transaction is on the chain, its completion throws too. *)
Theorem fallback_withdrawal_stuck id w c d used d' reason txHash now :
  normal_account (w_account_type w) = w_account_type w → currencyOf w d = Some c →
  create_body id w c (total_of w) d = Ret (used, d') → used ≠ withdrawal_key w c →
  locked_balance (row_of (withdrawal_key w c) (bal d)) < total_of w →
  (w_status_ w = WPendingApproval → ∃ e, reject_body id reason d' = Throw e) ∧
  (∃ e, finish_body id w txHash now (put_withdrawal id (set_approved w) d') = Throw e).
Proof.
  intros Hacct Hc Hcreate Hused Hlock.
  assert (withdrawal_key w c = BalKey (w_user_id w) c (chainOf w) (w_account_type w)) as Hkey
    by (unfold withdrawal_key; by rewrite Hacct).
  unfold create_body in Hcreate.
  apply bind_Ret_inv in Hcreate as (? & ? & Hg & Hcreate). apply gets_inv in Hg as [_ ->].
  apply bind_Ret_inv in Hcreate as ([] & ? & Hg & Hcreate). apply require_inv in Hg as [_ ->].
  apply bind_Ret_inv in Hcreate as ([] & ? & Hg & Hcreate). apply require_inv in Hg as [_ ->].
  apply bind_Ret_inv in Hcreate as ([] & ? & Hg & Hcreate). apply modify_inv in Hg as ->.
  unfold zoom in Hcreate. simpl in Hcreate. fold (bal d) in Hcreate. rewrite <- Hkey in Hcreate.
  pose proof (lock_run_ (withdrawal_key w c) (total_of w) id (bal d)) as Hrun.
  destruct (lock_statements _ _ _ _) as [[u b']|e]; [|done]. injection Hcreate as <- <-.
  destruct Hrun as (_ & _ & _ & Hrow & _).
  assert (row_of (withdrawal_key w c) b' = row_of (withdrawal_key w c) (bal d)) as Hsame.
  { rewrite Hrow. by rewrite decide_False. }
  split.
  - intros Hp. rewrite (reject_run id reason w c); [|simpl; by rewrite lookup_insert_eq|done|done].
    pose proof (release_run "RELEASE_BALANCE_FAILED" (withdrawal_key w c) (total_of w) id b') as Hrel.
    rewrite Hsame in Hrel. unfold bal at 1. simpl.
    destruct (release_statements _ _ _ _ _) as [[[] b2]|e];
      [destruct Hrel; lia|by eexists].
  - rewrite (finish_run id w (set_approved w) c);
      [|simpl; by rewrite lookup_insert_eq|done|done].
    pose proof (complete_run (withdrawal_key w c) (total_of w) id b') as Hcomp.
    rewrite Hsame in Hcomp. unfold bal at 1. simpl.
    destruct (complete_statements _ _ _ _) as [[[] b2]|e];
      [destruct Hcomp; lia|by eexists].
Qed.
End Runs.
