(* ===== verification/WithdrawalsDemo.v ===== *)
(** * Withdrawals at a concrete database

    One user with one token on one chain: a withdrawal that completes, one that is rejected,
    one whose lock falls back to the global row, and two whose broadcast fails. *)
From stdpp Require Import base gmap strings list fin_maps.
From Stdlib Require Import ZArith Lia.
From S2P Require Import Prelude Money Balances Escrow WithdrawalModel Withdrawals.
Local Open Scope Z_scope.

#[local] Existing Instance decimal_36.

Lemma start_empty s d :
  balances_wf (bal d) → fees_ok d → withdrawals d = ∅ → signing_queue d = ∅ → start_ok s d.
Proof.
  intros Hb Hf Hw Hq. split; try done.
  - intros id w. by rewrite Hw.
  - intros id q. by rewrite Hq.
  - intros _ k. unfold live_sum. rewrite Hw, msum_empty.
    pose proof (wf_row_of _ k Hb) as Hr. rewrite row_nonneg_true in Hr. lia.
Qed.

Definition demo_core (chain : string) : escrow_db :=
  EscrowDb (Balances {[BalKey "alice" "cur-eth" chain "funding" := UserBalance (dec 10 0) 0 0 0 0]} [])
    ∅ {["eth" := Token "ETH" (Some "ethereum")]} [Currency "cur-eth" "ETH"].
Definition demo_tokens : gmap string token_row :=
  {["eth" := TokenRow true 18 (Some (dec 1 1)) None None false]}.
(** Alice's ten ETH are on [chain]. *)
Definition demo_db (chain : string) : withdraw_db :=
  WithdrawDb (demo_core chain) demo_tokens ∅ ∅ [HotWallet "ethereum" true None None 0]
    [ChainRow "ethereum" "evm" true].
Definition demo_node (chain : string) : wnode := Node (demo_db chain) [] None.

Lemma demo_start s chain : start_ok s (nd_db (demo_node chain)).
Proof.
  apply start_empty; [by apply wf_singleton| |done..].
  intros id tk Htk. simpl in Htk. unfold demo_tokens in Htk. apply lookup_singleton_Some in Htk as [_ <-].
  vm_compute. discriminate.
Qed.

Definition demo_world (review : bool) : withdraw_world :=
  WithdrawWorld (Some (dec 10 0)) (dec 100 0) (dec 1000 0) 0 0 None None review (dec 50 0) 7.
Definition demo_request : withdraw_request :=
  WithdrawRequest "alice" "eth" (Fin (dec 2 0)) "0xB0B" "funding" "key-1".
Definition create (review : bool) : w_call := CCreate (demo_world review) demo_request "wd-1" 0.
(** A run of the processor: what signing, broadcasting and the signer answer. *)
Definition process (signer : signer_result) (tx : string) (answer : option string) : w_call :=
  CProcess (SignEnv true false signer (Some tx) answer None false true 0 8).

Fixpoint calls (cs : list w_call) (n : wnode) : wnode :=
  match cs with
  | [] => n
  | c :: cs => calls cs (snd (run_call_w c (Node (nd_db n) (nd_sent n) None)))
  end.
Fixpoint calls_kept (cs : list w_call) (n : wnode) : bool :=
  match cs with
  | [] => true
  | c :: cs => no_fallback c (nd_db n)
      && calls_kept cs (snd (run_call_w c (Node (nd_db n) (nd_sent n) None)))
  end.

Lemma calls_reach s cs n : (s = true → calls_kept cs n = true) → rtc (wstep s) n (calls cs n).
Proof.
  revert n. induction cs as [|c cs IH]; intros n Hk; [done|]. simpl in *.
  eapply rtc_l; [apply (step_call s n c None)|apply IH]; intros Hs; specialize (Hk Hs);
    by apply andb_prop in Hk as [??].
Qed.

Lemma calls_any cs n : rtc (wstep false) n (calls cs n).
Proof. by apply calls_reach. Qed.
Lemma calls_strict cs n : calls_kept cs n = true → rtc (wstep true) n (calls cs n).
Proof. intros Hk. by apply calls_reach. Qed.
Lemma digits_36 : 27 ≤ @precision decimal_36.
Proof. by vm_compute. Qed.

(** Create, then broadcast: completed, and 2.1 ETH have left. *)
Definition paid : list w_call := [create false; process HasSigner "tx1" (Some "0xh1")].

Lemma withdrawals_conserve_witness :
  let n := demo_node "ethereum" in
  let n' := calls paid n in
  funds "cur-eth" (bal (nd_db n')) + dec 21 1 = funds "cur-eth" (bal (nd_db n)) + 0.
Proof.
  pose proof (withdrawals_conserve digits_36 (demo_node "ethereum") (calls paid (demo_node "ethereum"))
    (demo_start _ _) (calls_any _ _) "cur-eth") as Hc.
  replace (paid_out _ _ (nd_db (calls _ _))) with (dec 21 1) in Hc by (vm_compute; reflexivity).
  replace (paid_out _ _ _) with 0 in Hc by (vm_compute; reflexivity). exact Hc.
Defined.






(** A rejection and a completion after calls whose locks are on the user's own row. *)
Definition alice_row : bal_key := BalKey "alice" "cur-eth" "ethereum" "funding".
Definition created (review : bool) : wnode := calls [create review] (demo_node "ethereum").

Lemma created_reach review : rtc (wstep true) (demo_node "ethereum") (created review).
Proof.
  apply (calls_strict [create review] (demo_node "ethereum")).
  destruct review; vm_compute; reflexivity.
Qed.

Lemma created_facts review : ∃ w q,
  withdrawals (nd_db (created review)) !! "wd-1" = Some w ∧
  signing_queue (nd_db (created false)) !! "wd-1" = Some q ∧
  w_status_ w = (if review then WPendingApproval else WPending) ∧ total_of w = dec 21 1 ∧
  withdrawal_key w "cur-eth" = alice_row ∧
  currencyOf w (nd_db (created review)) = Some "cur-eth".
Proof.
  destruct review; do 2 eexists; (split; [vm_compute; reflexivity|]);
    (split; [vm_compute; reflexivity|]); repeat split; vm_compute; reflexivity.
Qed.


Lemma broadcast_completes_witness :
  let n := created false in
  ∃ w n'', finishWithdrawal "wd-1" w "0xh1" 19 8 (Node (nd_db n) (nd_sent n) None) = (Ret tt, n'') ∧
    total_of w = dec 21 1 ∧ locked_balance (row_of alice_row (bal (nd_db n''))) = 0.
Proof.
  intros n. destruct (created_facts false) as (w & q & E & Eq & Hp & Ht & Hk & Hc).
  destruct (broadcast_completes digits_36 _ n "wd-1" w "cur-eth" q "0xh1" 19 8
    (demo_start true "ethereum") (created_reach false) E Hp Eq Hc) as (n'' & Hrun & _ & _ & Hrows).
  exists w, n''. split; [exact Hrun|]. split; [exact Ht|].
  rewrite Hrows, Hk, Ht, decide_True by reflexivity. vm_compute. reflexivity.
Defined.

(** Alice's ETH are on the global row. *)
Lemma fallback_withdrawal_stuck_witness :
  let w := new_withdrawal demo_request "funding" (Some "ethereum") (dec 2 0) (dec 1 1) (dec 19 1) 7
             WPendingApproval in
  ∃ d', create_body "wd-1" w "cur-eth" (total_of w) (demo_db CHAIN_ID_GLOBAL)
          = Ret (BalKey "alice" "cur-eth" CHAIN_ID_GLOBAL "funding", d') ∧
    (∃ e, reject_body "wd-1" "" d' = Throw e) ∧
    ∃ e, finish_body "wd-1" w "0xh1" 8 (put_withdrawal "wd-1" (set_approved w) d') = Throw e.
Proof.
  intros w.
  assert (match create_body "wd-1" w "cur-eth" (total_of w) (demo_db CHAIN_ID_GLOBAL) with
          | Ret (used, _) => Some used | Throw _ => None end
          = Some (BalKey "alice" "cur-eth" CHAIN_ID_GLOBAL "funding")) as Hused
    by (vm_compute; reflexivity).
  destruct (create_body _ _ _ _ _) as [[used d']|e] eqn:E; [|discriminate].
  injection Hused as ->. exists d'. split; [reflexivity|].
  destruct (fallback_withdrawal_stuck "wd-1" w "cur-eth" (demo_db CHAIN_ID_GLOBAL) _ d' "" "0xh1" 8
    eq_refl ltac:(vm_compute; reflexivity) E ltac:(discriminate) ltac:(vm_compute; reflexivity))
    as [Hrej Hfin].
  split; [apply Hrej; reflexivity|exact Hfin].
Defined.

(** ** A failed broadcast *)
(** [provider.broadcastTransaction] throws; the chain may have the transaction. *)
Definition lost_answer : list w_call := [create false; process HasSigner "tx1" None].
Definition no_signer : w_call := process NoSigner "" None.
Definition refunded : list w_call := lost_answer ++ [no_signer; no_signer].
Definition signed_again : list w_call :=
  lost_answer ++ [no_signer; process HasSigner "tx2" (Some "0xh2")].

(** A broadcast whose answer is lost is forgotten. From a clean start, without crashes
    and with every lock on the user's own row: when two later runs find no signer, the last
    one marks the withdrawal failed and pays the user back although its transaction went to
    the chain; when only one does, the next run signs a second transaction for the same
    withdrawal and sends it too. *)
Theorem lost_broadcast_pays_twice :
  ∃ n n1 n2 : wnode, start_ok true (nd_db n) ∧ nd_sent n = [] ∧
    rtc (wstep true) n n1 ∧ nd_sent n1 = [("wd-1", "tx1")] ∧
    w_status_ <$> (withdrawals (nd_db n1) !! "wd-1") = Some WFailed ∧
    row_of alice_row (bal (nd_db n1)) = row_of alice_row (bal (nd_db n)) ∧
    rtc (wstep true) n n2 ∧ nd_sent n2 = [("wd-1", "tx1"); ("wd-1", "tx2")] ∧
    w_status_ <$> (withdrawals (nd_db n2) !! "wd-1") = Some WCompleted.
Proof.
  exists (demo_node "ethereum"), (calls refunded (demo_node "ethereum")),
    (calls signed_again (demo_node "ethereum")).
  split; [apply demo_start|]. split; [reflexivity|].
  split; [apply (calls_strict refunded); vm_compute; reflexivity|].
  split; [vm_compute; reflexivity|]. split; [vm_compute; reflexivity|].
  split; [vm_compute; reflexivity|].
  split; [apply (calls_strict signed_again); vm_compute; reflexivity|].
  split; vm_compute; reflexivity.
Qed.

(** ** Overlapping runs of the processor *)
(** A second request, so that more is locked on Alice's row. *)
Definition create_second : w_call :=
  CCreate (demo_world false)
    (WithdrawRequest "alice" "eth" (Fin (dec 2 0)) "0xB0B" "funding" "key-2") "wd-2" 0.
Definition two_pending : wnode := calls [create false; create_second] (demo_node "ethereum").
Definition signing_env : sign_env := SignEnv true false HasSigner (Some "tx1") (Some "0xh1") None false true 0 8.

(** [server.ts] starts a run every five seconds, whatever the one before does. The first run
    has stored the signed transaction and waits for its broadcast; the second claims the same
    row, as a broadcast to retry, and waits for the lock (three tries, 100 ms apart); the
    first completes and releases the lock; the second goes on; a third follows. *)
Definition overlapping_runs : Proc wnode unit :=
  do* first := tx claim_body in
  match first with
  | None => pret tt
  | Some (id, q) =>
      do* found := tx (gets (λ d, withdrawals d !! id)) in
      do* signed := sign_transaction signing_env id q in
      do* second := tx claim_body in
      match found, signed, second with
      | Some w, Some signedTx, Some (id2, q2) =>
          do* sent := broadcastTransaction id signedTx (Some "0xh1") in
          tx (update_w id (set_stage "broadcasted")) >>>
          finishWithdrawal id w "0xh1" (19 * 10 ^ 17) 8 >>>
          processSigningQueueClaimed signing_env id2 q2 >>>
          processSigningQueue signing_env
      | _, _, _ => pret tt
      end
  end.

(** The completed withdrawal becomes failed and is paid back out of another withdrawal's
    lock: the theorems on sequences of calls do not extend to overlapping runs. *)
Theorem overlapping_runs_refund_completed :
  let n := snd (overlapping_runs two_pending) in
  nd_sent n = [("wd-1", "tx1")] ∧
  w_tx_hash <$> (withdrawals (nd_db n) !! "wd-1") = Some (Some "0xh1") ∧
  w_status_ <$> (withdrawals (nd_db n) !! "wd-1") = Some WFailed ∧
  w_status_ <$> (withdrawals (nd_db n) !! "wd-2") = Some WPending ∧
  available_balance (row_of alice_row (bal (nd_db n)))
    = available_balance (row_of alice_row (bal (nd_db two_pending))) + dec 21 1 ∧
  locked_balance (row_of alice_row (bal (nd_db n))) = 0.
Proof. vm_compute. repeat split. Qed.
