(* ===== verification/P2PModel.v ===== *)
(** * Peer-to-peer trading: tables and handlers

    [services/p2p.service.ts], [services/p2p-expiry.service.ts],
    [services/p2p-sla-worker.service.ts] and the transactional limits of
    [services/abuse-resilience.service.ts]. A handler is a program on the database;
    the clock, the configuration, the Redis flags, the reference price and the ids the
    database generates are arguments. *)
From stdpp Require Import base gmap strings list fin_maps sorting.
From Stdlib Require Import ZArith Lia Ascii.
From S2P Require Import Prelude Money Balances Escrow Halt.
Local Open Scope Z_scope.

(** ** Tables *)
Inductive ad_type := AdBuy | AdSell.
Inductive ad_status := AdActive | AdPaused | AdCompleted | AdCancelled.
Inductive price_type := PriceFixed | PriceFloating.
Inductive order_status :=
  | PAYMENT_PENDING | PAYMENT_CONFIRMED | COMPLETED | CANCELLED | DISPUTED | EXPIRED.
Inductive verification := VerPending | Verified | VerRejected.
Inductive dispute_status := DispOpen | DispUnderReview | DispResolved | DispClosed.
Inductive resolution := FavorBuyer | FavorSeller | ResCancelled.

#[export] Instance ad_type_eq_dec : EqDecision ad_type.
Proof. solve_decision. Defined.
#[export] Instance ad_status_eq_dec : EqDecision ad_status.
Proof. solve_decision. Defined.
#[export] Instance price_type_eq_dec : EqDecision price_type.
Proof. solve_decision. Defined.
#[export] Instance order_status_eq_dec : EqDecision order_status.
Proof. solve_decision. Defined.
#[export] Instance verification_eq_dec : EqDecision verification.
Proof. solve_decision. Defined.
#[export] Instance dispute_status_eq_dec : EqDecision dispute_status.
Proof. solve_decision. Defined.

(** The text of the [status] column. *)
Definition status_text (s : order_status) : string :=
  match s with
  | PAYMENT_PENDING => "payment_pending"
  | PAYMENT_CONFIRMED => "payment_confirmed"
  | COMPLETED => "completed"
  | CANCELLED => "cancelled"
  | DISPUTED => "disputed"
  | EXPIRED => "expired"
  end.

Record p2p_ad := P2PAd {
  ad_user : string;
  ad_kind : ad_type;
  ad_token : string;
  ad_fiat : string;
  ad_price_type : price_type;
  ad_margin : option Z;
  ad_price : Z;
  ad_min : Z;
  ad_max : Z;
  ad_available : Z;
  ad_total : Z;
  ad_payment_methods : list string;
  ad_time_limit : Z;
  ad_remarks : option string;
  ad_auto_reply : option string;
  ad_state : ad_status;
  ad_auto_release : bool;
  ad_completed_orders : Z;
}.

(** What an order fixes when it is created. *)
Record order_terms := OrderTerms {
  o_ad : string;
  o_buyer : string;
  o_seller : string;
  o_token : string;
  o_fiat : string;
  o_price : Z;
  o_quantity : Z;
  o_fiat_amount : Z;
  o_payment_method : string;
  o_escrow : option string;
  o_expires_at : Z;
  o_created_at : Z;
}.

Record payment := Payment {
  pay_confirmed_at : option Z;
  pay_proof_url : option string;
  pay_tx_ref : option string;
  pay_proof_uploaded_at : option Z;
  pay_verification : option verification;
  pay_verified_by : option string;
}.

Record p2p_order := P2POrder {
  o_terms : order_terms;
  o_status : order_status;
  o_payment : payment;
  o_released_at : option Z;
  o_cancelled_at : option Z;
  o_cancel_reason : option string;
}.

Record p2p_dispute := P2PDispute {
  d_order : string;
  d_initiator : string;
  d_reason : string;
  d_evidence : list string;
  d_status : dispute_status;
  d_resolution : option resolution;
  d_admin : option string;
  d_notes : option string;
}.

(** A row of [transactions]. *)
Record p2p_transaction := P2PTransaction {
  tx_user : string; tx_token : option string; tx_amount : Z; tx_order : string;
}.

Record p2p_db := P2PDb {
  pdb_escrow : escrow_db;
  ads : gmap string p2p_ad;
  orders : gmap string p2p_order;
  disputes : gmap string p2p_dispute;
  (** [user_p2p_payment_methods]: owner and [is_active] *)
  payment_methods : gmap string (string * option bool);
  (** [users.created_at], in milliseconds *)
  users : gmap string Z;
  p2p_transactions : list p2p_transaction;
}.

#[export] Instance p2p_db_escrow : Store p2p_db escrow_db.
Proof.
  refine {| sget := pdb_escrow;
            sput := λ e d, P2PDb e (ads d) (orders d) (disputes d) (payment_methods d) (users d)
                             (p2p_transactions d) |}; by intros [].
Defined.

Definition set_ads (x : gmap string p2p_ad) (d : p2p_db) : p2p_db :=
  P2PDb (pdb_escrow d) x (orders d) (disputes d) (payment_methods d) (users d) (p2p_transactions d).
Definition set_orders (x : gmap string p2p_order) (d : p2p_db) : p2p_db :=
  P2PDb (pdb_escrow d) (ads d) x (disputes d) (payment_methods d) (users d) (p2p_transactions d).
Definition set_disputes (x : gmap string p2p_dispute) (d : p2p_db) : p2p_db :=
  P2PDb (pdb_escrow d) (ads d) (orders d) x (payment_methods d) (users d) (p2p_transactions d).
Definition add_transaction (t : p2p_transaction) (d : p2p_db) : p2p_db :=
  P2PDb (pdb_escrow d) (ads d) (orders d) (disputes d) (payment_methods d) (users d)
    (p2p_transactions d ++ [t]).

(** ** Statements *)
Definition select_ad (id : string) : M p2p_db (option p2p_ad) := gets (λ d, ads d !! id).
Definition select_order (id : string) : M p2p_db (option p2p_order) := gets (λ d, orders d !! id).
(** [UPDATE t SET ... WHERE id = $1] *)
Definition update_ad (id : string) (f : p2p_ad → p2p_ad) : M p2p_db unit :=
  modify (λ d, set_ads (alter f id (ads d)) d).
Definition update_order (id : string) (f : p2p_order → p2p_order) : M p2p_db unit :=
  modify (λ d, set_orders (alter f id (orders d)) d).
Definition update_dispute (id : string) (f : p2p_dispute → p2p_dispute) : M p2p_db unit :=
  modify (λ d, set_disputes (alter f id (disputes d)) d).

Definition ad_with_available (a : Z) (x : p2p_ad) : p2p_ad :=
  P2PAd (ad_user x) (ad_kind x) (ad_token x) (ad_fiat x) (ad_price_type x) (ad_margin x) (ad_price x)
    (ad_min x) (ad_max x) a (ad_total x) (ad_payment_methods x) (ad_time_limit x) (ad_remarks x)
    (ad_auto_reply x) (ad_state x) (ad_auto_release x) (ad_completed_orders x).
Definition ad_with_price (p : Z) (x : p2p_ad) : p2p_ad :=
  P2PAd (ad_user x) (ad_kind x) (ad_token x) (ad_fiat x) (ad_price_type x) (ad_margin x) p
    (ad_min x) (ad_max x) (ad_available x) (ad_total x) (ad_payment_methods x) (ad_time_limit x)
    (ad_remarks x) (ad_auto_reply x) (ad_state x) (ad_auto_release x) (ad_completed_orders x).
Definition ad_with_state (s : ad_status) (x : p2p_ad) : p2p_ad :=
  P2PAd (ad_user x) (ad_kind x) (ad_token x) (ad_fiat x) (ad_price_type x) (ad_margin x) (ad_price x)
    (ad_min x) (ad_max x) (ad_available x) (ad_total x) (ad_payment_methods x) (ad_time_limit x)
    (ad_remarks x) (ad_auto_reply x) s (ad_auto_release x) (ad_completed_orders x).
Definition ad_completed_one (x : p2p_ad) : p2p_ad :=
  P2PAd (ad_user x) (ad_kind x) (ad_token x) (ad_fiat x) (ad_price_type x) (ad_margin x) (ad_price x)
    (ad_min x) (ad_max x) (ad_available x) (ad_total x) (ad_payment_methods x) (ad_time_limit x)
    (ad_remarks x) (ad_auto_reply x) (ad_state x) (ad_auto_release x) (ad_completed_orders x + 1).

Definition order_with (s : order_status) (p : payment) (x : p2p_order) : p2p_order :=
  P2POrder (o_terms x) s p (o_released_at x) (o_cancelled_at x) (o_cancel_reason x).
Definition with_verification (v : option verification) (p : payment) : payment :=
  Payment (pay_confirmed_at p) (pay_proof_url p) (pay_tx_ref p) (pay_proof_uploaded_at p) v
    (pay_verified_by p).
(** [released_at = COALESCE(released_at, NOW())] *)
Definition coalesce (o : option Z) (now : Z) : option Z :=
  match o with Some t => Some t | None => Some now end.

(** A field of a row read by its camelCase name: the driver returns the columns under
    their own, snake_case names, and so [undefined] here, unless it converts them. *)
Definition js_field {A} (camel : bool) (v : A) : option A := if camel then Some v else None.

(** [new Decimal(x)] and the argument of a comparison, which throw on a malformed
    string and on [undefined]. *)
Definition newDecimal {S A} (v : option A) : M S A := get_or v "[DecimalError] Invalid argument".

(** ** Configuration and environment of a call *)
Record p2p_config := P2PConfig {
  maxFiatPerOrderInr : Z;
  maxCryptoPerOrderUsdt : Z;
  maxFiatPerUserDailyInr : Z;
  newBuyerMaxAccountAgeHours : Z;
  newBuyerMaxOrderFiatInrEquiv : Z;
  unverifiedSellerMaxOrderFiatInrEquiv : Z;
  verifiedSellerMinCompletedOrders : Z;
  slaReleaseMinutes : Z;
  slaRelease : bool;
  slaWorkerEnabled : bool;
  requirePaymentProof : bool;
}.

(** The value of a [system_settings] row, as the driver returns it. *)
Inductive setting :=
  | SetBool (b : bool)
  | SetNumber (n : Z)
  | SetString (s : string)
  | SetOther.

Record p2p_env := P2PEnv {
  cfg : p2p_config;
  (** [Date.now()] and [NOW()], in milliseconds *)
  now : Z;
  (** whether the driver converts column names to camelCase *)
  camel : bool;
  (** the row of [admin_p2p_orders_paused] *)
  paused_setting : option setting;
  (** whether [JSON.parse] of the text gives an object with [enabled === true] *)
  json_enabled : string → bool;
  (** what the successive reads of the trading halt key give *)
  halt_reads : list redis_read;
  (** [isMmCircuitTradingPaused()] *)
  mm_paused : bool;
  (** [getP2PReferencePriceDecimal], which throws when there is none *)
  reference_price : string → string → option Z;
  (** the error [rabbitmq.sendToQueue] throws, if it does *)
  queue_error : option string;
}.

Definition sendToQueue {S} (env : p2p_env) : M S unit :=
  match queue_error env with None => ret tt | Some e => throw e end.

(** JavaScript's [trim], on ASCII white space. *)
Definition js_space (a : ascii) : bool :=
  let n := N_of_ascii a in ((9 <=? n)%N && (n <=? 13)%N) || (n =? 32)%N.
Fixpoint js_ltrim (s : string) : string :=
  match s with
  | "" => ""
  | String a s' => if js_space a then js_ltrim s' else s
  end.
Fixpoint js_rtrim (s : string) : string :=
  match s with
  | "" => ""
  | String a s' => match js_rtrim s' with
                   | "" => if js_space a then "" else String a ""
                   | t => String a t
                   end
  end.
Definition js_trim (s : string) : string := js_ltrim (js_rtrim s).

Definition starts_with_brace (s : string) : bool :=
  match s with String "{"%char _ => true | _ => false end.

(** ** [isP2PAdminPaused] *)
Definition isP2PAdminPaused (env : p2p_env) : bool :=
  match paused_setting env with
  | None => false
  | Some (SetBool true) => true
  | Some (SetNumber 1) => true
  | Some (SetString v) =>
      let s := js_trim v in
      if String.eqb s "1" || String.eqb (lower s) "true" then true
      else if starts_with_brace s then json_enabled env s
      else false
  | Some _ => false
  end.

(** ** [services/abuse-resilience.service.ts] *)
Definition P2P_MAX_OPEN_ESCROWS_PER_USER : Z := 30.
Definition P2P_MAX_ESCROW_TOTAL_PER_USER : Z := dec 500000 0.
Definition P2P_ORDER_VELOCITY_WINDOW_MINUTES : Z := 60.
Definition P2P_ORDER_VELOCITY_MAX : Z := 20.

Definition minutes (n : Z) : Z := n * 60 * 1000.
Definition hours (n : Z) : Z := n * 3600000.

Definition user_locked (u : string) (e : escrow) : bool :=
  String.eqb (esc_user_id e) u && bool_decide (esc_status e = EscLocked).
(** [COUNT] and [SUM(amount)] of [escrows WHERE user_id AND status = 'locked'] *)
Definition locked_count (u : string) (d : escrow_db) : Z :=
  msum (λ _ e, if user_locked u e then 1 else 0) (escrows d).
Definition locked_total (u : string) (d : escrow_db) : Z :=
  msum (λ _ e, if user_locked u e then esc_amount e else 0) (escrows d).

Definition party (u : string) (o : p2p_order) : bool :=
  String.eqb (o_buyer (o_terms o)) u || String.eqb (o_seller (o_terms o)) u.
Definition recent_orders (u : string) (since : Z) (d : p2p_db) : Z :=
  msum (λ _ o, if party u o && (since <? o_created_at (o_terms o)) then 1 else 0) (orders d).

Section Limits.
Context `{DecimalJs}.

Definition assertP2PEscrowCapInTransaction (sellerId : string) (additionalAmount : Z) :
    M escrow_db unit :=
  let* count := gets (locked_count sellerId) in
  let* total := gets (locked_total sellerId) in
  let newTotal := dplus total additionalAmount in
  require (negb (P2P_MAX_OPEN_ESCROWS_PER_USER <=? count)) "P2P_ESCROW_CAP_EXCEEDED" ;;;
  require (negb (P2P_MAX_ESCROW_TOTAL_PER_USER <? newTotal)) "P2P_ESCROW_TOTAL_CAP_EXCEEDED".

(** The same statements without the row locks, on the pool. *)
Definition assertP2PEscrowCap (sellerId : string) (additionalAmount : Z) : M escrow_db unit :=
  assertP2PEscrowCapInTransaction sellerId additionalAmount.

Definition assertP2POrderVelocityInTransaction (env : p2p_env) (userId : string) : M p2p_db unit :=
  let* count := gets (recent_orders userId (now env - minutes P2P_ORDER_VELOCITY_WINDOW_MINUTES)) in
  require (negb (P2P_ORDER_VELOCITY_MAX <=? count)) "P2P_ORDER_VELOCITY_EXCEEDED".

Definition assertP2POrderVelocity (env : p2p_env) (userId : string) : M p2p_db unit :=
  assertP2POrderVelocityInTransaction env userId.

Definition completed_as_seller (u : string) (d : p2p_db) : Z :=
  msum (λ _ o, if String.eqb (o_seller (o_terms o)) u && bool_decide (o_status o = COMPLETED)
               then 1 else 0) (orders d).

Definition assertP2PTradeTierLimitsInTransaction (env : p2p_env) (buyerId sellerId : string)
    (fiatInrApprox : Z) : M p2p_db unit :=
  let c := cfg env in
  (if (0 <? newBuyerMaxAccountAgeHours c) && (0 <? newBuyerMaxOrderFiatInrEquiv c) then
     let* created := gets (λ d, users d !! buyerId) in
     match created with
     | Some t =>
         require (negb ((now env - t <? hours (newBuyerMaxAccountAgeHours c))
                        && (newBuyerMaxOrderFiatInrEquiv c <? fiatInrApprox)))
           "P2P_NEW_BUYER_LIMIT"
     | None => ret tt
     end
   else ret tt) ;;;
  (if 0 <? unverifiedSellerMaxOrderFiatInrEquiv c then
     let* completed := gets (completed_as_seller sellerId) in
     let verified := verifiedSellerMinCompletedOrders c <=? completed in
     require (negb (negb verified && (unverifiedSellerMaxOrderFiatInrEquiv c <? fiatInrApprox)))
       "P2P_MERCHANT_TIER_LIMIT"
   else ret tt).
End Limits.

(** ** Advertisements *)
Section Ads.
Context `{DecimalJs}.

Record create_ad_params := CreateAdParams {
  ca_user : string; ca_type : ad_type; ca_token : string; ca_fiat : string;
  ca_price_type : price_type; ca_price : Z; ca_margin : option Z;
  ca_min : option Z; ca_max : option Z; ca_total : option Z;
  ca_payment_methods : list string; ca_time_limit : option Z;
  ca_remarks : option string; ca_auto_reply : option string; ca_auto_release : option bool;
}.

Definition own_active_method (userId : string) (d : p2p_db) (id : string) : bool :=
  match payment_methods d !! id with
  | Some (u, Some true) => String.eqb u userId
  | _ => false
  end.

(** [available + escrow] of the row, zero when there is none. *)
Definition row_sum (r : option user_balance) : Z :=
  match r with Some r => dplus (available_balance r) (escrow_balance r) | None => 0 end.

(** What the seller of a sell ad is taken to own of the token's currency. *)
Definition sell_capacity (userId tokenId currencyId : string) (d : escrow_db) : Z :=
  let chainId := token_chain tokenId d in
  let rows := user_balances (edb_balances d) in
  if negb (String.eqb chainId "") then
    let chainSum := row_sum (rows !! funding_key userId currencyId chainId) in
    let globalSum := row_sum (rows !! funding_key userId currencyId CHAIN_ID_GLOBAL) in
    if globalSum <=? chainSum then chainSum else globalSum
  else
    msum (λ k r, if String.eqb (user_id k) userId && String.eqb (currency_id k) currencyId
                 then available_balance r + escrow_balance r else 0) rows.

Definition checkSellAd (userId tokenId : string) (totalAmount : Z) : M escrow_db unit :=
  let* cur := gets (getCurrencyIdForToken tokenId) in
  let* currencyId := get_or cur "Cannot create sell ad: token has no mapped currency" in
  let* available := gets (sell_capacity userId tokenId currencyId) in
  require (negb (available <? totalAmount)) "Insufficient balance for sell ad".

Definition createAd (p : create_ad_params) (adId : string) : M p2p_db p2p_ad :=
  let* minDec := newDecimal (ca_min p) in
  let* maxDec := newDecimal (ca_max p) in
  let* totalDec := newDecimal (ca_total p) in
  require (negb (maxDec <? minDec)) "Minimum amount cannot exceed maximum amount" ;;;
  require (negb (totalDec <? maxDec)) "Maximum order amount cannot exceed total amount" ;;;
  require (negb (bool_decide (ca_payment_methods p = [])))
    "At least one payment method is required" ;;;
  let* valid := gets (λ d, length (filter (own_active_method (ca_user p) d)
                                    (remove_dups (ca_payment_methods p)))) in
  require (Nat.eqb valid (length (ca_payment_methods p))) "Invalid payment methods" ;;;
  (if bool_decide (ca_type p = AdSell)
   then zoom (checkSellAd (ca_user p) (ca_token p) totalDec) else ret tt) ;;;
  let ad := P2PAd (ca_user p) (ca_type p) (ca_token p) (ca_fiat p) (ca_price_type p)
    (ca_margin p) (ca_price p) minDec maxDec totalDec totalDec (ca_payment_methods p)
    (default 15 (ca_time_limit p)) (ca_remarks p) (ca_auto_reply p) AdActive
    (default false (ca_auto_release p)) 0 in
  let* dup := gets (λ d, ads d !! adId) in
  require (bool_decide (dup = None)) "duplicate key value violates unique constraint" ;;;
  modify (λ d, set_ads (<[adId := ad]> (ads d)) d) ;;;
  ret ad.

Record ad_updates := AdUpdates {
  up_price : option Z; up_min : option Z; up_max : option (option Z);
  up_payment_methods : option (list string); up_remarks : option string;
  up_auto_reply : option string; up_status : option ad_status;
}.

Definition apply_updates (u : ad_updates) (x : p2p_ad) : p2p_ad :=
  P2PAd (ad_user x) (ad_kind x) (ad_token x) (ad_fiat x) (ad_price_type x) (ad_margin x)
    (default (ad_price x) (up_price u)) (default (ad_min x) (up_min u))
    (default (ad_max x) (mjoin (up_max u)))
    (ad_available x) (ad_total x) (default (ad_payment_methods x) (up_payment_methods u))
    (ad_time_limit x) (match up_remarks u with Some r => Some r | None => ad_remarks x end)
    (match up_auto_reply u with Some r => Some r | None => ad_auto_reply x end)
    (default (ad_state x) (up_status u)) (ad_auto_release x) (ad_completed_orders x).

Definition no_updates (u : ad_updates) : bool :=
  match u with AdUpdates None None None None None None None => true | _ => false end.

(** The maximum may not go below the available amount; the read and the UPDATE are
    two statements on the pool, outside a transaction. *)
Definition updateAd (adId userId : string) (u : ad_updates) : M p2p_db p2p_ad :=
  let* sel := select_ad adId in
  let* ad := get_or (match sel with
                     | Some a => if String.eqb (ad_user a) userId then Some a else None
                     | None => None end) "Ad not found" in
  require (negb (bool_decide (ad_state ad = AdCompleted) || bool_decide (ad_state ad = AdCancelled)))
    "Cannot update this ad" ;;;
  (match up_max u with
   | None => ret tt
   | Some v => let* m := newDecimal v in
               require (negb (m <? ad_available ad))
                 "max_amount cannot be less than available_amount"
   end) ;;;
  if no_updates u then ret ad
  else update_ad adId (apply_updates u) ;;;
       let* after := select_ad adId in
       get_or after "Ad not found".

(** [status NOT IN ('completed', 'cancelled', 'expired')] *)
Definition order_open (s : order_status) : bool :=
  negb (bool_decide (s = COMPLETED) || bool_decide (s = CANCELLED) || bool_decide (s = EXPIRED)).
Definition active_orders (adId : string) (d : p2p_db) : Z :=
  msum (λ _ o, if String.eqb (o_ad (o_terms o)) adId && order_open (o_status o) then 1 else 0)
    (orders d).

Definition cancelAd (adId userId : string) : M p2p_db unit :=
  let* sel := select_ad adId in
  let* ad := get_or (match sel with
                     | Some a => if String.eqb (ad_user a) userId then Some a else None
                     | None => None end) "Ad not found" in
  require (bool_decide (ad_state ad = AdActive) || bool_decide (ad_state ad = AdPaused))
    "Cannot cancel this ad" ;;;
  let* count := gets (active_orders adId) in
  require (negb (0 <? count)) "Cannot cancel ad with active orders" ;;;
  update_ad adId (ad_with_state AdCancelled).
End Ads.

(** ** Creating an order *)
Definition P2P_QUANTITY_MAX : Z := dec 1000000000000000 0.

(** What the redis client holds: lock key to lock value. *)
Abbreviation locks := (gmap string string).
Record p2p_sys := P2PSys { sys_db : p2p_db; sys_locks : locks }.

Definition acquireLock (key value : string) (l : locks) : option locks :=
  match l !! key with Some _ => None | None => Some (<[key := value]> l) end.
Definition releaseLock (key value : string) (l : locks) : locks :=
  match l !! key with
  | Some v => if String.eqb v value then delete key l else l
  | None => l
  end.

Definition seller_lock_key (sellerId : string) : string := "lock:p2p:seller:" +:+ sellerId.
Definition order_lock_key (adId : string) : string := "lock:p2p:order:" +:+ adId.

Section CreateOrder.
Context `{DecimalJs}.

Definition assertValidP2PQuantity {S} (v : option decval) : M S unit :=
  let* d := newDecimal v in
  match d with
  | NonFinite => throw "Invalid quantity"
  | Fin q => require (negb (q <=? 0)) "Quantity must be positive" ;;;
             require (negb (P2P_QUANTITY_MAX <? q)) "Quantity exceeds maximum"
  end.

(** [applyFloatingMargin] of [services/p2p-reference-price.service.ts] *)
Definition applyFloatingMargin (reference marginPercent : Z) : Z :=
  let mult := dplus one (ddiv marginPercent (dec 100 0)) in
  toDP 18 (dtimes reference mult).

(** The guards on the ad, the amount and the payment method. *)
Definition check_ad (env : p2p_env) (userId paymentMethodId : string) (ad : p2p_ad) (qtyDec : Z) :
    M p2p_db (string * string) :=
  require (bool_decide (ad_state ad = AdActive)) "Ad is not active" ;;;
  require (negb (ad_available ad <=? 0)) "Ad has no available amount" ;;;
  let adUserId := js_field (camel env) (ad_user ad) in
  require (negb (bool_decide (adUserId = Some userId))) "Cannot trade with your own ad" ;;;
  let* minAmount := newDecimal (js_field (camel env) (ad_min ad)) in
  (if qtyDec <? minAmount then throw "Amount must be between"
   else let* maxAmount := newDecimal (js_field (camel env) (ad_max ad)) in
        require (negb (maxAmount <? qtyDec)) "Amount must be between") ;;;
  let* availableAmount := newDecimal (js_field (camel env) (ad_available ad)) in
  require (negb (availableAmount <? qtyDec)) "Insufficient available amount" ;;;
  let owner := default "undefined" adUserId in
  let buyerId := if bool_decide (ad_kind ad = AdSell) then userId else owner in
  let sellerId := if bool_decide (ad_kind ad = AdSell) then owner else userId in
  let* userPm := gets (λ d, payment_methods d !! paymentMethodId) in
  let* pm := get_or (match userPm with
                     | Some (u, active) => if String.eqb u buyerId then Some active else None
                     | None => None end) "Invalid payment method" in
  require (negb (bool_decide (pm = Some false))) "Payment method is not active" ;;;
  ret (buyerId, sellerId).

(** The halt, velocity and escrow-cap checks, in their order. *)
Definition check_halt_and_caps (env : p2p_env) (userId sellerId : string) (quantity : Z) :
    M p2p_db unit :=
  require (negb (isTradingHalted (halt_reads env))) "TRADING_HALTED" ;;;
  require (negb (mm_paused env)) "MM_CIRCUIT_TRADING_PAUSED" ;;;
  assertP2POrderVelocityInTransaction env userId ;;;
  zoom (assertP2PEscrowCapInTransaction sellerId quantity).

(** The server-side unit price of the order; a floating price is written to the ad. *)
Definition lock_unit_price (env : p2p_env) (adId : string) (ad : p2p_ad) : M p2p_db Z :=
  let adFiatCur := ad_fiat ad in
  let* sym := gets (λ d, tok_symbol <$> (tokens (pdb_escrow d) !! ad_token ad)) in
  let cryptoSymbol := default "USDT" sym in
  match ad_price_type ad, ad_margin ad with
  | PriceFloating, Some margin =>
      let* ref := get_or (reference_price env cryptoSymbol adFiatCur) "No reference price" in
      let price := applyFloatingMargin ref margin in
      update_ad adId (ad_with_price price) ;;; ret price
  | _, _ => ret (ad_price ad)
  end.

(** [SUM(fiat_amount)] of the user's INR orders of the last day *)
Definition daily_inr (u : string) (since : Z) (d : p2p_db) : Z :=
  msum (λ _ o, if party u o && String.eqb (o_fiat (o_terms o)) "INR"
                  && negb (bool_decide (o_status o = CANCELLED) || bool_decide (o_status o = EXPIRED))
                  && (since <? o_created_at (o_terms o))
               then o_fiat_amount (o_terms o) else 0) (orders d).

Definition check_fiat_limits (env : p2p_env) (userId buyerId sellerId adFiatCur : string)
    (fiatAmountDec : Z) : M p2p_db unit :=
  let c := cfg env in
  let inr := String.eqb adFiatCur "INR" in
  let fiatInrApprox := if inr then fiatAmountDec else dtimes fiatAmountDec (dec 83 0) in
  require (negb (maxFiatPerOrderInr c <? fiatInrApprox)) "Order amount exceeds maximum allowed" ;;;
  let usd := String.eqb adFiatCur "USD" || String.eqb adFiatCur "USDT" in
  let cryptoUsdtApprox := if usd then fiatAmountDec else ddiv fiatAmountDec (dec 83 0) in
  require (negb (maxCryptoPerOrderUsdt c <? cryptoUsdtApprox)) "Order amount exceeds maximum allowed" ;;;
  (if inr then
     let* total := gets (daily_inr userId (now env - hours 24)) in
     require (negb (maxFiatPerUserDailyInr c <? dplus total fiatAmountDec))
       "Daily P2P limit exceeded"
   else ret tt) ;;;
  assertP2PTradeTierLimitsInTransaction env buyerId sellerId fiatInrApprox.

(** The rows written once every check has passed. [uuid], [escrowId] and [orderId] are
    the ids generated on the way. *)
Definition write_order (env : p2p_env) (adId paymentMethodId buyerId sellerId : string) (ad : p2p_ad)
    (qtyDec lockedUnitPrice fiatAmount : Z) (uuid escrowId orderId : string) :
    M p2p_db p2p_order :=
  let* tokenId := get_or (js_field (camel env) (ad_token ad)) "Ad missing token/crypto currency" in
  let* eid := zoom (moveToEscrow sellerId tokenId (Fin qtyDec) None uuid escrowId) in
  let paymentTimeLimit := default 15 (js_field (camel env) (ad_time_limit ad)) in
  let order := P2POrder
    (OrderTerms adId buyerId sellerId tokenId (ad_fiat ad) lockedUnitPrice qtyDec fiatAmount
       paymentMethodId (Some eid) (now env + minutes paymentTimeLimit) (now env))
    PAYMENT_PENDING (Payment None None None None None None) None None None in
  let* dup := gets (λ d, orders d !! orderId) in
  require (bool_decide (dup = None)) "duplicate key value violates unique constraint" ;;;
  modify (λ d, set_orders (<[orderId := order]> (orders d)) d) ;;;
  zoom (modify (λ e, EscrowDb (edb_balances e)
    (alter (λ x, Escrow (esc_user_id x) (esc_currency_id x) (esc_token_id x) (esc_amount x)
                   (esc_status x) (Some orderId) (esc_admin_frozen x)) eid (escrows e))
    (tokens e) (currencies e))) ;;;
  let newAvailable := toDP 8 (dminus (ad_available ad) qtyDec) in
  require (negb (newAvailable <? 0)) "Insufficient available amount" ;;;
  update_ad adId (ad_with_available newAvailable) ;;;
  sendToQueue env ;;;
  ret order.

(** The transaction of [createOrder]. *)
Definition createOrder_tx (env : p2p_env) (userId adId paymentMethodId : string) (qtyDec : Z)
    (uuid escrowId orderId : string) : M p2p_db p2p_order :=
  let* sel := select_ad adId in
  let* ad := get_or sel "Ad not found" in
  let* parties := check_ad env userId paymentMethodId ad qtyDec in
  let '(buyerId, sellerId) := parties in
  check_halt_and_caps env userId sellerId qtyDec ;;;
  let* lockedUnitPrice := lock_unit_price env adId ad in
  let fiatAmount := toDP 8 (dtimes qtyDec lockedUnitPrice) in
  check_fiat_limits env userId buyerId sellerId (ad_fiat ad) fiatAmount ;;;
  write_order env adId paymentMethodId buyerId sellerId ad qtyDec lockedUnitPrice fiatAmount
    uuid escrowId orderId.

(** The whole call: the two Redis locks around the transaction. The quantity is
    checked after the locks are taken and before the [try] whose [finally] releases
    them. *)
Definition createOrder (env : p2p_env) (userId adId paymentMethodId : string)
    (quantity : option decval) (lockValue uuid escrowId orderId : string) (s : p2p_sys) :
    outcome p2p_order * p2p_sys :=
  if isP2PAdminPaused env then
    (Throw "P2P order placement is temporarily paused by exchange operators.", s)
  else
  match ads (sys_db s) !! adId with
  | None => (Throw "Ad not found", s)
  | Some preview =>
      let sellerId := if bool_decide (ad_kind preview = AdSell) then ad_user preview else userId in
      match acquireLock (seller_lock_key sellerId) lockValue (sys_locks s) with
      | None => (Throw "Unable to process order. Please try again.", s)
      | Some l1 =>
          match acquireLock (order_lock_key adId) lockValue l1 with
          | None =>
              (Throw "Unable to process order. Please try again.",
               P2PSys (sys_db s) (releaseLock (seller_lock_key sellerId) lockValue l1))
          | Some l2 =>
              match assertValidP2PQuantity quantity l2, quantity with
              | Ret _, Some (Fin q) =>
                  let '(r, d) := transaction
                    (createOrder_tx env userId adId paymentMethodId q uuid escrowId orderId)
                    (sys_db s) in
                  (r, P2PSys d (releaseLock (seller_lock_key sellerId) lockValue
                                 (releaseLock (order_lock_key adId) lockValue l2)))
              | Throw e, _ => (Throw e, P2PSys (sys_db s) l2)
              | Ret _, _ => (Throw "", P2PSys (sys_db s) l2)
              end
          end
      end
  end.
End CreateOrder.

(** ** The life of an order *)
Section OrderLife.
Context `{DecimalJs}.

Definition lock_order (orderId : string) : M p2p_db p2p_order :=
  let* sel := select_order orderId in get_or sel "Order not found".

Definition nonempty (s : string) : bool := negb (String.eqb s "").
Definition or_null (s : string) : option string := if nonempty s then Some s else None.

(** The [payment] columns [confirmPayment] leaves. *)
Definition confirmed_payment (env : p2p_env) (proofUrl txRef : string) (p : payment) : payment :=
  if requirePaymentProof (cfg env) then
    Payment (Some (now env)) (Some proofUrl) (Some txRef) (Some (now env)) (Some VerPending)
      (pay_verified_by p)
  else if nonempty proofUrl || nonempty txRef then
    Payment (Some (now env))
      (match or_null proofUrl with Some u => Some u | None => pay_proof_url p end)
      (match or_null txRef with Some t => Some t | None => pay_tx_ref p end)
      (match or_null proofUrl with Some _ => Some (now env) | None => pay_proof_uploaded_at p end)
      (pay_verification p) (pay_verified_by p)
  else
    Payment (Some (now env)) (pay_proof_url p) (pay_tx_ref p) (pay_proof_uploaded_at p)
      (pay_verification p) (pay_verified_by p).

Definition confirmPayment (env : p2p_env) (orderId userId : string)
    (opts : option (string * string)) : M p2p_db unit :=
  let* order := lock_order orderId in
  require (String.eqb (o_buyer (o_terms order)) userId) "Only buyer can confirm payment" ;;;
  if bool_decide (o_status order = PAYMENT_CONFIRMED) then ret tt
  else
    require (bool_decide (o_status order = PAYMENT_PENDING)) "Invalid order status" ;;;
    let proofUrl := match opts with Some (u, _) => js_trim u | None => "" end in
    let txRef := match opts with Some (_, t) => js_trim t | None => "" end in
    (if requirePaymentProof (cfg env) then
       require (nonempty proofUrl) "PAYMENT_PROOF_REQUIRED" ;;;
       require (nonempty txRef && (String.length txRef <=? 256)%nat) "TRANSACTION_REFERENCE_REQUIRED"
     else
       require (String.length txRef <=? 256)%nat "TRANSACTION_REFERENCE_TOO_LONG") ;;;
    update_order orderId (λ o,
      order_with PAYMENT_CONFIRMED (confirmed_payment env proofUrl txRef (o_payment o)) o) ;;;
    sendToQueue env.

Definition sellerVerifyPayment (orderId sellerUserId : string) : M p2p_db unit :=
  let* order := lock_order orderId in
  require (String.eqb (o_seller (o_terms order)) sellerUserId) "Only seller can verify payment" ;;;
  require (bool_decide (o_status order = PAYMENT_CONFIRMED)) "Invalid order status" ;;;
  require (bool_decide (pay_verification (o_payment order) = Some VerPending))
    "Payment is not pending seller verification" ;;;
  update_order orderId (λ o,
    let p := o_payment o in
    order_with (o_status o)
      (Payment (pay_confirmed_at p) (pay_proof_url p) (pay_tx_ref p) (pay_proof_uploaded_at p)
         (Some Verified) (Some (o_seller (o_terms order)))) o).

(** Who may release, and when. *)
Definition release_allowed (env : p2p_env) (order : p2p_order) (userId : string) (slaAutoRelease : bool) :
    M p2p_db unit :=
  if slaAutoRelease then
    require (String.eqb (o_seller (o_terms order)) userId) "SLA release validation failed" ;;;
    let* pcat := get_or (pay_confirmed_at (o_payment order)) "payment_confirmed_at missing" in
    require (negb (now env - pcat <? minutes (slaReleaseMinutes (cfg env)))) "SLA window not elapsed"
  else
    require (String.eqb (o_seller (o_terms order)) userId) "Only seller can release crypto".

Definition complete_order (env : p2p_env) (keep : bool) (o : p2p_order) : p2p_order :=
  P2POrder (o_terms o) COMPLETED (o_payment o)
    (if keep then coalesce (o_released_at o) (now env) else Some (now env))
    (o_cancelled_at o) (o_cancel_reason o).

Definition releaseCrypto (env : p2p_env) (orderId userId : string) (slaAutoRelease : bool) :
    M p2p_db unit :=
  let* order := lock_order orderId in
  release_allowed env order userId slaAutoRelease ;;;
  if bool_decide (o_status order = COMPLETED) then ret tt
  else
    require (negb (bool_decide (o_status order = CANCELLED))) "Cannot release cancelled order" ;;;
    require (bool_decide (o_status order = PAYMENT_CONFIRMED)) "Payment not yet confirmed by buyer" ;;;
    let pvs := pay_verification (o_payment order) in
    require (slaAutoRelease || negb (bool_decide (pvs = Some VerPending)
                                     || bool_decide (pvs = Some VerRejected)))
      "PAYMENT_NOT_VERIFIED" ;;;
    let* escrowId := get_or (o_escrow (o_terms order)) "Order missing escrow_id" in
    let* escrowRow := gets (λ d, escrows (pdb_escrow d) !! escrowId) in
    let* row := get_or escrowRow "Escrow not found" in
    require (bool_decide (esc_status row = EscLocked)) "Escrow not in locked status" ;;;
    require (negb (esc_amount row <? o_quantity (o_terms order)))
      "Escrow balance insufficient for release" ;;;
    let* releaseResult := zoom (releaseFromEscrow escrowId (o_buyer (o_terms order))) in
    match releaseResult with
    | AlreadyReleased => update_order orderId (complete_order env true)
    | _ =>
        update_order orderId (complete_order env false) ;;;
        update_ad (o_ad (o_terms order)) ad_completed_one ;;;
        modify (add_transaction (P2PTransaction (o_buyer (o_terms order))
          (js_field (camel env) (o_token (o_terms order))) (o_quantity (o_terms order)) orderId)) ;;;
        sendToQueue env
    end.

(** The ad gets the order's quantity back. *)
Definition restore_liquidity (adId : string) (qty : Z) : M p2p_db unit :=
  let* sel := select_ad adId in
  let* adRow := get_or sel "Ad not found during liquidity restore" in
  update_ad adId (λ a, ad_with_available (ad_available a + qty) a) ;;;
  let* selAfter := select_ad adId in
  let* afterRow := get_or selAfter "Ad row missing after liquidity restore" in
  require (negb (ad_available afterRow <? 0))
    "Liquidity clamp violation: available_amount would be negative" ;;;
  require (negb (ad_total adRow <? ad_available afterRow))
    "Liquidity restoration would exceed ad total".

Definition cancel_order (env : p2p_env) (keep : bool) (reason : option string) (o : p2p_order) :
    p2p_order :=
  P2POrder (o_terms o) CANCELLED (o_payment o) (o_released_at o)
    (if keep then coalesce (o_cancelled_at o) (now env) else Some (now env))
    (match reason with Some r => Some r | None => o_cancel_reason o end).

(** The parties are compared through the camelCase fields. *)
Definition cancelOrder (env : p2p_env) (orderId userId reason : string) : M p2p_db unit :=
  let* order := lock_order orderId in
  if bool_decide (o_status order = CANCELLED) then ret tt
  else
    require (bool_decide (o_status order = PAYMENT_PENDING))
      "Cannot cancel order in current status" ;;;
    require (bool_decide (js_field (camel env) (o_buyer (o_terms order)) = Some userId)
             || bool_decide (js_field (camel env) (o_seller (o_terms order)) = Some userId))
      "Not authorized to cancel this order" ;;;
    let* escrowId := get_or (o_escrow (o_terms order)) "Order missing escrow_id" in
    let* refundResult := zoom (refundFromEscrow escrowId) in
    match refundResult with
    | AlreadyRefunded => update_order orderId (cancel_order env true None)
    | _ =>
        restore_liquidity (o_ad (o_terms order)) (o_quantity (o_terms order)) ;;;
        update_order orderId (cancel_order env false (Some reason))
    end.

(** ** Disputes *)
Definition open_dispute_status (s : dispute_status) : bool :=
  bool_decide (s = DispOpen) || bool_decide (s = DispUnderReview).

Definition disputed_order (o : p2p_order) : p2p_order :=
  let p := o_payment o in
  order_with DISPUTED
    (if bool_decide (pay_verification p = Some VerPending)
     then with_verification (Some VerRejected) p else p) o.

Definition evidence_of (p : payment) : list string :=
  (match pay_proof_url p with
   | Some u => if nonempty u then ["payment_proof_url:" +:+ u] else []
   | None => [] end) ++
  (match pay_tx_ref p with
   | Some t => if nonempty t then ["transaction_reference:" +:+ t] else []
   | None => [] end).

Definition openDispute (env : p2p_env) (orderId userId reason : string)
    (evidence : list string) (disputeId : string) : M p2p_db unit :=
  let* order := lock_order orderId in
  require (String.eqb (o_buyer (o_terms order)) userId || String.eqb (o_seller (o_terms order)) userId)
    "Not authorized to open dispute" ;;;
  require (bool_decide (o_status order = PAYMENT_CONFIRMED))
    "Cannot dispute order in current status" ;;;
  let* existing := gets (λ d, msum (λ _ x, if String.eqb (d_order x) orderId
                                              && open_dispute_status (d_status x)
                                           then 1 else 0) (disputes d)) in
  require (negb (0 <? existing)) "Dispute already exists for this order" ;;;
  let* dup := gets (λ d, disputes d !! disputeId) in
  require (bool_decide (dup = None)) "duplicate key value violates unique constraint" ;;;
  modify (λ d, set_disputes (<[disputeId := P2PDispute orderId userId reason
    (evidence ++ evidence_of (o_payment order)) DispOpen None None None]> (disputes d)) d) ;;;
  update_order orderId disputed_order ;;;
  sendToQueue env.

Definition resolve_dispute (adminId notes : string) (r : resolution) (x : p2p_dispute) : p2p_dispute :=
  P2PDispute (d_order x) (d_initiator x) (d_reason x) (d_evidence x) DispResolved (Some r)
    (Some adminId) (Some notes).

(** The liquidity restore of a dispute: a missing ad is passed over. *)
Definition restore_liquidity_lenient (adId : string) (qty : Z) : M p2p_db unit :=
  let* sel := select_ad adId in
  match sel with
  | None => ret tt
  | Some adRow =>
      update_ad adId (λ a, ad_with_available (ad_available a + qty) a) ;;;
      let* after := select_ad adId in
      match after with
      | None => ret tt
      | Some afterRow =>
          require (negb (ad_total adRow <? ad_available afterRow))
            "Liquidity restoration would exceed ad total"
      end
  end.

Definition favor_buyer (env : p2p_env) (orderId : string) (order : p2p_order) (escrowId : string) :
    M p2p_db unit :=
  let* releaseResult := zoom (releaseFromEscrow escrowId (o_buyer (o_terms order))) in
  update_order orderId (λ o,
    let o' := complete_order env true o in
    order_with COMPLETED (with_verification (Some Verified) (o_payment o')) o').

Definition favor_seller (env : p2p_env) (orderId : string) (order : p2p_order) (escrowId : string) :
    M p2p_db unit :=
  let* refundResult := zoom (refundFromEscrow escrowId) in
  (match refundResult with
   | AlreadyRefunded => ret tt
   | _ => restore_liquidity_lenient (o_ad (o_terms order)) (o_quantity (o_terms order))
   end) ;;;
  update_order orderId (λ o,
    let o' := cancel_order env true None o in
    order_with CANCELLED (with_verification (Some VerRejected) (o_payment o')) o').

Definition resolveDispute (env : p2p_env) (disputeId adminId : string) (r : resolution)
    (notes : string) : M p2p_db unit :=
  let* sel := gets (λ d, disputes d !! disputeId) in
  let* dispute := get_or sel "Dispute not found" in
  let disputeOrderId := d_order dispute in
  require (nonempty disputeOrderId) "Dispute missing order id" ;;;
  require (negb (bool_decide (d_status dispute = DispResolved)
                 || bool_decide (d_status dispute = DispClosed))) "Dispute already resolved" ;;;
  let* selOrder := select_order disputeOrderId in
  let* order := get_or selOrder "Cannot read properties of undefined" in
  let* escrowId := get_or (o_escrow (o_terms order)) "Order missing escrow_id" in
  (match r with
   | FavorBuyer => favor_buyer env disputeOrderId order escrowId
   | _ => favor_seller env disputeOrderId order escrowId
   end) ;;;
  update_dispute disputeId (resolve_dispute adminId notes r).

(** ** [services/p2p-expiry.service.ts] *)
Definition P2P_ORDER_STATUS_PAYMENT_PENDING : string := "awaiting_payment".

(** The rows of the first SELECT, oldest expiry first, at most 100. *)
Definition expirable (env : p2p_env) (o : p2p_order) : bool :=
  String.eqb (status_text (o_status o)) P2P_ORDER_STATUS_PAYMENT_PENDING
  && (o_expires_at (o_terms o) <? now env) && bool_decide (is_Some (o_escrow (o_terms o))).

Definition expires_before (x y : string * p2p_order) : Prop :=
  o_expires_at (o_terms (snd x)) ≤ o_expires_at (o_terms (snd y)).
#[export] Instance expires_before_dec x y : Decision (expires_before x y).
Proof. apply Z.le_dec. Defined.

Definition select_expired (env : p2p_env) (d : p2p_db) : list (string * p2p_order) :=
  take 100 (merge_sort expires_before
              (filter (λ x, expirable env (snd x) = true) (map_to_list (orders d)))).

(** The transaction of one row: [true] when it counts as processed. *)
Definition expire_one (env : p2p_env) (row : string * p2p_order) : M p2p_db bool :=
  let '(id, o) := row in
  let* current := select_order id in
  match current with
  | None => ret false
  | Some cur =>
      if negb (String.eqb (status_text (o_status cur)) P2P_ORDER_STATUS_PAYMENT_PENDING)
      then ret false
      else
        let* escrowId := get_or (o_escrow (o_terms o)) "" in
        let* refundResult := zoom (refundFromEscrow escrowId) in
        update_order id (λ x, order_with EXPIRED (o_payment x) x) ;;;
        (match refundResult with
         | AlreadyRefunded => ret tt
         | _ => update_ad (o_ad (o_terms o))
                  (λ a, ad_with_available (ad_available a + o_quantity (o_terms o)) a)
         end) ;;;
        ret true
  end.

Fixpoint expire_rows (env : p2p_env) (rows : list (string * p2p_order)) (processed errors : nat)
    (d : p2p_db) : nat * nat * p2p_db :=
  match rows with
  | [] => (processed, errors, d)
  | row :: rows' =>
      match transaction (expire_one env row) d with
      | (Ret true, d') => expire_rows env rows' (S processed) errors d'
      | (Ret false, d') => expire_rows env rows' processed errors d'
      | (Throw _, d') => expire_rows env rows' processed (S errors) d'
      end
  end.

(** The run takes the Redis lock, or does nothing. *)
Definition processExpiredP2POrders (env : p2p_env) (lockValue : string) (s : p2p_sys) :
    (nat * nat) * p2p_sys :=
  match acquireLock "lock:p2p_expiry:run" lockValue (sys_locks s) with
  | None => ((0%nat, 0%nat), s)
  | Some l =>
      let '(p, e, d) := expire_rows env (select_expired env (sys_db s)) 0 0 (sys_db s) in
      ((p, e), P2PSys d (releaseLock "lock:p2p_expiry:run" lockValue l))
  end.

(** ** [services/p2p-sla-worker.service.ts] *)
Definition sla_due (env : p2p_env) (o : p2p_order) : bool :=
  bool_decide (o_status o = PAYMENT_CONFIRMED)
  && match pay_confirmed_at (o_payment o) with
     | Some t => t <? now env - minutes (slaReleaseMinutes (cfg env))
     | None => false
     end.

Definition sla_action (env : p2p_env) (row : string * p2p_order) (disputeId : string) :
    M p2p_db unit :=
  let '(id, o) := row in
  if slaRelease (cfg env) then releaseCrypto env id (o_seller (o_terms o)) true
  else openDispute env id (o_buyer (o_terms o))
         "Automatic dispute: seller did not release within the platform SLA window" [] disputeId.

(** Each row is its own transaction; an error is logged and the next row follows.
    [ids] are the ids of the disputes that may be opened. *)
Fixpoint sla_rows (env : p2p_env) (rows : list (string * p2p_order)) (ids : list string)
    (d : p2p_db) : p2p_db :=
  match rows with
  | [] => d
  | row :: rows' =>
      sla_rows env rows' (tail ids)
        (snd (transaction (sla_action env row (default "" (head ids))) d))
  end.

Definition runP2PSlaTick (env : p2p_env) (ids : list string) (d : p2p_db) : p2p_db :=
  if negb (slaWorkerEnabled (cfg env)) then d
  else sla_rows env (filter (λ x, sla_due env (snd x) = true) (map_to_list (orders d))) ids d.
End OrderLife.
