(* ===== verification/P2P.v ===== *)
(** * Peer-to-peer trading: correctness

    What the transactions of [P2PModel] do to orders, escrows and disputes
    ([p2p_event]), and what follows for every reachable database: orders and escrows
    agree, orders move along the documented states, funds are conserved, an ad never
    offers more than its total, and the defects of the code around camelCase columns,
    expiry and lock release. *)
From stdpp Require Import base gmap strings list fin_maps sorting.
From Stdlib Require Import ZArith Lia.
From S2P Require Import Prelude Money Balances Escrow Halt P2PModel.
Local Open Scope Z_scope.

(** ** Transactions of the service *)
Inductive p2p_op :=
  | OpCreateAd (p : create_ad_params) (adId : string)
  | OpUpdateAd (adId userId : string) (u : ad_updates)
  | OpCancelAd (adId userId : string)
  | OpCreateOrder (userId adId paymentMethodId : string) (q : Z) (uuid escrowId orderId : string)
  | OpConfirm (orderId userId : string) (opts : option (string * string))
  | OpVerify (orderId sellerId : string)
  | OpRelease (orderId userId : string) (sla : bool)
  | OpCancel (orderId userId reason : string)
  | OpDispute (orderId userId reason : string) (evidence : list string) (disputeId : string)
  | OpResolve (disputeId adminId : string) (r : resolution) (notes : string)
  | OpExpire (row : string * p2p_order).

Section Events.
Context `{DecimalJs}.

Definition run_p2p (env : p2p_env) (o : p2p_op) : M p2p_db unit :=
  match o with
  | OpCreateAd p id => createAd p id ;;; ret tt
  | OpUpdateAd id u up => updateAd id u up ;;; ret tt
  | OpCancelAd id u => cancelAd id u
  | OpCreateOrder u ad pm q uuid eid oid => createOrder_tx env u ad pm q uuid eid oid ;;; ret tt
  | OpConfirm id u opts => confirmPayment env id u opts
  | OpVerify id u => sellerVerifyPayment id u
  | OpRelease id u sla => releaseCrypto env id u sla
  | OpCancel id u reason => cancelOrder env id u reason
  | OpDispute id u reason ev did => openDispute env id u reason ev did
  | OpResolve did adm r notes => resolveDispute env did adm r notes
  | OpExpire row => expire_one env row ;;; ret tt
  end.

(** The state machine of an order: the moves of [p2p.service.ts], and the expiry of an
    unpaid order that [p2p-expiry.service.ts] documents ([expiry_processes_nothing]
    below: the job as written never takes it). *)
Inductive order_edge : order_status → order_status → Prop :=
  | edge_confirm : order_edge PAYMENT_PENDING PAYMENT_CONFIRMED
  | edge_cancel : order_edge PAYMENT_PENDING CANCELLED
  | edge_expire : order_edge PAYMENT_PENDING EXPIRED
  | edge_release : order_edge PAYMENT_CONFIRMED COMPLETED
  | edge_dispute : order_edge PAYMENT_CONFIRMED DISPUTED
  | edge_favor_buyer : order_edge DISPUTED COMPLETED
  | edge_favor_seller : order_edge DISPUTED CANCELLED.

(** The escrow status an order status stands for. *)
Definition escrow_for (s : order_status) : escrow_status :=
  match s with
  | COMPLETED => EscReleased
  | CANCELLED | EXPIRED => EscRefunded
  | _ => EscLocked
  end.

Definition link_order (oid eid : string) (e : escrow_db) : escrow_db :=
  EscrowDb (edb_balances e)
    (alter (λ x, Escrow (esc_user_id x) (esc_currency_id x) (esc_token_id x) (esc_amount x)
                   (esc_status x) (Some oid) (esc_admin_frozen x)) eid (escrows e))
    (tokens e) (currencies e).

(** The dispute that an administrator resolves with the order [id]. *)
Definition resolves (id : string) (d d' : p2p_db) : Prop :=
  ∃ did x adm notes r, disputes d !! did = Some x ∧ d_order x = id ∧
    open_dispute_status (d_status x) = true ∧
    disputes d' = <[did := resolve_dispute adm notes r x]> (disputes d).

(** What the ads offer: available and total amount. *)
Definition ad_amounts (a : p2p_ad) : Z * Z := (ad_available a, ad_total a).
Definition amounts (d : p2p_db) : gmap string (Z * Z) := ad_amounts <$> ads d.
Definition give_back (q : Z) (x : Z * Z) : Z * Z := (x.1 + q, x.2).

Inductive p2p_event (d d' : p2p_db) : Prop :=
  | ev_core :
      pdb_escrow d' = pdb_escrow d → orders d' = orders d → disputes d' = disputes d →
      amounts d' = amounts d →
      p2p_event d d'
  | ev_ad id t :
      pdb_escrow d' = pdb_escrow d → orders d' = orders d → disputes d' = disputes d →
      amounts d !! id = None → amounts d' = <[id := (t, t)]> (amounts d) →
      p2p_event d d'
  | ev_create id o eid uuid e1 :
      orders d !! id = None → o_status o = PAYMENT_PENDING → o_escrow (o_terms o) = Some eid →
      moveToEscrow (o_seller (o_terms o)) (o_token (o_terms o)) (Fin (o_quantity (o_terms o))) None
        uuid eid (pdb_escrow d) = Ret (eid, e1) →
      pdb_escrow d' = link_order id eid e1 → orders d' = <[id := o]> (orders d) →
      disputes d' = disputes d →
      (∃ av av' t, amounts d !! o_ad (o_terms o) = Some (av, t) ∧
         0 ≤ av' ≤ av - o_quantity (o_terms o) ∧
         amounts d' = <[o_ad (o_terms o) := (av', t)]> (amounts d)) →
      p2p_event d d'
  | ev_advance id o o' :
      orders d !! id = Some o → o_terms o' = o_terms o →
      (order_edge (o_status o) (o_status o') ∧ o_status o' = PAYMENT_CONFIRMED ∨
       o_status o = PAYMENT_CONFIRMED ∧ o_status o' = PAYMENT_CONFIRMED) →
      pdb_escrow d' = pdb_escrow d → orders d' = <[id := o']> (orders d) →
      disputes d' = disputes d → amounts d' = amounts d →
      p2p_event d d'
  | ev_dispute id o o' did x :
      orders d !! id = Some o → o_terms o' = o_terms o →
      o_status o = PAYMENT_CONFIRMED → o_status o' = DISPUTED →
      disputes d !! did = None → d_order x = id →
      pdb_escrow d' = pdb_escrow d → orders d' = <[id := o']> (orders d) →
      disputes d' = <[did := x]> (disputes d) → amounts d' = amounts d →
      p2p_event d d'
  | ev_close id o o' c e :
      orders d !! id = Some o → o_terms o' = o_terms o →
      o_escrow (o_terms o) = Some (call_escrow c) →
      call_closed c e (pdb_escrow d) (pdb_escrow d') →
      (c = CallRelease (call_escrow c) (o_buyer (o_terms o)) ∧ o_status o' = COMPLETED ∨
       c = CallRefund (call_escrow c) ∧ o_status o' = CANCELLED) →
      (disputes d' = disputes d ∧ o_status o ≠ DISPUTED ∧ order_edge (o_status o) (o_status o') ∨
       resolves id d d') →
      orders d' = <[id := o']> (orders d) →
      (amounts d' = if bool_decide (o_status o' = CANCELLED)
                    then alter (give_back (o_quantity (o_terms o))) (o_ad (o_terms o)) (amounts d)
                    else amounts d) →
      p2p_event d d'
  | ev_already id o o' eid e :
      orders d !! id = Some o → o_escrow (o_terms o) = Some eid →
      escrows (pdb_escrow d) !! eid = Some e → esc_status e ≠ EscLocked →
      (escrow_for (o_status o) = EscLocked ∨ resolves id d d') →
      pdb_escrow d' = pdb_escrow d → orders d' = <[id := o']> (orders d) →
      o_terms o' = o_terms o → amounts d' = amounts d →
      p2p_event d d'.

(** ** What each handler does *)
Lemma run_call_other c (d : escrow_db) r d' :
  run_call c d = Ret (r, d') → r ≠ Moved →
  d' = d ∧ r = call_already c ∧ ∃ e, escrows d !! call_escrow c = Some e ∧ esc_status e ≠ EscLocked.
Proof.
  intros Hrun Hr. rewrite run_call_run, run_body_run in Hrun.
  destruct (escrows d !! call_escrow c) as [e|] eqn:E; [|done].
  destruct (bool_decide _) eqn:E1; simpl in Hrun.
  - destruct (esc_admin_frozen e); simpl in Hrun; [done|].
    destruct (call_pay _ _ _) as [[[] ?]|]; [|done]. by simplify_eq.
  - simplify_eq. bool_prop. naive_solver.
Qed.

Lemma call_cases c (d : escrow_db) r d' :
  run_call c d = Ret (r, d') →
  (r = Moved ∧ ∃ e, call_closed c e d d') ∨
  (r = call_already c ∧ d' = d ∧ ∃ e, escrows d !! call_escrow c = Some e ∧ esc_status e ≠ EscLocked).
Proof.
  intros Hrun. assert (r = Moved ∨ r ≠ Moved) as [->|Hr] by (destruct r; auto).
  - left. split; [done|]. apply run_call_moved in Hrun as (e & b & He & Hl & Hf & -> & Hp).
    exists e. by exists b.
  - right. apply run_call_other in Hrun as (-> & -> & He); done.
Qed.

Lemma release_cases eid buyer (d : escrow_db) r d' :
  releaseFromEscrow eid buyer d = Ret (r, d') →
  (r = Moved ∧ ∃ e, call_closed (CallRelease eid buyer) e d d') ∨
  (r = AlreadyReleased ∧ d' = d ∧ ∃ e, escrows d !! eid = Some e ∧ esc_status e ≠ EscLocked).
Proof. apply (call_cases (CallRelease eid buyer)). Qed.

Lemma refund_cases eid (d : escrow_db) r d' :
  refundFromEscrow eid d = Ret (r, d') →
  (r = Moved ∧ ∃ e, call_closed (CallRefund eid) e d d') ∨
  (r = AlreadyRefunded ∧ d' = d ∧ ∃ e, escrows d !! eid = Some e ∧ esc_status e ≠ EscLocked).
Proof. apply (call_cases (CallRefund eid)). Qed.

Lemma lock_order_inv id d o d' : lock_order id d = Ret (o, d') → orders d !! id = Some o ∧ d' = d.
Proof. unfold lock_order, select_order. intros Hrun. run_all Hrun. done. Qed.

Lemma alter_known {A} (f : A → A) id (m : gmap string A) x :
  m !! id = Some x → alter f id m = <[id := f x]> m.
Proof.
  intros Hx. apply map_eq. intros j. destruct (decide (id = j)) as [<-|Hne].
  - by rewrite lookup_alter_eq, Hx, lookup_insert_eq.
  - by rewrite lookup_alter_ne, lookup_insert_ne.
Qed.

(** Statements that leave orders, escrows and disputes alone. *)
Definition core_same (d d' : p2p_db) : Prop :=
  pdb_escrow d' = pdb_escrow d ∧ orders d' = orders d ∧ disputes d' = disputes d ∧
  amounts d' = amounts d.

Lemma amounts_alter f g id (m : gmap string p2p_ad) :
  (∀ a, ad_amounts (f a) = g (ad_amounts a)) →
  ad_amounts <$> alter f id m = alter g id (ad_amounts <$> m).
Proof.
  intros Hfg. apply map_eq. intros j. rewrite lookup_fmap.
  destruct (decide (id = j)) as [<-|Hne].
  - rewrite !lookup_alter_eq, lookup_fmap. destruct (m !! id); simpl; [by rewrite Hfg|done].
  - by rewrite !lookup_alter_ne, lookup_fmap.
Qed.

Lemma alter_ident {A} id (m : gmap string A) : alter (λ x, x) id m = m.
Proof.
  apply map_eq. intros j. destruct (decide (id = j)) as [<-|Hne].
  - rewrite lookup_alter_eq. by destruct (m !! id).
  - by rewrite lookup_alter_ne.
Qed.

Lemma amounts_alter_same f id (m : gmap string p2p_ad) :
  (∀ a, ad_amounts (f a) = ad_amounts a) → ad_amounts <$> alter f id m = ad_amounts <$> m.
Proof. intros Hf. by rewrite (amounts_alter f (λ x, x)), alter_ident. Qed.

Lemma core_refl d : core_same d d.
Proof. done. Qed.

(** Proves that a program preserves an invariant, statement by statement. *)
Ltac preserve :=
  repeat first
    [ assumption
    | solve [auto with prog]
    | apply preserves_bind; [|intros ?]
    | match goal with
      | |- preserves _ (match ?x with _ => _ end) => destruct x
      | |- preserves _ (if ?x then _ else _) => destruct x
      end ].

Lemma readonly_zoom {S T A} `{Store S T} (m : M T A) (s0 : S) :
  preserves (λ t, t = sget s0) m → preserves (λ s, s = s0) (zoom m).
Proof.
  intros Hm s a s' -> Hrun. apply zoom_inv in Hrun as (t & Hrun & ->).
  rewrite (Hm _ _ _ eq_refl Hrun). by rewrite sput_sget.
Qed.

Lemma check_ad_readonly env u pm ad q d0 : preserves (λ d, d = d0) (check_ad env u pm ad q).
Proof. unfold check_ad, newDecimal. preserve. Qed.

Lemma check_halt_readonly env u sel q d0 : preserves (λ d, d = d0) (check_halt_and_caps env u sel q).
Proof.
  unfold check_halt_and_caps, assertP2POrderVelocityInTransaction. preserve.
  apply readonly_zoom. unfold assertP2PEscrowCapInTransaction. preserve.
Qed.

Lemma check_fiat_readonly env u b sel cur a d0 :
  preserves (λ d, d = d0) (check_fiat_limits env u b sel cur a).
Proof. unfold check_fiat_limits, assertP2PTradeTierLimitsInTransaction. preserve. Qed.

Lemma update_ad_core id f d0 :
  (∀ a, ad_amounts (f a) = ad_amounts a) → preserves (core_same d0) (update_ad id f).
Proof.
  intros Hf d a d' Hc Hrun. apply modify_inv in Hrun as ->. destruct Hc as (?&?&?&?).
  repeat split; try done. unfold amounts; simpl. by rewrite amounts_alter_same.
Qed.

Lemma lock_unit_price_core env id ad d0 : preserves (core_same d0) (lock_unit_price env id ad).
Proof. unfold lock_unit_price. preserve. by apply update_ad_core. Qed.

Lemma createAd_event p id d a d' : createAd p id d = Ret (a, d') → p2p_event d d'.
Proof.
  unfold createAd, newDecimal. intros Hrun. do 8 run_inv Hrun.
  apply bind_Ret_inv in Hrun as (u & s1 & Hck & Hrun).
  assert (s1 = d) as ->.
  { destruct (bool_decide (ca_type p = AdSell)); [|by apply ret_inv in Hck as [_ ->]].
    apply zoom_inv in Hck as (t & Hck & ->). unfold checkSellAd in Hck. run_all Hck. by destruct d. }
  run_all Hrun. bool_prop. eapply (ev_ad _ _ id); [done..| |].
  - unfold amounts. rewrite lookup_fmap.
    by match goal with E : ads d !! id = None |- _ => rewrite E end.
  - unfold amounts; simpl. by rewrite fmap_insert.
Qed.

Lemma updateAd_core id u up d0 : preserves (core_same d0) (updateAd id u up).
Proof. unfold updateAd, newDecimal, select_ad. preserve; by apply update_ad_core. Qed.

Lemma cancelAd_core id u d0 : preserves (core_same d0) (cancelAd id u).
Proof. unfold cancelAd, select_ad. preserve; by apply update_ad_core. Qed.

(** Both ways to give an order's quantity back to its ad. *)
Definition restored (id : string) (q : Z) (d d' : p2p_db) : Prop :=
  pdb_escrow d' = pdb_escrow d ∧ orders d' = orders d ∧ disputes d' = disputes d ∧
  amounts d' = alter (give_back q) id (amounts d).

Lemma restored_update id q d :
  restored id q d (set_ads (alter (λ a, ad_with_available (ad_available a + q) a) id (ads d)) d).
Proof. repeat split; try done. unfold amounts; simpl. by apply amounts_alter. Qed.

Lemma restore_inv id q d u d' : restore_liquidity id q d = Ret (u, d') → restored id q d d'.
Proof.
  unfold restore_liquidity, select_ad, update_ad. intros Hrun. run_all Hrun. apply restored_update.
Qed.

Lemma restore_lenient_inv id q d u d' :
  restore_liquidity_lenient id q d = Ret (u, d') → restored id q d d'.
Proof.
  unfold restore_liquidity_lenient, select_ad, update_ad. intros Hrun. run_all Hrun;
    try apply restored_update.
  repeat split; try done. apply map_eq. intros j. destruct (decide (id = j)) as [<-|Hne].
  - rewrite lookup_alter_eq. unfold amounts. rewrite lookup_fmap.
    by match goal with E : ads _ !! id = None |- _ => rewrite E end.
  - by rewrite lookup_alter_ne.
Qed.

Lemma sendToQueue_inv {S} env (s : S) u s' : sendToQueue env s = Ret (u, s') → s' = s.
Proof. unfold sendToQueue. destruct (queue_error env); by intros [=]. Qed.

Lemma check_ad_available env u pm ad q d x d' : check_ad env u pm ad q d = Ret (x, d') → q ≤ ad_available ad.
Proof.
  unfold check_ad, newDecimal, js_field. destruct (camel env); intros Hrun.
  - do 4 run_inv Hrun. apply bind_Ret_inv in Hrun as (? & ? & _ & Hrun). run_all Hrun.
    bool_prop. by simplify_eq.
  - by do 4 run_inv Hrun.
Qed.

Lemma createOrder_event env u ad pm q uuid eid oid d o d' :
  createOrder_tx env u ad pm q uuid eid oid d = Ret (o, d') → p2p_event d d'.
Proof.
  unfold createOrder_tx, write_order, select_ad, update_ad. intros Hrun. run_inv Hrun. run_inv Hrun.
  run_inv Hrun. destruct a0 as [buyer seller].
  pose proof Hm as Hck. apply (check_ad_readonly _ _ _ _ _ d) in Hm; [|done]. subst st.
  apply check_ad_available in Hck. run_inv Hrun. apply (check_halt_readonly _ _ _ _ d) in Hm; [|done]. subst st.
  run_inv Hrun. apply (lock_unit_price_core _ _ _ d) in Hm as (He & Ho & Hd & Ha); [|done].
  run_inv Hrun. apply (check_fiat_readonly _ _ _ _ _ _ st) in Hm; [|done]. subst st0.
  run_all Hrun. match goal with Hq : sendToQueue _ _ = _ |- _ => apply sendToQueue_inv in Hq as -> end.
  pose proof Hm as Hmove. apply moveToEscrow_inv in Hm as (_ & _ & _ & _ & _ & -> & _).
  rewrite He in Hmove.
  bool_prop. subst. simpl in *. rewrite Ho in *.
  eapply (ev_create _ _ oid _ eid uuid); [done| | | | | |done|];
    [ | | | |reflexivity|]; [done|done|exact Hmove|reflexivity|]. simpl.
  exists (ad_available a), (toDP 8 (dminus (ad_available a) q)), (ad_total a).
  assert (amounts d !! ad = Some (ad_available a, ad_total a)) as Had
    by (unfold amounts; by rewrite lookup_fmap, Hc).
  split; [done|]. split.
  - pose proof (sig_bounds (ad_available a - q) ltac:(lia)) as [Hs1 Hs2].
    destruct (toDP_bounds 8 (dminus (ad_available a) q) Hs1) as (? & ? & _).
    unfold dminus in *. lia.
  - unfold amounts in *; simpl. rewrite (amounts_alter _ (λ x, (toDP 8 (dminus (ad_available a) q), x.2)));
      [|done]. rewrite Ha, (alter_known _ _ _ _ Had). done.
Qed.

Lemma confirm_event env id u opts d x d' :
  confirmPayment env id u opts d = Ret (x, d') → p2p_event d d'.
Proof.
  unfold confirmPayment, update_order. intros Hrun. run_inv Hrun. apply lock_order_inv in Hm as [Ho ->].
  run_all Hrun; try (by apply ev_core).
  all: try apply require_inv in Hm as [_ ->]; apply sendToQueue_inv in Hrun as ->; bool_prop.
  all: eapply (ev_advance _ _ id a); [done| | |done| |done|done];
    [..|simpl; by rewrite (alter_known _ _ _ _ Ho)]; [done|].
  all: left; rewrite Hc0; split; [constructor|done].
Qed.

Lemma verify_event id u d x d' : sellerVerifyPayment id u d = Ret (x, d') → p2p_event d d'.
Proof.
  unfold sellerVerifyPayment, update_order. intros Hrun. run_inv Hrun. apply lock_order_inv in Hm as [Ho ->].
  run_all Hrun. bool_prop. eapply (ev_advance _ _ id a); [done| | |done| |done|done];
    [..|simpl; by rewrite (alter_known _ _ _ _ Ho)]; [done|by right].
Qed.

Lemma release_event env id u sla d x d' : releaseCrypto env id u sla d = Ret (x, d') → p2p_event d d'.
Proof.
  unfold releaseCrypto, update_order, update_ad. intros Hrun. run_inv Hrun. apply lock_order_inv in Hm as [Ho ->].
  run_inv Hrun. assert (st = d) as -> by (unfold release_allowed in Hm; run_all Hm; done).
  run_all Hrun; try (by apply ev_core); bool_prop;
    apply release_cases in Hm0 as [(? & e & Hcl)|(? & -> & e & He & Hl)]; simplify_eq.
  apply sendToQueue_inv in Hrun as ->.
  eapply (ev_close _ _ id a _ (CallRelease a4 (o_buyer (o_terms a))) e); [done| | | | | | |];
    [ | | | | |simpl; by rewrite (alter_known _ _ _ _ Ho)|]; simpl; [done|done|done|by left| |].
  - left. rewrite Hc0. split; [done|]. split; [done|constructor].
  - unfold amounts; simpl. by rewrite amounts_alter_same.
Qed.

Lemma cancel_event env id u reason d x d' :
  cancelOrder env id u reason d = Ret (x, d') → p2p_event d d'.
Proof.
  unfold cancelOrder, update_order. intros Hrun. run_inv Hrun. apply lock_order_inv in Hm as [Ho ->].
  run_all Hrun; try (by apply ev_core); bool_prop;
    apply refund_cases in Hm as [(? & e & Hcl)|(? & -> & e & He & Hl)]; simplify_eq.
  - apply restore_inv in Hm0 as (He & Ho' & Hd & Ha). simpl in He, Ho', Hd.
    eapply (ev_close _ _ id a _ (CallRefund a2) e); [done| | | | | | |];
      [ | | | | |simpl; rewrite Ho'; by rewrite (alter_known _ _ _ _ Ho)|]; simpl;
      [done|done|by rewrite He|by right| |exact Ha].
    left. rewrite Hc. split; [done|]. split; [done|constructor].
  - eapply (ev_already _ _ id a _ a2 e); [done|done|done|done| |done| | |done];
      [|simpl; by rewrite (alter_known _ _ _ _ Ho)|done]. left. by rewrite Hc.
Qed.

Lemma dispute_event env id u reason ev did d x d' :
  openDispute env id u reason ev did d = Ret (x, d') → p2p_event d d'.
Proof.
  unfold openDispute, update_order. intros Hrun. run_inv Hrun. apply lock_order_inv in Hm as [Ho ->].
  run_all Hrun. apply sendToQueue_inv in Hrun as ->. bool_prop.
  eapply (ev_dispute _ _ id a _ did); [done| |done| |done| |done| | |];
    [ | | |simpl; by rewrite (alter_known _ _ _ _ Ho)|simpl; reflexivity|]; done.
Qed.

Lemma resolve_parts env r oid o eid d x d' :
  (match r with FavorBuyer => favor_buyer env oid o eid | _ => favor_seller env oid o eid end) d
    = Ret (x, d') →
  orders d !! oid = Some o →
  ∃ o', orders d' = <[oid := o']> (orders d) ∧ o_terms o' = o_terms o ∧ disputes d' = disputes d ∧
    ((∃ e, call_closed (CallRelease eid (o_buyer (o_terms o))) e (pdb_escrow d) (pdb_escrow d') ∧
        o_status o' = COMPLETED ∧ amounts d' = amounts d) ∨
     (∃ e, call_closed (CallRefund eid) e (pdb_escrow d) (pdb_escrow d') ∧ o_status o' = CANCELLED ∧
        amounts d' = alter (give_back (o_quantity (o_terms o))) (o_ad (o_terms o)) (amounts d)) ∨
     (pdb_escrow d' = pdb_escrow d ∧ amounts d' = amounts d ∧
      ∃ e, escrows (pdb_escrow d) !! eid = Some e ∧ esc_status e ≠ EscLocked)).
Proof.
  intros Hrun Ho.
  assert (r = FavorBuyer ∨ (match r with FavorBuyer => favor_buyer env oid o eid
            | _ => favor_seller env oid o eid end) = favor_seller env oid o eid) as [->|Heq]
    by (destruct r; auto); [|rewrite Heq in Hrun; clear Heq].
  - unfold favor_buyer, update_order in Hrun. run_all Hrun. eexists.
    split; [simpl; by rewrite (alter_known _ _ _ _ Ho)|]. do 2 (split; [done|]).
    apply release_cases in Hm as [(-> & e & Hcl)|(_ & -> & e & He & Hl)]; [left|right; right]; eauto.
  - unfold favor_seller, update_order in Hrun. run_inv Hrun.
    apply bind_Ret_inv in Hrun as (u & s1 & Hre & Hrun). apply modify_inv in Hrun as ->.
    apply refund_cases in Hm as [(-> & e & Hcl)|(-> & -> & e & He & Hl)].
    + apply restore_lenient_inv in Hre as (He' & Ho' & Hd' & Ha'). simpl in He', Ho', Hd'. eexists.
      split; [simpl; by rewrite Ho', (alter_known _ _ _ _ Ho)|]. split; [done|]. split; [done|].
      simpl. rewrite He'. right; left. exists e. split; [done|]. split; [done|exact Ha'].
    + apply ret_inv in Hre as [_ ->]. eexists.
      split; [simpl; by rewrite (alter_known _ _ _ _ Ho)|]. do 2 (split; [done|]).
      right; right. by eauto.
Qed.

Lemma resolve_event env did adm r notes d x d' :
  resolveDispute env did adm r notes d = Ret (x, d') → p2p_event d d'.
Proof.
  unfold resolveDispute, select_order, update_dispute. intros Hrun.
  do 7 run_inv Hrun. apply bind_Ret_inv in Hrun as (u & s1 & Hpart & Hrun).
  apply modify_inv in Hrun as ->.
  apply (resolve_parts env r _ _ _ _ _ _) in Hpart as (o' & Hos & Hterms & Hds & Hcase); [|done].
  assert (∀ y, disputes y = disputes d → resolves (d_order a) d
    (set_disputes (alter (resolve_dispute adm notes r) did (disputes y)) y)) as Hres.
  { intros y Hy. exists did, a, adm, notes, r. split; [done|]. split; [done|].
    split; [|simpl; by rewrite Hy, (alter_known _ _ _ _ Hc)].
    bool_prop. by destruct (d_status a). }
  destruct Hcase as [(e & Hcl & Hst & Ha)|[(e & Hcl & Hst & Ha)|(He & Ha & e & Hl & Hn)]].
  - eapply (ev_close _ _ (d_order a) a2 o' (CallRelease a3 (o_buyer (o_terms a2))) e); auto.
    by rewrite Hst.
  - eapply (ev_close _ _ (d_order a) a2 o' (CallRefund a3) e); auto. by rewrite Hst.
  - eapply (ev_already _ _ (d_order a) a2 o' a3 e); auto.
Qed.

(** An order is never in the status the expiry job looks for. *)
Lemma not_awaiting s : String.eqb (status_text s) P2P_ORDER_STATUS_PAYMENT_PENDING = false.
Proof. by destruct s. Qed.

Lemma expire_one_run env id o d : expire_one env (id, o) d = Ret (false, d).
Proof.
  unfold expire_one, select_order, bind, gets. destruct (orders d !! id) as [cur|]; [|done].
  by rewrite not_awaiting.
Qed.

(** Every transaction of the service is one of the events. *)
Lemma run_p2p_event env o d d' : run_p2p env o d = Ret (tt, d') → p2p_event d d'.
Proof.
  destruct o as [p id|id u up|id u|u ad pm q uuid eid oid|id u opts|id u|id u sla|id u reason
    |id u reason ev did|did adm r notes|row]; simpl; intros Hrun.
  - run_inv Hrun. run_inv Hrun. by eapply createAd_event.
  - run_inv Hrun. run_inv Hrun. apply (updateAd_core _ _ _ d) in Hm as (?&?&?&?); [|done].
    by apply ev_core.
  - apply (cancelAd_core _ _ d) in Hrun as (?&?&?&?); [|done]. by apply ev_core.
  - run_inv Hrun. run_inv Hrun. by eapply createOrder_event.
  - by eapply confirm_event.
  - by eapply verify_event.
  - by eapply release_event.
  - by eapply cancel_event.
  - by eapply dispute_event.
  - by eapply resolve_event.
  - destruct row as [id o]. unfold bind in Hrun. rewrite expire_one_run in Hrun. apply ret_inv in Hrun as [_ ->].
    by apply ev_core.
Qed.

Inductive p2p_step (d : p2p_db) : p2p_db → Prop :=
  | p2p_tx env o : p2p_step d (snd (transaction (run_p2p env o) d)).

Lemma p2p_step_event d d' : p2p_step d d' → p2p_event d d'.
Proof.
  intros [env o]. unfold transaction. destruct (run_p2p env o d) as [[[] d2]|] eqn:E; simpl.
  - by eapply run_p2p_event.
  - by apply ev_core.
Qed.

(** ** Orders and escrows agree *)
Definition order_ok (d : p2p_db) (id : string) (o : p2p_order) : Prop :=
  ∃ eid e, o_escrow (o_terms o) = Some eid ∧ escrows (pdb_escrow d) !! eid = Some e ∧
    esc_p2p_order_id e = Some id ∧ esc_user_id e = o_seller (o_terms o) ∧
    esc_amount e = toAmount (o_quantity (o_terms o)) ∧ esc_status e = escrow_for (o_status o).

Definition p2p_consistent (d : p2p_db) : Prop :=
  (∀ id o, orders d !! id = Some o → order_ok d id o) ∧
  (∀ did x, disputes d !! did = Some x → open_dispute_status (d_status x) = true →
     ∃ o, orders d !! d_order x = Some o ∧ o_status o = DISPUTED) ∧
  (∀ did1 did2 x1 x2, disputes d !! did1 = Some x1 → disputes d !! did2 = Some x2 →
     open_dispute_status (d_status x1) = true → open_dispute_status (d_status x2) = true →
     d_order x1 = d_order x2 → did1 = did2).

(** Replacing one order, and its escrow with it. *)
Lemma consistent_update d d' id o o' eid e e' :
  p2p_consistent d → orders d !! id = Some o → o_terms o' = o_terms o →
  o_escrow (o_terms o) = Some eid → escrows (pdb_escrow d) !! eid = Some e →
  e' = set_status e (escrow_for (o_status o')) →
  escrows (pdb_escrow d') = <[eid := e']> (escrows (pdb_escrow d)) →
  orders d' = <[id := o']> (orders d) →
  (∀ did x, disputes d' !! did = Some x → open_dispute_status (d_status x) = true →
     d_order x = id ∧ o_status o' = DISPUTED ∨ d_order x ≠ id ∧ disputes d !! did = Some x) →
  (∀ did1 did2 x1 x2, disputes d' !! did1 = Some x1 → disputes d' !! did2 = Some x2 →
     open_dispute_status (d_status x1) = true → open_dispute_status (d_status x2) = true →
     d_order x1 = id → d_order x2 = id → did1 = did2) →
  p2p_consistent d'.
Proof.
  intros (Hord & Hdis & Huniq) Ho Ht Heid He He' Hesc Hords Hd1 Hd2.
  destruct (Hord _ _ Ho) as (eid0 & e0 & Heid0 & He0 & Hid & Hu & Ha & Hst). simplify_eq.
  split; [|split].
  - intros id2 o2. rewrite Hords. intros [[<- <-]|[Hne Ho2]]%lookup_insert_Some.
    + exists eid, (set_status e (escrow_for (o_status o'))).
      rewrite Ht, Hesc, lookup_insert_eq. done.
    + destruct (Hord _ _ Ho2) as (eid2 & e2 & Heid2 & He2 & Hid2 & Hrest).
      exists eid2, e2. split; [done|]. split; [|done]. rewrite Hesc.
      assert (eid ≠ eid2) by (intros <-; congruence). by rewrite lookup_insert_ne.
  - intros did x Hx Hopen. destruct (Hd1 _ _ Hx Hopen) as [[<- Hs]|[Hne Hx0]].
    + exists o'. by rewrite Hords, lookup_insert_eq.
    + destruct (Hdis _ _ Hx0 Hopen) as (o2 & Ho2 & Hs2). exists o2.
      by rewrite Hords, lookup_insert_ne.
  - intros did1 did2 x1 x2 H1 H2 Ho1 Ho2 Heq.
    destruct (Hd1 _ _ H1 Ho1) as [[E1 _]|[Hn1 H1']]; [eapply Hd2; eauto; congruence|].
    destruct (Hd1 _ _ H2 Ho2) as [[E2 _]|[_ H2']]; [congruence|eauto].
Qed.

Lemma set_status_same e : set_status e (esc_status e) = e.
Proof. by destruct e. Qed.

(** Replacing one order whose escrow stays as it is. *)
Lemma consistent_keep d d' id o o' :
  p2p_consistent d → orders d !! id = Some o → o_terms o' = o_terms o →
  escrow_for (o_status o') = escrow_for (o_status o) →
  escrows (pdb_escrow d') = escrows (pdb_escrow d) →
  orders d' = <[id := o']> (orders d) →
  (∀ did x, disputes d' !! did = Some x → open_dispute_status (d_status x) = true →
     d_order x = id ∧ o_status o' = DISPUTED ∨ d_order x ≠ id ∧ disputes d !! did = Some x) →
  (∀ did1 did2 x1 x2, disputes d' !! did1 = Some x1 → disputes d' !! did2 = Some x2 →
     open_dispute_status (d_status x1) = true → open_dispute_status (d_status x2) = true →
     d_order x1 = id → d_order x2 = id → did1 = did2) →
  p2p_consistent d'.
Proof.
  intros Hc Ho Ht Hs Hesc. pose proof Hc as (Hord & _).
  destruct (Hord _ _ Ho) as (eid & e & Heid & He & _ & _ & _ & Hst).
  apply (consistent_update d d' id o o' eid e e); try done.
  - by rewrite Hs, <- Hst, set_status_same.
  - by rewrite Hesc, insert_id.
Qed.

(** No open dispute names an order that is not disputed. *)
Lemma no_dispute d id o did x :
  p2p_consistent d → orders d !! id = Some o → o_status o ≠ DISPUTED →
  disputes d !! did = Some x → open_dispute_status (d_status x) = true → d_order x ≠ id.
Proof.
  intros (_ & Hdis & _) Ho Hs Hx Hopen <-. destruct (Hdis _ _ Hx Hopen) as (o2 & Ho2 & Hs2).
  congruence.
Qed.

(** The dispute clauses when an order that is not disputed changes. *)
Lemma disputes_kept d d' id o (P : Prop) :
  p2p_consistent d → orders d !! id = Some o → o_status o ≠ DISPUTED → disputes d' = disputes d →
  (∀ did x, disputes d' !! did = Some x → open_dispute_status (d_status x) = true →
     d_order x = id ∧ P ∨ d_order x ≠ id ∧ disputes d !! did = Some x) ∧
  (∀ did1 did2 x1 x2, disputes d' !! did1 = Some x1 → disputes d' !! did2 = Some x2 →
     open_dispute_status (d_status x1) = true → open_dispute_status (d_status x2) = true →
     d_order x1 = id → d_order x2 = id → did1 = did2).
Proof.
  intros Hc Ho Hs ->. split.
  - intros did x Hx Hopen. right. split; [by eapply no_dispute|done].
  - intros did1 did2 x1 x2 H1 H2 Ho1 Ho2 E1 E2. by destruct (no_dispute d id o did1 x1 Hc Ho Hs).
Qed.

(** The dispute clauses when a dispute of the order is resolved. *)
Lemma disputes_resolved d d' id (P : Prop) :
  p2p_consistent d → resolves id d d' →
  (∀ did x, disputes d' !! did = Some x → open_dispute_status (d_status x) = true →
     d_order x = id ∧ P ∨ d_order x ≠ id ∧ disputes d !! did = Some x) ∧
  (∀ did1 did2 x1 x2, disputes d' !! did1 = Some x1 → disputes d' !! did2 = Some x2 →
     open_dispute_status (d_status x1) = true → open_dispute_status (d_status x2) = true →
     d_order x1 = id → d_order x2 = id → did1 = did2).
Proof.
  intros (_ & _ & Huniq) (did & x & adm & notes & r & Hx & <- & Hopen & Hd').
  assert (∀ did2 x2, disputes d' !! did2 = Some x2 → open_dispute_status (d_status x2) = true →
    d_order x2 ≠ d_order x ∧ disputes d !! did2 = Some x2) as Hall.
  { intros did2 x2. rewrite Hd'. intros [[<- <-]|[Hne Hx2]]%lookup_insert_Some Ho2; [done|].
    split; [|done]. intros Heq. apply Hne. symmetry. eapply Huniq; eauto. }
  split.
  - intros did2 x2 Hx2 Ho2. right. by apply Hall.
  - intros did1 did2 x1 x2 H1 H2 Ho1 Ho2 E1 E2. by destruct (Hall _ _ H1 Ho1).
Qed.

Lemma resolved_status d d' id o :
  p2p_consistent d → resolves id d d' → orders d !! id = Some o → o_status o = DISPUTED.
Proof.
  intros (_ & Hdis & _) (did & x & adm & notes & r & Hx & <- & Hopen & _) Ho.
  destruct (Hdis _ _ Hx Hopen) as (o2 & Ho2 & Hs2). congruence.
Qed.

Lemma consistent_create d d' id o eid uuid e1 :
  p2p_consistent d → orders d !! id = None → o_status o = PAYMENT_PENDING →
  o_escrow (o_terms o) = Some eid →
  moveToEscrow (o_seller (o_terms o)) (o_token (o_terms o)) (Fin (o_quantity (o_terms o))) None
    uuid eid (pdb_escrow d) = Ret (eid, e1) →
  pdb_escrow d' = link_order id eid e1 → orders d' = <[id := o]> (orders d) →
  disputes d' = disputes d → p2p_consistent d'.
Proof.
  intros (Hord & Hdis & Huniq) Hid Hst Heid Hmove Hesc Hords Hds.
  apply moveToEscrow_inv in Hmove as
    (x & cur & ch & b & [= <-] & _ & _ & _ & _ & Hfresh & _ & ->).
  unfold link_order in Hesc; simpl in Hesc.
  rewrite (alter_known _ _ _ _ (lookup_insert_eq _ _ _)) in Hesc; simpl in Hesc.
  split; [|split].
  - intros id2 o2. rewrite Hords. intros [[<- <-]|[Hne Ho2]]%lookup_insert_Some.
    + eexists eid, _. rewrite Hesc; simpl. rewrite lookup_insert_eq, Hst. done.
    + destruct (Hord _ _ Ho2) as (eid2 & e2 & Heid2 & He2 & Hrest).
      exists eid2, e2. split; [done|]. split; [|done]. rewrite Hesc; simpl.
      assert (eid ≠ eid2) by (intros <-; congruence). by rewrite !lookup_insert_ne.
  - intros did y. rewrite Hds, Hords. intros Hy Hopen. destruct (Hdis _ _ Hy Hopen) as (o2 & Ho2 & Hs2).
    exists o2. rewrite lookup_insert_ne; [done|]. intros ->. congruence.
  - rewrite Hds. done.
Qed.

Lemma consistent_event d d' : p2p_consistent d → p2p_event d d' → p2p_consistent d'.
Proof.
  intros Hc Hev.
  destruct Hev as [He Ho Hd Ha|id t He Ho Hd Hn Ha|id o eid uuid e1 Hid Hst Heid Hmove He Ho Hd Ha
    |id o o' Hid Ht Hst He Ho Hd Ha|id o o' did x Hid Ht Hs1 Hs2 Hdid Hx He Ho Hd Ha
    |id o o' c e Hid Ht Heid Hcl Hc1 Hwhy Ho Ha|id o o' eid e Hid Heid Hesc Hn Hwhy He Ho Ht Ha].
  1,2: unfold p2p_consistent, order_ok; by rewrite He, Ho, Hd.
  - by eapply consistent_create.
  - assert (o_status o ≠ DISPUTED ∧ escrow_for (o_status o') = escrow_for (o_status o)) as [Hnd Hsame].
    { destruct Hst as [[Hedge Hs']|[-> ->]]; [|done]. rewrite Hs' in *. by inversion Hedge. }
    destruct (disputes_kept d d' id o (o_status o' = DISPUTED) Hc Hid Hnd Hd) as [H1 H2].
    apply (consistent_keep d d' id o o'); try done. by rewrite He.
  - assert (o_status o ≠ DISPUTED) as Hnd by (by rewrite Hs1).
    apply (consistent_keep d d' id o o'); try done; [by rewrite Hs1, Hs2|by rewrite He| |].
    + intros did2 x2. rewrite Hd. intros [[<- <-]|[Hne Hx2]]%lookup_insert_Some Hopen; [by left|].
      right. split; [by eapply no_dispute|done].
    + intros did1 did2 x1 x2. rewrite Hd.
      intros [[<- <-]|[Hn1 H1]]%lookup_insert_Some [[<- <-]|[Hn2 H2]]%lookup_insert_Some Ho1 Ho2 E1 E2;
        try done; exfalso; eapply (no_dispute d id o); eauto.
  - destruct Hcl as (b & Hesc & Hl & Hf & He' & Hp).
    assert ((∀ did x, disputes d' !! did = Some x → open_dispute_status (d_status x) = true →
     d_order x = id ∧ o_status o' = DISPUTED ∨ d_order x ≠ id ∧ disputes d !! did = Some x) ∧
     (∀ did1 did2 x1 x2, disputes d' !! did1 = Some x1 → disputes d' !! did2 = Some x2 →
     open_dispute_status (d_status x1) = true → open_dispute_status (d_status x2) = true →
     d_order x1 = id → d_order x2 = id → did1 = did2)) as [H1 H2].
    { destruct Hwhy as [(Hd & Hnd & _)|Hres]; [by eapply disputes_kept|by apply disputes_resolved]. }
    apply (consistent_update d d' id o o' (call_escrow c) e (set_status e (call_status c))); try done.
    + destruct Hc1 as [[-> ->]|[-> ->]]; done.
    + by rewrite He'.
  - exfalso. pose proof Hc as (Hord & _).
    destruct (Hord _ _ Hid) as (eid0 & e0 & Heid0 & He0 & _ & _ & _ & Hst). simplify_eq.
    destruct Hwhy as [Hs|Hres]; [congruence|].
    rewrite (resolved_status d d' id o Hc Hres Hid) in Hst. done.
Qed.

Definition no_trades (d : p2p_db) : Prop := orders d = ∅ ∧ disputes d = ∅.

Lemma fresh_consistent d : no_trades d → p2p_consistent d.
Proof.
  intros [Ho Hd]. unfold p2p_consistent. rewrite Ho, Hd.
  repeat split; intros *; by rewrite lookup_empty.
Qed.

Lemma consistent_reachable d d' : no_trades d → rtc p2p_step d d' → p2p_consistent d'.
Proof.
  intros Hn. apply rtc_invariant; [|by apply fresh_consistent].
  intros x y Hx Hstep. eapply consistent_event; [done|]. by apply p2p_step_event.
Qed.

(** C7. Orders and escrows agree: in every database the service reaches from one
    without orders, by committed or rolled back transactions of any handler in any
    order, each order has its own escrow, which names the order and the seller and
    holds the order's quantity rounded to 8 places; the escrow is locked while the
    order is pending, confirmed or disputed, released when it is completed and
    refunded when it is cancelled or expired; and an order has at most one open
    dispute, and is then disputed. *)
Theorem p2p_escrow_consistent (d d' : p2p_db) :
  no_trades d → rtc p2p_step d d' → p2p_consistent d'.
Proof. apply consistent_reachable. Qed.

(** What one event does to an order. *)
Lemma event_edge d d' id o :
  p2p_consistent d → p2p_event d d' → orders d !! id = Some o →
  ∃ o', orders d' !! id = Some o' ∧ o_terms o' = o_terms o ∧
    (o_status o' = o_status o ∨ order_edge (o_status o) (o_status o')).
Proof.
  intros Hc Hev Hid0.
  assert (∀ id1 o1 o1', orders d !! id1 = Some o1 → orders d' = <[id1 := o1']> (orders d) →
    o_terms o1' = o_terms o1 → (o_status o1' = o_status o1 ∨ order_edge (o_status o1) (o_status o1')) →
    ∃ o', orders d' !! id = Some o' ∧ o_terms o' = o_terms o ∧
      (o_status o' = o_status o ∨ order_edge (o_status o) (o_status o'))) as Hins.
  { intros id1 o1 o1' H1 -> Ht Hs. destruct (decide (id1 = id)) as [->|Hne].
    - simplify_eq. exists o1'. by rewrite lookup_insert_eq.
    - exists o. rewrite lookup_insert_ne by done. auto. }
  destruct Hev as [He Ho Hd Ha|id1 t He Ho Hd Hn Ha|id1 o1 eid uuid e1 Hid Hst Heid Hmove He Ho Hd Ha
    |id1 o1 o' Hid Ht Hst He Ho Hd Ha|id1 o1 o' did x Hid Ht Hs1 Hs2 Hdid Hx He Ho Hd Ha
    |id1 o1 o' c e Hid Ht Heid Hcl Hc1 Hwhy Ho Ha|id1 o1 o' eid e Hid Heid Hesc Hn Hwhy He Ho Ht Ha].
  1,2: exists o; rewrite Ho; auto.
  - exists o. rewrite Ho, lookup_insert_ne by congruence. auto.
  - apply (Hins id1 o1 o'); [done|done|done|]. destruct Hst as [[? _]|[-> ->]]; auto.
  - apply (Hins id1 o1 o'); [done|done|done|]. rewrite Hs1, Hs2. right. constructor.
  - apply (Hins id1 o1 o'); [done|done|done|]. right. destruct Hwhy as [(_ & _ & ?)|Hres]; [done|].
    rewrite (resolved_status d d' id1 o1 Hc Hres Hid). destruct Hc1 as [[_ ->]|[_ ->]]; constructor.
  - exfalso. pose proof Hc as (Hord & _).
    destruct (Hord _ _ Hid) as (eid0 & e0 & Heid0 & He0 & _ & _ & _ & Hs). simplify_eq.
    destruct Hwhy as [Hs'|Hres]; [congruence|].
    by rewrite (resolved_status d d' id1 o1 Hc Hres Hid) in Hs.
Qed.

(** An administrator resolved a dispute about the order [id]. *)
Definition dispute_resolved (id : string) (d : p2p_db) : Prop :=
  ∃ did x, disputes d !! did = Some x ∧ d_order x = id ∧ d_status x = DispResolved.

(** An event resolves the dispute of the order it takes out of it, and a resolved dispute
    stays resolved. *)
Lemma event_disputes d d' id :
  p2p_consistent d → p2p_event d d' →
  (dispute_resolved id d → dispute_resolved id d') ∧
  (∀ o o', orders d !! id = Some o → orders d' !! id = Some o' →
    o_status o = DISPUTED → o_status o' ≠ DISPUTED → dispute_resolved id d').
Proof.
  intros Hc Hev.
  assert (∀ id1, resolves id1 d d' →
    dispute_resolved id1 d' ∧ (dispute_resolved id d → dispute_resolved id d')) as Hres.
  { intros id1 (did1 & x1 & adm & notes & r & H1 & Hid1 & Hopen & Hd'). split.
    - exists did1, (resolve_dispute adm notes r x1). by rewrite Hd', lookup_insert_eq.
    - intros (did & x & Hx & Hid & Hs). exists did, x. rewrite Hd', lookup_insert_ne; [done|].
      intros ->. simplify_eq. by rewrite Hs in Hopen. }
  assert (disputes d' = disputes d → dispute_resolved id d → dispute_resolved id d') as Hsame
    by (unfold dispute_resolved; by intros ->).
  assert (∀ id1 o1' o o', orders d' = <[id1 := o1']> (orders d) → orders d !! id = Some o →
    orders d' !! id = Some o' → o_status o ≠ o_status o' → id1 = id) as Hmoved.
  { intros id1 o1' o o' -> Ho Ho' Hne. destruct (decide (id1 = id)) as [|Hid]; [done|].
    rewrite lookup_insert_ne in Ho' by done. congruence. }
  destruct Hev as [He Ho Hd Ha|id1 t He Ho Hd Hn Ha|id1 o1 eid uuid e1 Hid Hst Heid Hmove He Ho Hd Ha
    |id1 o1 o' Hid Ht Hst He Ho Hd Ha|id1 o1 o' did x Hid Ht Hs1 Hs2 Hdid Hx He Ho Hd Ha
    |id1 o1 o' c e Hid Ht Heid Hcl Hc1 Hwhy Ho Ha|id1 o1 o' eid e Hid Heid Hesc Hn Hwhy He Ho Ht Ha].
  1,2: split; [auto|]; intros o o' H1 H2 Hd1; rewrite Ho in H2; congruence.
  - split; [auto|]. intros o o' H1 H2 Hd1 Hd2. rewrite Ho, lookup_insert_ne in H2 by congruence. congruence.
  - split; [auto|]. intros o o2 H1 H2 Hd1 Hd2.
    pose proof (Hmoved _ _ _ _ Ho H1 H2 ltac:(congruence)) as ->. simplify_eq.
    destruct Hst as [[Hedge Hto]|[Hst _]]; [|congruence].
    rewrite Hd1, Hto in Hedge. inversion Hedge.
  - split.
    + intros (did0 & x0 & Hx0 & Hid0 & Hs). exists did0, x0. by rewrite Hd, lookup_insert_ne by congruence.
    + intros o o2 H1 H2 Hd1 Hd2. pose proof (Hmoved _ _ _ _ Ho H1 H2 ltac:(congruence)) as ->. congruence.
  - destruct Hwhy as [(Hd & Hnd & _)|Hr].
    + split; [auto|]. intros o o2 H1 H2 Hd1 Hd2.
      pose proof (Hmoved _ _ _ _ Ho H1 H2 ltac:(congruence)) as ->. congruence.
    + destruct (Hres id1 Hr) as [H1 H2]. split; [done|]. intros o o2 Ho1 Ho2 Hd1 Hd2.
      by pose proof (Hmoved _ _ _ _ Ho Ho1 Ho2 ltac:(congruence)) as ->.
  - exfalso. pose proof Hc as (Hord & _).
    destruct (Hord _ _ Hid) as (eid0 & e0 & Heid0 & He0 & _ & _ & _ & Hs). simplify_eq.
    destruct Hwhy as [Hs'|Hr]; [congruence|].
    by rewrite (resolved_status d d' id1 o1 Hc Hr Hid) in Hs.
Qed.

(** C8. Orders follow the documented state machine. Between any two databases of a run of
    the service's transactions an order keeps its terms and moves only along pending to
    confirmed, cancelled or expired, confirmed to completed or disputed, and disputed to
    completed or cancelled. So a completed, cancelled or expired order never changes
    again; and an order whose payment the buyer confirmed is cancelled only if an
    administrator resolved a dispute about it. *)
Theorem p2p_state_machine (d0 d d' : p2p_db) (id : string) (o : p2p_order) :
  no_trades d0 → rtc p2p_step d0 d → rtc p2p_step d d' → orders d !! id = Some o →
  ∃ o', orders d' !! id = Some o' ∧ o_terms o' = o_terms o ∧
    rtc order_edge (o_status o) (o_status o') ∧
    (order_open (o_status o) = false → o_status o' = o_status o) ∧
    (o_status o = PAYMENT_CONFIRMED → o_status o' = CANCELLED → dispute_resolved id d').
Proof.
  intros Hn H0 Hrtc Ho.
  pose proof (consistent_reachable d0 d Hn H0) as Hc. clear H0.
  assert (∃ o', orders d' !! id = Some o' ∧ o_terms o' = o_terms o ∧
    rtc order_edge (o_status o) (o_status o') ∧
    (o_status o = PAYMENT_CONFIRMED ∨ o_status o = DISPUTED ∨ dispute_resolved id d →
     o_status o' = CANCELLED → dispute_resolved id d'))
    as (o' & Ho' & Ht & Hedge & Hdisp).
  { revert o Ho Hc. induction Hrtc as [x|x y z Hstep Hrest IH]; intros o Ho Hc.
    - exists o. split; [done|]. split; [done|]. split; [apply rtc_refl|].
      intros [->|[->|Hr]]; done.
    - apply p2p_step_event in Hstep.
      destruct (event_edge x y id o Hc Hstep Ho) as (o1 & Ho1 & Ht1 & Hs1).
      destruct (event_disputes x y id Hc Hstep) as [Hkeep Hleave].
      destruct (IH o1 Ho1) as (o2 & Ho2 & Ht2 & Hs2 & Hd2); [by eapply consistent_event|].
      exists o2. split; [done|]. split; [congruence|]. split.
      { destruct Hs1 as [<-|Hs1]; [done|]. by apply rtc_l with (o_status o1). }
      intros Hfrom Hto. apply Hd2; [|done].
      destruct Hs1 as [Hs1|Hs1]; [rewrite Hs1; naive_solver|].
      destruct Hfrom as [Hfrom|[Hfrom|Hr]]; [| |by auto].
      + rewrite Hfrom in Hs1. inversion Hs1 as [| | | |Hq| |]; [|by auto].
        exfalso. replace (o_status o1) with COMPLETED in Hs2 by done.
        apply rtc_inv in Hs2 as [Hs2|(s & E1 & _)]; [congruence|inversion E1].
      + right. right. apply (Hleave o o1); [done|done|done|].
        rewrite Hfrom in Hs1. intros Hq. rewrite Hq in Hs1. inversion Hs1. }
  exists o'. split; [done|]. split; [done|]. split; [done|]. split; [|auto].
  intros Hopen. inversion Hedge as [|a b c0 E1 E2]; subst; [done|].
  destruct (o_status o); try done; inversion E1.
Qed.

(** ** Conservation *)
Lemma event_funds d d' :
  p2p_event d d' → balances_wf (edb_balances (pdb_escrow d)) →
  balances_wf (edb_balances (pdb_escrow d')) ∧
  ∀ c, funds c (edb_balances (pdb_escrow d')) = funds c (edb_balances (pdb_escrow d)).
Proof.
  intros Hev Hwf.
  destruct Hev as [He Ho Hd Ha|id t He Ho Hd Hn Ha|id o eid uuid e1 Hid Hst Heid Hmove He Ho Hd Ha
    |id o o' Hid Ht Hst He Ho Hd Ha|id o o' did x Hid Ht Hs1 Hs2 Hdid Hx He Ho Hd Ha
    |id o o' c e Hid Ht Heid Hcl Hc1 Hwhy Ho Ha|id o o' eid e Hid Heid Hesc Hn Hwhy He Ho Ht Ha].
  1,2,4,5,7: by rewrite He.
  - apply moveToEscrow_inv in Hmove as (z & cur & ch & b & _ & _ & _ & _ & _ & _ & Hin & ->).
    rewrite He. simpl. split; [by eapply moved_in_wf|]. intros c. by rewrite (moved_in_funds _ _ _ _ _ Hin).
  - destruct Hcl as (b & _ & _ & _ & -> & Hp). simpl. split; [by eapply paid_wf|].
    intros c'. by rewrite (paid_funds _ _ _ _ _ _ _ Hp).
Qed.

(** C9. The peer-to-peer service moves funds and never creates or destroys them: along
    any run of its transactions the sum of the available, locked and escrow balances of
    every currency stays the same and no balance becomes negative. *)
Theorem p2p_conserves (d d' : p2p_db) :
  balances_wf (edb_balances (pdb_escrow d)) → rtc p2p_step d d' →
  balances_wf (edb_balances (pdb_escrow d')) ∧
  ∀ c, funds c (edb_balances (pdb_escrow d')) = funds c (edb_balances (pdb_escrow d)).
Proof.
  intros Hwf. apply (rtc_invariant p2p_step (λ x, balances_wf (edb_balances (pdb_escrow x)) ∧
    ∀ c, funds c (edb_balances (pdb_escrow x)) = funds c (edb_balances (pdb_escrow d)))); [|done].
  intros x y [Hx Hf] Hstep. apply p2p_step_event in Hstep.
  destruct (event_funds x y Hstep Hx) as [Hy Hf']. split; [done|]. intros c. by rewrite Hf'.
Qed.

(** ** Liquidity of the ads *)
Definition order_live (s : order_status) : bool :=
  negb (bool_decide (s = CANCELLED) || bool_decide (s = EXPIRED)).
Definition taken_by (aid : string) (o : p2p_order) : Z :=
  if String.eqb (o_ad (o_terms o)) aid && order_live (o_status o) then o_quantity (o_terms o) else 0.
(** What the orders of an ad have taken from it. *)
Definition taken (aid : string) (d : p2p_db) : Z := msum (λ _ o, taken_by aid o) (orders d).

Definition ads_covered (d : p2p_db) : Prop :=
  (∀ id o, orders d !! id = Some o →
     is_Some (amounts d !! o_ad (o_terms o)) ∧ 0 < o_quantity (o_terms o)) ∧
  ∀ aid av t, amounts d !! aid = Some (av, t) → av + taken aid d ≤ t ∧ (0 ≤ t → 0 ≤ av).

Lemma taken_insert d d' id o o' aid :
  orders d !! id = Some o → orders d' = <[id := o']> (orders d) →
  taken aid d' = taken aid d - taken_by aid o + taken_by aid o'.
Proof. intros Ho Hd. unfold taken. rewrite Hd. by rewrite (msum_insert_Some _ _ _ _ _ Ho). Qed.

Lemma taken_none d aid :
  ads_covered d → amounts d !! aid = None → taken aid d = 0.
Proof.
  intros [Hord _] Hn. unfold taken. rewrite (msum_ext _ (λ _ _, 0)).
  - apply msum_zero.
  - intros id o Ho. destruct (Hord _ _ Ho) as [[x Hx] _]. unfold taken_by.
    destruct (String.eqb_spec (o_ad (o_terms o)) aid); [congruence|done].
Qed.

(** Replacing an order without changing what the ads offer. *)
Lemma covered_keep d d' id o o' :
  ads_covered d → orders d !! id = Some o → o_terms o' = o_terms o →
  (order_live (o_status o) = false → order_live (o_status o') = false) →
  orders d' = <[id := o']> (orders d) → amounts d' = amounts d → ads_covered d'.
Proof.
  intros [Hord Hads] Ho Ht Hl Hd Ha. split.
  - intros id2 o2. rewrite Hd, Ha. intros [[<- <-]|[_ Ho2]]%lookup_insert_Some; [|by eapply Hord].
    rewrite Ht. by eapply Hord.
  - intros aid av t. rewrite Ha. intros Hav. destruct (Hads _ _ _ Hav) as [Hle Hpos].
    split; [|done]. rewrite (taken_insert _ _ _ _ _ aid Ho Hd). unfold taken_by. rewrite Ht.
    destruct (Hord _ _ Ho) as [_ Hq].
    destruct (String.eqb _ _), (order_live (o_status o)), (order_live (o_status o')); simpl; naive_solver lia.
Qed.

Lemma toDP_pos p x : 0 < toDP p x → 0 < x.
Proof.
  intros Hx. destruct (Z.lt_ge_cases 0 x) as [|Hle]; [done|].
  destruct (toDP_bounds p (- x) ltac:(lia)) as (Hb & _).
  unfold toDP in *. rewrite trunc_opp in Hb by apply ulp_pos. lia.
Qed.

Lemma covered_create d d' id o av av' t :
  ads_covered d → orders d !! id = None → 0 < o_quantity (o_terms o) → order_live (o_status o) = true →
  orders d' = <[id := o]> (orders d) →
  amounts d !! o_ad (o_terms o) = Some (av, t) → 0 ≤ av' ≤ av - o_quantity (o_terms o) →
  amounts d' = <[o_ad (o_terms o) := (av', t)]> (amounts d) → ads_covered d'.
Proof.
  intros [Hord Hads] Hid Hq Hlive Hd Hav Hav' Ha.
  assert (∀ aid, taken aid d' = taken aid d +
    (if String.eqb (o_ad (o_terms o)) aid then o_quantity (o_terms o) else 0)) as Htaken.
  { intros aid. unfold taken at 1. rewrite Hd, msum_insert_None by done.
    change (msum _ (orders d)) with (taken aid d). unfold taken_by. rewrite Hlive.
    rewrite andb_true_r. lia. }
  split.
  - intros id2 o2. rewrite Hd, Ha. intros [[<- <-]|[_ Ho2]]%lookup_insert_Some.
    + by rewrite lookup_insert_eq.
    + destruct (Hord _ _ Ho2) as [Hs Hq2]. split; [|done]. by apply lookup_insert_is_Some'; right.
  - intros aid av2 t2. rewrite Ha, Htaken.
    destruct (String.eqb_spec (o_ad (o_terms o)) aid) as [<-|Hne].
    + rewrite lookup_insert_eq. intros [= <- <-]. destruct (Hads _ _ _ Hav). lia.
    + rewrite lookup_insert_ne by done. intros Hav2. destruct (Hads _ _ _ Hav2). lia.
Qed.

Lemma covered_cancel d d' id o o' :
  ads_covered d → orders d !! id = Some o → o_terms o' = o_terms o →
  order_live (o_status o) = true → o_status o' = CANCELLED →
  orders d' = <[id := o']> (orders d) →
  amounts d' = alter (give_back (o_quantity (o_terms o))) (o_ad (o_terms o)) (amounts d) →
  ads_covered d'.
Proof.
  intros [Hord Hads] Ho Ht Hl Hs Hd Ha. destruct (Hord _ _ Ho) as [[[av0 t0] Hav0] Hq].
  split.
  - intros id2 o2 Ho2.
    assert (is_Some (amounts d !! o_ad (o_terms o2)) ∧ 0 < o_quantity (o_terms o2)) as [[x Hx] Hq2].
    { rewrite Hd in Ho2. apply lookup_insert_Some in Ho2 as [[<- <-]|[_ Ho2]]; [|by eapply Hord].
      rewrite Ht. eauto. }
    split; [|done]. rewrite Ha.
    destruct (decide (o_ad (o_terms o) = o_ad (o_terms o2))) as [Heq|Hne].
    + rewrite <- Heq, lookup_alter_eq, Hav0. eauto.
    + rewrite lookup_alter_ne by done. eauto.
  - intros aid av t. rewrite Ha, (taken_insert _ _ _ _ _ aid Ho Hd). unfold taken_by.
    rewrite Ht, Hs, Hl. simpl. rewrite andb_false_r, andb_true_r.
    destruct (String.eqb_spec (o_ad (o_terms o)) aid) as [<-|Hne].
    + rewrite lookup_alter_eq, Hav0. intros [= <- <-]. simpl.
      destruct (Hads _ _ _ Hav0). lia.
    + rewrite lookup_alter_ne by done. intros Hav. destruct (Hads _ _ _ Hav). lia.
Qed.

Lemma escrow_for_live s : escrow_for s = EscLocked → order_live s = true.
Proof. by destruct s. Qed.

Lemma covered_event d d' :
  p2p_consistent d → ads_covered d → p2p_event d d' → ads_covered d'.
Proof.
  intros Hc Hcov Hev. pose proof Hcov as [Hord Hads].
  destruct Hev as [He Ho Hd Ha|id t He Ho Hd Hn Ha|id o eid uuid e1 Hid Hst Heid Hmove He Ho Hd Ha
    |id o o' Hid Ht Hst He Ho Hd Ha|id o o' did x Hid Ht Hs1 Hs2 Hdid Hx He Ho Hd Ha
    |id o o' c e Hid Ht Heid Hcl Hc1 Hwhy Ho Ha|id o o' eid e Hid Heid Hesc Hn Hwhy He Ho Ht Ha].
  - unfold ads_covered, taken. by rewrite Ho, Ha.
  - split.
    + intros id2 o2. rewrite Ho, Ha. intros Ho2. destruct (Hord _ _ Ho2) as [Hs Hq].
      split; [|done]. by apply lookup_insert_is_Some'; right.
    + intros aid av t2. rewrite Ha. unfold taken. rewrite Ho. change (msum _ _) with (taken aid d).
      intros [[<- [= <- <-]]|[_ Hav]]%lookup_insert_Some; [|by apply Hads].
      rewrite taken_none by done. lia.
  - destruct Ha as (av & av' & t & Hav & Hav' & Ha).
    eapply (covered_create d d' id o av av' t); try done; [|by rewrite Hst].
    apply moveToEscrow_inv in Hmove as (z & _ & _ & _ & [= <-] & _ & Hpos & _). by eapply toDP_pos.
  - apply (covered_keep d d' id o o'); try done.
    destruct Hst as [[Hedge Hs]|[-> _]]; [|done]. rewrite Hs in Hedge.
    inversion Hedge as [Heq| | | | | |]. done.
  - apply (covered_keep d d' id o o'); try done. by rewrite Hs1.
  - pose proof Hc as (Hordc & _).
    destruct (Hordc _ _ Hid) as (eid0 & e0 & Heid0 & He0 & _ & _ & _ & Hst).
    destruct Hcl as (b & Hesc & Hlk & _). simplify_eq.
    assert (order_live (o_status o) = true) as Hlive by (apply escrow_for_live; congruence).
    destruct Hc1 as [[_ Hs']|[_ Hs']]; rewrite Hs' in Ha; simpl in Ha.
    + apply (covered_keep d d' id o o'); try done. by rewrite Hlive.
    + by apply (covered_cancel d d' id o o').
  - pose proof Hc as (Hordc & _).
    destruct (Hordc _ _ Hid) as (eid0 & e0 & Heid0 & He0 & _ & _ & _ & Hst). simplify_eq.
    destruct Hwhy as [Hs|Hres]; [congruence|].
    by rewrite (resolved_status d d' id o Hc Hres Hid) in Hst.
Qed.

(** A database with no ads yet. *)
Definition fresh_p2p (d : p2p_db) : Prop := no_trades d ∧ ads d = ∅.

Lemma fresh_covered d : fresh_p2p d → ads_covered d.
Proof.
  intros [[Ho Hd] Ha]. unfold ads_covered, amounts, taken. rewrite Ho, Ha.
  split; intros *; [by rewrite lookup_empty|]. by rewrite fmap_empty, lookup_empty.
Qed.

Definition p2p_inv (d : p2p_db) : Prop := p2p_consistent d ∧ ads_covered d.

Lemma p2p_inv_reachable d d' : fresh_p2p d → rtc p2p_step d d' → p2p_inv d'.
Proof.
  intros Hf. apply rtc_invariant.
  - intros x y [Hc Hcov] Hstep%p2p_step_event.
    split; [by eapply consistent_event|by eapply covered_event].
  - split; [|by apply fresh_covered]. apply fresh_consistent, Hf.
Qed.

(** An ad never promises more than its total: in every database the service reaches
    from one without ads, what an ad still offers and what its orders that were not
    cancelled have taken add up to at most its total, and an ad with a non-negative
    total never offers a negative amount. *)
Theorem p2p_ads_covered (d d' : p2p_db) (aid : string) (a : p2p_ad) :
  fresh_p2p d → rtc p2p_step d d' → ads d' !! aid = Some a →
  ad_available a + taken aid d' ≤ ad_total a ∧ (0 ≤ ad_total a → 0 ≤ ad_available a).
Proof.
  intros Hf Hrtc Ha. destruct (p2p_inv_reachable d d' Hf Hrtc) as [_ [_ Hads]].
  apply Hads. unfold amounts. by rewrite lookup_fmap, Ha.
Qed.

(** ** Orders can be finished *)
Lemma solvent_link oid eid e : solvent e → solvent (link_order oid eid e).
Proof.
  intros (Hwf & Htok & Hok & Hsolv). unfold link_order.
  destruct (escrows e !! eid) as [x|] eqn:Hx.
  - rewrite (alter_known _ _ _ _ Hx). split; [done|]. split; [done|]. split; simpl.
    + intros id y [[<- <-]|[_ Hy]]%lookup_insert_Some; [|by apply (Hok id)]. by apply Hok in Hx.
    + intros u c. unfold owed. rewrite (msum_insert_Some _ _ _ _ _ Hx).
      change (msum _ (escrows e)) with (owed u c (escrows e)). rewrite <- Hsolv.
      unfold global_escrow, owes; simpl. lia.
  - assert (alter (λ x, Escrow (esc_user_id x) (esc_currency_id x) (esc_token_id x) (esc_amount x)
                   (esc_status x) (Some oid) (esc_admin_frozen x)) eid (escrows e) = escrows e) as ->;
      [|by destruct e].
    apply map_eq. intros j. destruct (decide (eid = j)) as [<-|Hne].
    + by rewrite lookup_alter_eq, Hx.
    + by rewrite lookup_alter_ne.
Qed.

Lemma solvent_event d d' : p2p_event d d' → solvent (pdb_escrow d) → solvent (pdb_escrow d').
Proof.
  intros Hev Hs.
  destruct Hev as [He Ho Hd Ha|id t He Ho Hd Hn Ha|id o eid uuid e1 Hid Hst Heid Hmove He Ho Hd Ha
    |id o o' Hid Ht Hst He Ho Hd Ha|id o o' did x Hid Ht Hs1 Hs2 Hdid Hx He Ho Hd Ha
    |id o o' c e Hid Ht Heid Hcl Hc1 Hwhy Ho Ha|id o o' eid e Hid Heid Hesc Hn Hwhy He Ho Ht Ha].
  1,2,4,5,7: by rewrite He.
  - rewrite He. apply solvent_link. by eapply solvent_moved.
  - by eapply solvent_closed.
Qed.

Definition escrow_live (d : p2p_db) (o : p2p_order) : Prop :=
  ∀ eid e, o_escrow (o_terms o) = Some eid → escrows (pdb_escrow d) !! eid = Some e →
    esc_admin_frozen e = false.

Definition p2p_good (d : p2p_db) : Prop := p2p_inv d ∧ solvent (pdb_escrow d).

Lemma p2p_good_reachable d d' :
  fresh_p2p d → solvent (pdb_escrow d) → rtc p2p_step d d' → p2p_good d'.
Proof.
  intros Hf Hs Hrtc. split; [by eapply p2p_inv_reachable|].
  apply (rtc_invariant p2p_step (λ x, solvent (pdb_escrow x)) d d'); [|done|done].
  intros x y Hx Hstep%p2p_step_event. by eapply solvent_event.
Qed.

Lemma zoom_closed c e b d :
  run_call c (pdb_escrow d) = Ret (Moved, closed_db c e b (pdb_escrow d)) →
  zoom (run_call c) d = Ret (Moved, sput (closed_db c e b (pdb_escrow d)) d).
Proof. intros Hrun. by apply zoom_Ret. Qed.

(** The escrow of an order whose escrow is open. *)
Lemma order_escrow d id o :
  p2p_consistent d → orders d !! id = Some o → escrow_for (o_status o) = EscLocked →
  ∃ eid e, o_escrow (o_terms o) = Some eid ∧ escrows (pdb_escrow d) !! eid = Some e ∧
    esc_status e = EscLocked ∧ esc_user_id e = o_seller (o_terms o) ∧
    esc_amount e = toAmount (o_quantity (o_terms o)).
Proof.
  intros (Hord & _) Ho Hs. destruct (Hord _ _ Ho) as (eid & e & ? & ? & _ & ? & ? & ?).
  exists eid, e. rewrite <- Hs. done.
Qed.

Lemma restore_run aid q d a :
  ads d !! aid = Some a → 0 ≤ ad_available a + q → ad_available a + q ≤ ad_total a →
  restore_liquidity aid q d =
    Ret (tt, set_ads (<[aid := ad_with_available (ad_available a + q) a]> (ads d)) d).
Proof.
  intros Ha Hpos Hle. unfold restore_liquidity, select_ad, update_ad.
  step. step. step. rewrite (alter_known _ _ _ _ Ha). step.
  erewrite bind_Ret; [|simpl; apply get_or_Some, lookup_insert_eq]. simpl. step; [|apply negb_true_iff, Z.ltb_ge; simpl; lia].
  apply require_true, negb_true_iff, Z.ltb_ge. simpl. lia.
Qed.

(** A pending order can be cancelled by either party: in every database the service
    reaches from a fresh one whose accounts are solvent, cancelling a pending order
    whose escrow is not frozen succeeds for its buyer and its seller (when the driver
    returns camelCase columns), refunds the seller, gives the ad its quantity back and
    marks the order cancelled; the liquidity guards never fire. *)
Theorem pending_order_cancels (d0 d : p2p_db) (env : p2p_env) (id user reason : string)
    (o : p2p_order) (a : p2p_ad) :
  fresh_p2p d0 → solvent (pdb_escrow d0) → rtc p2p_step d0 d →
  orders d !! id = Some o → o_status o = PAYMENT_PENDING → escrow_live d o →
  ads d !! o_ad (o_terms o) = Some a → 0 ≤ ad_total a →
  camel env = true → user = o_buyer (o_terms o) ∨ user = o_seller (o_terms o) →
  ∃ d' cur, cancelOrder env id user reason d = Ret (tt, d') ∧
    o_status <$> (orders d' !! id) = Some CANCELLED ∧
    ad_available <$> (ads d' !! o_ad (o_terms o)) = Some (ad_available a + o_quantity (o_terms o)) ∧
    (let k := funding_key (o_seller (o_terms o)) cur CHAIN_ID_GLOBAL in
     available_balance (row_of k (edb_balances (pdb_escrow d')))
     = available_balance (row_of k (edb_balances (pdb_escrow d))) + toAmount (o_quantity (o_terms o))).
Proof.
  intros Hf Hs0 Hrtc Ho Hst Hlive Ha Htot Hcamel Huser.
  destruct (p2p_good_reachable _ _ Hf Hs0 Hrtc) as [[Hc Hcov] Hs].
  destruct (order_escrow d id o Hc Ho) as (eid & e & Heid & He & Hl & Hu & Hamt); [by rewrite Hst|].
  destruct (call_succeeds (CallRefund eid) e _ Hs He Hl (Hlive _ _ Heid He)) as (b & Hrun & Hcl & Hpaid).
  apply zoom_closed in Hrun.
  destruct Hcov as [Hord Hads]. destruct (Hord _ _ Ho) as [_ Hq].
  destruct (Hads (o_ad (o_terms o)) (ad_available a) (ad_total a)) as [Hle Hpos];
    [unfold amounts; by rewrite lookup_fmap, Ha|].
  assert (o_quantity (o_terms o) ≤ taken (o_ad (o_terms o)) d) as Hq2.
  { unfold taken. rewrite (msum_lookup _ _ _ _ Ho). unfold taken_by at 1.
    rewrite String.eqb_refl, Hst. simpl.
    match goal with |- _ ≤ _ + ?y => assert (0 ≤ y); [|lia] end.
    apply msum_nonneg. intros k v Hk. apply lookup_delete_Some in Hk as [_ Hk].
    destruct (Hord _ _ Hk). unfold taken_by. destruct (_ && _)%bool; lia. }
  eexists _, (esc_currency_id e). split.
  { unfold cancelOrder, lock_order, select_order, update_order. erewrite bind_Ret; [|by step; apply get_or_Some].
    rewrite Hst. cbv beta iota. rewrite bool_decide_eq_false_2 by done.
    step. step.
    2: { rewrite Hcamel. simpl. apply orb_true_iff.
         destruct Huser as [->| ->]; [left|right]; by apply bool_decide_eq_true_2. }
    step. erewrite bind_Ret; [|exact Hrun]. cbv beta iota.
    erewrite bind_Ret; [|apply (restore_run _ _ _ a); [done|lia|lia]]. reflexivity. }
  simpl. rewrite lookup_alter_eq, Ho, lookup_insert_eq. split; [done|]. split; [done|].
  apply paid_available in Hpaid. simpl in Hpaid. rewrite <- Hu, <- Hamt. done.
Qed.

(** Releasing a confirmed order: in every database the service reaches from a fresh
    one whose accounts are solvent, when the seller releases a confirmed order whose
    payment is not waiting for verification and whose escrow is not frozen, the order
    completes and the buyer receives exactly its quantity, provided the quantity has at
    most 8 decimal places. With more places the escrow holds less than the quantity,
    and every release of the order, by the seller or by the SLA worker, throws. *)
Theorem release_exact (d0 d : p2p_db) (env : p2p_env) (id : string) (o : p2p_order) :
  fresh_p2p d0 → solvent (pdb_escrow d0) → rtc p2p_step d0 d →
  orders d !! id = Some o → o_status o = PAYMENT_CONFIRMED → escrow_live d o →
  (toAmount (o_quantity (o_terms o)) = o_quantity (o_terms o) →
   pay_verification (o_payment o) ≠ Some VerPending →
   pay_verification (o_payment o) ≠ Some VerRejected →
   queue_error env = None →
   ∃ d' cur, releaseCrypto env id (o_seller (o_terms o)) false d = Ret (tt, d') ∧
     o_status <$> (orders d' !! id) = Some COMPLETED ∧
     (let k := funding_key (o_buyer (o_terms o)) cur CHAIN_ID_GLOBAL in
      available_balance (row_of k (edb_balances (pdb_escrow d')))
      = available_balance (row_of k (edb_balances (pdb_escrow d))) + o_quantity (o_terms o))) ∧
  (toAmount (o_quantity (o_terms o)) ≠ o_quantity (o_terms o) →
   ∀ user sla, ∃ msg, releaseCrypto env id user sla d = Throw msg).
Proof.
  intros Hf Hs0 Hrtc Ho Hst Hlive.
  destruct (p2p_good_reachable _ _ Hf Hs0 Hrtc) as [[Hc Hcov] Hs].
  destruct (order_escrow d id o Hc Ho) as (eid & e & Heid & He & Hl & Hu & Hamt); [by rewrite Hst|].
  destruct Hcov as [Hord _]. destruct (Hord _ _ Ho) as [_ Hq]. split.
  - intros Hexact Hv1 Hv2 Hqueue.
    destruct (call_succeeds (CallRelease eid (o_buyer (o_terms o))) e _ Hs He Hl (Hlive _ _ Heid He))
      as (b & Hrun & Hcl & Hpaid).
    apply zoom_closed in Hrun. eexists _, (esc_currency_id e). split.
    { unfold releaseCrypto, lock_order, select_order, update_order, update_ad.
      erewrite bind_Ret; [|by step; apply get_or_Some].
      erewrite bind_Ret; [|unfold release_allowed; apply require_true, String.eqb_refl].
      rewrite Hst. cbv beta iota. rewrite bool_decide_eq_false_2 by done. step. step.
      erewrite bind_Ret; [|apply require_true; simpl; rewrite !bool_decide_eq_false_2 by done; done].
      step. step. step. erewrite bind_Ret; [|apply require_true; by apply bool_decide_eq_true_2].
      erewrite bind_Ret; [|apply require_true, negb_true_iff, Z.ltb_ge; lia].
      erewrite bind_Ret; [|exact Hrun]. cbv beta iota.
      step. step. step. unfold sendToQueue. rewrite Hqueue. reflexivity. }
    simpl. rewrite lookup_alter_eq, Ho. split; [done|].
    apply paid_available in Hpaid. simpl in Hpaid. rewrite Hamt, Hexact in Hpaid. exact Hpaid.
  - intros Hne user sla.
    destruct (releaseCrypto env id user sla d) as [[u d']|msg] eqn:Hrun; [|by exists msg].
    exfalso. unfold releaseCrypto in Hrun. run_inv Hrun. apply lock_order_inv in Hm as [Ho' ->].
    run_inv Hrun. assert (st = d) as -> by (unfold release_allowed in Hm; run_all Hm; done).
    simplify_eq. rewrite Hst in Hrun. cbv beta iota in Hrun.
    rewrite bool_decide_eq_false_2 in Hrun by done.
    do 7 run_inv Hrun. simplify_eq.
    run_inv Hrun. bool_prop. rewrite Hamt in *.
    destruct (toDP_bounds AMOUNT_PRECISION (o_quantity (o_terms o)) ltac:(lia)) as (_ & Hb & _).
    unfold toAmount in *. lia.
Qed.

(** ** Defects *)

(** Without camelCase column names no order can be created and no pending order can
    be cancelled: the handlers read the ad's user, limits and amounts, and the order's
    parties, by names the driver does not return, so that every creation throws and
    leaves the database as it was, and every cancellation of a pending order, by its
    own buyer or seller included, is "not authorized". *)
Theorem snake_case_rows_block_trading (env : p2p_env) :
  camel env = false →
  (∀ user adId pm q lockv uuid eid oid s,
     (∃ e, fst (createOrder env user adId pm q lockv uuid eid oid s) = Throw e) ∧
     sys_db (snd (createOrder env user adId pm q lockv uuid eid oid s)) = sys_db s) ∧
  (∀ id user reason d o, orders d !! id = Some o → o_status o = PAYMENT_PENDING →
     cancelOrder env id user reason d = Throw "Not authorized to cancel this order").
Proof.
  intros Hcamel. split.
  - intros user adId pm q lockv uuid eid oid s.
    assert (∀ x d, ∃ e, createOrder_tx env user adId pm x uuid eid oid d = Throw e) as Htx.
    { intros x d. destruct (createOrder_tx _ _ _ _ _ _ _ _ d) as [[o d']|e] eqn:E; [|by eexists].
      exfalso. unfold createOrder_tx, select_ad in E. do 3 run_inv E.
      unfold check_ad, newDecimal in Hm. rewrite Hcamel in Hm. simpl in Hm. by do 4 run_inv Hm. }
    unfold createOrder. destruct (isP2PAdminPaused env); [by split; [eexists|]|].
    destruct (ads (sys_db s) !! adId) as [prev|]; [|by split; [eexists|]].
    destruct (acquireLock _ _ (sys_locks s)) as [l1|]; [|by split; [eexists|]].
    destruct (acquireLock _ _ l1) as [l2|]; [|by split; [eexists|]].
    destruct (assertValidP2PQuantity q l2) as [?|]; [|by split; [eexists|]].
    destruct q as [[x|]|]; [|by split; [eexists|]..].
    unfold transaction. destruct (Htx x (sys_db s)) as [e He]. rewrite He. by split; [eexists|].
  - intros id user reason d o Ho Hst. unfold cancelOrder, lock_order, select_order.
    erewrite bind_Ret; [|by step; apply get_or_Some].
    rewrite Hst, Hcamel. cbv beta iota. rewrite bool_decide_eq_false_2 by done. step. done.
Qed.

(** The expiry job never expires an order: it looks for orders in the status
    "awaiting_payment", which no order is ever given, so whatever the database and the
    time, a run processes nothing, reports no error, and leaves every row and lock as
    it was. *)
Theorem expiry_processes_nothing (env : p2p_env) (lockValue : string) (s : p2p_sys) :
  processExpiredP2POrders env lockValue s = ((0%nat, 0%nat), s).
Proof.
  unfold processExpiredP2POrders, acquireLock.
  destruct (sys_locks s !! "lock:p2p_expiry:run") eqn:E; [done|].
  assert (select_expired env (sys_db s) = []) as ->.
  { unfold select_expired. replace (filter _ (map_to_list (orders (sys_db s)))) with
      (@nil (string * p2p_order)); [done|].
    symmetry. induction (map_to_list (orders (sys_db s))) as [|x l IH]; [done|].
    rewrite filter_cons_False; [done|]. unfold expirable. by rewrite not_awaiting. }
  cbn [expire_rows]. unfold releaseLock. rewrite lookup_insert_eq, String.eqb_refl.
  rewrite delete_insert_id by done.
  by destruct s.
Qed.

(** A rejected quantity leaves the order locks taken: [createOrder] checks the
    quantity after it has taken the seller's and the ad's Redis lock and before the
    block that releases them, so after a call with an invalid quantity both keys stay
    set, and until they expire every order on that ad is refused, whoever places it. *)
Theorem invalid_quantity_keeps_locks (env : p2p_env) (user adId pm lockv uuid eid oid e : string)
    (q : option decval) (s : p2p_sys) (a : p2p_ad) :
  isP2PAdminPaused env = false → ads (sys_db s) !! adId = Some a →
  sys_locks s !! order_lock_key adId = None →
  sys_locks s !! seller_lock_key (if bool_decide (ad_kind a = AdSell) then ad_user a else user) = None →
  (∀ l : locks, assertValidP2PQuantity q l = Throw e) →
  fst (createOrder env user adId pm q lockv uuid eid oid s) = Throw e ∧
  let s' := snd (createOrder env user adId pm q lockv uuid eid oid s) in
  is_Some (sys_locks s' !! order_lock_key adId) ∧
  ∀ env2 user2 pm2 q2 lockv2 uuid2 eid2 oid2, isP2PAdminPaused env2 = false →
    fst (createOrder env2 user2 adId pm2 q2 lockv2 uuid2 eid2 oid2 s')
    = Throw "Unable to process order. Please try again.".
Proof.
  intros Hp Ha Hl1 Hl2 Hq.
  set (sk := seller_lock_key (if bool_decide (ad_kind a = AdSell) then ad_user a else user)) in *.
  assert (sk ≠ order_lock_key adId) as Hne by (unfold sk, seller_lock_key, order_lock_key; done).
  assert (createOrder env user adId pm q lockv uuid eid oid s = (Throw e, P2PSys (sys_db s)
    (<[order_lock_key adId := lockv]> (<[sk := lockv]> (sys_locks s))))) as ->.
  { unfold createOrder. rewrite Hp, Ha. fold sk. unfold acquireLock at 1. rewrite Hl2.
    unfold acquireLock. rewrite lookup_insert_ne, Hl1 by done. by rewrite Hq. }
  simpl. split; [done|]. split; [rewrite lookup_insert_eq; eauto|].
  intros env2 user2 pm2 q2 lockv2 uuid2 eid2 oid2 Hp2. unfold createOrder. rewrite Hp2. simpl. rewrite Ha.
  destruct (acquireLock (seller_lock_key _) _ _) as [l1|] eqn:E; [|done].
  unfold acquireLock in E. destruct (_ !! seller_lock_key _); [done|]. injection E as <-.
  unfold acquireLock. rewrite lookup_insert_ne by done. by rewrite lookup_insert_eq.
Qed.
End Events.

(** ** Concrete runs *)
#[local] Existing Instance decimal_36.

Definition demo_config : p2p_config :=
  P2PConfig (dec 500000 0) (dec 10000 0) (dec 1000000 0) 0 0 0 0 15 true true false.
Definition demo_env (camel : bool) : p2p_env :=
  P2PEnv demo_config 1700000000000 camel None (λ _, false) [Ret None] false (λ _ _, None) None.
Definition demo_p2p : p2p_db :=
  P2PDb (usdt_db None CHAIN_ID_GLOBAL) ∅ ∅ ∅
    {["pm-alice" := ("alice", Some true); "pm-bob" := ("bob", Some true)]} ∅ [].
Definition demo_ad : p2p_op :=
  OpCreateAd (CreateAdParams "alice" AdSell "t-usdt" "INR" PriceFixed (dec 83 0) None
    (Some (dec 1 0)) (Some (dec 8 0)) (Some (dec 8 0)) ["pm-alice"] None None None None) "ad-1".
Definition demo_order (q : Z) : p2p_op := OpCreateOrder "bob" "ad-1" "pm-bob" q "u-1" "e-1" "o-1".
Definition demo_confirm : p2p_op := OpConfirm "o-1" "bob" None.

Definition run_demo (ops : list p2p_op) (d : p2p_db) : p2p_db :=
  foldl (λ x o, snd (transaction (run_p2p (demo_env true) o) x)) d ops.

Lemma run_demo_rtc ops d : rtc p2p_step d (run_demo ops d).
Proof.
  revert d. induction ops as [|o ops IH]; intros d; [apply rtc_refl|].
  eapply rtc_l; [apply p2p_tx with (env := demo_env true)|]. apply IH.
Qed.

Lemma demo_fresh : fresh_p2p demo_p2p.
Proof. done. Qed.

Lemma p2p_escrow_consistent_witness :
  let d := run_demo [demo_ad; demo_order (dec 3 0); demo_confirm;
                     OpDispute "o-1" "bob" "no release" [] "d-1"] demo_p2p in
  p2p_consistent d ∧ o_status <$> (orders d !! "o-1") = Some DISPUTED.
Proof.
  intros d. split; [|vm_compute; reflexivity].
  apply (p2p_escrow_consistent demo_p2p d); [split; reflexivity|apply run_demo_rtc].
Defined.

Definition demo_pending : p2p_order :=
  P2POrder (OrderTerms "ad-1" "bob" "alice" "t-usdt" "INR" (dec 83 0) (dec 3 0) (dec 249 0) "pm-bob"
    (Some "e-1") (1700000000000 + minutes 15) 1700000000000) PAYMENT_PENDING
    (Payment None None None None None None) None None None.
Definition demo_confirmed : p2p_order :=
  order_with PAYMENT_CONFIRMED (Payment (Some 1700000000000) None None None None None) demo_pending.

Lemma p2p_state_machine_witness :
  let d := run_demo [demo_ad; demo_order (dec 3 0); demo_confirm] demo_p2p in
  let d' := run_demo [OpCancel "o-1" "bob" "changed my mind"; OpRelease "o-1" "alice" false] d in
  (∃ o', orders d' !! "o-1" = Some o' ∧ o_terms o' = o_terms demo_confirmed ∧
    rtc order_edge PAYMENT_CONFIRMED (o_status o') ∧
    (order_open PAYMENT_CONFIRMED = false → o_status o' = PAYMENT_CONFIRMED) ∧
    (PAYMENT_CONFIRMED = PAYMENT_CONFIRMED → o_status o' = CANCELLED →
     dispute_resolved "o-1" d')) ∧
  o_status <$> (orders d' !! "o-1") = Some COMPLETED.
Proof.
  intros d d'. split; [|vm_compute; reflexivity].
  apply (p2p_state_machine demo_p2p d d' "o-1" demo_confirmed);
    [split; reflexivity|apply run_demo_rtc|apply run_demo_rtc|vm_compute; reflexivity].
Defined.

Lemma p2p_conserves_witness :
  let d := run_demo [demo_ad; demo_order (dec 3 0); demo_confirm; OpRelease "o-1" "alice" false]
             demo_p2p in
  (balances_wf (edb_balances (pdb_escrow d)) ∧
   ∀ c, funds c (edb_balances (pdb_escrow d)) = funds c (edb_balances (pdb_escrow demo_p2p))) ∧
  available_balance (row_of (funding_key "bob" "c-usdt" CHAIN_ID_GLOBAL)
    (edb_balances (pdb_escrow d))) = dec 3 0.
Proof.
  intros d. split; [|vm_compute; reflexivity].
  apply (p2p_conserves demo_p2p d); [apply usdt_wf|apply run_demo_rtc].
Defined.

Lemma p2p_ads_covered_witness :
  let d := run_demo [demo_ad; demo_order (dec 3 0)] demo_p2p in
  ∃ a, ads d !! "ad-1" = Some a ∧ ad_available a = dec 5 0 ∧
    (ad_available a + taken "ad-1" d ≤ ad_total a ∧ (0 ≤ ad_total a → 0 ≤ ad_available a)).
Proof.
  intros d. eexists. split; [vm_compute; reflexivity|]. split; [reflexivity|].
  apply (p2p_ads_covered demo_p2p d "ad-1"); [apply demo_fresh|apply run_demo_rtc|].
  vm_compute; reflexivity.
Defined.

Definition demo_ad_row : p2p_ad :=
  P2PAd "alice" AdSell "t-usdt" "INR" PriceFixed None (dec 83 0) (dec 1 0) (dec 8 0) (dec 5 0)
    (dec 8 0) ["pm-alice"] 15 None None AdActive false 0.

Lemma pending_order_cancels_witness :
  let d := run_demo [demo_ad; demo_order (dec 3 0)] demo_p2p in
  ∃ d' cur, cancelOrder (demo_env true) "o-1" "bob" "changed my mind" d = Ret (tt, d') ∧
    o_status <$> (orders d' !! "o-1") = Some CANCELLED ∧
    ad_available <$> (ads d' !! "ad-1") = Some (dec 5 0 + dec 3 0) ∧
    (let k := funding_key "alice" cur CHAIN_ID_GLOBAL in
     available_balance (row_of k (edb_balances (pdb_escrow d')))
     = available_balance (row_of k (edb_balances (pdb_escrow d))) + toAmount (dec 3 0)).
Proof.
  intros d. apply (pending_order_cancels demo_p2p d (demo_env true) "o-1" "bob" "changed my mind"
    demo_pending demo_ad_row).
  - apply demo_fresh.
  - apply usdt_solvent.
  - apply run_demo_rtc.
  - vm_compute; reflexivity.
  - reflexivity.
  - intros eid e. vm_compute. intros [= <-] [= <-]. reflexivity.
  - vm_compute; reflexivity.
  - vm_compute. discriminate.
  - reflexivity.
  - by left.
Defined.

Lemma release_exact_witness :
  let d := run_demo [demo_ad; demo_order (dec 3 0); demo_confirm] demo_p2p in
  let q := dec 3123456789 9 in
  let fine := run_demo [demo_ad; demo_order q; demo_confirm] demo_p2p in
  (∃ d' cur, releaseCrypto (demo_env true) "o-1" "alice" false d = Ret (tt, d') ∧
     o_status <$> (orders d' !! "o-1") = Some COMPLETED ∧
     (let k := funding_key "bob" cur CHAIN_ID_GLOBAL in
      available_balance (row_of k (edb_balances (pdb_escrow d')))
      = available_balance (row_of k (edb_balances (pdb_escrow d))) + dec 3 0)) ∧
  o_quantity ∘ o_terms <$> (orders fine !! "o-1") = Some q ∧
  releaseCrypto (demo_env true) "o-1" "alice" false fine
    = Throw "Escrow balance insufficient for release".
Proof.
  intros d q fine. split; [|split; vm_compute; reflexivity].
  apply (release_exact demo_p2p d (demo_env true) "o-1" demo_confirmed).
  - apply demo_fresh.
  - apply usdt_solvent.
  - apply run_demo_rtc.
  - vm_compute; reflexivity.
  - reflexivity.
  - intros eid e. vm_compute. intros [= <-] [= <-]. reflexivity.
  - vm_compute; reflexivity.
  - discriminate.
  - discriminate.
  - reflexivity.
Defined.

Lemma snake_case_rows_block_trading_witness :
  let d := run_demo [demo_ad; demo_order (dec 3 0)] demo_p2p in
  cancelOrder (demo_env false) "o-1" "bob" "late" d = Throw "Not authorized to cancel this order" ∧
  fst (createOrder (demo_env false) "bob" "ad-1" "pm-bob" (Some (Fin (dec 2 0))) "v" "u" "e-2" "o-2"
         (P2PSys d ∅)) = Throw "[DecimalError] Invalid argument".
Proof.
  intros d. split; [|vm_compute; reflexivity].
  apply (snake_case_rows_block_trading (demo_env false) eq_refl) with (o := demo_pending);
    [vm_compute; reflexivity|reflexivity].
Defined.

Lemma invalid_quantity_keeps_locks_witness :
  let s := P2PSys (run_demo [demo_ad] demo_p2p) ∅ in
  let r := createOrder (demo_env true) "bob" "ad-1" "pm-bob" (Some (Fin 0)) "v" "u" "e-1" "o-1" s in
  fst r = Throw "Quantity must be positive" ∧
  let s' := snd r in
  is_Some (sys_locks s' !! order_lock_key "ad-1") ∧
  ∀ env2 user2 pm2 q2 lockv2 uuid2 eid2 oid2, isP2PAdminPaused env2 = false →
    fst (createOrder env2 user2 "ad-1" pm2 q2 lockv2 uuid2 eid2 oid2 s')
    = Throw "Unable to process order. Please try again.".
Proof.
  intros s r. eapply (invalid_quantity_keeps_locks (demo_env true) "bob" "ad-1" "pm-bob" "v" "u" "e-1"
    "o-1" "Quantity must be positive" (Some (Fin 0)) s).
  - reflexivity.
  - vm_compute; reflexivity.
  - reflexivity.
  - reflexivity.
  - reflexivity.
Defined.
