(* ===== verification/SettlementModel.v ===== *)
(** * Settlement: tables and the worker

    [services/settlement/settlement-worker.ts], [settlement-ledger-deltas.ts],
    [spot-settlement-order-writes.ts] and [settlement-circuit.ts]: a match event is
    settled by one transaction that moves the four trading accounts of the trade,
    appends four hash-chained ledger rows, records the trade and marks the event
    processed; failures are retried or moved to the dead-letter table. Hashing, the
    text of decimals and JSON, and the locale's string order are parameters. *)
From stdpp Require Import base gmap strings list fin_maps pretty.
From Stdlib Require Import ZArith Lia Ascii.
From S2P Require Import Prelude Money Balances Escrow Halt.
Local Open Scope Z_scope.

(** ** What the code takes from its runtime *)

(** A JavaScript number that is an integer, or NaN. *)
Definition jsnum := option Z.

Inductive json : Type :=
  | JNull
  | JBool (b : bool)
  | JNum (n : jsnum)
  | JStr (s : string)
  | JArr (l : list json)
  | JObj (fields : list (string * json)).

Class Runtime := {
  (** [crypto.createHash('sha256').update(s, 'utf8').digest('hex')] *)
  sha256 : string → string;
  (** [JSON.parse], [None] when it throws *)
  JSON_parse : string → option json;
  (** [Number] of a string *)
  Number_of_string : string → jsnum;
  (** [a.localeCompare(b) <= 0] *)
  locale_le : string → string → bool;
  (** [new Decimal(s)], [None] when it throws *)
  parse_decimal : string → option decval;
  (** [d.toFixed()] *)
  toNumeric : Z → string;
}.

(** ** Tables *)
Inductive side := Buy | Sell.
#[export] Instance side_eq_dec : EqDecision side.
Proof. solve_decision. Defined.
Definition side_text (s : side) : string := match s with Buy => "buy" | Sell => "sell" end.

Record EnginePayload := {
  event_id : jsnum;
  p_match_engine_id : option string;
  symbol : string;
  price : string;
  qty : string;
  taker_order_id : string;
  maker_order_id : string;
  taker_user_id : string;
  maker_user_id : string;
  taker_side : side;
  timestamp : jsnum;
}.

Inductive event_status := EvPending | EvProcessed | EvFailed.
#[export] Instance event_status_eq_dec : EqDecision event_status.
Proof. solve_decision. Defined.

(** A row of [settlement_events]. *)
Record settlement_event := SettlementEvent {
  ev_engine : string;
  ev_engine_event : Z;
  ev_payload : json;
  ev_status : event_status;
  ev_retry_count : Z;
  ev_hash : option string;
  ev_last_error : option string;
}.

(** A row of [settlement_ledger_entries]; the table is a list in the order of its ids. *)
Record ledger_row := LedgerRow {
  lr_event : Z;
  lr_user : string;
  lr_asset : string;
  lr_delta : Z;
  lr_prev_hash : option string;
  lr_entry_hash : string;
}.

Record settlement_trade := SettlementTrade {
  st_symbol : string; st_price : Z; st_qty : Z; st_quote_qty : Z;
  st_taker : string; st_maker : string; st_taker_order : string; st_maker_order : string;
  st_taker_fee : Z; st_maker_fee : Z;
}.

Record spot_order := SpotOrder {
  so_quantity : Z; so_filled : Z; so_remaining : option Z; so_status : string;
}.

(** A row of [spot_trades], in the columns the layout has. *)
Inductive spot_trade :=
  | LegRow (order : option string) (user market side : string) (price qty : Z)
      (fee : option Z) (fee_asset : option string)
  | MatchRow (pair maker_order taker_order maker taker : string) (price qty : Z)
      (quote_amount : option Z) (side : option string) (maker_fee taker_fee : option Z)
      (fee_currency : option string).

Record dlq_row := DlqRow {
  dq_source : Z; dq_engine_event : Z; dq_engine : string; dq_payload : json; dq_error : string;
}.

(** [spot_markets]; [None] precisions are columns that are not numbers. *)
Record market := Market {
  m_base : string; m_quote : string;
  m_base_currency : option string; m_quote_currency : option string;
  m_price_precision : option Z; m_qty_precision : option Z;
}.
(** [currencies]: id, symbol, decimals *)
Record currency_row := CurrencyRow { cr_id : string; cr_symbol : string; cr_decimals : option Z }.

Record settle_db := SettleDb {
  sd_balances : balances;
  events : gmap Z settlement_event;
  ledger : list ledger_row;
  settlement_trades : list settlement_trade;
  spot_orders : gmap string spot_order;
  spot_trades : list spot_trade;
  dlq : list dlq_row;
  markets : gmap string market;
  sd_currencies : list currency_row;
  sd_users : gset string;
  (** [trading_pairs] with [trading_enabled] not FALSE *)
  trading_pairs : gmap string string;
}.

#[export] Instance settle_db_balances : Store settle_db balances.
Proof.
  refine {| sget := sd_balances;
            sput := λ b d, SettleDb b (events d) (ledger d) (settlement_trades d) (spot_orders d)
                             (spot_trades d) (dlq d) (markets d) (sd_currencies d) (sd_users d)
                             (trading_pairs d) |}; by intros [].
Defined.

Definition set_events (x : gmap Z settlement_event) (d : settle_db) : settle_db :=
  SettleDb (sd_balances d) x (ledger d) (settlement_trades d) (spot_orders d) (spot_trades d)
    (dlq d) (markets d) (sd_currencies d) (sd_users d) (trading_pairs d).
Definition append_ledger (x : ledger_row) (d : settle_db) : settle_db :=
  SettleDb (sd_balances d) (events d) (ledger d ++ [x]) (settlement_trades d) (spot_orders d)
    (spot_trades d) (dlq d) (markets d) (sd_currencies d) (sd_users d) (trading_pairs d).
Definition append_trade (x : settlement_trade) (d : settle_db) : settle_db :=
  SettleDb (sd_balances d) (events d) (ledger d) (settlement_trades d ++ [x]) (spot_orders d)
    (spot_trades d) (dlq d) (markets d) (sd_currencies d) (sd_users d) (trading_pairs d).
Definition set_spot_orders (x : gmap string spot_order) (d : settle_db) : settle_db :=
  SettleDb (sd_balances d) (events d) (ledger d) (settlement_trades d) x (spot_trades d)
    (dlq d) (markets d) (sd_currencies d) (sd_users d) (trading_pairs d).
Definition append_spot_trade (x : spot_trade) (d : settle_db) : settle_db :=
  SettleDb (sd_balances d) (events d) (ledger d) (settlement_trades d) (spot_orders d)
    (spot_trades d ++ [x]) (dlq d) (markets d) (sd_currencies d) (sd_users d) (trading_pairs d).
Definition append_dlq (x : dlq_row) (d : settle_db) : settle_db :=
  SettleDb (sd_balances d) (events d) (ledger d) (settlement_trades d) (spot_orders d)
    (spot_trades d) (dlq d ++ [x]) (markets d) (sd_currencies d) (sd_users d) (trading_pairs d).

(** ** Payloads *)
Definition json_field (o : json) (k : string) : option json :=
  match o with
  | JObj fs => snd <$> find (λ f, String.eqb (fst f) k) fs
  | _ => None
  end.
Definition json_string (v : option json) : option string :=
  match v with Some (JStr s) => Some s | _ => None end.

(** JavaScript's [trim] and [toLowerCase], on ASCII. *)
Definition js_space (a : ascii) : bool :=
  let n := N_of_ascii a in ((9 <=? n)%N && (n <=? 13)%N) || (n =? 32)%N.
Fixpoint js_ltrim (s : string) : string :=
  match s with
  | "" => ""
  | String a s' => if js_space a then js_ltrim s' else s
  end.
Fixpoint js_rtrim (s : string) : string :=
  match s with
  | "" => ""
  | String a s' => match js_rtrim s' with
                   | "" => if js_space a then "" else String a ""
                   | t => String a t
                   end
  end.
Definition js_trim (s : string) : string := js_ltrim (js_rtrim s).

Section Payload.
Context `{Runtime}.

(** [String(x)], for integers of fewer than 22 digits *)
Fixpoint js_string (v : json) : string :=
  let item v := match v with JNull => "" | _ => js_string v end in
  match v with
  | JNull => "null"
  | JBool b => if b then "true" else "false"
  | JNum (Some n) => pretty n
  | JNum None => "NaN"
  | JStr s => s
  | JArr l => (fix go l := match l with
                           | [] => ""
                           | [x] => item x
                           | x :: l' => item x +:+ "," +:+ go l'
                           end) l
  | JObj _ => "[object Object]"
  end.

(** [typeof x === 'number' ? x : Number(x)] *)
Definition js_number (v : option json) : jsnum :=
  match v with
  | Some (JNum n) => n
  | Some (JBool b) => Some (if b then 1 else 0)
  | Some JNull => Some 0
  | Some (JStr s) => Number_of_string s
  | Some (JArr l) => Number_of_string (js_string (JArr l))
  | _ => None
  end.

Definition side_of (v : option json) : option side :=
  match json_string v with
  | Some s => let t := lower (js_trim s) in
              if String.eqb t "buy" then Some Buy
              else if String.eqb t "sell" then Some Sell else None
  | None => None
  end.

Definition payload_of_object (o : json) : option EnginePayload :=
  symbol ← json_string (json_field o "symbol");
  price ← json_string (json_field o "price");
  qty ← json_string (json_field o "qty");
  takerOrderId ← json_string (json_field o "taker_order_id");
  makerOrderId ← json_string (json_field o "maker_order_id");
  takerUserId ← json_string (json_field o "taker_user_id");
  makerUserId ← json_string (json_field o "maker_user_id");
  takerSide ← side_of (json_field o "taker_side");
  let engine := match json_string (json_field o "match_engine_id") with
                | Some s => if String.eqb (js_trim s) "" then None else Some (js_trim s)
                | None => None
                end in
  Some {| event_id := js_number (json_field o "event_id"); p_match_engine_id := engine;
          symbol := symbol; price := price; qty := qty;
          taker_order_id := takerOrderId; maker_order_id := makerOrderId;
          taker_user_id := takerUserId; maker_user_id := makerUserId;
          taker_side := takerSide; timestamp := js_number (json_field o "timestamp") |}.

Definition normalizeSettlementPayload {S} (raw : json) : M S EnginePayload :=
  let* obj := match raw with
              | JStr s => get_or (JSON_parse s) "SETTLEMENT_PAYLOAD_INVALID_JSON"
              | _ => ret raw
              end in
  match obj with
  | JObj _ => get_or (payload_of_object obj) "SETTLEMENT_PAYLOAD_MISSING_FIELDS"
  | JArr _ => throw "SETTLEMENT_PAYLOAD_MISSING_FIELDS"
  | _ => throw "SETTLEMENT_PAYLOAD_INVALID"
  end.
End Payload.

(** [JSON.stringify] of a payload, as the JSON column keeps it. *)
Definition json_num (n : jsnum) : json := match n with Some _ => JNum n | None => JNull end.
Definition payload_json (p : EnginePayload) : json :=
  JObj ([("event_id", json_num (event_id p))]
    ++ option_list ((λ e, ("match_engine_id", JStr e)) <$> p_match_engine_id p)
    ++ [("symbol", JStr (symbol p)); ("price", JStr (price p)); ("qty", JStr (qty p));
        ("taker_order_id", JStr (taker_order_id p)); ("maker_order_id", JStr (maker_order_id p));
        ("taker_user_id", JStr (taker_user_id p)); ("maker_user_id", JStr (maker_user_id p));
        ("taker_side", JStr (side_text (taker_side p))); ("timestamp", json_num (timestamp p))]).

(** ** [resolveMarketAssets] *)
Record market_assets := MarketAssets {
  base : string; quote : string;
  base_currency_id : string; quote_currency_id : string;
  price_precision : Z; qty_precision : Z; quote_precision : Z;
}.

Definition id_set (v : option string) : option string :=
  match v with Some "" | None => None | Some s => Some s end.

(** The id in the row, or else of the first currency whose symbol is [asset] in any
    case. *)
Definition currency_or_symbol (v : option string) (asset : string) (both : bool)
    (cs : list currency_row) : option string :=
  if both then v
  else match v with
       | Some i => Some i
       | None => cr_id <$> find (λ c, String.eqb (upper (cr_symbol c)) (upper asset)) cs
       end.

Definition resolveMarketAssets (symbol : string) : M settle_db market_assets :=
  let* row := gets (λ d, markets d !! symbol) in
  let* m := get_or row "MARKET_NOT_FOUND" in
  let* cs := gets sd_currencies in
  let both := bool_decide (is_Some (id_set (m_base_currency m)))
              && bool_decide (is_Some (id_set (m_quote_currency m))) in
  let b := currency_or_symbol (m_base_currency m) (m_base m) both cs in
  let q := currency_or_symbol (m_quote_currency m) (m_quote m) both cs in
  let* baseCurrencyId := get_or (id_set b) "MARKET_CURRENCY_NOT_FOUND" in
  let* quoteCurrencyId := get_or (id_set q) "MARKET_CURRENCY_NOT_FOUND" in
  let decimals := c ← find (λ c, bool_decide (Some (cr_id c) = m_quote_currency m)) cs; cr_decimals c in
  ret (MarketAssets (m_base m) (m_quote m) baseCurrencyId quoteCurrencyId
         (default 8 (m_price_precision m)) (default 8 (m_qty_precision m)) (default 8 decimals)).

(** ** Amounts and ledger deltas *)
Record trade_amounts := TradeAmounts {
  am_price : Z; am_qty : Z; am_tradeVal : Z; am_takerFee : Z; am_makerFee : Z;
}.
Record delta_line := DeltaLine { dl_user : string; dl_asset : string; dl_delta : Z }.

Section Amounts.
Context `{DecimalJs, Runtime}.

(** [new Decimal(s)] where the result is used as a finite number. *)
Definition decimal_of {S} (s : string) : M S decval :=
  get_or (parse_decimal s) "[DecimalError] Invalid argument".
Definition fin (v : decval) : Z := match v with Fin x => x | NonFinite => 0 end.

(** Precision: price to [price_precision], quantity to [qty_precision], trade value and
    fees to [quote_precision], each rounded down. *)
Definition amounts_of (m : market_assets) (p q : Z) : trade_amounts :=
  let tradeVal := toDP (quote_precision m) (tradeValue p q) in
  TradeAmounts (toDP (price_precision m) p) (toDP (qty_precision m) q) tradeVal
    (toDP (quote_precision m) (takerFee tradeVal)) (toDP (quote_precision m) (makerFee tradeVal)).

Definition maker_net_credit (m : market_assets) (a : trade_amounts) (rebates : bool) : Z :=
  toDP (quote_precision m)
    (if rebates then dplus (am_tradeVal a) (am_makerFee a) else dminus (am_tradeVal a) (am_makerFee a)).
Definition taker_net_credit (m : market_assets) (a : trade_amounts) : Z :=
  toDP (quote_precision m) (dminus (am_tradeVal a) (am_takerFee a)).

(** [computeSettlementLedgerDeltasFromPayload] of [settlement-ledger-deltas.ts] *)
Definition ledger_deltas (p : EnginePayload) (m : market_assets) (a : trade_amounts)
    (makerRebatesEnabled : bool) : list delta_line :=
  let takerId := taker_user_id p in
  let makerId := maker_user_id p in
  match taker_side p with
  | Buy =>
      [DeltaLine takerId (base m) (am_qty a);
       DeltaLine takerId (quote m) (dminus (- am_tradeVal a) (am_takerFee a));
       DeltaLine makerId (base m) (- am_qty a);
       DeltaLine makerId (quote m) (maker_net_credit m a makerRebatesEnabled)]
  | Sell =>
      [DeltaLine takerId (base m) (- am_qty a);
       DeltaLine takerId (quote m) (taker_net_credit m a);
       DeltaLine makerId (base m) (am_qty a);
       DeltaLine makerId (quote m) (dminus (- am_tradeVal a) (am_makerFee a))]
  end.

Definition computeSettlementLedgerDeltasFromPayload (p : EnginePayload) (m : market_assets)
    (makerRebatesEnabled : bool) : option (list delta_line) :=
  pr ← parse_decimal (price p);
  q ← parse_decimal (qty p);
  Some (ledger_deltas p m (amounts_of m (fin pr) (fin q)) makerRebatesEnabled).
End Amounts.

(** ** Hashes *)
Definition LEDGER_ENTRY_DOMAIN : string := "ledger_entry_v1".
Definition SETTLEMENT_EVENT_DOMAIN : string := "settlement_event_v1".
Definition QUOTE : string := String (ascii_of_nat 34) "".
Definition BACKSLASH : string := String (ascii_of_nat 92) "".
Definition NEWLINE : string := String (ascii_of_nat 10) "".

Fixpoint join (sep : string) (l : list string) : string :=
  match l with
  | [] => ""
  | [x] => x
  | x :: l' => x +:+ sep +:+ join sep l'
  end.

(** [JSON.stringify] of a string without control characters *)
Fixpoint json_escape (s : string) : string :=
  match s with
  | "" => ""
  | String a s' =>
      (if Ascii.eqb a (ascii_of_nat 34) || Ascii.eqb a (ascii_of_nat 92)
       then BACKSLASH +:+ String a "" else String a "") +:+ json_escape s'
  end.
Definition json_quote (s : string) : string := QUOTE +:+ json_escape s +:+ QUOTE.
Definition json_number (n : jsnum) : string :=
  match n with Some z => pretty z | None => "null" end.

(** [JSON.stringify] of the payload's keys, sorted, each with its value *)
Definition payload_canonical (p : EnginePayload) : string :=
  let pair k v := "[" +:+ json_quote k +:+ "," +:+ v +:+ "]" in
  "[" +:+ join ","
    [pair "event_id" (json_number (event_id p));
     pair "maker_order_id" (json_quote (maker_order_id p));
     pair "maker_user_id" (json_quote (maker_user_id p));
     pair "match_engine_id" (match p_match_engine_id p with Some s => json_quote s | None => "null" end);
     pair "price" (json_quote (price p));
     pair "qty" (json_quote (qty p));
     pair "symbol" (json_quote (symbol p));
     pair "taker_order_id" (json_quote (taker_order_id p));
     pair "taker_side" (json_quote (side_text (taker_side p)));
     pair "taker_user_id" (json_quote (taker_user_id p));
     pair "timestamp" (json_number (timestamp p))] +:+ "]".

Section Hashes.
Context `{Runtime}.

Definition entry_hash (prev : option string) (eventId : Z) (l : delta_line) : string :=
  sha256 (join "|" [LEDGER_ENTRY_DOMAIN; default "" prev; pretty eventId; dl_user l; dl_asset l;
                    toNumeric (dl_delta l)]).

(** The rows the deltas become, each chained to the one before it. *)
Fixpoint chain_entries (prev : option string) (eventId : Z) (ls : list delta_line) : list ledger_row :=
  match ls with
  | [] => []
  | l :: ls' =>
      let h := entry_hash prev eventId l in
      LedgerRow eventId (dl_user l) (dl_asset l) (dl_delta l) prev h
        :: chain_entries (Some h) eventId ls'
  end.

Definition event_hash (p : EnginePayload) (tradeVal takerFee makerFee : Z) (lines : string) : string :=
  sha256 (join "|" [SETTLEMENT_EVENT_DOMAIN; payload_canonical p; toNumeric tradeVal;
                    toNumeric takerFee; toNumeric makerFee; lines]).

(** The lines of the hash when the event settles: sorted by user, then asset. *)
Definition delta_le (a b : delta_line) : bool :=
  if String.eqb (dl_user a) (dl_user b) then locale_le (dl_asset a) (dl_asset b)
  else locale_le (dl_user a) (dl_user b).
Definition delta_text (l : delta_line) : string :=
  join "|" [dl_user l; dl_asset l; toNumeric (dl_delta l)].
Definition settle_lines (ls : list delta_line) : string :=
  join NEWLINE (map delta_text (sort_by delta_le ls)).

(** The lines of the hash when the ledger rows already exist: sorted as whole texts. *)
Definition replay_lines (rows : list ledger_row) : string :=
  join NEWLINE (sort_by (λ a b, String.leb a b)
    (map (λ r, delta_text (DeltaLine (lr_user r) (lr_asset r) (lr_delta r))) rows)).
End Hashes.

(** ** The spot tables *)
Record SpotTradesShape := SpotTradesShapeOf {
  hasMarket : bool; hasTradingPairId : bool; hasUserId : bool; hasOrderId : bool;
  hasMakerUserId : bool; hasTakerUserId : bool; hasMakerOrderId : bool; hasTakerOrderId : bool;
  hasTakerSide : bool; hasFeeAsset : bool; hasFee : bool;
  columns : list string;
}.
Definition has_column (s : SpotTradesShape) (c : string) : bool := bool_decide (c ∈ columns s).

Definition filled_order (useUnified : bool) (fillQty : Z) (o : spot_order) : spot_order :=
  let full := (so_quantity o - so_filled o - fillQty <=? 0) in
  SpotOrder (so_quantity o) (so_filled o + fillQty)
    (if useUnified then so_remaining o
     else Some (Z.max 0 (default (so_quantity o) (so_remaining o) - fillQty)))
    (if useUnified then if full then "FILLED" else "PARTIALLY_FILLED"
     else if full then "filled" else "partially_filled").

Definition fill_order (useUnified : bool) (fillQty : Z) (id : string) : M settle_db unit :=
  let* cur := gets (λ d, spot_orders d !! id) in
  let* o := get_or cur "ORDER_INVARIANT_VIOLATION" in
  modify (λ d, set_spot_orders (<[id := filled_order useUnified fillQty o]> (spot_orders d)) d).

Definition updateSpotOrdersFilledAfterMatch (useUnified : bool) (fillQty : Z)
    (takerOrderId makerOrderId : string) : M settle_db unit :=
  fill_order useUnified fillQty takerOrderId ;;;
  fill_order useUnified fillQty makerOrderId.

Record spot_args := SpotArgs {
  sa_fillQty : Z; sa_price : Z; sa_buyerId : string; sa_sellerId : string;
  sa_buyerOrderId : string; sa_sellerOrderId : string; sa_buyerFee : Z; sa_sellerFee : Z;
  sa_takerFee : Z; sa_makerFee : Z; sa_quoteAsset : string; sa_quoteAmount : Z;
  sa_quoteCurrencyId : string;
}.

(** The two legs of a trade, buyer first. *)
Definition insert_legs (withOrder : bool) (market : string) (fee feeAsset : bool) (a : spot_args) :
    M settle_db unit :=
  let leg order user sd f :=
    append_spot_trade (LegRow (if withOrder then Some order else None) user market sd (sa_price a)
      (sa_fillQty a) (if fee then Some f else None)
      (if feeAsset then Some (sa_quoteAsset a) else None)) in
  modify (leg (sa_buyerOrderId a) (sa_buyerId a) "buy" (sa_buyerFee a)) ;;;
  modify (leg (sa_sellerOrderId a) (sa_sellerId a) "sell" (sa_sellerFee a)).

(** [full-schema.sql]: one row with the quote amount. *)
Definition shape_full (s : SpotTradesShape) : bool :=
  has_column s "quote_amount" && hasTradingPairId s && hasMakerUserId s && hasTakerUserId s
  && hasMakerOrderId s && hasTakerOrderId s && negb (hasUserId s)
  && has_column s "maker_fee_currency_id" && has_column s "taker_fee_currency_id".

Definition insertSpotTradesAfterMatch (s : SpotTradesShape) (p : EnginePayload) (a : spot_args) :
    M settle_db unit :=
  if hasMarket s && hasUserId s && hasOrderId s then
    let f := hasFee s && hasFeeAsset s in insert_legs true (symbol p) f f a
  else
    let* tp := gets (λ d, trading_pairs d !! symbol p) in
    let* tradingPairId := get_or tp "TRADING_PAIR_NOT_FOUND_FOR_SYMBOL" in
    let match_row qa sd mf tf cur :=
      append_spot_trade (MatchRow tradingPairId (maker_order_id p) (taker_order_id p)
        (maker_user_id p) (taker_user_id p) (sa_price a) (sa_fillQty a) qa sd mf tf cur) in
    let side := Some (side_text (taker_side p)) in
    if shape_full s then
      require (has_column s "side" || hasTakerSide s)
        "SPOT_TRADES_SCHEMA_UNSUPPORTED: quote_amount row requires side or taker_side column" ;;;
      modify (match_row (Some (sa_quoteAmount a)) side (Some (sa_makerFee a)) (Some (sa_takerFee a))
                (Some (sa_quoteCurrencyId a)))
    else if hasMakerUserId s && hasTakerUserId s && negb (hasUserId s) then
      modify (match_row None (if hasTakerSide s then side else None)
                (if has_column s "maker_fee" then Some (sa_makerFee a) else None)
                (if has_column s "taker_fee" then Some (sa_takerFee a) else None) None)
    else if hasUserId s && hasTradingPairId s && negb (hasOrderId s) then
      insert_legs false tradingPairId (hasFee s) (hasFee s && hasFeeAsset s) a
    else throw "SPOT_TRADES_SCHEMA_UNSUPPORTED: cannot insert trades".

(** ** [processSettlementEventRow] *)
Record SettlementRow := SettlementRowOf {
  row_id : Z; row_engine_event_id : Z; row_match_engine_id : string; row_payload : EnginePayload;
}.

(** The configuration: [features.makerRebatesEnabled], the layout of the spot tables,
    and the id [crypto.randomUUID()] gives. *)
Record settle_env := SettleEnv {
  makerRebatesEnabled : bool;
  spotOrdersUnified : bool;
  spotTradesShape : SpotTradesShape;
  ledgerRefId : string;
}.

(** What the caller is given to notify the live book. *)
Record EngineLiveNotifyPayload := LiveNotify {
  ln_engine : string; ln_event : Z; ln_payload : EnginePayload;
  ln_base : string; ln_quote : string; ln_quoteValue : Z; ln_quote_precision : Z;
}.

(** [String(s).toLowerCase().replace(/-/g, '')] *)
Fixpoint drop_dashes (s : string) : string :=
  match s with
  | "" => ""
  | String a s' => if Ascii.eqb a "-"%char then drop_dashes s' else String a (drop_dashes s')
  end.
Definition norm (s : string) : string := drop_dashes (lower s).

(** The rows locked by SELECT ... FOR UPDATE: user, currency, available, locked. *)
Record locked_row := LockedRow {
  lk_user : string; lk_currency : string; lk_available : Z; lk_locked : Z;
}.

(** The new state of one account: [updates] of the code. *)
Record balance_update := BalanceUpdate {
  bu_user : string; bu_asset : string; bu_currency : string; bu_available : Z; bu_locked : Z;
}.

(** [{ [base]: base_currency_id, [quote]: quote_currency_id }] *)
Definition assetToCurrency (m : market_assets) (asset : string) : option string :=
  if String.eqb asset (quote m) then Some (quote_currency_id m)
  else if String.eqb asset (base m) then Some (base_currency_id m) else None.

Section Process.
Context `{DecimalJs, Runtime}.

Definition settlement_amounts {S} (p : EnginePayload) (m : market_assets) : M S trade_amounts :=
  let* pr := decimal_of (price p) in
  let* q := decimal_of (qty p) in
  assertValidDecimal "settlement_price" pr ;;;
  assertValidDecimal "settlement_qty" q ;;;
  assertNonNegative "settlement_qty" q ;;;
  ret (amounts_of m (fin pr) (fin q)).

(** taker_fee + maker_fee <= trade_value; with rebates, taker_fee <= trade_value. *)
Definition check_fees {S} (rebates : bool) (a : trade_amounts) : M S unit :=
  if rebates then require (negb (am_tradeVal a <? am_takerFee a)) "FEE_INVARIANT_VIOLATION"
  else require (negb (am_tradeVal a <? dplus (am_takerFee a) (am_makerFee a))) "FEE_INVARIANT_VIOLATION".

Definition check_parties (p : EnginePayload) : M settle_db unit :=
  let takerId := taker_user_id p in
  let makerId := maker_user_id p in
  require (negb (String.eqb (norm takerId) (norm makerId))) "SELF_TRADE_REJECTED" ;;;
  let* usersOk := gets (λ d, bool_decide (takerId ∈ sd_users d) && bool_decide (makerId ∈ sd_users d)) in
  require usersOk "SETTLEMENT_USER_NOT_FOUND".

(** The (user, asset) pairs of the trade, once each, in the order they are locked. *)
Definition pair_le (a b : string * string) : bool :=
  if String.eqb (fst a) (fst b) then locale_le (snd a) (snd b) else locale_le (fst a) (fst b).
Definition unique_pairs (p : EnginePayload) (m : market_assets) : list (string * string) :=
  sort_by pair_le (dedup_by (λ x, fst x +:+ ":" +:+ snd x) []
    [(taker_user_id p, base m); (taker_user_id p, quote m);
     (maker_user_id p, base m); (maker_user_id p, quote m)]).

Definition ensure_pairs (m : market_assets) (pairs : list (string * string)) : M balances unit :=
  foreach pairs (λ x, match assetToCurrency m (snd x) with
                      | Some currencyId => ensureUserBalanceRow (trading_key (fst x) currencyId)
                      | None => ret tt
                      end).

Definition lock_rows (m : market_assets) (pairs : list (string * string)) (s : balances) :
    list locked_row :=
  omap (λ x, currencyId ← assetToCurrency m (snd x);
             r ← user_balances s !! trading_key (fst x) currencyId;
             Some (LockedRow (fst x) currencyId (available_balance r) (locked_balance r))) pairs.

(** [getBal]: available and locked of the locked row, zero when there is none. *)
Definition getBal (m : market_assets) (rows : list locked_row) (userId asset : string) : Z * Z :=
  match find (λ r, String.eqb (lk_user r) userId
                   && bool_decide (Some (lk_currency r) = assetToCurrency m asset)) rows with
  | Some r => (lk_available r, lk_locked r)
  | None => (0, 0)
  end.

Definition check_locked {S} (p : EnginePayload) (m : market_assets) (a : trade_amounts)
    (bal : string → string → Z * Z) : M S unit :=
  let takerId := taker_user_id p in
  let makerId := maker_user_id p in
  match taker_side p with
  | Buy => require (negb ((snd (bal takerId (quote m)) <? am_tradeVal a)
                          || (snd (bal makerId (base m)) <? am_qty a))) "INSUFFICIENT_LOCKED_FUNDS"
  | Sell => require (negb ((snd (bal takerId (base m)) <? am_qty a)
                           || (snd (bal makerId (quote m)) <? am_tradeVal a))) "INSUFFICIENT_LOCKED_FUNDS"
  end.

Definition check_fee_funds {S} (rebates : bool) (p : EnginePayload) (m : market_assets)
    (a : trade_amounts) (bal : string → string → Z * Z) : M S unit :=
  let takerQuoteAvail := fst (bal (taker_user_id p) (quote m)) in
  let makerQuoteAvail := fst (bal (maker_user_id p) (quote m)) in
  match taker_side p with
  | Buy =>
      require (negb (takerQuoteAvail <? am_takerFee a)) "INSUFFICIENT_FUNDS_FOR_FEE" ;;;
      require (negb (negb rebates && (dplus makerQuoteAvail (am_tradeVal a) <? am_makerFee a)))
        "INSUFFICIENT_FUNDS_FOR_FEE"
  | Sell =>
      require (negb (dplus takerQuoteAvail (am_tradeVal a) <? am_takerFee a))
        "INSUFFICIENT_FUNDS_FOR_FEE" ;;;
      require (negb (negb rebates && (makerQuoteAvail <? am_makerFee a))) "INSUFFICIENT_FUNDS_FOR_FEE"
  end.

Definition balance_updates (rebates : bool) (p : EnginePayload) (m : market_assets)
    (a : trade_amounts) (bal : string → string → Z * Z) : list balance_update :=
  let takerId := taker_user_id p in
  let makerId := maker_user_id p in
  let '(tbA, tbL) := bal takerId (base m) in
  let '(tqA, tqL) := bal takerId (quote m) in
  let '(mbA, mbL) := bal makerId (base m) in
  let '(mqA, mqL) := bal makerId (quote m) in
  let upd u asset cur av lk := BalanceUpdate u asset cur av lk in
  match taker_side p with
  | Buy =>
      [upd takerId (base m) (base_currency_id m) (dplus tbA (am_qty a)) tbL;
       upd takerId (quote m) (quote_currency_id m) (dminus tqA (am_takerFee a))
         (dminus tqL (am_tradeVal a));
       upd makerId (base m) (base_currency_id m) mbA (dminus mbL (am_qty a));
       upd makerId (quote m) (quote_currency_id m) (dplus mqA (maker_net_credit m a rebates)) mqL]
  | Sell =>
      [upd takerId (base m) (base_currency_id m) tbA (dminus tbL (am_qty a));
       upd takerId (quote m) (quote_currency_id m) (dplus tqA (taker_net_credit m a)) tqL;
       upd makerId (base m) (base_currency_id m) (dplus mbA (am_qty a)) mbL;
       upd makerId (quote m) (quote_currency_id m) (dminus mqA (am_makerFee a))
         (dminus mqL (am_tradeVal a))]
  end.

Definition event_rows (eventId : Z) (l : list ledger_row) : list ledger_row :=
  filter (λ r, lr_event r = eventId) l.
Definition last_hash (l : list ledger_row) : option string := lr_entry_hash <$> last l.

(** The rows of the event against the ones just computed. *)
Fixpoint chain_matches (prev : option string) (inserted expected : list ledger_row) : bool :=
  match inserted, expected with
  | [], [] => true
  | r :: rs, e :: es =>
      bool_decide (lr_prev_hash r = prev) && negb (String.eqb (lr_entry_hash r) "")
      && String.eqb (lr_user r) (lr_user e) && String.eqb (lr_asset r) (lr_asset e)
      && String.eqb (toNumeric (lr_delta r)) (toNumeric (lr_delta e))
      && String.eqb (lr_entry_hash r) (lr_entry_hash e)
      && chain_matches (Some (lr_entry_hash r)) rs es
  | _, _ => false
  end.

(** Ledger first: append the chained rows, and read them back. *)
Definition write_ledger (eventId : Z) (deltas : list delta_line) : M settle_db unit :=
  require (negb (bool_decide (deltas = []))) "LEDGER_CONSISTENCY_VIOLATION" ;;;
  let* prev := gets (λ d, last_hash (ledger d)) in
  let chain := chain_entries prev eventId deltas in
  foreach chain (λ ce, modify (append_ledger ce)) ;;;
  let* inserted := gets (λ d, event_rows eventId (ledger d)) in
  require (chain_matches prev inserted chain) "LEDGER_CHAIN_VIOLATION".

(** The [balance_ledger] lines of one update, for the buckets that change. *)
Definition mirror_update (ref : string) (bal : string → string → Z * Z) (u : balance_update) :
    M balances unit :=
  let '(oldA, oldL) := bal (bu_user u) (bu_asset u) in
  let entry d bt before after :=
    insertBalanceLedger (trading_entry (bu_user u) (bu_currency u)
      (if d <? 0 then Z.abs d else 0) (if 0 <? d then d else 0) before after "adjustment" ref bt) in
  let dAvail := dminus (bu_available u) oldA in
  let dLock := dminus (bu_locked u) oldL in
  (if negb (dAvail =? 0) then entry dAvail Available oldA (bu_available u) else ret tt) ;;;
  (if negb (dLock =? 0) then entry dLock Locked oldL (bu_locked u) else ret tt).

Definition apply_update (u : balance_update) : M balances unit :=
  require (negb ((bu_available u <? 0) || (bu_locked u <? 0)))
    "Settlement would result in negative balance" ;;;
  let* updResult := update_balance (trading_key (bu_user u) (bu_currency u)) (λ _, true)
    (λ r, UserBalance (bu_available u) (bu_locked u) (pending_balance r) (escrow_balance r)
            (total_deposited r)) in
  let* r := get_or updResult "MISSING_BALANCE_ROW_FOR_LOCKED_DEBIT" in
  assertBalanceInvariant r.

Definition event_processed (h : string) (e : settlement_event) : settlement_event :=
  SettlementEvent (ev_engine e) (ev_engine_event e) (ev_payload e) EvProcessed (ev_retry_count e)
    (Some h) (ev_last_error e).
Definition update_event (id : Z) (f : settlement_event → settlement_event) : M settle_db unit :=
  modify (λ d, set_events (alter f id (events d)) d).

(** The ledger rows exist already: only recompute the hash and mark processed. *)
Definition replay_row (env : settle_env) (row : SettlementRow) : M settle_db unit :=
  let p := row_payload row in
  let* m := resolveMarketAssets (symbol p) in
  let* pr := decimal_of (price p) in
  let* q := decimal_of (qty p) in
  let a := amounts_of m (fin pr) (fin q) in
  let* rows := gets (λ d, event_rows (row_id row) (ledger d)) in
  let makerFee := if makerRebatesEnabled env then - am_makerFee a else am_makerFee a in
  update_event (row_id row)
    (event_processed (event_hash p (am_tradeVal a) (am_takerFee a) makerFee (replay_lines rows))).

Definition maker_fee_recorded (env : settle_env) (a : trade_amounts) : Z :=
  if makerRebatesEnabled env then - am_makerFee a else am_makerFee a.

Definition spot_args_of (env : settle_env) (p : EnginePayload) (m : market_assets)
    (a : trade_amounts) : spot_args :=
  let mf := maker_fee_recorded env a in
  match taker_side p with
  | Buy => SpotArgs (am_qty a) (am_price a) (taker_user_id p) (maker_user_id p) (taker_order_id p)
             (maker_order_id p) (am_takerFee a) mf (am_takerFee a) mf (quote m) (am_tradeVal a)
             (quote_currency_id m)
  | Sell => SpotArgs (am_qty a) (am_price a) (maker_user_id p) (taker_user_id p) (maker_order_id p)
             (taker_order_id p) mf (am_takerFee a) (am_takerFee a) mf (quote m) (am_tradeVal a)
             (quote_currency_id m)
  end.

(** What follows the balance updates: the hash, the trade, the orders, the event. *)
Definition record_trade (env : settle_env) (row : SettlementRow) (m : market_assets)
    (a : trade_amounts) (deltas : list delta_line) : M settle_db unit :=
  let p := row_payload row in
  let h := event_hash p (am_tradeVal a) (am_takerFee a) (maker_fee_recorded env a)
             (settle_lines deltas) in
  let* ev := gets (λ d, events d !! row_id row) in
  let existingHash := e ← ev; ev_hash e in
  require (bool_decide (existingHash = None) || bool_decide (existingHash = Some h))
    "SETTLEMENT_HASH_MISMATCH" ;;;
  modify (append_trade (SettlementTrade (symbol p) (am_price a) (am_qty a) (am_tradeVal a)
    (taker_user_id p) (maker_user_id p) (taker_order_id p) (maker_order_id p) (am_takerFee a)
    (maker_fee_recorded env a))) ;;;
  updateSpotOrdersFilledAfterMatch (spotOrdersUnified env) (am_qty a) (taker_order_id p)
    (maker_order_id p) ;;;
  insertSpotTradesAfterMatch (spotTradesShape env) p (spot_args_of env p m a) ;;;
  update_event (row_id row) (event_processed h).

(** The balances part: lock the rows, check them, write the ledgers, update the rows. *)
Definition move_funds (env : settle_env) (row : SettlementRow) (m : market_assets)
    (a : trade_amounts) : M settle_db unit :=
  let p := row_payload row in
  let rebates := makerRebatesEnabled env in
  let pairs := unique_pairs p m in
  zoom (ensure_pairs m pairs) ;;;
  let* rows := gets (λ d, lock_rows m pairs (sd_balances d)) in
  let bal := getBal m rows in
  check_locked p m a bal ;;;
  check_fee_funds rebates p m a bal ;;;
  let updates := balance_updates rebates p m a bal in
  write_ledger (row_id row) (ledger_deltas p m a rebates) ;;;
  zoom (foreach updates (mirror_update (ledgerRefId env) bal)) ;;;
  zoom (foreach updates apply_update).

Definition processSettlementEventRow (env : settle_env) (row : SettlementRow) :
    M settle_db (option EngineLiveNotifyPayload) :=
  let p := row_payload row in
  let* existing := gets (λ d, event_rows (row_id row) (ledger d)) in
  if negb (bool_decide (existing = [])) then replay_row env row ;;; ret None
  else
    let* m := resolveMarketAssets (symbol p) in
    let* a := settlement_amounts p m in
    check_fees (makerRebatesEnabled env) a ;;;
    check_parties p ;;;
    move_funds env row m a ;;;
    record_trade env row m a (ledger_deltas p m a (makerRebatesEnabled env)) ;;;
    ret (Some (LiveNotify
      (if negb (String.eqb (row_match_engine_id row) "") then row_match_engine_id row
       else default "default" (p_match_engine_id p))
      (row_engine_event_id row) p (base m) (quote m) (am_tradeVal a) (quote_precision m))).
End Process.
