(* ===== verification/Settlement.v ===== *)
(** * Settlement of one event: theorems

    What [processSettlementEventRow] does to the balances, the ledger and the trade
    tables, and that it does it once. *)
From stdpp Require Import base gmap strings list fin_maps pretty.
From Stdlib Require Import ZArith Lia Ascii.
From S2P Require Import Prelude Money Balances Escrow Halt SettlementModel.
Local Open Scope Z_scope.

(** ** Account movements

    The specification of a settlement: a list of exact changes to the available and
    locked parts of trading accounts. *)
Record movement := Movement { mv_key : bal_key; mv_available : Z; mv_locked : Z }.

Definition at_key (k : bal_key) (f : movement → Z) (x : movement) : Z :=
  if decide (mv_key x = k) then f x else 0.
Definition moved (ms : list movement) (k : bal_key) (r : user_balance) : user_balance :=
  add_buckets r (lsum (at_key k mv_available) ms) (lsum (at_key k mv_locked) ms) 0 0 0.
Definition in_currency (c : string) (x : movement) : Z :=
  if String.eqb (currency_id (mv_key x)) c then mv_available x + mv_locked x else 0.

Lemma add_buckets_0 r : add_buckets r 0 0 0 0 0 = r.
Proof. destruct r. unfold add_buckets. simpl. f_equal; lia. Qed.

Lemma moved_absent ms k r : (∀ x, x ∈ ms → mv_key x ≠ k) → moved ms k r = r.
Proof.
  intros Hk. unfold moved.
  rewrite !lsum_0; [apply add_buckets_0| |];
    intros i x Hx; unfold at_key; rewrite decide_False; try done;
    by apply Hk, list_elem_of_lookup_2 with i.
Qed.

(** ** Running the parts *)
Definition same_rows (b b' : balances) : Prop :=
  (∀ k, row_of k b' = row_of k b) ∧ balance_ledger b' = balance_ledger b
  ∧ (∀ c, funds c b' = funds c b) ∧ (balances_wf b → balances_wf b')
  ∧ (∀ k r, user_balances b !! k = Some r → user_balances b' !! k = Some r).

Lemma same_rows_ensured b b' k : same_rows b b' → same_rows b (ensured k b').
Proof.
  intros (Hr & Hl & Hf & Hw & Hm). repeat split.
  - intros k'. rewrite row_of_ensured. apply Hr.
  - done.
  - intros c. rewrite funds_ensured. apply Hf.
  - intros Hwf. by apply wf_ensured, Hw.
  - intros k' r Hk'. by apply ensured_lookup_mono, Hm.
Qed.

Lemma ensure_pairs_spec m pairs b0 b b' :
  same_rows b0 b → ensure_pairs m pairs b = Ret (tt, b') →
  same_rows b0 b' ∧ (∀ k r, user_balances b !! k = Some r → user_balances b' !! k = Some r) ∧
  ∀ x c, x ∈ pairs → assetToCurrency m (snd x) = Some c →
    user_balances b' !! trading_key (fst x) c = Some (row_of (trading_key (fst x) c) b0).
Proof.
  unfold ensure_pairs. revert b. induction pairs as [|x pairs IH]; intros b Hsame Hrun.
  { simpl in Hrun. run_all Hrun. split; [done|]. split; [done|]. set_solver. }
  simpl in Hrun. apply bind_Ret_inv in Hrun as ([] & b1 & H1 & Hrun).
  assert (same_rows b0 b1 ∧ (∀ k r, user_balances b !! k = Some r → user_balances b1 !! k = Some r)
    ∧ ∀ c, assetToCurrency m (snd x) = Some c →
        user_balances b1 !! trading_key (fst x) c = Some (row_of (trading_key (fst x) c) b0))
    as (Hs1 & Hm1 & Hx1).
  { destruct (assetToCurrency m (snd x)) as [c|] eqn:Ec.
    - rewrite ensure_run in H1. injection H1 as <-.
      split; [by apply same_rows_ensured|]. split; [intros; by apply ensured_lookup_mono|].
      intros c' [= <-]. rewrite ensured_lookup. f_equal. apply Hsame.
    - apply ret_inv in H1 as [_ ->]. done. }
  destruct (IH b1 Hs1 Hrun) as (Hs & Hm & Hx). split; [done|]. split; [eauto|].
  intros y c Hy Hc. apply elem_of_cons in Hy as [->|Hy]; eauto.
Qed.

Lemma same_rows_refl b : same_rows b b.
Proof. by repeat split. Qed.

(** What [getBal] reads is the row of the account. *)
Lemma getBal_row m pairs b b0 u x c :
  (∀ y c, y ∈ pairs → assetToCurrency m (snd y) = Some c →
     user_balances b !! trading_key (fst y) c = Some (row_of (trading_key (fst y) c) b0)) →
  (u, x) ∈ pairs → assetToCurrency m x = Some c →
  getBal m (lock_rows m pairs b) u x
  = (available_balance (row_of (trading_key u c) b0), locked_balance (row_of (trading_key u c) b0)).
Proof.
  intros Hrows Hin Hc. unfold getBal.
  set (test := λ r, String.eqb (lk_user r) u
                    && bool_decide (Some (lk_currency r) = assetToCurrency m x)).
  set (row := LockedRow u c (available_balance (row_of (trading_key u c) b0))
                (locked_balance (row_of (trading_key u c) b0))).
  assert (∀ r, r ∈ lock_rows m pairs b → test r = true → r = row) as Huniq.
  { intros r Hr Ht. unfold lock_rows in Hr. apply list_elem_of_omap in Hr as ([u' x'] & Hy & Hr).
    simpl in Hr. destruct (assetToCurrency m x') as [c'|] eqn:Ec'; [|done]. simpl in Hr.
    pose proof (Hrows _ _ Hy Ec') as Hl. simpl in Hl. rewrite Hl in Hr. simpl in Hr. injection Hr as <-.
    unfold test in Ht. simpl in Ht. bool_prop. subst u'. rewrite Hc in *. by simplify_eq. }
  assert (row ∈ lock_rows m pairs b) as Hrow.
  { unfold lock_rows. apply list_elem_of_omap. exists (u, x). split; [done|]. simpl.
    rewrite Hc. simpl. pose proof (Hrows _ _ Hin Hc) as Hl. simpl in Hl. by rewrite Hl. }
  assert (test row = true) as Htest.
  { unfold test, row; simpl. rewrite String.eqb_refl, Hc. by rewrite bool_decide_eq_true_2. }
  destruct (find test _) as [r|] eqn:Hf.
  - apply List.find_some in Hf as [Hr Ht]. apply list_elem_of_In in Hr.
    by rewrite (Huniq r Hr Ht).
  - apply list_elem_of_In in Hrow. pose proof (List.find_none _ _ Hf _ Hrow). congruence.
Qed.

Lemma update_balance_all_inv k f b o b' :
  update_balance k (λ _, true) f b = Ret (o, b') →
  (∃ r, user_balances b !! k = Some r ∧ o = Some (f r) ∧ b' = put_row k (f r) b)
  ∨ (o = None ∧ b' = b).
Proof.
  unfold update_balance, select_balance. intros Hrun.
  apply bind_Ret_inv in Hrun as (sel & b1 & H1 & Hrun). apply gets_inv in H1 as [-> ->].
  destruct (user_balances b !! k) as [r|]; run_all Hrun; eauto.
Qed.

Lemma apply_update_inv u b b' :
  apply_update u b = Ret (tt, b') →
  ∃ r, user_balances b !! trading_key (bu_user u) (bu_currency u) = Some r ∧
    let r' := UserBalance (bu_available u) (bu_locked u) (pending_balance r) (escrow_balance r)
                (total_deposited r) in
    row_nonneg r' = true ∧ b' = put_row (trading_key (bu_user u) (bu_currency u)) r' b.
Proof.
  unfold apply_update, assertBalanceInvariant. intros Hrun.
  apply bind_Ret_inv in Hrun as (? & ? & H1 & Hrun). apply require_inv in H1 as [_ ->].
  apply bind_Ret_inv in Hrun as (o & b1 & H1 & Hrun).
  apply bind_Ret_inv in Hrun as (r & b2 & H2 & Hrun). apply get_or_inv in H2 as [-> ->].
  apply require_inv in Hrun as [Hnn ->].
  apply update_balance_all_inv in H1 as [(r0 & Hr0 & [= ->] & ->)|[[=] _]]. by exists r0.
Qed.

Definition update_key (u : balance_update) : bal_key := trading_key (bu_user u) (bu_currency u).

(** Writing computed balances is moving their differences. *)
Definition update_moves (b : balances) (u : balance_update) (x : movement) : Prop :=
  update_key u = mv_key x
  ∧ bu_available u = available_balance (row_of (mv_key x) b) + mv_available x
  ∧ bu_locked u = locked_balance (row_of (mv_key x) b) + mv_locked x.

Lemma apply_updates_effect b0 us ms b b' :
  Forall2 (update_moves b0) us ms → NoDup (map mv_key ms) →
  (∀ x, x ∈ ms → row_of (mv_key x) b = row_of (mv_key x) b0) →
  foreach us apply_update b = Ret (tt, b') →
  (∀ k, row_of k b' = moved ms k (row_of k b)) ∧ balance_ledger b' = balance_ledger b ∧
  (∀ c, funds c b' = funds c b + lsum (in_currency c) ms).
Proof.
  intros Hall. revert b. induction Hall as [|u x us ms (Hk & Ha & Hl) Hall IH]; intros b Hnd Hb Hrun.
  { simpl in Hrun. run_all Hrun.
    split; [intros k; symmetry; apply add_buckets_0|]. split; [done|]. intros c. simpl. lia. }
  simpl in Hnd. apply NoDup_cons in Hnd as [Hnin Hnd].
  simpl in Hrun. apply bind_Ret_inv in Hrun as ([] & b1 & H1 & Hrun).
  apply apply_update_inv in H1 as (r & Hr & _ & ->).
  change (trading_key (bu_user u) (bu_currency u)) with (update_key u) in *. rewrite Hk in *.
  assert (row_of (mv_key x) b = r) as Hrow by (by apply row_of_known).
  assert (row_of (mv_key x) b0 = r) as Hrow0 by (rewrite <- Hb; [done|set_solver]).
  rewrite Hrow0 in Ha, Hl. rewrite Ha, Hl in Hrun.
  change (UserBalance _ _ _ _ _) with
    (UserBalance (available_balance r + mv_available x) (locked_balance r + mv_locked x)
       (pending_balance r) (escrow_balance r) (total_deposited r)) in Hrun.
  set (r' := UserBalance (available_balance r + _) _ _ _ _) in *.
  assert (r' = add_buckets r (mv_available x) (mv_locked x) 0 0 0) as Hr'
    by (unfold r', add_buckets; f_equal; lia).
  assert (∀ y, y ∈ ms → mv_key x ≠ mv_key y) as Hne.
  { intros y Hy Heq. apply Hnin. rewrite Heq. by apply list_elem_of_fmap_2. }
  unfold put_row in Hrun.
  assert (∀ y, y ∈ ms → row_of (mv_key y) (Balances (<[mv_key x := r']> (user_balances b))
                          (balance_ledger b)) = row_of (mv_key y) b0) as Hb'.
  { intros y Hy. rewrite (row_of_insert_ne _ _ _ _ _ (balance_ledger b)) by auto.
    rewrite <- Hb by set_solver. by destruct b. }
  destruct (IH _ Hnd Hb' Hrun) as (Hrows & Hled & Hfunds). split; [|split].
  - intros k. rewrite Hrows. destruct (decide (mv_key x = k)) as [<-|Hkne].
    + rewrite row_of_insert_eq, moved_absent by (intros y Hy Heq; by apply (Hne y Hy)).
      rewrite Hr', Hrow. unfold moved. simpl. unfold at_key at 1 3. rewrite !decide_True by done.
      f_equal; [|]; rewrite lsum_0; try lia; intros i y Hy; unfold at_key;
        rewrite decide_False; try done; intros Heq; apply (Hne y); try done;
        by apply list_elem_of_lookup_2 with i.
    + rewrite (row_of_insert_ne _ _ _ _ _ (balance_ledger b)) by done.
      unfold moved. simpl. unfold at_key at 3 5. rewrite !decide_False by done. by destruct b.
  - done.
  - intros c. rewrite Hfunds, funds_put, Hrow. simpl. unfold in_currency at 2.
    destruct (String.eqb _ c); [|lia]. unfold worth, r'; simpl. lia.
Qed.

(** ** The mirror in [balance_ledger] *)
Definition ledger_at (b : balances) (u c : string) (bt : balance_type) : Z :=
  ledger_sum ACCOUNT_TYPE u c bt (balance_ledger b).
Definition ledger_running (b : balances) : Prop := running ACCOUNT_TYPE (balance_ledger b).

(** One line for one bucket, when the bucket changes by [d]. *)
Definition mirror_line (u c : string) (d before after : Z) (ref : string) (bt : balance_type) :
    M balances unit :=
  if negb (d =? 0)
  then insertBalanceLedger (trading_entry u c (if d <? 0 then Z.abs d else 0)
         (if 0 <? d then d else 0) before after "adjustment" ref bt)
  else ret tt.

Lemma mirror_line_spec u c d before ref bt b b' :
  ledger_running b → ledger_at b u c bt = before →
  mirror_line u c d before (before + d) ref bt b = Ret (tt, b') →
  user_balances b' = user_balances b ∧ ledger_running b' ∧
  ∀ u' c' bt', ledger_at b' u' c' bt'
    = ledger_at b u' c' bt' + if decide ((u, c) = (u', c') ∧ bt = bt') then d else 0.
Proof.
  intros Hrun Hb Hm. unfold mirror_line in Hm. destruct (Z.eqb_spec d 0) as [->|Hd]; simpl in Hm.
  - apply ret_inv in Hm as [_ ->]. repeat split; [done|]. intros. case_decide; lia.
  - apply modify_inv in Hm as ->.
    assert ((if 0 <? d then d else 0) - (if d <? 0 then Z.abs d else 0) = d) as Hnet
      by (destruct (Z.ltb_spec 0 d), (Z.ltb_spec d 0); lia).
    split; [done|]. split.
    + apply running_one; [done|done| |]; simpl; [by rewrite <- Hb|lia].
    + intros u' c' bt'. unfold ledger_at; simpl. rewrite ledger_sum_snoc, entry_delta_trading.
      case_decide; lia.
Qed.

Definition bucket_move (bt : balance_type) (x : movement) : Z :=
  match bt with Available => mv_available x | Locked => mv_locked x | Pending => 0 end.

Section Mirror.
Context `{DecimalJs}.

Definition mirror_exact (b : balances) (bal : string → string → Z * Z) (u : balance_update)
    (x : movement) : Prop :=
  update_moves b u x
  ∧ bal (bu_user u) (bu_asset u)
    = (available_balance (row_of (mv_key x) b), locked_balance (row_of (mv_key x) b))
  ∧ dminus (bu_available u) (available_balance (row_of (mv_key x) b)) = mv_available x
  ∧ dminus (bu_locked u) (locked_balance (row_of (mv_key x) b)) = mv_locked x.

Lemma mirror_update_lines ref bal u :
  mirror_update ref bal u =
  let '(oldA, oldL) := bal (bu_user u) (bu_asset u) in
  mirror_line (bu_user u) (bu_currency u) (dminus (bu_available u) oldA) oldA (bu_available u) ref Available ;;;
  mirror_line (bu_user u) (bu_currency u) (dminus (bu_locked u) oldL) oldL (bu_locked u) ref Locked.
Proof. unfold mirror_update, mirror_line. by destruct (bal _ _). Qed.

Lemma mirror_update_rows ref bal u b b' :
  mirror_update ref bal u b = Ret (tt, b') → user_balances b' = user_balances b.
Proof.
  rewrite mirror_update_lines. destruct (bal _ _). unfold mirror_line, insertBalanceLedger.
  intros Hm. run_all Hm; simplify_eq; done.
Qed.

Lemma mirror_rows ref bal us b b' :
  foreach us (mirror_update ref bal) b = Ret (tt, b') → user_balances b' = user_balances b.
Proof.
  revert b. induction us as [|u us IH]; intros b Hm; simpl in Hm.
  - by apply ret_inv in Hm as [_ ->].
  - apply bind_Ret_inv in Hm as ([] & b1 & H1 & Hm). apply mirror_update_rows in H1.
    by rewrite (IH _ Hm).
Qed.

Lemma mirror_effect b0 ref bal us ms b b' :
  Forall2 (mirror_exact b0 bal) us ms → NoDup (map mv_key ms) → ledger_running b →
  (∀ x bt, x ∈ ms → bt ≠ Pending →
     ledger_at b (user_id (mv_key x)) (currency_id (mv_key x)) bt = bucket bt (row_of (mv_key x) b0)) →
  foreach us (mirror_update ref bal) b = Ret (tt, b') →
  ledger_running b' ∧
  ∀ u c bt, bt ≠ Pending → ledger_at b' u c bt
    = ledger_at b u c bt + lsum (at_key (trading_key u c) (bucket_move bt)) ms.
Proof.
  intros Hall. revert b.
  induction Hall as [|u x us ms ((Hk & Ha & Hl) & Hbal & HdA & HdL) Hall IH];
    intros b Hnd Hrun Hsum Hm; simpl in Hm.
  { apply ret_inv in Hm as [_ ->]. split; [done|]. intros. simpl. lia. }
  simpl in Hnd. apply NoDup_cons in Hnd as [Hnin Hnd].
  apply bind_Ret_inv in Hm as ([] & b2 & H1 & Hm).
  rewrite mirror_update_lines, Hbal in H1.
  apply bind_Ret_inv in H1 as ([] & b1 & HA & HL). rewrite HdA, Ha in HA. rewrite HdL, Hl in HL.
  assert (user_id (mv_key x) = bu_user u ∧ currency_id (mv_key x) = bu_currency u) as [Hu Hc]
    by (by rewrite <- Hk).
  pose proof (Hsum x Available ltac:(set_solver) ltac:(done)) as HsA.
  pose proof (Hsum x Locked ltac:(set_solver) ltac:(done)) as HsL.
  rewrite Hu, Hc in HsA, HsL.
  destruct (mirror_line_spec _ _ _ _ _ _ _ _ Hrun HsA HA) as (_ & Hrun1 & Hat1).
  assert (ledger_at b1 (bu_user u) (bu_currency u) Locked = locked_balance (row_of (mv_key x) b0)) as HsL1
    by (rewrite Hat1, HsL, decide_False by naive_solver; simpl; lia).
  destruct (mirror_line_spec _ _ _ _ _ _ _ _ Hrun1 HsL1 HL) as (_ & Hrun2 & Hat2).
  assert (∀ u' c' bt, bt ≠ Pending → ledger_at b2 u' c' bt
    = ledger_at b u' c' bt + at_key (trading_key u' c') (bucket_move bt) x) as Hat.
  { intros u' c' bt Hbt. rewrite Hat2, Hat1. unfold at_key. rewrite <- Hk. unfold update_key.
    destruct (decide ((bu_user u, bu_currency u) = (u', c'))) as [Heq|Hne].
    - rewrite (decide_True (P := trading_key _ _ = _)) by (by apply trading_key_inj).
      destruct bt; [| |done]; repeat case_decide; simpl; naive_solver lia.
    - rewrite (decide_False (P := trading_key _ _ = _)) by (by rewrite trading_key_inj).
      rewrite !decide_False by naive_solver. lia. }
  assert (∀ y bt, y ∈ ms → bt ≠ Pending →
    ledger_at b2 (user_id (mv_key y)) (currency_id (mv_key y)) bt = bucket bt (row_of (mv_key y) b0)) as Hsum'.
  { intros y bt Hy Hbt. rewrite Hat by done. rewrite (Hsum y bt) by set_solver.
    unfold at_key. rewrite decide_False; [lia|]. intros Heq. apply Hnin. 
    assert (mv_key y = trading_key (user_id (mv_key y)) (currency_id (mv_key y))) as Hty.
    { apply list_elem_of_lookup in Hy as [i Hi].
      destruct (Forall2_lookup_r _ _ _ _ _ Hall Hi) as (uy & _ & (Hky & _) & _). by rewrite <- Hky. }
    rewrite <- Hty in Heq. rewrite Heq. by apply list_elem_of_fmap_2. }
  destruct (IH b2 Hnd Hrun2 Hsum' Hm) as [Hrun' Hat']. split; [done|].
  intros u' c' bt Hbt. rewrite Hat', Hat by done. simpl. lia.
Qed.
End Mirror.

(** ** Frames: which tables a part leaves as they are *)
Lemma fill_order_inv un q id d d' :
  fill_order un q id d = Ret (tt, d') →
  ∃ o, spot_orders d !! id = Some o ∧
    d' = set_spot_orders (<[id := filled_order un q o]> (spot_orders d)) d.
Proof. unfold fill_order. intros Hrun. run_all Hrun. eauto. Qed.

(** The tables money and history live in. *)
Definition same_money (d d' : settle_db) : Prop :=
  sd_balances d' = sd_balances d ∧ ledger d' = ledger d ∧
  settlement_trades d' = settlement_trades d ∧ events d' = events d ∧ dlq d' = dlq d ∧
  markets d' = markets d ∧ sd_currencies d' = sd_currencies d ∧ sd_users d' = sd_users d.

Lemma same_money_refl d : same_money d d.
Proof. by repeat split. Qed.
Lemma same_money_trans d1 d2 d3 : same_money d1 d2 → same_money d2 d3 → same_money d1 d3.
Proof. unfold same_money. intuition congruence. Qed.

Lemma updateSpotOrders_frame un q i1 i2 d d' :
  updateSpotOrdersFilledAfterMatch un q i1 i2 d = Ret (tt, d') →
  same_money d d' ∧ spot_trades d' = spot_trades d.
Proof.
  unfold updateSpotOrdersFilledAfterMatch. intros Hrun.
  apply bind_Ret_inv in Hrun as ([] & d1 & H1 & H2).
  apply fill_order_inv in H1 as (o1 & _ & ->), H2 as (o2 & _ & ->). by repeat split.
Qed.

Lemma insertSpotTrades_frame shape p a d d' :
  insertSpotTradesAfterMatch shape p a d = Ret (tt, d') →
  same_money d d' ∧ spot_orders d' = spot_orders d.
Proof.
  unfold insertSpotTradesAfterMatch, insert_legs. intros Hrun. run_all Hrun; by repeat split.
Qed.

Section Frames.
Context `{DecimalJs, Runtime}.

Lemma append_chain_run (l : list ledger_row) (d d' : settle_db) :
  foreach l (λ ce, modify (append_ledger ce)) d = Ret (tt, d') →
  ledger d' = ledger d ++ l ∧ sd_balances d' = sd_balances d ∧ events d' = events d ∧
  settlement_trades d' = settlement_trades d ∧ dlq d' = dlq d ∧ spot_orders d' = spot_orders d ∧
  markets d' = markets d ∧ sd_currencies d' = sd_currencies d ∧ sd_users d' = sd_users d.
Proof.
  revert d. induction l as [|x l IH]; intros d Hrun; simpl in Hrun.
  - apply ret_inv in Hrun as [_ ->]. rewrite app_nil_r. done.
  - apply bind_Ret_inv in Hrun as ([] & d1 & H1 & Hrun). apply modify_inv in H1 as ->.
    destruct (IH _ Hrun) as (-> & ?). split; [|done]. simpl. by rewrite <- app_assoc.
Qed.

(** [ledger]: the rows of the event were appended, nothing else. *)
Definition appended (rows : list ledger_row) (d d' : settle_db) : Prop :=
  ledger d' = ledger d ++ rows ∧ sd_balances d' = sd_balances d ∧ events d' = events d ∧
  settlement_trades d' = settlement_trades d ∧ dlq d' = dlq d ∧ spot_orders d' = spot_orders d ∧
  markets d' = markets d ∧ sd_currencies d' = sd_currencies d ∧ sd_users d' = sd_users d.

Lemma write_ledger_inv id deltas d d' :
  write_ledger id deltas d = Ret (tt, d') →
  deltas ≠ [] ∧ appended (chain_entries (last_hash (ledger d)) id deltas) d d'.
Proof.
  unfold write_ledger. intros Hrun.
  apply bind_Ret_inv in Hrun as (? & ? & H1 & Hrun). apply require_inv in H1 as [Hne ->].
  apply bind_Ret_inv in Hrun as (prev & ? & H1 & Hrun). apply gets_inv in H1 as [-> ->].
  apply bind_Ret_inv in Hrun as ([] & d1 & H1 & Hrun). apply append_chain_run in H1.
  run_all Hrun. bool_prop. split; [done|]. exact H1.
Qed.

(** What [record_trade] leaves: one more trade, the event marked, the rest as it was. *)
Definition trade_of (env : settle_env) (p : EnginePayload) (a : trade_amounts) : settlement_trade :=
  SettlementTrade (symbol p) (am_price a) (am_qty a) (am_tradeVal a) (taker_user_id p)
    (maker_user_id p) (taker_order_id p) (maker_order_id p) (am_takerFee a) (maker_fee_recorded env a).
Definition settled_hash (env : settle_env) (p : EnginePayload) (a : trade_amounts)
    (deltas : list delta_line) : string :=
  event_hash p (am_tradeVal a) (am_takerFee a) (maker_fee_recorded env a) (settle_lines deltas).

Lemma record_trade_inv env row m a deltas d d' :
  record_trade env row m a deltas d = Ret (tt, d') →
  let h := settled_hash env (row_payload row) a deltas in
  sd_balances d' = sd_balances d ∧ ledger d' = ledger d ∧ dlq d' = dlq d ∧
  settlement_trades d' = settlement_trades d ++ [trade_of env (row_payload row) a] ∧
  events d' = alter (event_processed h) (row_id row) (events d) ∧
  markets d' = markets d ∧ sd_currencies d' = sd_currencies d ∧ sd_users d' = sd_users d ∧
  (∀ h0, events d !! row_id row ≫= ev_hash = Some h0 → h0 = h).
Proof.
  unfold record_trade. intros Hrun.
  apply bind_Ret_inv in Hrun as (ev & ? & H1 & Hrun). apply gets_inv in H1 as [-> ->].
  apply bind_Ret_inv in Hrun as (? & ? & H1 & Hrun). apply require_inv in H1 as [Hh ->].
  apply bind_Ret_inv in Hrun as (? & d1 & H1 & Hrun). apply modify_inv in H1.
  apply bind_Ret_inv in Hrun as ([] & d2 & H2 & Hrun).
  apply updateSpotOrders_frame in H2 as [H2 _].
  apply bind_Ret_inv in Hrun as ([] & d3 & H3 & Hrun). apply insertSpotTrades_frame in H3 as [H3 _].
  apply modify_inv in Hrun as ->.
  pose proof (same_money_trans _ _ _ H2 H3) as (?&?&?&?&?&?&?&?). subst d1. simpl in *.
  repeat (apply conj; [first [done|congruence|unfold settled_hash; congruence]|]).
  intros h0 Hh0. change (mbind _ _) with (events d !! row_id row ≫= ev_hash) in Hh.
  rewrite Hh0 in Hh. apply orb_true_iff in Hh as [Hh|Hh]; bool_prop; [done|].
  unfold settled_hash. congruence.
Qed.

(** ** The whole handler, inverted *)
Definition is_uuid (u : string) : Prop := String.length u = 36%nat.

Definition rows_locked (p : EnginePayload) (m : market_assets) (b b0 : balances) : Prop :=
  same_rows b b0 ∧
  ∀ x c, x ∈ unique_pairs p m → assetToCurrency m (snd x) = Some c →
    user_balances b0 !! trading_key (fst x) c = Some (row_of (trading_key (fst x) c) b).

Lemma move_funds_inv env row m a d d1 :
  move_funds env row m a d = Ret (tt, d1) →
  let p := row_payload row in
  let rebates := makerRebatesEnabled env in
  ∃ b0 b1, rows_locked p m (sd_balances d) b0 ∧
    let bal := getBal m (lock_rows m (unique_pairs p m) b0) in
    let updates := balance_updates rebates p m a bal in
    check_locked p m a bal d = Ret (tt, d) ∧ check_fee_funds rebates p m a bal d = Ret (tt, d) ∧
    foreach updates (mirror_update (ledgerRefId env) bal) b0 = Ret (tt, b1) ∧
    foreach updates apply_update b1 = Ret (tt, sd_balances d1) ∧
    ledger d1 = ledger d ++ chain_entries (last_hash (ledger d)) (row_id row)
                              (ledger_deltas p m a rebates) ∧
    settlement_trades d1 = settlement_trades d ∧ events d1 = events d ∧ dlq d1 = dlq d ∧
    markets d1 = markets d ∧ sd_currencies d1 = sd_currencies d ∧ sd_users d1 = sd_users d ∧
    spot_orders d1 = spot_orders d.
Proof.
  intros Hrun. unfold move_funds in Hrun. cbv zeta in *.
  set (p := row_payload row) in *. set (rebates := makerRebatesEnabled env) in *.
  apply bind_Ret_inv in Hrun as ([] & d0 & H1 & Hrun). apply zoom_inv in H1 as (b0 & H1 & ->).
  apply (ensure_pairs_spec _ _ (sd_balances d)) in H1 as (Hsame & _ & Hrows); [|apply same_rows_refl].
  apply bind_Ret_inv in Hrun as (rows & ? & H1 & Hrun). apply gets_inv in H1 as [-> ->].
  change (sd_balances (sput b0 d)) with b0 in Hrun.
  set (bal := getBal m (lock_rows m (unique_pairs p m) b0)) in Hrun.
  apply bind_Ret_inv in Hrun as ([] & d2 & Hcl & Hrun).
  assert (d2 = sput b0 d ∧ check_locked p m a bal d = Ret (tt, d)) as [-> Hcl'].
  { unfold check_locked in *. destruct (taker_side p); apply require_inv in Hcl as [Hc ->];
      (split; [done|by apply require_true]). }
  apply bind_Ret_inv in Hrun as ([] & d3 & Hcf & Hrun).
  assert (d3 = sput b0 d ∧ check_fee_funds rebates p m a bal d = Ret (tt, d)) as [-> Hcf'].
  { unfold check_fee_funds in *.
    destruct (taker_side p); apply bind_Ret_inv in Hcf as ([] & d' & H1 & H2);
      apply require_inv in H1 as [Hc1 ->], H2 as [Hc2 ->];
      (split; [done|]); by rewrite (bind_Ret _ _ _ _ _ (require_true _ _ _ Hc1)), require_true. }
  apply bind_Ret_inv in Hrun as ([] & d4 & Hw & Hrun).
  apply write_ledger_inv in Hw as [_ (Hl & Hb & ?&?&?&?&?&?&?)].
  apply bind_Ret_inv in Hrun as ([] & d5 & Hm & Hrun). apply zoom_inv in Hm as (b1 & Hm & ->).
  apply zoom_inv in Hrun as (b2 & Ha & ->).
  change (@sget settle_db balances _ d4) with (sd_balances d4) in Hm. rewrite Hb in Hm.
  exists b0, b1. split; [by split|]. repeat (apply conj; [done|]). done.
Qed.
End Frames.

(** ** The pairs that are locked are the four accounts of the trade *)
Lemma dedup_by_elem {A} (key : A → string) seen l x :
  (∀ y, y ∈ l → key y = key x → y = x) → x ∈ l → key x ∉ seen → x ∈ dedup_by key seen l.
Proof.
  revert seen. induction l as [|y l IH]; intros seen Hinj Hx Hseen; [set_solver|]. simpl.
  case_bool_decide as Hy.
  - apply IH; [set_solver| |done]. apply elem_of_cons in Hx as [->|Hx]; done.
  - destruct (decide (key y = key x)) as [Heq|Hne].
    + rewrite (Hinj y) by set_solver. left.
    + right. apply IH; set_solver.
Qed.

Lemma string_app_inj s1 s2 t1 t2 :
  String.length s1 = String.length s2 → s1 +:+ t1 = s2 +:+ t2 → s1 = s2 ∧ t1 = t2.
Proof.
  revert s2. induction s1 as [|c s1 IH]; intros [|c2 s2] Hlen Heq; simplify_eq/=; [done|].
  destruct (IH s2 Hlen ltac:(done)) as [-> ->]. done.
Qed.

Section Pairs.
Context `{Runtime}.

Definition trade_pairs (p : EnginePayload) (m : market_assets) : list (string * string) :=
  [(taker_user_id p, base m); (taker_user_id p, quote m);
   (maker_user_id p, base m); (maker_user_id p, quote m)].

Lemma unique_pairs_elem p m x :
  is_uuid (taker_user_id p) → is_uuid (maker_user_id p) →
  x ∈ trade_pairs p m → x ∈ unique_pairs p m.
Proof.
  intros Ht Hm Hx. apply sort_by_elem, dedup_by_elem; [|done|set_solver].
  assert (∀ y, y ∈ trade_pairs p m → is_uuid (fst y)) as Hu
    by (intros y Hy; unfold trade_pairs in Hy; repeat setoid_rewrite elem_of_cons in Hy;
        set_unfold; naive_solver).
  intros [u a] Hy Heq. destruct x as [u' a']. simpl in Heq.
  pose proof (Hu _ Hy). pose proof (Hu _ Hx). unfold is_uuid in *. simpl in *.
  apply string_app_inj in Heq as [-> Heq]; [|congruence].
  by rewrite (proj2 (string_app_inj ":" ":" _ _ eq_refl Heq)).
Qed.
End Pairs.

(** ** Amounts without digit loss *)
Section Exact.
Context `{DecimalJs, Runtime}.

(** A market whose assets and currencies differ, within the columns' 18 places. *)
Record market_ok (m : market_assets) : Prop := {
  mo_assets : base m ≠ quote m;
  mo_currencies : base_currency_id m ≠ quote_currency_id m;
  mo_qty : qty_precision m ≤ 18;
  mo_quote : quote_precision m ≤ 18;
}.

(** A column value: 18 places, and room for one more digit. *)
Definition column (x : Z) : Prop := (10 ^ 18 | x) ∧ 0 ≤ x < 10 ^ (17 + precision).
Definition fits (b : balances) : Prop :=
  ∀ k, column (available_balance (row_of k b)) ∧ column (locked_balance (row_of k b)).

Lemma sig_18 x : (10 ^ 18 | x) → - 2 * 10 ^ (17 + precision) < x < 10 * 10 ^ (17 + precision) → sig x = x.
Proof.
  intros Hd Hx. apply sig_exact with 18; [lia|done|]. pose proof precision_pos.
  replace (18 + precision) with (1 + (17 + precision)) by lia.
  rewrite Z.pow_add_r by lia. lia.
Qed.

Lemma ulp_18 p x : p ≤ 18 → (ulp p | x) → (10 ^ 18 | x).
Proof. intros Hp. apply divide_pow10. unfold SCALE. lia. Qed.

Lemma dtimes_fee x rate : 0 ≤ x → 0 ≤ rate ≤ one → 0 ≤ dtimes x rate ≤ x.
Proof.
  intros Hx Hr. unfold dtimes. pose proof one_pos.
  assert (0 ≤ Z.quot (x * rate) one ≤ x).
  { rewrite Z.quot_div_nonneg by nia. split; [apply Z.div_pos; nia|].
    apply Z.div_le_upper_bound; nia. }
  pose proof (sig_bounds (Z.quot (x * rate) one)). lia.
Qed.

Lemma fee_rates : 0 ≤ TAKER_FEE_RATE ≤ one ∧ 0 ≤ MAKER_FEE_RATE ≤ one.
Proof. repeat split; vm_compute; discriminate. Qed.

Record amounts_ok (m : market_assets) (a : trade_amounts) : Prop := {
  ao_qty : 0 ≤ am_qty a ∧ (10 ^ 18 | am_qty a);
  ao_value : 0 ≤ am_tradeVal a ∧ (ulp (quote_precision m) | am_tradeVal a);
  ao_taker : 0 ≤ am_takerFee a ≤ am_tradeVal a ∧ (ulp (quote_precision m) | am_takerFee a);
  ao_maker : 0 ≤ am_makerFee a ≤ am_tradeVal a ∧ (ulp (quote_precision m) | am_makerFee a);
}.

Lemma amounts_of_ok m pr q : market_ok m → 0 ≤ pr → 0 ≤ q → amounts_ok m (amounts_of m pr q).
Proof.
  intros Hm Hp Hq. unfold amounts_of.
  assert (0 ≤ tradeValue pr q) as Htv.
  { apply sig_bounds. apply Z.quot_pos; [nia|apply one_pos]. }
  destruct (toDP_bounds (quote_precision m) _ Htv) as (Hv & _ & _).
  set (tv := toDP (quote_precision m) (tradeValue pr q)) in *.
  pose proof (dtimes_fee tv TAKER_FEE_RATE Hv (proj1 fee_rates)) as [Ht1 Ht2].
  pose proof (dtimes_fee tv MAKER_FEE_RATE Hv (proj2 fee_rates)) as [Hm1 Hm2].
  destruct (toDP_bounds (quote_precision m) _ Ht1) as (? & ? & _).
  destruct (toDP_bounds (quote_precision m) _ Hm1) as (? & ? & _).
  destruct (toDP_bounds (qty_precision m) _ Hq) as (? & ? & _).
  pose proof (λ x, trunc_divide (ulp (quote_precision m)) x) as Hd.
  split; cbn [am_qty am_tradeVal am_takerFee am_makerFee]; unfold takerFee, makerFee.
  - split; [lia|]. apply (ulp_18 (qty_precision m)); [apply Hm|apply trunc_divide].
  - split; [lia|apply Hd].
  - split; [lia|apply Hd].
  - split; [lia|apply Hd].
Qed.

Lemma settlement_amounts_inv {S} p m (s : S) a s' :
  settlement_amounts p m s = Ret (a, s') →
  s' = s ∧ ∃ pr q, parse_decimal (price p) = Some (Fin pr) ∧ parse_decimal (qty p) = Some (Fin q)
    ∧ 0 ≤ q ∧ a = amounts_of m pr q.
Proof.
  unfold settlement_amounts, decimal_of, assertValidDecimal, assertNonNegative. intros Hrun.
  apply bind_Ret_inv in Hrun as (pr & ? & H1 & Hrun). apply get_or_inv in H1 as [Hp ->].
  apply bind_Ret_inv in Hrun as (q & ? & H1 & Hrun). apply get_or_inv in H1 as [Hq ->].
  destruct pr as [pr|]; [|by run_all Hrun]. destruct q as [q|]; [|by run_all Hrun].
  run_all Hrun. bool_prop. split; [done|]. by exists pr, q.
Qed.

Lemma net_credits m a rebates :
  market_ok m → amounts_ok m a → am_tradeVal a < 10 ^ (17 + precision) →
  maker_net_credit m a rebates
    = (if rebates then am_tradeVal a + am_makerFee a else am_tradeVal a - am_makerFee a)
  ∧ taker_net_credit m a = am_tradeVal a - am_takerFee a
  ∧ dminus (- am_tradeVal a) (am_takerFee a) = - am_tradeVal a - am_takerFee a
  ∧ dminus (- am_tradeVal a) (am_makerFee a) = - am_tradeVal a - am_makerFee a.
Proof.
  intros Hm Ha Hv. destruct Ha as [_ [Hv0 Hvd] [Ht Htd] [Hmk Hmd]].
  pose proof (pow10_pos (17 + precision)) as HB. pose proof precision_pos.
  assert (∀ x, (ulp (quote_precision m) | x) → (10 ^ 18 | x)) as H18
    by (intros x; apply ulp_18, Hm).
  assert (∀ x, (ulp (quote_precision m) | x) → - 2 * 10 ^ (17 + precision) < x < 10 * 10 ^ (17 + precision) →
    toDP (quote_precision m) (sig x) = x) as Hex.
  { intros x Hx Hb. rewrite sig_18 by auto. by apply trunc_exact. }
  unfold maker_net_credit, taker_net_credit, dplus, dminus. repeat split.
  - destruct rebates; apply Hex; try lia; [by apply Z.divide_add_r|by apply Z.divide_sub_r].
  - apply Hex; [by apply Z.divide_sub_r|lia].
  - apply sig_18; [|lia]. apply H18, Z.divide_sub_r; [by apply Z.divide_opp_r|done].
  - apply sig_18; [|lia]. apply H18, Z.divide_sub_r; [by apply Z.divide_opp_r|done].
Qed.
End Exact.

(** ** The movements of a trade *)
(** As the code makes them. For maker rebates and a selling taker they are not those of the
    trade that is recorded: [sell_rebate_is_charged]. *)
Definition trade_moves (rebates : bool) (p : EnginePayload) (m : market_assets) (a : trade_amounts) :
    list movement :=
  let tk c := trading_key (taker_user_id p) c in
  let mk c := trading_key (maker_user_id p) c in
  let b := base_currency_id m in
  let q := quote_currency_id m in
  match taker_side p with
  | Buy =>
      [Movement (tk b) (am_qty a) 0;
       Movement (tk q) (- am_takerFee a) (- am_tradeVal a);
       Movement (mk b) 0 (- am_qty a);
       Movement (mk q) (if rebates then am_tradeVal a + am_makerFee a
                        else am_tradeVal a - am_makerFee a) 0]
  | Sell =>
      [Movement (tk b) 0 (- am_qty a);
       Movement (tk q) (am_tradeVal a - am_takerFee a) 0;
       Movement (mk b) (am_qty a) 0;
       Movement (mk q) (- am_makerFee a) (- am_tradeVal a)]
  end.

(** What a recorded trade means for the accounts of its users: each side pays the fee that
    the trade records for it, and a negative fee is paid to the maker. *)
Definition recorded_moves (m : market_assets) (taker_side : side) (t : settlement_trade) : list movement :=
  let tk c := trading_key (st_taker t) c in
  let mk c := trading_key (st_maker t) c in
  let b := base_currency_id m in
  let q := quote_currency_id m in
  match taker_side with
  | Buy =>
      [Movement (tk b) (st_qty t) 0;
       Movement (tk q) (- st_taker_fee t) (- st_quote_qty t);
       Movement (mk b) 0 (- st_qty t);
       Movement (mk q) (st_quote_qty t - st_maker_fee t) 0]
  | Sell =>
      [Movement (tk b) 0 (- st_qty t);
       Movement (tk q) (st_quote_qty t - st_taker_fee t) 0;
       Movement (mk b) (st_qty t) 0;
       Movement (mk q) (- st_maker_fee t) (- st_quote_qty t)]
  end.
(** The settlements whose maker is charged the fee the trade records. *)
Definition fee_as_recorded (env : settle_env) (p : EnginePayload) : Prop :=
  makerRebatesEnabled env = false ∨ taker_side p = Buy.
Lemma recorded_trade_moves env p m a :
  fee_as_recorded env p →
  trade_moves (makerRebatesEnabled env) p m a = recorded_moves m (taker_side p) (trade_of env p a).
Proof.
  unfold fee_as_recorded, trade_moves, recorded_moves, trade_of, maker_fee_recorded.
  cbn [st_taker st_maker st_qty st_quote_qty st_taker_fee st_maker_fee].
  destruct (taker_side p), (makerRebatesEnabled env); intros [?|?]; try discriminate; do 4 f_equal; try done.
  all: f_equal; lia.
Qed.

Ltac col_divide := repeat match goal with
  | H : (?u | ?x) |- (?u | ?x) => exact H
  | |- (_ | 0) => apply Z.divide_0_r
  | |- (_ | - _) => apply Z.divide_opp_r
  | |- (_ | _ - _) => apply Z.divide_sub_r
  | |- (_ | _ + _) => apply Z.divide_add_r
  | |- (_ | if ?c then _ else _) => destruct c
  end.

Section Moves.
Context `{DecimalJs, Runtime}.
Context (env : settle_env) (row : SettlementRow) (m : market_assets) (a : trade_amounts).
Context (d d1 : settle_db).
Let p := row_payload row.
Let rebates := makerRebatesEnabled env.
Let b := sd_balances d.
Context (Hm : market_ok m) (Ha : amounts_ok m a).
Context (Hparties : taker_user_id p ≠ maker_user_id p).
Context (Htaker : is_uuid (taker_user_id p)) (Hmaker : is_uuid (maker_user_id p)).

Lemma trade_moves_keys : NoDup (map mv_key (trade_moves rebates p m a)).
Proof.
  destruct Hm as [_ Hc _ _]. unfold trade_moves.
  destruct (taker_side p); simpl;
    repeat (apply NoDup_cons; split; [set_unfold; rewrite ?trading_key_inj; naive_solver|]);
    apply NoDup_nil_2.
Qed.

Lemma base_currency : assetToCurrency m (base m) = Some (base_currency_id m).
Proof.
  unfold assetToCurrency. destruct (String.eqb_spec (base m) (quote m)); [by destruct Hm|].
  by rewrite String.eqb_refl.
Qed.
Lemma quote_currency : assetToCurrency m (quote m) = Some (quote_currency_id m).
Proof. unfold assetToCurrency. by rewrite String.eqb_refl. Qed.

Definition account_parts (u c : string) : Z * Z :=
  (available_balance (row_of (trading_key u c) b), locked_balance (row_of (trading_key u c) b)).

Lemma locked_accounts b0 :
  rows_locked p m b b0 →
  let bal := getBal m (lock_rows m (unique_pairs p m) b0) in
  bal (taker_user_id p) (base m) = account_parts (taker_user_id p) (base_currency_id m) ∧
  bal (taker_user_id p) (quote m) = account_parts (taker_user_id p) (quote_currency_id m) ∧
  bal (maker_user_id p) (base m) = account_parts (maker_user_id p) (base_currency_id m) ∧
  bal (maker_user_id p) (quote m) = account_parts (maker_user_id p) (quote_currency_id m).
Proof.
  intros [_ Hrows] bal. pose proof base_currency. pose proof quote_currency.
  repeat split; (apply (getBal_row m (unique_pairs p m) b0 b); [exact Hrows| |done]);
    apply unique_pairs_elem; try done; unfold trade_pairs; set_solver.
Qed.

Lemma locked_amounts b0 :
  rows_locked p m b b0 → fits b →
  check_locked p m a (getBal m (lock_rows m (unique_pairs p m) b0)) d = Ret (tt, d) →
  am_tradeVal a < 10 ^ (17 + precision) ∧ am_qty a < 10 ^ (17 + precision).
Proof.
  intros Hrows Hfits Hlocked. destruct (locked_accounts b0 Hrows) as (Htb & Htq & Hmb & Hmq).
  pose proof (λ u c, Hfits (trading_key u c)) as Hfit. unfold column in Hfit.
  unfold check_locked in Hlocked. destruct (taker_side p);
    rewrite ?Htb, ?Htq, ?Hmb, ?Hmq in Hlocked; apply require_inv in Hlocked as [Hc _];
    bool_prop; unfold account_parts in *; simpl in *.
  - pose proof (Hfit (taker_user_id p) (quote_currency_id m)).
    pose proof (Hfit (maker_user_id p) (base_currency_id m)). lia.
  - pose proof (Hfit (taker_user_id p) (base_currency_id m)).
    pose proof (Hfit (maker_user_id p) (quote_currency_id m)). lia.
Qed.

Lemma dplus_column A x :
  column A → (10 ^ 18 | x) → - 2 * 10 ^ (17 + precision) < x < 9 * 10 ^ (17 + precision) →
  dplus A x = A + x.
Proof. intros [HA ?] Hx ?. apply sig_18; [by apply Z.divide_add_r|lia]. Qed.

Lemma dminus_column A x :
  column A → (10 ^ 18 | x) → 0 ≤ x < 2 * 10 ^ (17 + precision) → dminus A x = A + - x.
Proof.
  intros [HA ?] Hx ?. apply (sig_18 (A - x)); [by apply Z.divide_sub_r|lia].
Qed.

Lemma exact_line bal u asset c A' L' da dl :
  fits b → bal u asset = account_parts u c →
  A' = available_balance (row_of (trading_key u c) b) + da →
  L' = locked_balance (row_of (trading_key u c) b) + dl →
  (10 ^ 18 | da) → (10 ^ 18 | dl) →
  - 2 * 10 ^ (17 + precision) < da < 9 * 10 ^ (17 + precision) →
  - 2 * 10 ^ (17 + precision) < dl < 9 * 10 ^ (17 + precision) →
  mirror_exact b bal (BalanceUpdate u asset c A' L') (Movement (trading_key u c) da dl).
Proof.
  intros Hfits Hbal -> -> Hda Hdl ? ?. unfold mirror_exact, update_moves, dminus; simpl.
  split; [done|]. split; [done|].
  split; (etransitivity; [|apply sig_18; [|lia]]); try done; f_equal; lia.
Qed.

(** The computed balances are the exact movements, and so are the mirrored ones. *)
Lemma updates_exact b0 :
  rows_locked p m b b0 → fits b →
  let bal := getBal m (lock_rows m (unique_pairs p m) b0) in
  check_locked p m a bal d = Ret (tt, d) →
  Forall2 (mirror_exact b bal) (balance_updates rebates p m a bal) (trade_moves rebates p m a).
Proof.
  intros Hrows Hfits bal Hlocked. destruct (locked_accounts b0 Hrows) as (Htb & Htq & Hmb & Hmq).
  fold bal in Htb, Htq, Hmb, Hmq.
  pose proof (pow10_pos (17 + precision)) as HB. pose proof precision_pos as Hpp.
  pose proof (λ u c, Hfits (trading_key u c)) as Hfit. unfold column in Hfit.
  destruct (locked_amounts b0 Hrows Hfits Hlocked) as [Hv Hq].
  destruct (net_credits m a rebates Hm Ha Hv) as (Hmnc & Htnc & _).
  destruct Ha as [[Hq0 Hqd] [Hv0 Hvd] [Ht Htd] [Hk Hkd]].
  pose proof (ulp_18 _ _ (mo_quote _ Hm) Hvd) as Hvd'.
  pose proof (ulp_18 _ _ (mo_quote _ Hm) Htd) as Htd'.
  pose proof (ulp_18 _ _ (mo_quote _ Hm) Hkd) as Hkd'.
  unfold balance_updates. rewrite Htb, Htq, Hmb, Hmq, Hmnc, Htnc. unfold account_parts.
  unfold trade_moves. destruct (taker_side p);
    (repeat apply Forall2_cons_2; [..|apply Forall2_nil_2]);
    (apply exact_line; [done|done|..]).
  all: clear Hvd Htd Hkd Hlocked Hfit.
  all: first
    [ lia | solve [col_divide]
    | apply dplus_column; [apply Hfits|col_divide|lia]
    | apply dminus_column; [apply Hfits|col_divide|lia]
    | destruct rebates; lia
    | apply dplus_column; [apply Hfits|col_divide|destruct rebates; lia] ].
Qed.
End Moves.

(** ** Settling a fresh event *)
Definition users_uuid (d : settle_db) : Prop := ∀ u, u ∈ sd_users d → is_uuid u.

Section Settle.
Context `{DecimalJs, Runtime}.

(** An event whose ledger rows are not written yet, with its market [m] and amounts
    [a], over balances that arithmetic can represent. *)
Record settle_input (row : SettlementRow) (d : settle_db) (m : market_assets) (a : trade_amounts) :
    Prop := {
  si_fresh : event_rows (row_id row) (ledger d) = [];
  si_market : resolveMarketAssets (symbol (row_payload row)) d = Ret (m, d);
  si_amounts : settlement_amounts (row_payload row) m d = Ret (a, d);
  si_market_ok : market_ok m;
  si_price : ∀ x, parse_decimal (price (row_payload row)) = Some (Fin x) → 0 ≤ x;
  si_users : users_uuid d;
  si_fits : fits (sd_balances d);
}.

Lemma settle_input_amounts row d m a : settle_input row d m a → amounts_ok m a.
Proof.
  intros [_ _ Ha Hm Hp _ _]. apply settlement_amounts_inv in Ha as (_ & pr & q & Hpr & _ & Hq & ->).
  apply amounts_of_ok; auto.
Qed.

Lemma resolveMarketAssets_frame s d m d' : resolveMarketAssets s d = Ret (m, d') → d' = d.
Proof. unfold resolveMarketAssets. intros Hrun. by run_all Hrun. Qed.

Definition live_notify (row : SettlementRow) (m : market_assets) (a : trade_amounts) :
    EngineLiveNotifyPayload :=
  LiveNotify
    (if negb (String.eqb (row_match_engine_id row) "") then row_match_engine_id row
     else default "default" (p_match_engine_id (row_payload row)))
    (row_engine_event_id row) (row_payload row) (base m) (quote m) (am_tradeVal a) (quote_precision m).

Definition settles (env : settle_env) (row : SettlementRow) (m : market_assets) (a : trade_amounts)
    (d d' : settle_db) : Prop :=
  let p := row_payload row in
  taker_user_id p ≠ maker_user_id p ∧ taker_user_id p ∈ sd_users d ∧ maker_user_id p ∈ sd_users d ∧
  check_fees (makerRebatesEnabled env) a d = Ret (tt, d) ∧
  ∃ d1, move_funds env row m a d = Ret (tt, d1) ∧
    record_trade env row m a (ledger_deltas p m a (makerRebatesEnabled env)) d1 = Ret (tt, d').

Lemma process_inv env row d n d' :
  processSettlementEventRow env row d = Ret (n, d') →
  (event_rows (row_id row) (ledger d) ≠ [] ∧ n = None ∧ replay_row env row d = Ret (tt, d'))
  ∨ (event_rows (row_id row) (ledger d) = [] ∧
     ∃ m a, resolveMarketAssets (symbol (row_payload row)) d = Ret (m, d) ∧
       settlement_amounts (row_payload row) m d = Ret (a, d) ∧
       n = Some (live_notify row m a) ∧ settles env row m a d d').
Proof.
  unfold processSettlementEventRow. intros Hrun.
  apply bind_Ret_inv in Hrun as (ex & ? & H1 & Hrun). apply gets_inv in H1 as [-> ->].
  destruct (bool_decide _) eqn:Ex; simpl in Hrun; bool_prop.
  - right. split; [done|].
    apply bind_Ret_inv in Hrun as (m & d0 & Hm & Hrun). pose proof (resolveMarketAssets_frame _ _ _ _ Hm) as ->.
    apply bind_Ret_inv in Hrun as (a & d0 & Ha & Hrun).
    pose proof (settlement_amounts_inv _ _ _ _ _ Ha) as (-> & _).
    apply bind_Ret_inv in Hrun as ([] & d0 & Hf & Hrun).
    assert (d0 = d) as -> by (unfold check_fees in Hf; destruct (makerRebatesEnabled env); by run_all Hf).
    apply bind_Ret_inv in Hrun as ([] & d0 & Hp & Hrun). unfold check_parties in Hp. run_all Hp. bool_prop.
    apply bind_Ret_inv in Hrun as ([] & d1 & Hmv & Hrun).
    apply bind_Ret_inv in Hrun as ([] & d2 & Hrt & Hrun). apply ret_inv in Hrun as [-> ->].
    exists m, a. repeat (split; [done|]). split; [by intros Heq; rewrite Heq in *|]. eauto 10.
  - left. split; [done|].
    apply bind_Ret_inv in Hrun as ([] & d0 & Hm & Hrun). apply ret_inv in Hrun as [-> ->]. done.
Qed.

Lemma trade_moves_trading rebates p m a x :
  x ∈ trade_moves rebates p m a →
  mv_key x = trading_key (user_id (mv_key x)) (currency_id (mv_key x)).
Proof.
  unfold trade_moves. destruct (taker_side p); intros Hx;
    repeat (apply elem_of_cons in Hx as [->|Hx]; [done|]); by apply not_elem_of_nil in Hx.
Qed.

(** The movements are made and mirrored. *)
Record moves_made (ms : list movement) (b b' : balances) : Prop := {
  mm_rows : ∀ k, row_of k b' = moved ms k (row_of k b);
  mm_funds : ∀ c, funds c b' = funds c b + lsum (in_currency c) ms;
  mm_ledger : ledger_complete b → ledger_complete b';
}.

Lemma funds_are_moved env row d m a d1 :
  settle_input row d m a →
  let p := row_payload row in
  taker_user_id p ≠ maker_user_id p → taker_user_id p ∈ sd_users d → maker_user_id p ∈ sd_users d →
  move_funds env row m a d = Ret (tt, d1) →
  moves_made (trade_moves (makerRebatesEnabled env) p m a) (sd_balances d) (sd_balances d1) ∧
  am_tradeVal a < 10 ^ (17 + precision).
Proof.
  intros Hi p Hne Ht Hmk Hrun. pose proof (settle_input_amounts _ _ _ _ Hi) as Ha.
  destruct Hi as [_ _ _ Hm _ Hu Hfits]. apply Hu in Ht, Hmk.
  pose proof (move_funds_inv _ _ _ _ _ _ Hrun) as
    (b0 & b1 & Hrows & Hcl & _ & Hmir & Happ & _). fold p in Hrows, Hcl, Hmir, Happ.
  pose proof (updates_exact env row m a d Hm Ha Hne Ht Hmk b0 Hrows Hfits Hcl) as Hall. fold p in Hall.
  pose proof (trade_moves_keys env row m a Hm Ha Hne Ht Hmk) as Hnd. fold p in Hnd.
  destruct Hrows as [Hsame Hrw]. pose proof Hsame as (Hro & Hled & Hfu & _).
  set (ms := trade_moves _ p m a) in *. set (us := balance_updates _ p m a _) in *.
  pose proof (mirror_rows _ _ _ _ _ Hmir) as Hub.
  assert (∀ k, row_of k b1 = row_of k (sd_balances d)) as Hro1
    by (intros k; rewrite <- Hro; unfold row_of; by rewrite Hub).
  assert (Forall2 (update_moves (sd_balances d)) us ms) as Hup.
  { eapply Forall2_impl; [exact Hall|]. by intros ?? [? _]. }
  destruct (apply_updates_effect (sd_balances d) us ms b1 _ Hup Hnd ltac:(auto) Happ)
    as (Hrows' & Hled' & Hfunds').
  split; [split|].
  - intros k. by rewrite Hrows', Hro1.
  - intros c. rewrite Hfunds'. f_equal. rewrite <- Hfu. unfold funds. by rewrite Hub.
  - intros [Hrn Hsum].
    destruct (mirror_effect (sd_balances d) (ledgerRefId env) _ _ _ b0 b1 Hall Hnd) as [Hrn' Hat]; [| |exact Hmir|].
    + unfold ledger_running. by rewrite Hled.
    + intros x bt Hx Hbt. unfold ledger_at. rewrite Hled, <- (Hsum _ _ bt Hbt).
      by rewrite <- (trade_moves_trading _ _ _ _ _ Hx).
    + split; [by rewrite Hled'|]. intros u c bt Hbt. rewrite Hled'. unfold ledger_at in Hat.
      rewrite (Hat u c bt Hbt), Hled, <- (Hsum u c bt Hbt), Hrows', Hro1. by destruct bt.
  - by destruct (locked_amounts row m a d Hm Ha Hne Ht Hmk b0 (conj Hsame Hrw) Hfits Hcl).
Qed.

Lemma apply_updates_wf us b b' :
  foreach us apply_update b = Ret (tt, b') → balances_wf b → balances_wf b'.
Proof.
  intros Hrun Hwf. revert b b' Hwf Hrun. induction us as [|u us IH]; intros b b' Hwf Hrun; simpl in Hrun.
  - by apply ret_inv in Hrun as [_ ->].
  - apply bind_Ret_inv in Hrun as ([] & b1 & H1 & Hrun).
    apply apply_update_inv in H1 as (r & _ & Hnn & ->). apply (IH _ _ (wf_insert _ _ _ _ Hwf Hnn) Hrun).
Qed.

Lemma moved_wf env row m a d d1 :
  move_funds env row m a d = Ret (tt, d1) → balances_wf (sd_balances d) → balances_wf (sd_balances d1).
Proof.
  intros Hrun Hwf. apply move_funds_inv in Hrun as (b0 & b1 & [(_ & _ & _ & Hw & _) _] & _ & _ & Hm & Ha & _).
  apply (apply_updates_wf _ _ _ Ha). apply mirror_rows in Hm. unfold balances_wf. rewrite Hm. by apply Hw.
Qed.

Lemma settled_wf env row d m a n d' :
  settle_input row d m a → processSettlementEventRow env row d = Ret (Some n, d') →
  balances_wf (sd_balances d) → balances_wf (sd_balances d').
Proof.
  intros Hi Hrun Hwf. apply process_inv in Hrun as [(_ & [=] & _)|(_ & m' & a' & _ & _ & _ & Hs)].
  destruct Hs as (_ & _ & _ & _ & d1 & Hmv & Hrt). apply record_trade_inv in Hrt as (-> & _).
  by apply (moved_wf _ _ _ _ _ _ Hmv).
Qed.

Lemma settled_inv env row d m a n d' :
  settle_input row d m a → processSettlementEventRow env row d = Ret (Some n, d') →
  let p := row_payload row in
  let rebates := makerRebatesEnabled env in
  n = live_notify row m a ∧ taker_user_id p ≠ maker_user_id p ∧
  am_tradeVal a < 10 ^ (17 + precision) ∧
  moves_made (trade_moves rebates p m a) (sd_balances d) (sd_balances d') ∧
  ledger d' = ledger d ++ chain_entries (last_hash (ledger d)) (row_id row) (ledger_deltas p m a rebates) ∧
  settlement_trades d' = settlement_trades d ++ [trade_of env p a] ∧
  events d' = alter (event_processed (settled_hash env p a (ledger_deltas p m a rebates)))
                (row_id row) (events d).
Proof.
  intros Hi Hrun. apply process_inv in Hrun as [(_ & [=] & _)|(_ & m' & a' & Hm' & Ha' & [= ->] & Hs)].
  assert (m' = m) as -> by (destruct Hi; congruence).
  assert (a' = a) as -> by (destruct Hi; congruence).
  destruct Hs as (Hne & Ht & Hmk & _ & d1 & Hmv & Hrt).
  destruct (funds_are_moved _ _ _ _ _ _ Hi Hne Ht Hmk Hmv) as [Hmoves Hv].
  apply record_trade_inv in Hrt as (Hb & Hl & _ & Htr & Hev & _).
  apply move_funds_inv in Hmv as (b0 & b1 & _ & _ & _ & _ & _ & Hl1 & Htr1 & Hev1 & _).
  rewrite Hb, Hl, Htr, Hev, Hl1, Htr1, Hev1. done.
Qed.

(** C27. Settling an event records one trade with the price, the quantity and the fees of
    the event, moves the four trading accounts of the trade by exactly the amounts the trade
    records, and no other account: the buyer's locked quote falls by the trade value and the
    seller's locked base by the quantity, each receives the other's, and each side pays its
    recorded fee out of the available quote. It marks the event processed with the hash of
    what was settled. Maker rebates with a selling taker are excepted: there the maker is
    charged the fee that the trade records as a rebate ([sell_rebate_is_charged]). *)
Theorem settlement_exact (env : settle_env) (row : SettlementRow) (d d' : settle_db)
    (m : market_assets) (a : trade_amounts) (n : EngineLiveNotifyPayload) :
  settle_input row d m a → fee_as_recorded env (row_payload row) →
  processSettlementEventRow env row d = Ret (Some n, d') →
  let p := row_payload row in
  let t := trade_of env p a in
  settlement_trades d' = settlement_trades d ++ [t] ∧
  (∀ k, row_of k (sd_balances d') = moved (recorded_moves m (taker_side p) t) k (row_of k (sd_balances d))) ∧
  events d' = alter (event_processed (settled_hash env p a (ledger_deltas p m a (makerRebatesEnabled env))))
                (row_id row) (events d) ∧
  n = live_notify row m a.
Proof.
  intros Hi Hfee Hrun p t. destruct (settled_inv _ _ _ _ _ _ _ Hi Hrun) as (Hn & _ & _ & [Hr _ _] & _ & Ht & He).
  unfold p, t. rewrite <- recorded_trade_moves by done. done.
Qed.


(** The total the ledger rows record for a user and an asset. *)
Definition recorded (u x : string) (rows : list ledger_row) : Z :=
  lsum (λ r, if String.eqb (lr_user r) u && String.eqb (lr_asset r) x then lr_delta r else 0) rows.
Definition line_delta (u x : string) (l : delta_line) : Z :=
  if String.eqb (dl_user l) u && String.eqb (dl_asset l) x then dl_delta l else 0.

Lemma recorded_chain u x prev id ls :
  recorded u x (chain_entries prev id ls) = lsum (line_delta u x) ls.
Proof.
  revert prev. induction ls as [|l ls IH]; intros prev; [done|].
  unfold recorded in *. simpl. by rewrite IH.
Qed.

Lemma chain_event prev id ls : Forall (λ r, lr_event r = id) (chain_entries prev id ls).
Proof. revert prev. induction ls; intros prev; simpl; constructor; auto. Qed.

Lemma event_rows_appended id l rows :
  event_rows id l = [] → Forall (λ r, lr_event r = id) rows → event_rows id (l ++ rows) = rows.
Proof.
  intros Hl Hrows. unfold event_rows in *. rewrite filter_app, Hl. simpl.
  induction Hrows as [|r rows Hr _ IH]; [done|]. by rewrite filter_cons_True, IH.
Qed.

(** Which account of the trade, if any, is the user's. *)
Ltac account_cases tk mk u :=
  destruct (decide (u = tk)) as [->|]; [|destruct (decide (u = mk)) as [->|]];
  cbn [mv_key mv_available mv_locked dl_user dl_asset dl_delta];
  repeat match goal with
  | |- context [String.eqb ?x ?x] => rewrite (String.eqb_refl x)
  | |- context [String.eqb ?x ?y] => destruct (String.eqb_spec x y); [congruence|]
  | |- context [decide (trading_key ?u1 ?c1 = trading_key ?u2 ?c2)] =>
      first [ rewrite (decide_True (P := trading_key u1 c1 = trading_key u2 c2)) by reflexivity
            | rewrite (decide_False (P := trading_key u1 c1 = trading_key u2 c2))
                by (rewrite trading_key_inj; congruence) ]
  end; simpl; try lia.

(** C29. Both ledgers account for the settlement. The rows of the event in the
    hash-chained ledger add up, for every user and each asset of the market, to the
    change of that user's trading account; and the balance ledger, if it was a complete
    running account of the trading buckets, still is. *)
Theorem settlement_ledgers_agree (env : settle_env) (row : SettlementRow) (d d' : settle_db)
    (m : market_assets) (a : trade_amounts) (n : EngineLiveNotifyPayload) :
  settle_input row d m a → processSettlementEventRow env row d = Ret (Some n, d') →
  let total u c b := available_balance (row_of (trading_key u c) b)
                     + locked_balance (row_of (trading_key u c) b) in
  (∀ u, recorded u (base m) (event_rows (row_id row) (ledger d'))
          = total u (base_currency_id m) (sd_balances d') - total u (base_currency_id m) (sd_balances d)
      ∧ recorded u (quote m) (event_rows (row_id row) (ledger d'))
          = total u (quote_currency_id m) (sd_balances d') - total u (quote_currency_id m) (sd_balances d)) ∧
  (ledger_complete (sd_balances d) → ledger_complete (sd_balances d')).
Proof.
  intros Hi Hrun total.
  destruct (settled_inv _ _ _ _ _ _ _ Hi Hrun) as (_ & Hne & Hv & [Hr _ Hlc] & Hl & _).
  split; [|done]. intros u. rewrite Hl, event_rows_appended, !recorded_chain;
    [|apply Hi|apply chain_event].
  destruct (net_credits m a (makerRebatesEnabled env) (si_market_ok _ _ _ _ Hi)
    (settle_input_amounts _ _ _ _ Hi) Hv) as (Hmnc & Htnc & Hdt & Hdm).
  destruct (si_market_ok _ _ _ _ Hi) as [Hassets Hcur _ _].
  unfold total. rewrite !Hr. unfold moved, add_buckets, ledger_deltas, trade_moves.
  rewrite Hmnc, Htnc, Hdt, Hdm. unfold line_delta, at_key.
  unfold lsum, foldr. cbn [mv_key mv_available mv_locked dl_user dl_asset dl_delta available_balance
    locked_balance].
  set (tk := taker_user_id _) in *. set (mk := maker_user_id _) in *.
  destruct (taker_side _); (split; account_cases tk mk u).
Qed.
(** With maker rebates on, a maker who is hit by a selling taker is not paid the
    rebate but charged the fee: the maker's quote account falls by the trade value plus
    the maker fee, while the trade records a negative maker fee, a rebate. The recorded
    fees then miss twice the maker fee of what left the accounts. *)
Theorem sell_rebate_is_charged (env : settle_env) (row : SettlementRow) (d d' : settle_db)
    (m : market_assets) (a : trade_amounts) (n : EngineLiveNotifyPayload) :
  settle_input row d m a → makerRebatesEnabled env = true → taker_side (row_payload row) = Sell →
  processSettlementEventRow env row d = Ret (Some n, d') →
  ∃ t, settlement_trades d' = settlement_trades d ++ [t] ∧ st_maker_fee t = - am_makerFee a ∧
    (let k := trading_key (maker_user_id (row_payload row)) (quote_currency_id m) in
     row_of k (sd_balances d') = add_buckets (row_of k (sd_balances d)) (- am_makerFee a)
                                   (- am_tradeVal a) 0 0 0) ∧
    funds (quote_currency_id m) (sd_balances d) - funds (quote_currency_id m) (sd_balances d')
      = st_taker_fee t + st_maker_fee t + 2 * am_makerFee a.
Proof.
  intros Hi Hreb Hsell Hrun.
  destruct (settled_inv _ _ _ _ _ _ _ Hi Hrun) as (_ & Hne & _ & [Hr Hf _] & _ & Ht & _).
  exists (trade_of env (row_payload row) a). split; [done|].
  unfold trade_of, maker_fee_recorded; simpl. rewrite Hreb. split; [done|].
  destruct (si_market_ok _ _ _ _ Hi) as [_ Hc _ _]. unfold trade_moves in Hr, Hf. rewrite Hsell in Hr, Hf.
  split.
  - rewrite Hr. unfold moved, lsum, foldr, at_key. cbn [mv_key mv_available mv_locked].
    rewrite !(decide_True (P := trading_key (maker_user_id _) (quote_currency_id m) = _)) by done.
    rewrite !(decide_False (P := trading_key _ _ = _)) by (rewrite trading_key_inj; congruence).
    f_equal; lia.
  - rewrite Hf. unfold lsum, foldr, in_currency; simpl. rewrite String.eqb_refl.
    destruct (String.eqb_spec (base_currency_id m) (quote_currency_id m)); [done|lia].
Qed.

End Settle.

(** ** Settling once *)
Section Once.
Context `{DecimalJs, Runtime}.

Lemma ledger_deltas_cons p m a rebates : ∃ l ls, ledger_deltas p m a rebates = l :: ls ∧ length ls = 3%nat.
Proof. unfold ledger_deltas. destruct (taker_side p); eauto. Qed.

Lemma chain_length prev id ls : length (chain_entries prev id ls) = length ls.
Proof. revert prev. induction ls; intros prev; simpl; auto. Qed.

Lemma settled_rows env row m a d d' :
  event_rows (row_id row) (ledger d) = [] → settles env row m a d d' →
  event_rows (row_id row) (ledger d')
  = chain_entries (last_hash (ledger d)) (row_id row)
      (ledger_deltas (row_payload row) m a (makerRebatesEnabled env)).
Proof.
  intros Hfresh (_ & _ & _ & _ & d1 & Hmv & Hrt).
  apply record_trade_inv in Hrt as (_ & Hl & _).
  apply move_funds_inv in Hmv as (b0 & b1 & _ & _ & _ & _ & _ & Hl1 & _).
  rewrite Hl, Hl1. apply event_rows_appended; [done|apply chain_event].
Qed.

Lemma resolve_same_tables s d d' m :
  markets d' = markets d → sd_currencies d' = sd_currencies d →
  resolveMarketAssets s d = Ret (m, d) → resolveMarketAssets s d' = Ret (m, d').
Proof.
  intros Hm Hc. unfold resolveMarketAssets, bind, gets, get_or. rewrite Hm.
  destruct (markets d !! s); [|done]. simpl. cbv zeta. rewrite Hc.
  repeat (match goal with |- context [match ?x with Some _ => ret _ | None => throw _ end _] =>
    destruct x; simpl; [|done] end). unfold ret. by intros [= <-].
Qed.

Definition same_books (d d' : settle_db) : Prop :=
  sd_balances d' = sd_balances d ∧ ledger d' = ledger d ∧
  settlement_trades d' = settlement_trades d ∧ spot_orders d' = spot_orders d ∧
  spot_trades d' = spot_trades d ∧ dlq d' = dlq d.

(** An event settles once: when an event has been settled, processing it again, for
    instance after a crash that lost its status, always succeeds, moves no money, writes
    no ledger row and no trade, and fills no order. *)
Theorem settlement_once (env env' : settle_env) (row : SettlementRow) (d d' : settle_db)
    (n : EngineLiveNotifyPayload) :
  processSettlementEventRow env row d = Ret (Some n, d') →
  ∃ d'', processSettlementEventRow env' row d' = Ret (None, d'') ∧ same_books d' d'' ∧
    (∀ i, i ≠ row_id row → events d'' !! i = events d' !! i).
Proof.
  intros Hrun. apply process_inv in Hrun as [(_ & [=] & _)|(Hfresh & m & a & Hm & Ha & _ & Hs)].
  pose proof (settled_rows _ _ _ _ _ _ Hfresh Hs) as Hrows.
  destruct Hs as (_ & _ & _ & _ & d1 & Hmv & Hrt).
  apply record_trade_inv in Hrt as (_ & _ & _ & _ & _ & Hmk & Hcu & _).
  apply move_funds_inv in Hmv as (_ & _ & _ & _ & _ & _ & _ & _ & _ & _ & _ & Hmk1 & Hcu1 & _).
  apply (resolve_same_tables _ _ d') in Hm; [|congruence|congruence].
  apply settlement_amounts_inv in Ha as (_ & pr & q & Hpr & Hq & _).
  unfold processSettlementEventRow. rewrite (bind_Ret _ _ _ _ _ eq_refl), Hrows.
  destruct (ledger_deltas_cons (row_payload row) m a (makerRebatesEnabled env)) as (l & ls & -> & _).
  rewrite bool_decide_eq_false_2 by done. cbn [negb].
  eassert (replay_row env' row d' = Ret (tt, _)) as Hreplay.
  { unfold replay_row, decimal_of. rewrite (bind_Ret _ _ _ _ _ Hm), Hpr, Hq. reflexivity. }
  rewrite (bind_Ret _ _ _ _ _ Hreplay). eexists. split; [reflexivity|]. split; [done|].
  intros i Hi. simpl. by rewrite lookup_alter_ne.
Qed.
End Once.

(** ** The hash chain of [settlement_ledger_entries] *)
Section Chain.
Context `{DecimalJs, Runtime}.

Definition row_line (r : ledger_row) : delta_line := DeltaLine (lr_user r) (lr_asset r) (lr_delta r).

(** Each row carries the hash of the row before it and its own. *)
Fixpoint chain_ok (prev : option string) (l : list ledger_row) : Prop :=
  match l with
  | [] => True
  | r :: l' => lr_prev_hash r = prev ∧ lr_entry_hash r = entry_hash prev (lr_event r) (row_line r)
               ∧ chain_ok (Some (lr_entry_hash r)) l'
  end.

(** The hash a chain that starts after [prev] ends with. *)
Definition end_hash (prev : option string) (l : list ledger_row) : option string :=
  match last_hash l with Some h => Some h | None => prev end.

Lemma end_hash_cons prev r l : end_hash prev (r :: l) = end_hash (Some (lr_entry_hash r)) l.
Proof. unfold end_hash, last_hash. destruct l as [|r' l]; [done|].
  change (last (r :: r' :: l)) with (last (r' :: l)).
  destruct (last (r' :: l)) eqn:E; [done|]. by apply last_None in E.
Qed.

Lemma chain_ok_app prev l1 l2 :
  chain_ok prev (l1 ++ l2) ↔ chain_ok prev l1 ∧ chain_ok (end_hash prev l1) l2.
Proof.
  revert prev. induction l1 as [|r l1 IH]; intros prev; simpl; [by intuition|].
  rewrite IH, end_hash_cons. tauto.
Qed.

Lemma chain_entries_ok prev id ls : chain_ok prev (chain_entries prev id ls).
Proof. revert prev. induction ls as [|l ls IH]; intros prev; simpl; [done|]. by destruct l. Qed.

(** The texts the hashes are taken of. *)
Definition chain_text (prev : option string) (r : ledger_row) : string :=
  join "|" [LEDGER_ENTRY_DOMAIN; default "" prev; pretty (lr_event r); lr_user r; lr_asset r;
            toNumeric (lr_delta r)].
Fixpoint chain_texts (prev : option string) (l : list ledger_row) : list string :=
  match l with
  | [] => []
  | r :: l' => chain_text prev r :: chain_texts (Some (lr_entry_hash r)) l'
  end.

Lemma chain_texts_app prev l1 l2 :
  chain_texts prev (l1 ++ l2) = chain_texts prev l1 ++ chain_texts (end_hash prev l1) l2.
Proof.
  revert prev. induction l1 as [|r l1 IH]; intros prev; [done|]. simpl.
  by rewrite IH, end_hash_cons.
Qed.

Definition hash_collision (texts : list string) : Prop :=
  ∃ x y, x ∈ texts ∧ y ∈ texts ∧ x ≠ y ∧ sha256 x = sha256 y.

Lemma chain_text_prev h1 h2 r1 r2 :
  String.length h1 = String.length h2 → chain_text (Some h1) r1 = chain_text (Some h2) r2 → h1 = h2.
Proof.
  intros Hlen Heq. unfold chain_text in Heq. cbn [join default] in Heq.
  apply string_app_inj in Heq as [_ Heq]; [|done]. apply string_app_inj in Heq as [_ Heq]; [|done].
  by apply string_app_inj in Heq as [? _].
Qed.

(** The ledger is tamper-evident: take two valid chains with as many rows and the
    same last hash. Either every row of one hashes the same text (event, user, asset,
    amount and predecessor) as the row at the same place in the other, or the two
    chains exhibit a collision of SHA-256. So no row can be changed behind a recorded
    last hash. *)
Theorem ledger_tamper_evident (l1 l2 : list ledger_row) :
  (∀ x, String.length (sha256 x) = 64%nat) →
  chain_ok None l1 → chain_ok None l2 → length l1 = length l2 → last_hash l1 = last_hash l2 →
  chain_texts None l1 = chain_texts None l2
  ∨ hash_collision (chain_texts None l1 ++ chain_texts None l2).
Proof.
  intros H64. revert l2. induction l1 as [|r1 l1 IH] using rev_ind; intros l2 Hok1 Hok2 Hlen Hlast.
  { destruct l2; [by left|done]. }
  destruct l2 as [|r2 l2 _] using rev_ind; [rewrite length_app in Hlen; simpl in Hlen; lia|].
  rewrite !length_app in Hlen. simpl in Hlen. assert (length l1 = length l2) as Hlen' by lia.
  apply chain_ok_app in Hok1 as [Hok1 (Hp1 & Hh1 & _)], Hok2 as [Hok2 (Hp2 & Hh2 & _)].
  unfold last_hash in Hlast. rewrite !last_snoc in Hlast. simpl in Hlast. injection Hlast as Hlast.
  rewrite !chain_texts_app. simpl.
  set (t1 := chain_text (end_hash None l1) r1). set (t2 := chain_text (end_hash None l2) r2).
  assert (sha256 t1 = sha256 t2) as Hsha by (rewrite Hh1, Hh2 in Hlast; exact Hlast).
  destruct (decide (t1 = t2)) as [Ht|Hne]; [|right; exists t1, t2; set_solver].
  assert (last_hash l1 = last_hash l2) as Hends.
  { unfold t1, t2, end_hash in Ht. unfold last_hash in *.
    destruct (last l1) as [e1|] eqn:E1, (last l2) as [e2|] eqn:E2; simpl in *; [|exfalso|exfalso|done].
    - f_equal. eapply chain_text_prev; [|exact Ht].
      apply last_Some in E1 as (l1' & ->), E2 as (l2' & ->).
      apply chain_ok_app in Hok1 as [_ (_ & -> & _)], Hok2 as [_ (_ & -> & _)].
      unfold entry_hash. by rewrite !H64.
    - apply last_None in E2 as ->. by destruct l1.
    - apply last_None in E1 as ->. by destruct l2. }
  destruct (IH l2 Hok1 Hok2 Hlen' Hends) as [Heq|(x & y & Hx & Hy & Hcol)].
  - left. by rewrite Heq, Ht.
  - right. exists x, y. set_solver.
Qed.
End Chain.
