(* ===== verification/SettlementDemo.v ===== *)
(** * Settlement: a concrete market

    A runtime (decimal texts, a 64-digit hash, code-unit string order) and a database
    with one market, two users and their orders, on which the theorems are evaluated. *)
From stdpp Require Import base gmap strings list fin_maps pretty.
From Stdlib Require Import ZArith Lia Ascii.
From S2P Require Import Prelude Money Balances Escrow Halt SettlementModel Settlement.
Local Open Scope Z_scope.

(** ** A runtime *)
Definition digit_of (c : ascii) : option Z :=
  let n := Z.of_N (N_of_ascii c) in
  if (48 <=? n) && (n <=? 57) then Some (n - 48) else None.

(** Decimal texts: digits with at most one point. *)
Fixpoint parse_digits (s : string) (acc : Z) (places : option Z) : option Z :=
  match s with
  | "" => Some (acc * 10 ^ (SCALE - default 0 places))
  | String c s' =>
      if Ascii.eqb c "."%char then
        match places with None => parse_digits s' acc (Some 0) | Some _ => None end
      else d ← digit_of c; parse_digits s' (acc * 10 + d) (Z.succ <$> places)
  end.
Definition demo_decimal (s : string) : option decval :=
  if String.eqb s "" then None
  else if String.eqb s "Infinity" then Some NonFinite
  else Fin <$> parse_digits s 0 None.

Fixpoint text_hash (s : string) (acc : Z) : Z :=
  match s with
  | "" => acc
  | String c s' => text_hash s' ((acc * 257 + Z.of_N (N_of_ascii c)) mod 2147483648)
  end.
Fixpoint hex_digits (n : nat) (x : Z) : string :=
  match n with
  | O => ""
  | S n' => String (ascii_of_N (48 + Z.to_N (x mod 16))) (hex_digits n' (x / 16))
  end.
Definition demo_hash (s : string) : string := hex_digits 64 (text_hash s 1).

Lemma demo_hash_length s : String.length (demo_hash s) = 64%nat.
Proof.
  unfold demo_hash. generalize 64%nat (text_hash s 1). intros n. induction n; intros x; simpl; auto.
Qed.

(** ** A trade *)
Definition taker_id : string := "11111111-1111-4111-8111-111111111111".
Definition maker_id : string := "22222222-2222-4222-8222-222222222222".

Definition demo_payload_of (id : Z) (taker_side : side) (qty : string) : EnginePayload :=
  {| event_id := Some id; p_match_engine_id := Some "engine-0"; symbol := "BTC_USDT";
     price := "50000.5"; qty := qty; taker_order_id := "order-t"; maker_order_id := "order-m";
     taker_user_id := taker_id; maker_user_id := maker_id; taker_side := taker_side;
     timestamp := Some 1700000000 |}.

(** Of JSON texts, this runtime reads the one of a stored payload, and strings. *)
#[export] Instance demo_runtime : Runtime := {|
  sha256 := demo_hash;
  JSON_parse := λ s, if String.eqb s "" then None
                     else if String.eqb s "payload" then Some (payload_json (demo_payload_of 1 Buy "0.2"))
                     else Some (JStr s);
  Number_of_string := λ s, x ← parse_digits s 0 None; Some (x / one);
  locale_le := String.leb;
  parse_decimal := demo_decimal;
  toNumeric := pretty;
|}.
#[export] Existing Instance decimal_36.

(** ** A database *)
Definition wallet (av lk : Z) : user_balance := UserBalance av lk 0 0 0.
Definition demo_rows : gmap bal_key user_balance :=
  list_to_map
    [(trading_key taker_id "usdt", wallet (dec 100 0) (dec 20000 0));
     (trading_key taker_id "btc", wallet 0 (dec 1 0));
     (trading_key maker_id "btc", wallet 0 (dec 1 0));
     (trading_key maker_id "usdt", wallet (dec 50 0) (dec 20000 0))].

Definition demo_shape : SpotTradesShape :=
  {| hasMarket := true; hasTradingPairId := false; hasUserId := true; hasOrderId := true;
     hasMakerUserId := false; hasTakerUserId := false; hasMakerOrderId := false;
     hasTakerOrderId := false; hasTakerSide := false; hasFeeAsset := true; hasFee := true;
     columns := ["market"; "user_id"; "order_id"; "fee"; "fee_asset"] |}.
Definition demo_env (rebates : bool) : settle_env := SettleEnv rebates false demo_shape "ref-1".

Definition pending_event (id : Z) (payload : json) : settlement_event :=
  SettlementEvent "engine-0" id payload EvPending 0 None None.

Definition demo_markets : gmap string market :=
  {["BTC_USDT" := Market "BTC" "USDT" (Some "btc") (Some "usdt") (Some 2) (Some 6)]}.
Definition demo_currencies : list currency_row :=
  [CurrencyRow "usdt" "USDT" (Some 6); CurrencyRow "btc" "BTC" (Some 8)].

Definition demo_db (evs : gmap Z settlement_event) : settle_db :=
  {| sd_balances := Balances demo_rows [];
     events := evs; ledger := []; settlement_trades := [];
     spot_orders := list_to_map
       [("order-t", SpotOrder (dec 1 0) 0 (Some (dec 1 0)) "open");
        ("order-m", SpotOrder (dec 1 0) 0 (Some (dec 1 0)) "open")];
     spot_trades := []; dlq := [];
     markets := demo_markets; sd_currencies := demo_currencies;
     sd_users := {[taker_id; maker_id]};
     trading_pairs := ∅ |}.

Definition demo_market : market_assets := MarketAssets "BTC" "USDT" "btc" "usdt" 2 6 6.
Definition demo_row (s : side) : SettlementRow := SettlementRowOf 1 1 "engine-0" (demo_payload_of 1 s "0.2").
Definition demo_amounts : trade_amounts :=
  TradeAmounts (dec 500005 1) (dec 2 1) (dec 100001 1) (dec 100001 4) (dec 500005 5).

(** Representable balances, decided row by row. *)
Definition column_b (x : Z) : bool := (x mod 10 ^ 18 =? 0) && (0 <=? x) && (x <? 10 ^ 53).
Definition fits_b (rows : gmap bal_key user_balance) : bool :=
  forallb (λ x, column_b (available_balance (snd x)) && column_b (locked_balance (snd x))) (map_to_list rows).

Lemma column_b_true x : column_b x = true → column x.
Proof.
  unfold column_b, column. intros Hx. change (17 + precision) with 53.
  apply andb_prop in Hx as [Hx Hlt]. apply andb_prop in Hx as [Hmod H0].
  split; [|split; [by apply Z.leb_le|by apply Z.ltb_lt]].
  apply Z.mod_divide; [vm_compute; discriminate|by apply Z.eqb_eq].
Qed.

Lemma fits_b_true b : fits_b (user_balances b) = true → fits b.
Proof.
  unfold fits_b. intros Hb k. unfold row_of.
  destruct (user_balances b !! k) as [r|] eqn:E.
  - apply elem_of_map_to_list, list_elem_of_In in E.
    rewrite forallb_forall in Hb. specialize (Hb _ E). apply andb_prop in Hb as [Ha Hl].
    exact (conj (column_b_true _ Ha) (column_b_true _ Hl)).
  - split; apply column_b_true; vm_compute; reflexivity.
Qed.

Lemma demo_price : parse_decimal "50000.5" = Some (Fin (dec 500005 1)).
Proof. vm_compute. reflexivity. Qed.

Lemma demo_resolve (d : settle_db) :
  markets d = demo_markets → sd_currencies d = demo_currencies →
  resolveMarketAssets "BTC_USDT" d = Ret (demo_market, d).
Proof.
  intros Hm Hc. unfold resolveMarketAssets, bind, gets.
  assert (demo_markets !! "BTC_USDT"
    = Some (Market "BTC" "USDT" (Some "btc") (Some "usdt") (Some 2) (Some 6))) as Hl
    by (vm_compute; reflexivity).
  rewrite Hm, Hl. simpl. rewrite Hc. vm_compute. reflexivity.
Qed.

Lemma demo_amounts_ok s (d : settle_db) :
  settlement_amounts (row_payload (demo_row s)) demo_market d = Ret (demo_amounts, d).
Proof. destruct s; vm_compute; reflexivity. Qed.

Lemma demo_fits : fits (Balances demo_rows []).
Proof. apply fits_b_true. vm_compute. reflexivity. Qed.

Lemma demo_input s evs : settle_input (demo_row s) (demo_db evs) demo_market demo_amounts.
Proof.
  split.
  - done.
  - by apply demo_resolve.
  - apply demo_amounts_ok.
  - split; [done|done|simpl; lia|simpl; lia].
  - intros x Hx. pose proof (eq_trans (eq_sym demo_price) Hx) as Ex. injection Ex as <-.
    vm_compute. discriminate.
  - intros u Hu. apply elem_of_union in Hu as [->%elem_of_singleton| ->%elem_of_singleton]; done.
  - apply demo_fits.
Qed.

(** The result of a run that settled. *)
Definition settled_db (out : outcome (option EngineLiveNotifyPayload * settle_db)) :
    option (EngineLiveNotifyPayload * settle_db) :=
  match out with Ret (Some n, d) => Some (n, d) | _ => None end.
Definition demo_run (rebates : bool) (s : side) : option (EngineLiveNotifyPayload * settle_db) :=
  settled_db (processSettlementEventRow (demo_env rebates) (demo_row s) (demo_db ∅)).

Lemma demo_run_settles rebates s :
  ∃ n d', processSettlementEventRow (demo_env rebates) (demo_row s) (demo_db ∅) = Ret (Some n, d').
Proof.
  assert (is_Some (demo_run rebates s)) as [[n d'] Hrun].
  { assert (match demo_run rebates s with Some _ => true | None => false end = true) as Hb
      by (destruct rebates, s; vm_compute; reflexivity).
    destruct (demo_run rebates s); [eauto|done]. }
  unfold demo_run, settled_db in Hrun.
  destruct (processSettlementEventRow _ _ _) as [[[n'|] d'']|e]; [|done|done]. eauto.
Qed.

(** ** The theorems on this database *)
Lemma settlement_exact_witness :
  ∃ n d', processSettlementEventRow (demo_env false) (demo_row Buy) (demo_db ∅) = Ret (Some n, d') ∧
    settlement_trades d' = [trade_of (demo_env false) (demo_payload_of 1 Buy "0.2") demo_amounts] ∧
    row_of (trading_key taker_id "usdt") (sd_balances d') = wallet (dec 899999 4) (dec 99999 1) ∧
    row_of (trading_key maker_id "usdt") (sd_balances d') = wallet (dec 1004509995 5) (dec 20000 0).
Proof.
  destruct (demo_run_settles false Buy) as (n & d' & Hrun). exists n, d'. split; [exact Hrun|].
  destruct (settlement_exact (demo_env false) (demo_row Buy) (demo_db ∅) d' demo_market demo_amounts n
    (demo_input Buy ∅) (or_introl eq_refl) Hrun) as (Ht & Hk & _ & _).
  split; [exact Ht|]. rewrite !Hk. split; vm_compute; reflexivity.
Defined.


Lemma settlement_ledgers_agree_witness :
  ∃ n d', processSettlementEventRow (demo_env false) (demo_row Sell) (demo_db ∅) = Ret (Some n, d') ∧
    recorded maker_id "USDT" (event_rows 1 (ledger d')) = - dec 1000510005 5.
Proof.
  destruct (demo_run_settles false Sell) as (n & d' & Hrun). exists n, d'. split; [exact Hrun|].
  destruct (settlement_ledgers_agree (demo_env false) (demo_row Sell) (demo_db ∅) d' demo_market
    demo_amounts n (demo_input Sell ∅) Hrun) as (Hu & _).
  destruct (settled_inv _ _ _ _ _ _ _ (demo_input Sell ∅) Hrun) as (_ & _ & _ & [Hr _ _] & _).
  change "USDT" with (quote demo_market). change 1 with (row_id (demo_row Sell)).
  rewrite (proj2 (Hu maker_id)), !Hr. vm_compute. reflexivity.
Defined.

Lemma sell_rebate_is_charged_witness :
  ∃ n d', processSettlementEventRow (demo_env true) (demo_row Sell) (demo_db ∅) = Ret (Some n, d') ∧
    row_of (trading_key maker_id "usdt") (sd_balances d') = wallet (dec 4499995 5) (dec 99999 1).
Proof.
  destruct (demo_run_settles true Sell) as (n & d' & Hrun). exists n, d'. split; [exact Hrun|].
  destruct (sell_rebate_is_charged (demo_env true) (demo_row Sell) (demo_db ∅) d' demo_market
    demo_amounts n (demo_input Sell ∅) eq_refl eq_refl Hrun) as (t & _ & _ & Hk & _).
  transitivity (add_buckets (row_of (trading_key maker_id "usdt") (Balances demo_rows []))
    (- am_makerFee demo_amounts) (- am_tradeVal demo_amounts) 0 0 0); [exact Hk|].
  vm_compute. reflexivity.
Defined.

Lemma settlement_once_witness :
  ∃ n d' d'', processSettlementEventRow (demo_env false) (demo_row Buy) (demo_db ∅) = Ret (Some n, d')
    ∧ processSettlementEventRow (demo_env true) (demo_row Buy) d' = Ret (None, d'') ∧ same_books d' d''.
Proof.
  destruct (demo_run_settles false Buy) as (n & d' & Hrun).
  destruct (settlement_once (demo_env false) (demo_env true) (demo_row Buy) (demo_db ∅) d' n Hrun)
    as (d'' & Hrun' & Hsame & _).
  exists n, d', d''. split; [exact Hrun|]. split; [exact Hrun'|exact Hsame].
Defined.

Lemma ledger_tamper_evident_witness :
  let l := chain_entries None 1 (ledger_deltas (demo_payload_of 1 Buy "0.2") demo_market demo_amounts false) in
  length l = 4%nat ∧ (chain_texts None l = chain_texts None l ∨ hash_collision (chain_texts None l ++ chain_texts None l)).
Proof.
  split; [vm_compute; reflexivity|].
  apply (ledger_tamper_evident
    (chain_entries None 1 (ledger_deltas (demo_payload_of 1 Buy "0.2") demo_market demo_amounts false))
    (chain_entries None 1 (ledger_deltas (demo_payload_of 1 Buy "0.2") demo_market demo_amounts false))).
  - apply demo_hash_length.
  - apply chain_entries_ok.
  - apply chain_entries_ok.
  - reflexivity.
  - reflexivity.
Defined.
