(* ===== verification/SettlementWorker.v ===== *)
(** * Settlement: the worker, the stream consumer and the circuit

    [settlement-worker.ts] ([processOneEvent], [runOnce], the JetStream entry),
    [match-events-settlement-stream.service.ts] (what is done with a message) and
    [settlement-circuit.ts]. A worker holds the database, the in-process halt flag and
    the two Redis keys; a step is one poll tick, one claimed event or one message. The
    UPDATEs that record a failure run outside a transaction: the connection may be lost
    before any of them ([te_marks]). *)
From stdpp Require Import base gmap strings list fin_maps pretty.
From Stdlib Require Import ZArith Lia Ascii.
From S2P Require Import Prelude Money Balances Escrow Halt SettlementModel.
Local Open Scope Z_scope.

Definition MAX_RETRIES : Z := 10.

(** [s.includes(sub)] *)
Definition includes (sub s : string) : bool := bool_decide (is_Some (String.index 0 sub s)).

(** ** State *)
Record worker_state := WorkerState {
  w_db : settle_db;
  (** the module variable [tradingHalted] *)
  w_halted : bool;
  redis_halt : option string;
  redis_circuit : option string;
  (** what the live book was told: the settlements that committed *)
  w_notified : list EngineLiveNotifyPayload;
  (** the messages published to the stream's dead-letter subject: phase and reason *)
  w_stream_dlq : list (string * string);
}.
Definition on_db (f : settle_db → settle_db) (w : worker_state) : worker_state :=
  WorkerState (f (w_db w)) (w_halted w) (redis_halt w) (redis_circuit w) (w_notified w) (w_stream_dlq w).
Definition set_halted (h : bool) (w : worker_state) : worker_state :=
  WorkerState (w_db w) h (redis_halt w) (redis_circuit w) (w_notified w) (w_stream_dlq w).
Definition set_circuit (v : option string) (w : worker_state) : worker_state :=
  WorkerState (w_db w) (w_halted w) (redis_halt w) v (w_notified w) (w_stream_dlq w).
Definition notify (n : option EngineLiveNotifyPayload) (w : worker_state) : worker_state :=
  WorkerState (w_db w) (w_halted w) (redis_halt w) (redis_circuit w)
    (w_notified w ++ option_list n) (w_stream_dlq w).
Definition publish_stream_dlq (phase reason : string) (w : worker_state) : worker_state :=
  WorkerState (w_db w) (w_halted w) (redis_halt w) (redis_circuit w) (w_notified w)
    (w_stream_dlq w ++ [(phase, reason)]).

(** What one step depends on besides the state: the configuration, the ids of the rows
    other transactions hold, whether the writes that are only logged when they fail
    succeed, the errors the Redis reads meet before they are answered, and how many of the
    UPDATEs that record a failure are made before the connection (or the process) is lost. *)
Record tick_env := TickEnv {
  te_settle : settle_env;
  te_locked : list Z;
  te_dlq_ok : bool;
  te_redis_ok : bool;
  te_halt_errors : list string;
  te_circuit_errors : list string;
  te_marks : nat;
}.

Definition redis_reads (errors : list string) (v : option string) : list redis_read :=
  map Throw errors ++ [Ret v].
Definition global_halt (t : tick_env) (w : worker_state) : bool :=
  Halt.getTradingHalted (redis_reads (te_halt_errors t) (redis_halt w)).
Definition circuit_open (t : tick_env) (w : worker_state) : bool :=
  getSettlementCircuitOpen (redis_reads (te_circuit_errors t) (redis_circuit w)).

(** ** [settlement-circuit.ts] *)
Definition CIRCUIT_OPEN_ERRORS : list string :=
  ["GLOBAL_LEDGER_INVARIANT_VIOLATION"; "GLOBAL_BALANCE_INVARIANT_VIOLATION";
   "SETTLEMENT_LEDGER_AGGREGATE_MISMATCH"; "SETTLEMENT_HASH_MISMATCH"; "LEDGER_CHAIN_VIOLATION";
   "LEDGER_IMMUTABLE_VIOLATION"; "ORDER_INVARIANT_VIOLATION"; "FEE_INVARIANT_VIOLATION";
   "WALLET_RECONCILIATION_DRIFT"; "LEDGER_COMPACTION_INVARIANT_VIOLATION"].

(** The Redis write is not awaited and only logged when it fails. *)
Definition triggerCircuitIfViolation (redis_ok : bool) (errMsg : string) (w : worker_state) :
    worker_state :=
  if bool_decide (errMsg ∈ CIRCUIT_OPEN_ERRORS) then
    let w := set_halted true w in
    if redis_ok then set_circuit (setSettlementCircuitOpen true) w else w
  else w.

(** ** Failures *)
Definition isFatalError (e : string) : bool :=
  bool_decide (e ∈ ["INSUFFICIENT_LOCKED_FUNDS"; "INSUFFICIENT_FUNDS_FOR_FEE";
    "ORDER_INVARIANT_VIOLATION"; "FEE_INVARIANT_VIOLATION"; "GLOBAL_BALANCE_INVARIANT_VIOLATION";
    "GLOBAL_LEDGER_INVARIANT_VIOLATION"; "SETTLEMENT_HASH_MISMATCH"; "LEDGER_CHAIN_VIOLATION";
    "LEDGER_IMMUTABLE_VIOLATION"; "LEDGER_CONSISTENCY_VIOLATION";
    "MISSING_BALANCE_ROW_FOR_LOCKED_DEBIT"; "MARKET_NOT_FOUND"; "MARKET_CURRENCY_NOT_FOUND";
    "TRADING_PAIR_NOT_FOUND_FOR_SYMBOL"])
  || String.prefix "SPOT_TRADES_SCHEMA_UNSUPPORTED" e || String.prefix "SETTLEMENT_PAYLOAD_" e
  || String.eqb e "SELF_TRADE_REJECTED" || includes "negative balance" e
  || String.prefix "[INVARIANT_VIOLATION]" e
  || String.prefix "Settlement would result in negative balance" e.

(** [fatalNonRetryable] of the stream consumer *)
Definition fatalNonRetryable (e : string) : bool :=
  String.prefix "STREAM_MATCH_EVENT_INVALID" e || String.prefix "SETTLEMENT_PAYLOAD_" e
  || String.eqb e "SELF_TRADE_REJECTED" || String.prefix "FEE_INVARIANT" e
  || String.prefix "ORDER_INVARIANT" e || String.prefix "GLOBAL_" e || String.prefix "LEDGER_" e
  || String.prefix "SPOT_TRADES_SCHEMA" e || String.prefix "MARKET_" e
  || String.prefix "TRADING_PAIR_" e || includes "negative balance" e.

Definition js_slice (n : nat) (s : string) : string := String.substring 0 n s.

(** [UPDATE settlement_events SET status = 'failed', last_error = e] *)
Definition event_failed (err : option string) (e : settlement_event) : settlement_event :=
  SettlementEvent (ev_engine e) (ev_engine_event e) (ev_payload e) EvFailed (ev_retry_count e)
    (ev_hash e) (match err with Some m => Some m | None => ev_last_error e end).
Definition event_retried (err : string) (e : settlement_event) : settlement_event :=
  SettlementEvent (ev_engine e) (ev_engine_event e) (ev_payload e) (ev_status e)
    (ev_retry_count e + 1) (ev_hash e) (Some err).
Definition alter_event (id : Z) (f : settlement_event → settlement_event) (d : settle_db) :
    settle_db := set_events (alter f id (events d)) d.

(** The payload with the engine's id the caller resolved. *)
Definition with_engine (p : EnginePayload) (engine : string) : EnginePayload :=
  {| event_id := event_id p; p_match_engine_id := Some engine; symbol := symbol p;
     price := price p; qty := qty p; taker_order_id := taker_order_id p;
     maker_order_id := maker_order_id p; taker_user_id := taker_user_id p;
     maker_user_id := maker_user_id p; taker_side := taker_side p; timestamp := timestamp p |}.

Section Worker.
Context `{DecimalJs, Runtime}.

(** [typeof payload === 'string' ? payload : JSON.stringify(payload ?? {})], cast to
    JSON by the INSERT: a text that is not JSON makes the INSERT fail. *)
Definition dlq_payload_json (payload : json) : option json :=
  match payload with
  | JStr s => JSON_parse s
  | JNull => Some (JObj [])
  | v => Some v
  end.

Definition appendSettlementDlq (ok : bool) (id engine_event : Z) (engine : string) (payload : json)
    (err : string) (d : settle_db) : settle_db :=
  match dlq_payload_json payload with
  | Some j => if ok then append_dlq (DlqRow id engine_event engine j (js_slice 2000 err)) d else d
  | None => d
  end.

(** ** [processOneEvent] *)
Definition eligible (e : settlement_event) : bool :=
  bool_decide (ev_status e = EvPending) && (ev_retry_count e <? MAX_RETRIES).

(** [... ORDER BY id ASC LIMIT 1 FOR UPDATE SKIP LOCKED] *)
Definition claim (locked : list Z) (d : settle_db) : option (Z * settlement_event) :=
  head (sort_by (λ a b, fst a <=? fst b)
    (filter (λ x, eligible (snd x) = true ∧ fst x ∉ locked) (map_to_list (events d)))).

Definition row_engine (e : settlement_event) (dflt : string) : string :=
  if String.eqb (ev_engine e) "" then dflt else ev_engine e.

Definition connection_lost : string := "Connection terminated".

(** After the ROLLBACK of an event that could not be settled. The retry and the failure are
    two UPDATEs; without the second the event stays pending with its retries used up. *)
Definition record_failure (t : tick_env) (row : SettlementRow) (errMsg : string) (w : worker_state) :
    outcome bool * worker_state :=
  let id := row_id row in
  let msg := js_slice 1000 errMsg in
  let dlq := appendSettlementDlq (te_dlq_ok t) id (row_engine_event_id row) (row_match_engine_id row)
               (payload_json (row_payload row)) errMsg in
  let w := triggerCircuitIfViolation (te_redis_ok t) errMsg w in
  match te_marks t with
  | O => (Throw connection_lost, w)
  | S marks =>
      if isFatalError errMsg then (Ret true, on_db (λ d, dlq (alter_event id (event_failed (Some msg)) d)) w)
      else
        let w := on_db (alter_event id (event_retried msg)) w in
        let newRetryCount := default 0 (ev_retry_count <$> events (w_db w) !! id) in
        if MAX_RETRIES <=? newRetryCount then
          match marks with
          | O => (Throw connection_lost, w)
          | S _ => (Ret true, on_db (λ d, dlq (alter_event id (event_failed None) d)) w)
          end
        else (Ret true, w)
  end.

(** Whether an event was processed; it throws when the connection is lost. *)
Definition processOneEvent (t : tick_env) (w : worker_state) : outcome bool * worker_state :=
  match claim (te_locked t) (w_db w) with
  | None => (Ret false, w)
  | Some (id, e) =>
      let engine := row_engine e "default" in
      match normalizeSettlementPayload (ev_payload e) (w_db w) with
      | Throw msg =>
          match te_marks t with
          | O => (Throw connection_lost, w)
          | S _ =>
              (Ret true, on_db (λ d, appendSettlementDlq (te_dlq_ok t) id (ev_engine_event e) engine
                                       (ev_payload e) msg
                                       (alter_event id (event_failed (Some (js_slice 1000 msg))) d)) w)
          end
      | Ret (payload, _) =>
          let row := SettlementRowOf id (ev_engine_event e) engine payload in
          match transaction (processSettlementEventRow (te_settle t) row) (w_db w) with
          | (Ret liveNotify, d) => (Ret true, notify liveNotify (on_db (λ _, d) w))
          | (Throw errMsg, d) => record_failure t row errMsg (on_db (λ _, d) w)
          end
      end
  end.

(** ** [runOnce] *)
Definition clear_stale_halt (t : tick_env) (w : worker_state) : worker_state :=
  if w_halted w && negb (circuit_open t w) && negb (global_halt t w) then set_halted false w else w.

(** The batch loop: [io i] is what the [i]-th call depends on. A call that throws ends the
    tick; the error is only logged. *)
Fixpoint drain (limit : nat) (io : nat → tick_env) (w : worker_state) : worker_state :=
  match limit with
  | O => w
  | S n => match processOneEvent (io n) w with
           | (Ret true, w') => drain n io w'
           | (_, w') => w'
           end
  end.

Definition runOnce (batchSize : nat) (t : tick_env) (io : nat → tick_env) (w : worker_state) :
    worker_state :=
  let redisGlobalHalt := global_halt t w in
  let circuitOpen := circuit_open t w in
  let w := clear_stale_halt t w in
  if w_halted w then w
  else if redisGlobalHalt then w
  else if circuitOpen then w
  else drain batchSize io w.

(** ** [admin-operations.fastify.ts], the recovery action [replay_failed] *)

(** [UPDATE settlement_events SET status = 'pending'] of the failed events that were
    [picked]; their retries are not reset. *)
Definition event_reopened (e : settlement_event) : settlement_event :=
  SettlementEvent (ev_engine e) (ev_engine_event e) (ev_payload e) EvPending (ev_retry_count e)
    (ev_hash e) (ev_last_error e).
Definition replay_failed (picked : list Z) (d : settle_db) : settle_db :=
  set_events (map_imap (λ id e, Some (if bool_decide (id ∈ picked ∧ ev_status e = EvFailed)
                                      then event_reopened e else e)) (events d)) d.

(** ** [ingestAndSettleMatchEventFromJetStream] *)
Inductive JetStreamSettleOutcome :=
  | Settled (liveNotify : option EngineLiveNotifyPayload)
  | AlreadyDone.

(** [String(raw.k ?? '')] *)
Definition nullish (v : option json) : option json :=
  match v with Some JNull | None => None | Some x => Some x end.
Definition text_or (v : option json) (dflt : string) : string :=
  match nullish v with Some x => js_string x | None => dflt end.

(** [String(raw.engine_id ?? raw.match_engine_id ?? 'default').trim() || 'default'] *)
Definition stream_engine (raw : json) : string :=
  let t := js_trim (match nullish (json_field raw "engine_id") with
                    | Some x => js_string x
                    | None => text_or (json_field raw "match_engine_id") "default"
                    end) in
  if String.eqb t "" then "default" else t.

Definition stream_payload (raw : json) (engine : string) (eventId : Z) : json :=
  let s k := (k, JStr (text_or (json_field raw k) "")) in
  JObj [("event_id", JNum (Some eventId)); ("match_engine_id", JStr engine);
        s "symbol"; s "price"; s "qty"; s "taker_order_id"; s "maker_order_id";
        s "taker_user_id"; s "maker_user_id"; s "taker_side";
        ("timestamp", JNum (js_number (json_field raw "timestamp")))].

Definition find_event (engine : string) (eventId : Z) (d : settle_db) : option (Z * settlement_event) :=
  find (λ x, String.eqb (ev_engine (snd x)) engine && (ev_engine_event (snd x) =? eventId))
    (map_to_list (events d)).

(** [INSERT ... ON CONFLICT (match_engine_id, engine_event_id) DO NOTHING], or the row
    that is there; [newId] is the next id of the sequence. *)
Definition insert_event (newId : Z) (engine : string) (eventId : Z) (payload : json) :
    M settle_db Z :=
  let* existing := gets (find_event engine eventId) in
  match existing with
  | Some (id, _) => ret id
  | None =>
      let* clash := gets (λ d, events d !! newId) in
      require (bool_decide (clash = None)) "duplicate key value violates unique constraint" ;;;
      modify (λ d, set_events (<[newId := SettlementEvent engine eventId payload EvPending 0 None
                                            None]> (events d)) d) ;;;
      ret newId
  end.

Definition ingest_body (env : settle_env) (newId : Z) (raw : json) : M settle_db JetStreamSettleOutcome :=
  require (match raw with JNull => false | _ => true end) "Cannot read properties of null" ;;;
  let engine := stream_engine raw in
  let* eventId := get_or (js_number (json_field raw "event_id")) "STREAM_MATCH_EVENT_INVALID_ID" in
  require (negb (eventId <? 1)) "STREAM_MATCH_EVENT_INVALID_ID" ;;;
  let* payload := normalizeSettlementPayload (stream_payload raw engine eventId) in
  let stored := with_engine payload engine in
  let* rowId := insert_event newId engine eventId (payload_json stored) in
  let* sel := gets (λ d, events d !! rowId) in
  let* lr := get_or sel "STREAM_MATCH_EVENT_ROW_MISSING" in
  if bool_decide (ev_status lr = EvPending) then
    let* pl := normalizeSettlementPayload (ev_payload lr) in
    let row := SettlementRowOf rowId (ev_engine_event lr) (row_engine lr engine) pl in
    let* liveNotify := processSettlementEventRow env row in
    ret (Settled liveNotify)
  else ret AlreadyDone.

Definition ingestAndSettleMatchEventFromJetStream (env : settle_env) (newId : Z) (raw : json)
    (d : settle_db) : outcome JetStreamSettleOutcome * settle_db :=
  transaction (ingest_body env newId raw) d.

(** ** [handleSettlementJsMessage] *)
Inductive js_reply := Ack | Nak | Term.

Definition handleSettlementJsMessage (t : tick_env) (newId : Z) (text : string) (w : worker_state) :
    js_reply * worker_state :=
  let w := clear_stale_halt t w in
  if w_halted w || global_halt t w then (Nak, w)
  else if circuit_open t w then (Nak, w)
  else
    match JSON_parse text with
    | None => (Term, publish_stream_dlq "json_parse" "invalid_json" w)
    | Some raw =>
        match ingestAndSettleMatchEventFromJetStream (te_settle t) newId raw (w_db w) with
        | (Ret r, d) =>
            let n := match r with Settled n => n | AlreadyDone => None end in
            (Ack, notify n (on_db (λ _, d) w))
        | (Throw msg, d) =>
            let w := triggerCircuitIfViolation (te_redis_ok t) msg (on_db (λ _, d) w) in
            if fatalNonRetryable msg then (Term, publish_stream_dlq "settlement_fatal" (js_slice 4000 msg) w)
            else (Nak, w)
        end
    end.
End Worker.
