(* ===== verification/SettlementRuns.v ===== *)
(** * Settlement: runs of the worker

    The books that every run keeps, what one tick can do to an event, that the worker
    empties its queue, the circuit breaker, and the stream's idempotence. *)
From stdpp Require Import base gmap strings list fin_maps pretty.
From Stdlib Require Import ZArith Lia Ascii.
From S2P Require Import Prelude Money Balances Escrow Halt SettlementModel Settlement.
From S2P Require Import SettlementDemo SettlementWorker.
Local Open Scope Z_scope.

(** ** The books *)
Section Books.
Context `{DecimalJs, Runtime}.

Record books (d : settle_db) : Prop := {
  bk_wf : balances_wf (sd_balances d);
  bk_chain : chain_ok None (ledger d);
  bk_rows : ∀ id, event_rows id (ledger d) ≠ [] ↔
              ∃ e, events d !! id = Some e ∧ ev_status e = EvProcessed;
  bk_four : ∀ id, event_rows id (ledger d) = [] ∨ length (event_rows id (ledger d)) = 4%nat;
  bk_trades : length (ledger d) = (4 * length (settlement_trades d))%nat;
  bk_retry : ∀ id e, events d !! id = Some e → 0 ≤ ev_retry_count e ≤ MAX_RETRIES;
}.

Lemma other_rows id id' l rows :
  Forall (λ r, lr_event r = id) rows → id ≠ id' → event_rows id' (l ++ rows) = event_rows id' l.
Proof.
  intros Hall Hne. unfold event_rows. rewrite filter_app.
  induction Hall as [|r rows Hr _ IH]; [by rewrite app_nil_r|].
  rewrite filter_cons_False by congruence. done.
Qed.

Lemma chain_fresh l id ls : chain_ok None l → chain_ok None (l ++ chain_entries (last_hash l) id ls).
Proof.
  intros Hl. apply chain_ok_app. split; [done|]. unfold end_hash. destruct (last_hash l); apply chain_entries_ok.
Qed.
Lemma books_settle env row m a d d' e :
  events d !! row_id row = Some e → ev_status e = EvPending →
  settles env row m a d d' → books d → books d'.
Proof.
  intros He Hpend Hs [Hwf Hch Hrows Hfour Htr Hret]. pose proof Hs as (_ & _ & _ & _ & d1 & Hmv & Hrt).
  apply record_trade_inv in Hrt as (Hb & Hl & _ & Ht & Hev & _).
  pose proof (moved_wf _ _ _ _ _ _ Hmv Hwf) as Hwf1.
  apply move_funds_inv in Hmv as (b0 & b1 & _ & _ & _ & _ & _ & Hl1 & Ht1 & Hev1 & _).
  rewrite Hl1 in Hl. rewrite Ht1 in Ht. rewrite Hev1 in Hev. clear b0 b1 Hl1 Ht1 Hev1.
  set (h := settled_hash _ _ _ _) in Hev. set (ls := ledger_deltas _ _ _ _) in *.
  assert (event_rows (row_id row) (ledger d) = []) as Hfresh.
  { destruct (event_rows (row_id row) (ledger d)) eqn:E; [done|].
    destruct (proj1 (Hrows (row_id row))) as (e' & He' & Hst); [by rewrite E|]. congruence. }
  assert (length (chain_entries (last_hash (ledger d)) (row_id row) ls) = 4%nat) as Hlen.
  { rewrite chain_length. unfold ls, ledger_deltas. by destruct (taker_side _). }
  assert (∀ id, id ≠ row_id row → event_rows id (ledger d') = event_rows id (ledger d)) as Hother.
  { intros id Hne. rewrite Hl. apply other_rows with (row_id row); [apply chain_event|congruence]. }
  assert (event_rows (row_id row) (ledger d') = chain_entries (last_hash (ledger d)) (row_id row) ls) as Hmine.
  { rewrite Hl. apply event_rows_appended; [done|apply chain_event]. }
  split.
  - by rewrite Hb.
  - rewrite Hl. by apply chain_fresh.
  - intros id. destruct (decide (id = row_id row)) as [->|Hne].
    + rewrite Hmine, Hev, lookup_alter_eq, He. split; [intros _; by exists (event_processed h e)|].
      intros _ Hnil. by rewrite Hnil in Hlen.
    + rewrite Hother, Hev, lookup_alter_ne by done. apply Hrows.
  - intros id. destruct (decide (id = row_id row)) as [->|Hne]; [right; by rewrite Hmine|].
    rewrite Hother by done. apply Hfour.
  - rewrite Hl, Ht, !length_app, Hlen, Htr. simpl. lia.
  - intros id e'. rewrite Hev. destruct (decide (id = row_id row)) as [->|Hne].
    + rewrite lookup_alter_eq, He. intros [= <-]. by apply (Hret (row_id row) e).
    + rewrite lookup_alter_ne by done. apply Hret.
Qed.

(** A pending event whose status or retries change, short of being processed. *)
Lemma books_alter id f e d :
  events d !! id = Some e → ev_status e = EvPending → ev_status (f e) ≠ EvProcessed →
  0 ≤ ev_retry_count (f e) ≤ MAX_RETRIES →
  books d → books (alter_event id f d).
Proof.
  intros He Hpend Hst Hr0 [Hwf Hch Hrows Hfour Htr Hret]. split; try done; simpl.
  - intros id'. rewrite Hrows. destruct (decide (id' = id)) as [->|Hne].
    + rewrite lookup_alter_eq, He. simpl. split; intros (e' & [= <-] & Hs'); congruence.
    + by rewrite lookup_alter_ne.
  - intros id' e'. destruct (decide (id' = id)) as [->|Hne].
    + rewrite lookup_alter_eq, He. by intros [= <-].
    + rewrite lookup_alter_ne by done. apply Hret.
Qed.

(** Failed events that an operator makes pending again. *)
Lemma reopened_lookup picked d id :
  events (replay_failed picked d) !! id
  = (λ e, if bool_decide (id ∈ picked ∧ ev_status e = EvFailed) then event_reopened e else e) <$> events d !! id.
Proof. simpl. rewrite map_lookup_imap. by destruct (events d !! id). Qed.
Lemma books_reopened picked d : books d → books (replay_failed picked d).
Proof.
  intros [Hwf Hch Hrows Hfour Htr Hret]. split; try done.
  - intros id. change (ledger (replay_failed picked d)) with (ledger d). rewrite Hrows, reopened_lookup.
    split.
    + intros (e & -> & Hst). exists e. simpl. rewrite bool_decide_eq_false_2 by (rewrite Hst; by intros [_ [=]]). done.
    + intros (e & He & Hst). apply fmap_Some in He as (e0 & -> & ->). exists e0. split; [done|].
      by case_bool_decide.
  - intros id e. rewrite reopened_lookup. intros He. apply fmap_Some in He as (e0 & He0 & ->).
    case_bool_decide; simpl; by apply (Hret id).
Qed.

Lemma books_dlq ok id ev eng p err d : books d → books (appendSettlementDlq ok id ev eng p err d).
Proof. unfold appendSettlementDlq. destruct (dlq_payload_json p), ok; try done. by intros []. Qed.

Lemma claim_inv locked d id e :
  claim locked d = Some (id, e) →
  events d !! id = Some e ∧ ev_status e = EvPending ∧ ev_retry_count e < MAX_RETRIES ∧ id ∉ locked.
Proof.
  unfold claim. intros Hc. apply head_Some in Hc as [l Hl].
  assert ((id, e) ∈ sort_by (λ a b : Z * settlement_event, fst a <=? fst b)
    (filter (λ x, eligible (snd x) = true ∧ fst x ∉ locked) (map_to_list (events d)))) as Hin
    by (rewrite Hl; left).
  apply sort_by_elem, list_elem_of_filter in Hin as [[Hel Hlk] Hin]. simpl in *.
  apply elem_of_map_to_list in Hin. unfold eligible in Hel. by bool_prop.
Qed.

Lemma claim_None d : claim [] d = None → ∀ id e, events d !! id = Some e → eligible e = false.
Proof.
  unfold claim. intros Hc id e He. destruct (eligible e) eqn:E; [|done]. exfalso.
  apply head_None in Hc.
  assert ((id, e) ∈ sort_by (λ a b : Z * settlement_event, fst a <=? fst b)
    (filter (λ x, eligible (snd x) = true ∧ fst x ∉ []) (map_to_list (events d)))) as Hin.
  { apply sort_by_elem, list_elem_of_filter. split; [split; [done|set_solver]|].
    by apply elem_of_map_to_list. }
  rewrite Hc in Hin. by apply elem_of_nil in Hin.
Qed.

Lemma claim_first locked d id e :
  claim locked d = Some (id, e) →
  ∀ i e', events d !! i = Some e' → eligible e' = true → i ∉ locked → id ≤ i.
Proof.
  unfold claim. intros Hc i e' Hi Hel Hl.
  pose proof (λ H1 H2, sort_by_head _ _ _ H1 H2 Hc) as Hle.
  apply Z.leb_le, (Hle ltac:(intros [a ?] [b ?]; simpl; rewrite !Z.leb_le; lia)
    ltac:(intros [a ?] [b ?] [c ?]; simpl; rewrite !Z.leb_le; lia) (i, e')).
  apply list_elem_of_filter. split; [done|]. by apply elem_of_map_to_list.
Qed.

(** ** What one call of [processOneEvent] does *)
Definition claimed_row (id : Z) (e : settlement_event) (p : EnginePayload) : SettlementRow :=
  SettlementRowOf id (ev_engine_event e) (row_engine e "default") p.

Lemma normalize_state (raw : json) (d : settle_db) x d' :
  normalizeSettlementPayload raw d = Ret (x, d') → d' = d.
Proof. unfold normalizeSettlementPayload. intros Hrun. by run_all Hrun. Qed.

Inductive tick_case (t : tick_env) (w : worker_state) (id : Z) (e : settlement_event) :
    outcome bool → worker_state → Prop :=
  | tick_bad_payload msg :
      normalizeSettlementPayload (ev_payload e) (w_db w) = Throw msg → te_marks t ≠ O →
      tick_case t w id e (Ret true)
        (on_db (λ d, appendSettlementDlq (te_dlq_ok t) id (ev_engine_event e) (row_engine e "default")
                       (ev_payload e) msg
                       (alter_event id (event_failed (Some (js_slice 1000 msg))) d)) w)
  | tick_unmarked msg :
      normalizeSettlementPayload (ev_payload e) (w_db w) = Throw msg → te_marks t = O →
      tick_case t w id e (Throw connection_lost) w
  | tick_committed p n d' :
      normalizeSettlementPayload (ev_payload e) (w_db w) = Ret (p, w_db w) →
      processSettlementEventRow (te_settle t) (claimed_row id e p) (w_db w) = Ret (n, d') →
      tick_case t w id e (Ret true) (notify n (on_db (λ _, d') w))
  | tick_error p msg o w' :
      normalizeSettlementPayload (ev_payload e) (w_db w) = Ret (p, w_db w) →
      processSettlementEventRow (te_settle t) (claimed_row id e p) (w_db w) = Throw msg →
      record_failure t (claimed_row id e p) msg w = (o, w') →
      tick_case t w id e o w'.

Lemma processOneEvent_cases t w o w' :
  processOneEvent t w = (o, w') →
  (o = Ret false ∧ w' = w ∧ claim (te_locked t) (w_db w) = None)
  ∨ ∃ id e, claim (te_locked t) (w_db w) = Some (id, e) ∧ tick_case t w id e o w'.
Proof.
  unfold processOneEvent. intros Hrun. destruct (claim _ _) as [[id e]|]; [|left; by simplify_eq].
  right. exists id, e. split; [done|].
  destruct (normalizeSettlementPayload (ev_payload e) (w_db w)) as [[p d0]|msg] eqn:En.
  - pose proof (normalize_state _ _ _ _ En) as ->.
    destruct (transaction _ _) as [[n|msg] d'] eqn:Et.
    + simplify_eq/=. apply transaction_Ret in Et. by apply tick_committed with p.
    + apply transaction_Throw in Et as [Et ->].
      replace (on_db (λ _, w_db w) w) with w in Hrun by (by destruct w). by apply (tick_error _ _ _ _ p msg).
  - destruct (te_marks t) eqn:Em; simplify_eq; [by apply (tick_unmarked _ _ _ _ msg)|].
    apply tick_bad_payload; [done|]. by rewrite Em.
Qed.

Lemma alter_alter_event id f g d : alter_event id f (alter_event id g d) = alter_event id (f ∘ g) d.
Proof. unfold alter_event, set_events. simpl. by rewrite alter_alter_eq. Qed.

Lemma trigger_db ok msg w : w_db (triggerCircuitIfViolation ok msg w) = w_db w.
Proof. unfold triggerCircuitIfViolation. case_bool_decide; [|done]. by destruct ok. Qed.

Definition row_dlq (t : tick_env) (row : SettlementRow) (msg : string) (d : settle_db) : settle_db :=
  appendSettlementDlq (te_dlq_ok t) (row_id row) (row_engine_event_id row) (row_match_engine_id row)
    (payload_json (row_payload row)) msg d.

(** What is recorded of a failure: nothing, the failure, one more retry, or the last retry
    and the failure. *)
Inductive recorded_failure (t : tick_env) (row : SettlementRow) (msg : string) (e : settlement_event)
    (d : settle_db) : outcome bool → settle_db → Prop :=
  | rf_nothing : te_marks t = O → recorded_failure t row msg e d (Throw connection_lost) d
  | rf_fatal : isFatalError msg = true →
      recorded_failure t row msg e d (Ret true)
        (row_dlq t row msg (alter_event (row_id row) (event_failed (Some (js_slice 1000 msg))) d))
  | rf_retried : ev_retry_count e + 1 < MAX_RETRIES →
      recorded_failure t row msg e d (Ret true) (alter_event (row_id row) (event_retried (js_slice 1000 msg)) d)
  | rf_unmarked : MAX_RETRIES ≤ ev_retry_count e + 1 → te_marks t = 1%nat →
      recorded_failure t row msg e d (Throw connection_lost)
        (alter_event (row_id row) (event_retried (js_slice 1000 msg)) d)
  | rf_exhausted : MAX_RETRIES ≤ ev_retry_count e + 1 →
      recorded_failure t row msg e d (Ret true)
        (row_dlq t row msg (alter_event (row_id row) (event_failed None ∘ event_retried (js_slice 1000 msg)) d)).

Lemma record_failure_db t row msg w e o w' :
  record_failure t row msg w = (o, w') → events (w_db w) !! row_id row = Some e →
  recorded_failure t row msg e (w_db w) o (w_db w').
Proof.
  unfold record_failure. intros Hrun He.
  assert (w_db (triggerCircuitIfViolation (te_redis_ok t) msg w) = w_db w) as Hdb by apply trigger_db.
  set (v := triggerCircuitIfViolation _ _ _) in *. clearbody v. cbv zeta in Hrun.
  destruct (te_marks t) as [|marks] eqn:Em; [simplify_eq; rewrite Hdb; by apply rf_nothing|].
  destruct (isFatalError msg) eqn:Ef; [simplify_eq; simpl; rewrite Hdb; by apply rf_fatal|].
  simpl in Hrun. rewrite Hdb, lookup_alter_eq, He in Hrun. simpl in Hrun.
  destruct (Z.leb_spec MAX_RETRIES (ev_retry_count e + 1)) as [Hle|Hlt].
  - destruct marks; simplify_eq; simpl; rewrite Hdb; [by apply rf_unmarked|].
    rewrite alter_alter_event. by apply rf_exhausted.
  - simplify_eq; simpl; rewrite Hdb. by apply rf_retried.
Qed.

Lemma tick_case_books t w id e o w' :
  events (w_db w) !! id = Some e → ev_status e = EvPending → ev_retry_count e < MAX_RETRIES →
  tick_case t w id e o w' → books (w_db w) → books (w_db w').
Proof.
  intros He Hpend Hlt Hcase Hbooks. pose proof (bk_retry _ Hbooks id e He) as Hr.
  destruct Hcase as [msg Hn _|msg _ _|p n d' Hn Hrun|p msg o w' Hn Hrun Hrec].
  - apply books_dlq, (books_alter _ _ e); simpl; try done; lia.
  - done.
  - simpl. apply process_inv in Hrun as [(Hne & _)|(_ & m & a & _ & _ & _ & Hs)].
    + apply (bk_rows _ Hbooks) in Hne as (e' & He' & Hst). simpl in *. congruence.
    + exact (books_settle _ (claimed_row id e p) _ _ _ _ e He Hpend Hs Hbooks).
  - apply (record_failure_db t (claimed_row id e p) msg w e) in Hrec; [|done].
    destruct Hrec; unfold row_dlq; cbn [row_id claimed_row]; [done|..]; try apply books_dlq;
      apply (books_alter _ _ e); simpl; try done; try lia; congruence.
Qed.

Lemma processOneEvent_books t w o w' :
  processOneEvent t w = (o, w') → books (w_db w) → books (w_db w').
Proof.
  intros Hrun Hb. apply processOneEvent_cases in Hrun as [(_ & -> & _)|(id & e & Hc & Hcase)]; [done|].
  apply claim_inv in Hc as (He & Hp & Hlt & _). by apply (tick_case_books _ _ _ _ _ _ He Hp Hlt Hcase).
Qed.

(** ** Messages of the stream *)
Lemma find_event_Some engine ev d id e :
  find_event engine ev d = Some (id, e) →
  events d !! id = Some e ∧ ev_engine e = engine ∧ ev_engine_event e = ev.
Proof.
  unfold find_event. intros Hf. apply List.find_some in Hf as [Hin Ht]. simpl in Ht. bool_prop.
  apply list_elem_of_In, elem_of_map_to_list in Hin. done.
Qed.

Definition new_event (engine : string) (ev : Z) (payload : json) : settlement_event :=
  SettlementEvent engine ev payload EvPending 0 None None.

Lemma insert_event_inv newId engine ev payload d id d' :
  insert_event newId engine ev payload d = Ret (id, d') →
  (∃ e, d' = d ∧ find_event engine ev d = Some (id, e))
  ∨ (id = newId ∧ find_event engine ev d = None ∧ events d !! newId = None ∧
     d' = set_events (<[newId := new_event engine ev payload]> (events d)) d).
Proof.
  unfold insert_event. intros Hrun.
  apply bind_Ret_inv in Hrun as (f & ? & H1 & Hrun). apply gets_inv in H1 as [-> ->].
  destruct (find_event engine ev d) as [[i e]|].
  - apply ret_inv in Hrun as [-> ->]. left. eauto.
  - right. apply bind_Ret_inv in Hrun as (c & ? & H1 & Hrun). apply gets_inv in H1 as [-> ->].
    apply bind_Ret_inv in Hrun as (? & ? & H1 & Hrun). apply require_inv in H1 as [Hc ->].
    apply bind_Ret_inv in Hrun as (? & ? & H1 & Hrun). apply modify_inv in H1 as ->.
    apply ret_inv in Hrun as [-> ->]. by bool_prop.
Qed.

Lemma insert_event_books newId engine ev payload d id d' :
  insert_event newId engine ev payload d = Ret (id, d') → books d → books d'.
Proof.
  intros Hins Hb. apply insert_event_inv in Hins as [(e & -> & _)|(_ & _ & Hnone & ->)]; [done|].
  destruct Hb as [Hwf Hch Hrows Hfour Htr Hret]. split; try done; simpl.
  - intros i. rewrite Hrows. destruct (decide (i = newId)) as [->|Hne].
    + rewrite lookup_insert_eq, Hnone. split; [by intros (? & ? & _)|by intros (? & [= <-] & ?)].
    + by rewrite lookup_insert_ne.
  - intros i e. destruct (decide (i = newId)) as [->|Hne].
    + rewrite lookup_insert_eq. intros [= <-]. simpl. unfold MAX_RETRIES. lia.
    + rewrite lookup_insert_ne by done. apply Hret.
Qed.

(** A message that is accepted finds or inserts its event, and settles it if it is
    pending. *)
Lemma ingest_body_inv env newId raw d o d' :
  ingest_body env newId raw d = Ret (o, d') →
  ∃ ev payload id e d1,
    js_number (json_field raw "event_id") = Some ev ∧ 1 ≤ ev ∧
    normalizeSettlementPayload (stream_payload raw (stream_engine raw) ev) d = Ret (payload, d) ∧
    raw ≠ JNull ∧
    insert_event newId (stream_engine raw) ev (payload_json (with_engine payload (stream_engine raw))) d
      = Ret (id, d1) ∧
    events d1 !! id = Some e ∧
    ((o = AlreadyDone ∧ ev_status e ≠ EvPending ∧ d' = d1)
     ∨ (ev_status e = EvPending ∧ ∃ pl n, o = Settled n ∧
          normalizeSettlementPayload (ev_payload e) d1 = Ret (pl, d1) ∧
          processSettlementEventRow env
            (SettlementRowOf id (ev_engine_event e) (row_engine e (stream_engine raw)) pl) d1 = Ret (n, d'))).
Proof.
  unfold ingest_body. intros Hrun.
  apply bind_Ret_inv in Hrun as (? & ? & H1 & Hrun). apply require_inv in H1 as [Hnull ->].
  apply bind_Ret_inv in Hrun as (ev & ? & H1 & Hrun). apply get_or_inv in H1 as [Hev ->].
  apply bind_Ret_inv in Hrun as (? & ? & H1 & Hrun). apply require_inv in H1 as [Hpos ->].
  apply bind_Ret_inv in Hrun as (payload & d0 & Hn & Hrun). pose proof (normalize_state _ _ _ _ Hn) as ->.
  apply bind_Ret_inv in Hrun as (id & d1 & Hins & Hrun).
  apply bind_Ret_inv in Hrun as (sel & ? & H1 & Hrun). apply gets_inv in H1 as [-> ->].
  apply bind_Ret_inv in Hrun as (e & ? & H1 & Hrun). apply get_or_inv in H1 as [He ->].
  exists ev, payload, id, e, d1. bool_prop. repeat (split; [first [done|lia|by destruct raw]|]).
  case_bool_decide as Hst.
  - right. split; [done|].
    apply bind_Ret_inv in Hrun as (pl & d2 & Hn2 & Hrun). pose proof (normalize_state _ _ _ _ Hn2) as ->.
    apply bind_Ret_inv in Hrun as (n & d3 & Hp & Hrun). apply ret_inv in Hrun as [-> ->]. eauto.
  - left. by apply ret_inv in Hrun as [-> ->].
Qed.

Lemma process_books env row d n d' e :
  events d !! row_id row = Some e → ev_status e = EvPending →
  processSettlementEventRow env row d = Ret (n, d') → books d → books d'.
Proof.
  intros He Hp Hrun Hb. apply process_inv in Hrun as [(Hne & _)|(_ & m & a & _ & _ & _ & Hs)].
  - apply (bk_rows _ Hb) in Hne as (e' & He' & Hst). congruence.
  - exact (books_settle _ _ _ _ _ _ e He Hp Hs Hb).
Qed.

Lemma ingest_books env newId raw d o d' :
  ingestAndSettleMatchEventFromJetStream env newId raw d = (o, d') → books d → books d'.
Proof.
  unfold ingestAndSettleMatchEventFromJetStream. intros Hrun Hb. destruct o as [o|msg].
  2: { by apply transaction_Throw in Hrun as [_ ->]. }
  apply transaction_Ret, ingest_body_inv in Hrun as (ev & p & id & e & d1 & _ & _ & _ & _ & Hins & He & Hcase).
  apply insert_event_books in Hins; [|done].
  destruct Hcase as [(_ & _ & ->)|(Hp & pl & n & _ & _ & Hrun)]; [done|].
  exact (process_books _ (SettlementRowOf id _ _ pl) _ _ _ e He Hp Hrun Hins).
Qed.

(** ** Steps of the system *)
Lemma clear_stale_db t w : w_db (clear_stale_halt t w) = w_db w.
Proof. unfold clear_stale_halt. by destruct (_ && _). Qed.

Lemma drain_ind (P : worker_state → Prop) limit io w :
  (∀ t w o w', processOneEvent t w = (o, w') → P w → P w') → P w → P (drain limit io w).
Proof.
  intros Hstep. revert w. induction limit as [|n IH]; intros w Hw; simpl; [done|].
  destruct (processOneEvent (io n) w) as [o w'] eqn:E. pose proof (Hstep _ _ _ _ E Hw).
  destruct o as [[]|]; auto.
Qed.

(** A poll tick, a message, an operator who sets the two Redis keys or makes failed events
    pending again, a restart: one after the other. Ticks of one process are serialized
    ([settlementTickChain]), but its stream consumer and other processes run beside them,
    and their transactions read the head of the ledger's chain without a lock: runs in which
    two settlements overlap are outside these steps
    ([SettlementRunsDemo.concurrent_settlements_fork_chain]). *)
Inductive sys_step : worker_state → worker_state → Prop :=
  | step_tick limit t io w : sys_step w (runOnce limit t io w)
  | step_message t newId text w : sys_step w (snd (handleSettlementJsMessage t newId text w))
  | step_operator halt circuit w :
      sys_step w (WorkerState (w_db w) (w_halted w) halt circuit (w_notified w) (w_stream_dlq w))
  | step_replay picked w : sys_step w (on_db (replay_failed picked) w)
  | step_restart w : sys_step w (set_halted false w).

Lemma message_db t newId text w :
  w_db (snd (handleSettlementJsMessage t newId text w)) = w_db w
  ∨ ∃ raw, JSON_parse text = Some raw ∧ w_db (snd (handleSettlementJsMessage t newId text w))
      = snd (ingestAndSettleMatchEventFromJetStream (te_settle t) newId raw (w_db w)).
Proof.
  unfold handleSettlementJsMessage. pose proof (clear_stale_db t w) as Hdb.
  set (v := clear_stale_halt t w) in *. rewrite <- Hdb. cbv zeta.
  destruct (_ || _); [by left|].
  destruct (circuit_open t v); [by left|].
  destruct (JSON_parse text) as [raw|]; [|by left].
  right. exists raw. destruct (ingestAndSettleMatchEventFromJetStream _ _ _ _) as [[o|msg] d]; [done|].
  destruct (fatalNonRetryable msg); simpl; by rewrite trigger_db.
Qed.

Lemma sys_step_books w w' : books (w_db w) → sys_step w w' → books (w_db w').
Proof.
  intros Hb Hs. revert Hb. destruct Hs as [limit t io v|t newId text v| |picked v|]; intros Hb.
  - unfold runOnce. cbv zeta.
    destruct (w_halted (clear_stale_halt t v)); [by rewrite clear_stale_db|].
    destruct (global_halt t v); [by rewrite clear_stale_db|].
    destruct (circuit_open t v); [by rewrite clear_stale_db|].
    apply (drain_ind (λ w, books (w_db w))); [apply processOneEvent_books|by rewrite clear_stale_db].
  - destruct (message_db t newId text v) as [->|(raw & _ & ->)]; [done|].
    destruct (ingestAndSettleMatchEventFromJetStream _ _ _ _) as [o d'] eqn:E.
    by apply ingest_books in E.
  - done.
  - by apply books_reopened.
  - done.
Qed.

(** C30. The books stay in order. Whatever poll ticks, stream messages, operator
    interventions (the two Redis keys, [replay_failed]) and restarts follow one another,
    with whatever configuration, lock contention and failures, a connection that is lost
    between the two UPDATEs of a last retry among them: balances stay non-negative, the
    ledger stays a valid hash chain, an event has ledger rows (four of them) exactly when it
    is processed, there is one recorded trade for every four ledger rows, so no event is
    ever settled twice or settled without being marked, and no event has more than ten
    retries. Ticks and messages do not overlap: overlapping settlements fork the chain
    ([SettlementRunsDemo.concurrent_settlements_fork_chain]). *)
Theorem settlement_books_kept (w w' : worker_state) :
  books (w_db w) → rtc sys_step w w' → books (w_db w').
Proof.
  intros Hb Hrun. revert Hb. induction Hrun as [|w1 w2 w3 Hstep _ IH]; [done|].
  intros Hb. by apply IH, (sys_step_books w1).
Qed.

(** ** The outcomes of a tick *)
Definition money_kept (d d' : settle_db) : Prop :=
  sd_balances d' = sd_balances d ∧ ledger d' = ledger d ∧
  settlement_trades d' = settlement_trades d ∧ spot_orders d' = spot_orders d ∧
  spot_trades d' = spot_trades d.

Lemma dlq_events ok id ev eng p err d : events (appendSettlementDlq ok id ev eng p err d) = events d.
Proof. unfold appendSettlementDlq. by destruct (dlq_payload_json p), ok. Qed.
Lemma dlq_money ok id ev eng p err i f d :
  money_kept d (appendSettlementDlq ok id ev eng p err (alter_event i f d)).
Proof. unfold appendSettlementDlq. by destruct (dlq_payload_json p), ok. Qed.
Lemma dlq_appended id ev eng p err d :
  dlq_payload_json p ≠ None →
  ∃ r, dlq (appendSettlementDlq true id ev eng p err d) = dlq d ++ [r] ∧ dq_source r = id
       ∧ dq_error r = js_slice 2000 err.
Proof. unfold appendSettlementDlq. destruct (dlq_payload_json p); [|done]. by eexists. Qed.

(** How a claimed event can be left, by a call that ends with [o]. *)
Inductive event_left (t : tick_env) (w w' : worker_state) (id : Z) (e e' : settlement_event) :
    outcome bool → Prop :=
  | left_settled rows trade n :
      ev_status e' = EvProcessed → ledger (w_db w') = ledger (w_db w) ++ rows → length rows = 4%nat →
      settlement_trades (w_db w') = settlement_trades (w_db w) ++ [trade] →
      w_notified w' = w_notified w ++ [n] → dlq (w_db w') = dlq (w_db w) →
      event_left t w w' id e e' (Ret true)
  | left_retry :
      ev_status e' = EvPending → ev_retry_count e' = ev_retry_count e + 1 →
      money_kept (w_db w) (w_db w') → w_notified w' = w_notified w → dlq (w_db w') = dlq (w_db w) →
      event_left t w w' id e e' (Ret true)
  | left_failed :
      ev_status e' = EvFailed → money_kept (w_db w) (w_db w') → w_notified w' = w_notified w →
      (te_dlq_ok t = true → dlq_payload_json (ev_payload e) ≠ None →
       ∃ r, dlq (w_db w') = dlq (w_db w) ++ [r] ∧ dq_source r = id) →
      event_left t w w' id e e' (Ret true)
  | left_interrupted :
      (te_marks t < 2)%nat → ev_status e' = EvPending →
      ev_retry_count e' = ev_retry_count e ∨ ev_retry_count e' = ev_retry_count e + 1 →
      money_kept (w_db w) (w_db w') → w_notified w' = w_notified w → dlq (w_db w') = dlq (w_db w) →
      event_left t w w' id e e' (Throw connection_lost).

Lemma money_kept_refl d : money_kept d d.
Proof. done. Qed.

Lemma record_failure_notified t row msg w o w' :
  record_failure t row msg w = (o, w') → w_notified w' = w_notified w.
Proof.
  unfold record_failure, triggerCircuitIfViolation. intros Hrun.
  repeat case_match; simplify_eq; try done; by destruct (te_redis_ok t).
Qed.

Lemma record_failure_left t w id e p msg o w' :
  events (w_db w) !! id = Some e → ev_status e = EvPending →
  record_failure t (claimed_row id e p) msg w = (o, w') →
  (∀ i, i ≠ id → events (w_db w') !! i = events (w_db w) !! i) ∧
  ∃ e', events (w_db w') !! id = Some e' ∧ event_left t w w' id e e' o.
Proof.
  intros He Hp Hrec. pose proof (record_failure_notified _ _ _ _ _ _ Hrec) as Hnot.
  apply (record_failure_db _ _ _ _ e) in Hrec; [|done].
  assert (∀ f, (∀ i, i ≠ id → events (alter_event id f (w_db w)) !! i = events (w_db w) !! i)
    ∧ events (alter_event id f (w_db w)) !! id = Some (f e)) as Halter.
  { intros f. simpl. split; [intros i Hi; by rewrite lookup_alter_ne|by rewrite lookup_alter_eq, He]. }
  assert (∀ f, row_dlq t (claimed_row id e p) msg (alter_event id f (w_db w)) = w_db w' →
    ev_status (f e) = EvFailed → (∀ i, i ≠ id → events (w_db w') !! i = events (w_db w) !! i) ∧
    ∃ e', events (w_db w') !! id = Some e' ∧ event_left t w w' id e e' (Ret true)) as Hfail.
  { intros f Hw Hst. destruct (Halter f) as [Hne Heq]. rewrite <- Hw. unfold row_dlq. rewrite dlq_events.
    split; [done|]. exists (f e). split; [done|]. apply left_failed; [done| |done|].
    - rewrite <- Hw. apply dlq_money.
    - intros Hok _. rewrite <- Hw. unfold row_dlq. rewrite Hok.
      destruct (dlq_appended id (ev_engine_event e) (row_engine e "default") (payload_json p) msg
        (alter_event id f (w_db w)) ltac:(done)) as (r & Hr & Hsrc & _). by exists r. }
  remember (w_db w') as d' eqn:Hd' in Hrec.
  destruct Hrec as [Hm|Hf|Hlt|Hle Hm|Hle]; cbn [row_id claimed_row] in *.
  - rewrite <- Hd'. split; [done|]. exists e. split; [done|].
    apply left_interrupted; rewrite <- ?Hd'; try done; [lia|by left].
  - by apply (Hfail _ Hd').
  - destruct (Halter (event_retried (js_slice 1000 msg))) as [Hne Heq]. rewrite <- Hd'. split; [done|].
    eexists. split; [exact Heq|]. apply left_retry; rewrite <- ?Hd'; done.
  - destruct (Halter (event_retried (js_slice 1000 msg))) as [Hne Heq]. rewrite <- Hd'. split; [done|].
    eexists. split; [exact Heq|]. apply left_interrupted; rewrite <- ?Hd'; try done; [lia|by right].
  - by apply (Hfail _ Hd').
Qed.

Lemma tick_case_left t w id e o w' :
  books (w_db w) → events (w_db w) !! id = Some e → ev_status e = EvPending →
  tick_case t w id e o w' →
  (∀ i, i ≠ id → events (w_db w') !! i = events (w_db w) !! i) ∧
  ∃ e', events (w_db w') !! id = Some e' ∧ event_left t w w' id e e' o.
Proof.
  intros Hb He Hp Hcase. destruct Hcase as [msg Hn Hm|msg Hn Hm|p n d' Hn Hrun|p msg o w' Hn Hrun Hrec].
  - simpl. rewrite dlq_events. simpl. split; [intros i Hi; by rewrite lookup_alter_ne|].
    exists (event_failed (Some (js_slice 1000 msg)) e). rewrite lookup_alter_eq, He. split; [done|].
    apply left_failed; [done|apply dlq_money|done|]. simpl. intros -> Hj.
    destruct (dlq_appended id (ev_engine_event e) (row_engine e "default")
      (ev_payload e) msg (alter_event id (event_failed (Some (js_slice 1000 msg))) (w_db w)) Hj)
      as (r & Hr & Hsrc & _). by exists r.
  - split; [done|]. exists e. split; [done|]. apply left_interrupted; try done; [lia|by left].
  - apply process_inv in Hrun as [(Hne & _)|(_ & m & a & _ & _ & -> & Hs)].
    { apply (bk_rows _ Hb) in Hne as (e' & He' & Hst). simpl in *. congruence. }
    pose proof Hs as (_ & _ & _ & _ & d1 & Hmv & Hrt).
    apply record_trade_inv in Hrt as (_ & Hl & Hd & Ht & Hev & _).
    apply move_funds_inv in Hmv as (b0 & b1 & _ & _ & _ & _ & _ & Hl1 & Ht1 & Hev1 & Hd1 & _).
    simpl. rewrite Hev, Hev1. cbn [row_id claimed_row row_payload].
    split; [intros i Hi; by rewrite lookup_alter_ne|]. rewrite lookup_alter_eq, He.
    eexists. split; [done|].
    eapply left_settled; simpl; [done|by rewrite Hl, Hl1| |by rewrite Ht, Ht1|done|by rewrite Hd, Hd1].
    rewrite chain_length. unfold ledger_deltas. by destruct (taker_side _).
  - by apply (record_failure_left _ _ _ _ _ _ _ _ He Hp Hrec).
Qed.

(** Every outcome of a poll tick. A call of [processOneEvent] that does not find an event
    changes nothing. Otherwise it took the pending event with the lowest id that had retries
    left and was not locked, touched no other event, and left it in one of four ways:
    settled, with four ledger rows, one trade and one notification; still pending with one
    more retry and all money untouched; failed with all money untouched and, if the
    dead-letter table can be written and the payload is JSON, a row for it there; or, when
    the connection was lost before the failure was recorded, still pending with all money
    untouched and at most one more retry. *)
Theorem tick_outcomes (t : tick_env) (w w' : worker_state) (o : outcome bool) :
  books (w_db w) → processOneEvent t w = (o, w') →
  match o with
  | Ret false => w' = w
  | _ =>
    ∃ id e e', events (w_db w) !! id = Some e ∧ ev_status e = EvPending ∧ id ∉ te_locked t ∧
      (∀ i x, events (w_db w) !! i = Some x → eligible x = true → i ∉ te_locked t → id ≤ i) ∧
      (∀ i, i ≠ id → events (w_db w') !! i = events (w_db w) !! i) ∧
      events (w_db w') !! id = Some e' ∧ event_left t w w' id e e' o
  end.
Proof.
  intros Hb Hrun. apply processOneEvent_cases in Hrun as [(-> & -> & _)|(id & e & Hc & Hcase)]; [done|].
  pose proof (claim_first _ _ _ _ Hc) as Hfirst. apply claim_inv in Hc as (He & Hp & _ & Hlk).
  destruct (tick_case_left t w id e o w' Hb He Hp Hcase) as (Hne & e' & He' & Hleft).
  destruct o as [[]|er]; [|by inversion Hleft|]; exists id, e, e'; by repeat (split; [done|]).
Qed.

(** An event whose payload is a text that is not JSON is marked failed and lost: no
    row is written to the dead-letter table, because the text is cast to JSON there. *)
Theorem invalid_json_leaves_no_dlq (t : tick_env) (w : worker_state) (id : Z)
    (e : settlement_event) (text : string) :
  claim (te_locked t) (w_db w) = Some (id, e) → ev_payload e = JStr text → JSON_parse text = None →
  te_marks t ≠ O → ∃ w', processOneEvent t w = (Ret true, w') ∧ dlq (w_db w') = dlq (w_db w) ∧
    events (w_db w') !! id = Some (event_failed (Some "SETTLEMENT_PAYLOAD_INVALID_JSON") e).
Proof.
  intros Hc Hp Hj Hm. pose proof Hc as Hc'. apply claim_inv in Hc' as (He & _).
  unfold processOneEvent. rewrite Hc, Hp. unfold normalizeSettlementPayload. rewrite Hj.
  destruct (te_marks t) as [|marks]; [done|]. eexists. split; [reflexivity|]. unfold appendSettlementDlq, dlq_payload_json. rewrite Hj.
  split; [done|]. simpl. by rewrite lookup_alter_eq, He.
Qed.

(** ** The queue empties *)
Definition retries_left (e : settlement_event) : Z :=
  if eligible e then MAX_RETRIES - ev_retry_count e else 0.
Definition work (d : settle_db) : Z := msum (λ _, retries_left) (events d).

Lemma work_nonneg d : books d → 0 ≤ work d.
Proof.
  intros Hb. apply msum_nonneg. intros id e He. unfold retries_left.
  pose proof (bk_retry _ Hb id e He). destruct (eligible e); lia.
Qed.

Lemma tick_progress t w o w' :
  books (w_db w) → (2 ≤ te_marks t)%nat → processOneEvent t w = (o, w') → o ≠ Ret false →
  o = Ret true ∧ work (w_db w') < work (w_db w).
Proof.
  intros Hb Hm Hrun Ho. apply processOneEvent_cases in Hrun as [(-> & _)|(id & e & Hc & Hcase)]; [done|].
  apply claim_inv in Hc as (He & Hp & Hlt & _).
  destruct (tick_case_left t w id e o w' Hb He Hp Hcase) as (Hne & e' & He' & Hleft).
  assert (events (w_db w') = <[id := e']> (events (w_db w))) as Hev.
  { apply map_eq. intros i. destruct (decide (i = id)) as [->|Hi].
    - by rewrite lookup_insert_eq.
    - rewrite lookup_insert_ne by done. auto. }
  unfold work. rewrite Hev, (msum_insert_Some _ _ _ _ _ He).
  assert (eligible e = true) as Hel.
  { unfold eligible. rewrite bool_decide_eq_true_2 by done. by apply Z.ltb_lt. }
  assert (o = Ret true ∧ retries_left e' < retries_left e) as [-> ?]; [|split; [done|lia]].
  unfold retries_left at 2. rewrite Hel. unfold retries_left, eligible.
  destruct Hleft as [rows trade n Hst _ _ _ _ _|Hst Hr _ _ _|Hst _ _ _|Hm' _ _ _ _ _]; [..|lia];
    rewrite Hst; (split; [done|]).
  - rewrite bool_decide_eq_false_2 by done. simpl. lia.
  - rewrite bool_decide_eq_true_2 by done. simpl. destruct (Z.ltb_spec (ev_retry_count e') MAX_RETRIES); lia.
  - rewrite bool_decide_eq_false_2 by done. simpl. lia.
Qed.

Lemma drain_stops limit io w :
  books (w_db w) → (∀ i, (2 ≤ te_marks (io i))%nat) → work (w_db w) < Z.of_nat limit →
  books (w_db (drain limit io w)) ∧ ∃ i, claim (te_locked (io i)) (w_db (drain limit io w)) = None.
Proof.
  intros Hb Hm. revert w Hb. induction limit as [|n IH]; intros w Hb Hw; [pose proof (work_nonneg _ Hb); lia|]. simpl.
  destruct (processOneEvent (io n) w) as [o w'] eqn:E.
  pose proof (processOneEvent_books _ _ _ _ E Hb) as Hb'.
  assert (o = Ret false ∨ o ≠ Ret false) as [->|Ho] by (destruct o as [[]|]; auto).
  - split; [done|]. exists n.
    apply processOneEvent_cases in E as [(_ & -> & Hc)|(? & ? & _ & Hcase)]; [done|].
    inversion Hcase; subst.
    match goal with Hr : record_failure _ _ _ _ = _ |- _ =>
      unfold record_failure in Hr; repeat case_match; simplify_eq end.
  - destruct (tick_progress _ _ _ _ Hb (Hm n) E Ho) as [-> ?]. apply IH; [done|]. lia.
Qed.

(** The worker empties its queue: when no other transaction holds the rows and the failures
    can be recorded, every call makes progress, so a batch as long as the retries the pending
    events have left (at most ten each) leaves no event pending that has retries left:
    nothing is retried for ever. Every event is then processed, failed, or was left pending
    without retries before by a connection that was lost or by [replay_failed], which does
    not give retries back. *)
Theorem worker_drains (w : worker_state) (limit : nat) (io : nat → tick_env) :
  books (w_db w) → (∀ i, te_locked (io i) = []) → (∀ i, (2 ≤ te_marks (io i))%nat) →
  work (w_db w) < Z.of_nat limit →
  ∀ id e, events (w_db (drain limit io w)) !! id = Some e →
    ev_status e = EvProcessed ∨ ev_status e = EvFailed
    ∨ ev_status e = EvPending ∧ ev_retry_count e = MAX_RETRIES.
Proof.
  intros Hb Hl Hm Hw id e He. destruct (drain_stops limit io w Hb Hm Hw) as [Hb' [i Hc]].
  rewrite Hl in Hc. pose proof (claim_None _ Hc id e He) as Hel. unfold eligible in Hel.
  destruct (ev_status e) eqn:Est; [|by left|by right; left]. right; right.
  rewrite bool_decide_eq_true_2 in Hel by done. simpl in Hel. bool_prop.
  pose proof (bk_retry _ Hb' id e He). split; [done|lia].
Qed.

(** ** The circuit breaker *)
Lemma flag_reads errors v : getTradingHalted (redis_reads errors v) = false → flag_set v = false.
Proof.
  unfold getTradingHalted, read_flag, redis_reads. destruct (redisGetWithRetries _ _ _) as [v'|] eqn:E; [|done].
  apply redis_retries_Ret in E as (i & _ & Hi & _).
  apply lookup_app_Some in Hi as [Hi|(_ & Hi)].
  - apply list_lookup_fmap_Some in Hi as (e & [=] & _).
  - destruct (_ - _)%nat; simplify_eq/=; done.
Qed.

Lemma circuit_key_open t w : redis_circuit w = setSettlementCircuitOpen true → circuit_open t w = true.
Proof.
  intros Hk. unfold circuit_open, getSettlementCircuitOpen.
  destruct (read_flag _) eqn:E; [done|]. apply flag_reads in E. by rewrite Hk in E.
Qed.

Lemma open_circuit_skips limit t io w :
  redis_circuit w = setSettlementCircuitOpen true → w_db (runOnce limit t io w) = w_db w.
Proof.
  intros Hk. unfold runOnce. cbv zeta. rewrite (circuit_key_open _ _ Hk).
  destruct (w_halted (clear_stale_halt t w)), (global_halt t w); apply clear_stale_db.
Qed.

Lemma clear_stale_keys t w :
  redis_circuit (clear_stale_halt t w) = redis_circuit w ∧ redis_halt (clear_stale_halt t w) = redis_halt w.
Proof. unfold clear_stale_halt. by destruct (_ && _). Qed.

(** What the processes do by themselves. *)
Inductive auto_step : worker_state → worker_state → Prop :=
  | auto_tick limit t io w : auto_step w (runOnce limit t io w)
  | auto_message t newId text w : auto_step w (snd (handleSettlementJsMessage t newId text w))
  | auto_restart w : auto_step w (set_halted false w).

Lemma open_circuit_step w w' :
  redis_circuit w = setSettlementCircuitOpen true → auto_step w w' →
  redis_circuit w' = setSettlementCircuitOpen true ∧ w_db w' = w_db w.
Proof.
  intros Hk Hs. revert Hk. destruct Hs as [limit t io v|t newId text v|v]; intros Hk.
  - split; [|by apply open_circuit_skips]. unfold runOnce. cbv zeta.
    rewrite (circuit_key_open _ _ Hk).
    destruct (w_halted (clear_stale_halt t v)), (global_halt t v);
      by rewrite (proj1 (clear_stale_keys t v)).
  - unfold handleSettlementJsMessage. cbv zeta.
    assert (redis_circuit (clear_stale_halt t v) = setSettlementCircuitOpen true) as Hk'
      by (by rewrite (proj1 (clear_stale_keys t v))).
    rewrite (circuit_key_open _ _ Hk'). destruct (_ || _); simpl; (split; [done|apply clear_stale_db]).
  - done.
Qed.

(** A batch that goes on does not close the circuit. *)
Lemma trigger_circuit ok msg w :
  redis_circuit w = setSettlementCircuitOpen true →
  redis_circuit (triggerCircuitIfViolation ok msg w) = setSettlementCircuitOpen true.
Proof. unfold triggerCircuitIfViolation. by case_bool_decide; [destruct ok|]. Qed.
Lemma record_failure_circuit t row msg w o w' :
  record_failure t row msg w = (o, w') →
  redis_circuit w' = redis_circuit (triggerCircuitIfViolation (te_redis_ok t) msg w)
  ∧ w_halted w' = w_halted (triggerCircuitIfViolation (te_redis_ok t) msg w).
Proof. unfold record_failure. intros Hrec. by repeat case_match; simplify_eq. Qed.
Lemma drain_circuit n io w :
  redis_circuit w = setSettlementCircuitOpen true → redis_circuit (drain n io w) = setSettlementCircuitOpen true.
Proof.
  apply (drain_ind (λ w, redis_circuit w = setSettlementCircuitOpen true)). clear. intros t w o w' Hrun Hw.
  apply processOneEvent_cases in Hrun as [(_ & -> & _)|(id & e & _ & Hcase)]; [done|].
  destruct Hcase as [| | |p msg o w' _ _ Hrec]; try done.
  destruct (record_failure_circuit _ _ _ _ _ _ Hrec) as [-> _]. by apply trigger_circuit.
Qed.

(** Nothing is settled and the database does not change, but for what is left of the batch
    that is under way ([n] events; none with [n = 0]). *)
Definition stopped (w : worker_state) : Prop :=
  ∀ n io w', rtc auto_step (drain n io w) w' → w_db w' = w_db (drain n io w).
Lemma open_circuit_stops w : redis_circuit w = setSettlementCircuitOpen true → stopped w.
Proof.
  intros Hw n io w' Hsteps. apply (drain_circuit n io) in Hw. set (v := drain n io w) in *.
  assert (redis_circuit w' = setSettlementCircuitOpen true ∧ w_db w' = w_db v) as [_ ?]; [|done].
  apply (rtc_invariant auto_step (λ x, redis_circuit x = setSettlementCircuitOpen true
    ∧ w_db x = w_db v)) with v; [|done|done].
  intros x y [Hx Hxd] Hs. destruct (open_circuit_step x y Hx Hs) as [? ->]. done.
Qed.

(** An event of a tick, or a message, fails with an accounting violation. *)
Inductive violated (t : tick_env) (w : worker_state) : worker_state → Prop :=
  | violated_event id e p msg o w1 :
      claim (te_locked t) (w_db w) = Some (id, e) →
      normalizeSettlementPayload (ev_payload e) (w_db w) = Ret (p, w_db w) →
      processSettlementEventRow (te_settle t) (claimed_row id e p) (w_db w) = Throw msg →
      msg ∈ CIRCUIT_OPEN_ERRORS → processOneEvent t w = (o, w1) → violated t w w1
  | violated_message newId text raw msg d r w1 :
      w_halted (clear_stale_halt t w) = false → global_halt t w = false → circuit_open t w = false →
      JSON_parse text = Some raw →
      ingestAndSettleMatchEventFromJetStream (te_settle t) newId raw (w_db w) = (Throw msg, d) →
      msg ∈ CIRCUIT_OPEN_ERRORS → handleSettlementJsMessage t newId text w = (r, w1) → violated t w w1.

Lemma trigger_opens msg w :
  msg ∈ CIRCUIT_OPEN_ERRORS →
  w_halted (triggerCircuitIfViolation true msg w) = true ∧
  redis_circuit (triggerCircuitIfViolation true msg w) = setSettlementCircuitOpen true.
Proof. intros Hmsg. unfold triggerCircuitIfViolation. by rewrite bool_decide_eq_true_2. Qed.
Lemma violation_opens t w w1 :
  te_redis_ok t = true → violated t w w1 →
  w_halted w1 = true ∧ redis_circuit w1 = setSettlementCircuitOpen true.
Proof.
  intros Hok [id e p msg o v Hc Hn Hrun Hmsg Hone|newId text raw msg d r v Hh Hg Hci Hj Hrun Hmsg Hone].
  - unfold processOneEvent in Hone. rewrite Hc, Hn in Hone. fold (claimed_row id e p) in Hone.
    unfold transaction in Hone. rewrite Hrun in Hone.
    apply record_failure_circuit in Hone as [-> ->]. rewrite Hok. by apply trigger_opens.
  - unfold handleSettlementJsMessage in Hone. cbv zeta in Hone.
    assert (global_halt t (clear_stale_halt t w) = global_halt t w) as Hg'
      by (unfold global_halt; by rewrite (proj2 (clear_stale_keys t w))).
    assert (circuit_open t (clear_stale_halt t w) = circuit_open t w) as Hc'
      by (unfold circuit_open; by rewrite (proj1 (clear_stale_keys t w))).
    rewrite Hh, Hg', Hg, Hc', Hci, Hj, clear_stale_db, Hrun, Hok in Hone. simpl in Hone.
    assert (∀ v, (v = triggerCircuitIfViolation true msg (on_db (λ _, d) (clear_stale_halt t w))
      ∨ ∃ a b, v = publish_stream_dlq a b (triggerCircuitIfViolation true msg (on_db (λ _, d) (clear_stale_halt t w)))) →
      w_halted v = true ∧ redis_circuit v = setSettlementCircuitOpen true) as Hv.
    { intros v' [->|(a & b & ->)]; simpl; by apply trigger_opens. }
    apply Hv. destruct (fatalNonRetryable msg); injection Hone as _ <-; [right; by eexists _, _|by left].
Qed.

(** C31. An accounting violation stops settlement: when an event of a poll tick or a stream
    message fails with one of the violations of the circuit breaker and Redis takes the
    write, the process is halted, and once the batch it happened in has ended nothing is
    settled and the database does not change any more, through poll ticks, stream messages,
    failing Redis reads and restarts, until an operator acts. The rest of the batch itself
    is settled ([SettlementRunsDemo.batch_outlives_the_circuit]), and a lost Redis write
    stops nothing ([lost_circuit_write_resumes]). *)
Theorem violation_stops_settlement (t : tick_env) (w w1 : worker_state) :
  te_redis_ok t = true → violated t w w1 → w_halted w1 = true ∧ stopped w1.
Proof.
  intros Hok Hv. destruct (violation_opens t w w1 Hok Hv) as [Hh Hk]. split; [done|].
  by apply open_circuit_stops.
Qed.

(** The circuit does not hold without Redis: when the write that opens it is lost
    and Redis answers again, the next tick takes the halt for a stale one, clears it and
    settles its whole batch. *)
Theorem lost_circuit_write_resumes (t t' : tick_env) (w : worker_state) (row : SettlementRow)
    (msg : string) (limit : nat) (io : nat → tick_env) :
  te_redis_ok t = false → msg ∈ CIRCUIT_OPEN_ERRORS →
  global_halt t' w = false → circuit_open t' w = false →
  let w1 := (record_failure t row msg w).2 in
  w_halted w1 = true ∧ runOnce limit t' io w1 = drain limit io (set_halted false w1).
Proof.
  intros Hok Hmsg Hh Hc w1.
  assert (w_halted w1 = true ∧ redis_halt w1 = redis_halt w ∧ redis_circuit w1 = redis_circuit w)
    as (Hw & Hk1 & Hk2).
  { unfold w1, record_failure, triggerCircuitIfViolation. rewrite bool_decide_eq_true_2, Hok by done.
    by repeat case_match. }
  clearbody w1. split; [done|].
  assert (global_halt t' w1 = false) as Hh1 by (unfold global_halt; by rewrite Hk1).
  assert (circuit_open t' w1 = false) as Hc1 by (unfold circuit_open; by rewrite Hk2).
  unfold runOnce. cbv zeta. unfold clear_stale_halt. by rewrite Hw, Hh1, Hc1.
Qed.

(** ** The stream is idempotent *)
Lemma normalize_ext (raw : json) (d1 d2 : settle_db) x :
  normalizeSettlementPayload raw d1 = Ret (x, d1) → normalizeSettlementPayload raw d2 = Ret (x, d2).
Proof.
  unfold normalizeSettlementPayload, get_or. destruct raw as [| | |s| |]; simpl; unfold bind, ret, throw;
    simpl; repeat case_match; intros; by simplify_eq.
Qed.

(** The unique index on (match_engine_id, engine_event_id). *)
Definition unique_events (d : settle_db) : Prop := ∀ i j ei ej,
  events d !! i = Some ei → events d !! j = Some ej →
  ev_engine ei = ev_engine ej → ev_engine_event ei = ev_engine_event ej → i = j.

Lemma find_event_unique d id e :
  unique_events d → events d !! id = Some e →
  ∃ e', find_event (ev_engine e) (ev_engine_event e) d = Some (id, e').
Proof.
  intros Hu He. destruct (find_event _ _ d) as [[j ej]|] eqn:E.
  - apply find_event_Some in E as (Hj & Heng & Hev). rewrite (Hu id j e ej) by done. eauto.
  - unfold find_event in E. apply elem_of_map_to_list, list_elem_of_In in He.
    pose proof (List.find_none _ _ E _ He) as Hf. simpl in Hf.
    by rewrite String.eqb_refl, Z.eqb_refl in Hf.
Qed.

Lemma insert_event_key newId engine ev payload d id d1 e :
  insert_event newId engine ev payload d = Ret (id, d1) → events d1 !! id = Some e →
  unique_events d → ev_engine e = engine ∧ ev_engine_event e = ev ∧ unique_events d1.
Proof.
  intros Hins He Hu. apply insert_event_inv in Hins as [(e' & -> & Hf)|(-> & Hf & Hnone & ->)].
  - apply find_event_Some in Hf as (He' & ? & ?). by simplify_eq.
  - simpl in He. rewrite lookup_insert_eq in He. injection He as <-. simpl. split; [done|]. split; [done|].
    assert (∀ i ei, events d !! i = Some ei → ev_engine ei = engine → ev_engine_event ei = ev → False) as Hno.
    { intros i ei Hi <- <-. destruct (find_event_unique d i ei Hu Hi) as [e' Hf']. congruence. }
    intros i j ei ej. simpl. rewrite !lookup_insert_Some.
    intros [[<- <-]|[? Hi]] [[<- <-]|[? Hj]]; simpl; intros; [done|exfalso; eauto|exfalso; eauto|eauto].
Qed.

Lemma alter_unique id f d d' :
  (∀ e, ev_engine (f e) = ev_engine e ∧ ev_engine_event (f e) = ev_engine_event e) →
  events d' = alter f id (events d) → unique_events d → unique_events d'.
Proof.
  intros Hf Hev Hu i j ei ej Hi Hj Heng Hn.
  assert (∀ i ei, events d' !! i = Some ei → ∃ e0, events d !! i = Some e0 ∧
    ev_engine e0 = ev_engine ei ∧ ev_engine_event e0 = ev_engine_event ei) as Hback.
  { intros i' ei'. rewrite Hev. destruct (decide (id = i')) as [->|Hne].
    - rewrite lookup_alter_eq. destruct (events d !! i') as [e0|]; [|done]. intros [= <-].
      destruct (Hf e0). eauto.
    - rewrite lookup_alter_ne by done. eauto. }
  destruct (Hback i ei Hi) as (ei0 & Hi0 & ? & ?), (Hback j ej Hj) as (ej0 & Hj0 & ? & ?).
  apply (Hu i j ei0 ej0); congruence.
Qed.

(** The stream is idempotent: once a message has been settled, receiving it again,
    with any configuration, is answered as already done and changes nothing, so an
    acknowledgement that was lost costs nothing. *)
Theorem stream_settles_once (env env' : settle_env) (newId newId' : Z) (raw : json)
    (n : option EngineLiveNotifyPayload) (d d' : settle_db) :
  books d → unique_events d →
  ingestAndSettleMatchEventFromJetStream env newId raw d = (Ret (Settled n), d') →
  ingestAndSettleMatchEventFromJetStream env' newId' raw d' = (Ret AlreadyDone, d').
Proof.
  unfold ingestAndSettleMatchEventFromJetStream. intros Hb Hu Hrun. apply transaction_Ret in Hrun.
  apply ingest_body_inv in Hrun as (ev & p & id & e & d1 & Hev & Hpos & Hn & Hnull & Hins & He & Hcase).
  destruct Hcase as [([=] & _)|(Hp & pl & n' & [= <-] & _ & Hrun)].
  pose proof (insert_event_books _ _ _ _ _ _ _ Hins Hb) as Hb1.
  destruct (insert_event_key _ _ _ _ _ _ _ _ Hins He Hu) as (Heng & Hevn & Hu1).
  apply process_inv in Hrun as [(Hne & _)|(_ & m & a & _ & _ & _ & Hs)].
  { apply (bk_rows _ Hb1) in Hne as (e' & He' & Hst). simpl in *. congruence. }
  destruct Hs as (_ & _ & _ & _ & d2 & Hmv & Hrt).
  apply record_trade_inv in Hrt as (_ & _ & _ & _ & Hevs & _).
  apply move_funds_inv in Hmv as (_ & _ & _ & _ & _ & _ & _ & _ & _ & Hevs1 & _).
  rewrite Hevs1 in Hevs. cbn [row_id] in Hevs. set (h := settled_hash _ _ _ _) in Hevs.
  assert (unique_events d') as Hu' by (by apply (alter_unique id (event_processed h) d1)).
  assert (events d' !! id = Some (event_processed h e)) as He'
    by (rewrite Hevs, lookup_alter_eq, He; done).
  destruct (find_event_unique d' id _ Hu' He') as [e' Hf]. simpl in Hf. rewrite Heng, Hevn in Hf.
  unfold transaction, ingest_body. rewrite (bind_Ret _ _ d' tt d') by (by destruct raw).
  rewrite (bind_Ret _ _ _ _ _ (get_or_Some _ _ _ _ Hev)).
  rewrite (bind_Ret _ _ _ _ _ (require_true _ _ _ (proj2 (negb_true_iff _) (proj2 (Z.ltb_ge ev 1) Hpos)))).
  rewrite (bind_Ret _ _ _ _ _ (normalize_ext _ _ d' _ Hn)).
  rewrite (bind_Ret _ _ d' id d') by (unfold insert_event, bind, gets; by rewrite Hf).
  rewrite (bind_Ret _ _ _ _ _ eq_refl). rewrite He'. simpl. done.
Qed.

(** ** Payloads survive the table *)
Definition canonical_payload (p : EnginePayload) : Prop :=
  event_id p ≠ None ∧ timestamp p ≠ None ∧
  ∀ e, p_match_engine_id p = Some e → js_trim e = e ∧ e ≠ "".

Lemma payload_of_json p : canonical_payload p → payload_of_object (payload_json p) = Some p.
Proof.
  intros (Hid & Hts & Heng). destruct p as [ev eng sym pr q to mo tu mu sd ts]; simpl in *.
  destruct ev as [ev|]; [|done]. destruct ts as [ts|]; [|done].
  destruct eng as [g|]; unfold payload_of_object, json_field; simpl.
  - destruct (Heng g eq_refl) as [Htrim Hne]. rewrite Htrim.
    destruct (String.eqb_spec g ""); [done|]. by destruct sd.
  - by destruct sd.
Qed.

(** A payload survives the queue: what the worker reads back from the payload column
    is the payload that was stored, whether the column comes as an object or as a text. *)
Theorem payload_roundtrip (p : EnginePayload) (d : settle_db) (text : string) :
  canonical_payload p → JSON_parse text = Some (payload_json p) →
  normalizeSettlementPayload (payload_json p) d = Ret (p, d) ∧
  normalizeSettlementPayload (JStr text) d = Ret (p, d).
Proof.
  intros (Hid & Hts & Heng) Hparse.
  pose proof (payload_of_json p (conj Hid (conj Hts Heng))) as Hp.
  assert (get_or (payload_of_object (payload_json p)) "SETTLEMENT_PAYLOAD_MISSING_FIELDS" d = Ret (p, d))
    as Hget by (by rewrite Hp).
  unfold normalizeSettlementPayload. rewrite Hparse. by split.
Qed.
End Books.
