(* ===== verification/SettlementRunsDemo.v ===== *)
(** * Settlement: runs on the concrete market

    The theorems on the worker, the stream and the circuit, evaluated on the database of
    [SettlementDemo]. *)
From stdpp Require Import base gmap strings list fin_maps pretty.
From Stdlib Require Import ZArith Lia Ascii.
From S2P Require Import Prelude Money Balances Escrow Halt SettlementModel Settlement.
From S2P Require Import SettlementDemo SettlementWorker SettlementRuns.
Local Open Scope Z_scope.

Definition is_Some_b {A} (o : option A) : bool := match o with Some _ => true | None => false end.

Definition demo_pending (evs : gmap Z settlement_event) : Prop :=
  ∀ id e, evs !! id = Some e → ev_status e = EvPending ∧ ev_retry_count e = 0.

Definition rows_nonneg_b (rows : gmap bal_key user_balance) : bool :=
  forallb (λ x, row_nonneg (snd x)) (map_to_list rows).

Lemma demo_wf : balances_wf (Balances demo_rows []).
Proof.
  assert (rows_nonneg_b demo_rows = true) as Hb by (vm_compute; reflexivity).
  unfold rows_nonneg_b in Hb. rewrite forallb_forall in Hb. intros k r Hk.
  apply elem_of_map_to_list, list_elem_of_In in Hk. exact (Hb (k, r) Hk).
Qed.

Lemma demo_books evs : demo_pending evs → books (demo_db evs).
Proof.
  intros Hevs. split.
  - apply demo_wf.
  - done.
  - intros id. split; [done|]. intros (e & He & Hst). destruct (Hevs id e He) as [Hp _]. congruence.
  - intros id. by left.
  - done.
  - intros id e He. destruct (Hevs id e He) as [_ ->]. unfold MAX_RETRIES. lia.
Qed.

Definition demo_queue : gmap Z settlement_event :=
  {[1 := pending_event 1 (payload_json (demo_payload_of 1 Buy "0.2"));
    2 := pending_event 2 (payload_json (demo_payload_of 2 Sell "0.1"))]}.

Lemma demo_queue_pending : demo_pending demo_queue.
Proof.
  intros id e He. unfold demo_queue in He.
  apply lookup_insert_Some in He as [[_ <-]|[_ He]]; [done|].
  by apply lookup_singleton_Some in He as [_ <-].
Qed.

Lemma demo_one_pending id e : ev_status e = EvPending → ev_retry_count e = 0 → demo_pending {[id := e]}.
Proof. intros ? ? i e' He. by apply lookup_singleton_Some in He as [_ <-]. Qed.

Definition demo_worker (d : settle_db) : worker_state := WorkerState d false None None [] [].
Definition demo_tick (redis_ok : bool) : tick_env := TickEnv (demo_env false) [] true redis_ok [] [] 2.
Definition demo_io (i : nat) : tick_env := demo_tick true.
Definition demo_w0 : worker_state := demo_worker (demo_db demo_queue).

Lemma settlement_books_kept_witness :
  books (w_db (runOnce 20 (demo_tick true) demo_io demo_w0)) ∧
  (let d := w_db (runOnce 20 (demo_tick true) demo_io demo_w0) in
   (length (ledger d), length (settlement_trades d)) = (8, 2)%nat).
Proof.
  split; [|vm_compute; reflexivity].
  apply (settlement_books_kept demo_w0).
  - apply demo_books, demo_queue_pending.
  - apply rtc_once, step_tick.
Defined.

Lemma tick_outcomes_witness :
  ∃ w' id e e', processOneEvent (demo_tick true) demo_w0 = (Ret true, w') ∧
    events (w_db w') !! id = Some e' ∧ event_left (demo_tick true) demo_w0 w' id e e' (Ret true).
Proof.
  assert (fst (processOneEvent (demo_tick true) demo_w0) = Ret true) as Hb by (vm_compute; reflexivity).
  destruct (processOneEvent (demo_tick true) demo_w0) as [b w'] eqn:E. cbn [fst] in Hb. subst b.
  destruct (tick_outcomes (demo_tick true) demo_w0 w' (Ret true)
    (demo_books demo_queue demo_queue_pending) E) as (id & e & e' & _ & _ & _ & _ & _ & He' & Hl).
  exists w', id, e, e'. split; [reflexivity|]. split; [exact He'|exact Hl].
Defined.

Definition demo_bad_text : settlement_event := pending_event 1 (JStr "").
Definition demo_bad_w : worker_state := demo_worker (demo_db {[1 := demo_bad_text]}).

Lemma invalid_json_leaves_no_dlq_witness :
  ∃ w', processOneEvent (demo_tick true) demo_bad_w = (Ret true, w') ∧ dlq (w_db w') = [].
Proof.
  assert (claim (te_locked (demo_tick true)) (w_db demo_bad_w) = Some (1, demo_bad_text)) as Hc
    by (vm_compute; reflexivity).
  assert (JSON_parse "" = None) as Hj by reflexivity.
  destruct (invalid_json_leaves_no_dlq (demo_tick true) demo_bad_w 1 demo_bad_text "" Hc eq_refl Hj ltac:(done))
    as (w' & Hw & Hd & _).
  exists w'. split; [exact Hw|exact Hd].
Defined.

Lemma worker_drains_witness :
  ∃ e, events (w_db (drain 21 demo_io demo_w0)) !! 2 = Some e ∧
    (ev_status e = EvProcessed ∨ ev_status e = EvFailed ∨ ev_status e = EvPending ∧ ev_retry_count e = MAX_RETRIES).
Proof.
  assert (is_Some_b (events (w_db (drain 21 demo_io demo_w0)) !! 2) = true) as Hb
    by (vm_compute; reflexivity).
  destruct (events (w_db (drain 21 demo_io demo_w0)) !! 2) as [e|] eqn:E; [|discriminate Hb].
  exists e. split; [reflexivity|].
  apply (worker_drains demo_w0 21 demo_io (demo_books demo_queue demo_queue_pending)) with 2.
  - intros i. reflexivity.
  - intros i. simpl. lia.
  - vm_compute. reflexivity.
  - exact E.
Defined.

(** An event whose maker's order does not exist: an accounting violation. *)
Definition orphan_payload (id : Z) : EnginePayload :=
  {| event_id := Some id; p_match_engine_id := Some "engine-0"; symbol := "BTC_USDT";
     price := "50000.5"; qty := "0.2"; taker_order_id := "order-t"; maker_order_id := "order-x";
     taker_user_id := taker_id; maker_user_id := maker_id; taker_side := Buy;
     timestamp := Some 1700000000 |}.
Definition orphan_event : settlement_event := pending_event 1 (payload_json (orphan_payload 1)).
Definition orphan_w : worker_state := demo_worker (demo_db {[1 := orphan_event]}).
Definition orphan_row : SettlementRow := claimed_row 1 orphan_event (orphan_payload 1).

Definition thrown {A S} (o : outcome (A * S)) : option string :=
  match o with Throw e => Some e | Ret _ => None end.
Lemma thrown_Some {A S} (o : outcome (A * S)) e : thrown o = Some e → o = Throw e.
Proof. destruct o; [done|]. by intros [= ->]. Qed.

Lemma orphan_fails :
  processSettlementEventRow (demo_env false) orphan_row (w_db orphan_w) = Throw "ORDER_INVARIANT_VIOLATION".
Proof. apply thrown_Some. vm_compute. reflexivity. Qed.

Lemma normalize_stored (p : EnginePayload) (d : settle_db) :
  canonical_payload p → normalizeSettlementPayload (payload_json p) d = Ret (p, d).
Proof.
  intros Hp.
  assert (get_or (payload_of_object (payload_json p)) "SETTLEMENT_PAYLOAD_MISSING_FIELDS" d = Ret (p, d))
    as Hget by (by rewrite payload_of_json).
  exact Hget.
Qed.

Lemma violation_stops_settlement_witness :
  let w1 := snd (processOneEvent (demo_tick true) orphan_w) in
  w_halted w1 = true ∧ w_db (runOnce 20 (demo_tick true) demo_io (set_halted false w1)) = w_db w1.
Proof.
  set (w1 := snd (processOneEvent (demo_tick true) orphan_w)).
  destruct (violation_stops_settlement (demo_tick true) orphan_w w1) as [Hh Hs].
  - reflexivity.
  - apply (violated_event _ _ 1 orphan_event (orphan_payload 1) "ORDER_INVARIANT_VIOLATION"
      (fst (processOneEvent (demo_tick true) orphan_w))).
    + vm_compute. reflexivity.
    + apply normalize_stored. split; [discriminate|]. split; [discriminate|]. intros e [= <-]. done.
    + apply orphan_fails.
    + vm_compute. repeat constructor.
    + unfold w1. destruct (processOneEvent _ _). reflexivity.
  - split; [exact Hh|]. apply (Hs 0%nat demo_io). cbn [drain].
    eapply rtc_l; [apply auto_restart|]. apply rtc_once, auto_tick.
Defined.

Lemma lost_circuit_write_resumes_witness :
  let w1 := (record_failure (demo_tick false) orphan_row "ORDER_INVARIANT_VIOLATION" orphan_w).2 in
  w_halted w1 = true ∧ runOnce 20 (demo_tick true) demo_io w1 = drain 20 demo_io (set_halted false w1).
Proof.
  apply (lost_circuit_write_resumes (demo_tick false) (demo_tick true) orphan_w orphan_row
    "ORDER_INVARIANT_VIOLATION" 20 demo_io).
  - reflexivity.
  - vm_compute. repeat constructor.
  - reflexivity.
  - reflexivity.
Defined.

(** The violation does not stop the batch it happens in: in one tick with a batch of
    two, the first event fails with an accounting violation and opens the circuit, and
    the second event is settled all the same. *)
Theorem batch_outlives_the_circuit :
  let w := demo_worker (demo_db {[1 := orphan_event;
             2 := pending_event 2 (payload_json (demo_payload_of 2 Sell "0.1"))]}) in
  let w' := runOnce 2 (demo_tick true) demo_io w in
  (w_halted w', redis_circuit w', ev_status <$> events (w_db w') !! 1,
   ev_status <$> events (w_db w') !! 2, length (settlement_trades (w_db w')))
  = (true, Some "1", Some EvFailed, Some EvProcessed, 1%nat).
Proof. vm_compute. reflexivity. Qed.

(** A stream message. *)
Definition demo_message : json :=
  JObj [("event_id", JNum (Some 1)); ("engine_id", JStr "engine-0"); ("symbol", JStr "BTC_USDT");
        ("price", JStr "50000.5"); ("qty", JStr "0.2"); ("taker_order_id", JStr "order-t");
        ("maker_order_id", JStr "order-m"); ("taker_user_id", JStr taker_id);
        ("maker_user_id", JStr maker_id); ("taker_side", JStr "Buy"); ("timestamp", JNum (Some 1700000000))].

Definition was_settled (o : outcome JetStreamSettleOutcome) : bool :=
  match o with Ret (Settled (Some _)) => true | _ => false end.

Lemma stream_settles_once_witness :
  ∃ n d', ingestAndSettleMatchEventFromJetStream (demo_env false) 7 demo_message (demo_db ∅)
            = (Ret (Settled (Some n)), d') ∧
    ingestAndSettleMatchEventFromJetStream (demo_env true) 8 demo_message d' = (Ret AlreadyDone, d').
Proof.
  assert (was_settled (fst (ingestAndSettleMatchEventFromJetStream (demo_env false) 7 demo_message
    (demo_db ∅))) = true) as Hs by (vm_compute; reflexivity).
  destruct (ingestAndSettleMatchEventFromJetStream (demo_env false) 7 demo_message (demo_db ∅))
    as [[[[n|]|]|e] d'] eqn:E; try discriminate Hs.
  exists n, d'. split; [reflexivity|].
  apply (stream_settles_once (demo_env false) (demo_env true) 7 8 demo_message (Some n) (demo_db ∅) d').
  - apply demo_books. intros i e He. discriminate He.
  - intros i j ei ej Hi. discriminate Hi.
  - exact E.
Defined.

Lemma payload_roundtrip_witness :
  let p := demo_payload_of 1 Buy "0.2" in
  normalizeSettlementPayload (payload_json p) (demo_db ∅) = Ret (p, demo_db ∅) ∧
  normalizeSettlementPayload (JStr "payload") (demo_db ∅) = Ret (p, demo_db ∅).
Proof.
  apply (payload_roundtrip (demo_payload_of 1 Buy "0.2") (demo_db ∅) "payload").
  - split; [discriminate|]. split; [discriminate|]. intros e [= <-]. split; [reflexivity|discriminate].
  - reflexivity.
Defined.

(** ** What the operator's replay and overlapping settlements do *)

(** An event that failed after its last retry is made pending again with its ten retries, and
    no tick takes it: the replay of the operator leaves it pending for ever. *)
Definition exhausted_event : settlement_event :=
  SettlementEvent "engine-0" 1 (payload_json (demo_payload_of 1 Buy "0.2")) EvFailed 10 None (Some "timeout").
Lemma replayed_event_stays_pending :
  let d := replay_failed [1] (demo_db {[1 := exhausted_event]}) in
  ev_status <$> events d !! 1 = Some EvPending ∧ claim [] d = None.
Proof. vm_compute. split; reflexivity. Qed.

(** So does a connection that is lost between the two UPDATEs of the last retry. *)
Lemma lost_mark_stays_pending :
  let w := demo_worker (demo_db {[1 := SettlementEvent "engine-0" 1 (payload_json (demo_payload_of 1 Buy "2"))
                                        EvPending 9 None None]}) in
  let t := TickEnv (SettleEnv false false demo_shape "ref-1") [] true true [] [] 1 in
  let row := claimed_row 1 (pending_event 1 (payload_json (demo_payload_of 1 Buy "2"))) (demo_payload_of 1 Buy "2") in
  let '(o, w') := record_failure t row "timeout" w in
  o = Throw connection_lost ∧ (ev_status <$> events (w_db w') !! 1, ev_retry_count <$> events (w_db w') !! 1)
    = (Some EvPending, Some 10) ∧ claim [] (w_db w') = None.
Proof. vm_compute. split_and!; reflexivity. Qed.

(** Two settlements that overlap, of other users, read the same head of the chain: whatever
    the order they commit in, the rows of one and of the other follow the same row, and the
    ledger is no chain. *)
Lemma concurrent_settlements_fork_chain :
  let rows id := chain_entries (last_hash []) id (ledger_deltas (demo_payload_of id Buy "0.2") demo_market demo_amounts false) in
  chain_ok None (rows 1) ∧ chain_ok None (rows 2) ∧ ¬ chain_ok None (rows 1 ++ rows 2) ∧ ¬ chain_ok None (rows 2 ++ rows 1).
Proof.
  intros rows. split_and!; [apply chain_entries_ok..| |]; intros Hc; apply chain_ok_app in Hc as [_ Hc];
    vm_compute in Hc; by destruct Hc.
Qed.
