(* ===== verification/AuditModel.v ===== *)
(** * Settlement audits: the jobs that check the books

    [services/settlement/global-balance-auditor.ts], [settlement-replay-validator.ts],
    [services/spot-integrity.service.ts], [services/tier1-reconciliation.service.ts] and
    [services/settlement/ledger-compaction.service.ts]. The audits run on timers beside the
    worker and open the settlement circuit when the books disagree. They read the tables in
    several statements without a transaction: [reads i] is the database at the [i]-th of
    them. Compaction is one transaction. Metrics, logs and alerts are left out. *)
From stdpp Require Import base gmap strings list fin_maps pretty.
From Stdlib Require Import ZArith Lia Ascii.
From S2P Require Import Prelude Money Balances Escrow Halt SettlementModel SettlementWorker.
Local Open Scope Z_scope.

(** The configuration: [features.makerRebatesEnabled], the thresholds of the two audits
    (AUDIT_CIRCUIT_ABS_THRESHOLD, INTEGRITY_CIRCUIT_ABS_THRESHOLD), and whether the Redis
    write of an opened circuit succeeds. *)
Record audit_env := AuditEnv {
  ae_rebates : bool;
  ae_audit_threshold : Z;
  ae_integrity_threshold : Z;
  ae_redis_ok : bool;
}.
Definition default_thresholds (rebates redis_ok : bool) : audit_env :=
  AuditEnv rebates (dec 1000 0) (dec 1000 0) redis_ok.

Record audit_result := AuditResult { ar_ok : bool; ar_mismatches : Z }.

Definition open_circuit (env : audit_env) (msg : string) (w : worker_state) : worker_state :=
  triggerCircuitIfViolation (ae_redis_ok env) msg w.

(** SELECT ... WHERE status = 'processed' ORDER BY id ASC *)
Definition processed_events (d : settle_db) : list (Z * settlement_event) :=
  sort_by (λ a b, fst a <=? fst b)
    (filter (λ x, ev_status (snd x) = EvProcessed) (map_to_list (events d))).

(** SUM(delta) ... GROUP BY user_id, asset: a group for each pair, in an order SQL leaves open *)
Definition pair_key (r : ledger_row) : string * string := (lr_user r, lr_asset r).
Fixpoint distinct_pairs (seen : list (string * string)) (l : list ledger_row) :
    list (string * string) :=
  match l with
  | [] => []
  | r :: l' => if bool_decide (pair_key r ∈ seen) then distinct_pairs seen l'
               else pair_key r :: distinct_pairs (pair_key r :: seen) l'
  end.
Definition group_sum (g : string * string) (l : list ledger_row) : Z :=
  lsum (λ r, if bool_decide (pair_key r = g) then lr_delta r else 0) l.
Definition ledger_groups (l : list ledger_row) : list ((string * string) * Z) :=
  map (λ g, (g, group_sum g l)) (distinct_pairs [] l).

Section Audits.
Context `{DecimalJs, Runtime}.

(** ** [global-balance-auditor.ts] *)
Definition aggKey (userId asset : string) : string := lower userId +:+ "|" +:+ js_trim asset.

(** The deltas of a processed event, computed again from its payload and the market. *)
Definition replay_event (rebates : bool) (payload : json) : M settle_db (list delta_line) :=
  let* p := normalizeSettlementPayload payload in
  let* market := resolveMarketAssets (symbol p) in
  get_or (computeSettlementLedgerDeltasFromPayload p market rebates) "[DecimalError] Invalid argument".

(** [expected.set(k, (expected.get(k) ?? 0).plus(d.delta))] *)
Definition add_expected (m : gmap string Z) (l : delta_line) : gmap string Z :=
  let k := aggKey (dl_user l) (dl_asset l) in
  <[k := dplus (default 0 (m !! k)) (dl_delta l)]> m.

(** The loop over the events; an event that cannot be replayed opens the circuit. *)
Fixpoint replay_events (env : audit_env) (reads : nat → settle_db) (i : nat)
    (evs : list (Z * settlement_event)) (expected : gmap string Z) (failures : Z)
    (w : worker_state) : gmap string Z * Z * worker_state :=
  match evs with
  | [] => (expected, failures, w)
  | (_, e) :: evs' =>
      match replay_event (ae_rebates env) (ev_payload e) (reads i) with
      | Ret (ls, _) => replay_events env reads (S i) evs' (foldl add_expected expected ls) failures w
      | Throw _ => replay_events env reads (S i) evs' expected (failures + 1)
                     (open_circuit env "SETTLEMENT_LEDGER_AGGREGATE_MISMATCH" w)
      end
  end.

(** [actual.set(aggKey(r.user_id, r.asset), r.sum)] for each group *)
Definition actual_sums (l : list ledger_row) : gmap string Z :=
  foldl (λ m g, <[aggKey (fst (fst g)) (snd (fst g)) := snd g]> m) ∅ (ledger_groups l).

(** The loop over the keys of either map: mismatches, critical ones, the worker. *)
Fixpoint compare_keys (env : audit_env) (expected actual : gmap string Z) (keys : list string)
    (mismatches critical : Z) (w : worker_state) : Z * Z * worker_state :=
  match keys with
  | [] => (mismatches, critical, w)
  | k :: keys' =>
      let exp := default 0 (expected !! k) in
      let act := default 0 (actual !! k) in
      if exp =? act then compare_keys env expected actual keys' mismatches critical w
      else
        let drift := Z.abs (dminus exp act) in
        if ae_audit_threshold env <=? drift then
          compare_keys env expected actual keys' (mismatches + 1) (critical + 1)
            (open_circuit env "SETTLEMENT_LEDGER_AGGREGATE_MISMATCH" w)
        else compare_keys env expected actual keys' (mismatches + 1) critical w
  end.

(** Reads: the events, the market of each event, the ledger. *)
Definition runGlobalBalanceAudit (env : audit_env) (reads : nat → settle_db) (w : worker_state) :
    audit_result * worker_state :=
  let evs := processed_events (reads 0%nat) in
  let '(expected, failures, w) := replay_events env reads 1 evs ∅ 0 w in
  if 0 <? failures then (AuditResult false failures, w)
  else
    let actual := actual_sums (ledger (reads (S (length evs)))) in
    let allKeys := elements (dom expected ∪ dom actual) in
    let '(mismatches, criticalMismatches, w) := compare_keys env expected actual allKeys 0 0 w in
    (AuditResult (criticalMismatches =? 0) mismatches, w).

(** ** [spot-integrity.service.ts]

    [toFixed d p] is [d.toFixed(p)]. The sums of the query, over the entries whose
    description has account_type=trading, are [ledger_sum]. *)
Section Integrity.
Variable toFixed : Z → Z → string.

Definition trading_rows (b : balances) : list (bal_key * user_balance) :=
  filter (λ x, account_type (fst x) = ACCOUNT_TYPE ∧ chain_id (fst x) = CHAIN_ID_GLOBAL)
    (map_to_list (user_balances b)).

Fixpoint integrity_rows (env : audit_env) (l : list ledger_entry)
    (rows : list (bal_key * user_balance)) (mismatches critical : Z) (w : worker_state) :
    Z * Z * worker_state :=
  match rows with
  | [] => (mismatches, critical, w)
  | (k, r) :: rows' =>
      let availBal := available_balance r in
      let lockBal := locked_balance r in
      let availLedger := ledger_sum ACCOUNT_TYPE (user_id k) (currency_id k) Available l in
      let lockLedger := ledger_sum ACCOUNT_TYPE (user_id k) (currency_id k) Locked l in
      let availMatch := String.eqb (toFixed availLedger 8) (toFixed availBal 8) in
      let lockMatch := String.eqb (toFixed lockLedger 8) (toFixed lockBal 8) in
      if availMatch && lockMatch then integrity_rows env l rows' mismatches critical w
      else
        let availDrift := Z.abs (dminus availBal availLedger) in
        let lockDrift := Z.abs (dminus lockBal lockLedger) in
        if ae_integrity_threshold env <=? Z.max availDrift lockDrift then
          integrity_rows env l rows' (mismatches + 1) (critical + 1)
            (open_circuit env "GLOBAL_BALANCE_INVARIANT_VIOLATION" w)
        else integrity_rows env l rows' (mismatches + 1) critical w
  end.

(** One query. *)
Definition runSpotIntegrityCheck (env : audit_env) (d : settle_db) (w : worker_state) :
    audit_result * worker_state :=
  let b := sd_balances d in
  let '(mismatches, criticalMismatches, w) :=
    integrity_rows env (balance_ledger b) (trading_rows b) 0 0 w in
  (AuditResult (criticalMismatches =? 0) mismatches, w).
End Integrity.

(** ** [settlement-replay-validator.ts]

    It recomputes an event's hash from the stored payload as it is, and from the view
    [markets], which has the precisions. *)
Fixpoint json_stringify (v : json) : string :=
  match v with
  | JNull => "null"
  | JBool b => if b then "true" else "false"
  | JNum n => json_number n
  | JStr s => json_quote s
  | JArr l => "[" +:+ join "," (map json_stringify l) +:+ "]"
  | JObj fs => "{" +:+ join "," (map (λ f, json_quote (fst f) +:+ ":" +:+ json_stringify (snd f)) fs) +:+ "}"
  end.

(** [JSON.stringify(Object.keys(p).sort().map((k) => [k, p[k]]))] *)
Definition raw_canonical (fields : list (string * json)) : string :=
  let pair k := "[" +:+ json_quote k +:+ ","
                +:+ json_stringify (default JNull (json_field (JObj fields) k)) +:+ "]" in
  "[" +:+ join "," (map pair (sort_by String.leb (map fst fields))) +:+ "]".

(** The view [markets]: the decimals of the quote currency, else the price's precision. The
    ids of the currencies are not selected. *)
Definition view_market (symbol : string) : M settle_db market_assets :=
  let* row := gets (λ d, markets d !! symbol) in
  let* m := get_or row "MARKET_NOT_FOUND" in
  let* cs := gets sd_currencies in
  let decimals := c ← find (λ c, bool_decide (Some (cr_id c) = m_quote_currency m)) cs; cr_decimals c in
  let view_precision := match decimals with Some x => Some x | None => m_price_precision m end in
  ret (MarketAssets (m_base m) (m_quote m) "" "" (default 8 (m_price_precision m))
         (default 8 (m_qty_precision m)) (default 8 view_precision)).

(** The validator's own copy of the ledger lines; it does not know maker rebates. *)
Definition validator_deltas (takerId makerId : string) (taker_buys : bool) (m : market_assets)
    (a : trade_amounts) : list delta_line :=
  let makerQuoteNetCredit := toDP (quote_precision m) (dminus (am_tradeVal a) (am_makerFee a)) in
  let takerQuoteNetCredit := toDP (quote_precision m) (dminus (am_tradeVal a) (am_takerFee a)) in
  if taker_buys then
    [DeltaLine takerId (base m) (am_qty a);
     DeltaLine takerId (quote m) (dminus (- am_tradeVal a) (am_takerFee a));
     DeltaLine makerId (base m) (- am_qty a);
     DeltaLine makerId (quote m) makerQuoteNetCredit]
  else
    [DeltaLine takerId (base m) (- am_qty a);
     DeltaLine takerId (quote m) takerQuoteNetCredit;
     DeltaLine makerId (base m) (am_qty a);
     DeltaLine makerId (quote m) (dminus (- am_tradeVal a) (am_makerFee a))].

(** A processed event was accepted by [normalizeSettlementPayload], so the fields that are
    read here are strings; a payload that is not an object has no symbol. *)
Definition replay_hash (payload : json) : M settle_db string :=
  match payload with
  | JObj fields =>
      let field k := default "" (json_string (json_field payload k)) in
      let* m := view_market (field "symbol") in
      let* price := decimal_of (field "price") in
      let* qty := decimal_of (field "qty") in
      let a := amounts_of m (fin price) (fin qty) in
      let deltas := validator_deltas (field "taker_user_id") (field "maker_user_id")
                      (String.eqb (field "taker_side") "buy") m a in
      ret (sha256 (join "|" [SETTLEMENT_EVENT_DOMAIN; raw_canonical fields; toNumeric (am_tradeVal a);
                             toNumeric (am_takerFee a); toNumeric (am_makerFee a);
                             settle_lines deltas]))
  | JNull => throw "Cannot read properties of null"
  | _ => throw "MARKET_NOT_FOUND"
  end.

(** ... AND hash IS NOT NULL ORDER BY match_engine_id, engine_event_id *)
Definition hashed_events (d : settle_db) : list (settlement_event * string) :=
  omap (λ e, h ← ev_hash e; Some (e, h))
    (sort_by (λ a b, if String.eqb (ev_engine a) (ev_engine b) then ev_engine_event a <=? ev_engine_event b
                     else String.leb (ev_engine a) (ev_engine b))
       (map snd (processed_events d))).

(** A throw leaves the check: the events behind it are not checked. *)
Fixpoint replay_hashes (env : audit_env) (reads : nat → settle_db) (i : nat)
    (evs : list (settlement_event * string)) (mismatches : Z) (w : worker_state) :
    outcome Z * worker_state :=
  match evs with
  | [] => (Ret mismatches, w)
  | (e, storedHash) :: evs' =>
      match replay_hash (ev_payload e) (reads i) with
      | Throw err => (Throw err, w)
      | Ret (computedHash, _) =>
          if String.eqb computedHash storedHash then replay_hashes env reads (S i) evs' mismatches w
          else replay_hashes env reads (S i) evs' (mismatches + 1)
                 (open_circuit env "SETTLEMENT_HASH_MISMATCH" w)
      end
  end.

Definition replaySettlementIntegrityCheck (env : audit_env) (reads : nat → settle_db)
    (w : worker_state) : outcome audit_result * worker_state :=
  match replay_hashes env reads 1 (hashed_events (reads 0%nat)) 0 w with
  | (Ret mismatches, w) => (Ret (AuditResult (mismatches =? 0) mismatches), w)
  | (Throw err, w) => (Throw err, w)
  end.

(** ** [tier1-reconciliation.service.ts] *)

(** Processed events without a row in the ledger. *)
Definition orphan_count (d : settle_db) : Z :=
  Z.of_nat (length (filter (λ x, event_rows (fst x) (ledger d) = []) (processed_events d))).

Record tier1_details := Tier1 {
  ledger_coverage : audit_result;
  global_settlement_balance : audit_result;
  spot_balance_ledger : audit_result;
  settlement_replay_hash : outcome audit_result;
}.
Record tier1_reads := Tier1Reads {
  rd_coverage : settle_db;
  rd_global : nat → settle_db;
  rd_spot : settle_db;
  rd_replay : nat → settle_db;
}.

Definition runTier1ReconciliationRound (toFixed : Z → Z → string) (env : audit_env)
    (reads : tier1_reads) (w : worker_state) : bool * tier1_details * worker_state :=
  let orphanN := orphan_count (rd_coverage reads) in
  let coverage := AuditResult (orphanN =? 0) orphanN in
  let '(gb, w) := runGlobalBalanceAudit env (rd_global reads) w in
  let '(sp, w) := runSpotIntegrityCheck toFixed env (rd_spot reads) w in
  let '(replay, w) := replaySettlementIntegrityCheck env (rd_replay reads) w in
  let replay_ok := match replay with Ret r => ar_ok r | Throw _ => false end in
  (ar_ok coverage && ar_ok gb && ar_ok sp && replay_ok, Tier1 coverage gb sp replay, w).
End Audits.

(** ** [ledger-compaction.service.ts] *)
Record checkpoint := Checkpoint {
  cp_user : string; cp_asset : string; cp_ledger_id : Z; cp_available : Z; cp_locked : Z;
  cp_chain_head : string;
}.

(** The tables: those of settlement, the ids of the ledger's rows in their order,
    [ledger_checkpoints] and [settlement_ledger_entries_archive]. *)
Record compact_db := CompactDb {
  cd_settle : settle_db;
  cd_ids : list Z;
  checkpoints : list checkpoint;
  archive : list (Z * ledger_row);
}.
Definition add_checkpoint (x : checkpoint) (c : compact_db) : compact_db :=
  CompactDb (cd_settle c) (cd_ids c) (checkpoints c ++ [x]) (archive c).
Definition add_archive (rows : list (Z * ledger_row)) (c : compact_db) : compact_db :=
  CompactDb (cd_settle c) (cd_ids c) (checkpoints c) (archive c ++ rows).

Definition id_rows (c : compact_db) : list (Z * ledger_row) := zip (cd_ids c) (ledger (cd_settle c)).
(** WHERE id <= $1 *)
Definition up_to (cutoff : Z) (rows : list (Z * ledger_row)) : list (Z * ledger_row) :=
  filter (λ x, fst x <= cutoff) rows.

Definition COMPACTION_VIOLATION : string := "LEDGER_COMPACTION_INVARIANT_VIOLATION".

(** [assetToCurrency.get(asset)], of the first currency with the symbol; an empty id counts
    as none. *)
Definition compaction_currency (asset : string) (cs : list currency_row) : option string :=
  id_set (cr_id <$> find (λ c, String.eqb (upper_trim (cr_symbol c)) (upper_trim asset)) cs).

Definition trading_row (userId currencyId : string) (c : compact_db) : option user_balance :=
  user_balances (sd_balances (cd_settle c)) !! trading_key userId currencyId.

Section Compaction.
Context `{DecimalJs}.

Definition row_total (r : user_balance) : Z := dplus (available_balance r) (locked_balance r).

(** The sum of the group against the trading balance. *)
Definition check_group (g : (string * string) * Z) : M compact_db unit :=
  let '((userId, asset), sumDelta) := g in
  let* cs := gets (λ c, sd_currencies (cd_settle c)) in
  let* currencyId := get_or (compaction_currency asset cs) COMPACTION_VIOLATION in
  let* balRow := gets (trading_row userId currencyId) in
  let* r := get_or balRow COMPACTION_VIOLATION in
  require (sumDelta =? row_total r) COMPACTION_VIOLATION.

Definition insert_checkpoint (cutoff : Z) (chain_head : string) (g : (string * string) * Z) :
    M compact_db unit :=
  let '((userId, asset), _) := g in
  let* cs := gets (λ c, sd_currencies (cd_settle c)) in
  let* balRow := gets (λ c, currencyId ← compaction_currency asset cs; trading_row userId currencyId c) in
  let r := default zero_row balRow in
  modify (add_checkpoint (Checkpoint userId asset cutoff (available_balance r) (locked_balance r)
                            chain_head)).

(** DELETE ... WHERE id <= $1, under the trigger [prevent_ledger_update_delete]: a row that is
    not archived raises; for an archived one the BEFORE trigger returns NULL, which makes
    PostgreSQL skip the row, so it stays. *)
Definition delete_ledger_rows (cutoff : Z) : M compact_db unit :=
  let* rows := gets (λ c, up_to cutoff (id_rows c)) in
  let* a := gets archive in
  require (forallb (λ x, existsb (λ y, fst y =? fst x) a) rows) "LEDGER_IMMUTABLE_VIOLATION".

(** The checkpoint plus what is left of the ledger against the trading balance. *)
Definition check_replay (cutoff : Z) (remaining : list ((string * string) * Z))
    (g : (string * string) * Z) : M compact_db unit :=
  let '((userId, asset), _) := g in
  let* cs := gets (λ c, sd_currencies (cd_settle c)) in
  match compaction_currency asset cs with
  | None => ret tt
  | Some currencyId =>
      let* cps := gets (λ c, filter (λ x, cp_user x = userId ∧ cp_asset x = asset ∧ cp_ledger_id x = cutoff)
                               (checkpoints c)) in
      let* balRow := gets (trading_row userId currencyId) in
      match last cps, balRow with
      | Some cp, Some r =>
          let checkpointTotal := dplus (cp_available cp) (cp_locked cp) in
          let remainingDelta := default 0 (snd <$> find (λ x, bool_decide (fst x = (userId, asset))) remaining) in
          require (dplus checkpointTotal remainingDelta =? row_total r) COMPACTION_VIOLATION
      | _, _ => ret tt
      end
  end.

Definition compaction_tx (cutoff : Z) : M compact_db (nat * nat) :=
  let* ledgerSums := gets (λ c, ledger_groups (map snd (up_to cutoff (id_rows c)))) in
  let* chainHeadRow := gets (λ c, find (λ x, fst x =? cutoff) (id_rows c)) in
  let chain_head := default "" (lr_entry_hash ∘ snd <$> chainHeadRow) in
  require (negb (String.eqb chain_head "")) COMPACTION_VIOLATION ;;;
  foreach ledgerSums check_group ;;;
  foreach ledgerSums (insert_checkpoint cutoff chain_head) ;;;
  let* rows := gets (λ c, up_to cutoff (id_rows c)) in
  modify (add_archive rows) ;;;
  let* archived := gets (λ c, up_to cutoff (archive c)) in
  require (Nat.eqb (length archived) (length rows)) COMPACTION_VIOLATION ;;;
  delete_ledger_rows cutoff ;;;
  let* remainingSums := gets (λ c, ledger_groups (map snd (id_rows c))) in
  foreach ledgerSums (check_replay cutoff remainingSums) ;;;
  ret (length ledgerSums, length rows).

(** Every violation also opens the circuit. *)
Definition runLedgerCompaction (redis_ok : bool) (cutoff : Z) (c : compact_db) (w : worker_state) :
    outcome (nat * nat) * compact_db * worker_state :=
  match transaction (compaction_tx cutoff) c with
  | (Ret n, c') => (Ret n, c', w)
  | (Throw err, c') =>
      (Throw err, c', if String.eqb err COMPACTION_VIOLATION
                      then triggerCircuitIfViolation redis_ok COMPACTION_VIOLATION w else w)
  end.
End Compaction.
