(* ===== verification/Audits.v ===== *)
(** * Settlement audits: what they accept and when they are wrong

    The audits of [AuditModel] against the books that runs of the worker keep
    ([SettlementRuns]). First the sums of the aggregate audit, then the recomputed hashes,
    then the invariant that makes both succeed, the theorems, and compaction. *)
From stdpp Require Import base gmap strings list fin_maps pretty relations.
From Stdlib Require Import ZArith Lia Ascii.
From S2P Require Import Prelude Money Balances Escrow Halt SettlementModel Settlement.
From S2P Require Import SettlementWorker SettlementRuns AuditModel.
Local Open Scope Z_scope.

(** ** Sums per key *)
Definition line_key (l : delta_line) : string := aggKey (dl_user l) (dl_asset l).
Definition key_sum (k : string) (ls : list delta_line) : Z :=
  lsum (λ l, if bool_decide (line_key l = k) then dl_delta l else 0) ls.
Definition weight (ls : list delta_line) : Z := lsum (λ l, Z.abs (dl_delta l)) ls.
Definition on_grid (ls : list delta_line) : Prop := Forall (λ l, (10 ^ 18 | dl_delta l)) ls.

Lemma weight_nonneg ls : 0 ≤ weight ls.
Proof. apply lsum_nonneg. intros. lia. Qed.

Lemma key_sum_app k l1 l2 : key_sum k (l1 ++ l2) = key_sum k l1 + key_sum k l2.
Proof. apply lsum_app. Qed.

Lemma key_sum_bound k ls : Z.abs (key_sum k ls) ≤ weight ls.
Proof.
  induction ls as [|l ls IH]; [done|]. unfold key_sum, weight, lsum in *. simpl. case_bool_decide; lia.
Qed.

Lemma key_sum_grid k ls : on_grid ls → (10 ^ 18 | key_sum k ls).
Proof.
  induction 1 as [|l ls Hl _ IH]; [apply Z.divide_0_r|]. unfold key_sum, lsum in *. simpl.
  case_bool_decide; apply Z.divide_add_r; try done. apply Z.divide_0_r.
Qed.

(** The lines of a ledger. *)
Definition lines_of (l : list ledger_row) : list delta_line := map row_line l.

Section Sums.
Context `{DecimalJs}.

(** Amounts of at most 18 decimals whose total has room below the precision. *)
Definition lines_fit (ls : list delta_line) : Prop := on_grid ls ∧ weight ls < 10 ^ (17 + precision).

Lemma lines_fit_app l1 l2 : lines_fit (l1 ++ l2) → lines_fit l1.
Proof.
  intros [Hg Hw]. apply Forall_app in Hg as [Hg _]. unfold lines_fit, weight in *.
  rewrite lsum_app in Hw. pose proof (weight_nonneg l2). unfold weight in *. split; [done|lia].
Qed.

Lemma expected_sums (ls : list delta_line) (m : gmap string Z) (k : string) :
  on_grid ls → (∀ k, (10 ^ 18 | default 0 (m !! k))) →
  (∀ k, Z.abs (default 0 (m !! k)) + weight ls < 10 ^ (17 + precision)) →
  default 0 (foldl add_expected m ls !! k) = default 0 (m !! k) + key_sum k ls.
Proof.
  intros Hls. revert m. induction Hls as [|l ls Hl Hls IH]; intros m Hm Hb; simpl.
  { unfold key_sum; simpl. lia. }
  assert (∀ k, default 0 (add_expected m l !! k)
    = default 0 (m !! k) + if bool_decide (line_key l = k) then dl_delta l else 0) as Hk.
  { intros k'. unfold add_expected. fold (line_key l). case_bool_decide as E.
    - rewrite E, lookup_insert_eq. simpl. unfold dplus.
      assert (Z.abs (default 0 (m !! k')) + weight (l :: ls) < 10 ^ (17 + precision)) as Hb' by apply Hb.
      unfold weight, lsum in Hb'. simpl in Hb'. fold (lsum (λ l, Z.abs (dl_delta l)) ls) in Hb'.
      fold (weight ls) in Hb'. pose proof (weight_nonneg ls). apply sig_18.
      + apply Z.divide_add_r; [apply Hm|done].
      + lia.
    - rewrite lookup_insert_ne by done. lia. }
  rewrite IH.
  - rewrite Hk. unfold key_sum, lsum. simpl. lia.
  - intros k'. rewrite Hk. apply Z.divide_add_r; [apply Hm|]. case_bool_decide; [done|apply Z.divide_0_r].
  - intros k'. rewrite Hk. specialize (Hb k'). unfold weight, lsum in *. simpl in Hb.
    case_bool_decide; lia.
Qed.

Lemma expected_sums_empty (ls : list delta_line) (k : string) :
  lines_fit ls → default 0 (foldl add_expected ∅ ls !! k) = key_sum k ls.
Proof.
  intros [Hg Hw]. rewrite expected_sums; [by rewrite lookup_empty|done| |].
  - intros k'. rewrite lookup_empty. apply Z.divide_0_r.
  - intros k'. rewrite lookup_empty. simpl. lia.
Qed.
End Sums.

(** ** The groups of the ledger *)
Lemma distinct_pairs_spec (seen : list (string * string)) (l : list ledger_row) :
  NoDup (distinct_pairs seen l) ∧
  ∀ g, g ∈ distinct_pairs seen l ↔ g ∈ map pair_key l ∧ g ∉ seen.
Proof.
  revert seen. induction l as [|r l IH]; intros seen; simpl.
  { split; [constructor|]. set_solver. }
  case_bool_decide as E; destruct (IH (pair_key r :: seen)) as [Hnd Hel], (IH seen) as [Hnd' Hel'].
  - split; [done|]. intros g. rewrite Hel'. set_solver.
  - split; [constructor; [rewrite Hel; set_solver|done]|]. intros g. rewrite elem_of_cons, Hel.
    destruct (decide (g = pair_key r)); set_solver.
Qed.

Section FoldInsert.
Context {A : Type} (f : A → string) (v : A → Z).

Lemma foldl_insert_lookup (l : list A) (m : gmap string Z) (x : A) :
  x ∈ l → (∀ y, y ∈ l → f y = f x → y = x) →
  foldl (λ m y, <[f y := v y]> m) m l !! f x = Some (v x).
Proof.
  induction l as [|y l IH] using rev_ind; [set_solver|]. rewrite foldl_app. simpl. intros Hx Hu.
  destruct (decide (f y = f x)) as [E|E].
  - rewrite (Hu y) by set_solver. by rewrite lookup_insert_eq.
  - rewrite lookup_insert_ne by done. apply IH; set_solver.
Qed.

Lemma foldl_insert_absent (l : list A) (m : gmap string Z) (k : string) :
  (∀ y, y ∈ l → f y ≠ k) → foldl (λ m y, <[f y := v y]> m) m l !! k = m !! k.
Proof.
  induction l as [|y l IH] using rev_ind; [done|]. rewrite foldl_app. simpl. intros Hu.
  rewrite lookup_insert_ne by (apply Hu; set_solver). apply IH. set_solver.
Qed.
End FoldInsert.

(** Two accounts of the ledger have different keys: user ids are canonical. *)
Definition keys_distinct (l : list ledger_row) : Prop := ∀ r r', r ∈ l → r' ∈ l →
  line_key (row_line r) = line_key (row_line r') → pair_key r = pair_key r'.

Lemma group_key_sum (l0 l : list ledger_row) (r : ledger_row) :
  keys_distinct l0 → r ∈ l0 → (∀ x, x ∈ l → x ∈ l0) →
  group_sum (pair_key r) l = key_sum (line_key (row_line r)) (lines_of l).
Proof.
  intros Hd Hr. induction l as [|x l IH]; intros Hin; [done|].
  unfold group_sum, key_sum, lsum in *. simpl. rewrite IH by set_solver. f_equal.
  destruct (decide (pair_key x = pair_key r)) as [E|E].
  - rewrite !bool_decide_eq_true_2; [done| |done]. unfold pair_key in E.
    destruct x, r; simpl in *. by injection E as -> ->.
  - rewrite !bool_decide_eq_false_2; [done| |done]. intros E'. apply E, Hd; [set_solver|done|done].
Qed.

Lemma key_sum_absent k ls : (∀ l, l ∈ ls → line_key l ≠ k) → key_sum k ls = 0.
Proof.
  intros Hk. apply lsum_0. intros i l Hl. rewrite bool_decide_eq_false_2; [done|].
  apply Hk. by apply list_elem_of_lookup_2 in Hl.
Qed.

Lemma actual_sums_lookup (l : list ledger_row) (k : string) :
  keys_distinct l → default 0 (actual_sums l !! k) = key_sum k (lines_of l).
Proof.
  intros Hd. unfold actual_sums, ledger_groups.
  destruct (distinct_pairs_spec [] l) as [_ Hel].
  set (f := λ g : (string * string) * Z, aggKey (fst (fst g)) (snd (fst g))).
  set (gs := map (λ g, (g, group_sum g l)) (distinct_pairs [] l)).
  assert (∀ g, g ∈ gs ↔ ∃ r, r ∈ l ∧ g = (pair_key r, group_sum (pair_key r) l)) as Hgs.
  { intros g. unfold gs. split.
    - intros (p & -> & Hp)%list_elem_of_fmap. apply Hel in Hp as [Hp _].
      apply list_elem_of_fmap in Hp as (r & -> & Hr). eauto.
    - intros (r & Hr & ->). apply list_elem_of_fmap. exists (pair_key r). split; [done|].
      apply Hel. split; [|set_solver]. by apply list_elem_of_fmap_2. }
  destruct (decide (Exists (λ r, line_key (row_line r) = k) l)) as [(r & Hr & <-)%Exists_exists|Hno].
  - change (line_key (row_line r)) with (f (pair_key r, group_sum (pair_key r) l)) at 1.
    rewrite (foldl_insert_lookup f snd gs ∅ (pair_key r, group_sum (pair_key r) l)).
    + simpl. by apply group_key_sum with l.
    + apply Hgs. eauto.
    + intros g (r' & Hr' & ->)%Hgs E. by rewrite (Hd r' r Hr' Hr E).
  - rewrite (foldl_insert_absent f snd gs).
    + rewrite lookup_empty, key_sum_absent; [done|].
      intros x (r & -> & Hr)%list_elem_of_fmap E. apply Hno, Exists_exists. eauto.
    + intros g (r & Hr & ->)%Hgs E. apply Hno, Exists_exists. by exists r.
Qed.

(** The rows of a ledger, event by event. *)
Lemma rows_by_event (f : ledger_row → Z) (ids : list Z) (l : list ledger_row) :
  NoDup ids → (∀ r, r ∈ l → lr_event r ∈ ids) →
  lsum f l = lsum (λ id, lsum f (event_rows id l)) ids.
Proof.
  intros Hnd. induction l as [|r l IH]; intros Hin.
  { symmetry. by apply lsum_0. }
  assert (lsum (λ id, lsum f (event_rows id (r :: l))) ids
    = lsum (λ id, (if decide (id = lr_event r) then f r else 0) + lsum f (event_rows id l)) ids) as ->.
  { clear. induction ids as [|id ids IH]; [done|]. unfold lsum in IH |- *. simpl. rewrite IH. f_equal.
    unfold event_rows. destruct (decide (id = lr_event r)) as [->|Hne].
    - by rewrite filter_cons_True.
    - rewrite filter_cons_False by congruence. lia. }
  assert (∀ g h : Z → Z, lsum (λ id, g id + h id) ids = lsum g ids + lsum h ids) as Hsplit.
  { intros g h. clear. induction ids as [|id ids IH]; [done|]. unfold lsum in *. simpl. lia. }
  rewrite Hsplit, <- IH by set_solver. change (lsum f (r :: l)) with (f r + lsum f l). f_equal.
  assert (lr_event r ∈ ids) as Hr by (apply Hin; set_solver). clear - Hnd Hr.
  induction Hnd as [|id ids Hid Hnd IH]; [set_solver|]. unfold lsum in *. simpl.
  destruct (decide (id = lr_event r)) as [->|Hne].
  - assert (lsum (λ id, if decide (id = lr_event r) then f r else 0) ids = 0) as Hz.
    { apply lsum_0. intros i x Hx. apply list_elem_of_lookup_2 in Hx. by case_decide; subst. }
    unfold lsum in Hz. rewrite Hz. lia.
  - rewrite <- IH by set_solver. done.
Qed.

Lemma key_sum_concat {A} (k : string) (f : A → list delta_line) (l : list A) :
  key_sum k (concat (map f l)) = lsum (λ x, key_sum k (f x)) l.
Proof. induction l as [|x l IH]; [done|]. simpl. rewrite key_sum_app, IH. done. Qed.

(** ** One audit *)
Definition tripped (env : audit_env) (w : worker_state) : Prop :=
  w_halted w = true ∧ (ae_redis_ok env = true → redis_circuit w = setSettlementCircuitOpen true).

Lemma open_circuit_trips env msg w : msg ∈ CIRCUIT_OPEN_ERRORS → tripped env (open_circuit env msg w).
Proof.
  intros Hm. unfold open_circuit, triggerCircuitIfViolation, tripped.
  rewrite bool_decide_eq_true_2 by done. by destruct (ae_redis_ok env).
Qed.

Lemma open_circuit_keeps env msg w : tripped env w → tripped env (open_circuit env msg w).
Proof.
  intros [Hw Hr]. unfold open_circuit, triggerCircuitIfViolation, tripped. case_bool_decide; [|done].
  destruct (ae_redis_ok env); [done|]. by split.
Qed.

Section OneAudit.
Context `{DecimalJs, Runtime}.

Lemma replay_events_ok env reads (f : Z * settlement_event → list delta_line) i evs expected w :
  Forall (λ x, ∀ j, ∃ s,
    replay_event (ae_rebates env) (ev_payload (snd x)) (reads j) = Ret (f x, s)) evs →
  replay_events env reads i evs expected 0 w = (foldl add_expected expected (concat (map f evs)), 0, w).
Proof.
  intros Hevs. revert i expected. induction Hevs as [|[id e] evs Hx _ IH]; intros i expected; [done|].
  destruct (Hx i) as [s Hs]. simpl in Hs |- *. by rewrite Hs, IH, foldl_app.
Qed.

Lemma compare_equal env (expected actual : gmap string Z) keys m c w :
  (∀ k, default 0 (expected !! k) = default 0 (actual !! k)) →
  compare_keys env expected actual keys m c w = (m, c, w).
Proof.
  intros Heq. revert m c. induction keys as [|k keys IH]; intros m c; [done|].
  simpl. by rewrite Heq, Z.eqb_refl.
Qed.

Lemma compare_mono env (expected actual : gmap string Z) keys m c w m' c' w' :
  compare_keys env expected actual keys m c w = (m', c', w') →
  c ≤ c' ∧ (tripped env w → tripped env w').
Proof.
  revert m c w. induction keys as [|k keys IH]; intros m c w Hrun; simpl in Hrun; [by simplify_eq|].
  repeat case_match; apply IH in Hrun as [Hc Ht]; (split; [lia|]); auto using open_circuit_keeps.
Qed.

Lemma compare_trips env (expected actual : gmap string Z) keys k m c w m' c' w' :
  compare_keys env expected actual keys m c w = (m', c', w') → k ∈ keys →
  default 0 (expected !! k) ≠ default 0 (actual !! k) →
  ae_audit_threshold env ≤ Z.abs (dminus (default 0 (expected !! k)) (default 0 (actual !! k))) →
  c < c' ∧ tripped env w'.
Proof.
  intros Hrun Hk Hne Hth. revert m c w Hrun. induction keys as [|k' keys IH]; intros m c w Hrun; [set_solver|].
  simpl in Hrun. apply elem_of_cons in Hk as [<-|Hk].
  - rewrite (proj2 (Z.eqb_neq _ _) Hne), (proj2 (Z.leb_le _ _) Hth) in Hrun.
    apply compare_mono in Hrun as [Hc Ht]. split; [lia|]. apply Ht, open_circuit_trips. set_solver.
  - specialize (IH Hk). repeat case_match; apply IH in Hrun as [??]; (split; [lia|done]).
Qed.

(** The audit when every event it reads replays to the lines [f] gives: what it expects is
    the sum of those lines, and what it finds is the sum of the ledger it reads last. *)
Lemma audit_compares env reads (f : Z * settlement_event → list delta_line) w :
  let evs := processed_events (reads 0%nat) in
  let ls := concat (map f evs) in
  let l := ledger (reads (S (length evs))) in
  Forall (λ x, ∀ j, ∃ s,
    replay_event (ae_rebates env) (ev_payload (snd x)) (reads j) = Ret (f x, s)) evs →
  lines_fit ls → keys_distinct l →
  ∃ expected, (∀ k, default 0 (expected !! k) = key_sum k ls) ∧
  (∀ k, default 0 (actual_sums l !! k) = key_sum k (lines_of l)) ∧
  runGlobalBalanceAudit env reads w =
    let '(m, c, w) := compare_keys env expected (actual_sums l)
                        (elements (dom expected ∪ dom (actual_sums l))) 0 0 w in
    (AuditResult (c =? 0) m, w).
Proof.
  intros evs ls l Hevs Hfit Hd. exists (foldl add_expected ∅ ls). split.
  { intros k. by apply expected_sums_empty. }
  split; [intros k; by apply actual_sums_lookup|].
  unfold runGlobalBalanceAudit. cbv zeta. fold evs. by rewrite (replay_events_ok _ _ f).
Qed.

Lemma in_dom (m : gmap string Z) k : default 0 (m !! k) ≠ 0 → k ∈ dom m.
Proof. intros Hne. apply elem_of_dom. destruct (m !! k); [eauto|done]. Qed.

Lemma audit_accepts env reads (f : Z * settlement_event → list delta_line) w :
  let evs := processed_events (reads 0%nat) in
  let l := ledger (reads (S (length evs))) in
  Forall (λ x, ∀ j, ∃ s,
    replay_event (ae_rebates env) (ev_payload (snd x)) (reads j) = Ret (f x, s)) evs →
  lines_fit (concat (map f evs)) → keys_distinct l →
  (∀ k, key_sum k (concat (map f evs)) = key_sum k (lines_of l)) →
  runGlobalBalanceAudit env reads w = (AuditResult true 0, w).
Proof.
  intros evs l Hevs Hfit Hd Hsum.
  destruct (audit_compares env reads f w Hevs Hfit Hd) as (expected & He & Ha & ->).
  rewrite compare_equal; [done|]. intros k. by rewrite He, Ha, Hsum.
Qed.

Lemma audit_trips env reads (f : Z * settlement_event → list delta_line) w k :
  let evs := processed_events (reads 0%nat) in
  let l := ledger (reads (S (length evs))) in
  Forall (λ x, ∀ j, ∃ s,
    replay_event (ae_rebates env) (ev_payload (snd x)) (reads j) = Ret (f x, s)) evs →
  lines_fit (concat (map f evs)) → lines_fit (lines_of l) → keys_distinct l →
  0 < ae_audit_threshold env →
  ae_audit_threshold env ≤ Z.abs (key_sum k (concat (map f evs)) - key_sum k (lines_of l)) →
  let (r, w') := runGlobalBalanceAudit env reads w in ar_ok r = false ∧ tripped env w'.
Proof.
  intros evs l Hevs Hfit Hfit' Hd Hpos Hth. subst evs l.
  destruct (audit_compares env reads f w Hevs Hfit Hd) as (expected & He & Ha & ->).
  destruct (compare_keys _ _ _ _ _ _ _) as [[m c] w'] eqn:Hc.
  assert (default 0 (expected !! k) ≠ default 0 (actual_sums _ !! k)) as Hne by (rewrite He, Ha; lia).
  eapply (compare_trips _ _ _ _ k) in Hc as [Hlt Ht].
  - split; [|done]. simpl. apply Z.eqb_neq. lia.
  - apply elem_of_elements, elem_of_union. destruct (decide (default 0 (expected !! k) = 0)) as [E|E].
    + right. apply in_dom. congruence.
    + left. by apply in_dom.
  - done.
  - rewrite He, Ha. unfold dminus. destruct Hfit as [Hg Hw], Hfit' as [Hg' Hw'].
    pose proof (key_sum_bound k (concat (map f (processed_events (reads 0%nat))))).
    pose proof (key_sum_bound k (lines_of (ledger (reads (S (length (processed_events (reads 0%nat)))))))).
    rewrite sig_18; [done| |lia]. apply Z.divide_sub_r; by apply key_sum_grid.
Qed.

(** The integrity check accepts books whose balance ledger is complete. *)
Lemma integrity_accepts toFixed env d w :
  ledger_complete (sd_balances d) → runSpotIntegrityCheck toFixed env d w = (AuditResult true 0, w).
Proof.
  intros [_ Hsum]. unfold runSpotIntegrityCheck. cbv zeta.
  assert (∀ rows m c, (∀ x, x ∈ rows → x ∈ trading_rows (sd_balances d)) →
    integrity_rows toFixed env (balance_ledger (sd_balances d)) rows m c w = (m, c, w)) as Hrows.
  { induction rows as [|[k r] rows IH]; intros m c Hin; [done|]. cbn [integrity_rows]. cbv zeta.
    assert ((k, r) ∈ trading_rows (sd_balances d)) as Hk by (apply Hin; set_solver).
    apply list_elem_of_filter in Hk as [[Ha Hc] Hk]. apply elem_of_map_to_list in Hk. simpl in Ha, Hc.
    assert (row_of (trading_key (user_id k) (currency_id k)) (sd_balances d) = r) as Hr.
    { unfold row_of, trading_key. destruct k; simpl in *. subst. by rewrite Hk. }
    rewrite <- (Hsum (user_id k) (currency_id k) Available), <- (Hsum _ _ Locked), Hr by done.
    simpl. rewrite !String.eqb_refl. simpl. apply IH. set_solver. }
  by rewrite Hrows.
Qed.
End OneAudit.

(** ** Recomputed hashes *)
Lemma js_rtrim_idem s : js_rtrim (js_rtrim s) = js_rtrim s.
Proof.
  induction s as [|a s IH]; [done|]. simpl. destruct (js_rtrim s) as [|b t] eqn:E.
  - destruct (js_space a) eqn:Ea; simpl; [done|by rewrite Ea].
  - cbn [js_rtrim] in *. by rewrite IH.
Qed.

Lemma js_rtrim_ltrim s : js_rtrim s = s → js_rtrim (js_ltrim s) = js_ltrim s.
Proof.
  induction s as [|a s IH]; [done|]. intros Hs. simpl. destruct (js_space a); [|done].
  apply IH. simpl in Hs. destruct (js_rtrim s) as [|b t] eqn:E; [|by injection Hs].
  destruct (js_space a); [done|]. by injection Hs as <-.
Qed.

Lemma js_ltrim_idem s : js_ltrim (js_ltrim s) = js_ltrim s.
Proof. induction s as [|a s IH]; [done|]. simpl. destruct (js_space a) eqn:E; [done|]. simpl. by rewrite E. Qed.

Lemma js_trim_idem s : js_trim (js_trim s) = js_trim s.
Proof.
  unfold js_trim. rewrite (js_rtrim_ltrim (js_rtrim s)) by apply js_rtrim_idem. apply js_ltrim_idem.
Qed.

(** The payload of an event as the feed and the stream store it. *)
Definition stored_payload (p : EnginePayload) : Prop :=
  canonical_payload p ∧ p_match_engine_id p ≠ None.
Definition stored_event (e : settlement_event) : Prop :=
  ∃ p, ev_payload e = payload_json p ∧ stored_payload p.

(** The view [markets] and the worker use the same precision for quote amounts. *)
Definition precisions_agree (d : settle_db) : Prop := ∀ s m, markets d !! s = Some m →
  (c ← find (λ c, bool_decide (Some (cr_id c) = m_quote_currency m)) (sd_currencies d); cr_decimals c) = None →
  default 8 (m_price_precision m) = 8.

Section Hashes.
Context `{DecimalJs, Runtime}.

Lemma stored_normal p (d : settle_db) :
  stored_payload p → normalizeSettlementPayload (payload_json p) d = Ret (p, d).
Proof.
  intros [Hp _]. exact (get_or_Some _ "SETTLEMENT_PAYLOAD_MISSING_FIELDS" d _ (payload_of_json p Hp)).
Qed.

Lemma stored_unique p p' : stored_payload p → stored_payload p' → payload_json p = payload_json p' → p = p'.
Proof.
  intros [Hp _] [Hp' _] Heq. pose proof (payload_of_json p Hp) as H1.
  rewrite Heq, (payload_of_json p' Hp') in H1. congruence.
Qed.

Lemma raw_canonical_stored p fields :
  stored_payload p → payload_json p = JObj fields → raw_canonical fields = payload_canonical p.
Proof.
  intros [(Hid & Hts & _) Heng] [= <-].
  destruct p as [ev eng sym pr q to mo tu mu sd ts]; cbn in Hid, Hts, Heng.
  destruct ev as [ev|]; [|done]. destruct ts as [ts|]; [|done]. destruct eng as [g|]; [|done].
  reflexivity.
Qed.

Lemma view_market_resolves s d m :
  precisions_agree d → resolveMarketAssets s d = Ret (m, d) →
  view_market s d = Ret (MarketAssets (base m) (quote m) "" "" (price_precision m) (qty_precision m)
                           (quote_precision m), d).
Proof.
  intros Hagree. unfold resolveMarketAssets, view_market, bind, gets, get_or.
  destruct (markets d !! s) as [mk|] eqn:Hmk; [|done]. simpl. cbv zeta.
  repeat (match goal with |- context [match ?x with Some _ => ret _ | None => throw _ end _] =>
    destruct x; simpl; [|done] end). unfold ret. intros [= <-]. simpl.
  pose proof (Hagree s mk Hmk) as Hd.
  destruct (_ ≫= _) as [dec|]; [done|]. by rewrite Hd.
Qed.

Lemma validator_deltas_worker p m a :
  validator_deltas (taker_user_id p) (maker_user_id p) (String.eqb (side_text (taker_side p)) "buy") m a
  = ledger_deltas p m a false.
Proof. unfold ledger_deltas. by destruct (taker_side p). Qed.

Lemma stored_fields p :
  p_match_engine_id p ≠ None →
  let f k := default "" (json_string (json_field (payload_json p) k)) in
  f "symbol" = symbol p ∧ f "price" = price p ∧ f "qty" = qty p ∧
  f "taker_user_id" = taker_user_id p ∧ f "maker_user_id" = maker_user_id p ∧
  f "taker_side" = side_text (taker_side p).
Proof. destruct p as [ev eng sym pr q to mo tu mu sd ts]. by destruct eng. Qed.

Lemma replay_hash_stored env p m pr q (d : settle_db) :
  stored_payload p → precisions_agree d → resolveMarketAssets (symbol p) d = Ret (m, d) →
  parse_decimal (price p) = Some (Fin pr) → parse_decimal (qty p) = Some (Fin q) →
  makerRebatesEnabled env = false →
  replay_hash (payload_json p) d
  = Ret (settled_hash env p (amounts_of m pr q) (ledger_deltas p m (amounts_of m pr q) false), d).
Proof.
  intros Hp Hagree Hm Hpr Hq Hreb. pose proof Hp as [(Hid & Hts & _) Heng].
  destruct (payload_json p) as [| | | | |fields] eqn:Hj; try done.
  unfold replay_hash. cbv zeta. rewrite (raw_canonical_stored p fields Hp Hj), <- Hj.
  destruct (stored_fields p Heng) as (-> & -> & -> & -> & -> & ->).
  rewrite (bind_Ret _ _ _ _ _ (view_market_resolves _ _ _ Hagree Hm)).
  unfold decimal_of. rewrite (bind_Ret _ _ _ _ _ (get_or_Some _ _ _ _ Hpr)).
  rewrite (bind_Ret _ _ _ _ _ (get_or_Some _ _ _ _ Hq)).
  rewrite validator_deltas_worker. unfold settled_hash, event_hash, maker_fee_recorded. by rewrite Hreb.
Qed.
End Hashes.

(** ** Books the audits accept *)
Section Invariant.
Context `{DecimalJs, Runtime}.
Context (rebates : bool).

(** What settling the event left: the rows its payload replays to, and their hash. *)
Definition settled_as (d : settle_db) (id : Z) (e : settlement_event) (p : EnginePayload) : Prop :=
  ∃ m pr q, resolveMarketAssets (symbol p) d = Ret (m, d) ∧
    parse_decimal (price p) = Some (Fin pr) ∧ parse_decimal (qty p) = Some (Fin q) ∧
    let a := amounts_of m pr q in
    lines_of (event_rows id (ledger d)) = ledger_deltas p m a rebates ∧
    ev_hash e = Some (event_hash p (am_tradeVal a) (am_takerFee a)
                        (if rebates then - am_makerFee a else am_makerFee a)
                        (settle_lines (ledger_deltas p m a rebates))).

Record audit_ok (d : settle_db) : Prop := {
  ao_books : books d;
  ao_stored : ∀ id e, events d !! id = Some e → stored_event e;
  ao_settled : ∀ id e p, events d !! id = Some e → ev_status e = EvProcessed →
    ev_payload e = payload_json p → stored_payload p → settled_as d id e p;
}.

(** Settlement appends to the ledger and leaves the markets alone. *)
Definition later (d d' : settle_db) : Prop :=
  (∃ rows, ledger d' = ledger d ++ rows) ∧ markets d' = markets d ∧ sd_currencies d' = sd_currencies d.

Lemma later_refl d : later d d.
Proof. split; [exists []; by rewrite app_nil_r|done]. Qed.
Lemma later_trans d1 d2 d3 : later d1 d2 → later d2 d3 → later d1 d3.
Proof.
  intros ([r1 E1] & ? & ?) ([r2 E2] & ? & ?). split; [|split; congruence].
  exists (r1 ++ r2). by rewrite E2, E1, app_assoc.
Qed.

Lemma settled_as_ext d d' id e e' p :
  markets d' = markets d → sd_currencies d' = sd_currencies d →
  event_rows id (ledger d') = event_rows id (ledger d) → ev_hash e' = ev_hash e →
  settled_as d id e p → settled_as d' id e' p.
Proof.
  intros Hm Hc Hl Hh (m & pr & q & Hr & Hpr & Hq & Hls & He). exists m, pr, q.
  rewrite Hl, Hh. split; [|done]. by apply (resolve_same_tables _ d).
Qed.

(** Steps that settle nothing. *)
Lemma audit_transfer d d' :
  audit_ok d → books d' → ledger d' = ledger d → markets d' = markets d →
  sd_currencies d' = sd_currencies d →
  (∀ id e', events d' !! id = Some e' → stored_event e' ∧ (ev_status e' = EvProcessed →
     ∃ e, events d !! id = Some e ∧ ev_status e = EvProcessed ∧ ev_payload e' = ev_payload e ∧
       ev_hash e' = ev_hash e)) →
  audit_ok d' ∧ later d d'.
Proof.
  intros [_ _ Hs] Hb Hl Hm Hc Hev. split; [split; [done| |]|].
  - intros id e' He. by apply (Hev id e').
  - intros id e' p He Hst Hpay Hp. destruct (proj2 (Hev id e' He) Hst) as (e & He0 & Hst0 & Hpay0 & Hh).
    apply (settled_as_ext d d' id e); try done; [by rewrite Hl|]. apply Hs; try done. congruence.
  - split; [exists []; by rewrite app_nil_r|done].
Qed.

Lemma audit_unsettled d d' id f e :
  audit_ok d → books d' → events d !! id = Some e → ev_status e = EvPending →
  ev_payload (f e) = ev_payload e → ev_status (f e) ≠ EvProcessed →
  ledger d' = ledger d → markets d' = markets d → sd_currencies d' = sd_currencies d →
  events d' = alter f id (events d) → audit_ok d' ∧ later d d'.
Proof.
  intros Ha Hb He Hpend Hpay Hst Hl Hm Hc Hev. apply audit_transfer; try done.
  intros i e'. rewrite Hev. destruct (decide (i = id)) as [->|Hne].
  - rewrite lookup_alter_eq, He. intros [= <-]. split; [|done].
    destruct (ao_stored _ Ha id e He) as (p & Hp & ?). exists p. by rewrite Hpay.
  - rewrite lookup_alter_ne by done. intros Hi. split; [by apply (ao_stored _ Ha i)|eauto].
Qed.

Lemma lines_of_chain prev id ls : lines_of (chain_entries prev id ls) = ls.
Proof. revert prev. induction ls as [|[u x y] ls IH]; intros prev; [done|]. simpl. by rewrite IH. Qed.

Lemma audit_settle env row m a d d' e :
  makerRebatesEnabled env = rebates → events d !! row_id row = Some e → ev_status e = EvPending →
  ev_payload e = payload_json (row_payload row) → stored_payload (row_payload row) →
  resolveMarketAssets (symbol (row_payload row)) d = Ret (m, d) →
  settlement_amounts (row_payload row) m d = Ret (a, d) → settles env row m a d d' →
  audit_ok d → audit_ok d' ∧ later d d'.
Proof.
  intros Hreb He Hpend Hpay Hp Hm Ha Hs Hok.
  pose proof (books_settle _ _ _ _ _ _ _ He Hpend Hs (ao_books _ Hok)) as Hb.
  assert (event_rows (row_id row) (ledger d) = []) as Hfresh.
  { destruct (event_rows (row_id row) (ledger d)) eqn:E; [done|].
    destruct (proj1 (bk_rows _ (ao_books _ Hok) (row_id row))) as (e' & He' & Hst); [by rewrite E|]. congruence. }
  pose proof (settled_rows _ _ _ _ _ _ Hfresh Hs) as Hrows. rewrite Hreb in Hrows.
  destruct Hs as (_ & _ & _ & _ & d1 & Hmv & Hrt).
  apply record_trade_inv in Hrt as (_ & Hl & _ & _ & Hev & Hmk & Hcu & _).
  apply move_funds_inv in Hmv as (b0 & b1 & _ & _ & _ & _ & _ & Hl1 & _ & Hev1 & _ & Hmk1 & Hcu1 & _).
  rewrite Hl1 in Hl. rewrite Hmk1 in Hmk. rewrite Hcu1 in Hcu. rewrite Hev1 in Hev. rewrite Hreb in Hev.
  apply settlement_amounts_inv in Ha as (_ & pr & q & Hpr & Hq & _ & ->).
  split; [split; [done| |]|split; [eexists; exact Hl|done]].
  - intros i e'. rewrite Hev. destruct (decide (i = row_id row)) as [->|Hne].
    + rewrite lookup_alter_eq, He. intros [= <-]. exact (ao_stored _ Hok (row_id row) e He).
    + rewrite lookup_alter_ne by done. apply (ao_stored _ Hok).
  - intros i e' p. rewrite Hev. destruct (decide (i = row_id row)) as [->|Hne].
    + rewrite lookup_alter_eq, He. intros [= <-] _ Hpj Hp'. simpl in Hpj. rewrite Hpay in Hpj.
      apply stored_unique in Hpj as <-; [|done|done].
      exists m, pr, q. split; [by apply (resolve_same_tables _ d)|]. split; [done|]. split; [done|].
      cbv zeta. rewrite Hrows, lines_of_chain. split; [done|]. simpl. unfold settled_hash, maker_fee_recorded.
      by rewrite Hreb.
    + rewrite lookup_alter_ne by done. intros He' Hst Hpj Hp'.
      apply (settled_as_ext d d' i e'); try done; [|by apply (ao_settled _ Hok)].
      rewrite Hl. apply other_rows with (row_id row); [apply chain_event|congruence].
Qed.

Lemma audit_process env row n d d' e :
  makerRebatesEnabled env = rebates → events d !! row_id row = Some e → ev_status e = EvPending →
  ev_payload e = payload_json (row_payload row) → stored_payload (row_payload row) →
  processSettlementEventRow env row d = Ret (n, d') → audit_ok d → audit_ok d' ∧ later d d'.
Proof.
  intros Hreb He Hpend Hpay Hp Hrun Hok.
  apply process_inv in Hrun as [(Hne & _)|(_ & m & a & Hm & Ha & _ & Hs)].
  - apply (bk_rows _ (ao_books _ Hok)) in Hne as (e' & He' & Hst). congruence.
  - by apply (audit_settle env row m a d d' e).
Qed.
End Invariant.

(** ** Runs of the worker *)
Section Runs.
Context `{DecimalJs, Runtime}.
Context (rebates : bool).

Definition same_setting (t : tick_env) : Prop := makerRebatesEnabled (te_settle t) = rebates.

(** A message whose timestamp is a number and whose price is not negative, as the engine
    sends it. *)
Definition priced (text : string) : Prop := ∀ x, parse_decimal text = Some (Fin x) → 0 ≤ x.
Definition engine_message (text : string) : Prop :=
  ∀ raw, JSON_parse text = Some raw →
    js_number (json_field raw "timestamp") ≠ None ∧ priced (text_or (json_field raw "price") "").

(** The steps of [sys_step], with the maker rebates never toggled. *)
Inductive audited_step : worker_state → worker_state → Prop :=
  | as_tick limit t io w : (∀ n, same_setting (io n)) → audited_step w (runOnce limit t io w)
  | as_message t newId text w : same_setting t → engine_message text →
      audited_step w (snd (handleSettlementJsMessage t newId text w))
  | as_operator halt circuit w :
      audited_step w (WorkerState (w_db w) (w_halted w) halt circuit (w_notified w) (w_stream_dlq w))
  | as_replay picked w : audited_step w (on_db (replay_failed picked) w)
  | as_restart w : audited_step w (set_halted false w).

Lemma audited_sys w w' : audited_step w w' → sys_step w w'.
Proof. destruct 1; constructor. Qed.

Definition keeps_audit (d d' : settle_db) : Prop := audit_ok rebates d → audit_ok rebates d' ∧ later d d'.

Lemma keeps_audit_refl d : keeps_audit d d.
Proof. intros Hd. split; [done|apply later_refl]. Qed.
Lemma keeps_audit_trans d1 d2 d3 : keeps_audit d1 d2 → keeps_audit d2 d3 → keeps_audit d1 d3.
Proof. intros H1 H2 Hd. destruct (H1 Hd) as [Hd2 ?], (H2 Hd2). eauto using later_trans. Qed.

Lemma dlq_tables ok id ev eng p err d :
  let d' := appendSettlementDlq ok id ev eng p err d in
  events d' = events d ∧ ledger d' = ledger d ∧ markets d' = markets d ∧ sd_currencies d' = sd_currencies d.
Proof. unfold appendSettlementDlq. by destruct (dlq_payload_json p), ok. Qed.

(** A pending event that is changed without being settled, perhaps with a dead letter. *)
Lemma audit_failed id f e d d' :
  events d !! id = Some e → ev_status e = EvPending → ev_payload (f e) = ev_payload e →
  ev_status (f e) ≠ EvProcessed → books d' →
  (d' = alter_event id f d ∨
   ∃ ok i ev eng p err, d' = appendSettlementDlq ok i ev eng p err (alter_event id f d)) →
  keeps_audit d d'.
Proof.
  intros He Hp Hpay Hst Hb Hd' Hd.
  assert (events d' = events (alter_event id f d) ∧ ledger d' = ledger d ∧ markets d' = markets d ∧
    sd_currencies d' = sd_currencies d) as (? & ? & ? & ?).
  { destruct Hd' as [->|(ok & i & ev & eng & p & err & ->)]; [done|].
    exact (dlq_tables ok i ev eng p err (alter_event id f d)). }
  by apply (audit_unsettled rebates d d' id f e).
Qed.

Lemma tick_keeps_audit t w o w' :
  same_setting t → processOneEvent t w = (o, w') → keeps_audit (w_db w) (w_db w').
Proof.
  intros Hset Hrun Hok. pose proof (processOneEvent_books _ _ _ _ Hrun (ao_books _ _ Hok)) as Hb.
  apply processOneEvent_cases in Hrun as [(_ & -> & _)|(id & e & Hc & Hcase)].
  { by apply keeps_audit_refl. }
  apply claim_inv in Hc as (He & Hpend & Hlt & _).
  destruct (ao_stored _ _ Hok id e He) as (p0 & Hpay & Hp0).
  destruct Hcase as [msg Hn _|msg _ _|p n d' Hn Hrun|p msg o w' Hn Hrun Hrec].
  - eapply (audit_failed id (event_failed (Some (js_slice 1000 msg))) e (w_db w)); try done.
    right. by repeat eexists.
  - by apply keeps_audit_refl.
  - rewrite Hpay, stored_normal in Hn by done. injection Hn as <-.
    by apply (audit_process rebates (te_settle t) (claimed_row id e p0) n _ _ e).
  - apply (record_failure_db _ _ _ _ e) in Hrec; [|done]. revert Hok. fold (keeps_audit (w_db w) (w_db w')).
    remember (w_db w') as d' eqn:Hd' in Hrec. rewrite <- Hd' in Hb |- *.
    destruct Hrec as [| | | |]; unfold row_dlq in *; cbn [row_id claimed_row] in *.
    + apply keeps_audit_refl.
    + eapply (audit_failed id (event_failed (Some (js_slice 1000 msg))) e (w_db w)); try done.
      right. by repeat eexists.
    + eapply (audit_failed id (event_retried (js_slice 1000 msg)) e (w_db w)); try done; [simpl; congruence|].
      by left.
    + eapply (audit_failed id (event_retried (js_slice 1000 msg)) e (w_db w)); try done; [simpl; congruence|].
      by left.
    + eapply (audit_failed id (event_failed None ∘ event_retried (js_slice 1000 msg)) e (w_db w)); try done.
      right. by repeat eexists.
Qed.

(** Events that an operator makes pending again. *)
Lemma reopened_keeps_audit picked d : keeps_audit d (replay_failed picked d).
Proof.
  intros Hd. apply audit_transfer; try done; [by apply books_reopened, Hd|].
  intros id e'. rewrite reopened_lookup. intros He. apply fmap_Some in He as (e & He & ->).
  destruct (ao_stored _ _ Hd id e He) as (p & Hpay & Hp).
  case_bool_decide; simpl; (split; [by exists p|]); [done|]. intros Hst. by exists e.
Qed.

(** What the stream stores of a message. *)
Lemma message_payload raw ev p (d d' : settle_db) :
  js_number (json_field raw "timestamp") ≠ None →
  normalizeSettlementPayload (stream_payload raw (stream_engine raw) ev) d = Ret (p, d') →
  stored_payload (with_engine p (stream_engine raw)).
Proof.
  intros Hts Hn. assert (event_id p ≠ None ∧ timestamp p ≠ None) as [Hid Ht].
  { unfold normalizeSettlementPayload, stream_payload in Hn. run_all Hn.
    match goal with E : payload_of_object _ = Some _ |- _ => unfold payload_of_object in E;
      repeat (apply bind_Some in E as (? & _ & E)); injection E as <- end.
    split; [done|exact Hts]. }
  assert (js_trim (stream_engine raw) = stream_engine raw ∧ stream_engine raw ≠ "") as [Htrim Hne].
  { unfold stream_engine. cbv zeta. destruct (String.eqb_spec
      (js_trim match nullish (json_field raw "engine_id") with
               | Some x => js_string x | None => text_or (json_field raw "match_engine_id") "default" end) "")
      as [E|E]; [done|]. split; [apply js_trim_idem|done]. }
  split; [|done]. split; [done|]. split; [done|]. simpl. intros eng [= <-]. done.
Qed.
Lemma insert_keeps_audit newId engine ev p (d d' : settle_db) id :
  stored_payload p → insert_event newId engine ev (payload_json p) d = Ret (id, d') →
  keeps_audit d d'.
Proof.
  intros Hp Hins Hd. pose proof (insert_event_books _ _ _ _ _ _ _ Hins (ao_books _ _ Hd)) as Hb.
  apply insert_event_inv in Hins as [(e & -> & _)|(_ & _ & Hnone & ->)]; [by apply keeps_audit_refl|].
  apply audit_transfer; try done. intros i e. simpl. rewrite lookup_insert_Some.
  intros [[_ <-]|[_ He]]; simpl.
  - split; [|done]. by exists p.
  - split; [by apply (ao_stored _ _ Hd i)|eauto].
Qed.

Lemma ingest_keeps_audit env newId raw (d d' : settle_db) o :
  makerRebatesEnabled env = rebates → js_number (json_field raw "timestamp") ≠ None →
  ingestAndSettleMatchEventFromJetStream env newId raw d = (o, d') → keeps_audit d d'.
Proof.
  unfold ingestAndSettleMatchEventFromJetStream. intros Hreb Hts Hrun. destruct o as [o|msg].
  2: { apply transaction_Throw in Hrun as [_ ->]. apply keeps_audit_refl. }
  apply transaction_Ret, ingest_body_inv in Hrun as (ev & p & id & e & d1 & _ & _ & Hn & _ & Hins & He & Hcase).
  apply message_payload in Hn; [|done].
  apply keeps_audit_trans with d1; [by apply (insert_keeps_audit _ _ _ _ _ _ _ Hn Hins)|].
  destruct Hcase as [(_ & _ & ->)|(Hp & pl & n & _ & Hpl & Hrun)]; [apply keeps_audit_refl|].
  intros Hok. destruct (ao_stored _ _ Hok id e He) as (p0 & Hpay & Hp0).
  rewrite Hpay, stored_normal in Hpl by done. injection Hpl as <-.
  eapply audit_process; [done| | | | |exact Hrun|done]; simpl; done.
Qed.

Lemma step_keeps_audit w w' : audited_step w w' → keeps_audit (w_db w) (w_db w').
Proof.
  destruct 1 as [limit t io w Hset|t newId text w Hset Hdated| |picked w|]; try apply keeps_audit_refl;
    [| |apply reopened_keeps_audit].
  - assert (keeps_audit (w_db w) (w_db (drain limit io (clear_stale_halt t w)))) as Hdrain.
    { rewrite <- (clear_stale_db t w). generalize (clear_stale_halt t w). clear w.
      induction limit as [|n IH]; intros w; simpl; [apply keeps_audit_refl|].
      destruct (processOneEvent (io n) w) as [o w'] eqn:E. apply tick_keeps_audit in E; [|done].
      destruct o as [[]|]; [|done..]. by apply keeps_audit_trans with (w_db w'). }
    unfold runOnce. cbv zeta. pose proof (keeps_audit_refl (w_db w)) as Hrefl.
    destruct (w_halted (clear_stale_halt t w)), (global_halt t w), (circuit_open t w);
      rewrite ?clear_stale_db; done.
  - destruct (message_db t newId text w) as [->|(raw & Hraw & ->)]; [apply keeps_audit_refl|].
    destruct (ingestAndSettleMatchEventFromJetStream _ _ _ _) as [o d'] eqn:E.
    apply ingest_keeps_audit in E; [done|done|by apply (Hdated raw)].
Qed.

Lemma runs_keep_audit w w' : rtc audited_step w w' → keeps_audit (w_db w) (w_db w').
Proof.
  induction 1 as [w|w1 w2 w3 Hstep _ IH]; [apply keeps_audit_refl|].
  apply step_keeps_audit in Hstep. by apply keeps_audit_trans with (w_db w2).
Qed.
End Runs.

(** ** The balance ledger over a run *)
Section Exact.
Context `{DecimalJs, Runtime}.

(** The balance ledger is complete, and the arithmetic of every settlement has room: the
    balances are of at most 18 decimals, and all that is owned of a currency fits a decimal.
    Ids are UUIDs, markets have two currencies of at most 18 decimals, and the prices of the
    events are not negative. *)
Record exact_ok (d : settle_db) : Prop := {
  xo_ledger : ledger_complete (sd_balances d);
  xo_grid : ∀ k, (10 ^ 18 | available_balance (row_of k (sd_balances d)))
               ∧ (10 ^ 18 | locked_balance (row_of k (sd_balances d)));
  xo_room : ∀ c, funds c (sd_balances d) < 10 ^ (17 + precision);
  xo_users : users_uuid d;
  xo_markets : ∀ s m, resolveMarketAssets s d = Ret (m, d) → market_ok m;
  xo_prices : ∀ id e p, events d !! id = Some e → ev_payload e = payload_json p → stored_payload p →
    priced (price p);
}.

Lemma worth_le_funds b k :
  balances_wf b → worth (row_of k b) ≤ funds (currency_id k) b.
Proof.
  intros Hwf. unfold funds. set (f := λ k' r, if String.eqb (currency_id k') (currency_id k) then worth r else 0).
  assert (∀ k' r, user_balances b !! k' = Some r → 0 ≤ f k' r) as Hpos.
  { intros k' r Hk. apply Hwf, row_nonneg_true in Hk as (?&?&?&?). unfold f, worth. case_match; lia. }
  unfold row_of. destruct (user_balances b !! k) as [r|] eqn:Hk; simpl.
  - rewrite (msum_lookup f _ k r Hk). unfold f at 1. rewrite String.eqb_refl.
    assert (0 ≤ msum f (delete k (user_balances b))); [|lia].
    apply msum_nonneg. intros k' r' Hk'. apply lookup_delete_Some in Hk' as [_ Hk']. by apply Hpos.
  - by apply msum_nonneg.
Qed.
Lemma exact_fits d : balances_wf (sd_balances d) → exact_ok d → fits (sd_balances d).
Proof.
  intros Hwf Hd k. pose proof (worth_le_funds (sd_balances d) k Hwf) as Hle.
  pose proof (xo_room _ Hd (currency_id k)) as Hroom. destruct (xo_grid _ Hd k) as [Hga Hgl].
  pose proof (wf_row_of _ k Hwf) as Hn. apply row_nonneg_true in Hn as (?&?&?&?). unfold worth in Hle.
  split; (split; [done|lia]).
Qed.

(** What a trade without rebates moves is of at most 18 decimals, and no currency gains. *)
Lemma trade_moves_grid p m a x :
  market_ok m → amounts_ok m a → x ∈ trade_moves false p m a →
  (10 ^ 18 | mv_available x) ∧ (10 ^ 18 | mv_locked x).
Proof.
  intros Hm [[_ Hq] [_ Hv] [_ Ht] [_ Hk]].
  assert (∀ x, (ulp (quote_precision m) | x) → (10 ^ 18 | x)) as H18 by (intros y; apply ulp_18, Hm).
  apply H18 in Hv, Ht, Hk. unfold trade_moves. intros Hx.
  destruct (taker_side p); set_unfold in Hx; destruct_or!; subst x; simpl; (split; col_divide; done).
Qed.
Lemma trade_moves_lose p m a c :
  market_ok m → amounts_ok m a → lsum (in_currency c) (trade_moves false p m a) ≤ 0.
Proof.
  intros [_ Hc _ _] [_ [Hv _] [Ht _] [Hk _]]. unfold trade_moves, in_currency, lsum, foldr.
  destruct (taker_side p); simpl;
    destruct (String.eqb_spec (base_currency_id m) c), (String.eqb_spec (quote_currency_id m) c);
    try congruence; lia.
Qed.
Lemma lsum_grid {A} (f : A → Z) l : (∀ x, x ∈ l → (10 ^ 18 | f x)) → (10 ^ 18 | lsum f l).
Proof.
  induction l as [|x l IH]; intros Hl; [apply Z.divide_0_r|].
  change (lsum f (x :: l)) with (f x + lsum f l).
  apply Z.divide_add_r; [apply Hl; left|apply IH; intros y Hy; apply Hl; by right].
Qed.
Lemma moves_keep_exact p m a b b' :
  market_ok m → amounts_ok m a → moves_made (trade_moves false p m a) b b' →
  (∀ k, (10 ^ 18 | available_balance (row_of k b)) ∧ (10 ^ 18 | locked_balance (row_of k b))) →
  (∀ c, funds c b < 10 ^ (17 + precision)) → ledger_complete b →
  ledger_complete b' ∧
  (∀ k, (10 ^ 18 | available_balance (row_of k b')) ∧ (10 ^ 18 | locked_balance (row_of k b'))) ∧
  (∀ c, funds c b' < 10 ^ (17 + precision)).
Proof.
  intros Hm Ha [Hr Hf Hl] Hgrid Hroom Hled. split; [auto|]. split.
  - intros k. rewrite Hr. unfold moved, add_buckets. cbn [available_balance locked_balance].
    destruct (Hgrid k) as [? ?].
    split; (apply Z.divide_add_r; [done|]; apply lsum_grid; intros x Hx; unfold at_key; case_decide;
      [|apply Z.divide_0_r]; by apply (trade_moves_grid p m a x)).
  - intros c. rewrite Hf. pose proof (trade_moves_lose p m a c Hm Ha). specialize (Hroom c). lia.
Qed.

(** What a step that settles nothing leaves. *)
Lemma exact_same d d' :
  exact_ok d → sd_balances d' = sd_balances d → sd_users d' = sd_users d → markets d' = markets d →
  sd_currencies d' = sd_currencies d →
  (∀ id e p, events d' !! id = Some e → ev_payload e = payload_json p → stored_payload p →
     priced (price p) ∨ ∃ id0 e0, events d !! id0 = Some e0 ∧ ev_payload e0 = ev_payload e) →
  exact_ok d'.
Proof.
  intros [Hl Hg Hro Hu Hm Hp] Hb Hus Hmk Hcu Hev. split; rewrite ?Hb; try done.
  - unfold users_uuid. by rewrite Hus.
  - intros s m Hr. apply (Hm s m). by apply (resolve_same_tables s d').
  - intros id e p He Hpay Hst. destruct (Hev id e p He Hpay Hst) as [?|(id0 & e0 & He0 & Hpe)]; [done|].
    apply (Hp id0 e0 p); [done|congruence|done].
Qed.
Lemma exact_alter id f d d' :
  exact_ok d → (∀ e, ev_payload (f e) = ev_payload e) → sd_balances d' = sd_balances d →
  sd_users d' = sd_users d → markets d' = markets d → sd_currencies d' = sd_currencies d →
  events d' = alter f id (events d) → exact_ok d'.
Proof.
  intros Hd Hf Hb Hu Hm Hc Hev. apply (exact_same d); try done. intros i e p. rewrite Hev. intros He _ _. right.
  destruct (decide (i = id)) as [->|Hne].
  - rewrite lookup_alter_eq in He. apply fmap_Some in He as (e0 & He0 & ->). exists id, e0. by rewrite Hf.
  - rewrite lookup_alter_ne in He by done. by exists i, e.
Qed.

Lemma exact_process env row n d d' e :
  makerRebatesEnabled env = false → audit_ok false d → exact_ok d →
  events d !! row_id row = Some e → ev_status e = EvPending →
  ev_payload e = payload_json (row_payload row) → stored_payload (row_payload row) →
  processSettlementEventRow env row d = Ret (n, d') → exact_ok d'.
Proof.
  intros Hreb Hok Hd He Hpend Hpay Hst Hrun. pose proof Hrun as Hrun'.
  apply process_inv in Hrun' as [(Hne & _)|(Hfresh & m & a & Hm & Ha & -> & Hs)].
  { apply (bk_rows _ (ao_books _ _ Hok)) in Hne as (e' & He' & Hs'). congruence. }
  assert (settle_input row d m a) as Hi.
  { split; try done.
    - by apply (xo_markets _ Hd (symbol (row_payload row))).
    - exact (xo_prices _ Hd (row_id row) e (row_payload row) He Hpay Hst).
    - apply Hd.
    - apply exact_fits; [apply (bk_wf _ (ao_books _ _ Hok))|done]. }
  pose proof (settle_input_amounts _ _ _ _ Hi) as Hao.
  destruct (settled_inv _ _ _ _ _ _ _ Hi Hrun) as (_ & _ & _ & Hmoves & _ & _ & Hev). rewrite Hreb in Hmoves.
  destruct (moves_keep_exact _ _ _ _ _ (si_market_ok _ _ _ _ Hi) Hao Hmoves (xo_grid _ Hd) (xo_room _ Hd) (xo_ledger _ Hd))
    as (Hl & Hg & Hro).
  destruct Hs as (_ & _ & _ & _ & d1 & Hmv & Hrt).
  apply record_trade_inv in Hrt as (_ & _ & _ & _ & _ & Hmk & Hcu & Hus & _).
  apply move_funds_inv in Hmv as (_ & _ & _ & _ & _ & _ & _ & _ & _ & _ & _ & Hmk1 & Hcu1 & Hus1 & _).
  split; try done.
  - unfold users_uuid. rewrite Hus, Hus1. apply Hd.
  - intros s m' Hr. apply (xo_markets _ Hd s). apply (resolve_same_tables s d'); congruence.
  - intros i e' p. rewrite Hev. intros He' Hpay' Hst'. destruct (decide (i = row_id row)) as [->|Hne].
    + rewrite lookup_alter_eq, He in He'. injection He' as <-. by apply (xo_prices _ Hd (row_id row) e p).
    + rewrite lookup_alter_ne in He' by done. by apply (xo_prices _ Hd i e' p).
Qed.

Definition keeps_exact (d d' : settle_db) : Prop := audit_ok false d → exact_ok d → exact_ok d'.
Lemma keeps_exact_trans d1 d2 d3 :
  keeps_audit false d1 d2 → keeps_exact d1 d2 → keeps_exact d2 d3 → keeps_exact d1 d3.
Proof. intros Ha H1 H2 Hok Hd. apply H2; [by apply Ha|by apply H1]. Qed.

Lemma exact_dlq ok id ev eng p err i f d :
  (∀ e, ev_payload (f e) = ev_payload e) → exact_ok d →
  exact_ok (appendSettlementDlq ok id ev eng p err (alter_event i f d)).
Proof.
  intros Hf Hd. apply (exact_alter i f d); unfold appendSettlementDlq; destruct (dlq_payload_json p), ok; done.
Qed.

Lemma tick_keeps_exact t w o w' :
  same_setting false t → processOneEvent t w = (o, w') → keeps_exact (w_db w) (w_db w').
Proof.
  intros Hset Hrun Hok Hd.
  apply processOneEvent_cases in Hrun as [(_ & -> & _)|(id & e & Hc & Hcase)]; [done|].
  apply claim_inv in Hc as (He & Hpend & Hlt & _).
  destruct (ao_stored _ _ Hok id e He) as (p0 & Hpay & Hp0).
  destruct Hcase as [msg Hn _|msg _ _|p n d' Hn Hrun|p msg o w' Hn Hrun Hrec].
  - by apply exact_dlq.
  - done.
  - rewrite Hpay, stored_normal in Hn by done. injection Hn as <-.
    by apply (exact_process (te_settle t) (claimed_row id e p0) n (w_db w) d' e).
  - apply (record_failure_db _ _ _ _ e) in Hrec; [|done].
    destruct Hrec; unfold row_dlq; [done|by apply exact_dlq| | |by apply exact_dlq];
      by apply (exact_alter id (event_retried (js_slice 1000 msg)) (w_db w)).
Qed.

Lemma message_price raw ev p (d d' : settle_db) :
  normalizeSettlementPayload (stream_payload raw (stream_engine raw) ev) d = Ret (p, d') →
  price p = text_or (json_field raw "price") "".
Proof.
  unfold normalizeSettlementPayload, stream_payload. intros Hn. run_all Hn.
  match goal with E : payload_of_object _ = Some _ |- _ => unfold payload_of_object in E;
    repeat (apply bind_Some in E as (? & ? & E)); injection E as <- end.
  simpl. match goal with Hp : json_string (json_field _ "price") = Some ?x |- ?x = _ => by injection Hp end.
Qed.
Lemma ingest_keeps_exact env newId raw (d d' : settle_db) o :
  makerRebatesEnabled env = false → js_number (json_field raw "timestamp") ≠ None →
  priced (text_or (json_field raw "price") "") →
  ingestAndSettleMatchEventFromJetStream env newId raw d = (o, d') → keeps_exact d d'.
Proof.
  unfold ingestAndSettleMatchEventFromJetStream. intros Hreb Hts Hpr Hrun. destruct o as [o|msg].
  2: { apply transaction_Throw in Hrun as [_ ->]. by intros ? ?. }
  apply transaction_Ret, ingest_body_inv in Hrun as (ev & p & id & e & d1 & _ & _ & Hn & _ & Hins & He & Hcase).
  pose proof (message_price _ _ _ _ _ Hn) as Hp. apply message_payload in Hn; [|done].
  apply keeps_exact_trans with d1; [by apply (insert_keeps_audit false _ _ _ _ _ _ _ Hn Hins)| |].
  - intros _ Hd. apply insert_event_inv in Hins as [(e' & -> & _)|(_ & _ & Hnone & ->)]; [done|].
    apply (exact_same d); try done. intros i e0 p0. simpl. rewrite lookup_insert_Some.
    intros [[_ <-]|[_ He0]] Hpay Hst; [left|right; by exists i, e0]. simpl in Hpay.
    apply stored_unique in Hpay as <-; [|done|done]. simpl. by rewrite Hp.
  - destruct Hcase as [(_ & _ & ->)|(Hpe & pl & n & _ & Hpl & Hrun)]; [by intros ? ?|].
    intros Hok Hd. destruct (ao_stored _ _ Hok id e He) as (p0 & Hpay & Hp0).
    rewrite Hpay, stored_normal in Hpl by done. injection Hpl as <-.
    by eapply exact_process; [done|done|done|..|exact Hrun].
Qed.

Lemma step_keeps_exact w w' : audited_step false w w' → keeps_exact (w_db w) (w_db w').
Proof.
  destruct 1 as [limit t io w Hset|t newId text w Hset Hmsg| |picked w|]; try by intros ? ?.
  - assert (keeps_exact (w_db w) (w_db (drain limit io (clear_stale_halt t w)))) as Hdrain.
    { rewrite <- (clear_stale_db t w). generalize (clear_stale_halt t w). clear w.
      induction limit as [|n IH]; intros w; simpl; [by intros ? ?|].
      destruct (processOneEvent (io n) w) as [o w'] eqn:E.
      pose proof (tick_keeps_audit false _ _ _ _ (Hset n) E) as Ha. apply tick_keeps_exact in E; [|done].
      destruct o as [[]|]; [|done..]. by apply keeps_exact_trans with (w_db w'). }
    unfold runOnce. cbv zeta.
    destruct (w_halted (clear_stale_halt t w)), (global_halt t w), (circuit_open t w);
      rewrite ?clear_stale_db; first [done|by intros ? ?].
  - destruct (message_db t newId text w) as [->|(raw & Hraw & ->)]; [by intros ? ?|].
    destruct (ingestAndSettleMatchEventFromJetStream _ _ _ _) as [o d'] eqn:E.
    destruct (Hmsg raw Hraw). by apply ingest_keeps_exact in E.
  - intros Hok Hd. apply (exact_same (w_db w)); try done. intros i e p. simpl w_db. rewrite reopened_lookup.
    intros He _ _. right. apply fmap_Some in He as (e0 & He & ->). exists i, e0. split; [done|]. by case_bool_decide.
Qed.
Lemma runs_keep_exact w w' : rtc (audited_step false) w w' → keeps_exact (w_db w) (w_db w').
Proof.
  induction 1 as [w|w1 w2 w3 Hstep _ IH]; [by intros ? ?|].
  apply keeps_exact_trans with (w_db w2); [by apply step_keeps_audit|by apply step_keeps_exact|done].
Qed.
End Exact.

(** ** The audits on books that are in order *)
Definition quiet (d : settle_db) : tier1_reads := Tier1Reads d (λ _, d) d (λ _, d).
Definition passed : audit_result := AuditResult true 0.

Lemma processed_elem d id e :
  (id, e) ∈ processed_events d ↔ events d !! id = Some e ∧ ev_status e = EvProcessed.
Proof.
  unfold processed_events. rewrite sort_by_elem, list_elem_of_filter, elem_of_map_to_list. naive_solver.
Qed.

Lemma processed_ids d : NoDup (map fst (processed_events d)).
Proof.
  apply NoDup_fmap_fst.
  - intros id e e' He He'. apply processed_elem in He as [He _], He' as [He' _]. congruence.
  - unfold processed_events. rewrite sort_by_Permutation. apply NoDup_filter, NoDup_map_to_list.
Qed.

Section Accepted.
Context `{DecimalJs, Runtime}.
Context (rebates : bool).

Definition event_lines (d : settle_db) (x : Z * settlement_event) : list delta_line :=
  lines_of (event_rows (fst x) (ledger d)).

Lemma ledger_of_events d (f : delta_line → Z) :
  audit_ok rebates d →
  lsum f (lines_of (ledger d)) = lsum f (concat (map (event_lines d) (processed_events d))).
Proof.
  intros Hd. assert (∀ l, lsum f (lines_of l) = lsum (f ∘ row_line) l) as Hl.
  { induction l as [|r l IH]; [done|]. unfold lsum in *. simpl. by rewrite IH. }
  rewrite Hl, (rows_by_event _ (map fst (processed_events d))).
  - generalize (processed_events d). induction l as [|x l IH]; [done|]. cbn [map concat].
    rewrite lsum_app, <- IH. unfold event_lines. by rewrite Hl.
  - apply processed_ids.
  - intros r Hr. assert (event_rows (lr_event r) (ledger d) ≠ []) as Hne.
    { intros Hnil. apply (not_elem_of_nil r). rewrite <- Hnil. by apply list_elem_of_filter. }
    apply (bk_rows _ (ao_books _ _ Hd)) in Hne as (e & He & Hst).
    apply list_elem_of_fmap. exists (lr_event r, e). split; [done|]. by apply processed_elem.
Qed.

Lemma event_lines_fit d :
  audit_ok rebates d → lines_fit (lines_of (ledger d)) →
  lines_fit (concat (map (event_lines d) (processed_events d))).
Proof.
  intros Hd [Hg Hw]. split.
  - apply Forall_concat, Forall_fmap, Forall_true. intros x. unfold event_lines, compose.
    unfold on_grid in *. rewrite Forall_forall in Hg. apply Forall_forall. intros y Hy. apply Hg.
    apply list_elem_of_fmap in Hy as (r & -> & Hr). apply list_elem_of_filter in Hr as [_ Hr].
    by apply list_elem_of_fmap_2.
  - unfold weight. by rewrite <- (ledger_of_events d).
Qed.

Lemma replays d x (reads : nat → settle_db) env :
  audit_ok rebates d → ae_rebates env = rebates → x ∈ processed_events d →
  (∀ n, markets (reads n) = markets d ∧ sd_currencies (reads n) = sd_currencies d) →
  ∀ j, ∃ s, replay_event (ae_rebates env) (ev_payload (snd x)) (reads j) = Ret (event_lines d x, s).
Proof.
  intros Hd Hreb Hx Hreads j. destruct x as [id e]. apply processed_elem in Hx as [He Hst].
  destruct (ao_stored _ _ Hd id e He) as (p & Hpay & Hp).
  destruct (ao_settled _ _ Hd id e p He Hst Hpay Hp) as (m & pr & q & Hm & Hpr & Hq & Hls & _).
  destruct (Hreads j) as [Hmk Hcu]. exists (reads j). simpl. unfold replay_event. rewrite Hpay.
  rewrite (bind_Ret _ _ _ _ _ (stored_normal _ _ Hp)).
  rewrite (bind_Ret _ _ _ _ _ (resolve_same_tables _ _ _ _ Hmk Hcu Hm)).
  apply get_or_Some. unfold computeSettlementLedgerDeltasFromPayload. rewrite Hpr, Hq. simpl.
  unfold event_lines. cbn [fst]. by rewrite Hls, Hreb.
Qed.

Lemma quiet_audit env d w :
  audit_ok rebates d → ae_rebates env = rebates → lines_fit (lines_of (ledger d)) →
  keys_distinct (ledger d) → runGlobalBalanceAudit env (λ _, d) w = (passed, w).
Proof.
  intros Hd Hreb Hfit Hk. apply (audit_accepts env (λ _, d) (event_lines d)).
  - apply Forall_forall. intros x Hx. by apply replays.
  - by apply event_lines_fit.
  - done.
  - intros k. symmetry. by apply ledger_of_events.
Qed.

Lemma no_orphans d : audit_ok rebates d → orphan_count d = 0.
Proof.
  intros Hd. unfold orphan_count.
  replace (filter _ (processed_events d)) with (@nil (Z * settlement_event)); [done|].
  symmetry. apply elem_of_nil_inv. intros [id e] Hx. apply list_elem_of_filter in Hx as [Hnil Hx].
  apply processed_elem in Hx as [He Hst]. simpl in Hnil.
  apply (proj2 (bk_rows _ (ao_books _ _ Hd) id)); eauto.
Qed.

Lemma replay_hashes_ok env reads i evs w :
  Forall (λ x, ∀ j, ∃ s, replay_hash (ev_payload (fst x)) (reads j) = Ret (snd x, s)) evs →
  replay_hashes env reads i evs 0 w = (Ret 0, w).
Proof.
  intros Hevs. revert i. induction Hevs as [|[e h] evs Hx _ IH]; intros i; [done|].
  destruct (Hx i) as [s Hs]. simpl in Hs |- *. by rewrite Hs, String.eqb_refl.
Qed.

Lemma hashed_elem d e h :
  (e, h) ∈ hashed_events d → ∃ id, events d !! id = Some e ∧ ev_status e = EvProcessed ∧ ev_hash e = Some h.
Proof.
  unfold hashed_events. intros Hx. apply list_elem_of_omap in Hx as (e' & He & Hh).
  apply sort_by_elem, list_elem_of_fmap in He as ([id e0] & -> & Hx). apply processed_elem in Hx as [??].
  simpl in Hh. destruct (ev_hash e0) eqn:E; [|done]. simplify_eq/=. eauto.
Qed.
End Accepted.

Section AuditTheorems.
Context `{DecimalJs, Runtime}.

Lemma quiet_replay env d w :
  audit_ok false d → precisions_agree d →
  replaySettlementIntegrityCheck env (λ _, d) w = (Ret passed, w).
Proof.
  intros Hd Hagree. unfold replaySettlementIntegrityCheck. rewrite replay_hashes_ok; [done|].
  apply Forall_forall. intros [e h] Hx j. apply hashed_elem in Hx as (id & He & Hst & Hh). simpl.
  destruct (ao_stored _ _ Hd id e He) as (p & Hpay & Hp).
  destruct (ao_settled _ _ Hd id e p He Hst Hpay Hp) as (m & pr & q & Hm & Hpr & Hq & _ & Hhash).
  exists d. rewrite Hpay.
  rewrite (replay_hash_stored (SettleEnv false false (SpotTradesShapeOf false false false false false
    false false false false false false []) "") p m pr q d) by done.
  f_equal. f_equal. rewrite Hh in Hhash. by injection Hhash as ->.
Qed.

(** C32.. The audits accept what settlement does. From books the audits accept and whose
    balance ledger is complete, for instance those of a database that has settled nothing,
    and with maker rebates off: whatever ticks, messages as the engine sends them (with a
    timestamp and a price that is not negative), operators and restarts follow one another, a
    reconciliation round between two of them, which nothing disturbs, passes all four checks
    (every processed event has ledger rows, the ledger's sums are those of the replayed
    events, the balance ledger agrees with the balances, the hashes are reproduced) and
    leaves the circuit as it is. The view of the markets has the worker's precisions, and
    two hypotheses are on the ledger the round reads: its sums have room in a decimal, and
    its keys are distinct. The last fails for ids that differ in case only; a payload
    without a timestamp stops settlement ([AuditsDemo.undated_event_stops_settlement]), and
    so do rebates ([AuditsDemo.rebate_stops_settlement]). *)
Theorem audits_accept_settlements (toFixed : Z → Z → string) (env : audit_env)
    (w w' : worker_state) :
  ae_rebates env = false → audit_ok false (w_db w) → exact_ok (w_db w) → precisions_agree (w_db w) →
  rtc (audited_step false) w w' →
  lines_fit (lines_of (ledger (w_db w'))) → keys_distinct (ledger (w_db w')) →
  runTier1ReconciliationRound toFixed env (quiet (w_db w')) w'
  = (true, Tier1 passed passed passed (Ret passed), w').
Proof.
  intros Hreb Hok Hex Hagree Hrun Hfit Hkeys.
  pose proof (xo_ledger _ (runs_keep_exact _ _ Hrun Hok Hex)) as Hled. apply runs_keep_audit in Hrun.
  destruct (Hrun Hok) as [Hok' (_ & Hmk & Hcu)].
  assert (precisions_agree (w_db w')) as Hagree' by (unfold precisions_agree; by rewrite Hmk, Hcu).
  unfold runTier1ReconciliationRound, quiet. cbn [rd_coverage rd_global rd_spot rd_replay]. cbv zeta.
  rewrite (no_orphans false) by done. rewrite (quiet_audit false) by done.
  rewrite integrity_accepts by done. by rewrite quiet_replay.
Qed.

(** C33.. The aggregate audit races with settlement: it reads the events and then the
    ledger, in two statements. When the settlements that commit in between move an account by
    the threshold or more, the audit reports a mismatch and halts the process, although the
    books are in order: the same audit of the same tables, undisturbed, passes. If Redis takes
    the write of the circuit, settlement is stopped: but for what is left of the batch that is
    under way, nothing is settled and the database does not change any more, through poll
    ticks, stream messages and restarts, until an operator acts. *)
Theorem audit_races_settlement (env : audit_env) (reads : nat → settle_db) (w w1 : worker_state)
    (userId asset : string) :
  let k := aggKey userId asset in
  audit_ok (ae_rebates env) (w_db w) → rtc (audited_step (ae_rebates env)) w w1 →
  reads 0%nat = w_db w → (∀ n, reads (S n) = w_db w1) →
  lines_fit (lines_of (ledger (w_db w1))) → keys_distinct (ledger (w_db w1)) →
  0 < ae_audit_threshold env →
  ae_audit_threshold env
    ≤ Z.abs (key_sum k (lines_of (ledger (w_db w))) - key_sum k (lines_of (ledger (w_db w1)))) →
  let (r, w2) := runGlobalBalanceAudit env reads w1 in
  ar_ok r = false ∧ w_halted w2 = true ∧ (ae_redis_ok env = true → stopped w2) ∧
  runGlobalBalanceAudit env (λ _, w_db w1) w1 = (passed, w1).
Proof.
  intros k Hok Hrun H0' H1' Hfit Hk Hpos Hth.
  destruct (runs_keep_audit _ _ _ Hrun Hok) as [Hok1 ([rows Hl] & Hmk & Hcu)].
  assert (lines_fit (lines_of (ledger (w_db w)))) as Hfit0.
  { unfold lines_of in *. rewrite Hl, map_app in Hfit. by apply lines_fit_app in Hfit. }
  pose proof (quiet_audit (ae_rebates env) env _ w1 Hok1 eq_refl Hfit Hk) as Hquiet.
  pose proof (audit_trips env reads (event_lines (w_db w)) w1 k) as Htrip. cbv zeta in Htrip.
  rewrite H0', H1' in Htrip.
  destruct (runGlobalBalanceAudit env reads w1) as [r w2]. destruct Htrip as [Hr [Hh Hred]]; try done.
  - apply Forall_forall. intros x Hx. apply (replays (ae_rebates env)); try done.
    intros [|n]; rewrite ?H0', ?H1'; by rewrite ?Hmk, ?Hcu.
  - by apply (event_lines_fit (ae_rebates env)).
  - replace (key_sum k (concat _)) with (key_sum k (lines_of (ledger (w_db w)))); [done|].
    by apply (ledger_of_events (ae_rebates env)).
  - repeat (split; [done|]). split; [|done]. intros Hro. by apply open_circuit_stops, Hred.
Qed.
End AuditTheorems.

(** ** Compaction *)
Section Compact.
Context `{DecimalJs}.

Lemma check_group_inv g c u c' :
  check_group g c = Ret (u, c') →
  c' = c ∧ ∃ cid r, compaction_currency (snd (fst g)) (sd_currencies (cd_settle c)) = Some cid ∧
    trading_row (fst (fst g)) cid c = Some r ∧ snd g = row_total r.
Proof.
  destruct g as [[user asset] sum]. unfold check_group. intros Hrun.
  apply bind_Ret_inv in Hrun as (cs & ? & H1 & Hrun). apply gets_inv in H1 as [-> ->].
  apply bind_Ret_inv in Hrun as (cid & ? & H1 & Hrun). apply get_or_inv in H1 as [Hc ->].
  apply bind_Ret_inv in Hrun as (row & ? & H1 & Hrun). apply gets_inv in H1 as [-> ->].
  apply bind_Ret_inv in Hrun as (r & ? & H1 & Hrun). apply get_or_inv in H1 as [Hr ->].
  apply require_inv in Hrun as [Hs ->]. split; [done|]. exists cid, r. simpl. bool_prop. done.
Qed.

(** The loops of compaction that only check. *)
Lemma foreach_checks {A} (l : list A) (f : A → M compact_db unit) (P : compact_db → A → Prop) c u c' :
  (∀ x c u c', f x c = Ret (u, c') → c' = c ∧ P c x) →
  foreach l f c = Ret (u, c') → c' = c ∧ Forall (P c) l.
Proof.
  intros Hf. induction l as [|x l IH] in u |- *; intros Hrun; simpl in Hrun.
  - by apply ret_inv in Hrun as [_ ->].
  - apply bind_Ret_inv in Hrun as (? & c1 & H1 & Hrun). apply Hf in H1 as [-> Hx].
    destruct (IH _ Hrun) as [-> Hl]. split; [done|]. by constructor.
Qed.

(** The checkpoint of a group has the balance's row. *)
Definition checkpoint_of (cutoff : Z) (head : string) (g : (string * string) * Z) (c : compact_db) :
    checkpoint :=
  let r := default zero_row (cid ← compaction_currency (snd (fst g)) (sd_currencies (cd_settle c));
                             trading_row (fst (fst g)) cid c) in
  Checkpoint (fst (fst g)) (snd (fst g)) cutoff (available_balance r) (locked_balance r) head.

Lemma insert_checkpoint_run cutoff head g c :
  insert_checkpoint cutoff head g c = Ret (tt, add_checkpoint (checkpoint_of cutoff head g c) c).
Proof. by destruct g as [[user asset] sum]. Qed.

Definition with_checkpoints (l : list checkpoint) (c : compact_db) : compact_db :=
  CompactDb (cd_settle c) (cd_ids c) (checkpoints c ++ l) (archive c).

Lemma insert_checkpoints_run cutoff head gs c :
  foreach gs (insert_checkpoint cutoff head) c
  = Ret (tt, with_checkpoints (map (λ g, checkpoint_of cutoff head g c) gs) c).
Proof.
  revert c. induction gs as [|g gs IH]; intros c; cbn [foreach map].
  { unfold with_checkpoints. rewrite app_nil_r. by destruct c. }
  rewrite (bind_Ret _ _ _ _ _ (insert_checkpoint_run cutoff head g c)), IH.
  unfold with_checkpoints. simpl. by rewrite <- app_assoc.
Qed.

(** What is left of a group after the deletes, against its checkpoint. *)
Lemma check_replay_inv cutoff remaining g c u c' :
  check_replay cutoff remaining g c = Ret (u, c') →
  c' = c ∧ ∀ cid cp r,
    compaction_currency (snd (fst g)) (sd_currencies (cd_settle c)) = Some cid →
    last (filter (λ x, cp_user x = fst (fst g) ∧ cp_asset x = snd (fst g) ∧ cp_ledger_id x = cutoff)
            (checkpoints c)) = Some cp →
    trading_row (fst (fst g)) cid c = Some r →
    dplus (dplus (cp_available cp) (cp_locked cp))
      (default 0 (snd <$> find (λ x, bool_decide (fst x = fst g)) remaining)) = row_total r.
Proof.
  destruct g as [[user asset] sum]. unfold check_replay. cbn [fst snd]. intros Hrun.
  apply bind_Ret_inv in Hrun as (cs & ? & H1 & Hrun). apply gets_inv in H1 as [-> ->].
  destruct (compaction_currency asset _) as [cid|]; [|by apply ret_inv in Hrun as [_ ->]].
  apply bind_Ret_inv in Hrun as (cps & ? & H1 & Hrun). apply gets_inv in H1 as [-> ->].
  apply bind_Ret_inv in Hrun as (row & ? & H1 & Hrun). apply gets_inv in H1 as [-> ->].
  destruct (last _) as [cp|]; [|apply ret_inv in Hrun as [_ ->]; split; [done|by intros]].
  destruct (trading_row user cid c) as [r|] eqn:Hr;
    [|apply ret_inv in Hrun as [_ ->]; split; [done|intros ? ? ? [= <-] _; congruence]].
  apply require_inv in Hrun as [Hs ->]. split; [done|]. bool_prop.
  intros cid' cp' r' [= <-] [= <-] Hr'. congruence.
Qed.

(** The only message compaction throws. *)
Definition fails_with {A} (m : M compact_db A) (c : compact_db) : Prop :=
  ∀ e, m c = Throw e → e = COMPACTION_VIOLATION.

Lemma fails_bind {A B} (m : M compact_db A) (f : A → M compact_db B) c :
  fails_with m c → (∀ a c', m c = Ret (a, c') → fails_with (f a) c') → fails_with (bind m f) c.
Proof. intros Hm Hf e. unfold bind. destruct (m c) as [[a c']|e'] eqn:E; [by apply Hf|]. intros [= <-]. by apply Hm. Qed.
Lemma fails_gets {A} (f : compact_db → A) c : fails_with (gets f) c.
Proof. done. Qed.
Lemma fails_require b c : fails_with (require b COMPACTION_VIOLATION) c.
Proof. intros e. destruct b; [done|]. by intros [= <-]. Qed.
Lemma fails_get_or {A} (o : option A) c : fails_with (get_or o COMPACTION_VIOLATION) c.
Proof. intros e. destruct o; [done|]. by intros [= <-]. Qed.
Lemma fails_foreach {A} (l : list A) (f : A → M compact_db unit) c :
  (∀ x c, fails_with (f x) c) → fails_with (foreach l f) c.
Proof.
  intros Hf. revert c. induction l as [|x l IH]; intros c; [done|]. simpl. by apply fails_bind.
Qed.

Lemma delete_archived cutoff c rows :
  rows = up_to cutoff (id_rows c) →
  delete_ledger_rows cutoff (add_archive rows c) = Ret (tt, add_archive rows c).
Proof.
  intros ->. unfold delete_ledger_rows. erewrite bind_Ret by reflexivity.
  erewrite bind_Ret by reflexivity. apply require_true, forallb_forall. intros x Hx.
  apply existsb_exists. exists x. split; [|by apply Z.eqb_eq]. simpl. apply in_or_app. by right.
Qed.

Lemma check_group_fails g c : fails_with (check_group g) c.
Proof.
  destruct g as [[user asset] sum]. unfold check_group.
  apply fails_bind; [done|]. intros cs c1 _. apply fails_bind; [apply fails_get_or|]. intros cid c2 _.
  apply fails_bind; [done|]. intros row c3 _. apply fails_bind; [apply fails_get_or|]. intros r c4 _.
  apply fails_require.
Qed.

Lemma check_replay_fails cutoff remaining g c : fails_with (check_replay cutoff remaining g) c.
Proof.
  destruct g as [[user asset] sum]. unfold check_replay.
  apply fails_bind; [done|]. intros cs c1 _. destruct (compaction_currency asset cs); [|done].
  apply fails_bind; [done|]. intros cps c2 _. apply fails_bind; [done|]. intros row c3 _.
  destruct (last cps), row; [apply fails_require|done..].
Qed.

Lemma compaction_fails cutoff c : fails_with (compaction_tx cutoff) c.
Proof.
  unfold compaction_tx. apply fails_bind; [done|]. intros sums c1 _.
  apply fails_bind; [done|]. intros head c2 _. apply fails_bind; [apply fails_require|]. intros _ c3 _.
  apply fails_bind; [by apply fails_foreach, check_group_fails|]. intros _ c4 _.
  apply fails_bind; [intros e; by rewrite insert_checkpoints_run|]. intros _ c5 _.
  apply fails_bind; [done|]. intros rows c6 H6. apply gets_inv in H6 as [-> ->].
  apply fails_bind; [done|]. intros [] c7 H7. apply modify_inv in H7 as ->.
  apply fails_bind; [done|]. intros archived c8 H8. apply gets_inv in H8 as [-> ->].
  apply fails_bind; [apply fails_require|]. intros [] c9 H9. apply require_inv in H9 as [_ ->].
  apply fails_bind; [intros e; by rewrite delete_archived|]. intros _ c10 _.
  apply fails_bind; [done|]. intros remaining c11 _.
  apply fails_bind; [by apply fails_foreach, check_replay_fails|]. done.
Qed.

(** What a compaction that returns has done and has checked. *)
Lemma compaction_inv cutoff c n c' :
  compaction_tx cutoff c = Ret (n, c') →
  let gs := ledger_groups (map snd (up_to cutoff (id_rows c))) in
  cd_settle c' = cd_settle c ∧ cd_ids c' = cd_ids c ∧
  ∃ head, checkpoints c' = checkpoints c ++ map (λ g, checkpoint_of cutoff head g c) gs ∧
  ∀ g, g ∈ gs →
    (∃ cid r, compaction_currency (snd (fst g)) (sd_currencies (cd_settle c)) = Some cid ∧
       trading_row (fst (fst g)) cid c = Some r ∧ snd g = row_total r) ∧
    check_replay cutoff (ledger_groups (map snd (id_rows c))) g c' = Ret (tt, c').
Proof.
  intros Hrun gs. unfold compaction_tx in Hrun.
  apply bind_Ret_inv in Hrun as (sums & ? & H1 & Hrun). apply gets_inv in H1 as [-> ->]. fold gs in Hrun.
  apply bind_Ret_inv in Hrun as (head & ? & H1 & Hrun). apply gets_inv in H1 as [-> ->].
  set (head := default "" _) in Hrun.
  apply bind_Ret_inv in Hrun as ([] & ? & H1 & Hrun). apply require_inv in H1 as [_ ->].
  apply bind_Ret_inv in Hrun as ([] & ? & H1 & Hrun).
  apply (foreach_checks _ _ _ _ _ _ check_group_inv) in H1 as [-> Hgroups].
  rewrite (bind_Ret _ _ _ _ _ (insert_checkpoints_run cutoff head gs c)) in Hrun.
  apply bind_Ret_inv in Hrun as (rows & ? & H1 & Hrun). apply gets_inv in H1 as [Hrows ->].
  apply bind_Ret_inv in Hrun as ([] & ? & H1 & Hrun). apply modify_inv in H1 as ->.
  apply bind_Ret_inv in Hrun as (arch & ? & H1 & Hrun). apply gets_inv in H1 as [-> ->].
  apply bind_Ret_inv in Hrun as ([] & ? & H1 & Hrun). apply require_inv in H1 as [_ ->].
  rewrite (bind_Ret _ _ _ _ _ (delete_archived _ _ _ Hrows)) in Hrun.
  apply bind_Ret_inv in Hrun as (remaining & ? & H1 & Hrun). apply gets_inv in H1 as [-> ->].
  apply bind_Ret_inv in Hrun as ([] & c2 & H1 & Hrun). apply ret_inv in Hrun as [_ ->].
  set (c1 := add_archive rows _) in *.
  apply (foreach_checks _ _ (λ c g, check_replay cutoff (ledger_groups (map snd (id_rows c1))) g c = Ret (tt, c)))
    in H1 as [-> Hreplay].
  - split; [done|]. split; [done|]. exists head. split; [done|]. intros g Hg.
    rewrite Forall_forall in Hgroups, Hreplay. split; [by apply Hgroups|by apply Hreplay].
  - intros g c0 [] c3 H3. pose proof (check_replay_inv _ _ _ _ _ _ H3) as [-> _]. done.
Qed.

Lemma groups_elem l g : g ∈ ledger_groups l ↔ ∃ r, r ∈ l ∧ g = (pair_key r, group_sum (pair_key r) l).
Proof.
  unfold ledger_groups. rewrite list_elem_of_fmap. split.
  - intros (p & -> & Hp). apply distinct_pairs_spec in Hp as [Hp _].
    apply list_elem_of_fmap in Hp as (r & -> & Hr). eauto.
  - intros (r & Hr & ->). exists (pair_key r). split; [done|]. apply distinct_pairs_spec.
    split; [by apply list_elem_of_fmap_2|set_solver].
Qed.

Lemma find_group l r :
  r ∈ l → find (λ x, bool_decide (fst x = pair_key r)) (ledger_groups l)
          = Some (pair_key r, group_sum (pair_key r) l).
Proof.
  intros Hr. destruct (find _ _) as [g|] eqn:E.
  - apply List.find_some in E as [Hg E]. bool_prop. apply list_elem_of_In, groups_elem in Hg as (r' & _ & ->).
    simpl in E. by rewrite E.
  - apply List.find_none with (x := (pair_key r, group_sum (pair_key r) l)) in E.
    + simpl in E. by bool_prop.
    + apply list_elem_of_In, groups_elem. eauto.
Qed.

Lemma last_checkpoint old cutoff head l r c :
  let g := (pair_key r, group_sum (pair_key r) l) in
  r ∈ l →
  last (filter (λ x, cp_user x = fst (pair_key r) ∧ cp_asset x = snd (pair_key r) ∧ cp_ledger_id x = cutoff)
    (old ++ map (λ g, checkpoint_of cutoff head g c) (ledger_groups l)))
  = Some (checkpoint_of cutoff head g c).
Proof.
  intros g Hr. rewrite filter_app.
  assert (filter (λ x, cp_user x = fst (pair_key r) ∧ cp_asset x = snd (pair_key r) ∧ cp_ledger_id x = cutoff)
    (map (λ g, checkpoint_of cutoff head g c) (ledger_groups l)) = [checkpoint_of cutoff head g c]) as ->;
    [|by rewrite last_snoc].
  assert (pair_key r ∈ distinct_pairs [] l) as Hin.
  { apply distinct_pairs_spec. split; [by apply list_elem_of_fmap_2|set_solver]. }
  unfold ledger_groups. rewrite map_map. destruct (distinct_pairs_spec [] l) as [Hnd _].
  induction Hnd as [|p ps Hp Hnd IH]; [set_solver|]. cbn [map].
  assert (∀ q, (cp_user (checkpoint_of cutoff head (q, group_sum q l) c) = fst (pair_key r) ∧
    cp_asset (checkpoint_of cutoff head (q, group_sum q l) c) = snd (pair_key r) ∧
    cp_ledger_id (checkpoint_of cutoff head (q, group_sum q l) c) = cutoff) ↔ q = pair_key r) as Hq.
  { intros [u a]. unfold pair_key. simpl. naive_solver. }
  destruct (decide (p = pair_key r)) as [->|Hne].
  - rewrite filter_cons_True by by apply Hq. f_equal.
    assert (∀ l', pair_key r ∉ l' → filter (λ x, cp_user x = fst (pair_key r) ∧ cp_asset x = snd (pair_key r) ∧
      cp_ledger_id x = cutoff) (map (λ x, checkpoint_of cutoff head (x, group_sum x l) c) l') = []) as Hno.
    { induction l' as [|q l' IH']; intros Hnot; [done|]. cbn [map].
      rewrite filter_cons_False by (rewrite Hq; set_solver). apply IH'. set_solver. }
    by apply Hno.
  - rewrite filter_cons_False by (by rewrite Hq). apply IH. set_solver.
Qed.

Lemma group_sum_fits g l : lines_fit (lines_of l) →
  (10 ^ 18 | group_sum g l) ∧ Z.abs (group_sum g l) < 10 ^ (17 + precision).
Proof.
  intros [Hg Hw]. assert (Z.abs (group_sum g l) ≤ weight (lines_of l)) as Hle.
  { clear. induction l as [|r l IH]; [done|]. unfold group_sum, weight, lsum in *. simpl. case_bool_decide; lia. }
  split; [|lia]. clear Hw Hle. unfold on_grid, lines_of in Hg. induction l as [|r l IH]; [apply Z.divide_0_r|].
  inversion Hg; subst. unfold group_sum, lsum in *. simpl.
  apply Z.divide_add_r; [case_bool_decide; [done|apply Z.divide_0_r]|by apply IH].
Qed.

(** Compaction deletes nothing. It either throws, changes no table and opens the
    circuit; or it returns, and then the ledger keeps all its rows (the trigger that guards the
    table skips every deleted row), and the settlement ledger sums to zero for every account
    with a compacted row. So a ledger in which some account has gained or lost anything by
    trading cannot be compacted, and trying to stops settlement. *)
Theorem compaction_deletes_nothing (redis_ok : bool) (cutoff : Z) (c : compact_db) (w : worker_state) :
  fits (sd_balances (cd_settle c)) → lines_fit (lines_of (ledger (cd_settle c))) →
  length (cd_ids c) = length (ledger (cd_settle c)) →
  let '(o, c', w') := runLedgerCompaction redis_ok cutoff c w in
  match o with
  | Ret _ => w' = w ∧ cd_settle c' = cd_settle c ∧ cd_ids c' = cd_ids c ∧
      ∀ id r, (id, r) ∈ id_rows c → id ≤ cutoff → group_sum (pair_key r) (ledger (cd_settle c)) = 0
  | Throw e => e = COMPACTION_VIOLATION ∧ c' = c ∧ w_halted w' = true ∧
      (redis_ok = true → redis_circuit w' = setSettlementCircuitOpen true)
  end.
Proof.
  intros Hfits Hfit Hlen. unfold runLedgerCompaction.
  destruct (transaction (compaction_tx cutoff) c) as [[n|e] c'] eqn:Et.
  2: { apply transaction_Throw in Et as [Et ->]. apply compaction_fails in Et as ->.
       rewrite String.eqb_refl. split; [done|]. split; [done|].
       unfold triggerCircuitIfViolation. rewrite bool_decide_eq_true_2 by set_solver. by destruct redis_ok. }
  apply transaction_Ret, compaction_inv in Et as (Hs & Hi & head & Hcps & Hall).
  split; [done|]. split; [done|]. split; [done|]. intros id r Hr Hid.
  assert (map snd (id_rows c) = ledger (cd_settle c)) as Hrows.
  { unfold id_rows. apply snd_zip. lia. }
  assert (r ∈ map snd (up_to cutoff (id_rows c))) as Hup.
  { change r with (snd (id, r)). apply list_elem_of_fmap_2, list_elem_of_filter. done. }
  assert (r ∈ ledger (cd_settle c)) as Hrl.
  { rewrite <- Hrows. change r with (snd (id, r)). by apply list_elem_of_fmap_2. }
  rewrite Hrows in Hall.
  destruct (Hall (pair_key r, group_sum (pair_key r) (map snd (up_to cutoff (id_rows c)))))
    as ((cid & row & Hc & Hrow & _) & Hreplay); [apply groups_elem; eauto|].
  apply check_replay_inv in Hreplay as [_ Hreplay]. cbn [fst snd] in *.
  specialize (Hreplay cid (checkpoint_of cutoff head
    (pair_key r, group_sum (pair_key r) (map snd (up_to cutoff (id_rows c)))) c) row).
  rewrite (find_group _ r Hrl), Hs, Hcps, last_checkpoint in Hreplay by done.
  unfold trading_row in Hreplay, Hrow. rewrite Hs in Hreplay. specialize (Hreplay Hc eq_refl Hrow).
  unfold checkpoint_of in Hreplay. cbn [fst snd] in Hreplay. rewrite Hc in Hreplay.
  change (fst (pair_key r)) with (lr_user r) in *. unfold trading_row in Hreplay. simpl in Hreplay.
  rewrite Hrow in Hreplay. simpl in Hreplay.
  destruct (Hfits (trading_key (lr_user r) cid)) as [[Hda Ha] [Hdl Hl]].
  unfold row_of in Hda, Ha, Hdl, Hl. rewrite Hrow in Hda, Ha, Hdl, Hl.
  destruct (group_sum_fits (pair_key r) _ Hfit) as [Hdg Hg].
  unfold row_total, dplus in Hreplay.
  simpl in Hda, Ha, Hdl, Hl.
  rewrite (sig_18 (available_balance row + locked_balance row)) in Hreplay;
    [|by apply Z.divide_add_r|lia].
  rewrite sig_18 in Hreplay; [lia|by repeat apply Z.divide_add_r|lia].
Qed.
End Compact.
