(* ===== verification/AuditsDemo.v ===== *)
(** * Settlement audits: a concrete round

    The audits on the database of [SettlementDemo], with a balance ledger that opens the
    accounts: a round after a trade passes; a round during one, one with maker rebates, and a
    compaction stop settlement. *)
From stdpp Require Import base gmap strings list fin_maps pretty relations.
From Stdlib Require Import ZArith Lia Ascii.
From S2P Require Import Prelude Money Balances Escrow Halt SettlementModel Settlement SettlementDemo.
From S2P Require Import SettlementWorker SettlementRuns SettlementRunsDemo AuditModel Audits.
Local Open Scope Z_scope.
#[local] Existing Instance decimal_36.

(** ** Deciding that a balance ledger is complete *)
Definition continues (l : list ledger_entry) (e : ledger_entry) : bool :=
  negb (String.eqb (le_account_type e) ACCOUNT_TYPE)
  || ((le_balance_before e
       =? ledger_sum ACCOUNT_TYPE (le_user_id e) (le_currency_id e) (le_balance_type e) l)
      && (le_balance_after e =? le_balance_before e + le_credit e - le_debit e)).
Fixpoint running_b (seen l : list ledger_entry) : bool :=
  match l with [] => true | e :: l' => continues seen e && running_b (seen ++ [e]) l' end.
Definition accounts (b : balances) : list (string * string) :=
  map (λ e, (le_user_id e, le_currency_id e)) (balance_ledger b)
  ++ map (λ x, (user_id (fst x), currency_id (fst x))) (map_to_list (user_balances b)).
Definition complete_b (b : balances) : bool :=
  running_b [] (balance_ledger b)
  && forallb (λ x, forallb (λ bt, bucket bt (row_of (trading_key (fst x) (snd x)) b)
                                  =? ledger_sum ACCOUNT_TYPE (fst x) (snd x) bt (balance_ledger b))
                     [Available; Locked]) (accounts b).

Lemma running_b_true l seen :
  running ACCOUNT_TYPE seen → running_b seen l = true → running ACCOUNT_TYPE (seen ++ l).
Proof.
  revert seen. induction l as [|e l IH]; intros seen Hs Hb; [by rewrite app_nil_r|].
  simpl in Hb. apply andb_prop in Hb as [He Hl]. change (e :: l) with ([e] ++ l). rewrite app_assoc.
  apply IH; [|done]. constructor; [done|]. intros Ha. unfold continues in He.
  rewrite Ha, String.eqb_refl in He. simpl in He. bool_prop. done.
Qed.

Lemma complete_b_true b : complete_b b = true → ledger_complete b.
Proof.
  unfold complete_b. intros Hb. apply andb_prop in Hb as [Hr Hs]. split.
  { change (balance_ledger b) with ([] ++ balance_ledger b). apply running_b_true; [constructor|done]. }
  intros u c bt Hbt. rewrite forallb_forall in Hs.
  destruct (decide ((u, c) ∈ accounts b)) as [Hin|Hno].
  - apply list_elem_of_In, Hs in Hin. cbn [fst snd] in Hin. rewrite forallb_forall in Hin.
    apply Z.eqb_eq, Hin. destruct bt; [by left|by right; left|done].
  - assert (user_balances b !! trading_key u c = None) as Hrow.
    { destruct (_ !! _) as [r|] eqn:E; [|done]. destruct Hno. apply elem_of_app. right.
      apply elem_of_map_to_list in E. apply list_elem_of_fmap. by exists (trading_key u c, r). }
    unfold row_of. rewrite Hrow. unfold ledger_sum. rewrite lsum_0; [by destruct bt|].
    intros i e He. unfold entry_delta, entry_for. case_bool_decide as E; [|done]. destruct Hno.
    apply elem_of_app. left. apply list_elem_of_fmap. exists e. destruct E as (_ & <- & <- & _).
    split; [done|]. by apply list_elem_of_lookup_2 in He.
Qed.

(** Ledger keys that differ for different accounts, and amounts that fit. *)
Definition keys_b (l : list ledger_row) : bool :=
  forallb (λ r, forallb (λ r', negb (String.eqb (line_key (row_line r)) (line_key (row_line r')))
                               || bool_decide (pair_key r = pair_key r')) l) l.
Definition fit_b (ls : list delta_line) : bool :=
  forallb (λ l, dl_delta l mod 10 ^ 18 =? 0) ls && (weight ls <? 10 ^ 53).

Lemma keys_b_true l : keys_b l = true → keys_distinct l.
Proof.
  unfold keys_b, keys_distinct. rewrite forallb_forall. intros Hb r r' Hr Hr' Hk.
  apply list_elem_of_In in Hr, Hr'. specialize (Hb r Hr). rewrite forallb_forall in Hb.
  specialize (Hb r' Hr'). rewrite Hk, String.eqb_refl in Hb.
  by apply bool_decide_eq_true in Hb.
Qed.

Lemma fit_b_true ls : fit_b ls = true → lines_fit ls.
Proof.
  unfold fit_b. intros Hb. apply andb_prop in Hb as [Hg Hw]. split; [|by apply Z.ltb_lt].
  rewrite forallb_forall in Hg. apply Forall_forall. intros l Hl. apply list_elem_of_In, Hg in Hl.
  apply Z.mod_divide; [done|by apply Z.eqb_eq].
Qed.

(** ** A market whose accounts were opened by the ledger *)
Definition opening (u c : string) (bt : balance_type) (x : Z) : ledger_entry :=
  trading_entry u c 0 x 0 x "opening_balance" "start" bt.
Definition opened_db (evs : gmap Z settlement_event) : settle_db :=
  sput (Balances demo_rows
    [opening taker_id "usdt" Available (dec 100 0); opening taker_id "usdt" Locked (dec 20000 0);
     opening taker_id "btc" Locked (dec 1 0); opening maker_id "btc" Locked (dec 1 0);
     opening maker_id "usdt" Available (dec 50 0); opening maker_id "usdt" Locked (dec 20000 0)])
    (demo_db evs).
Definition audited_w : worker_state := demo_worker (opened_db demo_queue).
Definition after_tick : worker_state := runOnce 20 (demo_tick true) demo_io audited_w.

Definition demo_audit (rebates : bool) : audit_env := default_thresholds rebates true.
Definition demo_fixed (d p : Z) : string := pretty (toDP p d).

Lemma opened_ok rebates : audit_ok rebates (w_db audited_w).
Proof.
  split.
  - destruct (demo_books demo_queue demo_queue_pending) as [Hwf H2 H3 H4 H5 H6]. by split.
  - intros id e He. change (demo_queue !! id = Some e) in He. unfold demo_queue in He.
    apply lookup_insert_Some in He as [[_ <-]|[_ He]];
      [|apply lookup_singleton_Some in He as [_ <-]]; eexists; (split; [reflexivity|]);
      (split; [|done]); (split; [done|split; [done|]]); by intros g [= <-].
  - intros id e p He Hst. destruct (demo_queue_pending id e He) as [Hp _]. congruence.
Qed.

Lemma opened_precisions : precisions_agree (w_db audited_w).
Proof.
  intros s m Hm. change (demo_markets !! s = Some m) in Hm. unfold demo_markets in Hm.
  apply lookup_singleton_Some in Hm as [_ <-]. vm_compute. discriminate.
Qed.

(** The events of the demo carry one price. *)
Lemma demo_stored id s q : stored_payload (demo_payload_of id s q).
Proof. split; [|done]. split; [done|]. split; [done|]. by intros g [= <-]. Qed.
Lemma funds_le_total c (b : balances) :
  balances_wf b → funds c b ≤ msum (λ _ r, worth r) (user_balances b).
Proof.
  unfold balances_wf, funds. induction (user_balances b) as [|k r m Hk IH] using map_ind; intros Hwf; [done|].
  rewrite !msum_insert_None by done.
  assert (0 ≤ worth r).
  { pose proof (Hwf k r (lookup_insert_eq _ _ _)) as Hr. apply row_nonneg_true in Hr. unfold worth. lia. }
  assert (∀ k' r', m !! k' = Some r' → row_nonneg r' = true) as Hm.
  { intros k' r' Hk'. apply (Hwf k'). rewrite lookup_insert_ne; [done|congruence]. }
  specialize (IH Hm). case_match; lia.
Qed.
Lemma opened_exact : exact_ok (w_db audited_w).
Proof.
  assert (balances_wf (sd_balances (w_db audited_w))) as Hwf by exact demo_wf.
  split.
  - apply complete_b_true. vm_compute. reflexivity.
  - intros k. change (sd_balances (w_db audited_w)) with (Balances demo_rows (balance_ledger (sd_balances (w_db audited_w)))).
    destruct (demo_fits k) as [[Ha _] [Hl _]]. exact (conj Ha Hl).
  - intros c. eapply Z.le_lt_trans; [by apply funds_le_total|]. apply Z.ltb_lt. vm_compute. reflexivity.
  - intros u Hu. change (u ∈ ({[taker_id; maker_id]} : gset string)) in Hu.
    apply elem_of_union in Hu as [->%elem_of_singleton| ->%elem_of_singleton]; done.
  - intros s m Hr. assert (s = "BTC_USDT") as ->.
    { unfold resolveMarketAssets in Hr.
      apply bind_Ret_inv in Hr as (row & ? & H1 & Hr). apply gets_inv in H1 as [-> ->].
      apply bind_Ret_inv in Hr as (mk & ? & H1 & _). apply get_or_inv in H1 as [Hmk ->].
      change (demo_markets !! s = Some mk) in Hmk. unfold demo_markets in Hmk.
      by apply lookup_singleton_Some in Hmk as [<- _]. }
    rewrite demo_resolve in Hr by done.
    apply (f_equal (λ o, match o with Ret (x, _) => x | Throw _ => m end)) in Hr. cbv beta iota in Hr.
    subst m. split; [done|done|simpl; lia|simpl; lia].
  - intros id e p He Hpay Hst x Hx. change (demo_queue !! id = Some e) in He. unfold demo_queue in He.
    assert (price p = "50000.5") as Hp.
    { apply lookup_insert_Some in He as [[_ <-]|[_ He]]; [|apply lookup_singleton_Some in He as [_ <-]];
        simpl in Hpay; apply stored_unique in Hpay as <-; try done; apply demo_stored. }
    rewrite Hp, demo_price in Hx. injection Hx as <-. vm_compute. discriminate.
Qed.

Lemma tick_audited rebates : rebates = false → rtc (audited_step rebates) audited_w after_tick.
Proof. intros ->. apply rtc_once, as_tick. done. Qed.

Lemma audits_accept_settlements_witness :
  length (ledger (w_db after_tick)) = 8%nat ∧
  runTier1ReconciliationRound demo_fixed (demo_audit false) (quiet (w_db after_tick)) after_tick
  = (true, Tier1 passed passed passed (Ret passed), after_tick).
Proof.
  split; [vm_compute; reflexivity|].
  apply (audits_accept_settlements demo_fixed (demo_audit false) audited_w after_tick).
  - reflexivity.
  - apply opened_ok.
  - apply opened_exact.
  - apply opened_precisions.
  - by apply tick_audited.
  - apply fit_b_true. vm_compute. reflexivity.
  - apply keys_b_true. vm_compute. reflexivity.
Defined.

(** The tick settles between the audit's two reads. *)
Definition racing_reads (n : nat) : settle_db :=
  match n with O => w_db audited_w | S _ => w_db after_tick end.

Lemma audit_races_settlement_witness :
  let w2 := snd (runGlobalBalanceAudit (demo_audit false) racing_reads after_tick) in
  w_halted w2 = true ∧ w_db (runOnce 20 (demo_tick true) demo_io w2) = w_db w2.
Proof.
  pose proof (audit_races_settlement (demo_audit false) racing_reads audited_w after_tick taker_id "USDT"
    (opened_ok false) (tick_audited false eq_refl) eq_refl (λ _, eq_refl)) as Hrace.
  destruct (runGlobalBalanceAudit (demo_audit false) racing_reads after_tick) as [r w2].
  destruct Hrace as (_ & Hh & Hs & _).
  - apply fit_b_true. vm_compute. reflexivity.
  - apply keys_b_true. vm_compute. reflexivity.
  - vm_compute. reflexivity.
  - apply Z.leb_le. vm_compute. reflexivity.
  - split; [exact Hh|]. apply (Hs eq_refl 0%nat demo_io). cbn [drain]. apply rtc_once, auto_tick.
Defined.

(** ** Compaction of the first trade *)
Definition traded : compact_db := CompactDb (w_db after_tick) [1; 2; 3; 4; 5; 6; 7; 8] [] [].

Lemma compaction_deletes_nothing_witness :
  let '(o, c', w') := runLedgerCompaction true 4 traded after_tick in
  (o, c') = (Throw COMPACTION_VIOLATION, traded) ∧ w_halted w' = true.
Proof.
  pose proof (compaction_deletes_nothing true 4 traded after_tick) as Hc.
  assert (match fst (fst (runLedgerCompaction true 4 traded after_tick)) with
          | Ret _ => false | Throw _ => true end = true) as Hb by (vm_compute; reflexivity).
  destruct (runLedgerCompaction true 4 traded after_tick) as [[o c'] w']. cbn [fst] in Hb.
  destruct o as [n|e]; [discriminate Hb|]. destruct Hc as (-> & -> & Hh & _).
  - apply fits_b_true. vm_compute. reflexivity.
  - apply fit_b_true. vm_compute. reflexivity.
  - reflexivity.
  - split; [reflexivity|exact Hh].
Defined.

(** An id that is no row of the ledger stops settlement too. *)
Lemma unknown_cutoff_opens_circuit :
  redis_circuit (snd (runLedgerCompaction true 9 traded after_tick)) = setSettlementCircuitOpen true.
Proof. vm_compute. reflexivity. Qed.

(** ** Maker rebates *)
Definition rebate_tick : tick_env := TickEnv (demo_env true) [] true true [] [] 2.
Definition after_rebate : worker_state := runOnce 1 rebate_tick (λ _, rebate_tick) audited_w.

(** The validator does not know rebates: after one buy with rebates on, its hash differs from
    the worker's and settlement stops. *)
Lemma rebate_stops_settlement :
  let '(_, details, w) := runTier1ReconciliationRound demo_fixed (demo_audit true)
                            (quiet (w_db after_rebate)) after_rebate in
  details = Tier1 passed passed passed (Ret (AuditResult false 1)) ∧
  redis_circuit w = setSettlementCircuitOpen true.
Proof. vm_compute. split; reflexivity. Qed.

(** Turning rebates off afterwards makes the aggregate audit disagree with the ledger. *)
Lemma toggled_rebates_mismatch :
  fst (runGlobalBalanceAudit (demo_audit false) (λ _, w_db after_rebate) after_rebate) = AuditResult true 1.
Proof. vm_compute. reflexivity. Qed.

(** A message without a timestamp settles; its payload is stored with null where the worker
    hashed 0, so the next validation stops settlement. *)
Definition undated_payload : EnginePayload :=
  {| event_id := Some 1; p_match_engine_id := Some "engine-0"; symbol := "BTC_USDT";
     price := "50000.5"; qty := "0.2"; taker_order_id := "order-t"; maker_order_id := "order-m";
     taker_user_id := taker_id; maker_user_id := maker_id; taker_side := Buy; timestamp := None |}.
Definition undated_w : worker_state :=
  demo_worker (opened_db {[1 := pending_event 1 (payload_json undated_payload)]}).

Lemma undated_event_stops_settlement :
  let w := runOnce 1 (demo_tick true) demo_io undated_w in
  length (ledger (w_db w)) = 4%nat ∧
  w_halted (snd (replaySettlementIntegrityCheck (demo_audit false) (λ _, w_db w) w)) = true.
Proof. vm_compute. split; reflexivity. Qed.
