(* ===== verification/FeedModel.v ===== *)
(** * Match feed: from the engine's events to the settlement queue

    [services/settlement/match-event-persistence.service.ts], [match-poller.ts], the reads
    of [snapshot-service.ts], and the two places an API request hands matches on
    ([syncEngineMatchesAfterPlace], [applyInlineEngineEvents] of
    [spot-engine-live-bridge.service.ts]). Requests and the poller run side by side, so
    every handler is a [thread]. *)
From stdpp Require Import base gmap strings list fin_maps pretty.
From Stdlib Require Import ZArith Lia Ascii.
From S2P Require Import Prelude Threads Money Balances Escrow Halt SettlementModel SettlementWorker.
Local Open Scope Z_scope.

(** ** Events *)
Record EngineMatchEvent := MatchEvent {
  me_event_id : Z; me_symbol : string; me_price : string; me_qty : string;
  me_taker_order_id : string; me_maker_order_id : string;
  me_taker_user_id : string; me_maker_user_id : string;
  me_taker_side : side; me_timestamp : Z;
  (** [""] until the client sets it *)
  me_match_engine_id : string;
}.
#[export] Instance EngineMatchEvent_eq_dec : EqDecision EngineMatchEvent.
Proof. solve_decision. Defined.

(** [{ ...e, match_engine_id: id }] *)
Definition tag (engineId : string) (e : EngineMatchEvent) : EngineMatchEvent :=
  MatchEvent (me_event_id e) (me_symbol e) (me_price e) (me_qty e) (me_taker_order_id e)
    (me_maker_order_id e) (me_taker_user_id e) (me_maker_user_id e) (me_taker_side e)
    (me_timestamp e) engineId.

Definition eventToPayload (ev : EngineMatchEvent) : json :=
  JObj [("event_id", JNum (Some (me_event_id ev))); ("match_engine_id", JStr (me_match_engine_id ev));
        ("symbol", JStr (me_symbol ev)); ("price", JStr (me_price ev)); ("qty", JStr (me_qty ev));
        ("taker_order_id", JStr (me_taker_order_id ev)); ("maker_order_id", JStr (me_maker_order_id ev));
        ("taker_user_id", JStr (me_taker_user_id ev)); ("maker_user_id", JStr (me_maker_user_id ev));
        ("taker_side", JStr (side_text (me_taker_side ev))); ("timestamp", JNum (Some (me_timestamp ev)))].

(** [ev.match_engine_id || 'default'] *)
Definition engine_or_default (s : string) : string := if String.eqb s "" then "default" else s.

(** [!existing] of a JSON value *)
Definition js_falsy (v : json) : bool :=
  match v with
  | JNull | JBool false | JNum None | JNum (Some 0) | JStr "" => true
  | _ => false
  end.

(** ** State *)

(** What the code calls for each event it shows on the live market. *)
Record ExecutedTrade := Executed {
  buyerId : string; sellerId : string; baseAsset : string; quoteAsset : string;
  ex_quantity : string; ex_price : string; quoteValue : decval;
}.

Record feed_db := FeedDb {
  fd_settle : settle_db;
  (** the sequence of [settlement_events.id] *)
  event_seq : Z;
  (** [settlement_engine_poll_cursor] *)
  poll_cursors : gmap string Z;
  (** [settlement_poller_cursor], the row with id 1 *)
  poller_cursor : Z;
  (** [engine_event_id] of the rows of [system_snapshots] *)
  snapshots : list Z;
  (** the match events each reachable engine keeps, as [GET /engine/matches] has them *)
  engines : gmap string (list EngineMatchEvent);
  (** the keys of [spot:engine_evt_dedup] *)
  redis_seen : gset (string * Z);
  (** [localSeen] of the process, in the order of [fifo] *)
  local_seen : list Z;
  (** the calls of [applyExecutedTrades] *)
  live_trades : list (string * ExecutedTrade);
}.

Definition set_settle (x : settle_db) (d : feed_db) : feed_db :=
  FeedDb x (event_seq d) (poll_cursors d) (poller_cursor d) (snapshots d) (engines d)
    (redis_seen d) (local_seen d) (live_trades d).
Definition set_seq (x : Z) (d : feed_db) : feed_db :=
  FeedDb (fd_settle d) x (poll_cursors d) (poller_cursor d) (snapshots d) (engines d)
    (redis_seen d) (local_seen d) (live_trades d).
Definition set_cursors (x : gmap string Z) (d : feed_db) : feed_db :=
  FeedDb (fd_settle d) (event_seq d) x (poller_cursor d) (snapshots d) (engines d)
    (redis_seen d) (local_seen d) (live_trades d).
Definition set_engines (x : gmap string (list EngineMatchEvent)) (d : feed_db) : feed_db :=
  FeedDb (fd_settle d) (event_seq d) (poll_cursors d) (poller_cursor d) (snapshots d) x
    (redis_seen d) (local_seen d) (live_trades d).
Definition set_live (r : gset (string * Z)) (l : list Z) (t : list (string * ExecutedTrade))
    (d : feed_db) : feed_db :=
  FeedDb (fd_settle d) (event_seq d) (poll_cursors d) (poller_cursor d) (snapshots d) (engines d) r l t.

(** ** The engine *)

(** [get_match_events_after] of the engine: the events are kept in the order of their ids. *)
Definition get_match_events_after (log : list EngineMatchEvent) (after_id : Z) :
    list EngineMatchEvent * Z :=
  (filter (λ e, after_id < me_event_id e) log, default 0 (me_event_id <$> last log)).

(** An engine that is not there does not answer. *)
Definition fetchMatchesForEngine (engineId : string) (afterId : Z) :
    M feed_db (Z * list EngineMatchEvent) :=
  let* log := gets (λ d, engines d !! engineId) in
  let* log := get_or log "fetch failed" in
  let '(evs, last_id) := get_match_events_after log afterId in
  ret (last_id, tag engineId <$> evs).

Section Feed.
Context `{DecimalJs, Runtime}.

(** ** [persistEngineMatchEvents] *)

(** [String(a.k ?? '') === String(b.k ?? '')] *)
Definition same_field (a b : json) (k : string) : bool :=
  String.eqb (text_or (json_field a k) "") (text_or (json_field b k) "").
Definition isSameMatchEvent (existing : option json) (incoming : json) : bool :=
  match existing with
  | None => false
  | Some v =>
      negb (js_falsy v)
      && forallb (same_field v incoming)
           ["match_engine_id"; "event_id"; "symbol"; "taker_order_id"; "maker_order_id";
            "taker_user_id"; "maker_user_id"; "taker_side"; "price"; "qty"]
  end.

(** [INSERT ... VALUES ($1, $2, $3::jsonb, 'pending') ON CONFLICT DO NOTHING]: whether a row
    was inserted. The sequence advances either way. *)
Definition insert_pending (mid : string) (eventId : Z) (payload : json) : M feed_db bool :=
  let* id := gets event_seq in
  modify (set_seq (id + 1)) ;;;
  let* existing := gets (λ d, find_event mid eventId (fd_settle d)) in
  match existing with
  | Some _ => ret false
  | None =>
      modify (λ d, set_settle (set_events (<[id := SettlementEvent mid eventId payload EvPending 0
                                                     None None]> (events (fd_settle d)))
                                (fd_settle d)) d) ;;;
      ret true
  end.

(** [SELECT payload ... WHERE match_engine_id = $1 AND engine_event_id = $2] *)
Definition stored_payload (mid : string) (eventId : Z) : M feed_db (option json) :=
  gets (λ d, ev_payload ∘ snd <$> find_event mid eventId (fd_settle d)).

(** [SELECT COALESCE(MAX(engine_event_id), 0) + 1 ... WHERE match_engine_id = $1] *)
Definition engine_event_ids (mid : string) (d : settle_db) : list Z :=
  (ev_engine_event ∘ snd) <$> filter (λ x, ev_engine (snd x) = mid) (map_to_list (events d)).
Definition next_event_id (mid : string) (d : settle_db) : Z :=
  match engine_event_ids mid d with
  | [] => 1
  | x :: l => foldr Z.max x l + 1
  end.

(** The loop of three attempts to insert under a new id. *)
Fixpoint reassign (attempts : list Z) (mid : string) (eventId : Z) (payload : json) :
    thread feed_db bool :=
  match attempts with
  | [] => tret false
  | attempt :: rest =>
      await* next_id := stmt (gets (λ d, next_event_id mid (fd_settle d))) in
      let nextId := if next_id =? 0 then eventId + attempt + 1 else next_id in
      await* ok := stmt (insert_pending mid nextId payload) in
      if ok then tret true else reassign rest mid eventId payload
  end.

Definition persist_one (inserted : Z) (ev : EngineMatchEvent) : thread feed_db Z :=
  let mid := engine_or_default (me_match_engine_id ev) in
  let payload := eventToPayload (tag mid ev) in
  await* fresh := stmt (insert_pending mid (me_event_id ev) payload) in
  if fresh then tret (inserted + 1)
  else
    await* existing := stmt (stored_payload mid (me_event_id ev)) in
    if isSameMatchEvent existing payload then tret inserted
    else
      await* again := reassign [0; 1; 2] mid (me_event_id ev) payload in
      tret (if again then inserted + 1 else inserted).

Definition persistEngineMatchEvents (evs : list EngineMatchEvent) : thread feed_db Z :=
  tfold persist_one 0 evs.

(** [i < retries], with the error of the last attempt. *)
Fixpoint persistEngineMatchEventsWithRetry (retries : nat) (lastErr : string)
    (evs : list EngineMatchEvent) : thread feed_db Z :=
  match retries with
  | O => tthrow lastErr
  | S n => tcatch (persistEngineMatchEvents evs) (λ e, persistEngineMatchEventsWithRetry n e evs)
  end.

(** ** Cursors *)
Definition getPollCursorForEngine (engineId : string) : M feed_db Z :=
  gets (λ d, default 0 (poll_cursors d !! engineId)).

(** [ON CONFLICT (engine_id) DO UPDATE SET last_after_id = GREATEST(...)] *)
Definition bumpPollCursorForEngine (engineId : string) (nextAfter : Z) : M feed_db unit :=
  modify (λ d, set_cursors (<[engineId := match poll_cursors d !! engineId with
                                          | Some c => Z.max c nextAfter
                                          | None => nextAfter
                                          end]> (poll_cursors d)) d).

Definition reconcilePollCursorIfEngineBehind (engineId : string) (dbAfterId engineLastId : Z) :
    thread feed_db bool :=
  if negb ((0 <? engineLastId) && (engineLastId <? dbAfterId)) then tret false
  else
    await* _ := stmt (modify (λ d, set_cursors (<[engineId := 0]> (poll_cursors d)) d)) in
    tret true.

(** [initializeRecoveryState]: the anchor of the latest snapshot, or 0. *)
Definition loadLatestSnapshot : M feed_db (option Z) :=
  gets (λ d, match snapshots d with [] => None | x :: l => Some (foldr Z.max x l) end).
Definition initializeRecoveryState : thread feed_db Z :=
  await* cursor := stmt (gets poller_cursor) in
  await* snapshot := stmt loadLatestSnapshot in
  match snapshot with
  | Some a => if cursor <? a then tthrow "RECOVERY_INVARIANT_VIOLATION" else tret a
  | None => tret 0
  end.

(** One fetch, and a second one from the start when the engine is behind the cursor: the
    cursor it ended with, the engine's last id and the events. *)
Definition fetch_or_rewind (engineId : string) (afterId : Z) :
    thread feed_db (Z * Z * list EngineMatchEvent) :=
  await* res := stmt (fetchMatchesForEngine engineId afterId) in
  let '(last_id, evs) := res in
  if bool_decide (evs = []) && (0 <? last_id) && (last_id <? afterId) then
    await* fixed := reconcilePollCursorIfEngineBehind engineId afterId last_id in
    if fixed then
      await* res := stmt (fetchMatchesForEngine engineId 0) in
      tret (0, fst res, snd res)
    else tret (afterId, last_id, evs)
  else tret (afterId, last_id, evs).

Definition max_event_id (afterId : Z) (evs : list EngineMatchEvent) : Z :=
  foldl (λ m e, if m <? me_event_id e then me_event_id e else m) afterId evs.

(** ** [pollOneEngine] *)
Definition poll_from (engineId : string) (afterId : Z) : thread feed_db bool :=
  tcatch
    (await* res := fetch_or_rewind engineId afterId in
     let '(afterId, last_id, evs) := res in
     if bool_decide (evs = []) then
       if afterId <? last_id then
         await* _ := stmt (bumpPollCursorForEngine engineId last_id) in tret true
       else tret true
     else
       await* _ := persistEngineMatchEvents evs in
       await* _ := stmt (bumpPollCursorForEngine engineId (max_event_id afterId evs)) in
       tret true)
    (λ _, tret false).

Definition pollOneEngine (engineId : string) : thread feed_db bool :=
  await* afterId := stmt (getPollCursorForEngine engineId) in
  if (afterId =? 0) && String.eqb engineId "default" then
    await* recoveryAnchor := initializeRecoveryState in
    if 0 <? recoveryAnchor then
      await* _ := stmt (bumpPollCursorForEngine engineId recoveryAnchor) in
      poll_from engineId recoveryAnchor
    else poll_from engineId afterId
  else poll_from engineId afterId.

(** ** The live market *)
Definition LOCAL_MAX : Z := 100000.

(** [config.spot.engineWsDedupUseRedis], [isNatsSpotPipelineConfigured()] and
    [config.spot.matchEventPersistRetries] *)
Record feed_config := FeedConfig { dedupUseRedis : bool; natsPipeline : bool; persistRetries : nat }.

(** The process-wide set: it is keyed by the event's id alone. *)
Definition consume_locally (eventId : Z) : M feed_db bool :=
  let* seen := gets local_seen in
  if bool_decide (eventId ∈ seen) then ret false
  else
    let fifo := seen ++ [eventId] in
    modify (λ d, set_live (redis_seen d) (drop (Z.to_nat (Z.of_nat (length fifo) - LOCAL_MAX)) fifo) (live_trades d) d) ;;;
    ret true.

(** [redis.setNxEx] *)
Definition consume_in_redis (mid : string) (eventId : Z) : M feed_db bool :=
  let* seen := gets redis_seen in
  if bool_decide ((mid, eventId) ∈ seen) then ret false
  else modify (λ d, set_live ({[(mid, eventId)]} ∪ redis_seen d) (local_seen d) (live_trades d) d) ;;;
       ret true.

Definition consumeEngineEventOnce (cfg : feed_config) (matchEngineId : string) (eventId : Z) :
    thread feed_db bool :=
  let mid := engine_or_default matchEngineId in
  if dedupUseRedis cfg then
    tcatch (stmt (consume_in_redis mid eventId)) (λ _, stmt (consume_locally eventId))
  else stmt (consume_locally eventId).

Definition buildExecutedTradeFromEngineEvent (ev : EngineMatchEvent) (base quote : string)
    (quotePrecision : Z) : option ExecutedTrade :=
  p ← parse_decimal (me_price ev);
  q ← parse_decimal (me_qty ev);
  let value := match p, q with
               | Fin a, Fin b => Fin (toDP quotePrecision (dtimes a b))
               | _, _ => NonFinite
               end in
  let buyer := match me_taker_side ev with Buy => me_taker_user_id ev | Sell => me_maker_user_id ev end in
  let seller := match me_taker_side ev with Buy => me_maker_user_id ev | Sell => me_taker_user_id ev end in
  Some (Executed buyer seller base quote (me_qty ev) (me_price ev) value).

(** [applyExecutedTrades], which updates the in-memory ticker: the call is recorded. *)
Definition show_trade (symbol : string) (t : ExecutedTrade) : M feed_db unit :=
  modify (λ d, set_live (redis_seen d) (local_seen d) (live_trades d ++ [(symbol, t)]) d).

Definition applyOneEngineEvent (cfg : feed_config) (symbol base quote : string) (quotePrecision : Z)
    (out : list ExecutedTrade) (ev : EngineMatchEvent) : thread feed_db (list ExecutedTrade) :=
  if negb (String.eqb (me_symbol ev) symbol) then tret out
  else
    let mid := engine_or_default (me_match_engine_id ev) in
    await* first := consumeEngineEventOnce cfg mid (me_event_id ev) in
    match first, natsPipeline cfg, buildExecutedTradeFromEngineEvent ev base quote quotePrecision with
    | false, false, _ => tret out
    | _, _, None => tthrow "[DecimalError] Invalid argument"
    | false, true, Some t => tret (out ++ [t])
    | true, _, Some t => await* _ := stmt (show_trade symbol t) in tret (out ++ [t])
    end.

(** ** What a request does with the matches of its order *)
Definition advanceCursorAfterFetch (engineId : string) (afterBefore last_id : Z)
    (evs : list EngineMatchEvent) : thread feed_db unit :=
  if negb (bool_decide (evs = [])) then
    stmt (bumpPollCursorForEngine engineId (max_event_id afterBefore evs))
  else if afterBefore <? last_id then stmt (bumpPollCursorForEngine engineId last_id)
  else tret tt.

(** The loop that pulls until there are events, at most [n] more times. *)
Fixpoint pull (engineId : string) (n : nat) : thread feed_db (Z * Z * list EngineMatchEvent) :=
  await* afterBefore := stmt (getPollCursorForEngine engineId) in
  await* res := fetch_or_rewind engineId afterBefore in
  match n, snd res with
  | S n', [] => pull engineId n'
  | _, _ => tret res
  end.

Definition syncEngineMatchesAfterPlace (cfg : feed_config) (engineId symbol base quote : string)
    (quotePrecision : Z) (pullRetriesOnEmpty : nat) : thread feed_db (list ExecutedTrade) :=
  let maxAttempts := Nat.max 1 (Nat.min pullRetriesOnEmpty 40) in
  await* _ := stmt (getPollCursorForEngine engineId) in
  await* res := pull engineId (pred maxAttempts) in
  let '(afterBefore, last_id, evs) := res in
  await* _ := (if bool_decide (evs = []) then tret 0
               else persistEngineMatchEventsWithRetry (persistRetries cfg) "undefined" evs) in
  await* _ := advanceCursorAfterFetch engineId afterBefore last_id evs in
  tfold (applyOneEngineEvent cfg symbol base quote quotePrecision) [] evs.

Definition applyInlineEngineEvents (cfg : feed_config) (engineId symbol base quote : string)
    (quotePrecision : Z) (evs : list EngineMatchEvent) : thread feed_db (list ExecutedTrade) :=
  let tagged := (λ e, if String.eqb (me_match_engine_id e) "" then tag engineId e else e) <$> evs in
  await* _ := (if bool_decide (tagged = []) then tret tt
               else
                 await* _ := persistEngineMatchEventsWithRetry (persistRetries cfg) "undefined" tagged in
                 let maxId := max_event_id 0 tagged in
                 if 0 <? maxId then stmt (bumpPollCursorForEngine engineId maxId) else tret tt) in
  tfold (applyOneEngineEvent cfg symbol base quote quotePrecision) [] tagged.

End Feed.
