(* ===== verification/Feed.v ===== *)
(** * Match feed: what runs keep

    Invariants of all interleavings of pollers, requests, the settlement worker and the
    engine, by the rely-guarantee rules of [Threads]: while the engine keeps its event ids
    every match is queued at most once and as it was, and without inline hand-over the
    cursor never passes a match that is not queued. *)
From stdpp Require Import base gmap strings list fin_maps relations pretty.
From Stdlib Require Import ZArith Lia Ascii.
From S2P Require Import Prelude Threads Money Balances Escrow Halt SettlementModel Settlement SettlementWorker SettlementRuns FeedModel.
Local Open Scope Z_scope.

(** ** The queue by its keys *)
Definition key_of (e : settlement_event) : string * Z * json := (ev_engine e, ev_engine_event e, ev_payload e).
Definition event_keys (d : settle_db) : gmap Z (string * Z * json) := key_of <$> events d.

Lemma event_keys_lookup d id : event_keys d !! id = key_of <$> events d !! id.
Proof. apply lookup_fmap. Qed.
Lemma event_keys_Some d id k : event_keys d !! id = Some k ↔ ∃ e, events d !! id = Some e ∧ k = key_of e.
Proof.
  rewrite event_keys_lookup. split.
  - intros (e & Hk & He)%fmap_Some. eauto.
  - intros (e & He & ->). by rewrite He.
Qed.

(** ** The settlement worker keeps the keys *)
Section WorkerKeys.
Context `{DecimalJs, Runtime}.

Lemma keys_alter id f d d' :
  (∀ e, key_of (f e) = key_of e) → events d' = alter f id (events d) → event_keys d' = event_keys d.
Proof.
  intros Hf Hev. apply map_eq. intros i. rewrite !event_keys_lookup, Hev.
  destruct (decide (id = i)) as [->|Hne].
  - rewrite lookup_alter_eq. destruct (events d !! i) as [e|]; simpl; [by rewrite Hf|done].
  - by rewrite lookup_alter_ne.
Qed.

Lemma keys_dlq ok id ev eng p err d : event_keys (appendSettlementDlq ok id ev eng p err d) = event_keys d.
Proof. unfold event_keys. by rewrite dlq_events. Qed.

Lemma keys_alter_event id f d : (∀ e, key_of (f e) = key_of e) → event_keys (alter_event id f d) = event_keys d.
Proof. intros Hf. by apply (keys_alter id f). Qed.

Lemma replay_keys env row d d' : replay_row env row d = Ret (tt, d') → event_keys d' = event_keys d.
Proof.
  unfold replay_row, update_event. intros Hrun.
  apply bind_Ret_inv in Hrun as (m & ? & Hm & Hrun). apply resolveMarketAssets_frame in Hm as ->.
  unfold decimal_of in Hrun. run_all Hrun. by apply (keys_alter_event _ (event_processed _)).
Qed.

Lemma process_keys env row d n d' :
  processSettlementEventRow env row d = Ret (n, d') → event_keys d' = event_keys d.
Proof.
  intros Hrun. apply process_inv in Hrun as [(_ & _ & Hr)|(_ & m & a & _ & _ & _ & Hs)].
  - by apply (replay_keys env row).
  - destruct Hs as (_ & _ & _ & _ & d1 & Hmv & Hrt).
    apply record_trade_inv in Hrt as (_ & _ & _ & _ & Hev & _).
    apply move_funds_inv in Hmv as (b0 & b1 & _ & _ & _ & _ & _ & _ & _ & Hev1 & _).
    rewrite Hev1 in Hev. by apply (keys_alter (row_id row) (event_processed (settled_hash env (row_payload row) a
      (ledger_deltas (row_payload row) m a (makerRebatesEnabled env))))).
Qed.

Lemma tick_case_keys t w id e o w' :
  events (w_db w) !! id = Some e → tick_case t w id e o w' → event_keys (w_db w') = event_keys (w_db w).
Proof.
  intros He Hcase. destruct Hcase as [msg _ _|msg _ _|p n d' Hn Hrun|p msg o w' Hn Hrun Hrec]; simpl.
  - rewrite keys_dlq. by apply keys_alter_event.
  - done.
  - by apply process_keys in Hrun.
  - apply (record_failure_db t (claimed_row id e p) msg w e) in Hrec; [|done].
    destruct Hrec; unfold row_dlq; rewrite ?keys_dlq; [done|by apply keys_alter_event..].
Qed.

Lemma drain_keys limit io w : event_keys (w_db (drain limit io w)) = event_keys (w_db w).
Proof.
  apply (drain_ind (λ w', event_keys (w_db w') = event_keys (w_db w))); [|done].
  intros t w1 o w2 Hrun Heq. rewrite <- Heq.
  apply processOneEvent_cases in Hrun as [(_ & -> & _)|(id & e & Hc & Hcase)]; [done|].
  apply claim_inv in Hc as (He & _). by apply (tick_case_keys t w1 id e o).
Qed.

Lemma runOnce_keys limit t io w : event_keys (w_db (runOnce limit t io w)) = event_keys (w_db w).
Proof.
  unfold runOnce. cbv zeta.
  destruct (w_halted (clear_stale_halt t w)); [by rewrite clear_stale_db|].
  destruct (global_halt t w); [by rewrite clear_stale_db|].
  destruct (circuit_open t w); [by rewrite clear_stale_db|].
  by rewrite drain_keys, clear_stale_db.
Qed.

Lemma replay_failed_keys picked d : event_keys (replay_failed picked d) = event_keys d.
Proof.
  apply map_eq. intros id. rewrite !event_keys_lookup, reopened_lookup, <- option_fmap_compose.
  apply option_fmap_ext. intros e. simpl. by case_bool_decide.
Qed.

(** ** The settlement stream *)

(** The message an engine publishes for an event: the consumer reads the event's fields in
    it. *)
Definition published (engine : string) (ev : EngineMatchEvent) (raw : json) : Prop :=
  stream_engine raw = engine ∧ js_number (json_field raw "event_id") = Some (me_event_id ev) ∧
  stream_payload raw engine (me_event_id ev) = eventToPayload ev.

(** What the consumer stores of it is what a poll stores. *)
Lemma published_payload eng ev raw p (d d' : settle_db) :
  tag eng ev = ev → published eng ev raw →
  normalizeSettlementPayload (stream_payload raw (stream_engine raw) (me_event_id ev)) d = Ret (p, d') →
  payload_json (with_engine p (stream_engine raw)) = eventToPayload ev.
Proof.
  intros Htag (-> & _ & ->). rewrite <- Htag. unfold normalizeSettlementPayload, eventToPayload, payload_of_object, json_field.
  destruct ev as [n sym pr q to mo tu mu [] ts g]; simpl; unfold bind, ret; simpl; intros [= <- <-]; done.
Qed.

(** A message leaves the queue as it is, or adds the row of its event. *)
Lemma message_keys t text raw eng ev w :
  JSON_parse text = Some raw → tag eng ev = ev → published eng ev raw → ∀ newId,
  event_keys (w_db (handleSettlementJsMessage t newId text w).2) = event_keys (w_db w)
  ∨ find_event eng (me_event_id ev) (w_db w) = None ∧ events (w_db w) !! newId = None ∧
    event_keys (w_db (handleSettlementJsMessage t newId text w).2)
    = <[newId := (eng, me_event_id ev, eventToPayload ev)]> (event_keys (w_db w)).
Proof.
  intros Hj Htag Hpub newId. destruct (message_db t newId text w) as [->|(raw' & Hj' & ->)]; [by left|]. simplify_eq.
  destruct (ingestAndSettleMatchEventFromJetStream _ _ _ _) as [o d'] eqn:E. simpl.
  unfold ingestAndSettleMatchEventFromJetStream in E.
  destruct o as [o|msg]; [|apply transaction_Throw in E as [_ ->]; by left].
  apply transaction_Ret, ingest_body_inv in E as (n & p & id & e & d1 & Hev & _ & Hn & _ & Hins & He & Hcase).
  pose proof Hpub as (Heng & Hid & _). rewrite Hid in Hev. injection Hev as <-.
  rewrite (published_payload eng ev raw p _ _ Htag Hpub Hn), Heng in Hins.
  assert (event_keys d' = event_keys d1) as ->.
  { destruct Hcase as [(_ & _ & ->)|(_ & pl & n & _ & _ & Hrun)]; [done|]. by apply process_keys in Hrun. }
  apply insert_event_inv in Hins as [(e' & -> & _)|(-> & Hf & Hnone & ->)]; [by left|].
  right. split_and!; [done|done|]. unfold event_keys. simpl. by rewrite fmap_insert.
Qed.
End WorkerKeys.

(** ** Events of the engines *)

(** An engine that keeps its ids counts its events from 1. *)
Definition numbered (log : list EngineMatchEvent) : Prop :=
  ∀ i ev, log !! i = Some ev → me_event_id ev = Z.of_nat (S i).

(** The match is queued, as it was. *)
Definition queued (engine : string) (ev : EngineMatchEvent) (d : feed_db) : Prop :=
  ∃ id, event_keys (fd_settle d) !! id = Some (engine, me_event_id ev, eventToPayload (tag engine ev)).

(** Every event the engine has up to [c] is queued. *)
Definition covered (engine : string) (c : Z) (d : feed_db) : Prop :=
  ∀ log ev, engines d !! engine = Some log → ev ∈ log → me_event_id ev ≤ c → queued engine ev d.
Definition within (engine : string) (c : Z) (d : feed_db) : Prop :=
  ∀ log, engines d !! engine = Some log → c ≤ Z.of_nat (length log).

Section Runs.
Context `{DecimalJs, Runtime}.
(** [inl]: whether requests hand matches on inline. [lost]: the key of a match that is not
    queued although the cursor has passed it, if there is one. *)
Context (inl : bool) (lost : option (string * Z)).

Record feed_ok (d : feed_db) : Prop := {
  fo_books : books (fd_settle d);
  fo_unique : ∀ i j g n p p', event_keys (fd_settle d) !! i = Some (g, n, p) →
                event_keys (fd_settle d) !! j = Some (g, n, p') → i = j;
  fo_seq : ∀ id k, event_keys (fd_settle d) !! id = Some k → id < event_seq d;
  fo_logs : ∀ eng log, engines d !! eng = Some log → eng ≠ "" ∧ numbered log;
  fo_genuine : ∀ id g n p log, event_keys (fd_settle d) !! id = Some (g, n, p) →
                 engines d !! g = Some log →
                 ∃ ev, ev ∈ log ∧ n = me_event_id ev ∧ p = eventToPayload (tag g ev);
  fo_anchors : snapshots d = [];
  fo_within : ∀ eng c, poll_cursors d !! eng = Some c → within eng c d;
  fo_covered : inl = false → ∀ eng c, poll_cursors d !! eng = Some c → covered eng c d;
  fo_lost : ∀ eng n, lost = Some (eng, n) →
    (∃ c, poll_cursors d !! eng = Some c ∧ n ≤ c) ∧ ∀ id p, event_keys (fd_settle d) !! id ≠ Some (eng, n, p);
}.

(** What every step leaves: queued rows keep their key and payload, logs only grow. *)
Definition grows (d d' : feed_db) : Prop :=
  event_keys (fd_settle d) ⊆ event_keys (fd_settle d') ∧
  ∀ eng, option_Forall2 prefix (engines d !! eng) (engines d' !! eng).

Lemma grows_refl d : grows d d.
Proof. split; [done|]. intros eng. destruct (engines d !! eng); by constructor. Qed.

Lemma grows_trans d1 d2 d3 : grows d1 d2 → grows d2 d3 → grows d1 d3.
Proof.
  intros [Hk1 Hl1] [Hk2 Hl2]. split; [by etrans|]. intros eng. specialize (Hl1 eng). specialize (Hl2 eng).
  destruct Hl1; inversion Hl2; subst; constructor. by etrans.
Qed.

Lemma grows_log d d' eng log : grows d d' → engines d !! eng = Some log →
  ∃ l, engines d' !! eng = Some (log ++ l).
Proof.
  intros [_ Hl] He. specialize (Hl eng). rewrite He in Hl. inversion Hl as [? log' [l ->]|]; subst. eauto.
Qed.

Lemma grows_log_inv d d' eng log' : grows d d' → engines d' !! eng = Some log' →
  ∃ log l, engines d !! eng = Some log ∧ log' = log ++ l.
Proof.
  intros [_ Hl] He. specialize (Hl eng). rewrite He in Hl. inversion Hl as [log ? [l ->]|]; subst. eauto.
Qed.

(** A step that only touches cursors and the live market. *)
Definition same_feed (d d' : feed_db) : Prop :=
  event_keys (fd_settle d') = event_keys (fd_settle d) ∧ engines d' = engines d.

Lemma same_grows d d' : same_feed d d' → grows d d'.
Proof.
  intros [Hk He]. split; [by rewrite Hk|]. intros eng. rewrite He. destruct (engines d !! eng); by constructor.
Qed.

Lemma numbered_id log ev : numbered log → ev ∈ log → 1 ≤ me_event_id ev ≤ Z.of_nat (length log).
Proof.
  intros Hn [i Hi]%list_elem_of_lookup. rewrite (Hn i ev Hi).
  apply lookup_lt_Some in Hi. lia.
Qed.

Lemma numbered_unique log ev ev' : numbered log → ev ∈ log → ev' ∈ log →
  me_event_id ev = me_event_id ev' → ev = ev'.
Proof.
  intros Hn [i Hi]%list_elem_of_lookup [j Hj]%list_elem_of_lookup Heq.
  rewrite (Hn i ev Hi), (Hn j ev' Hj) in Heq. assert (i = j) as -> by lia. congruence.
Qed.

Lemma numbered_old log l ev : numbered (log ++ l) → ev ∈ log ++ l →
  me_event_id ev ≤ Z.of_nat (length log) → ev ∈ log.
Proof.
  intros Hn [i Hi]%list_elem_of_lookup Hle. rewrite (Hn i ev Hi) in Hle.
  rewrite lookup_app_l in Hi by lia. by apply list_elem_of_lookup_2 in Hi.
Qed.

Lemma tag_tag g ev : tag g (tag g ev) = tag g ev.
Proof. done. Qed.

(** An event the engine has, with the engine's name on it. *)
Definition is_event (engine : string) (ev : EngineMatchEvent) (d : feed_db) : Prop :=
  lost ≠ Some (engine, me_event_id ev) ∧
  ∃ log ev0, engines d !! engine = Some log ∧ ev0 ∈ log ∧ ev = tag engine ev0.

Notation stable := (stable feed_ok grows).

Lemma queued_stable eng ev : stable (queued eng ev).
Proof. intros d d' _ _ [id Hid] [Hk _]. exists id. by apply (lookup_weaken (event_keys (fd_settle d))). Qed.

Lemma is_event_stable eng ev : stable (is_event eng ev).
Proof.
  intros d d' _ _ (Hne & log & ev0 & Hl & Hin & ->) HG. destruct (grows_log _ _ _ _ HG Hl) as [l Hl'].
  split; [done|]. exists (log ++ l), ev0. split; [done|]. split; [|done]. apply elem_of_app. by left.
Qed.

Lemma within_stable eng c : stable (within eng c).
Proof.
  intros d d' _ _ Hw HG log' Hl'. destruct (grows_log_inv _ _ _ _ HG Hl') as (log & l & Hl & ->).
  specialize (Hw log Hl). rewrite length_app. lia.
Qed.

Lemma covered_stable eng c : stable (λ d, within eng c d ∧ covered eng c d).
Proof.
  intros d d' Hd Hd' [Hw Hc] HG. split; [by apply (within_stable eng c d)|].
  intros log' ev Hl' Hin Hle. pose proof (fo_logs _ Hd' _ _ Hl') as [_ Hn].
  destruct (grows_log_inv _ _ _ _ HG Hl') as (log & l & Hl & ->). specialize (Hw log Hl).
  apply (queued_stable eng ev d d' Hd Hd'); [|done].
  apply (Hc log); [done| |done]. apply (numbered_old log l); [done|done|lia].
Qed.

(** ** Statements *)
Notation spec := (spec feed_ok grows).
Implicit Types d : feed_db.

Lemma find_event_keys g n (d : settle_db) :
  match find_event g n d with
  | Some (id, e) => events d !! id = Some e ∧ ev_engine e = g ∧ ev_engine_event e = n
  | None => ∀ id p, event_keys d !! id ≠ Some (g, n, p)
  end.
Proof.
  destruct (find_event g n d) as [[id e]|] eqn:E; [by apply find_event_Some|].
  intros id p (e & He & [= -> -> _])%event_keys_Some.
  unfold find_event in E. apply elem_of_map_to_list, list_elem_of_In in He.
  pose proof (List.find_none _ _ E _ He) as Hf. simpl in Hf. by rewrite String.eqb_refl, Z.eqb_refl in Hf.
Qed.

(** The row an event's key leads to is the event. *)
Lemma genuine_row d eng ev id e :
  feed_ok d → is_event eng ev d → events (fd_settle d) !! id = Some e →
  ev_engine e = eng → ev_engine_event e = me_event_id ev → ev_payload e = eventToPayload ev.
Proof.
  intros Hd (_ & log & ev0 & Hl & Hin & ->) He Heng Hid. pose proof (fo_logs _ Hd _ _ Hl) as [_ Hn].
  destruct (fo_genuine _ Hd id (ev_engine e) (ev_engine_event e) (ev_payload e) log) as (ev1 & Hin1 & Hid1 & Hp).
  - apply event_keys_Some. eauto.
  - by rewrite Heng.
  - assert (ev1 = ev0) as -> by (apply (numbered_unique log); [done..|]; simpl in Hid; congruence).
    by rewrite Hp, Heng.
Qed.

Lemma queued_key d eng ev id e :
  events (fd_settle d) !! id = Some e → ev_engine e = eng → ev_engine_event e = me_event_id ev →
  ev_payload e = eventToPayload (tag eng ev) → queued eng ev d.
Proof. intros He <- Hid Hp. exists id. apply event_keys_Some. exists e. unfold key_of. by rewrite Hid, Hp. Qed.

Lemma feed_ok_same d d' :
  same_feed d d' → books (fd_settle d') → event_seq d ≤ event_seq d' → snapshots d' = snapshots d →
  (∀ eng c, poll_cursors d' !! eng = Some c → within eng c d ∧ (inl = false → covered eng c d)) →
  (∀ eng c, poll_cursors d !! eng = Some c → ∃ c', poll_cursors d' !! eng = Some c' ∧ c ≤ c') →
  feed_ok d → feed_ok d'.
Proof.
  intros [Hk He] Hb Hs Ha Hc Hup Hd. split; rewrite ?Hk, ?He, ?Ha; try apply Hd; [done| | | |].
  - intros id k Hid. apply (fo_seq _ Hd) in Hid. lia.
  - intros eng c Hp. destruct (Hc eng c Hp) as [Hw _]. unfold within in *. by rewrite He.
  - intros Hi eng c Hp. destruct (Hc eng c Hp) as [_ Hv]. specialize (Hv Hi).
    unfold covered, queued in *. by rewrite He, Hk.
  - intros eng n Hl. destruct (fo_lost _ Hd eng n Hl) as [(c & Hc' & Hle) Hno]. split; [|done].
    destruct (Hup eng c Hc') as (c' & ? & ?). exists c'. split; [done|lia].
Qed.

Lemma cursors_kept d eng c :
  feed_ok d → poll_cursors d !! eng = Some c → within eng c d ∧ (inl = false → covered eng c d).
Proof. intros Hd Hc. split; [by apply (fo_within _ Hd)|]. intros Hi. by apply (fo_covered _ Hd Hi). Qed.

(** A new row of a genuine event. *)
Lemma feed_ok_insert d eng ev :
  feed_ok d → is_event eng ev d → find_event eng (me_event_id ev) (fd_settle d) = None →
  let e := SettlementEvent eng (me_event_id ev) (eventToPayload ev) EvPending 0 None None in
  let d' := set_settle (set_events (<[event_seq d := e]> (events (fd_settle d))) (fd_settle d))
              (set_seq (event_seq d + 1) d) in
  feed_ok d' ∧ grows d d' ∧ queued eng ev d'.
Proof.
  intros Hd Hev Hf e d'. pose proof Hev as (Hlost & log & ev0 & Hl & Hin & ->).
  assert (events (fd_settle d) !! event_seq d = None) as Hnew.
  { destruct (events (fd_settle d) !! event_seq d) as [e0|] eqn:E0; [|done].
    assert (event_seq d < event_seq d); [|lia]. apply (fo_seq _ Hd _ (key_of e0)).
    apply event_keys_Some. eauto. }
  assert (event_keys (fd_settle d') = <[event_seq d := key_of e]> (event_keys (fd_settle d))) as Hk
    by (unfold event_keys; simpl; by rewrite fmap_insert).
  assert (event_keys (fd_settle d) !! event_seq d = None) as Hkn by (by rewrite event_keys_lookup, Hnew).
  change (find_event eng (me_event_id ev0) (fd_settle d) = None) in Hf.
  pose proof (find_event_keys eng (me_event_id ev0) (fd_settle d)) as Hno. rewrite Hf in Hno.
  assert (grows d d') as HG.
  { split; [rewrite Hk; by apply insert_subseteq|]. intros g. simpl.
    destruct (engines d !! g); by constructor. }
  split; [|split; [done|]].
  - split; [..| |exact (fo_anchors _ Hd)|exact (fo_within _ Hd)| |].
    + apply (insert_event_books (event_seq d) eng (me_event_id ev0) (eventToPayload (tag eng ev0))
        (fd_settle d) (event_seq d)); [|apply Hd].
      unfold insert_event, bind, gets. rewrite Hf, Hnew. done.
    + rewrite Hk. intros i j g n p p'. rewrite !lookup_insert_Some.
      intros [[<- [= <- <- <-]]|[? Hi]] [[<- [=]]|[? Hj]]; simpl in *; subst;
        [done|by apply Hno in Hj|by apply Hno in Hi|by apply (fo_unique _ Hd i j g n p p')].
    + rewrite Hk. intros id k. rewrite lookup_insert_Some. change (event_seq d') with (event_seq d + 1).
      intros [[<- _]|[_ Hid]]; [lia|]. apply (fo_seq _ Hd) in Hid. lia.
    + exact (fo_logs _ Hd).
    + rewrite Hk. intros id g n p log'. rewrite lookup_insert_Some.
      intros [[_ [= <- <- <-]]|[_ Hid]] Hl'; [|by apply (fo_genuine _ Hd id)].
      change (engines d !! eng = Some log') in Hl'. exists ev0. by simplify_eq.
    + intros Hi g c Hc log' ev' Hl' Hin' Hle. destruct (fo_covered _ Hd Hi g c Hc log' ev' Hl' Hin' Hle) as [id Hid].
      exists id. rewrite Hk. apply lookup_insert_Some. right. split; [|done]. intros <-. congruence.
    + rewrite Hk. intros g n Hg. destruct (fo_lost _ Hd g n Hg) as [Hcur Hno']. split; [exact Hcur|].
      intros id p. rewrite lookup_insert_Some. intros [[_ [= <- <- _]]|[_ Hid]]; [done|by apply Hno' in Hid].
  - exists (event_seq d). rewrite Hk, lookup_insert_eq. by destruct ev0.
Qed.

(** A message of the stream. *)
Lemma feed_ok_message d eng ev t text raw w :
  feed_ok d → is_event eng ev d → JSON_parse text = Some raw → published eng ev raw → w_db w = fd_settle d →
  let d' := set_settle (w_db (handleSettlementJsMessage t (event_seq d) text w).2) (set_seq (event_seq d + 1) d) in
  feed_ok d' ∧ grows d d'.
Proof.
  intros Hd Hev Hj Hpub Hw d'.
  assert (tag eng ev = ev) as Htag by (by destruct Hev as (_ & log & ev0 & _ & _ & ->)).
  assert (books (fd_settle d')) as Hb
    by (apply (sys_step_books w); [rewrite Hw; apply Hd|apply step_message]).
  destruct (message_keys t text raw eng ev w Hj Htag Hpub (event_seq d)) as [Hk|(Hf & _ & Hk)]; rewrite Hw in *.
  - assert (same_feed d d') as Hs by done. split; [|by apply same_grows].
    apply (feed_ok_same d); [done|done|simpl; lia|done|by intros; apply cursors_kept|by eauto with lia|done].
  - destruct (feed_ok_insert d eng ev Hd Hev Hf) as (Hd1 & HG & _).
    set (d1 := set_settle _ _) in Hd1, HG.
    assert (same_feed d1 d') as Hs.
    { split; [|done]. change (event_keys (fd_settle d')) with (event_keys (w_db (handleSettlementJsMessage t (event_seq d) text w).2)).
      rewrite Hk. unfold event_keys. simpl. by rewrite fmap_insert. }
    split; [|apply (grows_trans d d1); [done|by apply same_grows]].
    apply (feed_ok_same d1); [done|done|simpl; lia|done|by intros; apply cursors_kept|by eauto with lia|done].
Qed.

(** ** Persisting *)
Lemma event_engine d eng ev :
  feed_ok d → is_event eng ev d → engine_or_default (me_match_engine_id ev) = eng ∧ tag eng ev = ev.
Proof.
  intros Hd (_ & log & ev0 & Hl & _ & ->). destruct (fo_logs _ Hd _ _ Hl) as [Hne _].
  split; [|done]. simpl. unfold engine_or_default. by destruct (String.eqb_spec eng "").
Qed.

Lemma spec_insert_pending eng ev :
  tag eng ev = ev →
  spec (is_event eng ev) (stmt (insert_pending eng (me_event_id ev) (eventToPayload ev)))
    (λ o d, is_event eng ev d ∧ match o with Ret _ => queued eng ev d | Throw _ => True end).
Proof.
  intros Htag. apply (spec_stmt _ _ grows_refl); [exact (is_event_stable eng ev)|by intros|]. intros d Hd Hev.
  unfold insert_pending, bind, gets, modify, ret. simpl.
  destruct (find_event eng (me_event_id ev) (fd_settle d)) as [[id e]|] eqn:Ef; simpl.
  - pose proof (find_event_Some _ _ _ _ _ Ef) as (He & Heng & Hid).
    assert (same_feed d (set_seq (event_seq d + 1) d)) as Hs by done.
    split_and!; [|by apply same_grows|done|].
    + apply (feed_ok_same d); [done|apply Hd|simpl; lia|done|by intros; apply cursors_kept|by eauto with lia|done].
    + apply (queued_key _ eng ev id e); [done..|]. rewrite Htag. by apply (genuine_row d eng ev id).
  - destruct (feed_ok_insert d eng ev Hd Hev Ef) as (Hd' & HG & Hq). split_and!; [done|done| |done].
    by apply (is_event_stable eng ev d).
Qed.

Lemma same_payload ev : isSameMatchEvent (Some (eventToPayload ev)) (eventToPayload ev) = true.
Proof. unfold isSameMatchEvent. simpl. unfold same_field. by rewrite !String.eqb_refl. Qed.

Lemma spec_stored_payload eng ev :
  tag eng ev = ev →
  spec (λ d, is_event eng ev d ∧ queued eng ev d) (stmt (stored_payload eng (me_event_id ev)))
    (λ o d, queued eng ev d ∧ match o with Ret p => p = Some (eventToPayload ev) | Throw _ => True end).
Proof.
  intros Htag. apply (spec_stmt _ _ grows_refl); [apply stable_and; [exact (is_event_stable eng ev)|exact (queued_stable eng ev)]|by intros ? ? []|].
  intros d Hd [Hev Hq]. unfold stored_payload, gets. split; [done|]. split; [apply grows_refl|].
  split; [done|]. destruct Hq as [id Hid]. pose proof (find_event_keys eng (me_event_id ev) (fd_settle d)) as Hf.
  destruct (find_event _ _ _) as [[j e]|] eqn:E; [|by apply Hf in Hid]. simpl. f_equal.
  destruct Hf as (He & Heng & Hn). by apply (genuine_row d eng ev j).
Qed.

Lemma spec_persist_one n eng ev :
  spec (is_event eng ev) (persist_one n ev)
    (λ o d, match o with Ret _ => queued eng ev d | Throw _ => True end).
Proof.
  intros d Hd Hev. destruct (event_engine d eng ev Hd Hev) as [Hmid Htag]. revert d Hd Hev.
  unfold persist_one. rewrite Hmid, Htag.
  eapply spec_bind; [by apply spec_insert_pending| |done]. intros [].
  { apply spec_ret. by intros d _ [_ ?]. }
  eapply spec_bind; [by apply spec_stored_payload| |done]. intros p d Hd [Hq ->].
  rewrite same_payload. by split.
Qed.

Definition all_events (eng : string) (l : list EngineMatchEvent) (d : feed_db) : Prop :=
  ∀ ev, ev ∈ l → is_event eng ev d.
Definition all_queued (eng : string) (l : list EngineMatchEvent) (d : feed_db) : Prop :=
  ∀ ev, ev ∈ l → queued eng ev d.

Lemma all_events_stable eng l : stable (all_events eng l).
Proof. intros d d' Hd Hd' Ha HG ev Hin. apply (is_event_stable eng ev d); auto. Qed.
Lemma all_queued_stable eng l : stable (all_queued eng l).
Proof. intros d d' Hd Hd' Ha HG ev Hin. apply (queued_stable eng ev d); auto. Qed.

Lemma spec_persist eng evs :
  spec (all_events eng evs) (persistEngineMatchEvents evs)
    (λ o d, all_events eng evs d ∧ match o with Ret _ => all_queued eng evs d | Throw _ => True end).
Proof.
  eapply spec_pre; [intros d _ Ha; exact (conj Ha Ha)|]. apply spec_frame; [exact (all_events_stable eng evs)|].
  set (P (_ : Z) (l : list EngineMatchEvent) d :=
    all_events eng l d ∧ ∀ ev, ev ∈ evs → queued eng ev d ∨ ev ∈ l).
  apply (spec_pre _ _ _ (P 0 evs)); [intros d _ Ha; split; [done|auto]|].
  apply (spec_fold _ _ P).
  - intros n x l. eapply spec_pre; [|eapply spec_post; [|apply (spec_frame _ _ (P n (x :: l)));
      [|apply (spec_persist_one n eng x)]]].
    + intros d _ HP. split; [done|]. destruct HP as [Ha _]. apply Ha. left.
    + intros [n'|e] d _ [[Ha Hq] Hx]; [|done]. split; [intros ev Hin; apply Ha; by right|].
      intros ev Hin. destruct (Hq ev Hin) as [?|Hin']; [by left|].
      apply elem_of_cons in Hin' as [->|?]; auto.
    + intros d d' Hd Hd' [Ha Hq] HG. split; [by apply (all_events_stable eng (x :: l) d)|].
      intros ev Hin. destruct (Hq ev Hin) as [Hq'|?]; [left|by right]. by apply (queued_stable eng ev d).
  - intros n d _ [_ Hq] ev Hin. destruct (Hq ev Hin) as [?|Hn]; [done|]. by apply not_elem_of_nil in Hn.
Qed.

Lemma spec_persist_retry eng evs n e :
  spec (all_events eng evs) (persistEngineMatchEventsWithRetry n e evs)
    (λ o d, match o with Ret _ => all_queued eng evs d | Throw _ => True end).
Proof.
  revert e. induction n as [|n IH]; intros e; simpl; [by apply spec_throw|].
  eapply spec_catch; [apply spec_persist|by intros ? ? _ [_ ?]|]. intros e'.
  eapply spec_pre; [|apply IH]. by intros d _ [? _].
Qed.

(** ** Cursors *)
Definition cursor_ok (eng : string) (c : Z) (d : feed_db) : Prop :=
  within eng c d ∧ (inl = false → covered eng c d).
(** A fetch after [c] does not bring the lost match. *)
Definition past_lost (eng : string) (c : Z) : Prop := ∀ n, lost = Some (eng, n) → n ≤ c.
Definition read_ok (eng : string) (c : Z) (d : feed_db) : Prop := past_lost eng c ∧ cursor_ok eng c d.

Lemma cursor_ok_stable eng c : stable (cursor_ok eng c).
Proof.
  intros d d' Hd Hd' [Hw Hc] HG. split; [by apply (within_stable eng c d)|]. intros Hi.
  by apply (covered_stable eng c d d' Hd Hd' (conj Hw (Hc Hi)) HG).
Qed.

Lemma read_ok_stable eng c : stable (read_ok eng c).
Proof. apply stable_and; [apply stable_const|exact (cursor_ok_stable eng c)]. Qed.

Lemma cursor_ok_le eng c c' d : c' ≤ c → cursor_ok eng c d → cursor_ok eng c' d.
Proof.
  intros Hle [Hw Hc]. split; [intros log Hl; specialize (Hw log Hl); lia|].
  intros Hi log ev Hl Hin Hid. apply (Hc Hi log); [done..|lia].
Qed.

Lemma cursor_ok_0 eng d : feed_ok d → cursor_ok eng 0 d.
Proof.
  intros Hd. split; [intros log _; lia|]. intros _ log ev Hl Hin Hid.
  destruct (fo_logs _ Hd _ _ Hl) as [_ Hn]. pose proof (numbered_id _ _ Hn Hin). lia.
Qed.

Lemma feed_ok_cursors d m :
  feed_ok d → (∀ eng c, m !! eng = Some c → cursor_ok eng c d) →
  (∀ eng c, poll_cursors d !! eng = Some c → ∃ c', m !! eng = Some c' ∧ c ≤ c') →
  feed_ok (set_cursors m d) ∧ grows d (set_cursors m d).
Proof.
  intros Hd Hm Hup. split; [|by apply same_grows].
  by apply (feed_ok_same d); [done|apply Hd|simpl; lia|done| | |done].
Qed.

Lemma spec_getPollCursor eng :
  spec (λ _, True) (stmt (getPollCursorForEngine eng))
    (λ o d, match o with Ret c => read_ok eng c d | Throw _ => True end).
Proof.
  apply (spec_stmt _ _ grows_refl); [apply stable_const|done|]. intros d Hd _.
  split; [done|]. split; [apply grows_refl|].
  assert (∀ n, lost = Some (eng, n) → ∃ c, poll_cursors d !! eng = Some c ∧ n ≤ c) as Hl
    by (intros n Hn; by apply (fo_lost _ Hd)).
  destruct (poll_cursors d !! eng) as [c|] eqn:E; simpl; (split; [intros n Hn|]).
  - destruct (Hl n Hn) as (c' & ? & ?). by simplify_eq.
  - by apply cursors_kept.
  - by destruct (Hl n Hn) as (c' & ? & ?).
  - by apply cursor_ok_0.
Qed.

Lemma spec_bump eng c :
  spec (cursor_ok eng c) (stmt (bumpPollCursorForEngine eng c)) (λ _ _, True).
Proof.
  apply (spec_stmt _ _ grows_refl); [apply cursor_ok_stable|done|]. intros d Hd Hc.
  unfold bumpPollCursorForEngine, modify. apply and_assoc. split; [|done]. apply feed_ok_cursors; [done| |].
  - intros eng' c'. rewrite lookup_insert_Some. intros [[<- <-]|[_ Hc']]; [|by apply cursors_kept].
    destruct (poll_cursors d !! eng) as [c0|] eqn:E; [|done].
    destruct (Z.max_spec c0 c) as [[_ ->]|[_ ->]]; [done|by apply cursors_kept].
  - intros eng' c' Hc'. destruct (decide (eng = eng')) as [->|Hne].
    + rewrite lookup_insert_eq, Hc'. eexists. split; [done|lia].
    + rewrite lookup_insert_ne by done. eauto with lia.
Qed.

(** What a fetch after [c] brings: the engine's events up to [last_id] that are above [c]. *)
Definition fetched (eng : string) (c last_id : Z) (evs : list EngineMatchEvent) (d : feed_db) : Prop :=
  all_events eng evs d ∧ within eng last_id d ∧ (∀ ev, ev ∈ evs → me_event_id ev ≤ last_id) ∧
  c ≤ last_id ∧
  ∀ log ev, engines d !! eng = Some log → ev ∈ log → me_event_id ev ≤ last_id →
    me_event_id ev ≤ c ∨ tag eng ev ∈ evs.

Lemma fetched_stable eng c last_id evs : stable (fetched eng c last_id evs).
Proof.
  intros d d' Hd Hd' (Ha & Hw & Hle & Hc & Hev) HG. split_and!; [by apply (all_events_stable eng evs d)
    |by apply (within_stable eng last_id d)|done|done|].
  intros log' ev Hl' Hin Hid. pose proof (fo_logs _ Hd' _ _ Hl') as [_ Hn].
  destruct (grows_log_inv _ _ _ _ HG Hl') as (log & l & Hl & ->). specialize (Hw log Hl).
  apply (Hev log); [done| |done]. apply (numbered_old log l); [done|done|lia].
Qed.

Lemma last_numbered log : numbered log → default 0 (me_event_id <$> last log) = Z.of_nat (length log).
Proof.
  intros Hn. destruct log as [|e log] using rev_ind; [done|]. rewrite last_snoc. simpl.
  rewrite (Hn (length log) e) by (rewrite lookup_app_r, Nat.sub_diag; [done|lia]).
  by rewrite length_app, Nat.add_1_r.
Qed.

Lemma spec_fetch eng c :
  spec (read_ok eng c) (stmt (fetchMatchesForEngine eng c))
    (λ o d, match o with Ret (last_id, evs) => fetched eng c last_id evs d | Throw _ => True end).
Proof.
  apply (spec_stmt _ _ grows_refl); [apply read_ok_stable|done|]. intros d Hd [Hpast [Hw _]].
  unfold fetchMatchesForEngine, bind, gets, get_or. destruct (engines d !! eng) as [log|] eqn:E; simpl; [|done].
  destruct (fo_logs _ Hd _ _ E) as [_ Hn]. rewrite (last_numbered _ Hn).
  split; [done|]. split; [apply grows_refl|]. split_and!.
  - intros ev (ev0 & -> & [Hlt Hin]%list_elem_of_filter)%list_elem_of_fmap. split; [|by exists log, ev0].
    intros Hl. specialize (Hpast _ Hl). simpl in Hpast. lia.
  - intros log' Hl'. by simplify_eq.
  - intros ev (ev0 & -> & [_ Hin]%list_elem_of_filter)%list_elem_of_fmap. simpl.
    by apply (numbered_id log).
  - by apply Hw.
  - intros log' ev Hl' Hin Hid. simplify_eq. destruct (Z.le_gt_cases (me_event_id ev) c); [by left|right].
    apply list_elem_of_fmap. exists ev. split; [done|]. by apply list_elem_of_filter.
Qed.

Lemma spec_fetch_or_rewind eng c :
  spec (read_ok eng c) (fetch_or_rewind eng c)
    (λ o d, match o with
            | Ret (a, last_id, evs) => a = c ∧ cursor_ok eng c d ∧ fetched eng c last_id evs d
            | Throw _ => True
            end).
Proof.
  eapply spec_bind.
  { eapply spec_pre; [intros d _ Hc; exact (conj Hc Hc)|].
    apply spec_frame; [exact (read_ok_stable eng c)|apply spec_fetch]. }
  2: done. intros [last_id evs]. simpl. intros d Hd [[_ Hc] Hf]. pose proof Hf as (_ & _ & _ & Hle & _).
  assert (bool_decide (evs = []) && (0 <? last_id) && (last_id <? c) = false) as Hno.
  { apply andb_false_iff. right. by apply Z.ltb_ge. }
  by rewrite Hno.
Qed.

Lemma max_event_id_spec c evs last_id :
  c ≤ last_id → (∀ ev, ev ∈ evs → me_event_id ev ≤ last_id) → c ≤ max_event_id c evs ≤ last_id.
Proof.
  unfold max_event_id. revert c. induction evs as [|ev evs IH]; intros c Hc Hle; simpl; [lia|].
  assert (me_event_id ev ≤ last_id) by (apply Hle; left).
  specialize (IH (if c <? me_event_id ev then me_event_id ev else c)).
  destruct (Z.ltb_spec c (me_event_id ev)); (assert (∀ e, e ∈ evs → me_event_id e ≤ last_id) as Hle'
    by (intros e He; apply Hle; by right)); specialize (IH ltac:(lia) Hle'); lia.
Qed.

(** After the fetched events are queued, the cursor may go up to the engine's last id. *)
Lemma cursor_after_fetch eng c last_id evs d :
  cursor_ok eng c d → fetched eng c last_id evs d → all_queued eng evs d → cursor_ok eng last_id d.
Proof.
  intros [_ Hcov] (_ & Hw & _ & _ & Hev) Hq. split; [done|]. intros Hi log ev Hl Hin Hid.
  destruct (Hev log ev Hl Hin Hid) as [Hle|Hin']; [by apply (Hcov Hi log)|].
  destruct (Hq _ Hin') as [id Hk]. by exists id.
Qed.

Lemma spec_advance eng c last_id evs :
  spec (λ d, cursor_ok eng c d ∧ fetched eng c last_id evs d ∧ all_queued eng evs d)
    (advanceCursorAfterFetch eng c last_id evs) (λ _ _, True).
Proof.
  unfold advanceCursorAfterFetch. destruct (negb _).
  - eapply spec_pre; [|apply spec_bump]. intros d _ (Hc & Hf & Hq).
    pose proof (cursor_after_fetch _ _ _ _ _ Hc Hf Hq). destruct Hf as (_ & _ & Hle & Hcl & _).
    apply (cursor_ok_le eng last_id); [|done]. by apply max_event_id_spec.
  - destruct (c <? last_id); [|by apply spec_ret].
    eapply spec_pre; [|apply spec_bump]. intros d _ (Hc & Hf & Hq). by apply (cursor_after_fetch eng c last_id evs).
Qed.

(** ** The handlers *)
Lemma spec_poll_from eng c : spec (read_ok eng c) (poll_from eng c) (λ _ _, True).
Proof.
  eapply spec_catch with (R := λ _ _, True); [|done|by intros e; apply spec_ret].
  eapply spec_bind; [apply spec_fetch_or_rewind| |done].
  intros [[a last_id] evs]. cbv beta iota. intros d Hd (-> & Hc & Hf). revert d Hd Hc Hf.
  assert (∀ (t : thread feed_db bool), spec (λ d, cursor_ok eng c d ∧ fetched eng c last_id evs d) t (λ _ _, True) →
    ∀ d, feed_ok d → cursor_ok eng c d → fetched eng c last_id evs d →
      safe feed_ok grows t (λ _ _, True) d) as Hcurry by (intros t Ht d Hd ? ?; by apply Ht).
  apply Hcurry. clear Hcurry. case_bool_decide as He.
  - destruct (c <? last_id); [|by apply spec_ret].
    eapply spec_bind; [|by intros a'; apply spec_ret|done].
    eapply spec_pre; [|apply (spec_bump eng last_id)]. intros d _ [Hc Hf].
    apply (cursor_after_fetch eng c last_id evs); [done|done|]. subst evs. intros ev Hin. by apply not_elem_of_nil in Hin.
  - eapply spec_bind.
    { eapply spec_pre; [|apply (spec_frame _ _ (λ d, cursor_ok eng c d ∧ fetched eng c last_id evs d));
        [apply stable_and; [exact (cursor_ok_stable eng c)|exact (fetched_stable eng c last_id evs)]
        |apply (spec_persist eng evs)]].
      intros d _ [Hc Hf]. split; [done|]. apply Hf. }
    2: done. intros n. eapply spec_bind; [|by intros a'; apply spec_ret|done].
    eapply spec_pre; [|apply spec_bump]. intros d _ ([Hc Hf] & _ & Hq).
    pose proof (cursor_after_fetch _ _ _ _ _ Hc Hf Hq). destruct Hf as (_ & _ & Hle & Hcl & _).
    apply (cursor_ok_le eng last_id); [|done]. by apply max_event_id_spec.
Qed.

Lemma spec_recovery (P : feed_db → Prop) :
  stable P →
  spec P initializeRecoveryState
    (λ o d, P d ∧ match o with Ret a => (0 <? a) = false | Throw _ => True end).
Proof.
  intros HP. unfold initializeRecoveryState.
  eapply (spec_bind _ _ _ _ _ (λ _ d, P d)); [| |by auto].
  { apply (spec_stmt _ _ grows_refl); [done|done|]. intros d Hd Hp. split_and!; [done|apply grows_refl|done]. }
  intros cursor.
  eapply (spec_bind _ _ _ _ _ (λ o d, P d ∧ match o with Ret (Some a) => False | _ => True end));
    [| |by intros e d _ [? _]].
  { apply (spec_stmt _ _ grows_refl); [done|by auto|]. intros d Hd Hp. simpl.
    split_and!; [done|apply grows_refl|done|]. by rewrite (fo_anchors _ Hd). }
  intros [a|]; [by intros d Hd [_ []]|]. by apply spec_ret; intros d _ [? _].
Qed.

Lemma spec_pollOneEngine eng : spec (λ _, True) (pollOneEngine eng) (λ _ _, True).
Proof.
  eapply spec_bind; [apply spec_getPollCursor| |done]. intros c. cbv beta iota.
  destruct ((c =? 0) && String.eqb eng "default"); [|apply spec_poll_from].
  eapply spec_bind; [apply spec_recovery, read_ok_stable| |done].
  intros a d Hd [Hc Ha]. simpl in Ha. rewrite Ha. by apply spec_poll_from.
Qed.

(** Events shown on the live market change nothing that is kept. *)
Lemma spec_live {A} (m : M feed_db A) (P : feed_db → Prop) :
  stable P →
  (∀ d, match m d with Ret (_, d') => ∃ r l t, d' = set_live r l t d | Throw _ => True end) →
  spec P (stmt m) (λ _ d, P d).
Proof.
  intros HP Hm. apply (spec_stmt _ _ grows_refl); [done|done|]. intros d Hd Hp. specialize (Hm d).
  destruct (m d) as [[a d']|e]; [|done]. destruct Hm as (r & l & t & ->).
  assert (feed_ok (set_live r l t d)) as Hd'.
  { apply (feed_ok_same d); [done|apply Hd|simpl; lia|done| |by eauto with lia|done]. intros. by apply cursors_kept. }
  assert (grows d (set_live r l t d)) as HG by (by apply same_grows).
  split_and!; [done|done|]. by apply (HP d).
Qed.

Lemma set_live_id d : d = set_live (redis_seen d) (local_seen d) (live_trades d) d.
Proof. by destruct d. Qed.

Lemma spec_consume cfg g n : spec (λ _, True) (consumeEngineEventOnce cfg g n) (λ _ _, True).
Proof.
  assert (spec (λ _, True) (stmt (consume_locally n)) (λ _ _, True)) as Hl.
  { apply spec_live; [apply stable_const|]. intros d. unfold consume_locally, bind, gets, ret, modify.
    case_bool_decide; [eauto using set_live_id|eauto]. }
  unfold consumeEngineEventOnce. destruct (dedupUseRedis cfg); [|done].
  eapply spec_catch with (R := λ _ _, True); [|done|by intros].
  apply spec_live; [apply stable_const|]. intros d. unfold consume_in_redis, bind, gets, ret, modify.
  case_bool_decide; [eauto using set_live_id|eauto].
Qed.

Lemma spec_apply_events cfg symbol b q n out evs :
  spec (λ _, True) (tfold (applyOneEngineEvent cfg symbol b q n) out evs) (λ _ _, True).
Proof.
  apply (spec_fold _ _ (λ _ _ _, True)); [|done]. intros acc ev l.
  eapply spec_post with (Q' := λ _ _, True); [by intros [?|?]|]. unfold applyOneEngineEvent.
  destruct (negb _); [by apply spec_ret|].
  eapply spec_bind with (R := λ _ _, True); [apply spec_consume| |done]. intros first.
  destruct first, (natsPipeline cfg), (buildExecutedTradeFromEngineEvent ev b q n); cbv beta iota;
    try (by apply spec_ret); try (by apply spec_throw);
    (eapply spec_bind with (R := λ _ _, True); [|by intros; apply spec_ret|done];
     apply spec_live; [apply stable_const|]; intros d; simpl; eauto).
Qed.

Lemma spec_pull eng n :
  spec (λ _, True) (pull eng n)
    (λ o d, match o with
            | Ret (a, last_id, evs) => cursor_ok eng a d ∧ fetched eng a last_id evs d
            | Throw _ => True
            end).
Proof.
  induction n as [|n IH]; cbn [pull].
  all: eapply spec_bind; [apply spec_getPollCursor| |done]; intros c; cbv beta iota.
  all: eapply spec_bind; [apply spec_fetch_or_rewind| |done]; intros [[a last_id] evs]; cbn [snd].
  - apply spec_ret. by intros d _ (-> & ? & ?).
  - destruct evs as [|ev evs]; [|apply spec_ret; by intros d _ (-> & ? & ?)].
    by eapply spec_pre; [|apply IH].
Qed.

Lemma spec_sync cfg eng symbol b q n k :
  spec (λ _, True) (syncEngineMatchesAfterPlace cfg eng symbol b q n k) (λ _ _, True).
Proof.
  eapply spec_bind with (R := λ _ _, True); [by eapply spec_post; [|apply spec_getPollCursor]| |done].
  intros c0. cbv beta iota. eapply spec_bind; [apply spec_pull| |done].
  intros [[a last_id] evs]. cbv beta iota.
  assert (spec (λ d, cursor_ok eng a d ∧ fetched eng a last_id evs d)
    (if bool_decide (evs = []) then tret 0 else persistEngineMatchEventsWithRetry (persistRetries cfg) "undefined" evs)
    (λ o d, (cursor_ok eng a d ∧ fetched eng a last_id evs d) ∧
            match o with Ret _ => all_queued eng evs d | Throw _ => True end)) as Hp.
  { eapply spec_pre; [intros d _ Hcf; exact (conj Hcf (proj1 (proj2 Hcf)))|].
    apply spec_frame; [apply stable_and; [exact (cursor_ok_stable eng a)|exact (fetched_stable eng a last_id evs)]|].
    case_bool_decide as He; [|apply spec_persist_retry].
    apply spec_ret. intros d _ _ ev Hin. subst. by apply not_elem_of_nil in Hin. }
  eapply spec_bind; [exact Hp| |done]. intros n'.
  eapply spec_bind with (R := λ _ _, True); [|intros []; apply spec_apply_events|done].
  eapply spec_pre; [|apply spec_advance]. by intros d _ [[? ?] ?].
Qed.

(** Inline hand-over: only the bound on the cursor is kept. *)
Lemma spec_inline cfg eng symbol b q n evs :
  inl = true → (∀ ev, ev ∈ evs → tag eng ev = ev) → eng ≠ "" →
  spec (all_events eng evs) (applyInlineEngineEvents cfg eng symbol b q n evs) (λ _ _, True).
Proof.
  intros Hi Htag Hne. unfold applyInlineEngineEvents.
  assert ((λ e, if String.eqb (me_match_engine_id e) "" then tag eng e else e) <$> evs = evs) as ->.
  { rewrite <- (list_fmap_id evs) at 2. apply list_fmap_ext. intros i ev Hev.
    apply list_elem_of_lookup_2, Htag in Hev. destruct (String.eqb _ _); [done|done]. }
  eapply spec_bind with (R := λ _ _, True); [|intros []; apply spec_apply_events|done].
  case_bool_decide; [by apply spec_ret|].
  eapply spec_bind.
  { eapply spec_pre; [intros d _ Ha; exact (conj Ha Ha)|].
    apply (spec_frame _ _ (all_events eng evs)); [exact (all_events_stable eng evs)|apply spec_persist_retry]. }
  2: done. intros k. destruct (0 <? max_event_id 0 evs); [|by apply spec_ret].
  eapply spec_pre; [|apply spec_bump]. intros d Hd [Ha _]. split; [|by rewrite Hi].
  intros log Hl. destruct (fo_logs _ Hd _ _ Hl) as [_ Hn].
  apply (max_event_id_spec 0 evs (Z.of_nat (length log))); [lia|].
  intros ev Hin. destruct (Ha ev Hin) as (_ & log' & ev0 & Hl' & Hin0 & ->). simplify_eq. simpl.
  by apply (numbered_id log).
Qed.
End Runs.
