(* ===== verification/FeedRuns.v ===== *)
(** * Match feed: theorems

    The invariants of [Feed] for all interleavings from an empty queue, what a poll
    achieves, how its rows are settled, and the two ways the feed goes wrong: a cursor
    that an inline hand-over moved past another request's match, and an engine that
    restarts its ids. *)
From stdpp Require Import base gmap strings list fin_maps relations pretty.
From Stdlib Require Import ZArith Lia Ascii.
From S2P Require Import Prelude Threads Money Balances Escrow Halt SettlementModel Settlement SettlementWorker SettlementRuns FeedModel Feed.
Local Open Scope Z_scope.

Section FeedRuns.
Context `{DecimalJs, Runtime}.

(** ** All interleavings *)

(** Beside the handlers: the engine matches, the settlement worker runs, the stream's
    consumer gets the message of an event (once or many times, before or after the pollers
    queue it), and an operator replays failed events. With [lost], the message of the lost
    event does not come. *)
Inductive feed_env (lost : option (string * Z)) : feed_db → feed_db → Prop :=
  | env_match eng log ev d :
      engines d !! eng = Some log → me_event_id ev = Z.of_nat (S (length log)) →
      feed_env lost d (set_engines (<[eng := log ++ [ev]]> (engines d)) d)
  | env_settle limit t io w d :
      w_db w = fd_settle d → feed_env lost d (set_settle (w_db (runOnce limit t io w)) d)
  | env_message eng ev t text raw w d :
      is_event lost eng ev d → JSON_parse text = Some raw → published eng ev raw → w_db w = fd_settle d →
      feed_env lost d (set_settle (w_db (handleSettlementJsMessage t (event_seq d) text w).2)
                         (set_seq (event_seq d + 1) d))
  | env_replay picked d : feed_env lost d (set_settle (replay_failed picked (fd_settle d)) d).

(** A poller, a request that pulls, and, if [inl], a request that hands its matches on. *)
Inductive feed_starts (inl : bool) (lost : option (string * Z)) : feed_db → thread feed_db unit → Prop :=
  | start_poll eng d : feed_starts inl lost d (await* _ := pollOneEngine eng in tret tt)
  | start_sync cfg eng symbol b q n k d :
      feed_starts inl lost d (await* _ := syncEngineMatchesAfterPlace cfg eng symbol b q n k in tret tt)
  | start_inline cfg eng symbol b q n evs d :
      inl = true → all_events lost eng evs d → (∀ ev, ev ∈ evs → tag eng ev = ev) → eng ≠ "" →
      feed_starts inl lost d (await* _ := applyInlineEngineEvents cfg eng symbol b q n evs in tret tt).

Definition feed_step (inl : bool) (lost : option (string * Z)) :
    feed_db * list (thread feed_db unit) → feed_db * list (thread feed_db unit) → Prop :=
  pool_step (feed_env lost) (feed_starts inl lost).

(** Nothing is queued and nothing was polled. *)
Record fresh (d : feed_db) : Prop := {
  fr_books : books (fd_settle d);
  fr_events : events (fd_settle d) = ∅;
  fr_logs : ∀ eng log, engines d !! eng = Some log → eng ≠ "" ∧ numbered log;
  fr_anchors : snapshots d = [];
  fr_cursors : poll_cursors d = ∅;
}.

Lemma fresh_ok inl d : fresh d → feed_ok inl None d.
Proof.
  intros [Hb He Hl Ha Hc]. assert (event_keys (fd_settle d) = ∅) as Hk
    by (unfold event_keys; rewrite He; apply fmap_empty).
  split; try done; rewrite ?Hk, ?Hc; intros *; by rewrite ?lookup_empty.
Qed.

Lemma env_ok inl lost d d' : feed_ok inl lost d → feed_env lost d d' → feed_ok inl lost d' ∧ grows d d'.
Proof.
  intros Hd Henv. destruct Henv as [eng log ev d He Hid|limit t io w d Hw|eng ev t text raw w d Hev Hj Hpub Hw|picked d].
  - assert (grows d (set_engines (<[eng := log ++ [ev]]> (engines d)) d)) as HG.
    { split; [done|]. intros g. simpl. destruct (decide (eng = g)) as [->|Hne].
      - rewrite He, lookup_insert_eq. constructor. by exists [ev].
      - rewrite lookup_insert_ne by done. destruct (engines d !! g); by constructor. }
    split; [|done].
    assert (∀ g log', <[eng := log ++ [ev]]> (engines d) !! g = Some log' → g ≠ "" ∧ numbered log') as Hlogs.
    { intros g log' Hg. apply lookup_insert_Some in Hg as [[<- <-]|[_ Hg]]; [|by apply (fo_logs _ _ _ Hd)].
      destruct (fo_logs _ _ _ Hd _ _ He) as [Hne Hn]. split; [done|].
      intros i ev' [Hi|[Hi Hl]]%lookup_app_Some; [by apply Hn|].
      apply list_lookup_singleton_Some in Hl as [Hz <-]. rewrite Hid. lia. }
    assert (∀ g log' ev', <[eng := log ++ [ev]]> (engines d) !! g = Some log' → ev' ∈ log' →
      ∃ log0, engines d !! g = Some log0 ∧ (ev' ∈ log0 ∨ Z.of_nat (length log0) < me_event_id ev')) as Hin.
    { intros g log' ev' [[<- <-]|[_ Hg]]%lookup_insert_Some Hin; [|eauto].
      exists log. split; [done|]. apply elem_of_app in Hin as [Hin| ->%list_elem_of_singleton]; [by left|].
      right. lia. }
    split; simpl; try apply Hd; [done| | |].
    + intros id g n p log' Hk Hg. destruct (decide (eng = g)) as [<-|Hne].
      * rewrite lookup_insert_eq in Hg. injection Hg as <-.
        destruct (fo_genuine _ _ _ Hd id eng n p log Hk He) as (ev0 & Hin0 & ?). exists ev0.
        split; [|done]. apply elem_of_app. by left.
      * rewrite lookup_insert_ne in Hg by done. by apply (fo_genuine _ _ _ Hd id).
    + intros g c Hc log' Hg. cbn [engines set_engines] in Hg. apply lookup_insert_Some in Hg as [[<- <-]|[_ Hg]];
        [|by apply (fo_within _ _ _ Hd g c Hc)].
      pose proof (fo_within _ _ _ Hd eng c Hc log He). rewrite length_app. lia.
    + intros Hi g c Hc log' ev' Hg Hin' Hle. cbn [engines set_engines] in Hg. destruct (Hin g log' ev' Hg Hin') as (log0 & Hg0 & [Hin0|Hgt]).
      * by apply (fo_covered _ _ _ Hd Hi g c Hc log0).
      * pose proof (fo_within _ _ _ Hd g c Hc log0 Hg0). lia.
  - assert (event_keys (w_db (runOnce limit t io w)) = event_keys (fd_settle d)) as Hk
      by (by rewrite runOnce_keys, Hw).
    assert (same_feed d (set_settle (w_db (runOnce limit t io w)) d)) as Hs by done.
    split; [|by apply same_grows].
    apply (feed_ok_same _ _ d); [done| |simpl; lia|done| |by eauto with lia|done].
    + simpl. apply (sys_step_books w); [rewrite Hw; apply Hd|apply step_tick].
    + intros. by apply (cursors_kept inl lost).
  - by apply (feed_ok_message inl lost d eng ev t text raw).
  - assert (same_feed d (set_settle (replay_failed picked (fd_settle d)) d)) as Hs
      by (split; [apply replay_failed_keys|done]).
    split; [|by apply same_grows].
    apply (feed_ok_same _ _ d); [done| |simpl; lia|done| |by eauto with lia|done].
    + apply books_reopened, Hd.
    + intros. by apply (cursors_kept inl lost).
Qed.

Lemma starts_safe inl lost d t :
  feed_ok inl lost d → feed_starts inl lost d t → safe (feed_ok inl lost) grows t (λ _ _, True) d.
Proof.
  intros Hd Hs. assert (∀ A (p : thread feed_db A) (P : feed_db → Prop),
    spec (feed_ok inl lost) grows P p (λ _ _, True) → P d →
    safe (feed_ok inl lost) grows (await* _ := p in tret tt) (λ _ _, True) d) as Hdone.
  { intros A p P Hp HP. revert d Hd HP Hs. intros d Hd HP _.
    eapply spec_bind with (R := λ _ _, True); [exact Hp|by intros; apply spec_ret|done|done|exact HP]. }
  destruct Hs as [eng d|cfg eng symbol b q n k d|cfg eng symbol b q n evs d Hi Ha Ht Hne].
  - by apply (Hdone _ _ _ (spec_pollOneEngine inl lost eng)).
  - by apply (Hdone _ _ _ (spec_sync inl lost cfg eng symbol b q n k)).
  - by apply (Hdone _ _ _ (spec_inline inl lost cfg eng symbol b q n evs Hi Ht Hne)).
Qed.

Lemma feed_runs_ok inl lost d d' ts :
  feed_ok inl lost d → rtc (feed_step inl lost) (d, []) (d', ts) → feed_ok inl lost d'.
Proof.
  intros Hd Hrun.
  assert (all_safe (feed_ok inl lost) grows (d', ts)) as [Hd' _]; [|done].
  apply (pool_safe _ _ grows_refl grows_trans (feed_env lost) (feed_starts inl lost) (d, []) (d', ts)); [by apply env_ok|by intros; apply starts_safe|done|].
  split; [done|constructor].
Qed.

(** C34. While the engines keep their event ids, the settlement queue holds their matches as
    they were and each at most once: over all interleavings of pollers, pulling requests and
    requests that hand their matches on, with database failures and crashes anywhere, the
    engines matching, the worker settling, the stream's consumer getting the messages of
    events in any order and number, and replays of failed events, every queued row of an
    engine is one of its events under that event's id, two rows with the same payload are the
    same row, and a row has settlement ledger rows (four) exactly when it says processed. An
    engine that counts from 1 again is outside these runs ([restarted_match_requeued]). *)
Theorem matches_queued_once (d d' : feed_db) (ts : list (thread feed_db unit)) :
  fresh d → rtc (feed_step true None) (d, []) (d', ts) →
  (∀ id e log, events (fd_settle d') !! id = Some e → engines d' !! ev_engine e = Some log →
     ∃ ev, ev ∈ log ∧ ev_engine_event e = me_event_id ev ∧
       ev_payload e = eventToPayload (tag (ev_engine e) ev)) ∧
  (∀ i j ei ej, events (fd_settle d') !! i = Some ei → events (fd_settle d') !! j = Some ej →
     is_Some (engines d' !! ev_engine ei) → ev_engine ei = ev_engine ej → ev_payload ei = ev_payload ej → i = j) ∧
  (∀ id e, events (fd_settle d') !! id = Some e →
     length (event_rows id (ledger (fd_settle d')))
     = (if decide (ev_status e = EvProcessed) then 4 else 0)%nat).
Proof.
  intros Hf Hrun. pose proof (feed_runs_ok _ _ _ _ _ (fresh_ok true d Hf) Hrun) as Hd.
  assert (∀ id e log, events (fd_settle d') !! id = Some e → engines d' !! ev_engine e = Some log →
     ∃ ev, ev ∈ log ∧ ev_engine_event e = me_event_id ev ∧
       ev_payload e = eventToPayload (tag (ev_engine e) ev)) as Hgen.
  { intros id e log He Hl.
    destruct (fo_genuine _ _ _ Hd id (ev_engine e) (ev_engine_event e) (ev_payload e) log) as (ev & ? & ? & ?);
      [apply event_keys_Some; eauto|done|eauto]. }
  split; [done|]. split.
  - intros i j ei ej Hi Hj [log Hl] Heng Hp.
    destruct (Hgen i ei log Hi Hl) as (ev1 & _ & Hid1 & Hp1). rewrite Heng in Hl.
    destruct (Hgen j ej log Hj Hl) as (ev2 & _ & Hid2 & Hp2).
    rewrite Hp1, Hp2 in Hp. injection Hp as Hid.
    apply (fo_unique _ _ _ Hd i j (ev_engine ei) (ev_engine_event ei) (ev_payload ei) (ev_payload ej));
      apply event_keys_Some; eexists; (split; [done|]); unfold key_of; [done|]. by rewrite Heng, Hid1, Hid2, Hid.
  - intros id e He. pose proof (bk_rows _ (fo_books _ _ _ Hd) id) as Hr.
    destruct (bk_four _ (fo_books _ _ _ Hd) id) as [Hz|H4].
    + rewrite Hz in *. destruct (decide _) as [Hp|]; [|done]. exfalso.
      by apply (proj2 Hr); [exists e|].
    + rewrite H4. destruct (proj1 Hr) as (e' & He' & Hp); [by intros Hz; rewrite Hz in H4|].
      simplify_eq. by destruct (decide _).
Qed.

(** When requests pull instead of handing their matches on, the cursor never passes a
    match that is not queued: in every interleaving each event of an engine up to the
    engine's cursor is in the settlement queue, so a failed or crashed request or poll only
    delays its matches. *)
Theorem cursor_never_skips (d d' : feed_db) (ts : list (thread feed_db unit)) (eng : string) (c : Z)
    (log : list EngineMatchEvent) (ev : EngineMatchEvent) :
  fresh d → rtc (feed_step false None) (d, []) (d', ts) →
  poll_cursors d' !! eng = Some c → engines d' !! eng = Some log → ev ∈ log → me_event_id ev ≤ c →
  ∃ id e, events (fd_settle d') !! id = Some e ∧ ev_engine e = eng ∧
    ev_engine_event e = me_event_id ev ∧ ev_payload e = eventToPayload (tag eng ev).
Proof.
  intros Hf Hrun Hc Hl Hin Hle. pose proof (feed_runs_ok _ _ _ _ _ (fresh_ok false d Hf) Hrun) as Hd.
  destruct (fo_covered _ _ _ Hd eq_refl eng c Hc log ev Hl Hin Hle) as [id Hid].
  apply event_keys_Some in Hid as (e & He & Hk). injection Hk as -> -> ->. eauto 10.
Qed.

(** ** A match the cursor has passed is lost *)
Lemma lost_ok d eng n c :
  feed_ok true None d → poll_cursors d !! eng = Some c → n ≤ c →
  (∀ id p, event_keys (fd_settle d) !! id ≠ Some (eng, n, p)) → feed_ok true (Some (eng, n)) d.
Proof. intros Hd Hc Hle Hno. split; try apply Hd. intros eng' n' [= <- <-]. eauto. Qed.

(** A match the cursor has passed is lost. A request hands its own matches on and moves
    the cursor to the highest of their ids, whatever is below: if a match with a lower id,
    of another request that has not stored it (and fails or crashes before it does), is not
    queued then, no poll and no pull that runs afterwards, in any interleaving with further
    matches, settlement, and hand-overs and stream messages of other matches, ever queues it:
    unless its own stream message comes, the funds of that trade are never exchanged. *)
Theorem passed_match_is_lost (d d1 d2 : feed_db) (ts1 ts2 : list (thread feed_db unit))
    (eng : string) (n c : Z) :
  fresh d → rtc (feed_step true None) (d, []) (d1, ts1) →
  poll_cursors d1 !! eng = Some c → n ≤ c →
  (∀ id e, events (fd_settle d1) !! id = Some e → ev_engine e = eng → ev_engine_event e ≠ n) →
  rtc (feed_step true (Some (eng, n))) (d1, []) (d2, ts2) →
  ∀ id e, events (fd_settle d2) !! id = Some e → ev_engine e = eng → ev_engine_event e ≠ n.
Proof.
  intros Hf Hrun Hc Hle Hno Hrun2 id e He Heng Hn.
  pose proof (feed_runs_ok _ _ _ _ _ (fresh_ok true d Hf) Hrun) as Hd1.
  assert (feed_ok true (Some (eng, n)) d1) as Hl1.
  { apply (lost_ok d1 eng n c Hd1 Hc Hle). intros i p (e1 & He1 & [= Hg Hn1 _])%event_keys_Some.
    by apply (Hno i e1). }
  pose proof (feed_runs_ok _ _ _ _ _ Hl1 Hrun2) as Hd2.
  destruct (fo_lost _ _ _ Hd2 eng n eq_refl) as [_ Hnever]. apply (Hnever id (ev_payload e)).
  apply event_keys_Some. exists e. unfold key_of. by rewrite Heng, Hn.
Qed.

(** ** A poll that is left alone *)

(** A program none of whose statements throws. *)
Definition completes {A} (t : thread feed_db A) : Prop := ∀ d, ∃ a d', alone t d = (Ret a, d').

Lemma completes_ret {A} (a : A) : completes (tret a).
Proof. intros d. by exists a, d. Qed.
Lemma completes_stmt {A} (m : M feed_db A) : (∀ d, ∃ a d', m d = Ret (a, d')) → completes (stmt m).
Proof. intros Hm d. destruct (Hm d) as (a & d' & E). exists a, d'. simpl. unfold transaction. by rewrite E. Qed.
Lemma completes_bind {A B} (t : thread feed_db A) (f : A → thread feed_db B) :
  completes t → (∀ a, completes (f a)) → completes (tbind t f).
Proof.
  intros Ht Hf d. rewrite alone_bind. destruct (Ht d) as (a & d' & ->). apply Hf.
Qed.
Lemma completes_fold {A B} (f : B → A → thread feed_db B) l acc :
  (∀ acc x, completes (f acc x)) → completes (tfold f acc l).
Proof.
  intros Hf. revert acc. induction l as [|x l IH]; intros acc; simpl; [apply completes_ret|].
  by apply completes_bind.
Qed.

Lemma insert_pending_total mid n p d : ∃ a d', insert_pending mid n p d = Ret (a, d').
Proof.
  unfold insert_pending, bind, gets, modify, ret. simpl. destruct (find_event _ _ _); by do 2 eexists.
Qed.

Lemma persist_completes evs : completes (persistEngineMatchEvents evs).
Proof.
  apply completes_fold. intros n ev. unfold persist_one.
  apply completes_bind; [apply completes_stmt, insert_pending_total|]. intros []; [apply completes_ret|].
  apply completes_bind; [apply completes_stmt; by do 2 eexists|]. intros ex.
  destruct (isSameMatchEvent _ _); [apply completes_ret|].
  apply completes_bind; [|by intros; apply completes_ret].
  generalize [0; 1; 2]. intros l. induction l as [|k l IH]; cbn [reassign]; [apply completes_ret|].
  apply completes_bind; [apply completes_stmt; by do 2 eexists|]. intros next.
  apply completes_bind; [apply completes_stmt, insert_pending_total|]. intros []; [apply completes_ret|apply IH].
Qed.

Lemma max_event_id_ge c evs ev : ev ∈ evs → me_event_id ev ≤ max_event_id c evs.
Proof.
  unfold max_event_id. revert c. induction evs as [|e evs IH]; intros c Hin; simpl; [by apply not_elem_of_nil in Hin|].
  apply elem_of_cons in Hin as [->|Hin]; [|by apply IH].
  assert (∀ c', c' ≤ foldl (λ m e, if m <? me_event_id e then me_event_id e else m) c' evs) as Hge.
  { clear. induction evs as [|e evs IH]; intros c'; simpl; [lia|].
    specialize (IH (if c' <? me_event_id e then me_event_id e else c')). destruct (Z.ltb_spec c' (me_event_id e)); lia. }
  specialize (Hge (if c <? me_event_id e then me_event_id e else c)). destruct (Z.ltb_spec c (me_event_id e)); lia.
Qed.

Lemma bump_alone eng c d :
  ∃ d', alone (stmt (bumpPollCursorForEngine eng c)) d = (Ret tt, d') ∧
    ∃ c', poll_cursors d' !! eng = Some c' ∧ c ≤ c'.
Proof.
  eexists. split; [done|]. simpl. rewrite lookup_insert_eq. eexists. split; [done|].
  destruct (poll_cursors d !! eng); lia.
Qed.

(** The last event of a log that is ahead of the cursor is fetched. *)
Lemma fetch_alone eng c d log :
  engines d !! eng = Some log → numbered log →
  ∃ evs, fetchMatchesForEngine eng c d = Ret (Z.of_nat (length log), evs, d) ∧
    (log ≠ [] → c < Z.of_nat (length log) → ∃ ev, ev ∈ evs ∧ me_event_id ev = Z.of_nat (length log)).
Proof.
  intros Hl Hn. unfold fetchMatchesForEngine, get_match_events_after, bind, gets, get_or, ret.
  rewrite Hl. simpl. rewrite (last_numbered _ Hn). eexists. split; [reflexivity|]. intros Hne Hlt.
  destruct log as [|e log _] using rev_ind; [done|].
  assert (me_event_id e = Z.of_nat (length (log ++ [e]))) as Hid.
  { rewrite (Hn (length log) e) by (rewrite lookup_app_r, Nat.sub_diag; [done|lia]).
    by rewrite length_app, Nat.add_1_r. }
  exists (tag eng e). split; [|done]. apply list_elem_of_fmap. exists e. split; [done|].
  apply list_elem_of_filter. split; [lia|]. apply elem_of_app. right. by apply list_elem_of_singleton.
Qed.

Lemma poll_from_alone eng c d log :
  engines d !! eng = Some log → numbered log → c ≤ Z.of_nat (length log) →
  c = default 0 (poll_cursors d !! eng) →
  ∃ d', alone (poll_from eng c) d = (Ret true, d') ∧
    (log = [] ∨ ∃ c', poll_cursors d' !! eng = Some c' ∧ Z.of_nat (length log) ≤ c').
Proof.
  intros Hl Hn Hle Hc. destruct (fetch_alone eng c d log Hl Hn) as (evs & Hfetch & Hlast).
  unfold poll_from. rewrite alone_catch, alone_bind.
  assert (alone (fetch_or_rewind eng c) d = (Ret (c, Z.of_nat (length log), evs), d)) as ->.
  { unfold fetch_or_rewind. rewrite alone_bind. cbn [alone stmt]. unfold transaction. rewrite Hfetch.
    cbv beta iota. replace (Z.of_nat (length log) <? c) with false by (symmetry; by apply Z.ltb_ge).
    by rewrite andb_false_r. }
  cbv beta iota. case_bool_decide as He.
  - destruct (decide (log = [])) as [->|Hne].
    { destruct (c <? _); [|by exists d; split; [|left]].
      rewrite alone_bind. destruct (bump_alone eng (Z.of_nat (length ([] : list EngineMatchEvent))) d) as (d' & -> & _).
      exists d'. by split; [|left]. }
    assert (c = Z.of_nat (length log)) as Hc'.
    { destruct (Z.lt_ge_cases c (Z.of_nat (length log))) as [Hlt|]; [|lia].
      destruct (Hlast Hne Hlt) as (ev & Hin & _). subst evs. by apply not_elem_of_nil in Hin. }
    rewrite <- Hc', Z.ltb_irrefl. exists d. split; [done|]. right.
    destruct (poll_cursors d !! eng) as [c0|] eqn:E; simpl in Hc; [exists c0; split; [done|lia]|].
    destruct log; [done|]. simpl in Hc'. lia.
  - rewrite alone_bind. destruct (persist_completes evs d) as (n & d1 & ->).
    rewrite alone_bind. destruct (bump_alone eng (max_event_id c evs) d1) as (d2 & -> & c' & Hc2 & Hle2).
    exists d2. split; [done|]. destruct (decide (log = [])) as [->|Hne]; [by left|]. right.
    exists c'. split; [done|].
    destruct (Z.lt_ge_cases c (Z.of_nat (length log))) as [Hlt|Hge].
    + destruct (Hlast Hne Hlt) as (ev & Hin & Hid). pose proof (max_event_id_ge c evs ev Hin). lia.
    + assert (c ≤ max_event_id c evs); [|lia].
      apply (max_event_id_spec c evs (Z.max c (max_event_id c evs))); [lia|].
      intros ev Hin. pose proof (max_event_id_ge c evs ev Hin). lia.
Qed.

Lemma poll_alone inl d eng log :
  feed_ok inl None d → engines d !! eng = Some log →
  ∃ d', alone (pollOneEngine eng) d = (Ret true, d') ∧
    (log = [] ∨ ∃ c', poll_cursors d' !! eng = Some c' ∧ Z.of_nat (length log) ≤ c').
Proof.
  intros Hd Hl. destruct (fo_logs _ _ _ Hd _ _ Hl) as [_ Hn].
  assert (default 0 (poll_cursors d !! eng) ≤ Z.of_nat (length log)) as Hle.
  { destruct (poll_cursors d !! eng) as [c|] eqn:E; simpl; [by apply (fo_within _ _ _ Hd eng)|lia]. }
  pose proof (poll_from_alone eng _ d log Hl Hn Hle eq_refl) as Hp.
  unfold pollOneEngine. rewrite alone_bind. simpl alone at 1. cbv beta iota.
  destruct (_ && _); [|done]. rewrite alone_bind.
  assert (alone initializeRecoveryState d = (Ret 0, d)) as ->; [|done].
  unfold initializeRecoveryState. rewrite alone_bind. simpl alone at 1. cbv beta iota. rewrite alone_bind.
  simpl alone at 1. by rewrite (fo_anchors _ _ _ Hd).
Qed.

Lemma poll_queues_all d eng log :
  feed_ok false None d → engines d !! eng = Some log →
  ∃ d', alone (pollOneEngine eng) d = (Ret true, d') ∧ feed_ok false None d' ∧
    ∀ ev, ev ∈ log → queued eng ev d'.
Proof.
  intros Hd Hl. destruct (poll_alone _ d eng log Hd Hl) as (d' & Hrun & Hcur). exists d'. split; [done|].
  pose proof (safe_alone _ _ grows_refl grows_trans (pollOneEngine eng) (λ _ _, True) d Hd
    (spec_pollOneEngine false None eng d Hd I)) as Hs. rewrite Hrun in Hs. destruct Hs as (Hd' & HG & _).
  split; [done|]. intros ev Hin. destruct Hcur as [->|(c & Hc & Hle)]; [by apply not_elem_of_nil in Hin|].
  destruct (grows_log _ _ _ _ HG Hl) as [l Hl'].
  apply (fo_covered _ _ _ Hd' eq_refl eng c Hc (log ++ l)); [done|apply elem_of_app; by left|].
  destruct (fo_logs _ _ _ Hd _ _ Hl) as [_ Hn]. pose proof (numbered_id _ _ Hn Hin). lia.
Qed.

(** C35. When requests pull their matches (instead of handing them on), every match reaches
    settlement. From whatever state the interleavings of pollers, pulling requests, stream
    messages, failures and crashes have left, one poll that is left alone succeeds and queues
    every match the engine has, and a settlement batch that is long enough, whose failures
    can be recorded, leaves each of them with exactly one row: processed with its four ledger
    rows, failed with none, or, after a lost connection or a replay, pending with its retries
    used up and none. With inline hand-over a match can be passed over
    ([passed_match_is_lost]). *)
Theorem matches_reach_settlement (d d' : feed_db) (ts : list (thread feed_db unit)) (eng : string)
    (log : list EngineMatchEvent) (w : worker_state) (limit : nat) (io : nat → tick_env) :
  fresh d → rtc (feed_step false None) (d, []) (d', ts) → engines d' !! eng = Some log →
  let p := alone (pollOneEngine eng) d' in
  w_db w = fd_settle p.2 → (∀ i, te_locked (io i) = []) → (∀ i, (2 ≤ te_marks (io i))%nat) →
  work (w_db w) < Z.of_nat limit →
  p.1 = Ret true ∧
  ∀ ev, ev ∈ log → ∃ id e, let s := w_db (drain limit io w) in
    events s !! id = Some e ∧ ev_engine e = eng ∧ ev_payload e = eventToPayload (tag eng ev) ∧
    (ev_status e = EvProcessed ∧ length (event_rows id (ledger s)) = 4%nat
     ∨ (ev_status e = EvFailed ∨ ev_status e = EvPending ∧ ev_retry_count e = MAX_RETRIES)
       ∧ event_rows id (ledger s) = []) ∧
    ∀ id' e', events s !! id' = Some e' → ev_engine e' = eng →
      ev_payload e' = eventToPayload (tag eng ev) → id' = id.
Proof.
  intros Hf Hrun Hl p. pose proof (feed_runs_ok _ _ _ _ _ (fresh_ok false d Hf) Hrun) as Hd.
  destruct (poll_queues_all d' eng log Hd Hl) as (d2 & Hp & Hd2 & Hq). subst p. rewrite Hp. cbn [fst snd]. intros Hw Hlock Hm Hwork.
  split; [done|]. intros ev Hin. destruct (Hq ev Hin) as [id Hid].
  assert (event_keys (w_db (drain limit io w)) = event_keys (fd_settle d2)) as Hk by (by rewrite drain_keys, Hw).
  pose proof (fo_books _ _ _ Hd2) as Hb. rewrite <- Hw in Hb.
  destruct (drain_stops limit io w Hb Hm Hwork) as [Hb' _].
  rewrite <- Hk in Hid. apply event_keys_Some in Hid as (e & He & Hke). injection Hke as Heng Hn Hpay.
  exists id, e. split; [done|]. split; [done|]. split; [done|]. split.
  - pose proof (bk_rows _ Hb' id) as Hr.
    destruct (worker_drains w limit io Hb Hlock Hm Hwork id e He) as [Hst|Hst]; [left|right]; (split; [done|]).
    + destruct (bk_four _ Hb' id) as [Hz|]; [|done]. exfalso. apply (proj2 Hr); [by exists e|done].
    + destruct (event_rows id _) eqn:E; [done|]. exfalso.
      destruct (proj1 Hr) as (e' & He' & Hp'); [done|]. simplify_eq. destruct Hst as [Hst|[Hst _]]; congruence.
  - intros id' e' He' Heng' Hpay'.
    assert (∃ l, engines d2 !! eng = Some l) as [l Hl2].
    { pose proof (safe_alone _ _ grows_refl grows_trans (pollOneEngine eng) (λ _ _, True) d' Hd
        (spec_pollOneEngine false None eng d' Hd I)) as Hs. rewrite Hp in Hs. destruct Hs as (_ & HG & _).
      destruct (grows_log _ _ _ _ HG Hl) as [l ?]. eauto. }
    assert (event_keys (fd_settle d2) !! id' = Some (eng, ev_engine_event e', ev_payload e')) as Hid'
      by (rewrite <- Hk; apply event_keys_Some; exists e'; unfold key_of; by rewrite Heng').
    destruct (fo_genuine _ _ _ Hd2 id' _ _ _ l Hid' Hl2) as (ev' & _ & Hn' & Hp').
    rewrite Hpay' in Hp'. injection Hp' as Hidev.
    apply (fo_unique _ _ _ Hd2 id' id eng (me_event_id ev) (ev_payload e') (ev_payload e)).
    + by rewrite Hid', Hn', Hidev.
    + rewrite <- Hk. apply event_keys_Some. exists e. unfold key_of. by rewrite <- Heng, Hn.
Qed.

(** ** An engine that starts its ids again *)

(** Different rows of an engine that carry the same payload and wait to be settled. *)
Definition pending_copies (eng : string) (p : json) (ids : list Z) (d : feed_db) : Prop :=
  NoDup ids ∧ ∀ id, id ∈ ids → ∃ e, events (fd_settle d) !! id = Some e ∧ ev_engine e = eng ∧
    ev_payload e = p ∧ ev_status e = EvPending.

(** The table: its sequence, its unique index, the engines' ids from 1. *)
Definition table_ok (d : feed_db) : Prop :=
  unique_events (fd_settle d) ∧
  ∀ id e, events (fd_settle d) !! id = Some e → id < event_seq d ∧ 1 ≤ ev_engine_event e.

(** The event's key is the key of another match. *)
Definition collides (eng : string) (ev : EngineMatchEvent) (d : feed_db) : Prop :=
  ∃ id e, events (fd_settle d) !! id = Some e ∧ ev_engine e = eng ∧ ev_engine_event e = me_event_id ev ∧
    isSameMatchEvent (Some (ev_payload e)) (eventToPayload ev) = false.

Lemma collides_row eng ev d : table_ok d → collides eng ev d →
  ∃ id e, find_event eng (me_event_id ev) (fd_settle d) = Some (id, e) ∧
    isSameMatchEvent (Some (ev_payload e)) (eventToPayload ev) = false.
Proof.
  intros [Hu _] (id & e & He & <- & <- & Hs). destruct (find_event_unique _ id e Hu He) as [e' Hf].
  pose proof (find_event_Some _ _ _ _ _ Hf) as (He' & _). simplify_eq. eauto.
Qed.

Lemma foldr_max_ge x l a : a = x ∨ a ∈ l → a ≤ foldr Z.max x l.
Proof.
  induction l as [|b l IH]; simpl; intros [->|Ha]; [lia|by apply not_elem_of_nil in Ha| |].
  - specialize (IH (or_introl eq_refl)). lia.
  - apply elem_of_cons in Ha as [->|Ha]; [lia|]. specialize (IH (or_intror Ha)). lia.
Qed.

Lemma next_event_id_above eng d id e :
  events d !! id = Some e → ev_engine e = eng → ev_engine_event e < next_event_id eng d.
Proof.
  intros He Heng. unfold next_event_id.
  assert (ev_engine_event e ∈ engine_event_ids eng d) as Hin.
  { apply list_elem_of_fmap. exists (id, e). split; [done|]. apply list_elem_of_filter.
    split; [done|]. by apply elem_of_map_to_list. }
  destruct (engine_event_ids eng d) as [|x l]; [by apply not_elem_of_nil in Hin|].
  apply elem_of_cons in Hin. pose proof (foldr_max_ge x l _ Hin). lia.
Qed.

Lemma insert_pending_new eng n p d :
  find_event eng n (fd_settle d) = None →
  insert_pending eng n p d
  = Ret (true, set_settle (set_events (<[event_seq d := new_event eng n p]> (events (fd_settle d)))
                             (fd_settle d)) (set_seq (event_seq d + 1) d)).
Proof. intros Hf. unfold insert_pending, bind, gets, modify, ret. simpl. by rewrite Hf. Qed.

Lemma persist_collision eng ev d :
  table_ok d → tag eng ev = ev → eng ≠ "" → collides eng ev d →
  let p := eventToPayload ev in
  let d' := snd (alone (persistEngineMatchEvents [ev]) d) in
  fst (alone (persistEngineMatchEvents [ev]) d) = Ret 1 ∧
  (∀ ids, pending_copies eng p ids d → pending_copies eng p (event_seq d + 1 :: ids) d') ∧
  table_ok d' ∧ collides eng ev d'.
Proof.
  intros Hok Htag Hne Hcol p d'. pose proof Hok as [Hu Hrows].
  destruct (collides_row _ _ _ Hok Hcol) as (id & e & Hf & Hs).
  set (d1 := set_seq (event_seq d + 1) d).
  set (n := next_event_id eng (fd_settle d)).
  assert (1 < n) as Hn.
  { pose proof (find_event_Some _ _ _ _ _ Hf) as (He & Heng & _).
    pose proof (next_event_id_above eng _ id e He Heng). destruct (Hrows id e He). lia. }
  assert (find_event eng n (fd_settle d1) = None) as Hfree.
  { destruct (find_event eng n (fd_settle d1)) as [[j ej]|] eqn:E; [|done].
    apply find_event_Some in E as (Hj & Heng & Hnj).
    pose proof (next_event_id_above eng _ j ej Hj Heng). fold n in H1. change (fd_settle d1) with (fd_settle d) in *. lia. }
  set (d2 := set_settle (set_events (<[event_seq d1 := new_event eng n p]> (events (fd_settle d1)))
                           (fd_settle d1)) (set_seq (event_seq d1 + 1) d1)).
  assert (alone (persistEngineMatchEvents [ev]) d = (Ret 1, d2)) as Hrun.
  { unfold persistEngineMatchEvents. cbn [tfold]. rewrite alone_bind. unfold persist_one.
    assert (engine_or_default (me_match_engine_id ev) = eng) as ->.
    { rewrite <- Htag. simpl. unfold engine_or_default. by destruct (String.eqb_spec eng ""). }
    rewrite Htag, alone_bind. cbn [alone stmt]. unfold transaction.
    assert (insert_pending eng (me_event_id ev) (eventToPayload ev) d = Ret (false, d1)) as ->
      by (unfold insert_pending, bind, gets, modify, ret; simpl; by rewrite Hf).
    cbv beta iota. rewrite alone_bind. cbn [alone stmt]. unfold transaction, stored_payload, gets.
    change (fd_settle d1) with (fd_settle d). rewrite Hf. cbn [fmap option_fmap option_map compose snd].
    rewrite Hs, alone_bind. cbn [reassign]. rewrite alone_bind. cbn [alone stmt].
    unfold transaction, gets. cbv beta iota. change (next_event_id eng (fd_settle d1)) with n.
    replace (n =? 0) with false by (symmetry; apply Z.eqb_neq; lia).
    rewrite alone_bind. cbn [alone stmt]. unfold transaction.
    by rewrite (insert_pending_new eng n (eventToPayload ev) d1 Hfree). }
  assert (d' = d2) as -> by (unfold d'; by rewrite Hrun). rewrite Hrun. split; [done|].
  assert (events (fd_settle d) !! event_seq d1 = None) as Hnew.
  { destruct (events (fd_settle d) !! event_seq d1) as [e0|] eqn:E0; [|done].
    destruct (Hrows _ _ E0). simpl in *. lia. }
  split_and!.
  - intros ids [Hnd Hids]. assert (event_seq d + 1 ∉ ids) as Hnin.
    { intros Hin. destruct (Hids _ Hin) as (e0 & He0 & _). change (event_seq d + 1) with (event_seq d1) in He0.
      congruence. }
    split; [by constructor|]. intros i [->|Hin]%elem_of_cons.
    + eexists. split; [apply lookup_insert_eq|done].
    + destruct (Hids i Hin) as (e0 & He0 & Hrest). exists e0. split; [|done]. simpl.
      rewrite lookup_insert_ne; [done|]. by intros <-.
  - split.
    + intros i j ei ej. simpl. rewrite !lookup_insert_Some.
      intros [[<- <-]|[_ Hi]] [[<- <-]|[_ Hj]]; simpl; intros Heng Hev; [done| | |by apply (Hu i j ei ej)].
      * pose proof (next_event_id_above eng _ j ej Hj (eq_sym Heng)). unfold n in Hev. lia.
      * pose proof (next_event_id_above eng _ i ei Hi Heng). unfold n in Hev. lia.
    + intros i e0. simpl. rewrite lookup_insert_Some. intros [[<- <-]|[_ Hi]]; simpl; [lia|].
      destruct (Hrows i e0 Hi). lia.
  - destruct Hcol as (i & e0 & Hi & ? & ? & ?). exists i, e0. split; [|done]. simpl.
    rewrite lookup_insert_ne; [done|]. intros <-. simpl in Hnew. congruence.
Qed.

(** An engine that starts its ids again gets its matches queued more than once. The code
    expects reused ids: a match whose key belongs to another match is inserted under a new
    id. But nothing remembers that it was: each time such a match is handed on (by the
    request, by every pull and by every poll that sees it), one more row with its payload is
    queued, to be settled again. *)
Theorem restarted_match_requeued (eng : string) (ev : EngineMatchEvent) (d : feed_db) (k : nat) :
  table_ok d → tag eng ev = ev → eng ≠ "" → collides eng ev d →
  ∃ ids, length ids = k ∧
    pending_copies eng (eventToPayload ev) ids
      (Nat.iter k (λ s, snd (alone (persistEngineMatchEvents [ev]) s)) d).
Proof.
  intros Hok Htag Hne Hcol.
  assert (∀ k, let s := Nat.iter k (λ s, snd (alone (persistEngineMatchEvents [ev]) s)) d in
    (∃ ids, length ids = k ∧ pending_copies eng (eventToPayload ev) ids s) ∧ table_ok s ∧ collides eng ev s)
    as Hall; [|by apply Hall].
  clear k. intros k. induction k as [|k IH]; simpl.
  { split; [|done]. exists []. split; [done|]. split; [constructor|]. intros id Hin. by apply not_elem_of_nil in Hin. }
  destruct IH as ((ids & Hlen & Hids) & Hok' & Hcol').
  destruct (persist_collision eng ev _ Hok' Htag Hne Hcol') as (_ & Hc' & ? & ?).
  split; [|done]. eexists. split; [|by apply Hc']. simpl. by rewrite Hlen.
Qed.
End FeedRuns.
