(* ===== verification/FeedDemo.v ===== *)
(** * Match feed: concrete runs

    The theorems of [FeedRuns] on the market of [SettlementDemo]: two requests of which one
    crashes, a poll that catches up, and an engine that restarts. *)
From stdpp Require Import base gmap strings list fin_maps relations pretty.
From Stdlib Require Import ZArith Lia Ascii.
From S2P Require Import Prelude Threads Money Balances Escrow Halt SettlementModel Settlement SettlementDemo.
From S2P Require Import SettlementWorker SettlementRuns SettlementRunsDemo FeedModel Feed FeedRuns.
Local Open Scope Z_scope.

Definition demo_match (id : Z) (s : side) (qty : string) : EngineMatchEvent :=
  MatchEvent id "BTC_USDT" "50000.5" qty "order-t" "order-m" taker_id maker_id s 1700000000 "".
Definition match_1 : EngineMatchEvent := demo_match 1 Buy "0.2".
Definition match_2 : EngineMatchEvent := demo_match 2 Sell "0.1".
Definition demo_log : list EngineMatchEvent := [match_1; match_2].
Definition demo_feed : feed_db := FeedDb (demo_db ∅) 1 ∅ 0 [] {["engine-0" := demo_log]} ∅ [] [].
Definition demo_cfg : feed_config := FeedConfig false false 3.

Lemma demo_log_numbered : numbered demo_log.
Proof. intros [|[|i]] ev Hi; simpl in Hi; [injection Hi as <-; reflexivity..|]. by destruct i. Qed.

Lemma feed_demo_fresh : fresh demo_feed.
Proof.
  split.
  - apply demo_books. intros i e He. discriminate He.
  - reflexivity.
  - intros eng log Hl. cbn [engines demo_feed] in Hl. apply lookup_singleton_Some in Hl as [<- <-]. split; [discriminate|apply demo_log_numbered].
  - reflexivity.
  - reflexivity.
Qed.

(** Threads that start, and take the steps of a schedule. *)
Lemma starts_run inl lost d ts ts0 :
  Forall (feed_starts inl lost d) ts → rtc (feed_step inl lost) (d, ts0) (d, ts0 ++ ts).
Proof.
  intros Hts. revert ts0. induction Hts as [|t ts Ht _ IH]; intros ts0; [by rewrite app_nil_r|].
  eapply rtc_l; [by apply pool_start|]. replace (ts0 ++ t :: ts) with ((ts0 ++ [t]) ++ ts) by (by rewrite <- app_assoc).
  apply IH.
Qed.

Lemma schedule_run inl lost d ts l :
  Forall (feed_starts inl lost d) ts →
  rtc (feed_step inl lost) (d, []) ((schedule l (d, ts)).1, (schedule l (d, ts)).2).
Proof.
  intros Hts. rewrite <- surjective_pairing. eapply rtc_trans; [apply (starts_run _ _ _ ts []); exact Hts|].
  apply schedule_steps.
Qed.

Definition pulled_by : thread feed_db unit :=
  await* _ := syncEngineMatchesAfterPlace demo_cfg "engine-0" "BTC_USDT" "BTC" "USDT" 8 1 in tret tt.
Definition polled : thread feed_db unit := await* _ := pollOneEngine "engine-0" in tret tt.
Definition handed_on (evs : list EngineMatchEvent) : thread feed_db unit :=
  await* _ := applyInlineEngineEvents demo_cfg "engine-0" "BTC_USDT" "BTC" "USDT" 8 evs in tret tt.

Definition in_turn (i : nat) (n : nat) : list (nat * bool) := repeat (i, false) n.

(** ** A pull and a poll side by side, the database refusing a statement of the pull *)
Definition side_by_side : list (nat * bool) :=
  in_turn 0 3 ++ in_turn 1 2 ++ [(0%nat, false); (0%nat, true)] ++ in_turn 1 8 ++ in_turn 0 20.
Definition after_both : feed_db := (schedule side_by_side (demo_feed, [pulled_by; polled])).1.

Lemma after_both_run inl :
  rtc (feed_step inl None) (demo_feed, []) (after_both, (schedule side_by_side (demo_feed, [pulled_by; polled])).2).
Proof.
  apply schedule_run. constructor; [apply start_sync|]. constructor; [apply start_poll|]. constructor.
Qed.

Definition queue_of (d : feed_db) : list (Z * Z) :=
  (λ x, (x.1, ev_engine_event x.2)) <$> map_to_list (events (fd_settle d)).

(** Then the stream's message of the first match comes: its row is there, and is settled. *)
Definition message_taken (d : feed_db) : feed_db :=
  set_settle (w_db (handleSettlementJsMessage (demo_tick true) (event_seq d) "payload" (demo_worker (fd_settle d))).2)
    (set_seq (event_seq d + 1) d).
Definition after_message : feed_db := message_taken after_both.

Lemma published_1 : published "engine-0" (tag "engine-0" match_1) (payload_json (demo_payload_of 1 Buy "0.2")).
Proof. split_and!; vm_compute; reflexivity. Qed.

Lemma after_message_run inl :
  rtc (feed_step inl None) (demo_feed, []) (after_message, (schedule side_by_side (demo_feed, [pulled_by; polled])).2).
Proof.
  eapply rtc_r; [apply (after_both_run inl)|]. apply pool_env.
  apply (env_message None "engine-0" (tag "engine-0" match_1) (demo_tick true) "payload"
    (payload_json (demo_payload_of 1 Buy "0.2")) (demo_worker (fd_settle after_both)) after_both);
    [|reflexivity|apply published_1|reflexivity].
  split; [discriminate|]. exists demo_log, match_1. split; [vm_compute; reflexivity|]. split; [left|reflexivity].
Qed.

Lemma matches_queued_once_witness :
  (length (queue_of after_message), length (settlement_trades (fd_settle after_both)),
   length (settlement_trades (fd_settle after_message))) = (2, 0, 1)%nat ∧
  ∀ id e, events (fd_settle after_message) !! id = Some e →
    length (event_rows id (ledger (fd_settle after_message)))
    = (if decide (ev_status e = EvProcessed) then 4 else 0)%nat.
Proof.
  split; [vm_compute; reflexivity|].
  apply (matches_queued_once demo_feed after_message _ feed_demo_fresh (after_message_run true)).
Defined.

Lemma cursor_never_skips_witness :
  ∃ id e, events (fd_settle after_both) !! id = Some e ∧ ev_engine e = "engine-0" ∧
    ev_engine_event e = 1 ∧ ev_payload e = eventToPayload (tag "engine-0" match_1).
Proof.
  apply (cursor_never_skips demo_feed after_both _ "engine-0" 2 demo_log match_1 feed_demo_fresh (after_both_run false)).
  - vm_compute. reflexivity.
  - vm_compute. reflexivity.
  - left.
  - vm_compute. discriminate.
Defined.

(** ** A pull that crashed, then a poll and the worker *)
Definition after_crash : feed_db := (schedule (in_turn 0 4) (demo_feed, [pulled_by])).1.
Definition polled_after : outcome bool * feed_db := alone (pollOneEngine "engine-0") after_crash.

Lemma after_crash_run :
  rtc (feed_step false None) (demo_feed, []) (after_crash, (schedule (in_turn 0 4) (demo_feed, [pulled_by])).2).
Proof. apply schedule_run. constructor; [apply start_sync|]. constructor. Qed.

Lemma matches_reach_settlement_witness :
  length (queue_of after_crash) = 1%nat ∧
  fst polled_after = Ret true ∧
  let s := w_db (drain 30 demo_io (demo_worker (fd_settle (snd polled_after)))) in
  length (settlement_trades s) = 2%nat ∧
  ∃ id e, events s !! id = Some e ∧ ev_engine e = "engine-0" ∧
    ev_payload e = eventToPayload (tag "engine-0" match_2).
Proof.
  destruct (matches_reach_settlement demo_feed after_crash _ "engine-0" demo_log
    (demo_worker (fd_settle (snd polled_after))) 30 demo_io feed_demo_fresh after_crash_run) as [Hp Hq].
  - vm_compute. reflexivity.
  - reflexivity.
  - intros i. reflexivity.
  - intros i. simpl. lia.
  - vm_compute. reflexivity.
  - split; [vm_compute; reflexivity|]. split; [exact Hp|]. split; [vm_compute; reflexivity|].
    destruct (Hq match_2) as (id & e & He & Heng & Hpay & _); [right; left|].
    exists id, e. split; [exact He|]. split; [exact Heng|exact Hpay].
Defined.

(** ** Two requests hand their matches on, and the first one crashes *)
Definition two_requests : list (thread feed_db unit) :=
  [handed_on [tag "engine-0" match_1]; handed_on [tag "engine-0" match_2]].
Definition after_skip : feed_db := (schedule (in_turn 1 4) (demo_feed, two_requests)).1.
Definition after_polls : feed_db := (schedule (in_turn 0 20 ++ in_turn 1 20) (after_skip, [polled; pulled_by])).1.

Lemma demo_event lost ev :
  ev ∈ demo_log → lost ≠ Some ("engine-0", me_event_id ev) →
  all_events lost "engine-0" [tag "engine-0" ev] demo_feed.
Proof.
  intros Hin Hl ev' Hev'. apply list_elem_of_singleton in Hev' as ->. split; [exact Hl|].
  exists demo_log, ev. split; [vm_compute; reflexivity|]. split; [exact Hin|reflexivity].
Qed.

Lemma handed_on_starts ev : ev ∈ demo_log → feed_starts true None demo_feed (handed_on [tag "engine-0" ev]).
Proof.
  intros Hin. apply start_inline; [reflexivity|apply demo_event; [exact Hin|discriminate]| |discriminate].
  intros ev' Hev'. apply list_elem_of_singleton in Hev' as ->. reflexivity.
Qed.

Lemma after_skip_run :
  rtc (feed_step true None) (demo_feed, []) (after_skip, (schedule (in_turn 1 4) (demo_feed, two_requests)).2).
Proof.
  apply schedule_run. constructor; [apply handed_on_starts; left|].
  constructor; [apply handed_on_starts; right; left|]. constructor.
Qed.

(** No row has the key, decided on the list of the rows. *)
Definition no_key (eng : string) (n : Z) (d : feed_db) : bool :=
  forallb (λ x, negb (String.eqb (ev_engine (snd x)) eng && (ev_engine_event (snd x) =? n)))
    (map_to_list (events (fd_settle d))).

Lemma no_key_true eng n d : no_key eng n d = true →
  ∀ id e, events (fd_settle d) !! id = Some e → ev_engine e = eng → ev_engine_event e ≠ n.
Proof.
  unfold no_key. intros Hb id e He Heng Hn. rewrite forallb_forall in Hb.
  apply elem_of_map_to_list, list_elem_of_In in He. specialize (Hb _ He). simpl in Hb.
  by rewrite Heng, Hn, String.eqb_refl, Z.eqb_refl in Hb.
Qed.

Lemma passed_match_is_lost_witness :
  poll_cursors after_polls !! "engine-0" = Some 2 ∧ length (queue_of after_polls) = 1%nat ∧
  ∀ id e, events (fd_settle after_polls) !! id = Some e → ev_engine e = "engine-0" → ev_engine_event e ≠ 1.
Proof.
  split; [vm_compute; reflexivity|]. split; [vm_compute; reflexivity|].
  apply (passed_match_is_lost demo_feed after_skip after_polls _
    (schedule (in_turn 0 20 ++ in_turn 1 20) (after_skip, [polled; pulled_by])).2 "engine-0" 1 2
    feed_demo_fresh after_skip_run).
  - vm_compute. reflexivity.
  - lia.
  - apply no_key_true. vm_compute. reflexivity.
  - apply schedule_run. constructor; [apply start_poll|]. constructor; [apply start_sync|]. constructor.
Defined.

(** ** The engine restarts *)

(** Before: match 1 was queued and settled, the cursor had reached 2. After: the engine's
    first match has the id 1 again. *)
Definition settled_once : settle_db := w_db (runOnce 20 (demo_tick true) demo_io
  (demo_worker (demo_db {[1 := pending_event 1 (eventToPayload (tag "engine-0" match_1))]}))).
Definition new_match : EngineMatchEvent := demo_match 1 Sell "0.1".
Definition restarted : feed_db :=
  FeedDb settled_once 2 {["engine-0" := 2]} 0 [] {["engine-0" := [new_match]]} ∅ [] [].

Definition twice_persisted : feed_db :=
  Nat.iter 2 (λ s, snd (alone (persistEngineMatchEvents [tag "engine-0" new_match]) s)) restarted.
(** What the code does with it: the request hands it on, the poll sees it again. *)
Definition handed_and_polled : feed_db :=
  snd (alone (pollOneEngine "engine-0") (snd (alone (handed_on [new_match]) restarted))).

Definition table_b (d : feed_db) : bool :=
  forallb (λ x, (fst x <? event_seq d) && (1 <=? ev_engine_event (snd x))) (map_to_list (events (fd_settle d))).

Lemma restarted_row : ∃ e, events (fd_settle restarted) = {[1 := e]} ∧ ev_engine e = "engine-0" ∧
  ev_engine_event e = 1 ∧ ev_payload e = eventToPayload (tag "engine-0" match_1).
Proof. eexists. split; [vm_compute; reflexivity|]. split_and!; vm_compute; reflexivity. Qed.

Lemma restarted_match_requeued_witness :
  (∃ ids, length ids = 2%nat ∧
    pending_copies "engine-0" (eventToPayload (tag "engine-0" new_match)) ids twice_persisted) ∧
  length (queue_of handed_and_polled) = 3%nat ∧
  (length (settlement_trades (fd_settle handed_and_polled)),
   length (settlement_trades (w_db (runOnce 20 (demo_tick true) demo_io
     (demo_worker (fd_settle handed_and_polled)))))) = (1, 3)%nat.
Proof.
  split; [|split; vm_compute; reflexivity].
  apply (restarted_match_requeued "engine-0" (tag "engine-0" new_match) restarted 2).
  - destruct restarted_row as (e & He & _ & Hn & _). split.
    + intros i j ei ej Hi Hj _ _. rewrite He in Hi, Hj.
      apply lookup_singleton_Some in Hi as [<- _]. by apply lookup_singleton_Some in Hj as [<- _].
    + intros i e' Hi. rewrite He in Hi. apply lookup_singleton_Some in Hi as [<- <-]. rewrite Hn. split; [reflexivity|lia].
  - reflexivity.
  - discriminate.
  - destruct restarted_row as (e & He & Heng & Hn & Hp). exists 1, e. rewrite He, Hp.
    split; [apply lookup_singleton_eq|]. split; [exact Heng|]. split; [exact Hn|vm_compute; reflexivity].
Defined.
