(* ===== verification/ApprovalModel.v ===== *)
(** * Maker-checker approvals: definitions

    [services/admin-approval.service.ts], [admin-approval-policy.service.ts],
    [maker-checker-execute.service.ts], [admin-manual-credit-apply.service.ts] and the
    approval routes of [routes/admin.fastify.ts]. A critical action is requested by one
    admin and executed when enough others have approved it. Admins act at the same time and
    no row is locked between a read and the write that follows it, so handlers are threads. *)
From stdpp Require Import base gmap strings list fin_maps pretty.
From Stdlib Require Import ZArith Lia Ascii.
From S2P Require Import Prelude Threads Money Balances Escrow Halt SettlementModel SettlementWorker WithdrawalModel.
Local Open Scope Z_scope.

(** ** State *)
Inductive approval_status := ApPending | ApApproved | ApRejected | ApExpired.
#[export] Instance approval_status_eq_dec : EqDecision approval_status.
Proof. solve_decision. Defined.
Definition approval_status_text (s : approval_status) : string :=
  match s with
  | ApPending => "pending" | ApApproved => "approved" | ApRejected => "rejected" | ApExpired => "expired"
  end.

Record ApprovalRequest := ApprovalRequestRow {
  ar_action_type : string;
  ar_payload : json;
  ar_requested_by : string;
  ar_status : approval_status;
  ar_required : Z;
  ar_current : Z;
  (** [NULL] is the empty list *)
  ar_approved_by : list string;
  ar_rejected_by : option string;
  ar_rejection_reason : option string;
  ar_expires_at : Z;
  ar_executed_at : option Z;
  ar_maker_unlock_at : option Z;
  ar_action_executed : bool;
  ar_attempts : Z;
  ar_last_attempt : option Z;
  ar_error : option string;
  ar_context : option json;
}.

(** [users]: id, email, active and not deleted. *)
Record user_row := UserRow { us_id : string; us_email : string; us_active : bool }.

Record approval_db := ApprovalDb {
  ap_requests : gmap string ApprovalRequest;
  ap_core : withdraw_db;
  ap_users : list user_row;
  (** [admin_users]: id, role *)
  ap_admins : gmap string string;
  (** [system_settings] *)
  ap_settings : gmap string json;
  (** [tx_hash] of the deposits that are completed or confirmed *)
  ap_credited_txs : list string;
  (** Redis: the trading halt, the two market making switches *)
  ap_halt : option string;
  ap_mm_paused : bool;
  ap_mm_blocked : bool;
  (** the cancel-all statements sent to [spot_orders], with their market *)
  ap_cancel_alls : list (option string);
  (** [admin_break_glass_events]: admin, ticket *)
  ap_break_glass : list (string * string);
}.

#[export] Instance approval_db_withdraw : Store approval_db withdraw_db.
Proof.
  refine {| sget := ap_core;
            sput := λ c d, ApprovalDb (ap_requests d) c (ap_users d) (ap_admins d) (ap_settings d)
                             (ap_credited_txs d) (ap_halt d) (ap_mm_paused d) (ap_mm_blocked d)
                             (ap_cancel_alls d) (ap_break_glass d) |}; by intros [].
Defined.
#[export] Instance approval_db_balances : Store approval_db balances.
Proof.
  refine {| sget := λ d, sget (ap_core d);
            sput := λ b d, sput (T := withdraw_db) (sput b (ap_core d)) d |}; [done|by intros [? [[]]]|done].
Defined.

Definition set_requests (x : gmap string ApprovalRequest) (d : approval_db) : approval_db :=
  ApprovalDb x (ap_core d) (ap_users d) (ap_admins d) (ap_settings d) (ap_credited_txs d)
    (ap_halt d) (ap_mm_paused d) (ap_mm_blocked d) (ap_cancel_alls d) (ap_break_glass d).
Definition set_settings (x : gmap string json) (d : approval_db) : approval_db :=
  ApprovalDb (ap_requests d) (ap_core d) (ap_users d) (ap_admins d) x (ap_credited_txs d)
    (ap_halt d) (ap_mm_paused d) (ap_mm_blocked d) (ap_cancel_alls d) (ap_break_glass d).
Definition set_controls (halt : option string) (paused blocked : bool) (cancels : list (option string))
    (d : approval_db) : approval_db :=
  ApprovalDb (ap_requests d) (ap_core d) (ap_users d) (ap_admins d) (ap_settings d) (ap_credited_txs d)
    halt paused blocked cancels (ap_break_glass d).
Definition add_break_glass (x : string * string) (d : approval_db) : approval_db :=
  ApprovalDb (ap_requests d) (ap_core d) (ap_users d) (ap_admins d) (ap_settings d) (ap_credited_txs d)
    (ap_halt d) (ap_mm_paused d) (ap_mm_blocked d) (ap_cancel_alls d) (ap_break_glass d ++ [x]).

(** ** Statements on the requests *)
Definition set_state (st : approval_status) (r : ApprovalRequest) : ApprovalRequest :=
  ApprovalRequestRow (ar_action_type r) (ar_payload r) (ar_requested_by r) st (ar_required r)
    (ar_current r) (ar_approved_by r) (ar_rejected_by r) (ar_rejection_reason r) (ar_expires_at r)
    (ar_executed_at r) (ar_maker_unlock_at r) (ar_action_executed r) (ar_attempts r)
    (ar_last_attempt r) (ar_error r) (ar_context r).
Definition set_rejected (adminId : string) (reason : option string) (r : ApprovalRequest) :
    ApprovalRequest :=
  ApprovalRequestRow (ar_action_type r) (ar_payload r) (ar_requested_by r) ApRejected (ar_required r)
    (ar_current r) (ar_approved_by r) (Some adminId) reason (ar_expires_at r)
    (ar_executed_at r) (ar_maker_unlock_at r) (ar_action_executed r) (ar_attempts r)
    (ar_last_attempt r) (ar_error r) (ar_context r).
Definition set_approvals (current : Z) (approvers : list string) (st : approval_status)
    (executed_at : option Z) (r : ApprovalRequest) : ApprovalRequest :=
  ApprovalRequestRow (ar_action_type r) (ar_payload r) (ar_requested_by r) st (ar_required r)
    current approvers (ar_rejected_by r) (ar_rejection_reason r) (ar_expires_at r)
    executed_at (ar_maker_unlock_at r) (ar_action_executed r) (ar_attempts r)
    (ar_last_attempt r) (ar_error r) (ar_context r).
Definition set_attempt (now : Z) (context : json) (r : ApprovalRequest) : ApprovalRequest :=
  ApprovalRequestRow (ar_action_type r) (ar_payload r) (ar_requested_by r) (ar_status r) (ar_required r)
    (ar_current r) (ar_approved_by r) (ar_rejected_by r) (ar_rejection_reason r) (ar_expires_at r)
    (ar_executed_at r) (ar_maker_unlock_at r) (ar_action_executed r) (ar_attempts r + 1)
    (Some now) None (Some context).
Definition set_executed (done : bool) (error : option string) (r : ApprovalRequest) : ApprovalRequest :=
  ApprovalRequestRow (ar_action_type r) (ar_payload r) (ar_requested_by r) (ar_status r) (ar_required r)
    (ar_current r) (ar_approved_by r) (ar_rejected_by r) (ar_rejection_reason r) (ar_expires_at r)
    (ar_executed_at r) (ar_maker_unlock_at r) done (ar_attempts r) (ar_last_attempt r) error (ar_context r).

(** The trigger [trg_admin_approval_no_self], before every INSERT and UPDATE. *)
Definition admin_approval_no_self_approve (r : ApprovalRequest) : bool :=
  bool_decide (ar_requested_by r ∉ ar_approved_by r).

(** [UPDATE admin_approval_requests SET ... WHERE id = $1 RETURNING *] *)
Definition update_request (id : string) (f : ApprovalRequest → ApprovalRequest) :
    M approval_db (option ApprovalRequest) :=
  let* found := gets (λ d, ap_requests d !! id) in
  match found with
  | None => ret None
  | Some r =>
      require (admin_approval_no_self_approve (f r)) "MAKER_CHECKER_SELF_APPROVE" ;;;
      modify (λ d, set_requests (<[id := f r]> (ap_requests d)) d) ;;;
      ret (Some (f r))
  end.
Definition select_request (id : string) : M approval_db (option ApprovalRequest) :=
  gets (λ d, ap_requests d !! id).

(** ** Texts *)

(** [.replace(/\s+/g, '_')] *)
Fixpoint underscores (inRun : bool) (s : string) : string :=
  match s with
  | "" => ""
  | String a s' => if js_space a then if inRun then underscores true s' else String "_" (underscores true s')
                   else String a (underscores false s')
  end.
(** [.replace(/-/g, '_')] *)
Fixpoint dashes_to_underscores (s : string) : string :=
  match s with
  | "" => ""
  | String a s' => String (if Ascii.eqb a "-"%char then "_"%char else a) (dashes_to_underscores s')
  end.
Definition role_text (s : string) : string := underscores false (lower (js_trim s)).

Definition normalizeRole (role : string) : string :=
  let normalized := role_text role in
  if String.eqb normalized "support_agent" then "support"
  else if String.eqb normalized "compliance_officer" then "compliance"
  else if String.eqb normalized "finance_admin" then "finance_ops"
  else normalized.

(** ** [admin-approval-policy.service.ts] *)
Record ApprovalPolicyRow := PolicyRow {
  pol_key : string; pol_label : string; pol_single_allowed : bool; pol_required : Z;
  pol_distinct_role : bool; pol_checker_roles : list string;
}.

Definition default_policy (action label : string) : ApprovalPolicyRow :=
  PolicyRow ("global_action:" +:+ action) label false 2 true [].
Definition DEFAULT_POLICIES : list ApprovalPolicyRow :=
  [default_policy "halt_trading" "Halt trading"; default_policy "cancel_all_orders" "Cancel all orders";
   default_policy "disable_withdrawals" "Disable withdrawals";
   default_policy "disable_deposits" "Disable deposits"; default_policy "pause_p2p" "Pause P2P";
   default_policy "pause_market_making" "Pause market making"].

Section Policies.
Context `{Runtime}.

(** [Math.min(5, Math.max(1, Number(x) || 2))] *)
Definition clamp_required (v : option json) : Z :=
  let n := match v with
           | None => 2
           | Some _ => match js_number v with Some 0 | None => 2 | Some n => n end
           end in
  Z.min 5 (Z.max 1 n).

Definition checker_roles (v : option json) : list string :=
  match v with
  | Some (JArr l) => filter (λ r, r ≠ "") ((λ x, match x with JStr s => role_text s | _ => "" end) <$> l)
  | _ => []
  end.

Definition policy_of (fallback : ApprovalPolicyRow) (raw : json) : ApprovalPolicyRow :=
  PolicyRow (pol_key fallback)
    match json_string (json_field raw "label") with
    | Some s => if String.eqb (js_trim s) "" then pol_label fallback else js_trim s
    | None => pol_label fallback
    end
    match json_string (json_field raw "mode") with
    | Some s => String.eqb s "single_allowed"
    | None => false
    end
    (clamp_required (json_field raw "required_approvals"))
    match json_field raw "require_distinct_role" with Some (JBool false) => false | _ => true end
    (checker_roles (json_field raw "allowed_checker_roles")).

(** One stored row replaces the default with its key; other rows are ignored. *)
Definition apply_row (policies : list ApprovalPolicyRow) (raw : json) : list ApprovalPolicyRow :=
  let key := match json_string (json_field raw "key") with Some s => js_trim s | None => "" end in
  (λ p, if String.eqb (pol_key p) key then policy_of p raw else p) <$> policies.

Definition normalizePolicyRows (rows : option json) : list ApprovalPolicyRow :=
  match rows with
  | Some (JArr l) => foldl apply_row DEFAULT_POLICIES l
  | _ => DEFAULT_POLICIES
  end.

Definition SETTINGS_KEY : string := "admin_approval_policies_v1".
Definition getAdminApprovalPolicyByKey (key : string) : M approval_db ApprovalPolicyRow :=
  gets (λ d, default (PolicyRow key key false 2 true [])
               (find (λ p, String.eqb (pol_key p) key) (normalizePolicyRows (ap_settings d !! SETTINGS_KEY)))).
End Policies.

(** ** [createRequest] *)
Record approval_config := ApprovalConfig {
  makerCheckerEnabled : bool;
  makerCheckerRequiredApprovals : Z;
  makerCheckerDelaySec : Z;
}.

Definition DEFAULT_EXPIRY_HOURS : Z := 24.
(** [actionType === 'withdrawal_approve' || actionType === 'manual_credit'] *)
Definition money_action (actionType : string) : bool :=
  String.eqb actionType "withdrawal_approve" || String.eqb actionType "manual_credit".

Definition DEFAULT_APPROVAL_THRESHOLDS (actionType : string) : Z :=
  if String.eqb actionType "settlement_circuit_reset" then 3 else 2.

Definition effectiveRequiredApprovals (cfg : approval_config) (actionType : string) (custom : option Z) : Z :=
  match custom with
  | Some n => n
  | None => if makerCheckerEnabled cfg && money_action actionType then makerCheckerRequiredApprovals cfg
            else DEFAULT_APPROVAL_THRESHOLDS actionType
  end.
Definition makerUnlockAt (cfg : approval_config) (now : Z) (actionType : string) : option Z :=
  if negb (makerCheckerEnabled cfg) || negb (money_action actionType) then None
  else Some (now + makerCheckerDelaySec cfg * 1000).

Definition new_request (cfg : approval_config) (now : Z) (actionType : string) (payload : json)
    (requestedBy : string) (custom : option Z) : ApprovalRequest :=
  ApprovalRequestRow actionType payload requestedBy ApPending
    (effectiveRequiredApprovals cfg actionType custom) 0 [] None None
    (now + DEFAULT_EXPIRY_HOURS * 60 * 60 * 1000) None (makerUnlockAt cfg now actionType)
    false 0 None None None.

(** [id] is what [uuid_generate_v4()] gives. *)
Definition createRequest (cfg : approval_config) (now : Z) (id actionType : string) (payload : json)
    (requestedBy : string) (custom : option Z) : M approval_db ApprovalRequest :=
  let r := new_request cfg now actionType payload requestedBy custom in
  let* known := gets (λ d, ap_admins d !! requestedBy) in
  let* clash := select_request id in
  require (bool_decide (is_Some known)) "violates foreign key constraint" ;;;
  require (bool_decide (clash = None)) "duplicate key value violates unique constraint" ;;;
  modify (λ d, set_requests (<[id := r]> (ap_requests d)) d) ;;;
  ret r.

(** ** What an execution depends on: the clock, the start of the caps' day, the Redis lock
    of the withdrawal, and the reference [uuidv4()] gives. *)
Record exec_env := ExecEnv {
  ex_now : Z; ex_since : Z; ex_lock : approve_lock; ex_ref : string;
}.

Section Execute.
Context `{DecimalJs, Runtime}.

(** [String(payload.k ?? '').trim()] *)
Definition trimmed (payload : json) (k : string) : string := js_trim (text_or (json_field payload k) "").

(** ** [applyAdminManualCreditCore] *)
Definition manual_credit_statements (userId currencyId : string) (amount : Z) (refId : string) :
    M balances unit :=
  let k := funding_key userId currencyId CHAIN_ID_GLOBAL in
  ensureUserBalanceRow k ;;;
  let* sel := select_balance k (λ _, true) in
  let* before := get_or sel "ADMIN_CREDIT_BALANCE_ROW_NOT_FOUND" in
  let* upd := update_balance k (λ _, true) (λ r, add_buckets r amount 0 0 0 0) in
  let* row := assertUserBalanceUpdated upd in
  assertBalanceInvariant row ;;;
  insertBalanceLedger (funding_entry userId currencyId 0 amount (available_balance before)
    (available_balance row) "adjustment" refId Available).

Definition applyAdminManualCreditCore (userId currencyId : string) (amount : Z) (refId : string) :
    M approval_db unit := zoom (manual_credit_statements userId currencyId amount refId).

(** [id::text = $1 OR LOWER(TRIM(email)) = LOWER(TRIM($1))], the first active user *)
Definition find_user (userInput : string) : M approval_db (option string) :=
  gets (λ d, us_id <$> find (λ u, us_active u && (String.eqb (us_id u) userInput
    || String.eqb (lower (ltrim (rtrim (us_email u)))) (lower (ltrim (rtrim userInput))))) (ap_users d)).

Definition mark_executed (id : string) : M approval_db unit :=
  update_request id (set_executed true None) ;;; ret tt.

(** ** [executeGlobalControlAction] *)

(** [updated_by] references [users]. *)
Definition put_setting (key value adminId : string) : M approval_db unit :=
  let* us := gets ap_users in
  require (existsb (λ u, String.eqb (us_id u) adminId) us) "violates foreign key constraint" ;;;
  modify (λ d, set_settings (<[key := JNum (Some (if String.eqb value "1" then 1 else 0))]> (ap_settings d)) d).

Definition executeGlobalControlAction (action : string) (payload : json) (adminId : string) :
    M approval_db unit :=
  let controls f := modify (λ d, f d) in
  if String.eqb action "halt_trading" then
    controls (λ d, set_controls (setTradingHalt true) (ap_mm_paused d) (ap_mm_blocked d) (ap_cancel_alls d) d)
  else if String.eqb action "resume_trading" then
    controls (λ d, set_controls (setTradingHalt false) (ap_mm_paused d) (ap_mm_blocked d) (ap_cancel_alls d) d)
  else if String.eqb action "cancel_all_orders" then
    let market := dashes_to_underscores (upper (trimmed payload "market")) in
    controls (λ d, set_controls (ap_halt d) (ap_mm_paused d) (ap_mm_blocked d)
      (ap_cancel_alls d ++ [if String.eqb market "" then None else Some market]) d)
  else if String.eqb action "disable_withdrawals" then put_setting "emergency_disable_withdrawals" "1" adminId
  else if String.eqb action "enable_withdrawals" then put_setting "emergency_disable_withdrawals" "0" adminId
  else if String.eqb action "disable_deposits" then put_setting "emergency_disable_deposits" "1" adminId
  else if String.eqb action "enable_deposits" then put_setting "emergency_disable_deposits" "0" adminId
  else if String.eqb action "pause_p2p" then put_setting "admin_p2p_orders_paused" "1" adminId
  else if String.eqb action "resume_p2p" then put_setting "admin_p2p_orders_paused" "0" adminId
  else if String.eqb action "pause_market_making" then
    controls (λ d, set_controls (ap_halt d) true true (ap_cancel_alls d) d)
  else if String.eqb action "resume_market_making" then
    controls (λ d, set_controls (ap_halt d) false false (ap_cancel_alls d) d)
  else ret tt.

Definition validActions : list string :=
  ["halt_trading"; "resume_trading"; "cancel_all_orders"; "disable_withdrawals"; "enable_withdrawals";
   "disable_deposits"; "enable_deposits"; "pause_p2p"; "resume_p2p"; "pause_market_making";
   "resume_market_making"].

(** ** [executeMakerCheckerIfFullyApproved]

    [req] is the row its caller has read; the row is not read again. *)

(** [approveWithdrawal], whose transactions run without other steps between them. *)
Definition run_approveWithdrawal (env : exec_env) (withdrawalId : string) : M approval_db (outcome unit) := λ d,
  let '(o, n) := approveWithdrawal (ex_lock env) (ex_since env) (ex_now env) withdrawalId
                   (Node (ap_core d) [] None) in
  Ret (o, sput (nd_db n) d).

Definition execute_withdrawal (env : exec_env) (id : string) (req : ApprovalRequest) : thread approval_db unit :=
  let withdrawalId := trimmed (ar_payload req) "withdrawalId" in
  if String.eqb withdrawalId "" then tthrow "maker-checker: missing withdrawalId in payload"
  else match last (ar_approved_by req) with
       | None => tthrow "maker-checker: no approver on approved request"
       | Some _ =>
           await* done := stmt (run_approveWithdrawal env withdrawalId) in
           match done with
           | Throw e => tthrow e
           | Ret _ => stmt (mark_executed id)
           end
       end.

(** The amount of a manual credit, rounded down to 8 decimals. *)
Definition credit_amount (amountStr : string) : outcome Z :=
  match parse_decimal amountStr with
  | None => Throw "maker-checker: bad amount"
  | Some NonFinite => Throw "maker-checker: amount must be positive"
  | Some (Fin a) => if toDP 8 a <=? 0 then Throw "maker-checker: amount must be positive" else Ret (toDP 8 a)
  end.

Definition credit_tx_hash (payload : json) : string :=
  match json_string (json_field payload "tx_hash") with Some s => js_trim s | None => "" end.

Definition execute_credit (env : exec_env) (id : string) (req : ApprovalRequest) : thread approval_db unit :=
  let pl := ar_payload req in
  let userInput := trimmed pl "user" in
  let symbol := trimmed pl "currency" in
  let amountStr := trimmed pl "amount" in
  let txHashBody := credit_tx_hash pl in
  if String.eqb userInput "" || String.eqb symbol "" || String.eqb amountStr ""
     || bool_decide (String.length (trimmed pl "reason") < 8)%nat
  then tthrow "maker-checker: invalid manual_credit payload"
  else match credit_amount amountStr with
  | Throw e => tthrow e
  | Ret amount =>
      await* user := stmt (find_user userInput) in
      match user with
      | None => tthrow "maker-checker: user not found for manual credit"
      | Some userId =>
          await* currency := stmt (gets (λ d, getCurrencyIdBySymbol symbol (wdb_core (ap_core d)))) in
          match currency with
          | None => tthrow "maker-checker: currency not found"
          | Some currencyId =>
              await* seen := (if String.eqb txHashBody "" then tret false
                              else stmt (gets (λ d, bool_decide (txHashBody ∈ ap_credited_txs d)))) in
              if seen then stmt (mark_executed id)
              else
                await* _ := stmt (applyAdminManualCreditCore userId currencyId amount (ex_ref env)) in
                stmt (mark_executed id)
          end
      end
  end.

Definition execute_global (id : string) (req : ApprovalRequest) : thread approval_db unit :=
  let action := trimmed (ar_payload req) "action" in
  if negb (bool_decide (action ∈ validActions))
  then tthrow ("maker-checker: unsupported global_control_action '" +:+ action +:+ "'")
  else
    await* _ := stmt (executeGlobalControlAction action (ar_payload req)
                        (default (ar_requested_by req) (last (ar_approved_by req)))) in
    stmt (mark_executed id).

Definition executeMakerCheckerIfFullyApproved (env : exec_env) (id : string) (req : ApprovalRequest) :
    thread approval_db unit :=
  if negb (bool_decide (ar_status req = ApApproved)) || ar_action_executed req then tret tt
  else if bool_decide (last (ar_approved_by req) = Some (ar_requested_by req))
  then tthrow "maker-checker blocked: approver equals initiator"
  else if String.eqb (ar_action_type req) "withdrawal_approve" then execute_withdrawal env id req
  else if String.eqb (ar_action_type req) "manual_credit" then execute_credit env id req
  else if String.eqb (ar_action_type req) "global_control_action" then execute_global id req
  else tret tt.

(** ** [approveRequest] *)
Definition approve_result : Type := bool * string.
Definition refuse (msg : string) : thread approval_db approve_result := tret (false, msg).

Definition admin_role (adminId : string) : M approval_db string :=
  gets (λ d, default "" (ap_admins d !! adminId)).
(** [adminRole ? { rows: [{ role: adminRole }] } : await db.query(...)] *)
Definition role_of (adminRole adminId : string) : thread approval_db string :=
  if negb (String.eqb adminRole "") then tret adminRole else stmt (admin_role adminId).

(** The policy of a global action: the reason to refuse the checker, if there is one. *)
Definition policy_refusal (req : ApprovalRequest) (adminId adminRole : string) :
    thread approval_db (option string) :=
  let action := trimmed (ar_payload req) "action" in
  if negb (String.eqb (ar_action_type req) "global_control_action") || String.eqb action "" then tret None
  else
    await* policy := stmt (getAdminApprovalPolicyByKey ("global_action:" +:+ action)) in
    await* same :=
      (if pol_distinct_role policy then
         await* maker := stmt (admin_role (ar_requested_by req)) in
         await* checker := role_of adminRole adminId in
         let m := lower (js_trim maker) in
         let c := lower (js_trim checker) in
         tret (negb (String.eqb m "") && negb (String.eqb c "") && String.eqb m c)
       else tret false) in
    if same then tret (Some "Checker role must be distinct from maker role for this action.")
    else if bool_decide (pol_checker_roles policy = []) then tret None
    else
      await* checker := role_of adminRole adminId in
      let role := normalizeRole checker in
      if String.eqb role "" || negb (bool_decide (role ∈ normalizeRole <$> pol_checker_roles policy))
      then tret (Some ("Checker role '" +:+ (if String.eqb role "" then "unknown" else role)
                       +:+ "' is not allowed for this action."))
      else tret None.

(** What follows the write: [row] is the row it returned. *)
Definition after_approval (cfg : approval_config) (env : exec_env) (id : string) (newApprovals required : Z)
    (row : ApprovalRequest) : thread approval_db approve_result :=
  let isFullyApproved := required <=? newApprovals in
  await* _ :=
    (if negb isFullyApproved && String.eqb (ar_action_type row) "withdrawal_approve" && (1 <=? newApprovals)
     then
       let withdrawalId := trimmed (ar_payload row) "withdrawalId" in
       if String.eqb withdrawalId "" then tret tt
       else stmt (zoom (update_w withdrawalId
              (λ w, if bool_decide (w_status_ w = WPendingApproval) then set_stage "maker_approved" w else w)))
     else tret tt) in
  await* _ :=
    (if isFullyApproved && makerCheckerEnabled cfg
        && (money_action (ar_action_type row) || String.eqb (ar_action_type row) "global_control_action")
     then tcatch
       (await* _ := stmt (update_request id (set_attempt (ex_now env)
                            (JObj [("trigger", JStr "auto_on_approval")]))) in
        executeMakerCheckerIfFullyApproved env id row)
       (λ e, await* _ := stmt (update_request id (set_executed false (Some (js_slice 1000 e)))) in tret tt)
     else tret tt) in
  tret (true, if isFullyApproved then "Request fully approved and executed where applicable"
              else "Approved (" +:+ pretty newApprovals +:+ "/" +:+ pretty required +:+ ")").

(** From the write on: [request] is the row that was read. *)
Definition record_approval (cfg : approval_config) (env : exec_env) (id adminId : string)
    (request : ApprovalRequest) : thread approval_db approve_result :=
  let newApprovals := ar_current request + 1 in
  let newApprovers := ar_approved_by request ++ [adminId] in
  let isFullyApproved := ar_required request <=? newApprovals in
  await* upd := stmt (update_request id (set_approvals newApprovals newApprovers
    (if isFullyApproved then ApApproved else ApPending)
    (if isFullyApproved then Some (ex_now env) else None))) in
  match upd with
  | None => tthrow "Cannot read properties of undefined"
  | Some row => after_approval cfg env id newApprovals (ar_required request) row
  end.

Definition approve_read (cfg : approval_config) (env : exec_env) (id adminId adminRole : string)
    (request : option ApprovalRequest) : thread approval_db approve_result :=
  match request with
  | None => refuse "Approval request not found"
  | Some request =>
      if negb (bool_decide (ar_status request = ApPending))
      then refuse ("Request is already " +:+ approval_status_text (ar_status request))
      else if ar_expires_at request <? ex_now env then
        await* _ := stmt (update_request id (set_state ApExpired)) in refuse "Request has expired"
      else if String.eqb (ar_requested_by request) adminId then refuse "Cannot approve your own request"
      else if match ar_maker_unlock_at request with Some t => ex_now env <? t | None => false end
      then refuse "Maker-checker delay not elapsed"
      else if bool_decide (adminId ∈ ar_approved_by request)
      then refuse "You have already approved this request"
      else
        await* no := policy_refusal request adminId adminRole in
        match no with
        | Some msg => refuse msg
        | None => record_approval cfg env id adminId request
        end
  end.

Definition approveRequest (cfg : approval_config) (env : exec_env) (id adminId adminRole : string) :
    thread approval_db approve_result :=
  await* request := stmt (select_request id) in
  approve_read cfg env id adminId adminRole request.

(** ** The other operations *)
Definition reject_read (id adminId : string) (reason : option string) (request : option ApprovalRequest) :
    thread approval_db approve_result :=
  match request with
  | None => refuse "Approval request not found"
  | Some request =>
      if negb (bool_decide (ar_status request = ApPending))
      then refuse ("Request is already " +:+ approval_status_text (ar_status request))
      else await* _ := stmt (update_request id (set_rejected adminId reason)) in tret (true, "Request rejected")
  end.
Definition rejectRequest (id adminId : string) (reason : option string) : thread approval_db approve_result :=
  await* request := stmt (select_request id) in reject_read id adminId reason request.

(** [UPDATE ... SET status = 'expired' WHERE status = 'pending' AND expires_at < NOW()] *)
Definition expireStalePending (now : Z) : M approval_db unit :=
  modify (λ d, set_requests ((λ r, if bool_decide (ar_status r = ApPending) && (ar_expires_at r <? now)
                                   then set_state ApExpired r else r) <$> ap_requests d) d).

Definition markExecutionRetry (now : Z) (id actorAdminId reason : string) (context : list (string * json)) :
    M approval_db (option ApprovalRequest) :=
  update_request id (set_attempt now (JObj ([("retry_reason", JStr reason);
    ("actor_admin_id", JStr actorAdminId)] ++ context))).

(** ** The routes *)

(** [POST /approval-requests/:id/retry-execution] *)
Definition retryExecution (env : exec_env) (id adminId reason : string) : thread approval_db approve_result :=
  if bool_decide (String.length (js_trim reason) < 8)%nat then refuse "REASON_REQUIRED"
  else
    tcatch
      (await* req := stmt (select_request id) in
       match req with
       | None => refuse "NOT_FOUND"
       | Some req =>
           if negb (bool_decide (ar_status req = ApApproved)) then refuse "INVALID_STATUS"
           else
             await* _ := stmt (markExecutionRetry (ex_now env) id adminId (js_trim reason) [("trigger", JStr "manual_retry")]) in
             await* _ := executeMakerCheckerIfFullyApproved env id req in
             tret (true, "retried")
       end)
      (λ e, refuse e).

(** [POST /approval-requests/:id/break-glass-execute], after the checks of the session *)
Definition break_glass_tx (env : exec_env) (id adminId ticketId : string) (req : ApprovalRequest) :
    M approval_db unit :=
  (if bool_decide (ar_status req = ApApproved) then ret tt
   else
     let approvers := ar_approved_by req in
     let withActor := if bool_decide (adminId ∈ approvers) then approvers else approvers ++ [adminId] in
     update_request id (λ r, set_approvals (Z.max (ar_required r) (ar_current r)) withActor ApApproved
                               (Some (ex_now env)) r) ;;; ret tt) ;;;
  modify (add_break_glass (adminId, ticketId)).

Definition breakGlassExecute (env : exec_env) (id adminId ip reason ticketId : string) :
    thread approval_db approve_result :=
  let reason := js_trim reason in
  let ticketId := js_trim ticketId in
  if bool_decide (String.length reason < 8)%nat || bool_decide (String.length ticketId < 4)%nat
  then refuse "INVALID_BREAK_GLASS_INPUT"
  else
    tcatch
      (await* req := stmt (select_request id) in
       match req with
       | None => refuse "NOT_FOUND"
       | Some req =>
           if bool_decide (ar_status req = ApRejected) || bool_decide (ar_status req = ApExpired)
           then refuse "INVALID_STATUS"
           else
             await* _ := stmt (break_glass_tx env id adminId ticketId req) in
             await* reloaded := stmt (select_request id) in
             match reloaded with
             | None => refuse "RELOAD_FAILED"
             | Some approvedReq =>
                 await* _ := stmt (markExecutionRetry (ex_now env) id adminId reason
                                   [("trigger", JStr "break_glass"); ("ticket_id", JStr ticketId); ("ip", JStr ip)]) in
                 await* _ := executeMakerCheckerIfFullyApproved env id approvedReq in
                 tret (true, "executed")
             end
       end)
      (λ e, refuse e).
End Execute.
