(* ===== verification/Approvals.v ===== *)
(** * Maker-checker approvals: what is kept and what goes wrong

    Under all interleavings of approvals, rejections, expiry, retries and break-glass
    executions an approved request has distinct checkers, none of them its maker, and enough
    of them unless it was broken open, and fewer admins than a request requires move nothing. A full approval of a manual credit has its exact effect. Two
    final approvals at the same time credit twice, and an approval that was read before a
    rejection undoes it. *)
From stdpp Require Import base gmap strings list fin_maps relations.
From Stdlib Require Import ZArith Lia Ascii.
From S2P Require Import Prelude Threads Money Balances Escrow Halt SettlementModel SettlementWorker WithdrawalModel ApprovalModel.
Local Open Scope Z_scope.

Section Approvals.
Context `{DecimalJs, Runtime}.

(** ** The invariant of a request *)
Record row_ok (r : ApprovalRequest) : Prop := {
  ro_distinct : NoDup (ar_approved_by r);
  ro_not_maker : ar_requested_by r ∉ ar_approved_by r;
  ro_count : ar_status r = ApPending → ar_current r = Z.of_nat (length (ar_approved_by r));
}.

(** The columns no statement writes. *)
Definition same_request (r r' : ApprovalRequest) : Prop :=
  ar_action_type r' = ar_action_type r ∧ ar_payload r' = ar_payload r ∧
  ar_requested_by r' = ar_requested_by r ∧ ar_required r' = ar_required r.

Lemma same_request_refl r : same_request r r.
Proof. done. Qed.
Lemma same_request_trans r1 r2 r3 : same_request r1 r2 → same_request r2 r3 → same_request r1 r3.
Proof. intros (? & ? & ? & ?) (? & ? & ? & ?). split_and!; congruence. Qed.

(** What the executions of requests change: money, withdrawals (their stage is a note of the
    first approval), settings, halts. *)
Definition unstaged (c : withdraw_db) : withdraw_db :=
  WithdrawDb (wdb_core c) (token_rows c) (set_stage "" <$> withdrawals c) (signing_queue c) (hot_wallets c) (chains c).
Definition effects (d : approval_db) :
    withdraw_db * gmap string json * option string * bool * bool * list (option string) :=
  (unstaged (ap_core d), ap_settings d, ap_halt d, ap_mm_paused d, ap_mm_blocked d, ap_cancel_alls d).

(** [few]: the admins who approve, when they are fewer than every request requires, and
    the effects there have been. [opened]: the requests that break-glass executions name. *)
Context (opened : list string).
Context (few : option (list string * (withdraw_db * gmap string json * option string * bool * bool * list (option string)))).

Definition checkers (admins : list string) (r : ApprovalRequest) : list string :=
  filter (λ a, a ≠ ar_requested_by r) admins.
Definition few_ok (r : ApprovalRequest) : Prop :=
  ∀ admins eff, few = Some (admins, eff) →
    ar_approved_by r ⊆ admins ∧ Z.of_nat (length (checkers admins r)) < ar_required r ∧
    ar_status r ≠ ApApproved.

(** An approved request has as many approvers as it requires, or one of its approvers broke
    it open, which the log of [admin_break_glass_events] knows. *)
Definition enough (id : string) (log : list (string * string)) (r : ApprovalRequest) : Prop :=
  ar_status r = ApApproved →
  ar_required r ≤ Z.of_nat (length (ar_approved_by r))
  ∨ id ∈ opened ∧ ∃ admin ticket, admin ∈ ar_approved_by r ∧ (admin, ticket) ∈ log.

Record ap_ok (d : approval_db) : Prop := {
  ao_rows : ∀ id r, ap_requests d !! id = Some r → row_ok r ∧ few_ok r ∧ enough id (ap_break_glass d) r;
  ao_effects : ∀ admins eff, few = Some (admins, eff) → effects d = eff;
}.

Definition ap_grows (d d' : approval_db) : Prop :=
  ap_break_glass d ⊆ ap_break_glass d' ∧
  ∀ id r, ap_requests d !! id = Some r → ∃ r', ap_requests d' !! id = Some r' ∧ same_request r r'.

Lemma ap_grows_refl d : ap_grows d d.
Proof. split; [done|]. intros id r Hr. exists r. split; [done|apply same_request_refl]. Qed.
Lemma ap_grows_trans d1 d2 d3 : ap_grows d1 d2 → ap_grows d2 d3 → ap_grows d1 d3.
Proof.
  intros [Hb1 H1] [Hb2 H2]. split; [by etrans|]. intros id r Hr. destruct (H1 id r Hr) as (r2 & Hr2 & Hs2). destruct (H2 id r2 Hr2) as (r3 & Hr3 & Hs3).
  exists r3. split; [done|by apply (same_request_trans r r2)].
Qed.

Notation spec := (spec ap_ok ap_grows).
Notation stable := (stable ap_ok ap_grows).

(** The request is there, as its fixed columns were read. *)
Definition known (id : string) (r : ApprovalRequest) (d : approval_db) : Prop :=
  ∃ r', ap_requests d !! id = Some r' ∧ same_request r r'.

Lemma known_stable id r : stable (known id r).
Proof.
  intros d d' _ _ (r1 & Hr1 & Hs1) [_ HG]. destruct (HG id r1 Hr1) as (r2 & Hr2 & Hs2).
  exists r2. split; [done|by apply (same_request_trans r r1)].
Qed.

Lemma checkers_same admins r r' : same_request r r' → checkers admins r' = checkers admins r.
Proof. intros (_ & _ & Hm & _). unfold checkers. by rewrite Hm. Qed.

(** A statement that reads. *)
Lemma spec_gets {A} (f : approval_db → A) (P : approval_db → Prop) :
  stable P → spec P (stmt (gets f)) (λ _ d, P d).
Proof.
  intros HP. apply (spec_stmt _ _ ap_grows_refl); [done|done|]. intros d Hd Hp.
  split_and!; [done|apply ap_grows_refl|done].
Qed.

Lemma enough_grows id log log' r : log ⊆ log' → enough id log r → enough id log' r.
Proof.
  intros Hsub Hen Hst. destruct (Hen Hst) as [?|(? & admin & ticket & ? & ?)]; [by left|right].
  split; [done|]. exists admin, ticket. split; [done|by apply Hsub].
Qed.

Lemma spec_update id f (P : approval_db → Prop) :
  stable P →
  (∀ d r, ap_ok d → P d → ap_requests d !! id = Some r → ar_requested_by (f r) ∉ ar_approved_by (f r) →
    row_ok (f r) ∧ few_ok (f r) ∧ enough id (ap_break_glass d) (f r) ∧ same_request r (f r)) →
  spec P (stmt (update_request id f)) (λ _ d, P d).
Proof.
  intros HP Hf. apply (spec_stmt _ _ ap_grows_refl); [done|done|]. intros d Hd Hp.
  unfold update_request, bind, gets. destruct (ap_requests d !! id) as [r|] eqn:E;
    [|split_and!; [done|apply ap_grows_refl|done]].
  unfold require, admin_approval_no_self_approve, ret, throw, modify.
  case_bool_decide as Hself; [|done].
  destruct (Hf d r Hd Hp E Hself) as (Hok & Hfew & Hen & Hs).
  assert (ap_grows d (set_requests (<[id := f r]> (ap_requests d)) d)) as HG.
  { split; [done|]. intros i r0 Hr0. simpl. destruct (decide (id = i)) as [<-|Hne].
    - simplify_eq. exists (f r). by rewrite lookup_insert_eq.
    - exists r0. rewrite lookup_insert_ne by done. split; [done|apply same_request_refl]. }
  assert (ap_ok (set_requests (<[id := f r]> (ap_requests d)) d)) as Hd'.
  { split; [|apply Hd]. intros i r0. simpl. rewrite lookup_insert_Some. intros [[<- <-]|[_ Hr0]]; [done|].
    by apply (ao_rows _ Hd i). }
  split_and!; [done|done|]. by apply (HP d).
Qed.

(** Updates that leave the approvals as they are. *)
Lemma spec_update_kept id f (P : approval_db → Prop) :
  stable P →
  (∀ r, same_request r (f r) ∧ ar_approved_by (f r) = ar_approved_by r ∧ ar_current (f r) = ar_current r ∧
    (ar_status (f r) = ApApproved → ar_status r = ApApproved) ∧
    (ar_status (f r) = ApPending → ar_status r = ApPending)) →
  spec P (stmt (update_request id f)) (λ _ d, P d).
Proof.
  intros HP Hf. apply spec_update; [done|]. intros d r Hd _ Hr _.
  destruct (Hf r) as (Hs & Ha & Hc & Hst & Hpe). destruct (ao_rows _ Hd id r Hr) as ([Hnd Hnm Hct] & Hfew & Hen).
  pose proof Hs as (_ & _ & Hm & Hreq). split_and!; [split|..].
  - by rewrite Ha.
  - by rewrite Ha, Hm.
  - rewrite Ha, Hc. auto.
  - intros admins eff He. rewrite Ha, Hreq, (checkers_same admins r) by done.
    destruct (Hfew admins eff He) as (? & ? & ?). split_and!; [done|done|by intros ?%Hst].
  - unfold enough. rewrite Ha, Hreq. auto.
  - done.
Qed.

(** Statements on the other tables. *)
Lemma spec_other {A} (m : M approval_db A) (P : approval_db → Prop) :
  stable P →
  (∀ d, match m d with Ret (_, d') => ap_requests d' = ap_requests d ∧ ap_break_glass d ⊆ ap_break_glass d' ∧
                                      (few ≠ None → effects d' = effects d)
                     | Throw _ => True end) →
  spec P (stmt m) (λ _ d, P d).
Proof.
  intros HP Hm. apply (spec_stmt _ _ ap_grows_refl); [done|done|]. intros d Hd Hp. specialize (Hm d).
  destruct (m d) as [[a d']|e]; [|done]. destruct Hm as (Hr & Hb & He).
  assert (ap_grows d d') as HG
    by (split; [done|]; intros i r Hi; exists r; rewrite Hr; split; [done|apply same_request_refl]).
  assert (ap_ok d') as Hd'.
  { split.
    { intros i r. rewrite Hr. intros Hi. destruct (ao_rows _ Hd i r Hi) as (? & ? & Hen). split_and!; [done..|].
      by apply (enough_grows i (ap_break_glass d)). }
    intros admins eff Hfew. rewrite He by (by rewrite Hfew). by apply (ao_effects _ Hd admins). }
  split_and!; [done|done|by apply (HP d)].
Qed.

#[local] Instance ap_grows_reflexive : Reflexive ap_grows := ap_grows_refl.
Notation keeps := (keeps ap_ok ap_grows).

Lemma keeps_update id f :
  (∀ r, same_request r (f r) ∧ ar_approved_by (f r) = ar_approved_by r ∧ ar_current (f r) = ar_current r ∧
    (ar_status (f r) = ApApproved → ar_status r = ApApproved) ∧
    (ar_status (f r) = ApPending → ar_status r = ApPending)) →
  keeps (stmt (update_request id f)).
Proof. intros Hf P HP. by apply spec_update_kept. Qed.

Lemma policy_refusal_keeps r a ro : keeps (policy_refusal r a ro).
Proof.
  unfold policy_refusal, role_of. destruct (_ || _); [apply keeps_ret|].
  apply keeps_bind; [apply keeps_gets|]. intros pol. apply keeps_bind.
  - destruct (pol_distinct_role pol); [|apply keeps_ret]. apply keeps_bind; [apply keeps_gets|]. intros mk.
    apply keeps_bind; [destruct (negb _); [apply keeps_ret|apply keeps_gets]|]. intros c. apply keeps_ret.
  - intros same. destruct same; [apply keeps_ret|]. case_bool_decide; [apply keeps_ret|].
    apply keeps_bind; [destruct (negb _); [apply keeps_ret|apply keeps_gets]|]. intros c.
    destruct (_ || _); apply keeps_ret.
Qed.

Lemma mark_executed_keeps id : keeps (stmt (mark_executed id)).
Proof.
  intros P HP. apply (spec_stmt _ _ ap_grows_refl); [done|done|]. intros d Hd Hp.
  pose proof (keeps_update id (set_executed true None) (λ r, conj (same_request_refl _) (conj eq_refl (conj eq_refl (conj (λ h, h) (λ h, h)))))
    P HP d Hd Hp) as Hs.
  simpl in Hs. destruct (Hs d Hd (ap_grows_refl d)) as [_ Hm]. unfold transaction in Hm.
  unfold mark_executed, bind. unfold bind in Hm. destruct (update_request _ _ d) as [[o d']|e]; simpl.
  - destruct Hm as (? & ? & _ & ?). done.
  - done.
Qed.

(** ** Executions: they touch requests only to mark them *)
Lemma set_controls_requests h p b c d : ap_requests (set_controls h p b c d) = ap_requests d.
Proof. done. Qed.

Lemma zoom_core_keeps {A} (m : M withdraw_db A) : few = None → keeps (stmt (zoom (S := approval_db) m)).
Proof.
  intros Hfew P HP. apply spec_other; [done|]. intros d. unfold zoom.
  destruct (m _) as [[a t]|e]; [|done]. split_and!; [done|done|]. by rewrite Hfew.
Qed.
Lemma zoom_balances_keeps {A} (m : M balances A) : few = None → keeps (stmt (zoom (S := approval_db) m)).
Proof.
  intros Hfew P HP. apply spec_other; [done|]. intros d. unfold zoom.
  destruct (m _) as [[a t]|e]; [|done]. split_and!; [done|done|]. by rewrite Hfew.
Qed.
Lemma run_approveWithdrawal_keeps env id : few = None → keeps (stmt (run_approveWithdrawal env id)).
Proof.
  intros Hfew P HP. apply spec_other; [done|]. intros d. unfold run_approveWithdrawal.
  destruct (approveWithdrawal _ _ _ _ _) as [o n]. split_and!; [done|done|]. by rewrite Hfew.
Qed.

Lemma global_action_keeps action pl a : few = None → keeps (stmt (executeGlobalControlAction action pl a)).
Proof.
  intros Hfew P HP. apply spec_other; [done|]. intros d. unfold executeGlobalControlAction, put_setting.
  repeat case_match; simplify_eq/=; try done; (split_and!; [| |by rewrite Hfew]);
    repeat match goal with
    | E : bind _ _ _ = Ret _ |- _ => run_all E
    | E : modify _ _ = Ret _ |- _ => apply modify_inv in E as ->
    | E : ret _ _ = Ret _ |- _ => apply ret_inv in E as [_ ->]
    end; done.
Qed.

Lemma execute_keeps env id r : few = None → keeps (executeMakerCheckerIfFullyApproved env id r).
Proof.
  intros Hfew. unfold executeMakerCheckerIfFullyApproved.
  destruct (_ || _); [apply keeps_ret|]. case_bool_decide; [apply keeps_throw|].
  destruct (String.eqb _ "withdrawal_approve"); [|destruct (String.eqb _ "manual_credit");
    [|destruct (String.eqb _ "global_control_action"); [|apply keeps_ret]]].
  - unfold execute_withdrawal. destruct (String.eqb _ ""); [apply keeps_throw|].
    destruct (last _); [|apply keeps_throw].
    apply keeps_bind; [by apply run_approveWithdrawal_keeps|]. intros [u|e]; [apply mark_executed_keeps|apply keeps_throw].
  - unfold execute_credit. destruct (_ || _); [apply keeps_throw|].
    destruct (credit_amount _) as [amount|e]; [|apply keeps_throw].
    apply keeps_bind; [apply keeps_gets|]. intros [u|]; [|apply keeps_throw].
    apply keeps_bind; [apply keeps_gets|]. intros [c|]; [|apply keeps_throw].
    apply keeps_bind; [destruct (String.eqb _ ""); [apply keeps_ret|apply keeps_gets]|]. intros [].
    + apply mark_executed_keeps.
    + apply keeps_bind; [by apply zoom_balances_keeps|]. intros _. apply mark_executed_keeps.
  - unfold execute_global. destruct (negb _); [apply keeps_throw|].
    apply keeps_bind; [by apply global_action_keeps|]. intros _. apply mark_executed_keeps.
Qed.

(** ** Approvals *)
Definition read_row (id : string) (r : ApprovalRequest) (d : approval_db) : Prop :=
  row_ok r ∧ few_ok r ∧ known id r d.

Lemma spec_select id :
  spec (λ _, True) (stmt (select_request id))
    (λ o d, match o with Ret (Some r) => read_row id r d | _ => True end).
Proof.
  apply (spec_stmt _ _ ap_grows_refl); [apply stable_const|done|]. intros d Hd _.
  unfold select_request, gets. split_and!; [done|apply ap_grows_refl|].
  destruct (ap_requests d !! id) as [r|] eqn:E; [|done]. destruct (ao_rows _ Hd id r E) as (? & ? & _).
  split_and!; [done|done|]. exists r. split; [done|apply same_request_refl].
Qed.

Lemma read_row_stable id r : stable (read_row id r).
Proof. apply stable_and; [apply stable_const|]. apply stable_and; [apply stable_const|exact (known_stable id r)]. Qed.

(** With too few admins the last approval is never reached. *)
Lemma few_not_enough r a :
  row_ok r → few_ok r → ar_status r = ApPending → a ∉ ar_approved_by r → a ≠ ar_requested_by r →
  (∀ admins eff, few = Some (admins, eff) → a ∈ admins) →
  few ≠ None → ar_required r <=? ar_current r + 1 = false.
Proof.
  intros [Hnd Hnm Hct] Hfew Hpe Ha Hne Hin Hsome. destruct few as [[admins eff]|] eqn:E; [|done].
  specialize (Hct Hpe). destruct (Hfew admins eff E) as (Hsub & Hlt & _). specialize (Hin admins eff eq_refl). apply Z.leb_gt.
  assert (length (ar_approved_by r ++ [a]) ≤ length (checkers admins r))%nat as Hle.
  { apply submseteq_length, NoDup_submseteq.
    - apply NoDup_app. split; [done|]. split; [|by apply NoDup_singleton].
      intros x Hx Hx'. apply list_elem_of_singleton in Hx' as ->. done.
    - intros x Hx. apply list_elem_of_filter. apply elem_of_app in Hx as [Hx|Hx].
      + split; [by intros ->|by apply Hsub].
      + apply list_elem_of_singleton in Hx as ->. done. }
  rewrite length_app in Hle. simpl in Hle. lia.
Qed.

Lemma spec_record_approval cfg env id a r :
  ar_status r = ApPending → a ∉ ar_approved_by r → a ≠ ar_requested_by r →
  (∀ admins eff, few = Some (admins, eff) → a ∈ admins) →
  spec (read_row id r) (record_approval cfg env id a r) (λ _ _, True).
Proof.
  intros Hpe Ha Hne Hin d Hd Hr. pose proof Hr as (Hok & Hfew & _).
  pose proof (few_not_enough r a Hok Hfew Hpe Ha Hne Hin) as Hmore. revert d Hd Hr.
  unfold record_approval. set (full := ar_required r <=? ar_current r + 1) in *.
  eapply (spec_bind _ _ _ _ _ (λ _ d, read_row id r d)); [| |done].
  { apply spec_update; [apply read_row_stable|]. intros d r' Hd (_ & _ & r1 & Hr1 & Hs) Hr' _. simplify_eq.
    destruct Hok as [Hnd Hnm Hct]. specialize (Hct Hpe). destruct Hs as (Hat & Hpl & Hm & Hreq).
    split_and!; [split|..]; simpl.
    - apply NoDup_app. split; [done|]. split; [|by apply NoDup_singleton].
      intros x Hx Hx'. apply list_elem_of_singleton in Hx' as ->. done.
    - rewrite Hm, elem_of_app, list_elem_of_singleton. intros [?|<-]; done.
    - intros _. rewrite length_app, Hct. simpl. lia.
    - intros admins eff He. destruct (Hfew admins eff He) as (Hsub & Hlt & _). simpl. split_and!.
      + intros x [Hx|Hx]%elem_of_app; [by apply Hsub|]. apply list_elem_of_singleton in Hx as ->. by apply (Hin admins eff).
      + unfold checkers in *. simpl. by rewrite Hm, Hreq.
      + rewrite Hmore; [done|by rewrite He].
    - intros Hst. left. simpl in *. rewrite Hreq, length_app, Nat2Z.inj_add, <- Hct. unfold full in Hst.
      by destruct (Z.leb_spec (ar_required r) (ar_current r + 1)).
    - done. }
  intros [row|]; [|by apply spec_throw]. unfold after_approval. fold full.
  eapply (spec_bind _ _ _ _ _ (λ _ d, read_row id r d)); [| |done].
  { destruct (_ && _); [|by apply spec_ret]. destruct (String.eqb _ ""); [by apply spec_ret|].
    apply spec_other; [apply read_row_stable|]. intros d. unfold zoom, update_w, modify. simpl. split_and!; [done|done|]. intros _.
    unfold effects. f_equal. f_equal. f_equal. f_equal. f_equal. simpl.
    destruct (withdrawals (ap_core d) !! _) as [w|] eqn:Ew; [|by destruct (ap_core d)].
    unfold unstaged, put_withdrawal. simpl. f_equal. rewrite fmap_insert. apply insert_id.
    rewrite lookup_fmap, Ew. simpl. f_equal. by case_bool_decide. }
  intros _. eapply (spec_bind _ _ _ _ _ (λ _ d, read_row id r d)); [|by intros; apply spec_ret|done].
  destruct (full && _ && _) eqn:Efull; [|by apply spec_ret].
  apply andb_prop in Efull as [Efull _]. apply andb_prop in Efull as [Efull _].
  assert (few = None) as Hnone.
  { destruct few as [x|]; [|done]. rewrite Hmore in Efull; [done|done]. }
  apply (keeps_catch _ _); [| |apply read_row_stable].
  - apply keeps_bind; [by apply keeps_update|]. intros _. by apply execute_keeps.
  - intros e. apply keeps_bind; [by apply keeps_update|]. intros _. apply keeps_ret.
Qed.

Lemma spec_approve_read cfg env id a ro r :
  (∀ admins eff, few = Some (admins, eff) → a ∈ admins) →
  spec (λ d, match r with Some r => read_row id r d | None => True end)
    (approve_read cfg env id a ro r) (λ _ _, True).
Proof.
  intros Hin. unfold approve_read, refuse. destruct r as [r|]; [|by apply spec_ret].
  case_bool_decide as Hpe; [|by apply spec_ret]. cbn [negb]. destruct (_ <? _).
  { eapply spec_post; [|apply (keeps_bind _ _ (keeps_update id (set_state ApExpired) ltac:(done))
      (λ _, keeps_ret _) _ (read_row_stable id r))]. done. }
  destruct (String.eqb_spec (ar_requested_by r) a) as [|Hne]; [by apply spec_ret|].
  destruct (match ar_maker_unlock_at r with Some _ => _ | None => _ end); [by apply spec_ret|].
  case_bool_decide as Ha; [by apply spec_ret|].
  eapply (spec_bind _ _ _ _ _ (λ _ d, read_row id r d)); [apply policy_refusal_keeps, read_row_stable| |done].
  intros [msg|]; [by apply spec_ret|]. by apply spec_record_approval.
Qed.

Lemma spec_approve cfg env id a ro :
  (∀ admins eff, few = Some (admins, eff) → a ∈ admins) →
  spec (λ _, True) (approveRequest cfg env id a ro) (λ _ _, True).
Proof.
  intros Hin. eapply spec_bind; [apply spec_select| |done]. intros r. by apply spec_approve_read.
Qed.

Lemma spec_reject id a reason : spec (λ _, True) (rejectRequest id a reason) (λ _ _, True).
Proof.
  eapply spec_bind; [apply spec_select| |done]. intros r. unfold reject_read, refuse.
  destruct r as [r|]; [|by apply spec_ret]. destruct (negb _); [by apply spec_ret|].
  eapply spec_post; [|apply (keeps_bind _ _ (keeps_update id (set_rejected a reason) ltac:(done))
      (λ _, keeps_ret _) _ (read_row_stable id r))]. done.
Qed.

Lemma spec_retry env id a reason : spec (λ _, True) (retryExecution env id a reason) (λ _ _, True).
Proof.
  unfold retryExecution, refuse. case_bool_decide; [by apply spec_ret|].
  apply (spec_catch _ _ _ _ _ (λ _ _, True)); [|done|by intros; apply spec_ret].
  eapply spec_bind; [apply spec_select| |done]. intros [r|]; [|by apply spec_ret].
  case_bool_decide as Hst; [|by apply spec_ret]. cbn [negb]. intros d Hd Hr.
  pose proof Hr as (_ & Hfew & _).
  assert (few = None) as Hnone.
  { destruct few as [[admins eff]|] eqn:E; [|done]. by destruct (Hfew admins eff E) as (_ & _ & ?). }
  revert d Hd Hr. eapply spec_post; [by intros|].
  refine (keeps_bind _ _ _ _ (read_row id r) (read_row_stable id r)).
  - by apply keeps_update.
  - intros _. apply keeps_bind; [by apply execute_keeps|]. intros _. apply keeps_ret.
Qed.

(** A break-glass execution: it counts the admin among the approvers, and is logged. *)
Lemma spec_break_glass_tx env id a ticket r :
  few = None → id ∈ opened → ar_status r = ApPending ∨ ar_status r = ApApproved →
  spec (read_row id r) (stmt (break_glass_tx env id a ticket r)) (λ _ _, True).
Proof.
  intros Hno Hid Hst. apply (spec_stmt _ _ ap_grows_refl); [apply read_row_stable|done|]. intros d Hd Hr.
  assert (∀ d1, ap_requests d1 = ap_requests d → ap_break_glass d1 = ap_break_glass d →
    ap_ok (add_break_glass (a, ticket) d1) ∧ ap_grows d (add_break_glass (a, ticket) d1)) as Hlog.
  { intros d1 Hr1 Hb1. assert (ap_break_glass d ⊆ ap_break_glass (add_break_glass (a, ticket) d1)) as Hsub
      by (simpl; rewrite Hb1; set_solver).
    split; [split|split; [done|]].
    - intros i r0. simpl. rewrite Hr1. intros Hi. destruct (ao_rows _ Hd i r0 Hi) as (? & ? & Hen).
      split_and!; [done..|]. by apply (enough_grows i (ap_break_glass d)).
    - intros admins eff. by rewrite Hno.
    - intros i r0 Hi. exists r0. simpl. rewrite Hr1. split; [done|apply same_request_refl]. }
  unfold break_glass_tx. case_bool_decide as Hap.
  { unfold bind, ret, modify. apply and_assoc. split; [by apply Hlog|done]. }
  destruct Hst as [Hpe|]; [|done]. set (app := if bool_decide _ then _ else _).
  destruct Hr as ([Hnd Hnm Hct] & Hfew & r1 & Hr1 & (Hat & Hpl & Hm & Hreq)).
  unfold bind, update_request, bind, gets, require, admin_approval_no_self_approve, ret, throw, modify.
  rewrite Hr1.
  case_bool_decide as Hself; [|done]. simpl.
  set (r2 := set_approvals _ _ _ _ _).
  assert (NoDup app ∧ a ∈ app) as [Hnd' Hin].
  { unfold app. case_bool_decide as Ha; [done|]. split; [|set_solver].
    apply NoDup_app. split; [done|]. split; [|by apply NoDup_singleton].
    intros x Hx Hx'. apply list_elem_of_singleton in Hx' as ->. done. }
  destruct (Hlog d eq_refl eq_refl) as [[Hrows Heff] [Hb Hg]]. split; [split|split; [split; [done|]|done]].
  - intros i r0. simpl. rewrite lookup_insert_Some. intros [[<- <-]|[_ Hi]]; [|by apply (Hrows i)].
    split_and!; [by split|intros admins eff; by rewrite Hno|]. intros _. right. split; [done|].
    exists a, ticket. split; [done|]. set_solver.
  - intros admins eff. by rewrite Hno.
  - intros i r0 Hi. simpl. destruct (decide (id = i)) as [<-|Hne].
    + exists r2. rewrite lookup_insert_eq. split; [done|]. simplify_eq. split_and!; done.
    + exists r0. rewrite lookup_insert_ne by done. split; [done|apply same_request_refl].
Qed.

Lemma spec_break_glass env id a ip reason ticket :
  few = None → id ∈ opened → spec (λ _, True) (breakGlassExecute env id a ip reason ticket) (λ _ _, True).
Proof.
  intros Hno Hid. unfold breakGlassExecute, refuse. cbv zeta. destruct (_ || _); [by apply spec_ret|].
  apply (spec_catch _ _ _ _ _ (λ _ _, True)); [|done|by intros; apply spec_ret].
  eapply spec_bind; [apply spec_select| |done]. intros [r|]; [|by apply spec_ret].
  destruct (_ || _) eqn:Est; [by apply spec_ret|]. bool_prop.
  eapply spec_bind; [apply spec_break_glass_tx; [done|done|]| |done].
  { destruct (ar_status r); [by left|by right|done..]. }
  intros []. eapply spec_bind with (R := λ _ _, True); [by eapply spec_post; [|apply spec_select]| |done].
  intros [r2|]; [|by apply spec_ret]. eapply spec_post; [by intros|].
  refine (keeps_bind _ _ _ _ (λ _, True) ltac:(apply stable_const)).
  - by apply keeps_update.
  - intros _. apply keeps_bind; [by apply execute_keeps|]. intros _. apply keeps_ret.
Qed.

(** ** All interleavings *)

(** New requests and the expiry job. *)
Inductive approval_env : approval_db → approval_db → Prop :=
  | env_create cfg now id ty pl maker custom d r d' :
      createRequest cfg now id ty pl maker custom d = Ret (r, d') →
      (∀ admins eff, few = Some (admins, eff) → Z.of_nat (length (checkers admins r)) < ar_required r) →
      approval_env d d'
  | env_expire now d d' : expireStalePending now d = Ret (tt, d') → approval_env d d'.

Inductive approval_starts : approval_db → thread approval_db unit → Prop :=
  | start_approve cfg env id a ro d :
      (∀ admins eff, few = Some (admins, eff) → a ∈ admins) →
      approval_starts d (await* _ := approveRequest cfg env id a ro in tret tt)
  | start_reject id a reason d : approval_starts d (await* _ := rejectRequest id a reason in tret tt)
  | start_retry env id a reason d : approval_starts d (await* _ := retryExecution env id a reason in tret tt)
  | start_break_glass env id a ip reason ticket d :
      few = None → id ∈ opened →
      approval_starts d (await* _ := breakGlassExecute env id a ip reason ticket in tret tt).

Definition approval_step : approval_db * list (thread approval_db unit) →
    approval_db * list (thread approval_db unit) → Prop := pool_step approval_env approval_starts.

Lemma approval_env_ok d d' : ap_ok d → approval_env d d' → ap_ok d' ∧ ap_grows d d'.
Proof.
  intros Hd Henv. destruct Henv as [cfg now id ty pl maker custom d r d' Hrun Hfew|now d d' Hrun].
  - unfold createRequest, select_request in Hrun. run_all Hrun. bool_prop. split.
    + split; [|apply Hd]. intros i r0. simpl. rewrite lookup_insert_Some. intros [[<- <-]|[_ Hr0]];
        [|by apply (ao_rows _ Hd i)].
      split_and!; [split; simpl; [constructor|apply not_elem_of_nil|done]| |done].
      intros admins eff He. split_and!; [apply list_subseteq_nil|by apply (Hfew admins eff)|done].
    + split; [done|]. intros i r0 Hr0. exists r0. simpl. rewrite lookup_insert_ne by congruence.
      split; [done|apply same_request_refl].
  - unfold expireStalePending in Hrun. apply modify_inv in Hrun as ->. split.
    + split; [|apply Hd]. intros i r0. simpl. rewrite lookup_fmap. intros (r & Hr & ->)%fmap_Some.
      destruct (ao_rows _ Hd i r Hr) as ([] & Hf & Hen). destruct (_ && _); [|done].
      split_and!; [done| |done]. intros admins eff He. destruct (Hf admins eff He) as (? & ? & _). done.
    + split; [done|]. intros i r Hr. simpl. rewrite lookup_fmap, Hr. simpl. eexists. split; [done|]. by destruct (_ && _).
Qed.

Lemma approval_starts_safe d t :
  ap_ok d → approval_starts d t → safe ap_ok ap_grows t (λ _ _, True) d.
Proof.
  intros Hd Hs. assert (∀ A (p : thread approval_db A),
    spec (λ _, True) p (λ _ _, True) → spec (λ _, True) (await* _ := p in tret tt) (λ _ _, True)) as Hdone.
  { intros A p Hp. eapply spec_bind with (R := λ _ _, True); [exact Hp|by intros; apply spec_ret|done]. }
  destruct Hs as [cfg env id a ro d Hin|id a reason d|env id a reason d|env id a ip reason ticket d Hno Hid]; apply Hdone; try done.
  - by apply spec_approve.
  - apply spec_reject.
  - apply spec_retry.
  - by apply spec_break_glass.
Qed.

Lemma approval_runs_ok d d' ts :
  ap_ok d → rtc approval_step (d, []) (d', ts) → ap_ok d'.
Proof.
  intros Hd Hrun. assert (all_safe ap_ok ap_grows (d', ts)) as [Hd' _]; [|done].
  apply (pool_safe _ _ ap_grows_refl ap_grows_trans approval_env approval_starts (d, []) (d', ts));
    [by apply approval_env_ok|by intros; apply approval_starts_safe|done|]. split; [done|constructor].
Qed.
End Approvals.

(** ** What is kept *)
Section Theorems.
Context `{DecimalJs, Runtime}.

(** C36. Maker-checker. Over all interleavings of new requests, approvals, rejections,
    expiry, execution retries and break-glass executions (of the requests in [opened]), with
    database failures and crashes anywhere and whatever two admins do at once, the approvers
    of a request are distinct admins, its maker is not one of them, and a request that is
    approved has as many of them as it requires, unless one of its approvers broke it open
    under a ticket, which [admin_break_glass_events] then holds. *)
Theorem approved_has_checkers (opened : list string) (d d' : approval_db)
    (ts : list (thread approval_db unit)) (id : string) (r : ApprovalRequest) :
  ap_requests d = ∅ → rtc (approval_step opened None) (d, []) (d', ts) → ap_requests d' !! id = Some r →
  NoDup (ar_approved_by r) ∧ ar_requested_by r ∉ ar_approved_by r ∧
  (ar_status r = ApApproved →
     ar_required r ≤ Z.of_nat (length (ar_approved_by r))
     ∨ id ∈ opened ∧ ∃ admin ticket, admin ∈ ar_approved_by r ∧ (admin, ticket) ∈ ap_break_glass d').
Proof.
  intros He Hrun Hr. assert (ap_ok opened None d) as Hd by (split; [intros i r0; by rewrite He|done]).
  by destruct (ao_rows _ _ _ (approval_runs_ok _ _ _ _ _ Hd Hrun) id r Hr) as ([Hnd Hnm _] & _ & Hen).
Qed.

(** Too few admins move nothing. When every request requires more approvals than there
    are admins who approve (its maker not counted), then in all interleavings of what these
    admins do, rejections, expiry and retries included, no balance, withdrawal, signing
    queue, hot wallet, setting or halt changes: no approval is ever counted twice or
    counted for its maker. *)
Theorem too_few_checkers_move_nothing (d d' : approval_db) (ts : list (thread approval_db unit))
    (admins : list string) :
  ap_requests d = ∅ → rtc (approval_step [] (Some (admins, effects d))) (d, []) (d', ts) →
  effects d' = effects d.
Proof.
  intros He Hrun. assert (ap_ok [] (Some (admins, effects d)) d) as Hd.
  { split; [intros i r0; by rewrite He|by intros ? ? [= <- <-]]. }
  by apply (ao_effects _ _ _ (approval_runs_ok _ _ _ _ _ Hd Hrun) admins).
Qed.

(** ** A full approval of a manual credit *)

(** The last approval that is missing, by an admin who may give it. *)
Record last_approval (cfg : approval_config) (env : exec_env) (r : ApprovalRequest) (a : string) : Prop := {
  la_enabled : makerCheckerEnabled cfg = true;
  la_type : ar_action_type r = "manual_credit";
  la_pending : ar_status r = ApPending;
  la_fresh : ex_now env ≤ ar_expires_at r;
  la_unlocked : ∀ t, ar_maker_unlock_at r = Some t → t ≤ ex_now env;
  la_not_maker : ar_requested_by r ≠ a;
  la_new : a ∉ ar_approved_by r;
  la_last : ar_required r ≤ ar_current r + 1;
  la_not_executed : ar_action_executed r = false;
}.

(** The payload names an active user, a currency and an amount, and no deposit that was
    credited. *)
Record payable (payload : json) (u c : string) (amount : Z) (d : approval_db) : Prop := {
  py_user : find_user (trimmed payload "user") d = Ret (Some u, d);
  py_currency : getCurrencyIdBySymbol (trimmed payload "currency") (wdb_core (ap_core d)) = Some c;
  py_amount : credit_amount (trimmed payload "amount") = Ret amount;
  py_texts : trimmed payload "user" ≠ "" ∧ trimmed payload "currency" ≠ "" ∧ trimmed payload "amount" ≠ "" ∧
             (8 ≤ String.length (trimmed payload "reason"))%nat;
  py_tx : credit_tx_hash payload ∉ ap_credited_txs d ∨ credit_tx_hash payload = "";
}.

Definition credited (u c : string) (amount : Z) (ref : string) (b : balances) : balances :=
  let k := funding_key u c CHAIN_ID_GLOBAL in
  let r := row_of k b in
  post k (add_buckets r amount 0 0 0 0)
    [funding_entry u c 0 amount (available_balance r) (available_balance r + amount) "adjustment" ref Available] b.

Lemma manual_credit_run u c amount ref b :
  balances_wf b → 0 ≤ amount →
  manual_credit_statements u c amount ref b = Ret (tt, credited u c amount ref b).
Proof.
  intros Hwf Ha. unfold manual_credit_statements, credited. set (k := funding_key _ _ _). balance_exec.
  set (r := row_of k b).
  assert (row_nonneg (add_buckets r amount 0 0 0 0) = true) as ->.
  { assert (row_nonneg r = true) as Hr.
    { unfold r, row_of. destruct (user_balances b !! k) as [r0|] eqn:E; [by apply (Hwf k)|done]. }
    unfold row_nonneg in *. apply negb_true_iff in Hr. apply negb_true_iff. bool_prop. simpl.
    repeat (apply orb_false_iff; split); apply Z.ltb_ge; lia. }
  balance_exec. done.
Qed.

(** The amount of a valid payload is positive. *)
Lemma credit_amount_pos s amount : credit_amount s = Ret amount → 0 < amount.
Proof.
  unfold credit_amount. destruct (parse_decimal s) as [[x|]|]; [|done|done].
  destruct (Z.leb_spec (toDP 8 x) 0); [done|]. by intros [= <-].
Qed.

Lemma update_request_run id f d r :
  ap_requests d !! id = Some r → ar_requested_by (f r) ∉ ar_approved_by (f r) →
  update_request id f d = Ret (Some (f r), set_requests (<[id := f r]> (ap_requests d)) d).
Proof.
  intros Hr Hself. unfold update_request, bind, gets. rewrite Hr.
  unfold require, admin_approval_no_self_approve. by rewrite bool_decide_eq_true_2.
Qed.

Lemma mark_executed_run id d r :
  ap_requests d !! id = Some r → ar_requested_by r ∉ ar_approved_by r →
  mark_executed id d = Ret (tt, set_requests (<[id := set_executed true None r]> (ap_requests d)) d).
Proof.
  intros Hr Hself. unfold mark_executed, bind.
  by rewrite (update_request_run id (set_executed true None) d r Hr).
Qed.

(** The credit of an approved request that was not executed. *)
Lemma execute_credit_alone env id req d r u c amount :
  payable (ar_payload req) u c amount d → balances_wf (sget d) →
  ap_requests d !! id = Some r → ar_requested_by r ∉ ar_approved_by r →
  alone (execute_credit env id req) d
  = (Ret tt, set_requests (<[id := set_executed true None r]> (ap_requests d))
               (sput (credited u c amount (ex_ref env) (sget d)) d)).
Proof.
  intros [Hu Hc Ha (Hu0 & Hc0 & Ha0 & Hre) Htx] Hwf Hr Hself. unfold execute_credit.
  destruct (String.eqb_spec (trimmed (ar_payload req) "user") ""); [done|].
  destruct (String.eqb_spec (trimmed (ar_payload req) "currency") ""); [done|].
  destruct (String.eqb_spec (trimmed (ar_payload req) "amount") ""); [done|].
  rewrite bool_decide_eq_false_2 by lia. simpl orb. cbv iota. rewrite Ha.
  rewrite alone_bind, (alone_run _ _ _ _ Hu). cbv beta iota.
  rewrite alone_bind, alone_gets. cbv beta iota. rewrite Hc, alone_bind.
  assert (alone (if String.eqb (credit_tx_hash (ar_payload req)) "" then tret false
                 else stmt (gets (λ d, bool_decide (credit_tx_hash (ar_payload req) ∈ ap_credited_txs d)))) d
          = (Ret false, d)) as ->.
  { destruct (String.eqb_spec (credit_tx_hash (ar_payload req)) ""); [done|].
    simpl. destruct Htx as [Htx|]; [|done]. by rewrite bool_decide_eq_false_2. }
  cbv beta iota. rewrite alone_bind. unfold applyAdminManualCreditCore.
  rewrite (alone_run _ _ _ _ (zoom_Ret _ d tt (credited u c amount (ex_ref env) (sget d))
    (manual_credit_run u c amount (ex_ref env) (sget d) Hwf ltac:(pose proof (credit_amount_pos _ _ Ha); lia)))).
  cbv beta iota. set (d2 := sput _ _). assert (ap_requests d2 !! id = Some r) as Hr2 by exact Hr.
  by rewrite (alone_run _ _ _ _ (mark_executed_run id d2 r Hr2 Hself)).
Qed.

Lemma after_final_approval cfg env id n req row d r u c amount :
  req ≤ n → makerCheckerEnabled cfg = true → ar_action_type row = "manual_credit" →
  ar_status row = ApApproved → ar_action_executed row = false →
  ar_requested_by row ∉ ar_approved_by row →
  payable (ar_payload row) u c amount d → balances_wf (sget d) →
  ap_requests d !! id = Some r → ar_requested_by r ∉ ar_approved_by r →
  ∃ r', same_request r r' ∧ ar_approved_by r' = ar_approved_by r ∧ ar_current r' = ar_current r ∧
    ar_status r' = ar_status r ∧ ar_rejected_by r' = ar_rejected_by r ∧ ar_action_executed r' = true ∧
    alone (after_approval cfg env id n req row) d
    = (Ret (true, "Request fully approved and executed where applicable"),
       set_requests (<[id := r']> (ap_requests d)) (sput (credited u c amount (ex_ref env) (sget d)) d)).
Proof.
  intros Hle Hen Hty Hst Hex Hself Hpay Hwf Hr Hselfr.
  pose proof (update_request_run id (set_attempt (ex_now env) (JObj [("trigger", JStr "auto_on_approval")])) d r
    Hr Hselfr) as Hatt.
  set (ctx := JObj [("trigger", JStr "auto_on_approval")]) in *.
  set (d1 := set_requests (<[id := set_attempt (ex_now env) ctx r]> (ap_requests d)) d).
  exists (set_executed true None (set_attempt (ex_now env) ctx r)). do 6 (split; [done|]).
  unfold after_approval. rewrite (proj2 (Z.leb_le req n) Hle). cbn [negb andb]. rewrite alone_bind.
  cbn [alone tret]. cbv beta iota. rewrite alone_bind, Hen, Hty. cbn [andb money_action].
  change (money_action "manual_credit" || _)%bool with true. cbv iota.
  rewrite alone_catch, alone_bind. fold ctx. rewrite (alone_run _ _ _ _ Hatt). cbv beta iota. fold d1.
  assert (alone (executeMakerCheckerIfFullyApproved env id row) d1 = alone (execute_credit env id row) d1) as ->.
  { unfold executeMakerCheckerIfFullyApproved. rewrite Hst, Hex, Hty. rewrite bool_decide_eq_true_2 by done.
    cbn [negb orb]. rewrite bool_decide_eq_false_2; [done|].
    intros Hlast. apply Hself. by apply last_Some_elem_of. }
  rewrite (execute_credit_alone env id row d1 (set_attempt (ex_now env) ctx r) u c amount).
  - cbn [alone tret]. unfold d1. simpl. by rewrite insert_insert_eq.
  - destruct Hpay as [Hu Hc Ha Ht Htx]. split; [|done..]. unfold find_user, gets in *. simpl.
    injection Hu as Hu. by rewrite Hu.
  - done.
  - unfold d1. simpl. by rewrite lookup_insert_eq.
  - done.
Qed.

Lemma last_approval_read cfg env id a ro r :
  last_approval cfg env r a → approve_read cfg env id a ro (Some r) = record_approval cfg env id a r.
Proof.
  intros [Hen Hty Hp Hf Hu Hm Hn Hl Hx]. unfold approve_read. rewrite Hp.
  rewrite bool_decide_eq_true_2 by done. cbn [negb]. rewrite (proj2 (Z.ltb_ge _ _) Hf).
  destruct (String.eqb_spec (ar_requested_by r) a); [done|].
  assert (match ar_maker_unlock_at r with Some t => ex_now env <? t | None => false end = false) as ->.
  { destruct (ar_maker_unlock_at r) as [t|]; [|done]. by apply Z.ltb_ge, Hu. }
  rewrite bool_decide_eq_false_2 by done. unfold policy_refusal. by rewrite Hty.
Qed.

(** The row after the last approval. *)
Definition fully_approved (env : exec_env) (a : string) (r r1 : ApprovalRequest) : ApprovalRequest :=
  set_approvals (ar_current r + 1) (ar_approved_by r ++ [a]) ApApproved (Some (ex_now env)) r1.

Lemma record_last cfg env id a r r1 d :
  last_approval cfg env r a → ap_requests d !! id = Some r1 → same_request r r1 → row_ok r →
  record_approval cfg env id a r
  = Stmt (update_request id (fully_approved env a r))
      (λ o, tbind (Done o) (λ upd, match upd with
                                    | None => tthrow "Cannot read properties of undefined"
                                    | Some row => after_approval cfg env id (ar_current r + 1) (ar_required r) row
                                    end)) ∧
  update_request id (fully_approved env a r) d
  = Ret (Some (fully_approved env a r r1), set_requests (<[id := fully_approved env a r r1]> (ap_requests d)) d) ∧
  ar_requested_by (fully_approved env a r r1) ∉ ar_approved_by (fully_approved env a r r1).
Proof.
  intros Hla Hr1 (Hty & Hpl & Hmk & Hreq) Hok. pose proof (la_not_maker _ _ _ _ Hla) as Hm.
  assert (ar_requested_by (fully_approved env a r r1) ∉ ar_approved_by (fully_approved env a r r1)) as Hself.
  { simpl. rewrite Hmk, elem_of_app, list_elem_of_singleton. intros [Hin|Heq]; [by apply (ro_not_maker _ Hok)|done]. }
  split_and!; [|by apply update_request_run|done].
  unfold record_approval, fully_approved. by rewrite (proj2 (Z.leb_le _ _) (la_last _ _ _ _ Hla)).
Qed.

(** ** Steps of an approval between those of other admins *)
Lemma read_step cfg env id a ro r d :
  ap_requests d !! id = Some r → last_approval cfg env r a →
  advance false (approveRequest cfg env id a ro) d = Some (record_approval cfg env id a r, d).
Proof.
  intros Hr Hla. unfold approveRequest, stmt. cbn [tbind advance].
  unfold transaction, select_request, gets. rewrite Hr. by rewrite (last_approval_read cfg env id a ro r).
Qed.

Lemma write_step cfg env id a r r1 d :
  last_approval cfg env r a → ap_requests d !! id = Some r1 → same_request r r1 → row_ok r →
  advance false (record_approval cfg env id a r) d
  = Some (after_approval cfg env id (ar_current r + 1) (ar_required r) (fully_approved env a r r1),
          set_requests (<[id := fully_approved env a r r1]> (ap_requests d)) d).
Proof.
  intros Hla Hr1 Hsame Hok. destruct (record_last cfg env id a r r1 d Hla Hr1 Hsame Hok) as (Hrec & Hupd & _).
  rewrite Hrec. cbn [advance]. unfold transaction. by rewrite Hupd.
Qed.

Lemma payable_requests pl u c amount x d : payable pl u c amount d → payable pl u c amount (set_requests x d).
Proof.
  intros [Hu Hc Ha Ht Htx]. split; [|done..]. unfold find_user, gets in *. simpl. injection Hu as Hu. by rewrite Hu.
Qed.
Lemma payable_balances pl u c amount (b : balances) d : payable pl u c amount d → payable pl u c amount (sput b d).
Proof.
  intros [Hu Hc Ha Ht Htx]. split; [|by destruct d as [? [[]]]|done..].
  unfold find_user, gets in *. simpl. injection Hu as Hu. by rewrite Hu.
Qed.

Lemma credited_wf u c amount ref b : balances_wf b → 0 ≤ amount → balances_wf (credited u c amount ref b).
Proof.
  intros Hwf Ha. unfold credited. apply wf_post; [done|]. pose proof (wf_row_of b (funding_key u c CHAIN_ID_GLOBAL) Hwf) as Hr.
  apply row_nonneg_true in Hr. apply row_nonneg_true. simpl. lia.
Qed.

(** What follows the write of the last approval: [row] is what the write returned, [rs] the
    row that is there by now. *)
Lemma final_run cfg env id a r r1 rs d u c amount :
  last_approval cfg env r a → same_request r r1 → row_ok r → ar_action_executed r1 = false →
  payable (ar_payload r) u c amount d → balances_wf (sget d) →
  ap_requests d !! id = Some rs → ar_requested_by rs ∉ ar_approved_by rs →
  ∃ r', same_request rs r' ∧ ar_approved_by r' = ar_approved_by rs ∧
    ar_status r' = ar_status rs ∧ ar_rejected_by r' = ar_rejected_by rs ∧ ar_action_executed r' = true ∧
    alone (after_approval cfg env id (ar_current r + 1) (ar_required r) (fully_approved env a r r1)) d
    = (Ret (true, "Request fully approved and executed where applicable"),
       set_requests (<[id := r']> (ap_requests d)) (sput (credited u c amount (ex_ref env) (sget d)) d)).
Proof.
  intros Hla (Hty & Hpl & Hmk & Hreq) Hok Hex Hpay Hwf Hrs Hself.
  destruct (after_final_approval cfg env id (ar_current r + 1) (ar_required r) (fully_approved env a r r1) d
    rs u c amount) as (r' & Hsame & Hap & _ & Hst & Hrej & Hex' & Hrun); simpl; try done.
  - apply Hla.
  - apply Hla.
  - rewrite Hty. apply Hla.
  - rewrite Hmk, elem_of_app, list_elem_of_singleton. intros [Hin|Heq].
    + by apply (ro_not_maker _ Hok).
    + by apply (la_not_maker _ _ _ _ Hla).
  - by rewrite Hpl.
  - exists r'. split_and!; done.
Qed.

Lemma fully_approved_self env a r r1 cfg :
  last_approval cfg env r a → same_request r r1 → row_ok r →
  ar_requested_by (fully_approved env a r r1) ∉ ar_approved_by (fully_approved env a r r1).
Proof.
  intros Hla (_ & _ & Hmk & _) Hok. simpl. rewrite Hmk, elem_of_app, list_elem_of_singleton.
  intros [Hin|Heq]; [by apply (ro_not_maker _ Hok)|by apply (la_not_maker _ _ _ _ Hla)].
Qed.

(** The last approval of a manual credit executes it exactly: the request is found,
    gets the approver and is approved and marked executed, the user's global funding
    balance grows by the amount rounded down to 8 decimals with one ledger entry, and no
    other request or balance changes. *)
Theorem full_approval_credits (cfg : approval_config) (env : exec_env) (id a ro u c : string) (amount : Z)
    (r : ApprovalRequest) (d : approval_db) :
  ap_requests d !! id = Some r → row_ok r → last_approval cfg env r a →
  payable (ar_payload r) u c amount d → balances_wf (sget d) →
  ∃ r', ar_status r' = ApApproved ∧ ar_approved_by r' = ar_approved_by r ++ [a] ∧ ar_action_executed r' = true ∧
    alone (approveRequest cfg env id a ro) d
    = (Ret (true, "Request fully approved and executed where applicable"),
       set_requests (<[id := r']> (ap_requests d)) (sput (credited u c amount (ex_ref env) (sget d)) d)).
Proof.
  intros Hr Hok Hla Hpay Hwf. set (r1 := fully_approved env a r r).
  set (d1 := set_requests (<[id := r1]> (ap_requests d)) d).
  destruct (final_run cfg env id a r r r1 d1 u c amount Hla (same_request_refl r) Hok
    (la_not_executed _ _ _ _ Hla) (payable_requests _ _ _ _ _ _ Hpay) Hwf (lookup_insert_eq _ _ _)
    (fully_approved_self _ _ _ _ _ Hla (same_request_refl r) Hok)) as (r' & _ & Hap & Hst & _ & Hex & Hrun).
  exists r'. split_and!; [done..|].
  rewrite (alone_advance _ _ _ _ (read_step cfg env id a ro r d Hr Hla)).
  rewrite (alone_advance _ _ _ _ (write_step cfg env id a r r d Hla Hr (same_request_refl r) Hok)).
  fold r1 in Hrun |- *. fold d1. rewrite Hrun. unfold d1. simpl. by rewrite insert_insert_eq.
Qed.

Lemma two_writes cfg envA envB id a b roA roB r d :
  ap_requests d !! id = Some r → row_ok r → last_approval cfg envA r a → last_approval cfg envB r b →
  let rA := fully_approved envA a r r in
  let rB := fully_approved envB b r rA in
  let d1 := set_requests (<[id := rA]> (ap_requests d)) d in
  schedule [(0%nat, false); (1%nat, false); (0%nat, false); (1%nat, false)]
    (d, [approveRequest cfg envA id a roA; approveRequest cfg envB id b roB])
  = (set_requests (<[id := rB]> (ap_requests d1)) d1,
     [after_approval cfg envA id (ar_current r + 1) (ar_required r) rA;
      after_approval cfg envB id (ar_current r + 1) (ar_required r) rB]).
Proof.
  intros Hr Hok HA HB rA rB d1.
  rewrite (schedule_first _ _ _ _ _ _ (read_step cfg envA id a roA r d Hr HA)).
  rewrite (schedule_second _ _ _ _ _ _ (read_step cfg envB id b roB r d Hr HB)).
  rewrite (schedule_first _ _ _ _ _ _ (write_step cfg envA id a r r d HA Hr (same_request_refl r) Hok)).
  fold rA d1. assert (ap_requests d1 !! id = Some rA) as Hr1 by apply lookup_insert_eq.
  assert (same_request r rA) as HrA by done.
  by rewrite (schedule_second _ _ _ _ _ _ (write_step cfg envB id b r rA d1 HB Hr1 HrA Hok)).
Qed.

(** Two last approvals of a manual credit that are made at the same time, whoever makes
    them, credit the amount twice: both read the request before either writes it, both
    writes return a row that is not executed yet, and both executions run. The second
    approver also replaces the first. *)
Theorem concurrent_approvals_credit_twice (cfg : approval_config) (envA envB : exec_env)
    (id a b roA roB u c : string) (amount : Z) (r : ApprovalRequest) (d : approval_db) :
  ap_requests d !! id = Some r → row_ok r → last_approval cfg envA r a → last_approval cfg envB r b →
  payable (ar_payload r) u c amount d → balances_wf (sget d) →
  ∃ l, let '(d', ts) := schedule l (d, [approveRequest cfg envA id a roA; approveRequest cfg envB id b roB]) in
    ts = replicate 2 (tret (true, "Request fully approved and executed where applicable")) ∧
    sget d' = credited u c amount (ex_ref envB) (credited u c amount (ex_ref envA) (sget d)) ∧
    ∃ r', ap_requests d' !! id = Some r' ∧ ar_status r' = ApApproved ∧ ar_approved_by r' = ar_approved_by r ++ [b].
Proof.
  intros Hr Hok HA HB Hpay Hwf. pose proof (same_request_refl r) as Hrr.
  set (rA := fully_approved envA a r r). assert (same_request r rA) as HrA by done.
  set (rB := fully_approved envB b r rA). pose proof (la_not_executed _ _ _ _ HA) as Hex.
  set (d1 := set_requests (<[id := rA]> (ap_requests d)) d).
  set (d2 := set_requests (<[id := rB]> (ap_requests d1)) d1).
  destruct (final_run cfg envA id a r r rB d2 u c amount HA Hrr Hok Hex
    (payable_requests _ _ _ _ _ _ (payable_requests _ _ _ _ _ _ Hpay)) Hwf (lookup_insert_eq _ _ _)
    (fully_approved_self _ _ _ _ _ HB HrA Hok)) as (r3 & Hs3 & Hap3 & Hst3 & _ & Hex3 & Hrun3).
  set (d3 := set_requests (<[id := r3]> (ap_requests d2)) (sput (credited u c amount (ex_ref envA) (sget d2)) d2)) in *.
  assert (ar_requested_by r3 ∉ ar_approved_by r3) as Hself3.
  { destruct Hs3 as (_ & _ & -> & _). rewrite Hap3. exact (fully_approved_self _ _ _ _ _ HB HrA Hok). }
  assert (payable (ar_payload r) u c amount d3) as Hpay3.
  { apply payable_requests, payable_balances, payable_requests, payable_requests, Hpay. }
  assert (balances_wf (sget d3)) as Hwf3.
  { apply credited_wf; [done|]. pose proof (credit_amount_pos _ _ (py_amount _ _ _ _ _ Hpay)). lia. }
  destruct (final_run cfg envB id b r rA r3 d3 u c amount HB HrA Hok Hex Hpay3 Hwf3
    (lookup_insert_eq _ _ _) Hself3) as (r4 & _ & Hap4 & Hst4 & _ & _ & Hrun4).
  destruct (schedule_both _ _ _ _ _ _ _ Hrun3 Hrun4) as [l Hl].
  fold rA in Hl. fold rB in Hl.
  exists ([(0%nat, false); (1%nat, false); (0%nat, false); (1%nat, false)] ++ l).
  rewrite schedule_app, (two_writes cfg envA envB id a b roA roB r d Hr Hok HA HB). fold rA. fold rB.
  fold d1. fold d2. rewrite Hl. split; [done|]. split; [by simpl|]. exists r4. split; [by simpl; rewrite lookup_insert_eq|].
  rewrite Hst4, Hap4, Hst3, Hap3. done.
Qed.

(** A rejection can be lost: the last approval, read before another admin rejects the
    request, is written after the rejection, which both admins were told succeeded. The
    request is approved with the name of the admin who rejected it, and the credit is made. *)
Theorem rejection_overwritten (cfg : approval_config) (env : exec_env) (id a b ro u c : string)
    (reason : option string) (amount : Z) (r : ApprovalRequest) (d : approval_db) :
  ap_requests d !! id = Some r → row_ok r → last_approval cfg env r a →
  payable (ar_payload r) u c amount d → balances_wf (sget d) →
  ∃ l, let '(d', ts) := schedule l (d, [approveRequest cfg env id a ro; rejectRequest id b reason]) in
    ts = [tret (true, "Request fully approved and executed where applicable"); tret (true, "Request rejected")] ∧
    sget d' = credited u c amount (ex_ref env) (sget d) ∧
    ∃ r', ap_requests d' !! id = Some r' ∧ ar_status r' = ApApproved ∧ ar_rejected_by r' = Some b ∧
      ar_action_executed r' = true.
Proof.
  intros Hr Hok Hla Hpay Hwf. pose proof (same_request_refl r) as Hrr.
  set (rJ := set_rejected b reason r). assert (same_request r rJ) as HrJ by done.
  set (d1 := set_requests (<[id := rJ]> (ap_requests d)) d).
  set (rA := fully_approved env a r rJ). set (d2 := set_requests (<[id := rA]> (ap_requests d1)) d1).
  destruct (final_run cfg env id a r rJ rA d2 u c amount Hla HrJ Hok (la_not_executed _ _ _ _ Hla)
    (payable_requests _ _ _ _ _ _ (payable_requests _ _ _ _ _ _ Hpay)) Hwf (lookup_insert_eq _ _ _)
    (fully_approved_self _ _ _ _ _ Hla HrJ Hok)) as (r' & _ & _ & Hst & Hrej & Hex & Hrun).
  assert (alone (rejectRequest id b reason) d = (Ret (true, "Request rejected"), d1)) as Hreject.
  { unfold rejectRequest. assert (select_request id d = Ret (Some r, d)) as Hsel.
    { unfold select_request, gets. by rewrite Hr. }
    rewrite alone_bind, (alone_run _ _ _ _ Hsel). cbn [reject_read].
    rewrite (la_pending _ _ _ _ Hla), bool_decide_eq_true_2 by done. cbn [negb].
    by rewrite alone_bind, (alone_run _ _ _ _ (update_request_run id (set_rejected b reason) d r Hr (ro_not_maker _ Hok))). }
  assert (alone (record_approval cfg env id a r) d1
    = (Ret (true, "Request fully approved and executed where applicable"),
       set_requests (<[id := r']> (ap_requests d2)) (sput (credited u c amount (ex_ref env) (sget d)) d2))) as Happrove.
  { rewrite (alone_advance _ _ _ _ (write_step cfg env id a r rJ d1 Hla (lookup_insert_eq _ _ _) HrJ Hok)). exact Hrun. }
  destruct (schedule_both_swapped _ _ _ _ _ _ _ Hreject Happrove) as [l Hl].
  exists ((0%nat, false) :: l). rewrite (schedule_first _ _ _ _ _ _ (read_step cfg env id a ro r d Hr Hla)), Hl.
  split; [done|]. split; [by simpl|]. exists r'. split; [by simpl; rewrite lookup_insert_eq|].
  by rewrite Hst, Hrej.
Qed.
End Theorems.
