(* ===== verification/ApprovalsDemo.v ===== *)
(** * Approvals at a concrete database

    Three admins, one of whom asks for a manual credit that two others approve, one after
    the other, at the same time, or beside a rejection. *)
From stdpp Require Import base gmap strings list fin_maps relations.
From Stdlib Require Import ZArith Lia Ascii.
From S2P Require Import Prelude Threads Money Balances Escrow Halt SettlementModel Settlement SettlementDemo WithdrawalModel ApprovalModel Approvals.
Local Open Scope Z_scope.

#[local] Existing Instance decimal_36.

Definition demo_core : withdraw_db :=
  WithdrawDb (EscrowDb (Balances {[funding_key "user-1" "usdt" CHAIN_ID_GLOBAL := wallet (dec 5 0) 0]} [])
               ∅ ∅ [Currency "usdt" "USDT"]) ∅ ∅ ∅ [] [].
Definition demo_approvals (requests : gmap string ApprovalRequest) : approval_db :=
  ApprovalDb requests demo_core [UserRow "user-1" "ann@example.com" true]
    (list_to_map [("maker", "finance_admin"); ("ann", "compliance"); ("bob", "super_admin")])
    ∅ [] None false false [] [].

Definition demo_config : approval_config := ApprovalConfig true 2 60.
Definition demo_payload : json :=
  JObj [("user", JStr "Ann@Example.com"); ("currency", JStr "USDT"); ("amount", JStr "2.5");
        ("reason", JStr "lost deposit")].
Definition demo_exec (now : Z) (ref : string) : exec_env := ExecEnv now 0 LockTaken ref.

(** Ann has approved; one approval is missing. *)
Definition once_approved : ApprovalRequest :=
  set_approvals 1 ["ann"] ApPending None
    (new_request demo_config 0 "manual_credit" demo_payload "maker" None).
Definition waiting : approval_db := demo_approvals {["req-1" := once_approved]}.

Lemma once_approved_ok : row_ok once_approved.
Proof.
  split; simpl; [apply NoDup_singleton| |done].
  rewrite list_elem_of_singleton. discriminate.
Qed.

Lemma once_approved_last a ref : a ≠ "maker" → a ≠ "ann" → last_approval demo_config (demo_exec 60000 ref) once_approved a.
Proof.
  intros Hm Ha. split; simpl; try done.
  - intros t [= <-]. by vm_compute.
  - by rewrite list_elem_of_singleton.
Qed.

Lemma bob_maker : "bob" ≠ "maker".
Proof. discriminate. Qed.
Lemma bob_ann : "bob" ≠ "ann".
Proof. discriminate. Qed.

Lemma demo_payable : payable demo_payload "user-1" "usdt" (dec 25 1) waiting.
Proof.
  split.
  - vm_compute. reflexivity.
  - vm_compute. reflexivity.
  - vm_compute. reflexivity.
  - split_and!; [by vm_compute..|]. vm_compute. lia.
  - right. vm_compute. reflexivity.
Qed.

Lemma waiting_wf : balances_wf (sget waiting).
Proof. apply wf_singleton. vm_compute. reflexivity. Qed.

(** Bob approves last. *)
Lemma full_approval_credits_witness :
  ∃ r', ar_approved_by r' = ["ann"; "bob"] ∧
    alone (approveRequest demo_config (demo_exec 60000 "ref-1") "req-1" "bob" "") waiting
    = (Ret (true, "Request fully approved and executed where applicable"),
       set_requests {["req-1" := r']} (sput (credited "user-1" "usdt" (dec 25 1) "ref-1" (sget waiting)) waiting)).
Proof.
  destruct (full_approval_credits demo_config (demo_exec 60000 "ref-1") "req-1" "bob" "" "user-1" "usdt" (dec 25 1)
    once_approved waiting (lookup_singleton_eq _ _) once_approved_ok (once_approved_last "bob" "ref-1" bob_maker bob_ann)
    demo_payable waiting_wf) as (r' & _ & Hap & _ & Hrun).
  exists r'. split; [exact Hap|]. rewrite Hrun.
  replace (<["req-1" := r']> (ap_requests waiting)) with ({["req-1" := r']} : gmap string ApprovalRequest); [reflexivity|].
  symmetry. apply insert_singleton_eq.
Defined.

(** Bob sends his approval twice at the same time. *)
Lemma concurrent_approvals_credit_twice_witness :
  ∃ l, let '(d', ts) := schedule l (waiting,
      [approveRequest demo_config (demo_exec 60000 "ref-1") "req-1" "bob" "";
       approveRequest demo_config (demo_exec 60000 "ref-2") "req-1" "bob" ""]) in
    available_balance (row_of (funding_key "user-1" "usdt" CHAIN_ID_GLOBAL) (sget d')) = dec 10 0.
Proof.
  destruct (concurrent_approvals_credit_twice demo_config (demo_exec 60000 "ref-1") (demo_exec 60000 "ref-2")
    "req-1" "bob" "bob" "" "" "user-1" "usdt" (dec 25 1) once_approved waiting (lookup_singleton_eq _ _)
    once_approved_ok (once_approved_last "bob" "ref-1" bob_maker bob_ann)
    (once_approved_last "bob" "ref-2" bob_maker bob_ann) demo_payable waiting_wf) as [l Hl].
  exists l. destruct (schedule l _) as [d' ts]. destruct Hl as (_ & Hb & _). rewrite Hb. vm_compute. reflexivity.
Defined.

(** Ann approved, rejects after all, and Bob's approval comes through. *)
Lemma rejection_overwritten_witness :
  ∃ l, let '(d', ts) := schedule l (waiting,
      [approveRequest demo_config (demo_exec 60000 "ref-1") "req-1" "bob" ""; rejectRequest "req-1" "ann" None]) in
    (ar_rejected_by <$> ap_requests d' !! "req-1") = Some (Some "ann") ∧
    available_balance (row_of (funding_key "user-1" "usdt" CHAIN_ID_GLOBAL) (sget d')) = dec 75 1.
Proof.
  destruct (rejection_overwritten demo_config (demo_exec 60000 "ref-1") "req-1" "bob" "ann" "" "user-1" "usdt"
    None (dec 25 1) once_approved waiting (lookup_singleton_eq _ _) once_approved_ok
    (once_approved_last "bob" "ref-1" bob_maker bob_ann) demo_payable waiting_wf) as [l Hl].
  exists l. destruct (schedule l _) as [d' ts]. destruct Hl as (_ & Hb & r' & Hr & _ & Hrej & _).
  rewrite Hb, Hr. simpl. rewrite Hrej. split; [done|]. vm_compute. reflexivity.
Defined.

(** ** From the request on *)
Definition requested (required : Z) : approval_db :=
  demo_approvals {["req-1" := new_request demo_config 0 "manual_credit" demo_payload "maker" (Some required)]}.

Lemma request_made required :
  createRequest demo_config 0 "req-1" "manual_credit" demo_payload "maker" (Some required) (demo_approvals ∅)
  = Ret (new_request demo_config 0 "manual_credit" demo_payload "maker" (Some required), requested required).
Proof. vm_compute. reflexivity. Qed.

Definition approver (a : string) : thread approval_db unit :=
  await* _ := approveRequest demo_config (demo_exec 60000 "ref-1") "req-1" a "" in tret tt.
Definition retrier : thread approval_db unit :=
  await* _ := retryExecution (demo_exec 60000 "ref-2") "req-1" "bob" "once more" in tret tt.

Lemma demo_run opened few required l :
  (∀ admins eff, few = Some (admins, eff) → "ann" ∈ admins ∧ "bob" ∈ admins ∧
     Z.of_nat (length (checkers admins (new_request demo_config 0 "manual_credit" demo_payload "maker" (Some required))))
     < required) →
  rtc (approval_step opened few) (demo_approvals ∅, [])
    (schedule l (requested required, [approver "ann"; approver "bob"; retrier])).
Proof.
  intros Hfew. eapply rtc_l; [apply pool_env|].
  { eapply env_create; [apply (request_made required)|]. intros admins eff He. apply (Hfew admins eff He). }
  eapply rtc_l; [apply (pool_start _ _ (approver "ann")), start_approve; intros; by eapply Hfew|].
  eapply rtc_l; [apply (pool_start _ _ (approver "bob")), start_approve; intros; by eapply Hfew|].
  eapply rtc_l; [apply (pool_start _ _ retrier), start_retry|]. simpl. apply schedule_steps.
Qed.

Definition in_turn (i n : nat) : list (nat * bool) := repeat (i, false) n.
(** Ann and Bob, one after the other, then a retry that finds the request executed. *)
Definition turns : list (nat * bool) := in_turn 0 2 ++ in_turn 1 8 ++ in_turn 2 4.
Definition final (required : Z) : approval_db * list (thread approval_db unit) :=
  schedule turns (requested required, [approver "ann"; approver "bob"; retrier]).

(** Three approvals are required, and Bob breaks the request open after Ann's. *)
Definition breaker : thread approval_db unit :=
  await* _ := breakGlassExecute (demo_exec 60000 "ref-3") "req-1" "bob" "10.0.0.1" "locked out" "INC-1" in tret tt.
Definition broken_open : approval_db * list (thread approval_db unit) :=
  schedule (in_turn 0 2 ++ in_turn 1 12) (requested 3, [approver "ann"; breaker]).

Lemma broken_open_run : rtc (approval_step ["req-1"] None) (demo_approvals ∅, []) broken_open.
Proof.
  eapply rtc_l; [apply pool_env; eapply env_create; [apply (request_made 3)|discriminate]|].
  eapply rtc_l; [apply (pool_start _ _ (approver "ann")), start_approve; discriminate|].
  eapply rtc_l; [apply (pool_start _ _ breaker), start_break_glass; [reflexivity|left]|]. apply schedule_steps.
Qed.

Lemma approved_has_checkers_witness :
  (∃ r, ap_requests (final 2).1 !! "req-1" = Some r ∧ ar_approved_by r = ["ann"; "bob"] ∧
    ar_action_executed r = true ∧ NoDup (ar_approved_by r) ∧ (ar_status r = ApApproved → ar_required r ≤ 2)) ∧
  (∃ r, ap_requests broken_open.1 !! "req-1" = Some r ∧ ar_status r = ApApproved ∧ ar_required r = 3 ∧
    ar_action_executed r = true ∧
    ∃ admin ticket, admin ∈ ar_approved_by r ∧ (admin, ticket) ∈ ap_break_glass broken_open.1).
Proof.
  split.
  - assert (∃ r, ap_requests (final 2).1 !! "req-1" = Some r ∧ ar_approved_by r = ["ann"; "bob"] ∧
      ar_action_executed r = true) as (r & Hr & Hap & Hex).
    { eexists. split_and!; vm_compute; reflexivity. }
    destruct (approved_has_checkers [] (demo_approvals ∅) (final 2).1 (final 2).2 "req-1" r eq_refl) as (Hnd & _ & Hn).
    + rewrite <- (surjective_pairing (final 2)). exact (demo_run [] None 2 turns ltac:(discriminate)).
    + exact Hr.
    + exists r. rewrite Hap in *. split; [exact Hr|]. split; [reflexivity|]. split; [exact Hex|]. split; [exact Hnd|].
      intros Hst. destruct (Hn Hst) as [Hle|[Hno _]]; [exact Hle|]. destruct (not_elem_of_nil _ Hno).
  - assert (∃ r, ap_requests broken_open.1 !! "req-1" = Some r ∧ ar_status r = ApApproved ∧ ar_required r = 3 ∧
      ar_action_executed r = true ∧ length (ar_approved_by r) = 2%nat) as (r & Hr & Hst & Hreq & Hex & Hlen).
    { eexists. split_and!; vm_compute; reflexivity. }
    destruct (approved_has_checkers ["req-1"] (demo_approvals ∅) broken_open.1 broken_open.2 "req-1" r eq_refl) as (_ & _ & Hn).
    + rewrite <- (surjective_pairing broken_open). exact broken_open_run.
    + exact Hr.
    + exists r. split; [exact Hr|]. split; [exact Hst|]. split; [exact Hreq|]. split; [exact Hex|]. destruct (Hn Hst) as [Hle|[_ Hb]]; [|exact Hb].
      rewrite Hreq, Hlen in Hle. lia.
Defined.

(** Three approvals of two checkers: nothing is credited. *)
Lemma too_few_checkers_move_nothing_witness :
  (ar_current <$> ap_requests (final 3).1 !! "req-1") = Some 2 ∧
  effects (final 3).1 = effects (demo_approvals ∅).
Proof.
  split; [vm_compute; reflexivity|].
  apply (too_few_checkers_move_nothing (demo_approvals ∅) (final 3).1 (final 3).2 ["maker"; "ann"; "bob"] eq_refl).
  rewrite <- (surjective_pairing (final 3)). apply (demo_run [] _ 3 turns). intros admins eff [= <- <-].
  split_and!; [set_solver..|]. vm_compute. reflexivity.
Defined.
