(* ===== verification/TransferModel.v ===== *)
(** * Transfers: definitions

    [POST /transfer] (between a user's own accounts) and the internal branch of
    [POST /withdrawals] (to another user) in [routes/wallet.fastify.ts], with
    [debitAvailableBalance] and [creditBalanceForAccount] of [services/wallet.service.ts].
    Both routes keep the answers to an Idempotency-Key in Redis and take a Redis lock for
    it; requests run beside each other, so they are threads. *)
From stdpp Require Import base gmap strings list fin_maps.
From Stdlib Require Import ZArith Lia Ascii.
From S2P Require Import Prelude Threads Money Balances Escrow Halt SettlementModel.
Local Open Scope Z_scope.

(** ** State *)

(** What a row of [withdrawals] says of an idempotency key: its user, the key, the recipient
    of an internal transfer ([None] for an on-chain withdrawal), currency and amount. *)
Record wrow := WRow {
  wr_user : string; wr_key : string; wr_to : option string; wr_currency : string; wr_amount : Z;
}.
(** [internal_transfers] *)
Record transfer_row := TransferRow {
  tr_from : string; tr_to : string; tr_currency : string; tr_amount : Z; tr_type : string;
}.
(** An active token, in the order the table is read. *)
Record coin := Coin { co_id : string; co_symbol : string; co_min : option Z; co_max : option Z }.
Record account := Account { ac_id : string; ac_email : string; ac_phone : string; ac_active : bool }.

(** A Redis key: [transfer:idempotency] or [withdrawal:idempotency], user, Idempotency-Key. *)
Notation idem_key := (string * string * string)%type.
(** The stored answer: the hash of the request and the text of the answer. *)
Notation idem_answer := (string * string)%type.

Record transfer_db := TransferDb {
  tf_core : escrow_db;
  tf_coins : list coin;
  tf_users : list account;
  tf_rows : gmap string wrow;
  (** the values of [transfer_type], if the table [internal_transfers] is there *)
  tf_types : option (list string);
  tf_history : list transfer_row;
  tf_cache : gmap idem_key idem_answer;
  tf_locks : gset idem_key;
}.

#[export] Instance transfer_db_balances : Store transfer_db balances.
Proof.
  refine {| sget := λ d, edb_balances (tf_core d);
            sput := λ b d, TransferDb (sput b (tf_core d)) (tf_coins d) (tf_users d) (tf_rows d)
                             (tf_types d) (tf_history d) (tf_cache d) (tf_locks d) |}; by intros [[]].
Defined.

Definition put_wrow (id : string) (w : wrow) (d : transfer_db) : transfer_db :=
  TransferDb (tf_core d) (tf_coins d) (tf_users d) (<[id := w]> (tf_rows d)) (tf_types d)
    (tf_history d) (tf_cache d) (tf_locks d).
Definition add_history (t : transfer_row) (d : transfer_db) : transfer_db :=
  TransferDb (tf_core d) (tf_coins d) (tf_users d) (tf_rows d) (tf_types d)
    (tf_history d ++ [t]) (tf_cache d) (tf_locks d).
Definition set_redis (cache : gmap idem_key idem_answer) (locks : gset idem_key) (d : transfer_db) :
    transfer_db :=
  TransferDb (tf_core d) (tf_coins d) (tf_users d) (tf_rows d) (tf_types d) (tf_history d) cache locks.

(** ** Redis *)
Definition getJson (k : idem_key) : M transfer_db (option idem_answer) := gets (λ d, tf_cache d !! k).
Definition setJson (k : idem_key) (a : idem_answer) : M transfer_db unit :=
  modify (λ d, set_redis (<[k := a]> (tf_cache d)) (tf_locks d) d).
(** [SET key '1' EX ttl NX] *)
Definition setNxEx (k : idem_key) : M transfer_db bool :=
  let* free := gets (λ d, bool_decide (k ∉ tf_locks d)) in
  (if free then modify (λ d, set_redis (tf_cache d) ({[k]} ∪ tf_locks d) d) else ret tt) ;;;
  ret free.
Definition del_lock (k : idem_key) : M transfer_db unit :=
  modify (λ d, set_redis (tf_cache d) (tf_locks d ∖ {[k]}) d).

(** ** [services/wallet.service.ts] *)
Definition account_key (userId currencyId accountType : string) : bal_key :=
  BalKey userId currencyId CHAIN_ID_GLOBAL accountType.
Definition transfer_entry (k : bal_key) (debit credit before after : Z) (refId : string) : ledger_entry :=
  LedgerEntry (user_id k) (currency_id k) (account_type k) debit credit before after
    "internal_transfer" refId Available.

Definition debitAvailableBalance (userId currencyId accountType : string) (amount : Z) (refId : string) :
    M balances unit :=
  let k := account_key userId currencyId accountType in
  let enough r := amount <=? available_balance r in
  assertValidDecimal "debitAmount" (Fin amount) ;;;
  assertNonNegative "debitAmount" (Fin amount) ;;;
  ensureUserBalanceRow k ;;;
  let* lockSel := select_balance k enough in
  let* before := get_or lockSel "user_balances UPDATE affected 0 rows" in
  let* upd := update_balance k enough (λ r, add_buckets r (- amount) 0 0 0 0) in
  let* row := assertUserBalanceUpdated upd in
  assertBalanceInvariant row ;;;
  insertBalanceLedger (transfer_entry k amount 0 (available_balance before) (available_balance row) refId).

Definition creditBalanceForAccount (userId currencyId accountType : string) (amount : Z) (refId : string) :
    M balances unit :=
  let k := account_key userId currencyId accountType in
  assertValidDecimal "creditAmount" (Fin amount) ;;;
  assertNonNegative "creditAmount" (Fin amount) ;;;
  ensureUserBalanceRow k ;;;
  let* lockSel := select_balance k (λ _, true) in
  let* before := get_or lockSel "user_balances UPDATE affected 0 rows" in
  let* upd := update_balance k (λ _, true) (λ r, add_buckets r amount 0 0 0 0) in
  let* row := assertUserBalanceUpdated upd in
  assertBalanceInvariant row ;;;
  insertBalanceLedger (transfer_entry k 0 amount (available_balance before) (available_balance row) refId).

(** ** Request parts both routes share *)
Definition reply : Type := bool * string.
Definition refused (code : string) : thread transfer_db reply := tret (false, code).

(** The reason to refuse an Idempotency-Key. *)
Definition key_refusal (key : string) : option string :=
  if String.eqb key "" then Some "IDEMPOTENCY_KEY_REQUIRED"
  else if bool_decide (256 < String.length key)%nat then Some "IDEMPOTENCY_KEY_INVALID"
  else None.

Definition json_fields (fields : list (string * string)) : string :=
  "{" +:+ join "," ((λ '(k, v), json_quote k +:+ ":" +:+ json_quote v) <$> fields) +:+ "}".

Section Transfers.
Context `{DecimalJs, Runtime}.

(** [new Decimal(amount).toDecimalPlaces(8, ROUND_DOWN)], positive *)
Definition parse_amount (s : string) : option Z :=
  match parse_decimal s with
  | Some (Fin x) => let a := toDP AMOUNT_PRECISION x in if a <=? 0 then None else Some a
  | _ => None
  end.

(** It catches its own errors. *)
Definition currency_of (symbol : string) : thread transfer_db (option string) :=
  tcatch (stmt (gets (λ d, getCurrencyIdBySymbol symbol (tf_core d)))) (λ _, tret None).

(** ** [POST /transfer] *)
Record transfer_body := TransferBody {
  tb_from : string; tb_to : string; tb_token : string; tb_amount : string;
}.
Definition buildTransferRequestHash (b : transfer_body) : string :=
  sha256 (json_fields [("fromAccount", js_trim (tb_from b)); ("toAccount", js_trim (tb_to b));
                       ("tokenId", js_trim (tb_token b)); ("amount", js_trim (tb_amount b))]).

Definition validAccounts : list string := ["funding"; "spot"; "trading"].

(** The transaction; the two selects that only lock the rows are left out. *)
Definition transfer_tx (userId currencyId fromAccount toAccount : string) (amount : Z) (ref1 ref2 : string) :
    M balances unit :=
  let from := account_key userId currencyId fromAccount in
  ensureUserBalanceRow from ;;;
  ensureUserBalanceRow (account_key userId currencyId toAccount) ;;;
  let* sel := select_balance from (λ _, true) in
  let* row := get_or sel "NO_BALANCE_FOR_ACCOUNT" in
  require (negb (toDP AMOUNT_PRECISION (available_balance row) <? amount)) "INSUFFICIENT_BALANCE" ;;;
  debitAvailableBalance userId currencyId fromAccount amount ref1 ;;;
  creditBalanceForAccount userId currencyId toAccount amount ref2.

(** [INSERT INTO internal_transfers] *)
Definition insert_history (t : transfer_row) : M transfer_db unit :=
  let* types := gets tf_types in
  let* types := get_or types "relation internal_transfers does not exist" in
  require (bool_decide (tr_type t ∈ types)) "invalid input value for enum transfer_type" ;;;
  modify (add_history t).

Definition transfer_message (b : transfer_body) (symbol : string) (amount : Z) : string :=
  "Successfully transferred " +:+ toNumeric amount +:+ " " +:+ symbol +:+ " from " +:+ tb_from b
  +:+ " to " +:+ tb_to b.

(** From the lock on; [ref1] and [ref2] are the random ids of the ledger entries. *)
Definition transfer_locked (userId : string) (b : transfer_body) (ik : idem_key) (ref1 ref2 : string) :
    thread transfer_db reply :=
  if negb (bool_decide (tb_from b ∈ validAccounts) && bool_decide (tb_to b ∈ validAccounts))
  then refused "INVALID_ACCOUNT"
  else if String.eqb (tb_from b) (tb_to b) then refused "SAME_ACCOUNT"
  else match parse_amount (tb_amount b) with
  | None => refused "INVALID_AMOUNT"
  | Some amount =>
      await* token := stmt (gets (λ d, find (λ c, String.eqb (co_id c) (tb_token b)) (tf_coins d))) in
      match token with
      | None => refused "INVALID_TOKEN"
      | Some token =>
          await* currency := currency_of (co_symbol token) in
          match currency with
          | None => refused "INVALID_TOKEN"
          | Some currencyId =>
              await* _ := stmt (zoom (transfer_tx userId currencyId (tb_from b) (tb_to b) amount ref1 ref2)) in
              await* _ := best_effort (stmt (insert_history
                            (TransferRow userId userId currencyId amount "internal"))) in
              let response := transfer_message b (co_symbol token) amount in
              await* _ := best_effort (stmt (setJson ik (buildTransferRequestHash b, response))) in
              tret (true, response)
          end
      end
  end.

Definition transfer_idem (userId header : string) : idem_key := ("transfer", userId, js_trim header).

Definition transferBetweenAccounts (userId header : string) (b : transfer_body) (ref1 ref2 : string) :
    thread transfer_db reply :=
  let ik := transfer_idem userId header in
  tcatch
    (match key_refusal (js_trim header) with
     | Some code => refused code
     | None =>
         await* cached := stmt (getJson ik) in
         match cached with
         | Some (hash, response) =>
             if negb (String.eqb hash (buildTransferRequestHash b)) then refused "IDEMPOTENCY_KEY_REUSED"
             else tret (true, response)
         | None =>
             await* locked := stmt (setNxEx ik) in
             if negb locked then refused "IDEMPOTENCY_KEY_IN_PROGRESS"
             else transfer_locked userId b ik ref1 ref2
         end
     end)
    (λ e, refused (if bool_decide (e ∈ ["NO_BALANCE_FOR_ACCOUNT"; "INSUFFICIENT_BALANCE"]) then e
                   else "INTERNAL_ERROR")).

(** ** [POST /withdrawals] with type [internal] *)
Record internal_body := InternalBody {
  ib_symbol : string; ib_amount : string; ib_identifier : string; ib_account : option string;
  ib_chain : option string; ib_memo : option string; ib_address : option string;
}.
Definition buildWithdrawalRequestHash (b : internal_body) : string :=
  let opt v := match v with Some s => js_trim s | None => "" end in
  sha256 (json_fields [("accountType", match ib_account b with Some s => js_trim s | None => "funding" end);
                       ("amount", js_trim (ib_amount b)); ("chainId", opt (ib_chain b));
                       ("internal_user_identifier", js_trim (ib_identifier b)); ("memo", opt (ib_memo b));
                       ("symbol", js_trim (ib_symbol b)); ("toAddress", lower (opt (ib_address b)));
                       ("type", "internal")]).

(** The first of the switches before the request is looked at that refuses, the first of the
    second factors that does, and what the treasury policy says. *)
Record internal_world := InternalWorld {
  iw_paused : option string; iw_second_factor : option string; iw_treasury : option string;
}.

Fixpoint has_blank (s : string) : bool :=
  match s with "" => false | String a s' => Ascii.eqb a " " || has_blank s' end.
(** [symbol.split(/\s+/)[0]] of a trimmed text *)
Fixpoint first_word (s : string) : string :=
  match s with
  | "" => ""
  | String a s' => if js_space a then "" else String a (first_word s')
  end.

(** [id::text = $1 OR LOWER(TRIM(email)) = LOWER(TRIM($1)) OR TRIM(phone) = TRIM($1)] *)
Definition find_recipient (identifier : string) : M transfer_db (option string) :=
  let trim s := ltrim (rtrim s) in
  gets (λ d, ac_id <$> find (λ u, ac_active u && (String.eqb (ac_id u) identifier
    || String.eqb (lower (trim (ac_email u))) (lower (trim identifier))
    || String.eqb (trim (ac_phone u)) (trim identifier))) (tf_users d)).

(** [WHERE UPPER(t.symbol) = UPPER($1) LIMIT 1], or a coin without limits *)
Definition coin_limits (symbol : string) : M transfer_db coin :=
  gets (λ d, default (Coin "" symbol None None)
               (find (λ c, String.eqb (upper (co_symbol c)) (upper symbol)) (tf_coins d))).

(** The sum of the funding and the spot row. *)
Definition available_sum (userId currencyId : string) : M transfer_db Z :=
  gets (λ d, let av a := match user_balances (sget d) !! account_key userId currencyId a with
                         | Some r => available_balance r
                         | None => 0
                         end in
             toDP AMOUNT_PRECISION (dplus (dplus 0 (av "funding")) (av "spot"))).

(** [ORDER BY available_balance DESC LIMIT 1 FOR UPDATE] among the funding and the spot row
    that have the amount; of two equal rows [spotFirst] says which comes first. *)
Definition select_sender (userId currencyId : string) (amount : Z) (spotFirst : bool) :
    M balances (option (bal_key * user_balance)) :=
  let pick a := let k := account_key userId currencyId a in
    let* sel := select_balance k (λ r, amount <=? available_balance r) in
    ret ((λ r, (k, r)) <$> sel) in
  let* f := pick "funding" in
  let* s := pick "spot" in
  ret match f, s with
      | Some (kf, rf), Some (ks, rs) =>
          let spot := if available_balance rf =? available_balance rs then spotFirst
                      else available_balance rf <? available_balance rs in
          if spot then Some (ks, rs) else Some (kf, rf)
      | Some x, None | None, Some x => Some x
      | None, None => None
      end.

(** [UPDATE user_balances SET available_balance = available_balance + $1 WHERE id = $2] *)
Definition add_available (k : bal_key) (x : Z) : M balances user_balance :=
  let* upd := update_balance k (λ _, true) (λ r, add_buckets r x 0 0 0 0) in
  let* row := assertUserBalanceUpdated upd in
  assertBalanceInvariant row ;;; ret row.

Definition internal_statements (sender recipient currencyId : string) (amount : Z) (spotFirst : bool)
    (refId : string) : M balances unit :=
  let* sel := select_sender sender currencyId amount spotFirst in
  let* found := get_or sel "INSUFFICIENT_BALANCE" in
  let '(k, r) := found in
  let* _ := add_available k (- amount) in
  insertBalanceLedger (transfer_entry k amount 0 (available_balance r)
    (dminus (available_balance r) amount) refId) ;;;
  let kr := account_key recipient currencyId "funding" in
  let* selr := select_balance kr (λ _, true) in
  let* rr := get_or selr "RECIPIENT_BALANCE_ROW_NOT_FOUND" in
  let* _ := add_available kr amount in
  insertBalanceLedger (transfer_entry kr 0 amount (available_balance rr)
    (dplus (available_balance rr) amount) refId).

Definition UNIQUE_VIOLATION : string := "duplicate key value violates unique constraint".

(** [INSERT INTO withdrawals], unique by id and by user and idempotency key *)
Definition insert_wrow (id : string) (w : wrow) : M transfer_db unit :=
  let* free := gets (λ d, bool_decide (tf_rows d !! id = None)
    && forallb (λ '(_, w'), negb (String.eqb (wr_user w') (wr_user w) && String.eqb (wr_key w') (wr_key w)))
         (map_to_list (tf_rows d))) in
  require free UNIQUE_VIOLATION ;;;
  modify (put_wrow id w).

Definition internal_tx (id sender recipient currencyId key : string) (amount : Z) (spotFirst : bool) :
    M transfer_db unit :=
  zoom (ensureUserBalanceRow (account_key sender currencyId "funding") ;;;
        ensureUserBalanceRow (account_key recipient currencyId "funding")) ;;;
  insert_wrow id (WRow sender key (Some recipient) currencyId amount) ;;;
  zoom (internal_statements sender recipient currencyId amount spotFirst id) ;;;
  insert_history (TransferRow sender recipient currencyId amount "user_to_user").

Definition limit_refusal (c : coin) (amount : Z) : option string :=
  let minW := toDP AMOUNT_PRECISION (default 0 (co_min c)) in
  if (0 <? minW) && (amount <? minW) then Some "BELOW_MINIMUM"
  else match co_max c with
       | Some m => if toDP AMOUNT_PRECISION m <? amount then Some "ABOVE_MAXIMUM" else None
       | None => None
       end.

(** From the lock to its release; [id] is the id of the new row. *)
Definition internal_locked (w : internal_world) (userId : string) (b : internal_body) (ik : idem_key)
    (spotFirst : bool) (id : string) : thread transfer_db reply :=
  if String.eqb (ib_symbol b) "" || String.eqb (ib_amount b) "" then refused "INVALID_INPUT"
  else if String.eqb (js_trim (ib_identifier b)) "" then refused "INVALID_INPUT"
  else match parse_amount (ib_amount b) with
  | None => refused "INVALID_AMOUNT"
  | Some amount =>
      let trimmed := js_trim (ib_symbol b) in
      let symbol := if has_blank trimmed then first_word trimmed else trimmed in
      if String.eqb symbol "" then refused "INVALID_TOKEN"
      else
        await* currency := currency_of symbol in
        match currency with
        | None => refused "INVALID_TOKEN"
        | Some currencyId =>
            await* coin := stmt (coin_limits symbol) in
            await* recipient := stmt (find_recipient (js_trim (ib_identifier b))) in
            match recipient with
            | None => refused "INVALID_INTERNAL_USER"
            | Some recipientId =>
                if String.eqb recipientId userId then refused "INVALID_INTERNAL_USER"
                else match iw_second_factor w with Some code => refused code | None =>
                match limit_refusal coin amount with Some code => refused code | None =>
                await* available := stmt (available_sum userId currencyId) in
                if available <? dminus amount (dec 1 8) then refused "INSUFFICIENT_BALANCE"
                else match iw_treasury w with Some code => refused code | None =>
                await* _ := stmt (internal_tx id userId recipientId currencyId (ik.2) amount spotFirst) in
                await* _ := best_effort (stmt (setJson ik (buildWithdrawalRequestHash b, id))) in
                tret (true, id)
                end end end
            end
        end
  end.

Definition withdrawal_idem (userId header : string) : idem_key := ("withdrawal", userId, js_trim header).

(** The answer to a unique violation: the row that has the key. *)
Definition existing_row (userId key : string) : M transfer_db (option string) :=
  gets (λ d, fst <$> find (λ '(_, w), String.eqb (wr_user w) userId && String.eqb (wr_key w) key)
                       (map_to_list (tf_rows d))).

Definition internal_withdrawal (w : internal_world) (userId header : string) (b : internal_body)
    (spotFirst : bool) (id : string) : thread transfer_db reply :=
  let ik := withdrawal_idem userId header in
  tcatch
    (match iw_paused w with Some code => refused code | None =>
     match key_refusal (js_trim header) with Some code => refused code | None =>
     await* cached := stmt (getJson ik) in
     match cached with
     | Some (hash, response) =>
         if negb (String.eqb hash (buildWithdrawalRequestHash b)) then refused "IDEMPOTENCY_KEY_REUSED"
         else tret (true, response)
     | None =>
         await* locked := stmt (setNxEx ik) in
         if negb locked then refused "IDEMPOTENCY_KEY_IN_PROGRESS"
         else finally (internal_locked w userId b ik spotFirst id) (stmt (del_lock ik))
     end end end)
    (λ e,
      if String.eqb e UNIQUE_VIOLATION then
        await* dup := stmt (existing_row userId (js_trim header)) in
        match dup with Some id' => tret (true, id') | None => refused e end
      else refused e).
End Transfers.
