(* ===== verification/Transfers.v ===== *)
(** * Transfers: what the routes do and keep

    A transfer moves exactly its amount and writes both ledger entries, or changes no
    balance; a second request with the same Idempotency-Key gets the first one's answer.
    Over all interleavings no money is made or lost, and the row of an internal withdrawal
    stands for exactly one movement, so that a key moves money at most once. A transfer
    between own accounts has no such row: its key protects it only as long as Redis does. *)
From stdpp Require Import base gmap strings list fin_maps relations.
From Stdlib Require Import ZArith Lia.
From S2P Require Import Prelude Threads Money Balances Escrow Halt SettlementModel TransferModel.
Local Open Scope Z_scope.

(** ** Moving an amount from one row to another *)
Definition less (amount : Z) (r : user_balance) : user_balance := add_buckets r (- amount) 0 0 0 0.
Definition more (amount : Z) (r : user_balance) : user_balance := add_buckets r amount 0 0 0 0.

(** [b'] is [b] after [amount] went from row [kf] to row [kt], with the entries [es]. *)
Record moved (kf kt : bal_key) (amount : Z) (es : list ledger_entry) (b b' : balances) : Prop := {
  mv_rows : ∀ k, row_of k b' = if decide (k = kt) then more amount (row_of kt b)
                               else if decide (k = kf) then less amount (row_of kf b) else row_of k b;
  mv_ledger : balance_ledger b' = balance_ledger b ++ es;
  mv_funds : ∀ c, funds c b' = funds c b;
  mv_wf : balances_wf b → balances_wf b';
}.

Lemma less_nonneg amount r : row_nonneg r = true → amount ≤ available_balance r → row_nonneg (less amount r) = true.
Proof. rewrite !row_nonneg_true. simpl. lia. Qed.
Lemma more_nonneg amount r : row_nonneg r = true → 0 ≤ amount → row_nonneg (more amount r) = true.
Proof. rewrite !row_nonneg_true. simpl. lia. Qed.

Lemma moved_intro kf kt amount es b b1 b' :
  kf ≠ kt → currency_id kf = currency_id kt → 0 ≤ amount ≤ available_balance (row_of kf b) →
  row_change kf (less amount (row_of kf b)) b b1 → row_change kt (more amount (row_of kt b1)) b1 b' →
  balance_ledger b' = balance_ledger b ++ es → moved kf kt amount es b b'.
Proof.
  intros Hne Hcur Ha (Hr1 & Hf1 & Hw1) (Hr2 & Hf2 & Hw2) Hl.
  assert (row_of kt b1 = row_of kt b) as Hkt by (rewrite Hr1, decide_False; done).
  rewrite Hkt in Hr2, Hf2, Hw2. split.
  - intros k. rewrite Hr2. case_decide; [done|]. apply Hr1.
  - done.
  - intros c. rewrite Hf2, Hf1, Hcur. unfold worth, less, more. simpl. destruct (String.eqb _ _); lia.
  - intros Hb. assert (balances_wf b1) as Hb1 by (apply Hw1; [done|]; apply less_nonneg; [by apply wf_row_of|lia]).
    apply Hw2; [done|]. apply more_nonneg; [by apply wf_row_of|lia].
Qed.

Lemma row_change_through k k0 r' b b' : row_change k r' (ensured k0 b) b' → row_change k r' b b'.
Proof.
  intros (Hr & Hf & Hw). split; [|split].
  - intros k'. rewrite Hr. case_decide; [done|]. apply row_of_ensured.
  - intros c. by rewrite Hf, funds_ensured, row_of_ensured.
  - intros Hb. apply Hw. by apply wf_ensured.
Qed.

(** The two entries of a movement. *)
Definition transfer_entries (kf kt : bal_key) (amount : Z) (ref1 ref2 : string) (b : balances) : list ledger_entry :=
  [transfer_entry kf amount 0 (available_balance (row_of kf b)) (available_balance (row_of kf b) - amount) ref1;
   transfer_entry kt 0 amount (available_balance (row_of kt b)) (available_balance (row_of kt b) + amount) ref2].

Lemma insert_ledger_post_bind {A} k r es e b (p : unit → M balances A) :
  bind (insertBalanceLedger e) p (post k r es b) = p tt (post k r (es ++ [e]) b).
Proof. unfold bind. by rewrite insert_ledger_post. Qed.

Section Runs.
Context `{DecimalJs, Runtime}.

Lemma debit_available_run u c acct amount ref b :
  let k := account_key u c acct in
  balances_wf b → 0 ≤ amount ≤ available_balance (row_of k b) →
  debitAvailableBalance u c acct amount ref b
  = Ret (tt, post k (less amount (row_of k b))
      [transfer_entry k amount 0 (available_balance (row_of k b)) (available_balance (row_of k b) - amount) ref] b).
Proof.
  intros k Hwf Ha. unfold debitAvailableBalance, assertValidDecimal, assertNonNegative. fold k.
  rewrite (proj2 (Z.ltb_ge amount 0)) by lia. balance_exec. cbn [negb]. balance_exec.
  rewrite (proj2 (Z.leb_le _ _)) by lia. balance_exec. rewrite (proj2 (Z.leb_le _ _)) by lia. balance_exec.
  fold (less amount (row_of k b)). rewrite less_nonneg by (try apply wf_row_of; lia || done).
  by balance_exec.
Qed.

Lemma credit_account_run u c acct amount ref b :
  let k := account_key u c acct in
  balances_wf b → 0 ≤ amount →
  creditBalanceForAccount u c acct amount ref b
  = Ret (tt, post k (more amount (row_of k b))
      [transfer_entry k 0 amount (available_balance (row_of k b)) (available_balance (row_of k b) + amount) ref] b).
Proof.
  intros k Hwf Ha. unfold creditBalanceForAccount, assertValidDecimal, assertNonNegative. fold k.
  rewrite (proj2 (Z.ltb_ge amount 0)) by lia. balance_exec. cbn [negb]. balance_exec.
  fold (more amount (row_of k b)). rewrite more_nonneg by (try apply wf_row_of; lia || done).
  by balance_exec.
Qed.

(** The transaction of [POST /transfer], on every branch. *)
Lemma transfer_tx_run u c from to amount ref1 ref2 b :
  let kf := account_key u c from in
  let kt := account_key u c to in
  from ≠ to → balances_wf b → 0 ≤ amount →
  match transfer_tx u c from to amount ref1 ref2 b with
  | Ret (_, b') => amount ≤ toDP AMOUNT_PRECISION (available_balance (row_of kf b)) ∧
      moved kf kt amount (transfer_entries kf kt amount ref1 ref2 b) b b'
  | Throw e => toDP AMOUNT_PRECISION (available_balance (row_of kf b)) < amount ∧ e = "INSUFFICIENT_BALANCE"
  end.
Proof.
  intros kf kt Hne Hwf Ha. unfold transfer_tx. fold kf kt. balance_exec.
  set (b0 := ensured kt (ensured kf b)).
  assert (user_balances b0 !! kf = Some (row_of kf b)) as Hkf by (apply ensured_lookup_mono, ensured_lookup).
  assert (∀ k, row_of k b0 = row_of k b) as Hrow by (intros k; unfold b0; by rewrite !row_of_ensured).
  rewrite (select_known kf b0 _ Hkf). cbv beta iota.
  destruct (Z.ltb_spec (toDP AMOUNT_PRECISION (available_balance (row_of kf b))) amount) as [Hlt|Hge];
    cbn [negb]; [done|]. cbv beta iota.
  assert (row_nonneg (row_of kf b) = true) as Hnn by by apply wf_row_of. apply row_nonneg_true in Hnn.
  pose proof (toDP_bounds AMOUNT_PRECISION (available_balance (row_of kf b)) ltac:(lia)) as Hdp.
  assert (balances_wf b0) as Hwf0 by by apply wf_ensured, wf_ensured.
  assert (0 ≤ amount ≤ available_balance (row_of kf b0)) as Ha0 by (rewrite Hrow; lia).
  fold kf. rewrite (debit_available_run u c from amount ref1 b0 Hwf0 Ha0). fold kf. cbv beta iota.
  set (b1 := post kf _ _ b0).
  assert (balances_wf b1) as Hwf1 by (apply wf_post; [done|]; apply less_nonneg; [by apply wf_row_of|lia]).
  rewrite (credit_account_run u c to amount ref2 b1 Hwf1 Ha). fold kt. split; [done|].
  assert (kf ≠ kt) as Hk by (unfold kf, kt, account_key; congruence).
  apply (moved_intro _ _ _ _ _ b1); [done|done|lia| |apply row_change_post|].
  - rewrite <- (Hrow kf). apply (row_change_through _ kf), (row_change_through _ kt), row_change_post.
  - assert (row_of kt b1 = row_of kt b) as -> by (unfold b1; rewrite row_of_post_ne by done; apply Hrow).
    unfold b1. rewrite Hrow. unfold transfer_entries, post. simpl. by rewrite <- app_assoc.
Qed.

(** ** The statements of a transfer to another user *)
Lemma select_sender_run u c amount sf b :
  ∃ o, select_sender u c amount sf b = Ret (o, b) ∧
  match o with
  | Some (k, r) => (∃ acct, acct ∈ ["funding"; "spot"] ∧ k = account_key u c acct) ∧
      user_balances b !! k = Some r ∧ amount ≤ available_balance r
  | None => ∀ acct r, acct ∈ ["funding"; "spot"] → user_balances b !! account_key u c acct = Some r →
      available_balance r < amount
  end.
Proof.
  unfold select_sender, select_balance, bind, ret, gets.
  destruct (user_balances b !! account_key u c "funding") as [rf|] eqn:Ef;
    [destruct (Z.leb_spec amount (available_balance rf)) as [Hf|Hf]|];
  (destruct (user_balances b !! account_key u c "spot") as [rs|] eqn:Es;
    [destruct (Z.leb_spec amount (available_balance rs)) as [Hs|Hs]|]); simpl.
  all: try (destruct (if _ =? _ then _ else _)); eexists; (split; [reflexivity|]); cbv beta iota.
  all: try (split; [eexists; (split; [|reflexivity]); set_solver|done]).
  all: intros acct r Hacct Hr; rewrite !elem_of_cons, elem_of_nil in Hacct; destruct Hacct as [->|[->|[]]];
    rewrite ?Ef, ?Es in Hr; by simplify_eq.
Qed.

Lemma add_available_run k x b r :
  user_balances b !! k = Some r → row_nonneg (more x r) = true →
  add_available k x b = Ret (more x r, post k (more x r) [] b).
Proof.
  intros Hk Hn. unfold add_available, bind. rewrite (update_known k b r Hk). cbv beta iota.
  unfold assertUserBalanceUpdated, get_or, ret, assertBalanceInvariant, require. fold (more x r). by rewrite Hn.
Qed.

Definition internal_entries (kf kt : bal_key) (amount : Z) (ref : string) (b : balances) : list ledger_entry :=
  [transfer_entry kf amount 0 (available_balance (row_of kf b)) (dminus (available_balance (row_of kf b)) amount) ref;
   transfer_entry kt 0 amount (available_balance (row_of kt b)) (dplus (available_balance (row_of kt b)) amount) ref].

Lemma internal_statements_run u v c amount sf ref b :
  u ≠ v → balances_wf b → 0 ≤ amount → is_Some (user_balances b !! account_key v c "funding") →
  match internal_statements u v c amount sf ref b with
  | Ret (_, b') => ∃ acct, acct ∈ ["funding"; "spot"] ∧
      moved (account_key u c acct) (account_key v c "funding") amount
        (internal_entries (account_key u c acct) (account_key v c "funding") amount ref b) b b'
  | Throw e => e = "INSUFFICIENT_BALANCE" ∧
      ∀ acct r, acct ∈ ["funding"; "spot"] → user_balances b !! account_key u c acct = Some r →
        available_balance r < amount
  end.
Proof.
  intros Hne Hwf Ha [rr Hrr]. unfold internal_statements.
  destruct (select_sender_run u c amount sf b) as (o & Hsel & Ho). step. destruct o as [[k r]|]; [|done].
  destruct Ho as ((acct & Hacct & ->) & Hk & Hle). set (k := account_key u c acct) in *.
  set (kr := account_key v c "funding") in *. assert (k ≠ kr) as Hkne by (unfold k, kr, account_key; congruence).
  pose proof (row_of_known k b r Hk) as Hrow. pose proof (row_of_known kr b rr Hrr) as Hrowr.
  assert (row_nonneg r = true ∧ row_nonneg rr = true) as [Hn Hnr] by exact (conj (Hwf _ _ Hk) (Hwf _ _ Hrr)).
  step. cbv beta iota. erewrite bind_Ret; [|apply (add_available_run k _ b r Hk), less_nonneg; [done|lia]].
  change (more (- amount) r) with (less amount r). rewrite insert_ledger_post_bind. simpl app.
  set (b1 := post k _ _ b).
  assert (user_balances b1 !! kr = Some rr) as Hrr1 by (unfold b1; by rewrite post_lookup_ne).
  assert (row_nonneg (more amount rr) = true) as Hnr' by (by apply more_nonneg).
  erewrite bind_Ret; [|by rewrite (select_known kr b1 rr Hrr1)]. cbv beta iota. step.
  erewrite bind_Ret; [|by apply (add_available_run kr amount b1 rr)]. cbv beta.
  rewrite insert_ledger_post. exists acct. split; [done|].
  apply (moved_intro _ _ _ _ _ b1); [done|done|fold k; rewrite Hrow; lia| |rewrite (row_of_known kr b1 rr Hrr1); apply row_change_post|].
  - fold k. rewrite Hrow. apply row_change_post.
  - unfold internal_entries. fold k. rewrite Hrow, Hrowr. unfold b1, post. simpl. by rewrite <- app_assoc.
Qed.
End Runs.

(** ** All interleavings *)
Definition entries_of (id : string) (l : list ledger_entry) : list ledger_entry :=
  filter (λ e, le_reference_id e = id) l.

Definition entry_terms (e : ledger_entry) : string * string * Z * Z :=
  (le_user_id e, le_currency_id e, le_debit e, le_credit e).

(** The ledger has one movement for an internal withdrawal's row and nothing otherwise. *)
Definition row_paid (o : option wrow) (es : list ledger_entry) : Prop :=
  match o with
  | Some (WRow u _ (Some v) c a) => ∃ e1 e2, es = [e1; e2] ∧ entry_terms e1 = (u, c, a, 0) ∧ entry_terms e2 = (v, c, 0, a)
  | _ => es = []
  end.
Definition one_row_per_key (rows : gmap string wrow) : Prop :=
  ∀ id1 id2 w1 w2, rows !! id1 = Some w1 → rows !! id2 = Some w2 →
    wr_user w1 = wr_user w2 → wr_key w1 = wr_key w2 → id1 = id2.

Lemma entries_of_app id l1 l2 : entries_of id (l1 ++ l2) = entries_of id l1 ++ entries_of id l2.
Proof. apply filter_app. Qed.

Section Interleavings.
Context `{DecimalJs, Runtime}.
(** The database at the start, and the ids that rows of [withdrawals] have: the random ids of
    the other ledger entries are different. *)
Context (d0 : transfer_db) (wid : string → Prop).

Record tf_ok (d : transfer_db) : Prop := {
  to_wf : balances_wf (sget d);
  to_funds : ∀ c, funds c (sget d) = funds c (sget d0);
  to_paid : ∀ id, wid id → row_paid (tf_rows d !! id) (entries_of id (balance_ledger (sget d)));
  to_unique : one_row_per_key (tf_rows d);
}.

Definition any_change (_ _ : transfer_db) : Prop := True.
#[local] Instance any_change_reflexive : Reflexive any_change.
Proof. done. Qed.
Notation keeps := (keeps tf_ok any_change).

(** Statements that leave the balances and [withdrawals] alone. *)
Lemma tf_ok_same d d' : tf_ok d → sget d' = (sget d : balances) → tf_rows d' = tf_rows d → tf_ok d'.
Proof. intros [Hw Hf Hp Hu] Hb Hr. split; by rewrite ?Hb, ?Hr. Qed.

Lemma keeps_same {A} (m : M transfer_db A) :
  (∀ d, match m d with
        | Ret (_, d') => sget d' = (sget d : balances) ∧ tf_rows d' = tf_rows d
        | Throw _ => True
        end) → keeps (stmt m).
Proof.
  intros Hm. apply keeps_stmt. intros d Hd. specialize (Hm d). destruct (m d) as [[a d']|]; [|done].
  destruct Hm. split; [by apply (tf_ok_same d)|done].
Qed.

Lemma setNxEx_keeps k : keeps (stmt (setNxEx k)).
Proof. apply keeps_same. intros d. unfold setNxEx, bind, gets. by case_bool_decide. Qed.
Lemma insert_history_keeps t : keeps (stmt (insert_history t)).
Proof.
  apply keeps_same. intros d. unfold insert_history, bind, gets, get_or, require, modify.
  destruct (tf_types d) as [ts|]; [|done]. simpl. by case_bool_decide.
Qed.
Lemma modify_redis_keeps f : (∀ d, ∃ c l, f d = set_redis c l d) → keeps (stmt (modify f)).
Proof. intros Hf. apply keeps_same. intros d. simpl. by destruct (Hf d) as (c & l & ->). Qed.
Lemma currency_of_keeps s : keeps (currency_of s).
Proof. apply keeps_catch; [apply keeps_gets|]. intros e. apply keeps_ret. Qed.
Lemma parse_amount_pos s a : parse_amount s = Some a → 0 < a.
Proof.
  unfold parse_amount. destruct (parse_decimal s) as [[x|]|]; [|done|done].
  destruct (Z.leb_spec (toDP AMOUNT_PRECISION x) 0); [done|]. by intros [= <-].
Qed.

(** The entries of a movement between own accounts are of no row. *)
Lemma transfer_tx_keeps u c from to amount ref1 ref2 :
  from ≠ to → 0 < amount → ¬ wid ref1 → ¬ wid ref2 →
  keeps (stmt (zoom (transfer_tx u c from to amount ref1 ref2))).
Proof.
  intros Hne Ha H1 H2. apply keeps_stmt. intros d [Hw Hf Hp Hu]. unfold zoom.
  pose proof (transfer_tx_run u c from to amount ref1 ref2 (sget d) Hne Hw ltac:(lia)) as Hrun.
  destruct (transfer_tx _ _ _ _ _ _ _ _) as [[[] b']|]; [|done]. destruct Hrun as [_ [_ Hl Hfun Hwf]].
  split; [|done]. split; rewrite ?sget_sput; [by apply Hwf|by intros c'; rewrite Hfun| |done].
  intros id Hid. rewrite Hl, entries_of_app.
  replace (entries_of id (transfer_entries _ _ _ _ _ _)) with (@nil ledger_entry); [rewrite app_nil_r; by apply Hp|].
  unfold entries_of, transfer_entries. rewrite !filter_cons_False; [done|..]; simpl; by intros ->.
Qed.

Lemma insert_wrow_run id w d u d' :
  insert_wrow id w d = Ret (u, d') →
  d' = put_wrow id w d ∧ tf_rows d !! id = None ∧
  (one_row_per_key (tf_rows d) → one_row_per_key (tf_rows d')).
Proof.
  intros Hrun. unfold insert_wrow in Hrun. run_all Hrun. bool_prop. split; [done|]. split; [done|].
  intros Hu. match goal with Hf : forallb _ _ = true |- _ => rename Hf into Hall end. rewrite forallb_forall in Hall.
  assert (∀ id' w', tf_rows d !! id' = Some w' → ¬ (wr_user w' = wr_user w ∧ wr_key w' = wr_key w)) as Hno.
  { intros id' w' Hw' [He1 He2].
    assert (In (id', w') (map_to_list (tf_rows d))) as Hin by by apply list_elem_of_In, elem_of_map_to_list.
    specialize (Hall _ Hin). simpl in Hall. by rewrite He1, He2, !String.eqb_refl in Hall. }
  intros id1 id2 w1 w2 Hl1 Hl2 He1 He2. simpl in *. apply lookup_insert_Some in Hl1, Hl2.
  destruct Hl1 as [[<- <-]|[_ Hl1]], Hl2 as [[<- <-]|[_ Hl2]]; [done| | |by apply (Hu id1 id2 w1 w2)].
  - exfalso. by apply (Hno id2 w2).
  - exfalso. by apply (Hno id1 w1).
Qed.

Lemma internal_tx_keeps id u v c key amount sf :
  u ≠ v → 0 < amount → keeps (stmt (internal_tx id u v c key amount sf)).
Proof.
  intros Hne Ha. apply keeps_stmt. intros d [Hw Hf Hp Hu].
  destruct (internal_tx _ _ _ _ _ _ _ d) as [[[] d']|] eqn:Hrun; [|done].
  unfold internal_tx in Hrun. apply bind_Ret_inv in Hrun as ([] & d1 & Hens & Hrun).
  set (b1 := ensured (account_key v c "funding") (ensured (account_key u c "funding") (sget d))) in *.
  assert (d1 = sput b1 d) as ->.
  { unfold zoom, bind in Hens. rewrite !ensure_run in Hens. by injection Hens. }
  apply bind_Ret_inv in Hrun as ([] & d2 & Hins & Hrun).
  apply insert_wrow_run in Hins as (-> & Hnone & Huniq).
  apply bind_Ret_inv in Hrun as ([] & d3 & Hst & Hhist). unfold zoom in Hst.
  assert (balances_wf b1) as Hwf1 by by apply wf_ensured, wf_ensured.
  pose proof (internal_statements_run u v c amount sf id b1 Hne Hwf1 ltac:(lia)
    (mk_is_Some _ _ (ensured_lookup _ _))) as Hrun.
  change (sget (put_wrow _ _ (sput b1 d))) with b1 in Hst.
  destruct (internal_statements _ _ _ _ _ _ _) as [[[] b']|]; [|done].
  injection Hst as <-. destruct Hrun as (acct & _ & [_ Hl Hfun Hwf]).
  assert (sget d' = b' ∧ tf_rows d' = <[id := WRow u key (Some v) c amount]> (tf_rows d)) as [Hb Hr].
  { unfold insert_history in Hhist. run_all Hhist. done. }
  split; [|done]. split; rewrite ?Hb, ?Hr.
  - by apply Hwf.
  - intros c'. rewrite Hfun. unfold b1. rewrite !funds_ensured. apply Hf.
  - intros id' Hid'. rewrite Hl, entries_of_app. unfold b1 at 1. simpl.
    specialize (Hp id' Hid'). destruct (decide (id = id')) as [<-|Hidne].
    + simpl in Hnone. rewrite Hnone in Hp. simpl in Hp. rewrite lookup_insert_eq. unfold row_paid.
      change (balance_ledger (sget d)) with (balance_ledger (edb_balances (tf_core d))) in Hp. rewrite Hp. simpl app.
      unfold entries_of, internal_entries. rewrite !filter_cons_True by done. eexists _, _. done.
    + rewrite lookup_insert_ne by done.
      replace (entries_of id' (internal_entries _ _ _ _ _)) with (@nil ledger_entry); [by rewrite app_nil_r|].
      unfold entries_of, internal_entries. rewrite !filter_cons_False; [done|..]; simpl; congruence.
  - by apply Huniq.
Qed.

(** ** The handlers *)
Lemma transfer_keeps u header b ref1 ref2 :
  ¬ wid ref1 → ¬ wid ref2 → keeps (transferBetweenAccounts u header b ref1 ref2).
Proof.
  intros H1 H2. unfold transferBetweenAccounts. apply keeps_catch; [|intros e; apply keeps_ret].
  destruct (key_refusal _); [apply keeps_ret|].
  apply keeps_bind; [apply keeps_gets|]. intros [[hash resp]|]; [destruct (negb _); apply keeps_ret|].
  apply keeps_bind; [apply setNxEx_keeps|]. intros [|]; [|apply keeps_ret]. cbn [negb].
  unfold transfer_locked. destruct (negb _); [apply keeps_ret|].
  destruct (String.eqb_spec (tb_from b) (tb_to b)) as [|Hne]; [apply keeps_ret|].
  destruct (parse_amount _) as [amount|] eqn:Ha; [|apply keeps_ret]. apply parse_amount_pos in Ha.
  apply keeps_bind; [apply keeps_gets|]. intros [token|]; [|apply keeps_ret].
  apply keeps_bind; [apply currency_of_keeps|]. intros [c|]; [|apply keeps_ret].
  apply keeps_bind; [by apply transfer_tx_keeps|]. intros _.
  apply keeps_bind; [apply best_effort_keeps, insert_history_keeps|]. intros _.
  apply keeps_bind; [apply best_effort_keeps, modify_redis_keeps; intros d; by eexists _, _|]. intros _. apply keeps_ret.
Qed.

Lemma internal_withdrawal_keeps w u header b sf id : keeps (internal_withdrawal w u header b sf id).
Proof.
  unfold internal_withdrawal. apply keeps_catch.
  2: { intros e. destruct (String.eqb e _); [|apply keeps_ret].
       apply keeps_bind; [apply keeps_gets|]. intros [|]; apply keeps_ret. }
  destruct (iw_paused w); [apply keeps_ret|]. destruct (key_refusal _); [apply keeps_ret|].
  apply keeps_bind; [apply keeps_gets|]. intros [[hash resp]|]; [destruct (negb _); apply keeps_ret|].
  apply keeps_bind; [apply setNxEx_keeps|]. intros [|]; [|apply keeps_ret]. cbn [negb].
  apply finally_keeps; [|apply modify_redis_keeps; intros d; by eexists _, _].
  unfold internal_locked. do 2 (destruct (_ : bool); [apply keeps_ret|]).
  destruct (parse_amount _) as [amount|] eqn:Ha; [|apply keeps_ret]. apply parse_amount_pos in Ha.
  destruct (String.eqb _ ""); [apply keeps_ret|].
  apply keeps_bind; [apply currency_of_keeps|]. intros [c|]; [|apply keeps_ret].
  apply keeps_bind; [apply keeps_gets|]. intros coin.
  apply keeps_bind; [apply keeps_gets|]. intros [v|]; [|apply keeps_ret].
  destruct (String.eqb_spec v u) as [|Hne]; [apply keeps_ret|].
  destruct (iw_second_factor w); [apply keeps_ret|]. destruct (limit_refusal _ _); [apply keeps_ret|].
  apply keeps_bind; [apply keeps_gets|]. intros av. destruct (_ <? _); [apply keeps_ret|].
  destruct (iw_treasury w); [apply keeps_ret|].
  apply keeps_bind; [by apply internal_tx_keeps|]. intros _.
  apply keeps_bind; [apply best_effort_keeps, modify_redis_keeps; intros d; by eexists _, _|]. intros _. apply keeps_ret.
Qed.

(** Keys of Redis expire, and on-chain withdrawals take rows. *)
Inductive transfer_env : transfer_db → transfer_db → Prop :=
  | env_expire_answer k d : transfer_env d (set_redis (delete k (tf_cache d)) (tf_locks d) d)
  | env_expire_lock k d : transfer_env d (set_redis (tf_cache d) (tf_locks d ∖ {[k]}) d)
  | env_onchain id u key c a d d' :
      insert_wrow id (WRow u key None c a) d = Ret (tt, d') → transfer_env d d'.

Inductive transfer_starts : transfer_db → thread transfer_db reply → Prop :=
  | start_transfer u header b ref1 ref2 d :
      ¬ wid ref1 → ¬ wid ref2 → transfer_starts d (transferBetweenAccounts u header b ref1 ref2)
  | start_internal w u header b sf id d : transfer_starts d (internal_withdrawal w u header b sf id).

Definition transfer_step : transfer_db * list (thread transfer_db reply) →
    transfer_db * list (thread transfer_db reply) → Prop := pool_step transfer_env transfer_starts.

Lemma transfer_env_ok d d' : tf_ok d → transfer_env d d' → tf_ok d'.
Proof.
  intros Hd Henv. destruct Henv as [k d|k d|id u key c a d d' Hins]; [by apply (tf_ok_same d)..|].
  apply insert_wrow_run in Hins as (-> & Hnone & Huniq). destruct Hd as [Hw Hf Hp Hu].
  split; [done|done| |by apply Huniq]. intros id' Hid'. simpl. specialize (Hp id' Hid').
  destruct (decide (id = id')) as [<-|Hne]; [|by rewrite lookup_insert_ne].
  rewrite lookup_insert_eq. by rewrite Hnone in Hp.
Qed.

Lemma transfer_runs_ok d ts : tf_ok d0 → rtc transfer_step (d0, []) (d, ts) → tf_ok d.
Proof.
  intros Hd Hrun. assert (all_safe tf_ok any_change (d, ts)) as [Hd' _]; [|done].
  apply (pool_safe _ _ (λ _, I) (λ _ _ _ _ _, I) transfer_env transfer_starts (d0, []) (d, ts)).
  - intros d1 d2 Hd1 He. split; [by apply (transfer_env_ok d1)|done].
  - intros d1 t Hd1 Hs. destruct Hs as [u header b ref1 ref2 d1 H1 H2|w u header b sf id d1].
    + eapply safe_mono; [|apply (transfer_keeps u header b ref1 ref2 H1 H2 (λ _, True)); [apply stable_const|done..]]. done.
    + eapply safe_mono; [|apply (internal_withdrawal_keeps w u header b sf id (λ _, True)); [apply stable_const|done..]]. done.
  - done.
  - split; [done|constructor].
Qed.
End Interleavings.

(** ** Theorems *)
Section Theorems.
Context `{DecimalJs, Runtime}.

(** A database to start from: the ids of future rows are not in the ledger. *)
Record transfers_fresh (wid : string → Prop) (d : transfer_db) : Prop := {
  tfr_wf : balances_wf (sget d);
  tfr_rows : tf_rows d = ∅;
  tfr_ledger : ∀ e, e ∈ balance_ledger (sget (S := transfer_db) (T := balances) d) → ¬ wid (le_reference_id e);
}.

(** C37. Over all interleavings of transfers between own accounts and to other users, with
    on-chain withdrawals that take keys, answers and locks that expire from Redis, database
    failures and crashes anywhere, every currency keeps its funds and no bucket is negative.
    One Idempotency-Key of a user has at most one row of withdrawals, and an internal one has
    exactly the debit and the credit of its amount in the ledger: whatever is retried, a
    transfer to another user moves money once. *)
Theorem transfers_conserve (wid : string → Prop) (d0 d : transfer_db) (ts : list (thread transfer_db reply)) :
  transfers_fresh wid d0 → rtc (transfer_step wid) (d0, []) (d, ts) →
  balances_wf (sget d) ∧ (∀ c, funds c (sget d) = funds c (sget d0)) ∧ one_row_per_key (tf_rows d) ∧
  ∀ id, wid id → row_paid (tf_rows d !! id) (entries_of id (balance_ledger (sget d))).
Proof.
  intros [Hwf Hrows Hl] Hrun. assert (tf_ok d0 wid d0) as Hd0.
  { split; [done|done| |intros id1 id2 w1 w2; by rewrite Hrows]. intros id Hid. rewrite Hrows. simpl.
    unfold entries_of. apply elem_of_nil_inv. intros e. rewrite list_elem_of_filter. intros [<- He]. by apply (Hl e). }
  destruct (transfer_runs_ok d0 wid d ts Hd0 Hrun). auto.
Qed.

(** A request that passes the checks: its token, currency and amount. *)
Record transfer_request_ok (u header : string) (b : transfer_body) (d : transfer_db) (token : coin) (c : string)
    (amount : Z) : Prop := {
  tq_key : key_refusal (js_trim header) = None;
  tq_new : tf_cache d !! transfer_idem u header = None;
  tq_free : transfer_idem u header ∉ tf_locks d;
  tq_accounts : tb_from b ∈ validAccounts ∧ tb_to b ∈ validAccounts ∧ tb_from b ≠ tb_to b;
  tq_amount : parse_amount (tb_amount b) = Some amount;
  tq_token : find (λ t, String.eqb (co_id t) (tb_token b)) (tf_coins d) = Some token;
  tq_currency : getCurrencyIdBySymbol (co_symbol token) (tf_core d) = Some c;
}.

Definition locked_db (k : idem_key) (d : transfer_db) : transfer_db :=
  set_redis (tf_cache d) ({[k]} ∪ tf_locks d) d.

(** The next statement inside a [try]. *)
Lemma advance_try {A B} (m : M transfer_db A) (F : A → thread transfer_db B) h d a d' :
  m d = Ret (a, d') → advance false (tcatch (tbind (stmt m) F) h) d = Some (tcatch (F a) h, d').
Proof. intros Hm. simpl. unfold transaction. by rewrite Hm. Qed.
Lemma advance_try_catch {A B} (m : M transfer_db A) g (F : A → thread transfer_db B) h d a d' :
  m d = Ret (a, d') → advance false (tcatch (tbind (tcatch (stmt m) g) F) h) d = Some (tcatch (F a) h, d').
Proof. intros Hm. simpl. unfold transaction. by rewrite Hm. Qed.

Lemma insert_history_kept t d :
  let d' := match insert_history t d with Ret (_, d') => d' | Throw _ => d end in
  sget d' = (sget d : balances) ∧ tf_rows d' = tf_rows d.
Proof.
  unfold insert_history, bind, gets, get_or, require, modify. destruct (tf_types d); [|done].
  simpl. by case_bool_decide.
Qed.

(** The first steps of a request, up to its transaction. *)
Lemma transfer_checks u header b ref1 ref2 d token c amount :
  transfer_request_ok u header b d token c amount →
  ∃ k, (∀ s, schedule (repeat (0%nat, false) 4) (d, transferBetweenAccounts u header b ref1 ref2 :: s)
             = (locked_db (transfer_idem u header) d,
                Stmt (zoom (transfer_tx u c (tb_from b) (tb_to b) amount ref1 ref2)) k :: s)) ∧
    alone (transferBetweenAccounts u header b ref1 ref2) d
    = alone (Stmt (zoom (transfer_tx u c (tb_from b) (tb_to b) amount ref1 ref2)) k)
        (locked_db (transfer_idem u header) d) ∧
    (∀ e, k (Throw e) = refused (if bool_decide (e ∈ ["NO_BALANCE_FOR_ACCOUNT"; "INSUFFICIENT_BALANCE"]) then e
                                 else "INTERNAL_ERROR")) ∧
    (∀ d1, let msg := transfer_message b (co_symbol token) amount in
       ∃ d2, alone (k (Ret tt)) d1 = (Ret (true, msg), d2) ∧ sget d2 = (sget d1 : balances) ∧ tf_rows d2 = tf_rows d1 ∧
         tf_cache d2 !! transfer_idem u header = Some (buildTransferRequestHash b, msg)).
Proof.
  intros [Hkey Hnew Hfree (Hfrom & Hto & Hne) Ham Htok Hcur]. set (ik := transfer_idem u header) in *.
  unfold transferBetweenAccounts. fold ik. rewrite Hkey.
  match goal with |- context [tcatch (tbind (stmt (getJson ik)) ?F) ?h] => set (F1 := F); set (handler := h) end.
  assert (getJson ik d = Ret (None, d)) as H1 by (unfold getJson, gets; by rewrite Hnew).
  assert (setNxEx ik d = Ret (true, locked_db ik d)) as H2.
  { unfold setNxEx, bind, gets. by rewrite bool_decide_eq_true_2. }
  pose proof (advance_try _ F1 handler d _ _ H1) as A1. unfold F1 at 2 in A1. cbv beta iota in A1.
  match type of A1 with _ = Some (tcatch (tbind _ ?F) _, _) => set (F2 := F) in A1 end.
  pose proof (advance_try _ F2 handler d _ _ H2) as A2. unfold F2 at 2 in A2. cbn [negb] in A2.
  unfold transfer_locked in A2. rewrite !bool_decide_eq_true_2 in A2 by done. cbn [negb andb] in A2.
  rewrite (proj2 (String.eqb_neq _ _) Hne), Ham in A2. cbv beta iota in A2.
  match type of A2 with _ = Some (tcatch (tbind _ ?F) _, _) => set (F3 := F) in A2 end.
  assert (gets (λ d, find (λ t, String.eqb (co_id t) (tb_token b)) (tf_coins d)) (locked_db ik d)
          = Ret (Some token, locked_db ik d)) as H3 by (unfold gets; simpl; by rewrite Htok).
  assert (gets (λ d, getCurrencyIdBySymbol (co_symbol token) (tf_core d)) (locked_db ik d)
          = Ret (Some c, locked_db ik d)) as H4 by (unfold gets; simpl; by rewrite Hcur).
  pose proof (advance_try _ F3 handler _ _ _ H3) as A3.
  unfold F3 at 2 in A3. cbv beta iota in A3. unfold currency_of in A3.
  match type of A3 with _ = Some (tcatch (tbind (tcatch _ ?g) ?F) _, _) => set (F4 := F) in A3; set (null := g) in A3 end.
  pose proof (advance_try_catch _ null F4 handler _ _ _ H4) as A4. unfold F4 at 2 in A4. cbv beta iota in A4.
  match type of A4 with _ = Some (tcatch (tbind _ ?F) _, _) => set (F5 := F) in A4 end.
  exists (λ o, tcatch (tbind (Done o) F5) handler).
  split; [|split; [|split]].
  - intros s. cbn [repeat]. rewrite (schedule_head _ _ _ _ _ _ A1), (schedule_head _ _ _ _ _ _ A2),
      (schedule_head _ _ _ _ _ _ A3), (schedule_head _ _ _ _ _ _ A4). done.
  - etransitivity; [exact (alone_advance _ _ _ _ A1)|]. etransitivity; [exact (alone_advance _ _ _ _ A2)|].
    etransitivity; [exact (alone_advance _ _ _ _ A3)|]. exact (alone_advance _ _ _ _ A4).
  - done.
  - intros d1. cbn [tbind]. unfold F5. rewrite alone_catch, alone_bind, alone_best_effort. cbv beta iota.
    rewrite alone_bind, alone_best_effort. cbv beta iota.
    destruct (insert_history_kept (TransferRow u u c amount "internal") d1) as [Hb Hr].
    eexists. split; [reflexivity|]. split; [exact Hb|]. split; [exact Hr|]. simpl. apply lookup_insert_eq.
Qed.

(** What the transaction and the rest of a request do to a database it may use. *)
Lemma moved_alone u c b amount ref1 ref2 k (d : transfer_db) :
  tb_from b ≠ tb_to b → balances_wf (sget d) → 0 < amount →
  amount ≤ toDP AMOUNT_PRECISION (available_balance (row_of (account_key u c (tb_from b)) (sget d))) →
  ∃ b', moved (account_key u c (tb_from b)) (account_key u c (tb_to b)) amount
          (transfer_entries (account_key u c (tb_from b)) (account_key u c (tb_to b)) amount ref1 ref2 (sget d))
          (sget d) b' ∧
    advance false (Stmt (zoom (transfer_tx u c (tb_from b) (tb_to b) amount ref1 ref2)) k) d
    = Some (k (Ret tt) : thread transfer_db reply, sput b' d).
Proof.
  intros Hne Hwf Ha Hle.
  pose proof (transfer_tx_run u c (tb_from b) (tb_to b) amount ref1 ref2 (sget d) Hne Hwf ltac:(lia)) as Hrun.
  cbn [advance]. unfold transaction, zoom.
  destruct (transfer_tx _ _ _ _ _ _ _ (sget d)) as [[[] b']|e]; [|lia].
  exists b'. split; [apply Hrun|done].
Qed.

(** A transfer between own accounts. A request that passes the checks moves exactly
    its amount from one account to the other, with a debit and a credit in the ledger, and
    changes nothing else; when the available balance, rounded down to 8 decimals, is too
    small it is refused and no balance changes. After it succeeded, a request with the same
    Idempotency-Key is given the same answer if its body is the same (otherwise refused),
    and moves nothing. *)
Theorem transfer_exact (u header : string) (b : transfer_body) (ref1 ref2 : string) (d : transfer_db)
    (token : coin) (c : string) (amount : Z) :
  transfer_request_ok u header b d token c amount → balances_wf (sget d) →
  let kf := account_key u c (tb_from b) in
  let kt := account_key u c (tb_to b) in
  let msg := transfer_message b (co_symbol token) amount in
  let '(o, d') := alone (transferBetweenAccounts u header b ref1 ref2) d in
  tf_rows d' = tf_rows d ∧
  if amount <=? toDP AMOUNT_PRECISION (available_balance (row_of kf (sget d)))
  then o = Ret (true, msg) ∧
    moved kf kt amount (transfer_entries kf kt amount ref1 ref2 (sget d)) (sget d) (sget d') ∧
    ∀ b' ref3 ref4, alone (transferBetweenAccounts u header b' ref3 ref4) d'
      = (Ret (if String.eqb (buildTransferRequestHash b) (buildTransferRequestHash b') then (true, msg)
              else (false, "IDEMPOTENCY_KEY_REUSED")), d')
  else o = Ret (false, "INSUFFICIENT_BALANCE") ∧ sget d' = (sget d : balances).
Proof.
  intros Hok Hwf kf kt msg. pose proof (parse_amount_pos _ _ (tq_amount _ _ _ _ _ _ _ Hok)) as Ha.
  pose proof (tq_accounts _ _ _ _ _ _ _ Hok) as (_ & _ & Hne).
  destruct (transfer_checks u header b ref1 ref2 d token c amount Hok) as (k & _ & Halone & Herr & Hrest).
  rewrite Halone. set (d1 := locked_db _ d). destruct (Z.leb_spec amount (toDP AMOUNT_PRECISION
    (available_balance (row_of kf (sget d))))) as [Hle|Hlt].
  - destruct (moved_alone u c b amount ref1 ref2 k d1 Hne Hwf Ha Hle) as (b' & Hmoved & Hadv).
    rewrite (alone_advance _ _ _ _ Hadv). destruct (Hrest (sput b' d1)) as (d2 & Hrun & Hb & Hr & Hc).
    rewrite Hrun. split; [by rewrite Hr|]. split; [done|]. split; [by rewrite Hb|].
    intros bb ref3 ref4. unfold transferBetweenAccounts. rewrite (tq_key _ _ _ _ _ _ _ Hok), alone_catch, alone_bind.
    assert (getJson (transfer_idem u header) d2 = Ret (Some (buildTransferRequestHash b, msg), d2)) as Hget
      by (unfold getJson, gets; by rewrite Hc).
    rewrite (alone_run _ _ _ _ Hget). cbv beta iota. by destruct (String.eqb _ _).
  - cbn [alone]. unfold transaction, zoom.
    pose proof (transfer_tx_run u c (tb_from b) (tb_to b) amount ref1 ref2 (sget d1) Hne Hwf ltac:(lia)) as Hrun.
    destruct (transfer_tx _ _ _ _ _ _ _ (sget d1)) as [[[] b']|e].
    { destruct Hrun as [Hle _]. exfalso. exact (Zlt_not_le _ _ Hlt Hle). }
    destruct Hrun as [_ ->]. rewrite Herr. done.
Qed.

(** A request between own accounts that is tried again moves its amount twice: the first
    process stopped after its transaction (or its answer could not be stored), the lock has
    expired, and the same request with the same Idempotency-Key finds nothing. *)
Theorem retried_transfer_moves_twice (u header : string) (b : transfer_body) (ref1 ref2 ref3 ref4 : string)
    (d : transfer_db) (token : coin) (c : string) (amount : Z) :
  transfer_request_ok u header b d token c amount → balances_wf (sget d) →
  let kf := account_key u c (tb_from b) in
  let kt := account_key u c (tb_to b) in
  amount ≤ toDP AMOUNT_PRECISION (available_balance (row_of kf (sget d)) - amount) →
  let d1 := (schedule (repeat (0%nat, false) 5) (d, [transferBetweenAccounts u header b ref1 ref2])).1 in
  let '(o, d2) := alone (transferBetweenAccounts u header b ref3 ref4)
                    (set_redis (tf_cache d1) (tf_locks d1 ∖ {[transfer_idem u header]}) d1) in
  o = Ret (true, transfer_message b (co_symbol token) amount) ∧
  ∃ b1, moved kf kt amount (transfer_entries kf kt amount ref1 ref2 (sget d)) (sget d) b1 ∧
        moved kf kt amount (transfer_entries kf kt amount ref3 ref4 b1) b1 (sget d2).
Proof.
  intros Hok Hwf kf kt Hle. pose proof (parse_amount_pos _ _ (tq_amount _ _ _ _ _ _ _ Hok)) as Ha.
  pose proof (tq_accounts _ _ _ _ _ _ _ Hok) as (_ & _ & Hne). assert (kf ≠ kt) as Hk by (unfold kf, kt, account_key; congruence).
  destruct (transfer_checks u header b ref1 ref2 d token c amount Hok) as (k & Hsched & _ & _ & _).
  set (dl := locked_db _ d) in *.
  destruct (moved_alone u c b amount ref1 ref2 k dl Hne Hwf Ha) as (b1 & Hm1 & Hadv).
  { change (sget dl) with (sget d : balances). fold kf. etransitivity; [exact Hle|]. apply trunc_mono; [apply ulp_pos|lia]. }
  change (repeat (0%nat, false) 5) with (repeat (0%nat, false) 4 ++ [(0%nat, false)]).
  rewrite schedule_app, Hsched, (schedule_head _ _ _ _ _ _ Hadv). cbn [schedule fst].
  set (d1 := sput b1 dl). set (d1' := set_redis _ _ d1).
  assert (transfer_request_ok u header b d1' token c amount) as Hok'.
  { destruct Hok as [? ? ? ? ? ? Hcur]. split; try done. unfold d1', d1. simpl. set_solver. }
  destruct (transfer_checks u header b ref3 ref4 d1' token c amount Hok') as (k' & _ & Halone & _ & Hrest).
  rewrite Halone. set (dl' := locked_db _ d1').
  destruct (moved_alone u c b amount ref3 ref4 k' dl' Hne (mv_wf _ _ _ _ _ _ Hm1 Hwf) Ha) as (b2 & Hm2 & Hadv').
  { change (sget dl') with b1. fold kf. by rewrite (mv_rows _ _ _ _ _ _ Hm1), decide_False, decide_True. }
  rewrite (alone_advance _ _ _ _ Hadv'). destruct (Hrest (sput b2 dl')) as (d2 & Hrun & Hb & _).
  rewrite Hrun. split; [done|]. exists b1. split; [exact Hm1|]. rewrite Hb. exact Hm2.
Qed.
End Theorems.
