(* ===== verification/TransfersDemo.v ===== *)
(** * Transfers at a concrete database

    Ann has 10 USDT in her funding account. She moves some to her trading account, sends
    some to Bob, twice with one key, and has a transfer retried after its process stopped. *)
From stdpp Require Import base gmap strings list fin_maps relations.
From Stdlib Require Import ZArith Lia.
From S2P Require Import Prelude Threads Money Balances Escrow SettlementModel Settlement SettlementDemo TransferModel Transfers.
Local Open Scope Z_scope.

#[local] Existing Instance decimal_36.

Definition demo_transfers : transfer_db :=
  TransferDb (EscrowDb (Balances {[account_key "ann" "usdt" "funding" := wallet (dec 10 0) 0]} [])
               ∅ ∅ [Currency "usdt" "USDT"])
    [Coin "tok-usdt" "USDT" (Some (dec 1 0)) None]
    [Account "ann" "ann@example.com" "" true; Account "bob" "bob@example.com" "" true]
    ∅ (Some ["user_to_user"; "spot_to_p2p"]) [] ∅ ∅.

Definition transfer_demo_body (amount : string) : transfer_body := TransferBody "funding" "trading" "tok-usdt" amount.

Lemma transfer_demo_wf : balances_wf (sget demo_transfers).
Proof. apply wf_singleton. vm_compute. reflexivity. Qed.

Lemma transfer_demo_request : transfer_request_ok "ann" "key-1" (transfer_demo_body "2.5") demo_transfers
  (Coin "tok-usdt" "USDT" (Some (dec 1 0)) None) "usdt" (dec 25 1).
Proof.
  split; try (vm_compute; reflexivity).
  - apply not_elem_of_empty.
  - split_and!; [set_solver|set_solver|discriminate].
Qed.

(** 2.5 USDT to the trading account; the history has no type for it. *)
Lemma transfer_exact_witness :
  let '(o, d') := alone (transferBetweenAccounts "ann" "key-1" (transfer_demo_body "2.5") "ref-1" "ref-2") demo_transfers in
  available_balance (row_of (account_key "ann" "usdt" "trading") (sget d')) = dec 25 1 ∧ tf_history d' = [] ∧
  alone (transferBetweenAccounts "ann" "key-1" (transfer_demo_body "2.5") "ref-3" "ref-4") d' = (o, d').
Proof.
  pose proof (transfer_exact "ann" "key-1" (transfer_demo_body "2.5") "ref-1" "ref-2" demo_transfers _ _ _ transfer_demo_request transfer_demo_wf)
    as Hex. cbv zeta in Hex.
  assert (tf_history (alone (transferBetweenAccounts "ann" "key-1" (transfer_demo_body "2.5") "ref-1" "ref-2") demo_transfers).2 = []) as Hh
    by (vm_compute; reflexivity).
  destruct (alone _ _) as [o d']. destruct Hex as [_ Hex].
  replace (_ <=? _) with true in Hex by (vm_compute; reflexivity). destruct Hex as (-> & Hm & Hagain).
  split; [|split; [exact Hh|]].
  - rewrite (mv_rows _ _ _ _ _ _ Hm), decide_True by done. vm_compute. reflexivity.
  - rewrite (Hagain (transfer_demo_body "2.5")). by rewrite String.eqb_refl.
Defined.

Lemma retried_transfer_moves_twice_witness :
  let key := transfer_idem "ann" "key-1" in
  let d1 := (schedule (repeat (0%nat, false) 5)
               (demo_transfers, [transferBetweenAccounts "ann" "key-1" (transfer_demo_body "2.5") "ref-1" "ref-2"])).1 in
  let d2 := (alone (transferBetweenAccounts "ann" "key-1" (transfer_demo_body "2.5") "ref-3" "ref-4")
               (set_redis (tf_cache d1) (tf_locks d1 ∖ {[key]}) d1)).2 in
  available_balance (row_of (account_key "ann" "usdt" "trading") (sget d2)) = dec 5 0.
Proof.
  intros key d1. pose proof (retried_transfer_moves_twice "ann" "key-1" (transfer_demo_body "2.5") "ref-1" "ref-2" "ref-3" "ref-4"
    demo_transfers _ _ _ transfer_demo_request transfer_demo_wf ltac:(vm_compute; discriminate)) as Hex. cbv zeta in Hex.
  fold key d1 in Hex. destruct (alone _ _) as [o d2]. destruct Hex as (_ & b1 & Hm1 & Hm2). simpl.
  rewrite (mv_rows _ _ _ _ _ _ Hm2), decide_True by done.
  rewrite (mv_rows _ _ _ _ _ _ Hm1), decide_True by done. vm_compute. reflexivity.
Defined.

(** ** Two requests with one key, whose first lock expires *)
Definition to_bob : internal_body := InternalBody "USDT" "4" "Bob@Example.com" None None None None.
Definition open_world : internal_world := InternalWorld None None None.
Definition sent (id : string) : thread transfer_db reply := internal_withdrawal open_world "ann" "key-2" to_bob false id.
Definition row_ids (id : string) : Prop := id = "w-1" ∨ id = "w-2".

Lemma demo_fresh_transfers : transfers_fresh row_ids demo_transfers.
Proof. split; [exact transfer_demo_wf|done|]. intros e He. by apply not_elem_of_nil in He. Qed.

(** The first request takes the lock; it expires; the second one runs; the first goes on. *)
Definition first_part : transfer_db * list (thread transfer_db reply) :=
  schedule (repeat (0%nat, false) 2) (demo_transfers, [sent "w-1"; sent "w-2"]).
Definition expired : transfer_db :=
  set_redis (tf_cache first_part.1) (tf_locks first_part.1 ∖ {[withdrawal_idem "ann" "key-2"]}) first_part.1.
Definition second_part : transfer_db * list (thread transfer_db reply) :=
  schedule (repeat (1%nat, false) 12 ++ repeat (0%nat, false) 12) (expired, first_part.2).

Lemma demo_transfer_run : rtc (transfer_step row_ids) (demo_transfers, []) second_part.
Proof.
  eapply rtc_l; [apply (pool_start _ _ (sent "w-1")), start_internal|].
  eapply rtc_l; [apply (pool_start _ _ (sent "w-2")), start_internal|]. simpl app.
  transitivity first_part; [apply schedule_steps|].
  apply (rtc_l _ _ (expired, first_part.2)); [|apply schedule_steps].
  rewrite (surjective_pairing first_part) at 1. apply pool_env, env_expire_lock.
Qed.

Lemma transfers_conserve_witness :
  second_part.2 = [tret (true, "w-2"); tret (true, "w-2")] ∧
  funds "usdt" (sget second_part.1) = dec 10 0 ∧
  length (entries_of "w-2" (balance_ledger (sget second_part.1))) = 2%nat ∧
  entries_of "w-1" (balance_ledger (sget second_part.1)) = [].
Proof.
  assert (tf_rows second_part.1 = {["w-2" := WRow "ann" "key-2" (Some "bob") "usdt" (dec 4 0)]}) as Hrows
    by (vm_compute; reflexivity).
  assert (second_part.2 = [tret (true, "w-2"); tret (true, "w-2")]) as Hr by (vm_compute; reflexivity).
  pose proof demo_transfer_run as Hrun. rewrite (surjective_pairing second_part) in Hrun.
  destruct (transfers_conserve row_ids demo_transfers second_part.1 second_part.2 demo_fresh_transfers Hrun)
    as (_ & Hf & _ & Hp).
  split; [exact Hr|]. split; [rewrite Hf; vm_compute; reflexivity|]. rewrite Hrows in Hp. split.
  - specialize (Hp "w-2" (or_intror eq_refl)). rewrite lookup_singleton_eq in Hp.
    destruct Hp as (e1 & e2 & -> & _). reflexivity.
  - specialize (Hp "w-1" (or_introl eq_refl)). by rewrite lookup_singleton_ne in Hp.
Defined.
