(* ===== verification/OrdersModel.v ===== *)
(** * Spot orders: the model

    Placing and cancelling orders ([routes/spot.fastify.ts]), the stop triggers
    ([services/spot-trigger.service.ts]) and the admin's cancel-all
    ([routes/admin-control.fastify.ts]).

    The table [spot_orders] is [SettlementModel.spot_orders], the columns settlement writes,
    beside [terms], the columns an order is placed with. The deployment has one of two
    layouts of the table: the unified one (column [market], text statuses with a CHECK) or
    the older one (column [trading_pair_id], an enum of lower-case statuses). The matching
    engine is another program: a call of it is a message of the process and an answer.

    A handler's reads before its transaction are one step. Left out: the iceberg display
    quantity, which is only stored; a trailing delta of 'NaN'; the rounding of columns to 8 or
    18 places and their overflow; the in-memory book, the feeds and the hedging afterwards;
    the Redis lock that keeps two runs of the stop triggers apart. *)
From stdpp Require Import base gmap strings list fin_maps.
From Stdlib Require Import ZArith Lia.
From S2P Require Import Prelude Money Balances Escrow Halt SettlementModel.
Local Open Scope Z_scope.

(** ** Tables *)
Inductive order_type := OMarket | OLimit | OStopLoss | OStopLimit | OTrailing.
#[export] Instance order_type_eq_dec : EqDecision order_type.
Proof. solve_decision. Defined.
Definition is_stop (t : order_type) : bool :=
  bool_decide (t ∈ [OStopLoss; OStopLimit; OTrailing]).

Inductive time_in_force := GTC | IOC | FOK.
#[export] Instance time_in_force_eq_dec : EqDecision time_in_force.
Proof. solve_decision. Defined.

Record spot_terms := SpotTerms {
  ot_user : string;
  ot_market : string;
  ot_side : side;
  ot_type : order_type;
  ot_price : option Z;
  ot_stop_price : option Z;
  ot_trailing_delta : option Z;
  ot_trailing_best : option Z;
  ot_tif : time_in_force;
  ot_client_id : option string;
  ot_engine : string;
}.

(** The columns of [spot_markets] that [SettlementModel.market] leaves out. *)
Record market_rules := MarketRules { mr_status : string; mr_min_qty : Z; mr_min_notional : Z }.

Record orders_db := OrdersDb {
  odb_settle : settle_db;
  terms : gmap string spot_terms;
  rules : gmap string market_rules;
  (** Redis: the failed orders of each market, [spot:circuit:<market>] *)
  circuit : gmap string Z;
}.
#[export] Instance orders_db_settle : Store orders_db settle_db.
Proof.
  refine {| sget := odb_settle; sput := λ s d, OrdersDb s (terms d) (rules d) (circuit d) |}; by intros [].
Defined.
#[export] Instance orders_db_balances : Store orders_db balances.
Proof.
  refine {| sget := λ d, sd_balances (odb_settle d);
            sput := λ b d, OrdersDb (sput b (odb_settle d)) (terms d) (rules d) (circuit d) |};
    by intros [[]].
Defined.

Definition put_terms (id : string) (t : spot_terms) (d : orders_db) : orders_db :=
  OrdersDb (odb_settle d) (<[id := t]> (terms d)) (rules d)
    (circuit d).
Definition put_order (id : string) (o : spot_order) (d : orders_db) : orders_db :=
  OrdersDb (set_spot_orders (<[id := o]> (spot_orders (odb_settle d))) (odb_settle d)) (terms d)
    (rules d) (circuit d).
Definition order_of (d : orders_db) (id : string) : option spot_order :=
  spot_orders (odb_settle d) !! id.
(** The whole table. *)
Definition book (d : orders_db) : gmap string (spot_terms * spot_order) :=
  map_zip (terms d) (spot_orders (odb_settle d)).
Record open_row := OpenRow { or_id : string; or_terms : spot_terms; or_order : spot_order }.
Definition rows_where (p : spot_terms → spot_order → bool) (d : orders_db) : list open_row :=
  (λ '(id, (t, o)), OpenRow id t o)
    <$> filter (λ '(_, (t, o)), Is_true (p t o)) (map_to_list (book d)).

(** [spot_orders_status_check], and the labels of the enum [order_status] *)
Definition statuses (unified : bool) : list string :=
  if unified then ["OPEN"; "PARTIALLY_FILLED"; "FILLED"; "CANCELLED"; "REJECTED"; "PENDING_TRIGGER"]
  else ["new"; "partially_filled"; "filled"; "cancelled"; "rejected"; "expired"; "pending_cancel"].

Definition set_status_so (st : string) (o : spot_order) : spot_order :=
  SpotOrder (so_quantity o) (so_filled o) (so_remaining o) st.
(** [UPDATE spot_orders SET status WHERE id] *)
Definition write_status (unified : bool) (id st : string) : M orders_db unit :=
  let* row := gets (λ d, order_of d id) in
  match row with
  | None => ret tt
  | Some o =>
      require (bool_decide (st ∈ statuses unified)) "violates check constraint spot_orders_status_check" ;;;
      modify (put_order id (set_status_so st o))
  end.

(** ** The engine *)
Inductive engine_msg :=
  | EPlace (id user market : string) (sd : side) (ty : order_type) (price : option Z) (qty : Z)
  | ECancel (id engine user : string).
Definition onode : Type := node orders_db engine_msg.

(** [config], fixed for a deployment *)
Record spot_config := SpotConfig {
  (** [getSpotOrdersUseMarketSync()] *)
  cf_unified : bool;
  (** in the older layout: whether [migrate.ts] has made [remaining_quantity] a generated
      column, which [full-schema.sql] declares as an ordinary one *)
  cf_generated_remaining : bool;
  (** [getSpotTradesUseMarketSync()] *)
  cf_trades_market : bool;
  cf_rust_enabled : bool;
  cf_stop_slippage_bps : Z;
  (** [preTradeRisk.spotLargeOrderNotionalUsdt] and [spotMaxOpenNotionalUsdt] *)
  cf_large_order : Z;
  cf_max_open : Z;
  (** [resolvePlaceTargetForMarket(symbol).engineId], [None] when it throws *)
  cf_engine : string → option string;
}.

(** ** Reading the book *)
Definition remaining_of (o : spot_order) : Z := so_quantity o - so_filled o.
Definition open_status (st : string) : bool :=
  bool_decide (st ∈ ["OPEN"; "PARTIALLY_FILLED"; "new"; "partially_filled"]).

(** The rows of a market and side that rest on the book, with their terms. *)
Definition book_rows (market : string) (sd : side) : orders_db → list open_row :=
  rows_where (λ t o, String.eqb (ot_market t) market && bool_decide (ot_side t = sd)
                     && open_status (so_status o) && (0 <? remaining_of o)).
Definition best (pick : Z → Z → Z) (prices : list (option Z)) : Z :=
  default 0 (foldr (λ p acc, match p, acc with
                             | Some x, Some y => Some (pick x y)
                             | Some x, None => Some x
                             | None, _ => acc
                             end) None prices).
Definition getBestAsk (market : string) (d : orders_db) : Z :=
  best Z.min ((λ r, ot_price (or_terms r)) <$> book_rows market Sell d).
Definition getBestBid (market : string) (d : orders_db) : Z :=
  best Z.max ((λ r, ot_price (or_terms r)) <$> book_rows market Buy d).

(** [getFillableQuantity] of [services/spot-matching.service.ts]: the statement reads the
    column [market]. *)
Definition getFillableQuantity (unified : bool) (market : string) (sd : side) (price : Z)
    (excludeUserId : string) : M orders_db Z :=
  require unified "column o.market does not exist" ;;;
  gets (λ d, lsum (λ r, remaining_of (or_order r)) (rows_where (λ t o,
    String.eqb (ot_market t) market && bool_decide (ot_side t ≠ sd)
    && bool_decide (so_status o ∈ ["OPEN"; "PARTIALLY_FILLED"])
    && negb (String.eqb (ot_user t) excludeUserId) && (0 <? remaining_of o)
    && match ot_price t, sd with
       | Some p, Buy => p <=? price
       | Some p, Sell => price <=? p
       | None, _ => false
       end) d)).

(** ** The currencies of a market *)
Definition symbol_currency (asset : string) (cs : list currency_row) : option string :=
  cr_id <$> find (λ c, String.eqb (upper_trim (cr_symbol c)) (upper_trim asset)) cs.
(** [m.base_currency_id ?? (await getCurrencyIdBySymbol(m.base_asset)) ?? ''] *)
Definition base_currency_of (m : market) (cs : list currency_row) : string :=
  default "" (match m_base_currency m with Some c => Some c | None => symbol_currency (m_base m) cs end).
Definition quote_currency_of (m : market) (cs : list currency_row) : string :=
  default "" (match m_quote_currency m with Some c => Some c | None => symbol_currency (m_quote m) cs end).

(** Of an order of that side: what it locks. *)
Definition market_currency (market : string) (sd : side) (d : orders_db) : string :=
  match markets (odb_settle d) !! market with
  | Some m => match sd with
              | Buy => quote_currency_of m (sd_currencies (odb_settle d))
              | Sell => base_currency_of m (sd_currencies (odb_settle d))
              end
  | None => ""
  end.

(** ** Amounts *)
Section Model.
Context `{DecimalJs}.

Definition MARKET_ORDER_SLIPPAGE_BUFFER : Z := dec 1 2.

(** The quote amount a buy order locks, before the slippage of stop orders; [None] is
    [NO_LIQUIDITY]. [ask] is [getBestAsk], which is ['0'] on an empty side. *)
Definition buy_lock (ty : order_type) (precision qtyRounded : Z) (price stop : option Z) (ask : Z) :
    option Z :=
  match ty with
  | OMarket =>
      let bestAsk := toDP precision ask in
      if bestAsk <=? 0 then None
      else Some (lockAmountQuote
             (toDP precision (dtimes bestAsk (dplus one MARKET_ORDER_SLIPPAGE_BUFFER))) qtyRounded precision)
  | OStopLoss => Some (lockAmountQuote (default 0 stop) qtyRounded precision)
  | OTrailing => Some (lockAmountQuote (if 0 <? ask then ask else dtimes ask (dec 102 2)) qtyRounded precision)
  | OLimit | OStopLimit => Some (lockAmountQuote (default 0 price) qtyRounded precision)
  end.

(** Stop orders that buy at the market lock some more. *)
Definition with_slippage (ty : order_type) (precision bps lockAmount : Z) : Z :=
  if bool_decide (ty ∈ [OStopLoss; OTrailing])
  then toDP (precision + 4) (dtimes lockAmount (dplus one (ddiv (bps * one) (10000 * one))))
  else lockAmount.

(** What a cancel gives back. *)
Definition unlock_amount (sd : side) (price stop : option Z) (o : spot_order) : Z :=
  let remainingQty := toDP 8 (dminus (so_quantity o) (so_filled o)) in
  match sd with
  | Buy => unlockAmountQuote (default (default 0 stop) price) remainingQty 8
  | Sell => unlockAmountBase remainingQty 8
  end.

(** ** [POST /spot/order] *)
(** The parsed body; [NonFinite] stands for any text that is not a finite number. *)
Record order_request := OrderRequest {
  rq_user : string;
  rq_market : string;
  rq_side : side;
  rq_type : order_type;
  rq_price : option decval;
  rq_quantity : decval;
  rq_stop_price : option decval;
  rq_trailing_delta : option decval;
  rq_tif : time_in_force;
  rq_client_id : option string;
  rq_post_only : bool;
  rq_reduce_only : bool;
}.

(** What the handler is told by others: the first of its gates that refuses (halts,
    circuits, rate and velocity limits), whether the target engine is healthy, the
    answer of the engine, and what the statements after the commit throw, if they do (the
    hydration of the public book, the engine's matches, the feeds). *)
Record place_world := PlaceWorld {
  pw_gate : option string;
  pw_engine_healthy : bool;
  pw_accepted : bool;
  pw_uuid : string;
  pw_handover : option string;
}.

Inductive place_result :=
  | PRefused (code : string)
  | PExisting (id : string)
  | PPlaced (id : string)
  | PEngineFailed (id : string)
  | PFailed (msg : string).

Definition some_finite (v : option decval) : bool := match v with Some (Fin _) => true | _ => false end.

(** The checks on the body. *)
Definition body_refusal (rq : order_request) : option string :=
  let ty := rq_type rq in
  if is_stop ty && negb (bool_decide (ty = OTrailing)) && bool_decide (rq_stop_price rq = None)
  then Some "INVALID_ORDER"
  else if bool_decide (ty = OTrailing) && bool_decide (rq_trailing_delta rq = None)
  then Some "INVALID_ORDER"
  else if bool_decide (ty = OStopLimit) && bool_decide (rq_price rq = None) then Some "INVALID_ORDER"
  else if rq_post_only rq && negb (bool_decide (ty = OLimit)) then Some "INVALID_ORDER"
  else if rq_post_only rq && negb (bool_decide (rq_tif rq = GTC)) then Some "INVALID_ORDER"
  else if rq_reduce_only rq && bool_decide (rq_side rq = Buy) then Some "INVALID_ORDER"
  else match rq_quantity rq with
       | Fin q => if q <=? 0 then Some "INVALID_ORDER" else None
       | NonFinite => Some "INVALID_ORDER"
       end.

(** The numbers of the order, rounded as the market says. *)
Record order_numbers := OrderNumbers {
  on_qty : Z; on_price : option Z; on_stop : option Z; on_trailing : option Z }.

Definition positive_at (precision : Z) (v : option decval) : option Z :=
  match v with
  | Some (Fin x) => let p := toDP precision x in if p <=? 0 then None else Some p
  | _ => None
  end.

Definition numbers_of (m : market) (r : market_rules) (rq : order_request) : order_numbers + string :=
  let precision := default 8 (m_price_precision m) in
  let qtyPrecision := default 8 (m_qty_precision m) in
  let qtyRounded := toDP qtyPrecision (match rq_quantity rq with Fin q => q | NonFinite => 0 end) in
  let ty := rq_type rq in
  if qtyRounded <? toDP qtyPrecision (mr_min_qty r) then inr "MIN_QTY"
  else
    let priced := bool_decide (ty ∈ [OLimit; OStopLimit]) in
    match (if priced then match positive_at precision (rq_price rq) with
                          | Some p =>
                              if toDP precision (dtimes p qtyRounded) <? toDP precision (mr_min_notional r)
                              then inr "MIN_NOTIONAL" else inl (Some p)
                          | None => inr "INVALID_ORDER"
                          end
           else inl None) with
    | inr e => inr e
    | inl price =>
        match (if bool_decide (ty ∈ [OStopLoss; OStopLimit])
               then match positive_at precision (rq_stop_price rq) with
                    | Some sp => inl (Some sp) | None => inr "INVALID_ORDER" end
               else inl None) with
        | inr e => inr e
        | inl stop =>
            match (if bool_decide (ty = OTrailing)
                   then match positive_at 8 (rq_trailing_delta rq) with
                        | Some t => if 100 * one <? t then inr "INVALID_ORDER" else inl (Some t)
                        | None => inr "INVALID_ORDER"
                        end
                   else inl None) with
            | inr e => inr e
            | inl trailing => inl (OrderNumbers qtyRounded price stop trailing)
            end
        end
    end.

Definition post_only_takes (rq : order_request) (n : order_numbers) (d : orders_db) : bool :=
  match rq_post_only rq, on_price n, rq_side rq with
  | true, Some p, Buy => let ask := getBestAsk (rq_market rq) d in (0 <? ask) && (ask <=? p)
  | true, Some p, Sell => let bid := getBestBid (rq_market rq) d in (0 <? bid) && (p <=? bid)
  | _, _, _ => false
  end.

Definition existing_order (user client : string) (d : orders_db) : option string :=
  fst <$> find (λ '(_, t), String.eqb (ot_user t) user && bool_decide (ot_client_id t = Some client))
    (map_to_list (terms d)).

(** The row that is inserted; in the unified layout [type] is VARCHAR(10). *)
Definition insert_order (unified generated : bool) (id : string) (t : spot_terms) (qty : Z) :
    M orders_db unit :=
  require (negb (unified && bool_decide (ot_type t = OTrailing)))
    "value too long for type character varying(10)" ;;;
  require (unified || negb generated)
    "cannot insert a non-DEFAULT value into column remaining_quantity" ;;;
  let* taken := gets (λ d, match ot_client_id t with
                           | Some c => bool_decide (is_Some (existing_order (ot_user t) c d))
                           | None => false
                           end) in
  require (negb taken) "duplicate key value violates unique constraint" ;;;
  modify (put_order id (SpotOrder qty 0 (if unified then None else Some qty)
    (if unified then if is_stop (ot_type t) then "PENDING_TRIGGER" else "OPEN" else "new"))) ;;;
  modify (put_terms id t).

(** The transaction: the lock, the pre-check of fill-or-kill orders, the engine that will
    take the order, and its row. *)
Definition place_tx (cf : spot_config) (pw : place_world) (rq : order_request) (id : string)
    (n : order_numbers) (lockCurrencyId : string) (lockAmount : Z) : M orders_db (option string) :=
  let* locked := zoom (lockTradingBalance (rq_user rq) lockCurrencyId lockAmount None (pw_uuid pw)) in
  require locked "INSUFFICIENT_BALANCE" ;;;
  (match rq_type rq, rq_tif rq, on_price n with
   | OLimit, FOK, Some p =>
       let* fillable := getFillableQuantity (cf_unified cf) (rq_market rq) (rq_side rq) p (rq_user rq) in
       if fillable <? on_qty n then
         zoom (unlockTradingBalance (rq_user rq) lockCurrencyId lockAmount None (pw_uuid pw)) ;;;
         throw "FOK_NOT_FILLABLE"
       else ret tt
   | _, _, _ => ret tt
   end) ;;;
  let useRustEngine := cf_rust_enabled cf && negb (is_stop (rq_type rq)) in
  let* engine :=
    if useRustEngine then
      let* e := get_or (cf_engine cf (rq_market rq)) "MARKET_ENGINE_NOT_CONFIGURED" in
      require (pw_engine_healthy pw) "MATCHING_ENGINE_UNAVAILABLE" ;;;
      ret (Some e)
    else ret None in
  insert_order (cf_unified cf) (cf_generated_remaining cf) id
    (SpotTerms (rq_user rq) (rq_market rq) (rq_side rq) (rq_type rq) (on_price n) (on_stop n)
       (on_trailing n) None (rq_tif rq) (rq_client_id rq) (default "node" engine)) (on_qty n) ;;;
  ret engine.

(** The engine refused or did not answer: undo. *)
Definition undo_place (cf : spot_config) (pw : place_world) (id user lockCurrencyId : string)
    (lockAmount : Z) : M orders_db unit :=
  write_status (cf_unified cf) id "cancelled" ;;;
  zoom (unlockTradingBalance user lockCurrencyId lockAmount (Some ("adjustment", id)) (pw_uuid pw)).

Definition lock_of (cf : spot_config) (m : market) (cs : list currency_row) (rq : order_request)
    (n : order_numbers) (ask : Z) : option (string * Z) :=
  let precision := default 8 (m_price_precision m) in
  match rq_side rq with
  | Buy =>
      (λ x, (quote_currency_of m cs, with_slippage (rq_type rq) precision (cf_stop_slippage_bps cf) x))
        <$> buy_lock (rq_type rq) precision (on_qty n) (on_price n) (on_stop n) ask
  | Sell => Some (base_currency_of m cs, lockAmountBase (on_qty n) (default 8 (m_qty_precision m)))
  end.

(** *** The risk checks, [services/spot-risk.service.ts] *)
Definition checkLargeOrder (threshold notional : Z) : option string :=
  if (0 <? threshold) && (threshold <? notional) then Some "LARGE_ORDER_REJECTED" else None.

Definition is_usd (asset : string) : bool := bool_decide (asset ∈ ["USDT"; "USD"; "BUSD"]).

(** [buildOpenOrdersNotionalSql] of [lib/unified-spot-orders.ts]: the open orders of the
    user in markets that are quoted in dollars. *)
Definition open_notionals (user : string) (d : orders_db) : list Z :=
  (λ r, dtimes (default 0 (ot_price (or_terms r)))
          (default (remaining_of (or_order r)) (so_remaining (or_order r))))
    <$> rows_where (λ t o, String.eqb (ot_user t) user
          && match markets (odb_settle d) !! ot_market t with Some m => is_usd (m_quote m) | None => false end
          && bool_decide (so_status o ∈ ["OPEN"; "PARTIALLY_FILLED"; "PENDING_TRIGGER"; "new";
                                          "partially_filled"; "pending_trigger"])) d.
Definition checkMaxOpenNotional (maxNotional : Z) (user : string) (additional : Z) (d : orders_db) :
    option string :=
  if maxNotional <=? 0 then None
  else if maxNotional <? dplus (foldl dplus 0 (open_notionals user d)) additional
  then Some "MAX_OPEN_NOTIONAL_EXCEEDED" else None.

(** [validateSpotOrderRiskUserBalances]: what is available must cover the order, and for a
    buy the taker fee as well. *)
Definition validateSpotOrderRiskUserBalances (user quoteCurrencyId baseCurrencyId : string)
    (sd : side) (price qty feeRate precision : Z) (b : balances) : option string :=
  let available c := toDP precision (available_balance (row_of (trading_key user c) b)) in
  let qtyDec := toDP precision qty in
  match sd with
  | Buy =>
      let required_quote := toDP precision (dtimes (toDP precision price) qtyDec) in
      let fee := toDP precision (dtimes required_quote (toDP precision feeRate)) in
      let required_total := toDP precision (dplus required_quote fee) in
      if available quoteCurrencyId <? required_total then Some "INSUFFICIENT_QUOTE_BALANCE" else None
  | Sell => if available baseCurrencyId <? qtyDec then Some "INSUFFICIENT_BASE_BALANCE" else None
  end.

(** [priceForRisk] *)
Definition risk_price (rq : order_request) (precision : Z) (n : order_numbers) (ask : Z) : Z :=
  match rq_side rq, rq_type rq with
  | Buy, OMarket => toDP precision (dtimes (toDP precision ask) (dplus one MARKET_ORDER_SLIPPAGE_BUFFER))
  | Buy, OStopLoss => default 0 (on_stop n)
  | Buy, OTrailing => if 0 <? ask then ask else dtimes ask (dec 102 2)
  | Buy, (OLimit | OStopLimit) => default 0 (on_price n)
  | Sell, _ => default (default 0 (on_stop n)) (on_price n)
  end.

(** *** What the handler decides from its reads, before the transaction *)
Inductive place_decision :=
  | DRefuse (code : string)
  | DExisting (id : string)
  | DThrow (msg : string)
  | DPlace (n : order_numbers) (lockCurrencyId : string) (lockAmount : Z).

Definition market_refusal (cf : spot_config) (rq : order_request) (r : market_rules) (d : orders_db) :
    option string :=
  if negb (String.eqb (mr_status r) "active")
  then Some (if String.eqb (mr_status r) "maintenance" then "MARKET_PAUSED" else "MARKET_DISABLED")
  else if negb (cf_unified cf) && bool_decide (trading_pairs (odb_settle d) !! rq_market rq = None)
  then Some "MARKET_NOT_FOUND"
  else if negb (cf_unified cf) && is_stop (rq_type rq) then Some "STOP_ORDERS_UNSUPPORTED"
  else None.

Definition decide_risk (cf : spot_config) (rq : order_request) (m : market) (n : order_numbers)
    (lockCurrencyId : string) (lockAmount : Z) (d : orders_db) : place_decision :=
  let precision := default 8 (m_price_precision m) in
  let cs := sd_currencies (odb_settle d) in
  let price := risk_price rq precision n (getBestAsk (rq_market rq) d) in
  let notionalQuote := match rq_side rq with
                       | Buy => lockAmount
                       | Sell => toDP precision (dtimes price (on_qty n))
                       end in
  match (if is_usd (m_quote m) then checkLargeOrder (cf_large_order cf) notionalQuote else None) with
  | Some code => DRefuse code
  | None =>
      match checkMaxOpenNotional (cf_max_open cf) (rq_user rq)
              (if is_usd (m_quote m) then notionalQuote else 0) d with
      | Some code => DRefuse code
      | None =>
          match validateSpotOrderRiskUserBalances (rq_user rq) (quote_currency_of m cs)
                  (base_currency_of m cs) (rq_side rq) price (on_qty n) TAKER_FEE_RATE precision
                  (sd_balances (odb_settle d)) with
          | Some msg => DThrow msg
          | None => if post_only_takes rq n d then DRefuse "POST_ONLY_WOULD_TAKE"
                    else DPlace n lockCurrencyId lockAmount
          end
      end
  end.

Definition decide_place (cf : spot_config) (rq : order_request) (d : orders_db) : place_decision :=
  match markets (odb_settle d) !! rq_market rq, rules d !! rq_market rq with
  | Some m, Some r =>
      match market_refusal cf rq r d with
      | Some code => DRefuse code
      | None =>
          match (c ← rq_client_id rq; existing_order (rq_user rq) c d) with
          | Some existing => DExisting existing
          | None =>
              match numbers_of m r rq with
              | inr code => DRefuse code
              | inl n =>
                  let cs := sd_currencies (odb_settle d) in
                  if String.eqb (base_currency_of m cs) "" || String.eqb (quote_currency_of m cs) ""
                  then DRefuse "MARKET_NOT_READY"
                  else match lock_of cf m cs rq n (getBestAsk (rq_market rq) d) with
                       | None => DThrow "NO_LIQUIDITY"
                       | Some (lockCurrencyId, lockAmount) =>
                           decide_risk cf rq m n lockCurrencyId lockAmount d
                       end
              end
          end
      end
  | _, _ => DRefuse "MARKET_NOT_FOUND"
  end.

(** The rest of the handler, once the order is committed and the engine has accepted it:
    what it throws is answered like any other failure of the request. *)
Definition after_place (pw : place_world) (id : string) : Proc onode place_result :=
  match pw_handover pw with
  | None => pret (PPlaced id)
  | Some msg => pthrow msg
  end.

Definition place_body (cf : spot_config) (pw : place_world) (rq : order_request) (id : string) :
    Proc onode place_result :=
  do* decision := tx (gets (decide_place cf rq)) in
  match decision with
  | DRefuse code => pret (PRefused code)
  | DExisting existing => pret (PExisting existing)
  | DThrow msg => pthrow msg
  | DPlace n lockCurrencyId lockAmount =>
      do* engine := tx (place_tx cf pw rq id n lockCurrencyId lockAmount) in
      match engine with
      | None => after_place pw id
      | Some _ =>
          do* accepted := send (EPlace id (rq_user rq) (rq_market rq) (rq_side rq) (rq_type rq)
                                  (on_price n) (on_qty n)) (pw_accepted pw) in
          if accepted then after_place pw id
          else
            try_catch (tx (undo_place cf pw id (rq_user rq) lockCurrencyId lockAmount))
              (λ _, pret tt) >>>
            pret (PEngineFailed id)
      end
  end.

(** [recordCircuitBreaker]: five failures within ten minutes put the market in maintenance.
    The expiry of the counter is not modelled. *)
Definition CIRCUIT_BREAKER_THRESHOLD : Z := 5.
Definition recordCircuitBreaker (symbol : string) : M orders_db unit :=
  modify (λ d,
    let n := default 0 (circuit d !! symbol) + 1 in
    OrdersDb (odb_settle d) (terms d)
      (if CIRCUIT_BREAKER_THRESHOLD <=? n
       then alter (λ r, MarketRules "maintenance" (mr_min_qty r) (mr_min_notional r)) symbol (rules d)
       else rules d)
      (<[symbol := n]> (circuit d))).

Definition placeOrder (cf : spot_config) (pw : place_world) (rq : order_request) (id : string) :
    Proc onode place_result :=
  match pw_gate pw with
  | Some code => pret (PRefused code)
  | None =>
      match body_refusal rq with
      | Some code => pret (PRefused code)
      | None =>
          try_catch (place_body cf pw rq id)
            (λ msg,
              try_catch (tx (recordCircuitBreaker (rq_market rq))) (λ _, pret tt) >>>
              pret (PFailed msg))
      end
  end.

(** ** [POST /spot/order/:id/cancel] *)
Definition cancellable (st : string) : bool :=
  bool_decide (lower st ∈ ["new"; "open"; "partially_filled"; "pending_trigger"]).

(** What the handler computes from its reads. *)
Record cancel_plan := CancelPlan {
  cp_terms : spot_terms; cp_currency : string; cp_amount : Z }.

Definition cancel_reads (userId orderId : string) (d : orders_db) : cancel_plan + string :=
  match terms d !! orderId, order_of d orderId with
  | Some t, Some o =>
      if negb (String.eqb (ot_user t) userId) then inr "NOT_FOUND"
      else if negb (cancellable (so_status o)) then inr "ORDER_NOT_CANCELLABLE"
      else
        inl (CancelPlan t (market_currency (ot_market t) (ot_side t) d) (unlock_amount (ot_side t) (ot_price t) (ot_stop_price t) o))
  | _, _ => inr "NOT_FOUND"
  end.

(** The last transaction. *)
Definition cancel_commit (unified : bool) (status userId orderId uuid : string) (cp : cancel_plan) :
    M orders_db unit :=
  write_status unified orderId status ;;;
  require (negb (String.eqb (cp_currency cp) "")) "invalid input syntax for type uuid" ;;;
  zoom (unlockTradingBalance userId (cp_currency cp) (cp_amount cp) None uuid).

(** [cancelOnMatchingEngineIfNeeded]; [accepted] is whether the engine's answer is no error. *)
Definition cancelOnMatchingEngineIfNeeded (cf : spot_config) (orderId userId : string)
    (t : spot_terms) (accepted : bool) : Proc onode bool :=
  if negb (cf_rust_enabled cf) || is_stop (ot_type t) || String.eqb (ot_engine t) "node"
  then pret true
  else send (ECancel orderId (ot_engine t) userId) accepted.

Inductive cancel_result := CCancelled | CRefused (code : string) | CFailed (msg : string).

Definition cancelSpotOrder (cf : spot_config) (userId orderId uuid : string) (accepted : bool) :
    Proc onode cancel_result :=
  try_catch
    (do* plan := tx (gets (cancel_reads userId orderId)) in
     match plan with
     | inr code => pret (CRefused code)
     | inl cp =>
         do* answer := cancelOnMatchingEngineIfNeeded cf orderId userId (cp_terms cp) accepted in
         if negb answer then pret (CRefused "ENGINE_CANCEL_FAILED")
         else tx (cancel_commit (cf_unified cf) "cancelled" userId orderId uuid cp) >>> pret CCancelled
     end)
    (λ msg, pret (CFailed msg)).

(** [POST /spot/orders/:orderId/cancel] runs the same statements. *)
Definition cancelByOrdersRoute := cancelSpotOrder.

(** ** [POST /spot/orders/cancel-all] *)
(** The statement reads the column [market]. *)
Definition open_in_market (unified : bool) (userId market : string) : M orders_db (list open_row) :=
  require unified "column market does not exist" ;;;
  gets (rows_where (λ t o, String.eqb (ot_user t) userId && String.eqb (ot_market t) market
    && bool_decide (so_status o ∈ ["OPEN"; "PARTIALLY_FILLED"; "PENDING_TRIGGER"]))).

(** The engine is asked order by order; what it refuses stays open. *)
Fixpoint cancel_each (cf : spot_config) (userId : string) (accepted : string → bool)
    (rows : list open_row) : Proc onode (list open_row * list string) :=
  match rows with
  | [] => pret ([], [])
  | r :: rows' =>
      do* answer := cancelOnMatchingEngineIfNeeded cf (or_id r) userId (or_terms r) (accepted (or_id r)) in
      do* rest := cancel_each cf userId accepted rows' in
      pret (if answer then (r :: fst rest, snd rest) else (fst rest, or_id r :: snd rest))
  end.

Definition cancelled_status (st : string) : string :=
  if String.eqb (upper st) st then "CANCELLED" else "cancelled".
Definition cancel_row (unified : bool) (userId uuid baseId quoteId : string) (r : open_row) :
    M orders_db unit :=
  let t := or_terms r in
  let currency := match ot_side t with Buy => quoteId | Sell => baseId end in
  cancel_commit unified (cancelled_status (so_status (or_order r))) userId (or_id r) uuid
    (CancelPlan t currency (unlock_amount (ot_side t) (ot_price t) (ot_stop_price t) (or_order r))).

Inductive cancel_all_result :=
  | AllRefused (failed : list string)
  | AllCancelled (cancelled failed : list string)
  | AllFailed (msg : string).

Definition cancelAll (cf : spot_config) (userId market uuid : string) (accepted : string → bool) :
    Proc onode cancel_all_result :=
  try_catch
    (do* open := tx (open_in_market (cf_unified cf) userId market) in
     do* ids := tx (gets (λ d, (market_currency market Sell d, market_currency market Buy d))) in
     do* asked := cancel_each cf userId accepted open in
     match asked with
     | ([], failed) => pret (AllRefused failed)
     | (cancellable, failed) =>
         tx (foreach cancellable (cancel_row (cf_unified cf) userId uuid (fst ids) (snd ids))) >>>
         pret (AllCancelled (or_id <$> cancellable) failed)
     end)
    (λ msg, pret (AllFailed msg)).

(** ** The admin's [POST /control/orders/cancel-all] *)
Definition adminCancelAll (unified : bool) (market : option string) : M orders_db nat :=
  require (unified || bool_decide (market = None)) "column market does not exist" ;;;
  let* rows := gets (rows_where (λ t o, bool_decide (so_status o ∈ ["new"; "partially_filled"])
    && match market with Some s => String.eqb (ot_market t) s | None => true end)) in
  foreach rows (λ r, write_status unified (or_id r) "cancelled") ;;;
  ret (length rows).

(** ** Stop orders, [processTriggeredStopOrders] *)
(** The last trade of the market; the statement knows only the layout with [market]. *)
Definition last_price (cf : spot_config) (market : string) (d : orders_db) : option Z :=
  if cf_trades_market cf then
    last (omap (λ t, match t with
                     | LegRow _ _ mk _ p _ _ _ => if String.eqb mk market then Some p else None
                     | MatchRow _ _ _ _ _ _ _ _ _ _ _ _ => None
                     end) (spot_trades (odb_settle d)))
  else None.

(** The status is ['PENDING_TRIGGER'] in the unified layout; the label ['pending_trigger'] is
    not one of the older layout's. *)
Definition pending_stops (unified : bool) (d : orders_db) : list open_row :=
  rows_where (λ t o,
    String.eqb (so_status o) (if unified then "PENDING_TRIGGER" else "pending_trigger")
    && (bool_decide (is_Some (ot_stop_price t))
        || (bool_decide (ot_type t = OTrailing) && bool_decide (is_Some (ot_trailing_delta t))))) d.

Inductive trigger_decision := TSkip | TWait (best : option Z) | TFire.
Definition decide_trigger (t : spot_terms) (lastPrice : Z) : trigger_decision :=
  if lastPrice <=? 0 then TSkip
  else match ot_type t, ot_trailing_delta t with
  | OTrailing, Some trailing_delta =>
      let delta := ddiv trailing_delta (100 * one) in
      let best0 := match ot_trailing_best t with
                   | Some b => if b <=? 0 then lastPrice else b
                   | None => lastPrice
                   end in
      let best := match ot_side t with Sell => Z.max best0 lastPrice | Buy => Z.min best0 lastPrice end in
      let fires := match ot_side t with
                   | Sell => lastPrice <=? dtimes best (dminus one delta)
                   | Buy => dtimes best (dplus one delta) <=? lastPrice
                   end in
      if fires then TFire else TWait (Some (toDP 8 best))
  | _, _ =>
      let stop := default 0 (ot_stop_price t) in
      if stop <=? 0 then TSkip
      else if (match ot_side t with Buy => stop <=? lastPrice | Sell => lastPrice <=? stop end)
      then TFire else TWait None
  end.

Definition set_type (ty : order_type) (t : spot_terms) : spot_terms :=
  SpotTerms (ot_user t) (ot_market t) (ot_side t) ty (ot_price t) (ot_stop_price t)
    (ot_trailing_delta t) (ot_trailing_best t) (ot_tif t) (ot_client_id t) (ot_engine t).
Definition set_best (best : Z) (t : spot_terms) : spot_terms :=
  SpotTerms (ot_user t) (ot_market t) (ot_side t) (ot_type t) (ot_price t) (ot_stop_price t)
    (ot_trailing_delta t) (Some best) (ot_tif t) (ot_client_id t) (ot_engine t).

(** [UPDATE spot_orders SET ... WHERE id AND status]: whether there was a row. *)
Definition update_where (unified : bool) (id status : string) (newStatus : string)
    (f : spot_terms → spot_terms) : M orders_db bool :=
  let* rows := gets (λ d, (order_of d id, terms d !! id)) in
  match rows with
  | (Some o, Some t) =>
      if String.eqb (so_status o) status
      then write_status unified id newStatus ;;; modify (put_terms id (f t)) ;;; ret true
      else ret false
  | _ => ret false
  end.

(** The order becomes a market or limit order; what is then sent, if anything. *)
Definition trigger_tx (unified : bool) (r : open_row) : M orders_db (option engine_msg) :=
  let newType := match ot_type (or_terms r) with OStopLoss | OTrailing => OMarket | _ => OLimit end in
  let* updated := update_where unified (or_id r) "PENDING_TRIGGER" "OPEN" (set_type newType) in
  if negb updated then ret None
  else
    let* row := gets (λ d, order_of d (or_id r)) in
    let* m := gets (λ d, markets (odb_settle d) !! ot_market (or_terms r)) in
    match m, row with
    | Some _, Some o =>
        let rem := dminus (so_quantity o) (so_filled o) in
        if rem <=? 0 then ret None
        else ret (Some (EPlace (or_id r) (ot_user (or_terms r)) (ot_market (or_terms r))
                          (ot_side (or_terms r)) newType
                          (match newType with OMarket => None | _ => ot_price (or_terms r) end) rem))
    | _, _ => ret None
    end.

Definition trigger_one (cf : spot_config) (healthy : bool) (accepted : string → bool)
    (prices : string → option Z) (r : open_row) : Proc onode unit :=
  let t := or_terms r in
  match (decide_trigger t <$> prices (ot_market t)) with
  | None | Some TSkip | Some (TWait None) => pret tt
  | Some (TWait (Some best)) =>
      tx (update_where (cf_unified cf) (or_id r) "PENDING_TRIGGER" "PENDING_TRIGGER" (set_best best))
        >>> pret tt
  | Some TFire =>
      if negb (cf_rust_enabled cf) || bool_decide (cf_engine cf (ot_market t) = None) || negb healthy
      then pret tt
      else
        try_catch
          (do* out := tx (trigger_tx (cf_unified cf) r) in
           match out with
           | None => pret tt
           | Some msg =>
               do* ok := send msg (accepted (or_id r)) in
               if ok then pret tt
               else tx (update_where (cf_unified cf) (or_id r) "OPEN" "PENDING_TRIGGER"
                          (set_type (ot_type t))) >>> pret tt
           end)
          (λ _, pret tt)
  end.

Fixpoint trigger_each (cf : spot_config) (healthy : bool) (accepted : string → bool)
    (prices : string → option Z) (rows : list open_row) : Proc onode unit :=
  match rows with
  | [] => pret tt
  | r :: rows' => trigger_one cf healthy accepted prices r >>> trigger_each cf healthy accepted prices rows'
  end.

Definition processTriggeredStopOrders (cf : spot_config) (healthy : bool) (accepted : string → bool) :
    Proc onode unit :=
  do* prices := tx (gets (λ d market, last_price cf market d)) in
  do* pending := tx (gets (pending_stops (cf_unified cf))) in
  trigger_each cf healthy accepted prices pending.

(** ** [POST /spot/orders], the path that only reserves *)
Definition reserve_numbers (r : market_rules) (rq : order_request) : (Z * option Z) + string :=
  match rq_quantity rq with
  | NonFinite => inr "INVALID_ORDER"
  | Fin quantity =>
      if quantity <=? 0 then inr "INVALID_ORDER"
      else
        let qtyRounded := toDP 8 quantity in
        let price := match rq_type rq, rq_price rq with
                     | OLimit, Some v => (λ p, Some p) <$> positive_at 8 (Some v)
                     | _, _ => Some None
                     end in
        match price with
        | None => inr "INVALID_ORDER"
        | Some price =>
            if qtyRounded <? toDP 8 (mr_min_qty r) then inr "MIN_QTY"
            else match price with
                 | Some p => if toDP 8 (dtimes p qtyRounded) <? toDP 8 (mr_min_notional r)
                             then inr "MIN_NOTIONAL" else inl (qtyRounded, price)
                 | None => inl (qtyRounded, None)
                 end
        end
  end.

(** A limit order without a price locks nothing. *)
Definition decide_reserve (rq : order_request) (d : orders_db) : place_decision :=
  match markets (odb_settle d) !! rq_market rq, rules d !! rq_market rq with
  | Some m, Some r =>
      if negb (String.eqb (mr_status r) "active")
      then DRefuse (if String.eqb (mr_status r) "maintenance" then "MARKET_PAUSED" else "MARKET_DISABLED")
      else match reserve_numbers r rq with
      | inr code => DRefuse code
      | inl (qtyRounded, price) =>
          let cs := sd_currencies (odb_settle d) in
          let b := base_currency_of m cs in
          let q := quote_currency_of m cs in
          if String.eqb b "" || String.eqb q "" then DRefuse "MARKET_NOT_READY"
          else if bool_decide (rq_side rq = Buy) && bool_decide (rq_type rq = OMarket)
          then DRefuse "INVALID_ORDER"
          else
            let lock := match rq_side rq with
                        | Buy => (q, match price with Some p => lockAmountQuote p qtyRounded 8 | None => 0 end)
                        | Sell => (b, lockAmountBase qtyRounded 8)
                        end in
            match (p ← price; validateSpotOrderRiskUserBalances (rq_user rq) q b (rq_side rq) p qtyRounded
                                TAKER_FEE_RATE 8 (sd_balances (odb_settle d))) with
            | Some msg => DThrow msg
            | None => DPlace (OrderNumbers qtyRounded price None None) (fst lock) (snd lock)
            end
      end
  | _, _ => DRefuse "MARKET_NOT_FOUND"
  end.

(** The statements of the transaction name [market]; the row is given the default
    [match_engine_id]. *)
Definition reserve_tx (cf : spot_config) (rq : order_request) (id uuid : string) (n : order_numbers)
    (lockCurrencyId : string) (lockAmount : Z) : M orders_db string :=
  let* existing := gets (λ d, c ← rq_client_id rq; existing_order (rq_user rq) c d) in
  require (cf_unified cf || bool_decide (rq_client_id rq = None)) "column market does not exist" ;;;
  match existing with
  | Some found => ret found
  | None =>
      let* locked := zoom (lockTradingBalance (rq_user rq) lockCurrencyId lockAmount None uuid) in
      require locked "INSUFFICIENT_BALANCE" ;;;
      require (cf_unified cf) "column market does not exist" ;;;
      insert_order (cf_unified cf) (cf_generated_remaining cf) id
        (SpotTerms (rq_user rq) (rq_market rq) (rq_side rq) (rq_type rq) (on_price n) None None None GTC
           (rq_client_id rq) "default") (on_qty n) ;;;
      ret id
  end.

(** [gate] is the first check that refuses: the endpoint is disabled, the caller has no API
    key, or trading is halted. *)
Definition reserveOrder (cf : spot_config) (gate : option string) (rq : order_request)
    (id uuid : string) : Proc onode place_result :=
  match gate with
  | Some code => pret (PRefused code)
  | None =>
      if negb (bool_decide (rq_type rq ∈ [OLimit; OMarket])) then pret (PRefused "INVALID_ORDER")
      else
        try_catch
          (do* decision := tx (gets (decide_reserve rq)) in
           match decision with
           | DRefuse code => pret (PRefused code)
           | DExisting existing => pret (PExisting existing)
           | DThrow msg => pthrow msg
           | DPlace n lockCurrencyId lockAmount =>
               do* placed := tx (reserve_tx cf rq id uuid n lockCurrencyId lockAmount) in
               pret (if String.eqb placed id then PPlaced id else PExisting placed)
           end)
          (λ msg, pret (PFailed msg))
  end.
End Model.
