(* ===== verification/Orders.v ===== *)
(** * Spot orders: what they lock and give back

    What placing an order does, on every branch; that the funds locked on an account cover
    the open orders over all runs of the order routes and the settlement of their matches;
    that an open order can then be cancelled with the exact release; and where the code
    does not do that. *)
From stdpp Require Import base gmap strings list fin_maps.
From Stdlib Require Import ZArith Lia.
From S2P Require Import Prelude Money Balances Escrow Halt SettlementModel Settlement OrdersModel.
Local Open Scope Z_scope.
Local Open Scope prog_scope.

Local Notation at_db P := (at_ (X := engine_msg) P).
Local Notation live_db P := (unstopped (X := engine_msg) P).

(** ** The table of orders *)
Lemma book_lookup d id t o :
  book d !! id = Some (t, o) ↔ terms d !! id = Some t ∧ order_of d id = Some o.
Proof.
  unfold book, order_of. rewrite map_lookup_zip_with_Some. split.
  - intros (x & y & [= -> ->] & ? & ?). done.
  - intros [? ?]. by exists t, o.
Qed.

Lemma book_insert d id t o : book (put_terms id t (put_order id o d)) = <[id := (t, o)]> (book d).
Proof. unfold book, put_terms, put_order; simpl. by rewrite map_insert_zip_with. Qed.

Lemma book_put_order d id t o :
  terms d !! id = Some t → book (put_order id o d) = <[id := (t, o)]> (book d).
Proof.
  intros Ht. unfold book, put_order; simpl. rewrite <- (insert_id (terms d) id t Ht) at 1.
  by rewrite map_insert_zip_with.
Qed.

Lemma book_put_terms d id t o :
  order_of d id = Some o → book (put_terms id t d) = <[id := (t, o)]> (book d).
Proof.
  intros Ho. unfold book, put_terms, order_of in *; simpl.
  rewrite <- (insert_id (spot_orders (odb_settle d)) id o Ho) at 1. by rewrite map_insert_zip_with.
Qed.

Lemma write_status_inv unified id st d u d' :
  write_status unified id st d = Ret (u, d') →
  (order_of d id = None ∧ d' = d) ∨
  ∃ o, order_of d id = Some o ∧ st ∈ statuses unified ∧ d' = put_order id (set_status_so st o) d.
Proof.
  unfold write_status. intros Hrun.
  apply bind_Ret_inv in Hrun as (row & d1 & H1 & Hrun). apply gets_inv in H1 as [-> ->].
  destruct (order_of d id) as [o|]; [right|left; by apply ret_inv in Hrun as [_ ->]].
  apply bind_Ret_inv in Hrun as (? & d1 & H1 & Hrun). apply require_inv in H1 as [H1 ->].
  apply modify_inv in Hrun as ->. apply bool_decide_eq_true in H1. eauto.
Qed.

(** ** Moving between available and locked *)
(** [a] goes from available to locked on the trading account of [u] in [c]. *)
Definition shifted (u c : string) (a : Z) (b b' : balances) : Prop :=
  row_of (trading_key u c) b' = add_buckets (row_of (trading_key u c) b) (- a) a 0 0 0 ∧
  (∀ k, k ≠ trading_key u c → row_of k b' = row_of k b) ∧ (balances_wf b → balances_wf b').

Lemma shifted_post u c a r' es b :
  r' = add_buckets (row_of (trading_key u c) b) (- a) a 0 0 0 → row_nonneg r' = true →
  shifted u c a b (post (trading_key u c) r' es b).
Proof.
  intros -> Hn. split; [apply row_of_post|]. split; [|by intros; apply wf_post].
  intros k Hk. by apply row_of_post_ne.
Qed.

Lemma lock_shifted u c a ref uuid b b' :
  lockTradingBalance u c a ref uuid b = Ret (true, b') → shifted u c a b b'.
Proof.
  rewrite lock_run. cbv zeta. destruct (_ <=? _); [|done]. destruct (row_nonneg _) eqn:E; [|done].
  intros [= <-]. by apply shifted_post.
Qed.

Lemma unlock_shifted u c a ref uuid b x b' :
  unlockTradingBalance u c a ref uuid b = Ret (x, b') → shifted u c (- a) b b'.
Proof.
  rewrite unlock_run. cbv zeta. destruct (_ <=? _); [|done]. destruct (row_nonneg _) eqn:E; [|done].
  intros [= _ <-]. apply shifted_post; [|done]. by rewrite Z.opp_involutive.
Qed.

Lemma unlock_ok u c a ref uuid b :
  balances_wf b → 0 ≤ a ≤ locked_balance (row_of (trading_key u c) b) →
  ∃ b', unlockTradingBalance u c a ref uuid b = Ret (tt, b') ∧ shifted u c (- a) b b'.
Proof.
  intros Hwf Ha. rewrite unlock_run. cbv zeta. rewrite (proj2 (Z.leb_le _ _)) by lia.
  pose proof (wf_row_of _ (trading_key u c) Hwf) as Hr.
  assert (row_nonneg (add_buckets (row_of (trading_key u c) b) a (- a) 0 0 0) = true) as Hn.
  { rewrite add_buckets_nonneg by done. apply row_nonneg_true in Hr as (?&?&_).
    by rewrite !(proj2 (Z.leb_le _ _)) by lia. }
  rewrite Hn. eexists. split; [done|]. apply shifted_post; [|done]. by rewrite Z.opp_involutive.
Qed.

Lemma shifted_undo u c a b b1 b2 : shifted u c a b b1 → shifted u c (- a) b1 b2 → ∀ k, row_of k b2 = row_of k b.
Proof.
  intros (Hr & Ho & _) (Hr' & Ho' & _) k. destruct (decide (k = trading_key u c)) as [->|Hk].
  - rewrite Hr', Hr, Z.opp_involutive. apply add_buckets_opp.
  - by rewrite Ho', Ho.
Qed.

(** What is locked on a trading account. *)
Definition locked (u c : string) (d : orders_db) : Z :=
  locked_balance (row_of (trading_key u c) (sd_balances (odb_settle d))).
Lemma shifted_locked u c a u' c' d d' :
  shifted u c a (sd_balances (odb_settle d)) (sd_balances (odb_settle d')) →
  locked u' c' d' = locked u' c' d + (if String.eqb u u' && String.eqb c c' then a else 0).
Proof.
  intros (Hr & Ho & _). unfold locked.
  destruct (String.eqb_spec u u') as [->|Hu], (String.eqb_spec c c') as [->|Hc]; simpl;
    try (rewrite Ho; [lia|rewrite trading_key_inj; congruence]).
  rewrite Hr. done.
Qed.

(** ** Placing *)
Section Placing.
Context `{DecimalJs}.
Context (cf : spot_config) (pw : place_world) (rq : order_request) (id : string).

Definition placed_terms (n : order_numbers) (engine : string) : spot_terms :=
  SpotTerms (rq_user rq) (rq_market rq) (rq_side rq) (rq_type rq) (on_price n) (on_stop n)
    (on_trailing n) None (rq_tif rq) (rq_client_id rq) engine.
Definition placed_order (n : order_numbers) : spot_order :=
  SpotOrder (on_qty n) 0 (if cf_unified cf then None else Some (on_qty n))
    (if cf_unified cf then if is_stop (rq_type rq) then "PENDING_TRIGGER" else "OPEN" else "new").

(** The lock was taken and the row inserted; nothing else. *)
Definition placed (n : order_numbers) (cur : string) (amt : Z) (d d' : orders_db) : Prop :=
  ∃ engine b', shifted (rq_user rq) cur amt (sd_balances (odb_settle d)) b' ∧
    (is_stop (rq_type rq) = true → engine = "node") ∧
    d' = put_terms id (placed_terms n engine) (put_order id (placed_order n) (sput b' d)).

(** After the undo: the order is cancelled, and every balance is the one before. *)
Definition undone (n : order_numbers) (d d' : orders_db) : Prop :=
  ∃ engine b', (∀ k, row_of k b' = row_of k (sd_balances (odb_settle d))) ∧
    d' = put_terms id (placed_terms n engine)
           (put_order id (set_status_so "cancelled" (placed_order n)) (sput b' d)).

Lemma insert_order_inv un gen t qty d u d' :
  insert_order un gen id t qty d = Ret (u, d') →
  un || negb gen = true ∧ (un = true → ot_type t ≠ OTrailing) ∧
  d' = put_terms id t (put_order id (SpotOrder qty 0 (if un then None else Some qty)
         (if un then if is_stop (ot_type t) then "PENDING_TRIGGER" else "OPEN" else "new")) d).
Proof.
  unfold insert_order. intros Hrun.
  apply bind_Ret_inv in Hrun as (? & d1 & H1 & Hrun). apply require_inv in H1 as [Ht ->].
  apply bind_Ret_inv in Hrun as (? & d1 & H1 & Hrun). apply require_inv in H1 as [Hg ->].
  apply bind_Ret_inv in Hrun as (? & d1 & H1 & Hrun). apply gets_inv in H1 as [_ ->].
  apply bind_Ret_inv in Hrun as (? & d1 & H1 & Hrun). apply require_inv in H1 as [_ ->].
  apply bind_Ret_inv in Hrun as (? & d1 & H1 & Hrun). apply modify_inv in H1 as ->.
  apply modify_inv in Hrun as ->. split; [done|]. split; [|done].
  intros ->. apply negb_true_iff in Ht. by apply bool_decide_eq_false in Ht.
Qed.

Lemma place_tx_inv n cur amt d engine d' :
  place_tx cf pw rq id n cur amt d = Ret (engine, d') →
  placed n cur amt d d' ∧ cf_unified cf || negb (cf_generated_remaining cf) = true.
Proof.
  unfold place_tx. intros Hrun.
  apply bind_Ret_inv in Hrun as (l & d1 & H1 & Hrun). apply zoom_inv in H1 as (b & Hlock & ->).
  apply bind_Ret_inv in Hrun as (? & d2 & H1 & Hrun). apply require_inv in H1 as [-> ->].
  apply bind_Ret_inv in Hrun as ([] & d2 & H1 & Hrun).
  assert (d2 = sput b d) as ->.
  { destruct (rq_type rq); try by apply ret_inv in H1 as [_ ->].
    destruct (rq_tif rq), (on_price n); try by apply ret_inv in H1 as [_ ->].
    apply bind_Ret_inv in H1 as (f & d3 & Hf & H1). unfold getFillableQuantity in Hf. run_all Hf.
    destruct (_ <? _); [|by apply ret_inv in H1 as [_ ->]].
    by apply bind_Ret_inv in H1 as (? & ? & _ & ?). }
  apply bind_Ret_inv in Hrun as (e & d3 & H2 & Hrun).
  assert (d3 = sput b d ∧ (is_stop (rq_type rq) = true → e = None)) as [-> He].
  { destruct (is_stop (rq_type rq)); [|split; [by run_all H2|done]].
    rewrite andb_false_r in H2. by apply ret_inv in H2 as [-> ->]. }
  apply bind_Ret_inv in Hrun as (? & d4 & H3 & Hrun). apply ret_inv in Hrun as [_ ->].
  apply insert_order_inv in H3 as (Hg & _ & ->). split; [|done].
  eexists (default "node" e), b. split; [by eapply lock_shifted|]. split; [by intros ->%He|]. done.
Qed.

Lemma undo_place_inv n cur amt d d1 u d' :
  placed n cur amt d d1 → undo_place cf pw id (rq_user rq) cur amt d1 = Ret (u, d') →
  cf_unified cf = false ∧ undone n d d'.
Proof.
  intros (e & b & Hs & _ & ->) Hrun. unfold undo_place in Hrun.
  apply bind_Ret_inv in Hrun as ([] & d2 & H1 & Hrun).
  apply write_status_inv in H1 as [[H1 _]|(o & Ho & Hin & ->)].
  { unfold order_of in H1; simpl in H1. by rewrite lookup_insert_eq in H1. }
  unfold order_of in Ho; simpl in Ho. rewrite lookup_insert_eq in Ho. injection Ho as <-.
  assert (cf_unified cf = false) as Hu.
  { destruct (cf_unified cf); [|done]. simpl in Hin. set_solver. }
  split; [done|]. apply zoom_inv in Hrun as (b2 & H2 & ->). apply unlock_shifted in H2.
  exists e, b2. split; [by eapply shifted_undo|].
  unfold put_terms, put_order, set_spot_orders; simpl. by rewrite insert_insert_eq.
Qed.

Lemma undo_place_ok n cur amt d d1 :
  balances_wf (sd_balances (odb_settle d)) → cf_unified cf = false → placed n cur amt d d1 →
  ∃ d', undo_place cf pw id (rq_user rq) cur amt d1 = Ret (tt, d').
Proof.
  intros Hwf Hu (e & b & (Hr & _ & _) & _ & ->). unfold undo_place, write_status, bind, gets, order_of.
  simpl. rewrite lookup_insert_eq, Hu. simpl. unfold zoom; simpl.
  rewrite unlock_run, Hr. cbv zeta. rewrite add_buckets_opp.
  pose proof (wf_row_of _ (trading_key (rq_user rq) cur) Hwf) as Hn. rewrite Hn.
  apply row_nonneg_true in Hn as (_ & Hl & _). simpl. rewrite (proj2 (Z.leb_le _ _)) by lia. by eexists.
Qed.

(** A refused or failed placement leaves balances and orders alone. *)
Definition untouched (d d' : orders_db) : Prop :=
  odb_settle d' = odb_settle d ∧ terms d' = terms d.

(** The order is placed, and then the request threw. *)
Definition handed_over (d d' : orders_db) : Prop :=
  pw_handover pw ≠ None ∧ ∃ n cur amt, decide_place cf rq d = DPlace n cur amt ∧ placed n cur amt d d'.

Definition place_outcome (d : orders_db) (r : place_result) (d' : orders_db) : Prop :=
  match r with
  | PPlaced x =>
      x = id ∧ pw_handover pw = None ∧
      ∃ n cur amt, decide_place cf rq d = DPlace n cur amt ∧ placed n cur amt d d'
  | PEngineFailed x =>
      x = id ∧ pw_accepted pw = false ∧ ∃ n cur amt, decide_place cf rq d = DPlace n cur amt ∧
        if cf_unified cf then placed n cur amt d d' else undone n d d'
  | PFailed _ => untouched d d' ∨ (∃ x, handed_over d x ∧ untouched x d')
  | PRefused _ | PExisting _ => untouched d d'
  end.

Lemma undo_spec n cur amt d :
  balances_wf (sd_balances (odb_settle d)) →
  hoare (live_db (placed n cur amt d))
    (try_catch (tx (undo_place cf pw id (rq_user rq) cur amt)) (λ _, pret tt))
    (λ _, live_db (λ d', if cf_unified cf then placed n cur amt d d' else undone n d d')) (λ _, False).
Proof.
  intros Hwf. eapply hoare_catch.
  - apply (hoare_tx_live _ _ (λ _ d', if cf_unified cf then placed n cur amt d d' else undone n d d')
             (λ d', cf_unified cf = true ∧ placed n cur amt d d')).
    intros x Hx. destruct (undo_place _ _ _ _ _ _ _) as [[[] d']|e] eqn:E.
    + destruct (undo_place_inv _ _ _ _ _ _ _ Hx E) as [-> ?]. done.
    + destruct (cf_unified cf) eqn:Hu; [done|].
      destruct (undo_place_ok n cur amt d x Hwf Hu Hx) as [d' Hd']. congruence.
  - intros e. apply hoare_ret. intros s (? & -> & ?). done.
Qed.

Lemma after_place_spec n cur amt d :
  decide_place cf rq d = DPlace n cur amt →
  hoare (live_db (placed n cur amt d)) (after_place pw id) (λ r, live_db (place_outcome d r))
    (live_db (handed_over d)).
Proof.
  intros Hd. unfold after_place. destruct (pw_handover pw) as [msg|] eqn:Eh.
  - apply hoare_throw. intros s [? Hs]. split; [done|]. split; [by rewrite Eh|eauto 10].
  - apply hoare_ret. intros s [? Hs]. split; [done|]. split; [done|]. split; [done|eauto 10].
Qed.

Lemma place_body_spec d :
  balances_wf (sd_balances (odb_settle d)) →
  hoare (live_db (λ x, x = d)) (place_body cf pw rq id) (λ r, live_db (place_outcome d r))
    (live_db (λ x, x = d ∨ handed_over d x)).
Proof.
  intros Hwf. unfold place_body. eapply hoare_bind.
  { apply (hoare_tx_live _ _ (λ a x, a = decide_place cf rq d ∧ x = d)). by intros ? ->. }
  intros a. apply (hoare_pre _ (λ n, a = decide_place cf rq d ∧ live_db (λ x, x = d) n));
    [by intros n (? & ? & ?)|]. apply hoare_pure. intros ->.
  destruct (decide_place cf rq d) as [code|e|msg|n cur amt] eqn:Ed.
  1,2: by apply hoare_ret; intros s [? <-].
  { apply hoare_throw. intros s [Hb Hs]. split; [exact Hb|by left]. }
  eapply hoare_bind.
  { apply (hoare_tx_live _ _ (λ _, placed n cur amt d)). intros x ->.
    destruct (place_tx _ _ _ _ _ _ _ _) as [[e d']|] eqn:E; [|by left]. by apply place_tx_inv in E as [? _]. }
  assert (hoare (live_db (placed n cur amt d)) (after_place pw id) (λ r, live_db (place_outcome d r))
    (live_db (λ x, x = d ∨ handed_over d x))) as Hafter.
  { eapply hoare_post_throw; [|by apply (after_place_spec n cur amt)]. intros s [? ?]. by split; [|right]. }
  intros [e|]; [|exact Hafter].
  eapply hoare_bind; [apply hoare_send_live|]. intros ok.
  apply (hoare_pre _ (λ x, ok = pw_accepted pw ∧ live_db (placed n cur amt d) x));
    [by intros x (? & -> & ?)|]. apply hoare_pure. intros ->. destruct (pw_accepted pw) eqn:Ha.
  { exact Hafter. }
  eapply hoare_bind.
  { eapply hoare_post_throw; [|by apply undo_spec]. done. }
  intros []. apply hoare_ret. intros s [? Hs]. split; [done|]. split; [done|]. split; [done|].
  by exists n, cur, amt.
Qed.

Lemma placeOrder_spec d :
  balances_wf (sd_balances (odb_settle d)) →
  hoare (live_db (λ x, x = d)) (placeOrder cf pw rq id) (λ r, live_db (place_outcome d r)) (λ _, False).
Proof.
  intros Hwf. unfold placeOrder.
  destruct (pw_gate pw) as [code|]; [by apply hoare_ret; intros s [? <-]|].
  destruct (body_refusal rq) as [code|]; [by apply hoare_ret; intros s [? <-]|].
  eapply hoare_catch; [by apply place_body_spec|]. intros msg.
  set (out := λ d', untouched d d' ∨ ∃ x, handed_over d x ∧ untouched x d').
  eapply (hoare_bind _ _ (λ _, live_db out)).
  - eapply hoare_catch.
    + apply (hoare_tx_live _ _ (λ _, out) (λ x, x = d ∨ handed_over d x)).
      intros x [->|Hx]; [by left|right]. by exists x.
    + intros e. apply hoare_ret. intros s [Hb [Hs|Hs]]; (split; [exact Hb|]).
      * left. simpl in Hs. by subst d.
      * right. by exists (nd_db s).
  - intros []. by apply hoare_ret.
Qed.

(** C17. What each answer to a new order means, for a request that runs alone and is not
    stopped, whatever its body and the tables. It always answers. When it answers that the
    order is placed, the amount that was decided from the tables went from available to
    locked on one account of the user, the row was inserted, and nothing else changed. When
    it refuses, no balance and no order changed. When the engine refuses the order, the older
    layout undoes both; the unified layout keeps the open order and its lock, because the
    undo writes a status the table does not admit, while the client is told that its balance
    was not used. When it answers a failure, either no balance and no order changed, or the
    order is placed, with its lock, and something after the engine's acceptance threw. *)
Theorem placement_exact d :
  balances_wf (sd_balances (odb_settle d)) →
  hoare (live_db (λ x, x = d)) (placeOrder cf pw rq id) (λ r, live_db (place_outcome d r)) (λ _, False).
Proof. apply placeOrder_spec. Qed.
End Placing.

(** ** The funds that cover the open orders *)
Section Cover.
Context `{DecimalJs}.

(** What a cancel of the order would give back on the account ([u], [c]). *)
Definition order_claim (cur : string → side → string) (u c : string) (t : spot_terms) (o : spot_order) : Z :=
  if String.eqb (ot_user t) u && String.eqb (cur (ot_market t) (ot_side t)) c && cancellable (so_status o)
  then unlock_amount (ot_side t) (ot_price t) (ot_stop_price t) o else 0.
Definition currencies_of (d : orders_db) (market : string) (sd : side) : string := market_currency market sd d.
Definition owed_locks (u c : string) (d : orders_db) : Z :=
  msum (λ _ x, order_claim (currencies_of d) u c (fst x) (snd x)) (book d).

(** Every account's locked balance is at least what its open orders would release. *)
Definition covered (d : orders_db) : Prop := ∀ u c, owed_locks u c d ≤ locked u c d.

(** Quantities have 8 places; a buy order has a price; products keep their digits. *)
Record spot_order_ok (t : spot_terms) (o : spot_order) : Prop := {
  ok_filled : 0 ≤ so_filled o ≤ so_quantity o;
  ok_places : (ulp 8 | so_quantity o) ∧ (ulp 8 | so_filled o);
  ok_digits : so_quantity o < 10 ^ (28 + Money.precision);
  ok_price : ot_side t = Buy → ∃ p, ot_price t = Some p ∧ 0 ≤ p
    ∧ toDP 8 p * so_quantity o < 10 ^ (56 + Money.precision);
}.

Record orders_inv (d : orders_db) : Prop := {
  oi_wf : balances_wf (sd_balances (odb_settle d));
  oi_ok : ∀ id t o, book d !! id = Some (t, o) → spot_order_ok t o;
  oi_covered : covered d;
}.

(** *** The amount of one order *)
Lemma remaining_exact t o : spot_order_ok t o → toDP 8 (dminus (so_quantity o) (so_filled o)) = so_quantity o - so_filled o.
Proof.
  intros [Hf [Hq Hd] Hr _]. unfold dminus. assert (ulp 8 | so_quantity o - so_filled o) by (by apply Z.divide_sub_r).
  rewrite (sig_exact 28); [|done|done|]; [by apply trunc_exact|].
  rewrite Z.abs_eq by lia. lia.
Qed.

Definition need (t : spot_terms) (q : Z) : Z :=
  match ot_side t with Sell => q | Buy => exactQuote (default 0 (ot_price t)) q end.

Lemma toDP_exact p x : (ulp p | x) → toDP p x = x.
Proof. apply trunc_exact, ulp_pos. Qed.

Lemma unlock_exact t o :
  spot_order_ok t o →
  unlock_amount (ot_side t) (ot_price t) (ot_stop_price t) o = need t (so_quantity o - so_filled o).
Proof.
  intros Ho. unfold unlock_amount, need. rewrite (remaining_exact t o Ho).
  destruct Ho as [Hf [Hq Hd] Hr Hp]. assert (ulp 8 | so_quantity o - so_filled o) as Hu by (by apply Z.divide_sub_r).
  destruct (ot_side t); [|by apply toDP_exact].
  destruct (Hp eq_refl) as (p & -> & Hp0 & Hpq). simpl.
  apply lockAmountQuote_exact; [done|lia|]. rewrite (toDP_exact 8 (so_quantity o - so_filled o)) by done.
  pose proof (proj1 (toDP_bounds 8 p Hp0)). nia.
Qed.

Lemma need_nonneg t o q : spot_order_ok t o → 0 ≤ q → 0 ≤ need t q.
Proof.
  intros Ho Hq. unfold need. destruct (ot_side t) eqn:E; [|done].
  destruct (ok_price _ _ Ho E) as (p & -> & Hp & _). by apply exactQuote_bounds.
Qed.

Lemma need_split t o q1 q2 : spot_order_ok t o → 0 ≤ q1 → 0 ≤ q2 → need t q1 + need t q2 ≤ need t (q1 + q2).
Proof.
  intros Ho ??. unfold need. destruct (ot_side t) eqn:E; [|done].
  destruct (ok_price _ _ Ho E) as (p & -> & Hp & _). by apply exactQuote_add.
Qed.

Lemma claim_bounds cur u c t o :
  spot_order_ok t o → 0 ≤ order_claim cur u c t o ≤ need t (so_quantity o - so_filled o).
Proof.
  intros Ho. pose proof (ok_filled _ _ Ho). pose proof (need_nonneg t o (so_quantity o - so_filled o) Ho ltac:(lia)).
  unfold order_claim. rewrite (unlock_exact t o Ho). destruct (_ && _); lia.
Qed.

(** *** What one change of the table does *)
Definition claim_at (cur : string → side → string) (u c id : string) (b : gmap string (spot_terms * spot_order)) : Z :=
  match b !! id with Some (t, o) => order_claim cur u c t o | None => 0 end.

Lemma owed_insert cur u c id t o (b : gmap string (spot_terms * spot_order)) :
  msum (λ _ x, order_claim cur u c (fst x) (snd x)) (<[id := (t, o)]> b)
  = msum (λ _ x, order_claim cur u c (fst x) (snd x)) b - claim_at cur u c id b + order_claim cur u c t o.
Proof.
  unfold claim_at. destruct (b !! id) as [[t0 o0]|] eqn:E.
  - by rewrite (msum_insert_Some _ _ _ _ _ E).
  - rewrite msum_insert_None by done. simpl. lia.
Qed.

(** One row of the table is written, and balances move. *)
Lemma inv_put d d' id t o :
  orders_inv d → book d' = <[id := (t, o)]> (book d) → currencies_of d' = currencies_of d →
  spot_order_ok t o → balances_wf (sd_balances (odb_settle d')) →
  (∀ u c, order_claim (currencies_of d) u c t o + locked u c d
          ≤ claim_at (currencies_of d) u c id (book d) + locked u c d') →
  orders_inv d'.
Proof.
  intros [Hwf Hok Hcov] Hb Hc Ho Hwf' Hle. split; [done| |].
  - intros i t1 o1 Hi. rewrite Hb in Hi. apply lookup_insert_Some in Hi as [[_ [= <- <-]]|[_ Hi]]; eauto.
  - intros u c. unfold owed_locks. rewrite Hb, Hc, owed_insert.
    specialize (Hcov u c). unfold owed_locks in Hcov. specialize (Hle u c). lia.
Qed.

Lemma inv_same d d' :
  orders_inv d → book d' = book d → currencies_of d' = currencies_of d →
  sd_balances (odb_settle d') = sd_balances (odb_settle d) → orders_inv d'.
Proof.
  intros [Hwf Hok Hcov] Hb Hc Hbal. split.
  - by rewrite Hbal.
  - by rewrite Hb.
  - intros u c. unfold owed_locks, locked. rewrite Hb, Hc, Hbal. apply Hcov.
Qed.

(** *** Cancelling *)
(** The order is closed and [amt] goes back to available; nothing else. *)
Definition closed (st user id cur : string) (amt : Z) (o : spot_order) (d d' : orders_db) : Prop :=
  ∃ b', shifted user cur (- amt) (sd_balances (odb_settle d)) b' ∧
    d' = put_order id (set_status_so st o) (sput b' d).

Lemma cancel_commit_inv unified st user id uuid cp o d x d' :
  order_of d id = Some o →
  cancel_commit unified st user id uuid cp d = Ret (x, d') →
  st ∈ statuses unified ∧ closed st user id (cp_currency cp) (cp_amount cp) o d d'.
Proof.
  intros Ho Hrun. unfold cancel_commit in Hrun.
  apply bind_Ret_inv in Hrun as ([] & d1 & H1 & Hrun).
  apply write_status_inv in H1 as [[H1 _]|(o' & Ho' & Hst & ->)]; [congruence|].
  assert (o' = o) as -> by congruence. split; [done|].
  apply bind_Ret_inv in Hrun as (? & d1 & H1 & Hrun). apply require_inv in H1 as [_ ->].
  apply zoom_inv in Hrun as (b' & Hb & ->). apply unlock_shifted in Hb. by exists b'.
Qed.

Lemma order_ok_status t o st : spot_order_ok t o → spot_order_ok t (set_status_so st o).
Proof. intros [? ? ? ?]. by split. Qed.

Lemma claim_closed cur u c t o : cancellable (so_status o) = false → order_claim cur u c t o = 0.
Proof. intros Hs. unfold order_claim. by rewrite Hs, andb_false_r. Qed.

Lemma closed_kept st id cur o d d' t :
  orders_inv d → terms d !! id = Some t → order_of d id = Some o →
  cancellable (so_status o) = true → cancellable st = false →
  cur = currencies_of d (ot_market t) (ot_side t) →
  closed st (ot_user t) id cur (unlock_amount (ot_side t) (ot_price t) (ot_stop_price t) o) o d d' →
  orders_inv d'.
Proof.
  intros Hinv Ht Ho Hc Hst -> (b' & Hs & ->). pose proof Hinv as [Hwf Hok _].
  assert (book d !! id = Some (t, o)) as Hb by (by apply book_lookup).
  eapply (inv_put _ _ id t (set_status_so st o)); [exact Hinv| |done| | |].
  - exact (book_put_order (sput b' d) id t _ Ht).
  - by apply order_ok_status, (Hok id).
  - by apply Hs.
  - intros u c. rewrite claim_closed by done. unfold claim_at. rewrite Hb. unfold order_claim. rewrite Hc, andb_true_r.
    pose proof (shifted_locked (ot_user t) (currencies_of d (ot_market t) (ot_side t)) _ u c d
      (put_order id (set_status_so st o) (sput b' d)) Hs) as ->. destruct (_ && _); lia.
Qed.

(** The whole plan of a cancel, from the tables it reads. *)
Lemma cancel_reads_inv user id d cp :
  cancel_reads user id d = inl cp →
  ∃ t o, terms d !! id = Some t ∧ order_of d id = Some o ∧ ot_user t = user ∧
    cancellable (so_status o) = true ∧
    cp = CancelPlan t (currencies_of d (ot_market t) (ot_side t))
           (unlock_amount (ot_side t) (ot_price t) (ot_stop_price t) o).
Proof.
  unfold cancel_reads. destruct (terms d !! id) as [t|] eqn:Ht; [|done].
  destruct (order_of d id) as [o|] eqn:Ho; [|done].
  destruct (String.eqb_spec (ot_user t) user) as [Hu|]; [|done]. simpl.
  destruct (cancellable _) eqn:Hc; [|done]. intros [= <-]. by exists t, o.
Qed.

Lemma engine_cancel_kept cf id user t accepted (P : orders_db → Prop) E :
  (∀ d, P d → E d) →
  hoare (at_db P) (cancelOnMatchingEngineIfNeeded cf id user t accepted) (λ _, at_db P) (at_db E).
Proof.
  intros HE. unfold cancelOnMatchingEngineIfNeeded. destruct (_ || _); [by apply hoare_ret|].
  by apply hoare_send.
Qed.

Lemma cancelSpotOrder_kept cf user id uuid accepted :
  hoare (at_db orders_inv) (cancelSpotOrder cf user id uuid accepted) (λ _, at_db orders_inv) (λ _, False).
Proof.
  unfold cancelSpotOrder. eapply hoare_catch; [|intros e; by apply hoare_ret; intros s Hs; exact Hs].
  eapply hoare_bind; [by apply hoare_read|]. intros [cp|code]; [|by apply hoare_ret; intros s [? _]].
  eapply hoare_bind; [by apply engine_cancel_kept; intros d [? _]; exact H0|].
  intros [|]; simpl; [|by apply hoare_ret; intros s [? _]].
  apply (hoare_bind _ _ (λ _, at_db orders_inv)); [|intros []; by apply hoare_ret].
  apply (hoare_tx _ _ (λ _, orders_inv)); [|by intros d [? _]].
  intros d [Hinv Hcp]. symmetry in Hcp. apply cancel_reads_inv in Hcp as (t & o & Ht & Ho & <- & Hc & ->).
  destruct (cancel_commit _ _ _ _ _ _ _) as [[[] d']|] eqn:E; [|done].
  apply (cancel_commit_inv _ _ _ _ _ _ o) in E as [_ E]; [|done]. simpl in E.
  eapply (closed_kept "cancelled" id _ o d d' t); done.
Qed.

(** *** Rows read from the table *)
Lemma rows_where_elem p d r :
  r ∈ rows_where p d → book d !! or_id r = Some (or_terms r, or_order r) ∧ p (or_terms r) (or_order r) = true.
Proof.
  unfold rows_where. intros ((i & t & o) & -> & Hx)%list_elem_of_fmap.
  apply list_elem_of_filter in Hx as [Hp Hx]. apply elem_of_map_to_list in Hx.
  split; [done|]. by apply Is_true_true.
Qed.

Lemma rows_where_NoDup p d : NoDup (or_id <$> rows_where p d).
Proof.
  unfold rows_where. rewrite <- list_fmap_compose.
  rewrite (list_fmap_ext _ fst); [|by intros ? [? []] _].
  eapply sublist_NoDup; [apply (NoDup_fst_map_to_list (book d))|].
  apply fmap_sublist, sublist_filter.
Qed.

(** Rows that the table still holds. *)
Definition row_held (d : orders_db) (r : open_row) : Prop :=
  terms d !! or_id r = Some (or_terms r) ∧ order_of d (or_id r) = Some (or_order r).

Lemma held_rows_where p d r : r ∈ rows_where p d → row_held d r.
Proof. intros [Hb _]%rows_where_elem. by apply book_lookup. Qed.

Lemma cancelled_status_closed st : cancellable (cancelled_status st) = false.
Proof. unfold cancelled_status. by destruct (String.eqb _ _). Qed.

Lemma cancel_rows_kept unified user uuid (cur : side → string) rows d x d' :
  orders_inv d → NoDup (or_id <$> rows) →
  (∀ r, r ∈ rows → row_held d r ∧ ot_user (or_terms r) = user ∧ cancellable (so_status (or_order r)) = true
    ∧ currencies_of d (ot_market (or_terms r)) (ot_side (or_terms r)) = cur (ot_side (or_terms r))) →
  foreach rows (cancel_row unified user uuid (cur Sell) (cur Buy)) d = Ret (x, d') → orders_inv d'.
Proof.
  revert d. induction rows as [|r rows IH]; intros d Hinv Hnd Hrows Hrun; simpl in Hrun.
  { by apply ret_inv in Hrun as [_ ->]. }
  apply bind_Ret_inv in Hrun as ([] & d1 & H1 & Hrun).
  destruct (Hrows r) as ((Ht & Ho) & <- & Hc & Hcur); [set_solver|].
  apply (cancel_commit_inv _ _ _ _ _ _ (or_order r)) in H1 as [_ Hcl]; [|done]. simpl in Hcl.
  replace (match ot_side (or_terms r) with Buy => cur Buy | Sell => cur Sell end)
    with (currencies_of d (ot_market (or_terms r)) (ot_side (or_terms r))) in Hcl
    by (rewrite Hcur; by destruct (ot_side (or_terms r))).
  pose proof (closed_kept _ _ _ _ _ d1 _ Hinv Ht Ho Hc (cancelled_status_closed _) eq_refl Hcl) as Hinv1.
  apply NoDup_cons in Hnd as [Hnotin Hnd]. destruct Hcl as (b' & _ & ->).
  apply (IH _ Hinv1 Hnd); [|exact Hrun].
  intros r' Hr'. destruct (Hrows r') as ((Ht' & Ho') & Hu & Hc' & Hcur'); [set_solver|].
  split; [|done]. split; [done|]. unfold order_of in *; simpl.
  rewrite lookup_insert_ne; [done|]. intros Heq. apply Hnotin. rewrite Heq. by apply list_elem_of_fmap_2.
Qed.

Lemma cancel_each_kept cf user accepted rows (P E : orders_db → Prop) :
  (∀ d, P d → E d) →
  hoare (at_db P) (cancel_each cf user accepted rows) (λ a n, fst a `sublist_of` rows ∧ at_db P n) (at_db E).
Proof.
  intros HE. induction rows as [|r rows IH]; simpl.
  { apply hoare_ret. intros s Hs. split; [constructor|done]. }
  eapply hoare_bind; [by apply engine_cancel_kept|]. intros answer.
  eapply hoare_bind; [exact IH|]. intros [ok failed]. apply hoare_pure. intros Hsub. simpl in *.
  destruct answer; apply hoare_ret; intros s Hs; split; auto; by constructor.
Qed.

Lemma cancelAll_kept cf user market uuid accepted :
  hoare (at_db orders_inv) (cancelAll cf user market uuid accepted) (λ _, at_db orders_inv) (λ _, False).
Proof.
  unfold cancelAll. eapply hoare_catch; [|intros e; by apply hoare_ret; intros s Hs; exact Hs].
  set (open d := rows_where (λ t o, String.eqb (ot_user t) user && String.eqb (ot_market t) market
    && bool_decide (so_status o ∈ ["OPEN"; "PARTIALLY_FILLED"; "PENDING_TRIGGER"])) d).
  eapply hoare_bind.
  { apply (hoare_tx orders_inv _ (λ a d, orders_inv d ∧ a = open d)); [|done]. intros d Hd.
    unfold open_in_market, bind, require. by destruct (cf_unified cf). }
  intros rows. eapply hoare_bind; [by apply hoare_read; intros d [? _]; exact H0|]. intros ids.
  eapply hoare_bind; [by apply cancel_each_kept; intros d [[? _] _]; exact H0|].
  intros [[|r ok] failed]; apply hoare_pure; intros Hsub; [by apply hoare_ret; intros s [[? _] _]|].
  apply (hoare_bind _ _ (λ _, at_db orders_inv)); [|intros []; by apply hoare_ret].
  apply (hoare_tx _ _ (λ _, orders_inv)); [|by intros d [[? _] _]].
  intros d [[Hinv ->] ->]. cbn [fst snd].
  destruct (foreach _ _ _) as [[[] d']|] eqn:Erun; [|done].
  eapply (cancel_rows_kept _ user uuid (currencies_of d market)); [exact Hinv| | |exact Erun].
  - eapply sublist_NoDup; [unfold open in Hsub; apply rows_where_NoDup|]. by apply fmap_sublist, Hsub.
  - intros r' Hr'. assert (r' ∈ open d) as Hin by (eapply elem_of_sublist; done).
    split; [by eapply held_rows_where|]. apply rows_where_elem in Hin as [_ Hp].
    rewrite !andb_true_iff in Hp. destruct Hp as [[Hu Hm] Hs].
    apply String.eqb_eq in Hu, Hm. apply bool_decide_eq_true in Hs. rewrite Hu, Hm. split; [done|].
    split; [|done]. rewrite !elem_of_cons, elem_of_nil in Hs. destruct Hs as [-> | [-> | [-> | []]]]; reflexivity.
Qed.

(** *** Changes of status *)
Lemma book_put_order_absent d id o : terms d !! id = None → book (put_order id o d) = book d.
Proof.
  intros Ht. apply map_eq. intros i. unfold book, put_order; simpl. rewrite !map_lookup_zip_with.
  destruct (decide (id = i)) as [<-|Hne]; [by rewrite Ht|]. by rewrite lookup_insert_ne.
Qed.

Lemma write_closed_kept unified id st d x d' :
  cancellable st = false → orders_inv d → write_status unified id st d = Ret (x, d') → orders_inv d'.
Proof.
  intros Hst Hinv Hrun. apply write_status_inv in Hrun as [[_ ->]|(o & Ho & _ & ->)]; [done|].
  destruct (terms d !! id) as [t|] eqn:Ht.
  - assert (book d !! id = Some (t, o)) as Hb by (by apply book_lookup).
    pose proof Hinv as [Hwf Hok _]. pose proof (Hok _ _ _ Hb) as Ho1.
    eapply (inv_put _ _ id t (set_status_so st o)); [exact Hinv|by apply book_put_order|done| |done|].
    + by apply order_ok_status.
    + intros u c. rewrite claim_closed by done. unfold claim_at. rewrite Hb.
      pose proof (claim_bounds (currencies_of d) u c t o Ho1). unfold locked; simpl. lia.
  - eapply inv_same; [exact Hinv|by apply book_put_order_absent|done|done].
Qed.

Lemma adminCancelAll_kept unified market : preserves orders_inv (adminCancelAll unified market).
Proof.
  unfold adminCancelAll. apply preserves_bind; [apply preserves_require|]. intros _.
  apply preserves_bind; [apply preserves_gets|]. intros rows.
  apply preserves_bind; [|intros; apply preserves_ret]. apply preserves_foreach. intros r d x d' Hd Hr.
  by apply (write_closed_kept _ _ _ _ _ _ (eq_refl : cancellable "cancelled" = false) Hd Hr).
Qed.

(** What a cancel depends on. *)
Definition same_claim (t t' : spot_terms) : Prop :=
  ot_user t' = ot_user t ∧ ot_market t' = ot_market t ∧ ot_side t' = ot_side t ∧
  ot_price t' = ot_price t ∧ ot_stop_price t' = ot_stop_price t.

Lemma update_where_inv unified id st new f d b d' :
  update_where unified id st new f d = Ret (b, d') →
  (b = false ∧ d' = d) ∨
  (b = true ∧ ∃ t o, row_held d (OpenRow id t o) ∧ so_status o = st ∧ new ∈ statuses unified ∧
     d' = put_terms id (f t) (put_order id (set_status_so new o) d)).
Proof.
  unfold update_where. intros Hrun.
  apply bind_Ret_inv in Hrun as (rows & d1 & H1 & Hrun). apply gets_inv in H1 as [-> ->].
  destruct (order_of d id) as [o|] eqn:Ho; [|by apply ret_inv in Hrun as [-> ->]; left].
  destruct (terms d !! id) as [t|] eqn:Ht; [|by apply ret_inv in Hrun as [-> ->]; left].
  destruct (String.eqb_spec (so_status o) st) as [Hs|]; [|by apply ret_inv in Hrun as [-> ->]; left].
  right. apply bind_Ret_inv in Hrun as ([] & d1 & H1 & Hrun).
  apply write_status_inv in H1 as [[H1 _]|(o' & Ho' & Hin & ->)]; [congruence|].
  assert (o' = o) as -> by congruence. run_all Hrun. split; [done|]. by exists t, o.
Qed.

Lemma update_where_kept unified id st new f d b d' :
  orders_inv d → update_where unified id st new f d = Ret (b, d') →
  cancellable st = true → cancellable new = true → (∀ t, same_claim t (f t)) → orders_inv d'.
Proof.
  intros Hinv Hrun Hst Hnew Hf.
  apply update_where_inv in Hrun as [[_ ->]|(_ & t & o & [Ht Ho] & Hs & _ & ->)]; [done|].
  simpl in Ht, Ho. assert (book d !! id = Some (t, o)) as Hb by (by apply book_lookup).
  pose proof Hinv as [Hwf Hok _]. pose proof (Hok _ _ _ Hb) as [? ? ? Hp].
  destruct (Hf t) as (Hu & Hm & Hsd & Hpr & Hsp).
  eapply (inv_put _ _ id (f t) (set_status_so new o)); [exact Hinv|apply book_insert|done| |done|].
  - split; [done|done|done|]. by rewrite Hsd, Hpr.
  - intros u c. unfold claim_at, order_claim, locked; rewrite Hb. simpl.
    rewrite Hu, Hm, Hsd, Hpr, Hsp, Hs, Hst, Hnew. unfold unlock_amount; simpl. lia.
Qed.

(** *** Stop orders *)
Lemma trigger_tx_kept unified r d x d' :
  orders_inv d → trigger_tx unified r d = Ret (x, d') → orders_inv d'.
Proof.
  intros Hinv Hrun. unfold trigger_tx in Hrun.
  apply bind_Ret_inv in Hrun as (b & d1 & H1 & Hrun). apply update_where_kept in H1; [|done..].
  assert (d' = d1) as ->; [|done].
  destruct (negb b); [by apply ret_inv in Hrun as [_ ->]|]. by run_all Hrun.
Qed.

Lemma trigger_one_kept cf healthy accepted prices r :
  hoare (at_db orders_inv) (trigger_one cf healthy accepted prices r) (λ _, at_db orders_inv) (at_db orders_inv).
Proof.
  unfold trigger_one. destruct (_ <$> _) as [[|[best|]|]|]; [by apply hoare_ret| |by apply hoare_ret| |by apply hoare_ret].
  { eapply hoare_bind; [|intros b; by apply hoare_ret; intros s Hs; exact Hs].
    apply (hoare_tx _ _ (λ _, orders_inv)); [|done]. intros d Hd.
    destruct (update_where _ _ _ _ _ _) as [[b d']|] eqn:E; [|done]. by apply (update_where_kept _ _ _ _ _ _ _ _ Hd E). }
  destruct (_ || _); [by apply hoare_ret|]. eapply hoare_catch; [|intros e; by apply hoare_ret; intros s Hs; exact Hs].
  apply (hoare_bind _ _ (λ _, at_db orders_inv)).
  { apply hoare_tx; [|done]. intros d Hd.
    destruct (trigger_tx _ _ _) as [[out d']|] eqn:E; [|done]. by eapply trigger_tx_kept. }
  intros [msg|]; [|by apply hoare_ret].
  apply (hoare_bind _ _ (λ _, at_db orders_inv)); [by apply hoare_send|]. intros [|]; [by apply hoare_ret|].
  apply (hoare_bind _ _ (λ _, at_db orders_inv)); [|intros b; by apply hoare_ret].
  apply hoare_tx; [|done]. intros d Hd.
  destruct (update_where _ _ _ _ _ _) as [[b d']|] eqn:E; [|done]. by apply (update_where_kept _ _ _ _ _ _ _ _ Hd E).
Qed.

Lemma trigger_kept cf healthy accepted :
  hoare (at_db orders_inv) (processTriggeredStopOrders cf healthy accepted) (λ _, at_db orders_inv) (at_db orders_inv).
Proof.
  unfold processTriggeredStopOrders.
  apply (hoare_bind _ _ (λ _, at_db orders_inv)); [by apply hoare_tx|]. intros prices.
  apply (hoare_bind _ _ (λ _, at_db orders_inv)); [by apply hoare_tx|]. intros rows.
  induction rows as [|r rows IH]; simpl; [by apply hoare_ret|].
  apply (hoare_bind _ _ (λ _, at_db orders_inv)); [apply trigger_one_kept|]. by intros [].
Qed.

(** *** Placing *)
(** Markets with 8 decimals or fewer for quantities and 8 for prices, the table's defaults. *)
Definition market_fine (rq : order_request) (d : orders_db) : Prop :=
  ∀ m, markets (odb_settle d) !! rq_market rq = Some m →
    default 8 (m_price_precision m) = 8 ∧ default 8 (m_qty_precision m) ≤ 8.
(** Buy orders name their price, and the numbers keep their digits. *)
Record request_fine (rq : order_request) : Prop := {
  rf_priced : rq_side rq = Buy → rq_type rq = OLimit ∨ rq_type rq = OStopLimit;
  rf_quantity : ∀ q, rq_quantity rq = Fin q → q < 10 ^ (28 + Money.precision);
  rf_notional : ∀ q p, rq_quantity rq = Fin q → rq_price rq = Some (Fin p) → 0 ≤ p →
    p * q < 10 ^ (56 + Money.precision);
}.

Lemma toDP_divide p x : p ≤ 8 → (ulp 8 | toDP p x).
Proof.
  intros Hp. eapply Z.divide_trans; [|apply trunc_divide]. apply divide_pow10 with (Z.max 0 (SCALE - p)).
  - unfold SCALE. lia.
  - done.
Qed.

Lemma positive_at_inv p v x : positive_at p v = Some x → ∃ y, v = Some (Fin y) ∧ x = toDP p y ∧ 0 < x.
Proof.
  unfold positive_at. destruct v as [[y|]|]; [|done|done]. destruct (Z.leb_spec (toDP p y) 0); [done|].
  intros [= <-]. by exists y.
Qed.

(** A new row that asks for no more than [amt], and is in order. *)
Definition backed (rq : order_request) (n : order_numbers) (amt : Z) : Prop :=
  ∀ t o, ot_side t = rq_side rq → ot_price t = on_price n → ot_stop_price t = on_stop n →
    so_quantity o = on_qty n → so_filled o = 0 →
    spot_order_ok t o ∧ unlock_amount (ot_side t) (ot_price t) (ot_stop_price t) o ≤ amt.

Lemma toDP_pos_le p x : 0 < toDP p x → toDP p x ≤ x ∧ 0 ≤ x.
Proof.
  intros Hx. destruct (Z.le_gt_cases 0 x) as [H0|H0]; [split; [|done]; by apply toDP_bounds|].
  exfalso. pose proof (trunc_mono (ulp p) (ulp_pos p) x 0 ltac:(lia)) as Hm.
  rewrite trunc_0 in Hm by apply ulp_pos. unfold toDP in Hx. lia.
Qed.

(** Quantities and prices that are rounded down to at most 8 places. *)
Lemma backed_intro rq n amt q qp :
  request_fine rq → rq_quantity rq = Fin q → 0 < q → qp ≤ 8 → on_qty n = toDP qp q →
  (rq_side rq = Buy → ∃ y, rq_price rq = Some (Fin y) ∧ on_price n = Some (toDP 8 y) ∧ 0 < toDP 8 y) →
  amt = match rq_side rq with
        | Buy => lockAmountQuote (default 0 (on_price n)) (on_qty n) 8
        | Sell => on_qty n
        end →
  backed rq n amt.
Proof.
  intros [_ Hq Hn] Hrq Hpos Hqp Hqty Hbuy -> t o Hsd Hpr Hsp Hoq Hof.
  destruct (toDP_bounds qp q ltac:(lia)) as (Hb1 & Hb2 & _). pose proof (Hq _ Hrq) as Hd.
  assert (spot_order_ok t o) as Ho.
  { split.
    - rewrite Hof, Hoq, Hqty. lia.
    - rewrite Hof, Hoq, Hqty. split; [by apply toDP_divide|apply Z.divide_0_r].
    - rewrite Hoq, Hqty. lia.
    - rewrite Hsd. intros Hs. destruct (Hbuy Hs) as (y & Hy & Hpy & Hy0).
      exists (toDP 8 y). split; [by rewrite Hpr|]. split; [lia|]. rewrite toDP_idem, Hoq, Hqty.
      destruct (toDP_pos_le 8 y Hy0) as [Hyb Hy1]. pose proof (Hn q y Hrq Hy Hy1). nia. }
  split; [done|]. rewrite (unlock_exact t o Ho), Hof, Z.sub_0_r. unfold need. rewrite Hsd.
  destruct (rq_side rq) eqn:Hs; [|by rewrite Hoq]. destruct (ok_price _ _ Ho Hsd) as (p & Hp & Hp0 & Hp1).
  rewrite <- Hpr, Hp, <- Hoq. simpl. rewrite lockAmountQuote_exact; [done|done|rewrite Hoq, Hqty; lia|].
  by rewrite (toDP_exact 8 (so_quantity o)) by apply Ho.
Qed.

Lemma numbers_of_inv m r rq n :
  numbers_of m r rq = inl n →
  on_qty n = toDP (default 8 (m_qty_precision m)) (match rq_quantity rq with Fin q => q | NonFinite => 0 end) ∧
  (rq_type rq = OLimit ∨ rq_type rq = OStopLimit →
   on_price n = positive_at (default 8 (m_price_precision m)) (rq_price rq) ∧ is_Some (on_price n)).
Proof.
  unfold numbers_of. destruct (_ <? _); [done|].
  destruct (bool_decide (rq_type rq ∈ [OLimit; OStopLimit])) eqn:Et.
  - destruct (positive_at _ (rq_price rq)) as [p|] eqn:Ep; [|done]. destruct (_ <? _); [done|].
    intros Hn.
    assert (on_price n = Some p ∧ on_qty n = toDP (default 8 (m_qty_precision m))
      (match rq_quantity rq with Fin q => q | NonFinite => 0 end)) as [Hp Hq].
    { repeat (case_match; try discriminate); simplify_eq; done. }
    rewrite Hp. done.
  - intros Hn. apply bool_decide_eq_false in Et. split; [|intros [Ht|Ht]; rewrite Ht in Et; set_solver].
    repeat (case_match; try discriminate); simplify_eq; done.
Qed.

(** What the handler decided to lock backs the order. *)
Lemma decide_place_backed cf rq d n cur amt :
  body_refusal rq = None → market_fine rq d → request_fine rq →
  decide_place cf rq d = DPlace n cur amt →
  cur = currencies_of d (rq_market rq) (rq_side rq) ∧ backed rq n amt.
Proof.
  intros Hbody Hm Hrq Hdec. unfold decide_place in Hdec.
  destruct (markets _ !! _) as [m|] eqn:Em; [|done]. destruct (rules d !! _) as [r|]; [|done].
  destruct (Hm m Em) as [Hpp Hqp].
  destruct (market_refusal cf rq r d); [done|]. destruct (_ ≫= _); [done|].
  destruct (numbers_of m r rq) as [n'|] eqn:En; [|done]. cbv zeta in Hdec.
  destruct (_ || _); [done|]. destruct (lock_of _ _ _ _ _ _) as [[cur' amt']|] eqn:El; [|done].
  assert (n' = n ∧ cur' = cur ∧ amt' = amt) as (-> & -> & ->).
  { unfold decide_risk in Hdec. repeat (case_match; try discriminate); by simplify_eq. }
  clear Hdec. apply numbers_of_inv in En as [Hq Hp]. rewrite Hpp in Hp.
  assert (∃ q, rq_quantity rq = Fin q ∧ 0 < q) as (q & Hrq' & Hq0).
  { unfold body_refusal in Hbody. repeat (case_match; try discriminate). bool_prop. eexists; split; [done|lia]. }
  rewrite Hrq' in Hq. unfold lock_of in El. rewrite Hpp in El.
  assert (rq_side rq = Buy → ∃ y, rq_price rq = Some (Fin y) ∧ on_price n = Some (toDP 8 y) ∧ 0 < toDP 8 y) as Hbuy.
  { intros Hs. destruct (Hp (rf_priced _ Hrq Hs)) as [Hp1 [x Hx]]. rewrite Hx in Hp1. symmetry in Hp1.
    apply positive_at_inv in Hp1 as (y & Hy & -> & ?). eauto. }
  destruct (rq_side rq) eqn:Hs.
  - destruct (Hp (rf_priced _ Hrq Hs)) as [_ [x Hx]].
    assert (cur = quote_currency_of m (sd_currencies (odb_settle d)) ∧
            amt = lockAmountQuote (default 0 (on_price n)) (on_qty n) 8) as [-> ->].
    { destruct (rf_priced _ Hrq Hs) as [Ht|Ht]; rewrite Ht in El; simpl in El; by simplify_eq. }
    split; [unfold currencies_of, market_currency; by rewrite Em|].
    eapply (backed_intro rq n _ q); try done; by rewrite Hs.
  - injection El as <- <-. split; [unfold currencies_of, market_currency; by rewrite Em|].
    eapply (backed_intro rq n _ q); try done; rewrite Hs; [done|]. unfold lockAmountBase. by rewrite Hq, toDP_idem.
Qed.

(** An id that [uuid_generate_v4] has not given before. *)
Definition fresh (id : string) (d : orders_db) : Prop := terms d !! id = None ∧ order_of d id = None.

Lemma insert_kept id t o amt b' d :
  orders_inv d → fresh id d → spot_order_ok t o →
  unlock_amount (ot_side t) (ot_price t) (ot_stop_price t) o ≤ amt →
  shifted (ot_user t) (currencies_of d (ot_market t) (ot_side t)) amt (sd_balances (odb_settle d)) b' →
  orders_inv (put_terms id t (put_order id o (sput b' d))).
Proof.
  intros Hinv [Ht Ho] Hok Hle Hs. pose proof Hinv as [Hwf _ _].
  eapply (inv_put _ _ id t o); [exact Hinv|exact (book_insert (sput b' d) id _ _)|done|done|by apply Hs|].
  intros u c. unfold claim_at. replace (book d !! id) with (@None (spot_terms * spot_order)).
  2: { symmetry. unfold book. rewrite map_lookup_zip_with, Ht. done. }
  pose proof (shifted_locked (ot_user t) (currencies_of d (ot_market t) (ot_side t)) amt u c d
    (put_terms id t (put_order id o (sput b' d))) Hs) as ->. unfold order_claim.
  pose proof (ok_filled _ _ Hok) as Hf.
  pose proof (need_nonneg t o (so_quantity o - so_filled o) Hok ltac:(lia)) as Hn.
  rewrite <- (unlock_exact t o Hok) in Hn.
  destruct (String.eqb (ot_user t) u), (String.eqb _ c); simpl; try lia. destruct (cancellable _); lia.
Qed.

Lemma placed_kept cf rq id n cur amt d d' :
  orders_inv d → fresh id d → backed rq n amt → cur = currencies_of d (rq_market rq) (rq_side rq) →
  placed cf rq id n cur amt d d' → orders_inv d'.
Proof.
  intros Hinv Hf Hb -> (e & b' & Hs & _ & ->).
  destruct (Hb (placed_terms rq n e) (placed_order cf rq n)) as [Hok Hle]; [done..|].
  by apply (insert_kept id (placed_terms rq n e) (placed_order cf rq n) amt).
Qed.

Lemma undone_kept cf rq id n amt d d' :
  orders_inv d → fresh id d → backed rq n amt → undone cf rq id n d d' →
  balances_wf (sd_balances (odb_settle d')) → orders_inv d'.
Proof.
  intros Hinv [Ht Ho] Hb (e & b' & Hr & ->) Hwf'. pose proof Hinv as [Hwf _ _].
  destruct (Hb (placed_terms rq n e) (placed_order cf rq n)) as [Hok _]; [done..|].
  eapply (inv_put _ _ id _ _); [exact Hinv|exact (book_insert (sput b' d) id _ _)|done| |exact Hwf'|].
  { by apply order_ok_status. }
  intros u c. rewrite claim_closed by done. unfold claim_at, locked; simpl. rewrite Hr.
  unfold book. by rewrite map_lookup_zip_with, Ht.
Qed.

Lemma undo_wf cf pw id user cur amt d x d' :
  undo_place cf pw id user cur amt d = Ret (x, d') →
  balances_wf (sd_balances (odb_settle d)) → balances_wf (sd_balances (odb_settle d')).
Proof.
  intros Hrun Hwf. unfold undo_place in Hrun. apply bind_Ret_inv in Hrun as ([] & d1 & H1 & Hrun).
  apply zoom_inv in Hrun as (b' & Hb & ->). apply unlock_shifted in Hb as (_ & _ & Hb). apply Hb.
  by apply write_status_inv in H1 as [[_ ->]|(o & _ & _ & ->)].
Qed.

Lemma placeOrder_kept cf pw rq id d :
  orders_inv d → fresh id d → market_fine rq d → request_fine rq →
  hoare (at_db (λ x, x = d)) (placeOrder cf pw rq id) (λ _, at_db orders_inv) (λ _, False).
Proof.
  intros Hinv Hf Hm Hrq. unfold placeOrder.
  destruct (pw_gate pw) as [code|]; [by apply hoare_ret; intros s <-|].
  destruct (body_refusal rq) as [code|] eqn:Hbody; [by apply hoare_ret; intros s <-|].
  apply (hoare_catch _ _ _ _ (at_db orders_inv)); last first.
  { intros msg. apply (hoare_bind _ _ (λ _, at_db orders_inv)); [|intros []; by apply hoare_ret].
    eapply hoare_catch; [|intros e; by apply hoare_ret; intros s Hs; exact Hs].
    apply (hoare_tx _ _ (λ _, orders_inv)); [|done]. intros x Hx. by apply (inv_same x). }
  unfold place_body.
  apply (hoare_bind _ _ (λ a, at_db (λ x, a = decide_place cf rq d ∧ x = d))).
  { apply hoare_tx; [by intros x ->|by intros x ->]. }
  intros a. apply (hoare_pre _ (λ n, a = decide_place cf rq d ∧ at_db (λ x, x = d) n)); [done|].
  apply hoare_pure. intros ->. destruct (decide_place cf rq d) as [code|e|msg|n cur amt] eqn:Ed.
  1,2: by apply hoare_ret; intros s <-.
  { by apply hoare_throw; intros s <-. }
  destruct (decide_place_backed _ _ _ _ _ _ Hbody Hm Hrq Ed) as [Hcur Hb].
  assert (∀ d', placed cf rq id n cur amt d d' → orders_inv d') as Hpl by (intros d'; by apply placed_kept).
  assert (hoare (at_db (placed cf rq id n cur amt d)) (after_place pw id) (λ _, at_db orders_inv)
    (at_db orders_inv)) as Hafter.
  { unfold after_place. destruct (pw_handover pw); [apply hoare_throw|apply hoare_ret];
      intros n1 Hs; by apply Hpl. }
  apply (hoare_bind _ _ (λ _, at_db (placed cf rq id n cur amt d))).
  { apply hoare_tx; [|by intros x ->]. intros x ->.
    destruct (place_tx _ _ _ _ _ _ _ _) as [[e d']|] eqn:E; [|done]. by apply place_tx_inv in E as [? _]. }
  intros [e|]; [|exact Hafter].
  apply (hoare_bind _ _ (λ _, at_db (placed cf rq id n cur amt d))); [by apply hoare_send|].
  intros [|]; [exact Hafter|].
  apply (hoare_bind _ _ (λ _, at_db orders_inv)); [|intros []; by apply hoare_ret].
  apply (hoare_catch _ _ _ _ (at_db (placed cf rq id n cur amt d))).
  2: { intros e'. apply hoare_ret. intros s Hs. by apply Hpl. }
  apply hoare_tx; [|done]. intros x Hx. destruct (undo_place _ _ _ _ _ _ _) as [[[] d']|] eqn:E; [|done].
  pose proof (undo_place_inv _ _ _ _ _ _ _ _ _ _ _ Hx E) as [_ Hund].
  eapply undone_kept; [done..|]. eapply undo_wf; [exact E|]. by apply Hpl.
Qed.

(** *** Reserving *)
Lemma decide_reserve_backed rq d n cur amt :
  request_fine rq → rq_type rq ≠ OStopLimit → (rq_side rq = Buy → rq_price rq ≠ None) → decide_reserve rq d = DPlace n cur amt →
  cur = currencies_of d (rq_market rq) (rq_side rq) ∧ on_stop n = None ∧ backed rq n amt.
Proof.
  intros Hrq Hty Hpr Hdec. unfold decide_reserve in Hdec.
  destruct (markets _ !! _) as [m|] eqn:Em; [|done]. destruct (rules d !! _) as [r|]; [|done].
  destruct (negb _); [done|]. destruct (reserve_numbers r rq) as [[qr price]|] eqn:En; [|done].
  cbv zeta in Hdec. destruct (_ || _); [done|]. destruct (_ && _) eqn:Emk; [done|].
  destruct (_ ≫= _); [done|]. injection Hdec as <- <- <-.
  assert (∃ q, rq_quantity rq = Fin q ∧ 0 < q ∧ qr = toDP 8 q) as (q & Hq & Hq0 & ->).
  { unfold reserve_numbers in En. repeat (case_match; try discriminate); simplify_eq; bool_prop;
      eexists; (split; [done|]); (split; [lia|done]). }
  assert (rq_side rq = Buy → ∃ y, rq_price rq = Some (Fin y) ∧ price = Some (toDP 8 y) ∧ 0 < toDP 8 y) as Hbuy.
  { intros Hs. destruct (rf_priced _ Hrq Hs) as [Ht|Ht]; [|done].
    unfold reserve_numbers in En. rewrite Hq, Ht in En. specialize (Hpr Hs).
    destruct (rq_price rq) as [v|]; [|done]. destruct (_ <=? _); [done|].
    destruct (positive_at 8 (Some v)) as [x|] eqn:Ex; [|done]. simpl in En.
    apply positive_at_inv in Ex as (y & [= ->] & -> & Hy).
    repeat (case_match; try discriminate); simplify_eq; eauto. }
  split; [|split; [done|]].
  - unfold currencies_of, market_currency. rewrite Em. by destruct (rq_side rq).
  - eapply (backed_intro rq _ _ q 8); try done.
    destruct (rq_side rq) eqn:Hs; [|simpl; unfold lockAmountBase; by rewrite toDP_idem].
    destruct (Hbuy eq_refl) as (y & _ & -> & _). done.
Qed.

Lemma reserve_tx_kept cf rq id uuid n amt d x d' :
  orders_inv d → fresh id d → on_stop n = None → backed rq n amt →
  reserve_tx cf rq id uuid n (currencies_of d (rq_market rq) (rq_side rq)) amt d = Ret (x, d') → orders_inv d'.
Proof.
  intros Hinv Hf Hst Hb Hrun. unfold reserve_tx in Hrun.
  apply bind_Ret_inv in Hrun as (ex & d1 & H1 & Hrun). apply gets_inv in H1 as [-> ->].
  apply bind_Ret_inv in Hrun as (? & d1 & H1 & Hrun). apply require_inv in H1 as [_ ->].
  destruct (_ ≫= _); [by apply ret_inv in Hrun as [_ ->]|].
  apply bind_Ret_inv in Hrun as (l & d1 & H1 & Hrun). apply zoom_inv in H1 as (b & Hlock & ->).
  apply bind_Ret_inv in Hrun as (? & d2 & H1 & Hrun). apply require_inv in H1 as [-> ->].
  apply bind_Ret_inv in Hrun as (? & d2 & H1 & Hrun). apply require_inv in H1 as [_ ->].
  apply bind_Ret_inv in Hrun as (? & d2 & H1 & Hrun). apply ret_inv in Hrun as [_ ->].
  apply insert_order_inv in H1 as (_ & _ & ->). apply lock_shifted in Hlock.
  set (t := SpotTerms (rq_user rq) (rq_market rq) (rq_side rq) (rq_type rq) (on_price n) None None None
    GTC (rq_client_id rq) "default").
  by apply (insert_kept id t _ amt b d Hinv Hf); [apply Hb|apply Hb|exact Hlock].
Qed.

Lemma reserveOrder_kept cf gate rq id uuid d :
  orders_inv d → fresh id d → request_fine rq → (rq_side rq = Buy → rq_price rq ≠ None) →
  hoare (at_db (λ x, x = d)) (reserveOrder cf gate rq id uuid) (λ _, at_db orders_inv) (λ _, False).
Proof.
  intros Hinv Hf Hrq Hpr. unfold reserveOrder.
  destruct gate as [code|]; [by apply hoare_ret; intros s <-|].
  destruct (bool_decide _) eqn:Ety; simpl; [|by apply hoare_ret; intros s <-].
  apply (hoare_catch _ _ _ _ (at_db orders_inv)); [|by intros msg; apply hoare_ret].
  apply (hoare_bind _ _ (λ a, at_db (λ x, a = decide_reserve rq d ∧ x = d))).
  { apply hoare_tx; [by intros x ->|by intros x ->]. }
  intros a. apply (hoare_pre _ (λ n, a = decide_reserve rq d ∧ at_db (λ x, x = d) n)); [done|].
  apply hoare_pure. intros ->. destruct (decide_reserve rq d) as [code|e|msg|n cur amt] eqn:Ed.
  1,2: by apply hoare_ret; intros s <-.
  { by apply hoare_throw; intros s <-. }
  apply decide_reserve_backed in Ed as (-> & Hst & Hb); [|done|by intros Ht; rewrite Ht in Ety|done].
  apply (hoare_bind _ _ (λ _, at_db orders_inv)); [|intros x; by apply hoare_ret].
  apply hoare_tx; [|by intros x ->]. intros x ->.
  destruct (reserve_tx _ _ _ _ _ _ _ _) as [[y d']|] eqn:E; [|done]. by eapply reserve_tx_kept.
Qed.
End Cover.
