(* ===== verification/OrdersRuns.v ===== *)
(** * Spot orders: runs with settlement

    The settlement of a match between open orders keeps them covered, so that over all runs
    of the order routes, the stop triggers, the admin's route and the settlements of fair
    matches the locked funds cover the open orders; an open order can then be cancelled. *)
From stdpp Require Import base gmap strings list fin_maps.
From Stdlib Require Import ZArith Lia.
From S2P Require Import Prelude Money Balances Escrow Halt SettlementModel Settlement OrdersModel Orders.
Local Open Scope Z_scope.
Local Open Scope prog_scope.

Section Settled.
Context `{DecimalJs, Runtime}.

(** ** The orders after a settlement *)
Lemma record_trade_orders env row m a deltas d d' :
  record_trade env row m a deltas d = Ret (tt, d') →
  let p := row_payload row in
  let fill := filled_order (spotOrdersUnified env) (am_qty a) in
  ∃ ot om, spot_orders d !! taker_order_id p = Some ot ∧
    <[taker_order_id p := fill ot]> (spot_orders d) !! maker_order_id p = Some om ∧
    spot_orders d' = <[maker_order_id p := fill om]> (<[taker_order_id p := fill ot]> (spot_orders d)).
Proof.
  intros Hrun. cbv zeta. unfold record_trade in Hrun.
  apply bind_Ret_inv in Hrun as (ev & ? & H1 & Hrun). apply gets_inv in H1 as [-> ->].
  apply bind_Ret_inv in Hrun as (? & ? & H1 & Hrun). apply require_inv in H1 as [_ ->].
  apply bind_Ret_inv in Hrun as (? & d1 & H1 & Hrun). apply modify_inv in H1 as ->.
  apply bind_Ret_inv in Hrun as ([] & d2 & H2 & Hrun).
  apply bind_Ret_inv in Hrun as ([] & d3 & H3 & Hrun). apply insertSpotTrades_frame in H3 as [_ H3].
  apply modify_inv in Hrun as ->. cbn [spot_orders set_events]. rewrite H3.
  unfold updateSpotOrdersFilledAfterMatch in H2. apply bind_Ret_inv in H2 as ([] & d4 & H4 & H2).
  apply fill_order_inv in H4 as (ot & Hot & ->), H2 as (om & Hom & ->). by exists ot, om.
Qed.

Lemma settled_tables env row d m a n d' :
  settle_input row d m a → processSettlementEventRow env row d = Ret (Some n, d') →
  let p := row_payload row in
  let fill := filled_order (spotOrdersUnified env) (am_qty a) in
  markets d' = markets d ∧ sd_currencies d' = sd_currencies d ∧
  ∃ ot om, spot_orders d !! taker_order_id p = Some ot ∧
    <[taker_order_id p := fill ot]> (spot_orders d) !! maker_order_id p = Some om ∧
    spot_orders d' = <[maker_order_id p := fill om]> (<[taker_order_id p := fill ot]> (spot_orders d)).
Proof.
  intros Hi Hrun. apply process_inv in Hrun as [(_ & [=] & _)|(_ & m' & a' & Hm' & Ha' & _ & Hs)].
  assert (m' = m) as -> by (destruct Hi; congruence).
  assert (a' = a) as -> by (destruct Hi; congruence).
  destruct Hs as (_ & _ & _ & _ & d1 & Hmv & Hrt).
  apply move_funds_inv in Hmv as (b0 & b1 & _ & _ & _ & _ & _ & _ & _ & _ & _ & Hm1 & Hc1 & _ & Ho1).
  pose proof (record_trade_inv _ _ _ _ _ _ _ Hrt) as (_ & _ & _ & _ & _ & Hm2 & Hc2 & _).
  apply record_trade_orders in Hrt. rewrite Ho1 in Hrt. split; [congruence|]. split; [congruence|]. exact Hrt.
Qed.

(** ** One fill *)
Lemma toDP_coarser p x : p ≤ 8 → 0 ≤ x → toDP p x ≤ toDP 8 x.
Proof.
  intros Hp Hx. rewrite <- (toDP_exact 8 (toDP p x)) by (by apply toDP_divide).
  apply trunc_mono; [apply ulp_pos|]. by apply toDP_bounds.
Qed.

(** What the trade takes from the buyer's lock is at most what the limit price asks. *)
Lemma trade_value_le limit pr q qp :
  qp ≤ 8 → 0 ≤ pr ≤ limit → 0 ≤ q → (ulp 8 | pr) → (ulp 8 | q) →
  toDP qp (tradeValue pr q) ≤ exactQuote limit q.
Proof.
  intros Hqp [Hpr Hle] Hq Hdp Hdq. pose proof one_pos.
  assert (0 ≤ Z.quot (pr * q) one) as Hq0 by (apply Z.quot_pos; nia).
  pose proof (sig_bounds _ Hq0) as Hs. etransitivity; [apply toDP_coarser; [done|apply Hs]|].
  unfold exactQuote, tradeValue, dtimes. apply trunc_mono; [apply ulp_pos|].
  etransitivity; [apply Hs|]. apply Z.quot_le_mono; [done|]. rewrite (toDP_exact 8 q) by done.
  assert (pr ≤ toDP 8 limit) by (rewrite <- (toDP_exact 8 pr) by done; apply trunc_mono; [apply ulp_pos|done]).
  nia.
Qed.

Definition on_account (cur : string → side → string) (t : spot_terms) (u c : string) : bool :=
  String.eqb (ot_user t) u && String.eqb (cur (ot_market t) (ot_side t)) c.

Lemma fill_claim cur un t o q v :
  spot_order_ok t o → cancellable (so_status o) = true → 0 ≤ q ≤ so_quantity o - so_filled o → (ulp 8 | q) →
  v ≤ need t q →
  spot_order_ok t (filled_order un q o) ∧
  ∀ u c, order_claim cur u c t (filled_order un q o) ≤ order_claim cur u c t o - (if on_account cur t u c then v else 0).
Proof.
  intros Ho Hc Hq Hd Hv. pose proof Ho as [Hf [Hd1 Hd2] Hr Hp].
  assert (spot_order_ok t (filled_order un q o)) as Ho'.
  { split; simpl; [lia| |done|done]. split; [done|]. by apply Z.divide_add_r. }
  split; [done|]. intros u c. unfold on_account.
  pose proof (need_split t o q (so_quantity o - so_filled o - q) Ho ltac:(lia) ltac:(lia)) as Hs.
  replace (q + (so_quantity o - so_filled o - q)) with (so_quantity o - so_filled o) in Hs by lia.
  pose proof (need_nonneg t o (so_quantity o - so_filled o - q) Ho ltac:(lia)).
  unfold order_claim. rewrite Hc, (unlock_exact t o Ho), (unlock_exact t _ Ho'). simpl.
  replace (so_quantity o - (so_filled o + q)) with (so_quantity o - so_filled o - q) by lia.
  destruct (_ && String.eqb _ _); simpl; [|lia].
  case_match; lia.
Qed.

(** ** A match between two open orders *)
Definition buyer_order (p : EnginePayload) : string :=
  match taker_side p with Buy => taker_order_id p | Sell => maker_order_id p end.
Definition seller_order (p : EnginePayload) : string :=
  match taker_side p with Buy => maker_order_id p | Sell => taker_order_id p end.
Definition buyer (p : EnginePayload) : string :=
  match taker_side p with Buy => taker_user_id p | Sell => maker_user_id p end.
Definition seller (p : EnginePayload) : string :=
  match taker_side p with Buy => maker_user_id p | Sell => taker_user_id p end.

(** The order [id] of [user] is open on that side of the market and has [q] left. *)
Record takes_part (d : orders_db) (id user market : string) (sd : side) (q : Z) (t : spot_terms)
    (o : spot_order) : Prop := {
  tp_row : book d !! id = Some (t, o);
  tp_user : ot_user t = user;
  tp_market : ot_market t = market;
  tp_side : ot_side t = sd;
  tp_open : cancellable (so_status o) = true;
  tp_left : 0 ≤ q ≤ so_quantity o - so_filled o;
}.

(** A fair match: it is between a buy and a sell order for no more than either has left, at a
    price within the buyer's limit, all with 8 places, and the names of the market resolve to
    the currencies the orders were placed with. That the rows of both orders are still open
    when the match is settled is a condition on the run, not a promise of the engine: an order
    can be cancelled between its match and the settlement. *)
Record fair_match (row : SettlementRow) (m : market_assets) (a : trade_amounts) (d : orders_db) : Prop := {
  fm_base : base_currency_id m = currencies_of d (symbol (row_payload row)) Sell;
  fm_quote : quote_currency_id m = currencies_of d (symbol (row_payload row)) Buy;
  fm_precision : quote_precision m ≤ 8;
  fm_buy : ∃ t o pr, let p := row_payload row in
    takes_part d (buyer_order p) (buyer p) (symbol p) Buy (am_qty a) t o ∧
    parse_decimal (price p) = Some (Fin pr) ∧ parse_decimal (qty p) = Some (Fin (am_qty a)) ∧
    (ulp 8 | pr) ∧ 0 ≤ pr ≤ default 0 (ot_price t);
  fm_sell : ∃ t o, let p := row_payload row in
    takes_part d (seller_order p) (seller p) (symbol p) Sell (am_qty a) t o;
  fm_places : (ulp 8 | am_qty a);
}.

Definition settled_into (s : settle_db) (d : orders_db) : orders_db :=
  OrdersDb s (terms d) (rules d) (circuit d).

Lemma at_key_trading u c f u1 c1 x y :
  at_key (trading_key u c) f (Movement (trading_key u1 c1) x y)
  = if String.eqb u1 u && String.eqb c1 c then f (Movement (trading_key u1 c1) x y) else 0.
Proof.
  unfold at_key; simpl. destruct (String.eqb_spec u1 u) as [->|], (String.eqb_spec c1 c) as [->|]; simpl;
    first [by rewrite decide_True|rewrite decide_False; [done|rewrite trading_key_inj; congruence]].
Qed.

(** The buyer's lock pays the trade value, the seller's the quantity. *)
Lemma settled_locked env row d m a n s' u c :
  settle_input row (odb_settle d) m a →
  processSettlementEventRow env row (odb_settle d) = Ret (Some n, s') →
  let p := row_payload row in
  locked u c (settled_into s' d) = locked u c d
    - (if String.eqb (buyer p) u && String.eqb (quote_currency_id m) c then am_tradeVal a else 0)
    - (if String.eqb (seller p) u && String.eqb (base_currency_id m) c then am_qty a else 0).
Proof.
  intros Hi Hrun. cbv zeta.
  destruct (settled_inv _ _ _ _ _ _ _ Hi Hrun) as (_ & _ & _ & [Hr _ _] & _).
  unfold locked. cbn [odb_settle settled_into]. rewrite Hr. clear Hr.
  unfold moved, add_buckets, trade_moves, buyer, seller. cbn [locked_balance].
  destruct (taker_side _); unfold lsum, foldr; rewrite !at_key_trading; cbn [mv_locked];
    repeat (destruct (String.eqb _ _); simpl); lia.
Qed.

Lemma book_two_fills d s' i1 i2 t1 t2 o1 o2 :
  terms d !! i1 = Some t1 → terms d !! i2 = Some t2 →
  spot_orders s' = <[i2 := o2]> (<[i1 := o1]> (spot_orders (odb_settle d))) →
  book (settled_into s' d) = <[i2 := (t2, o2)]> (<[i1 := (t1, o1)]> (book d)).
Proof.
  intros H1 H2 Hs. unfold book. cbn [odb_settle settled_into terms]. rewrite Hs.
  rewrite <- (insert_id (terms d) i2 t2 H2) at 1. rewrite map_insert_zip_with.
  rewrite <- (insert_id (terms d) i1 t1 H1) at 1. by rewrite map_insert_zip_with.
Qed.

Lemma settled_book env row d m a n s' tb ob ts os :
  settle_input row (odb_settle d) m a →
  processSettlementEventRow env row (odb_settle d) = Ret (Some n, s') →
  let p := row_payload row in
  let fill := filled_order (spotOrdersUnified env) (am_qty a) in
  book d !! buyer_order p = Some (tb, ob) → book d !! seller_order p = Some (ts, os) →
  buyer_order p ≠ seller_order p →
  book (settled_into s' d)
  = <[seller_order p := (ts, fill os)]> (<[buyer_order p := (tb, fill ob)]> (book d)).
Proof.
  intros Hi Hrun p fill. unfold buyer_order, seller_order.
  destruct (settled_tables _ _ _ _ _ _ _ Hi Hrun) as (_ & _ & o1 & o2 & Ho1 & Ho2 & Hs).
  fold p in Ho1, Ho2, Hs. fold fill in Ho2, Hs. intros [Htb Hob]%book_lookup [Hts Hos]%book_lookup Hne.
  unfold order_of in Hob, Hos. destruct (taker_side p).
  - rewrite lookup_insert_ne in Ho2 by done. assert (o1 = ob ∧ o2 = os) as [-> ->] by (split; congruence).
    by apply book_two_fills.
  - rewrite lookup_insert_ne in Ho2 by done. assert (o1 = os ∧ o2 = ob) as [-> ->] by (split; congruence).
    rewrite insert_insert_ne by done. by apply book_two_fills.
Qed.

(** Settling a fair match keeps the open orders covered. *)
Lemma settlement_kept env row d m a n s' :
  orders_inv d → settle_input row (odb_settle d) m a → fair_match row m a d →
  processSettlementEventRow env row (odb_settle d) = Ret (Some n, s') →
  orders_inv (settled_into s' d).
Proof.
  intros Hinv Hi [Hb Hq Hqp (tb & ob & pr & [Hbb Hub Hmb Hsb Hcb Hlb] & Hpr & Hqt & Hd & Hlim)
    (ts & os & [Hbs Hus Hms Hss Hcs Hls]) Hpl] Hrun.
  pose proof Hinv as [Hwf Hok Hcov]. pose proof (settled_wf _ _ _ _ _ _ _ Hi Hrun Hwf) as Hwf'.
  pose proof (Hok _ _ _ Hbb) as Hob. pose proof (Hok _ _ _ Hbs) as Hos.
  set (p := row_payload row) in *. set (q := am_qty a) in *. set (un := spotOrdersUnified env).
  assert (am_tradeVal a ≤ need tb q) as Hv.
  { unfold need. rewrite Hsb.
    pose proof (settlement_amounts_inv _ _ _ _ _ (si_amounts _ _ _ _ Hi)) as (_ & pr' & q' & Hp' & Hq' & _ & ->).
    fold p in Hp', Hq'. rewrite Hpr in Hp'. rewrite Hqt in Hq'. injection Hp' as <-. injection Hq' as Hq'.
    cbn [am_tradeVal amounts_of]. rewrite <- Hq'. apply trade_value_le; try done. lia. }
  destruct (fill_claim (currencies_of d) un tb ob q _ Hob Hcb Hlb Hpl Hv) as [Hob' Hfb].
  assert (q ≤ need ts q) as Hv2 by (unfold need; rewrite Hss; lia).
  destruct (fill_claim (currencies_of d) un ts os q _ Hos Hcs Hls Hpl Hv2) as [Hos' Hfs].
  assert (buyer_order p ≠ seller_order p) as Hne.
  { intros Heq. rewrite Heq, Hbs in Hbb. congruence. }
  assert (book (settled_into s' d)
    = <[seller_order p := (ts, filled_order un q os)]> (<[buyer_order p := (tb, filled_order un q ob)]> (book d))) as Hbook.
  { by apply (settled_book env row d m a n s'). }
  assert (currencies_of (settled_into s' d) = currencies_of d) as Hcur.
  { destruct (settled_tables _ _ _ _ _ _ _ Hi Hrun) as (Hm & Hc & _).
    unfold currencies_of, market_currency. cbn [odb_settle settled_into]. by rewrite Hm, Hc. }
  split; [done| |].
  - intros i t o Hio. rewrite Hbook in Hio.
    apply lookup_insert_Some in Hio as [[_ [= <- <-]]|[_ Hio]]; [done|].
    apply lookup_insert_Some in Hio as [[_ [= <- <-]]|[_ Hio]]; eauto.
  - intros u c. unfold owed_locks. rewrite Hbook, Hcur, !owed_insert.
    rewrite (settled_locked _ _ _ _ _ _ _ u c Hi Hrun). fold p q.
    unfold claim_at. rewrite lookup_insert_ne, Hbs, Hbb by done.
    specialize (Hcov u c). unfold owed_locks in Hcov. specialize (Hfb u c). specialize (Hfs u c).
    unfold on_account in Hfb, Hfs. rewrite Hub, Hmb, Hsb, <- Hq in Hfb. rewrite Hus, Hms, Hss, <- Hb in Hfs. lia.
Qed.

(** ** Runs *)
(** A run of a process from the tables [d], stopped after some statement or not. *)
Definition ran {A} (p : Proc onode A) (d d' : orders_db) : Prop :=
  ∃ sent budget, nd_db (snd (p (Node d sent budget))) = d'.

Lemma ran_hoare {A} (p : Proc onode A) (I J : orders_db → Prop) d d' :
  hoare (at_ J) p (λ _, at_ I) (at_ I) → J d → ran p d d' → I d'.
Proof.
  intros Hp Hd (sent & budget & <-). specialize (Hp (Node d sent budget) Hd).
  by destruct (p _) as [[a|e] n].
Qed.

(** One request, job or settled match, whole or stopped somewhere, after the one before; the
    ids of new orders are fresh, markets and requests are in range ([market_fine],
    [request_fine]: no market or trailing or plain stop buys, prices with 8 decimals), and
    matches are fair. Requests that overlap are not covered, and two cancels of one order do
    break the invariant ([OrdersFaults.two_cancels_release_twice]); a coarser price precision
    does too ([OrdersFaults.tiny_order_frees_locks]). *)
Inductive order_step (cf : spot_config) (d : orders_db) : orders_db → Prop :=
  | step_place pw rq id d' :
      fresh id d → market_fine rq d → request_fine rq → ran (placeOrder cf pw rq id) d d' →
      order_step cf d d'
  | step_reserve gate rq id uuid d' :
      fresh id d → request_fine rq → (rq_side rq = Buy → rq_price rq ≠ None) →
      ran (reserveOrder cf gate rq id uuid) d d' → order_step cf d d'
  | step_cancel user id uuid accepted d' :
      ran (cancelSpotOrder cf user id uuid accepted) d d' → order_step cf d d'
  | step_cancel_all user market uuid accepted d' :
      ran (cancelAll cf user market uuid accepted) d d' → order_step cf d d'
  | step_admin market k d' :
      adminCancelAll (cf_unified cf) market d = Ret (k, d') → order_step cf d d'
  | step_trigger healthy accepted d' :
      ran (processTriggeredStopOrders cf healthy accepted) d d' → order_step cf d d'
  | step_settle env row m a n s' :
      settle_input row (odb_settle d) m a → fair_match row m a d →
      processSettlementEventRow env row (odb_settle d) = Ret (Some n, s') →
      order_step cf d (settled_into s' d).

Lemma at_false {D X} (P : D → Prop) (n : node D X) : False → at_ P n.
Proof. done. Qed.

Lemma order_step_kept cf d d' : orders_inv d → order_step cf d d' → orders_inv d'.
Proof.
  intros Hinv [pw rq id d1 Hf Hm Hr Hrun|gate rq id uuid d1 Hf Hr Hp Hrun|user id uuid acc d1 Hrun
    |user market uuid acc d1 Hrun|market k d1 Hrun|healthy acc d1 Hrun|env row m a n s' Hi Hfm Hrun].
  - eapply ran_hoare; [eapply hoare_post_throw; [|by apply placeOrder_kept]|done|done]. by intros ? [].
  - eapply ran_hoare; [eapply hoare_post_throw; [|by apply reserveOrder_kept]|done|done]. by intros ? [].
  - eapply ran_hoare; [eapply hoare_post_throw; [|by apply cancelSpotOrder_kept]|done|done]. by intros ? [].
  - eapply ran_hoare; [eapply hoare_post_throw; [|by apply cancelAll_kept]|done|done]. by intros ? [].
  - by apply (adminCancelAll_kept _ _ _ _ _ Hinv Hrun).
  - by eapply ran_hoare; [apply trigger_kept|done|done].
  - by eapply settlement_kept.
Qed.

Lemma order_runs_kept cf d d' : orders_inv d → rtc (order_step cf) d d' → orders_inv d'.
Proof. intros Hinv Hrun. by eapply (rtc_invariant (order_step cf)); [apply order_step_kept|..]. Qed.

(** C18. Locked funds cover the open orders. Over every run of placements, reservations, single
    and bulk cancels, the admin's cancel, stop triggers and settlements of fair matches, one
    after the other, each stopped after any statement, in either layout and with any answers
    of the engine: what is locked on every trading account is at least the sum of what
    cancelling each of its open orders would release, and no balance is negative. Conditions:
    calls do not overlap, buy orders name a price, prices have 8 decimals and quantities at
    most 8, and a match is settled while both of its orders are open. *)
Theorem orders_stay_covered (cf : spot_config) (d d' : orders_db) :
  orders_inv d → rtc (order_step cf) d d' →
  (∀ u c, owed_locks u c d' ≤ locked u c d') ∧ balances_wf (sd_balances (odb_settle d')).
Proof. intros Hinv Hrun. by destruct (order_runs_kept _ _ _ Hinv Hrun) as [? _ ?]. Qed.

(** ** An open order can be cancelled *)
Lemma claim_at_le d u c id : orders_inv d → claim_at (currencies_of d) u c id (book d) ≤ locked u c d.
Proof.
  intros [Hwf Hok Hcov]. specialize (Hcov u c). unfold owed_locks in Hcov. unfold claim_at.
  assert (∀ b : gmap string (spot_terms * spot_order),
    (∀ i t o, b !! i = Some (t, o) → spot_order_ok t o) →
    0 ≤ msum (λ _ x, order_claim (currencies_of d) u c (fst x) (snd x)) b) as Hnn.
  { intros b Hb. apply msum_nonneg. intros i [t o] Hi. by apply claim_bounds, (Hb i). }
  destruct (book d !! id) as [[t o]|] eqn:E.
  - rewrite (msum_lookup _ _ _ _ E) in Hcov. simpl in Hcov.
    assert (0 ≤ msum (λ _ x, order_claim (currencies_of d) u c (fst x) (snd x)) (delete id (book d))); [|lia].
    apply Hnn. intros i t' o' [_ Hi]%lookup_delete_Some. eauto.
  - specialize (Hnn _ Hok). lia.
Qed.

(** The message for the engine, if the engine has the order. *)
Definition engine_cancel (cf : spot_config) (id user : string) (t : spot_terms) : list engine_msg :=
  if negb (cf_rust_enabled cf) || is_stop (ot_type t) || String.eqb (ot_engine t) "node" then []
  else [ECancel id (ot_engine t) user].

Lemma engine_cancel_run cf id user t accepted d sent :
  accepted = true →
  cancelOnMatchingEngineIfNeeded cf id user t accepted (Node d sent None)
  = (Ret true, Node d (sent ++ engine_cancel cf id user t) None).
Proof.
  intros ->. unfold cancelOnMatchingEngineIfNeeded, engine_cancel.
  destruct (_ || _); [by rewrite app_nil_r|]. done.
Qed.

(** The handler up to its last transaction. *)
Lemma cancelSpotOrder_run cf user id uuid d sent t o :
  terms d !! id = Some t → order_of d id = Some o → ot_user t = user → cancellable (so_status o) = true →
  let amt := unlock_amount (ot_side t) (ot_price t) (ot_stop_price t) o in
  let cp := CancelPlan t (currencies_of d (ot_market t) (ot_side t)) amt in
  let sent' := sent ++ engine_cancel cf id user t in
  cancelSpotOrder cf user id uuid true (Node d sent None)
  = match cancel_commit (cf_unified cf) "cancelled" user id uuid cp d with
    | Ret (_, d') => (Ret CCancelled, Node d' sent' None)
    | Throw e => (Ret (CFailed e), Node d sent' None)
    end.
Proof.
  intros Ht Ho Hu Hc amt cp sent'. unfold cancelSpotOrder, try_catch.
  assert (cancel_reads user id d = inl cp) as Hr.
  { unfold cancel_reads. by rewrite Ht, Ho, Hu, String.eqb_refl, Hc. }
  rewrite (pbind_tx (gets (cancel_reads user id)) _ (Node d sent None) (inl cp) d);
    [|done|unfold gets; cbn [nd_db]; by rewrite Hr].
  unfold pbind at 1. rewrite engine_cancel_run by done. simpl. fold sent'.
  unfold pbind, tx, transaction; simpl. by destruct (cancel_commit _ _ _ _ _ _ _) as [[[] d']|e].
Qed.

(** C19. In the older layout an open order can always be cancelled. After any run as in
    [orders_stay_covered] (calls that do not overlap, limit buys, 8 decimals, matches settled
    while their orders are open), a cancel by the owner that runs alone, if the process is not
    stopped and the engine agrees, answers that the order is cancelled; what the rest of the
    order still needs (the rest itself for a sell, price times the rest for a buy) goes from
    locked to available, the status becomes 'cancelled', and nothing else changes. *)
Theorem open_order_cancels (cf : spot_config) (d0 d : orders_db) (id uuid : string) (t : spot_terms)
    (o : spot_order) (sent : list engine_msg) :
  orders_inv d0 → rtc (order_step cf) d0 d → cf_unified cf = false →
  terms d !! id = Some t → order_of d id = Some o → cancellable (so_status o) = true →
  currencies_of d (ot_market t) (ot_side t) ≠ "" →
  ∃ d', cancelSpotOrder cf (ot_user t) id uuid true (Node d sent None)
          = (Ret CCancelled, Node d' (sent ++ engine_cancel cf id (ot_user t) t) None) ∧
    closed "cancelled" (ot_user t) id (currencies_of d (ot_market t) (ot_side t))
      (need t (so_quantity o - so_filled o)) o d d'.
Proof.
  intros Hinv0 Hrun Hun Ht Ho Hc Hcur. pose proof (order_runs_kept _ _ _ Hinv0 Hrun) as Hinv.
  rewrite (cancelSpotOrder_run cf _ id uuid d sent t o) by done. cbv zeta.
  assert (book d !! id = Some (t, o)) as Hb by (by apply book_lookup).
  pose proof Hinv as [Hwf Hok _]. pose proof (Hok _ _ _ Hb) as Hord. pose proof (ok_filled _ _ Hord).
  pose proof (claim_at_le d (ot_user t) (currencies_of d (ot_market t) (ot_side t)) id Hinv) as Hle.
  unfold claim_at, order_claim in Hle. rewrite Hb, !String.eqb_refl, Hc in Hle. simpl in Hle.
  rewrite (unlock_exact t o Hord) in *.
  pose proof (need_nonneg t o (so_quantity o - so_filled o) Hord ltac:(lia)).
  set (amt := need t _) in *. set (cur := currencies_of d _ _) in *.
  set (d1 := put_order id (set_status_so "cancelled" o) d).
  destruct (unlock_ok (ot_user t) cur amt None uuid (sd_balances (odb_settle d1)) Hwf) as (b' & Hb' & Hs).
  { split; [done|]. exact Hle. }
  exists (sput b' d1). split.
  - assert (cancel_commit (cf_unified cf) "cancelled" (ot_user t) id uuid (CancelPlan t cur amt) d
      = Ret (tt, sput b' d1)) as ->; [|done].
    unfold cancel_commit. erewrite bind_Ret.
    2: { unfold write_status. erewrite bind_Ret by reflexivity. rewrite Ho, Hun. reflexivity. }
    erewrite bind_Ret.
    2: { apply require_true, negb_true_iff. by apply String.eqb_neq. }
    by apply zoom_Ret.
  - exists b'. done.
Qed.
End Settled.
