(* ===== verification/OrdersFaults.v ===== *)
(** * Spot orders: where the code does not keep its promise

    Five behaviours of the order routes that lose or free funds, or stop trading, each
    stated for the handlers as they are. *)
From stdpp Require Import base gmap strings list fin_maps.
From Stdlib Require Import ZArith Lia.
From S2P Require Import Prelude Money Balances Escrow Halt SettlementModel Settlement OrdersModel Orders OrdersRuns.
Local Open Scope Z_scope.
Local Open Scope prog_scope.

Section Faults.
Context `{DecimalJs, Runtime}.

(** In the unified layout no single cancel works: for an open order of the caller, after
    the engine has agreed to drop the order, both cancel routes write the status 'cancelled',
    which the table's CHECK does not admit; the request fails, the order stays open in the
    table and its funds stay locked, while the engine no longer has it. *)
Theorem unified_cancel_always_fails (cf : spot_config) (id uuid : string) (d : orders_db) (t : spot_terms)
    (o : spot_order) (sent : list engine_msg) :
  cf_unified cf = true → terms d !! id = Some t → order_of d id = Some o →
  cancellable (so_status o) = true →
  cancelSpotOrder cf (ot_user t) id uuid true (Node d sent None)
  = (Ret (CFailed "violates check constraint spot_orders_status_check"),
     Node d (sent ++ engine_cancel cf id (ot_user t) t) None).
Proof.
  intros Hu Ht Ho Hc. rewrite (cancelSpotOrder_run cf _ id uuid d sent t o) by done. cbv zeta.
  unfold cancel_commit, write_status, bind, gets. rewrite Ho, Hu. done.
Qed.

(** ** A cancel that the tables allow *)
Lemma cancel_commit_ok st user id uuid cp o d :
  balances_wf (sd_balances (odb_settle d)) → order_of d id = Some o → st ∈ statuses false →
  cp_currency cp ≠ "" → 0 ≤ cp_amount cp ≤ locked user (cp_currency cp) d →
  ∃ d', cancel_commit false st user id uuid cp d = Ret (tt, d') ∧
    closed st user id (cp_currency cp) (cp_amount cp) o d d'.
Proof.
  intros Hwf Ho Hst Hcur Hamt. set (d1 := put_order id (set_status_so st o) d).
  destruct (unlock_ok user (cp_currency cp) (cp_amount cp) None uuid (sd_balances (odb_settle d1)) Hwf Hamt)
    as (b' & Hb' & Hs).
  exists (sput b' d1). split; [|by exists b'].
  unfold cancel_commit. erewrite bind_Ret.
  2: { unfold write_status. erewrite bind_Ret by reflexivity. rewrite Ho.
       erewrite bind_Ret; [reflexivity|]. by apply require_true, bool_decide_eq_true. }
  erewrite bind_Ret; [by apply zoom_Ret|]. by apply require_true, negb_true_iff, String.eqb_neq.
Qed.

(** Two cancels of one order release its funds twice. Both requests read the order while
    it is open; the transaction that closes it has no condition on the status. So in the older
    layout after the first has committed, the second also commits whenever the account has as
    much locked for other orders, and takes it from them. *)
Theorem two_cancels_release_twice (user id uuid1 uuid2 : string) (d : orders_db) (cp : cancel_plan) :
  orders_inv d → cancel_reads user id d = inl cp → cp_currency cp ≠ "" →
  2 * cp_amount cp ≤ locked user (cp_currency cp) d →
  ∃ d1 d2, cancel_commit false "cancelled" user id uuid1 cp d = Ret (tt, d1) ∧
    cancel_commit false "cancelled" user id uuid2 cp d1 = Ret (tt, d2) ∧
    shifted user (cp_currency cp) (- (2 * cp_amount cp)) (sd_balances (odb_settle d))
      (sd_balances (odb_settle d2)).
Proof.
  intros Hinv Hcp Hcur Hle. apply cancel_reads_inv in Hcp as (t & o & Ht & Ho & <- & Hc & ->).
  cbn [cp_currency cp_amount] in *. set (cur := currencies_of _ _ _) in *. set (amt := unlock_amount _ _ _ _) in *.
  pose proof Hinv as [Hwf Hok _]. assert (book d !! id = Some (t, o)) as Hb by (by apply book_lookup).
  assert (0 ≤ amt) as H0a.
  { pose proof (Hok _ _ _ Hb) as Hord. unfold amt. rewrite (unlock_exact t o Hord).
    pose proof (ok_filled _ _ Hord). apply (need_nonneg t o); [done|lia]. }
  destruct (cancel_commit_ok "cancelled" (ot_user t) id uuid1 (CancelPlan t cur amt) o d)
    as (d1 & Hr1 & b1 & Hs1 & Hd1); [done|done|set_solver|done|simpl; lia|].
  cbn [cp_currency cp_amount] in *.
  pose proof (shifted_locked (ot_user t) cur (- amt) (ot_user t) cur d d1) as Hl.
  rewrite !String.eqb_refl in Hl. rewrite Hd1 in Hl at 1. specialize (Hl Hs1). simpl in Hl.
  destruct (cancel_commit_ok "cancelled" (ot_user t) id uuid2 (CancelPlan t cur amt) (set_status_so "cancelled" o) d1)
    as (d2 & Hr2 & b2 & Hs2 & Hd2).
  { rewrite Hd1. by apply Hs1. }
  { rewrite Hd1. unfold order_of; simpl. by rewrite lookup_insert_eq. }
  { set_solver. }
  { done. }
  { simpl. lia. }
  cbn [cp_currency cp_amount] in *. exists d1, d2. split; [done|]. split; [done|].
  rewrite Hd1 in Hs2. rewrite Hd2. destruct Hs1 as (Hr & Hx & Hw), Hs2 as (Hr' & Hx' & Hw').
  simpl in *. split; [|split; [|by auto]].
  - rewrite Hr', Hr. unfold add_buckets; simpl. f_equal; lia.
  - intros k Hk. by rewrite Hx', Hx.
Qed.

(** ** Small orders *)
Lemma decide_place_lock cf rq d n cur amt :
  decide_place cf rq d = DPlace n cur amt →
  ∃ m, markets (odb_settle d) !! rq_market rq = Some m ∧
    lock_of cf m (sd_currencies (odb_settle d)) rq n (getBestAsk (rq_market rq) d) = Some (cur, amt).
Proof.
  unfold decide_place. intros Hdec.
  destruct (markets _ !! _) as [m|] eqn:Em; [|done]. destruct (rules d !! _) as [r|]; [|done].
  destruct (market_refusal cf rq r d); [done|]. destruct (_ ≫= _); [done|].
  destruct (numbers_of m r rq) as [n'|] eqn:En; [|done]. cbv zeta in Hdec.
  destruct (_ || _); [done|]. destruct (lock_of _ _ _ _ _ _) as [[cur' amt']|] eqn:El; [|done].
  assert (n' = n ∧ cur' = cur ∧ amt' = amt) as (-> & -> & ->); [|by exists m].
  unfold decide_risk in Hdec. repeat (case_match; try discriminate); by simplify_eq.
Qed.

(** A quantity below the market's price precision locks nothing. *)
Lemma lock_of_tiny cf m cs rq n ask :
  rq_side rq = Buy → rq_type rq = OLimit → toDP (default 8 (m_price_precision m)) (on_qty n) = 0 →
  lock_of cf m cs rq n ask = Some (quote_currency_of m cs, 0).
Proof.
  intros Hs Ht Hq. unfold lock_of. rewrite Hs, Ht. simpl. unfold with_slippage, lockAmountQuote, dtimes. simpl.
  rewrite Hq, Z.mul_0_r, Z.quot_0_l by (pose proof one_pos; lia). rewrite sig_0. unfold toDP. by rewrite trunc_0.
Qed.

(** A small buy order frees funds that other orders locked. The lock of a buy order truncates
    the quantity at the market's price precision, and a cancel releases price times the
    quantity at 8 decimals. So in the older layout an order whose quantity is below the price
    precision is placed with no lock at all, and cancelling it moves its full price from locked
    to available, out of what the user's other orders had locked. *)
Theorem tiny_order_frees_locks (cf : spot_config) (pw : place_world) (rq : order_request) (id uuid : string)
    (d d1 : orders_db) (m : market) (n : order_numbers) (cur : string) (amt : Z) (sent sent1 : list engine_msg) :
  balances_wf (sd_balances (odb_settle d)) → cf_unified cf = false →
  rq_side rq = Buy → rq_type rq = OLimit →
  markets (odb_settle d) !! rq_market rq = Some m → decide_place cf rq d = DPlace n cur amt →
  toDP (default 8 (m_price_precision m)) (on_qty n) = 0 →
  placeOrder cf pw rq id (Node d sent None) = (Ret (PPlaced id), Node d1 sent1 None) →
  let back := unlockAmountQuote (default (default 0 (on_stop n)) (on_price n)) (toDP 8 (dminus (on_qty n) 0)) 8 in
  cur ≠ "" → 0 ≤ back ≤ locked (rq_user rq) cur d →
  amt = 0 ∧ ∃ d2 sent2, cancelSpotOrder cf (rq_user rq) id uuid true (Node d1 sent1 None)
      = (Ret CCancelled, Node d2 sent2 None) ∧
    shifted (rq_user rq) cur (- back) (sd_balances (odb_settle d)) (sd_balances (odb_settle d2)).
Proof.
  intros Hwf Hun Hs Hty Hm Hdec Htiny Hrun back Hcur Hback.
  pose proof (placeOrder_spec cf pw rq id d Hwf (Node d sent None) (conj eq_refl eq_refl)) as Hp.
  rewrite Hrun in Hp. destruct Hp as [_ [_ [_ (n' & cur' & amt' & Hdec' & Hp)]]]. rewrite Hdec in Hdec'.
  injection Hdec' as <- <- <-. cbn [nd_db] in Hp.
  destruct (decide_place_lock _ _ _ _ _ _ Hdec) as (m' & Hm' & Hl). assert (m' = m) as -> by congruence.
  rewrite lock_of_tiny in Hl by done. injection Hl as <- <-. split; [done|].
  destruct Hp as (e & b & (Hr & Hx & Hw) & _ & ->).
  set (t := placed_terms rq n e). set (o := placed_order cf rq n) in *. set (d1 := put_terms id t _) in *.
  assert (terms d1 !! id = Some t) as Ht by apply lookup_insert_eq.
  assert (order_of d1 id = Some o) as Ho by apply lookup_insert_eq.
  assert (cancellable (so_status o) = true) as Hc by (unfold o, placed_order; by rewrite Hun).
  change (rq_user rq) with (ot_user t). rewrite (cancelSpotOrder_run cf _ id uuid d1 sent1 t o) by done. cbv zeta.
  rewrite Hun. set (cp := CancelPlan _ _ _).
  assert (cp_currency cp = quote_currency_of m (sd_currencies (odb_settle d))) as Hcp.
  { unfold cp, currencies_of, market_currency, t; simpl. by rewrite Hm, Hs. }
  assert (cp_amount cp = back) as Ham by (unfold cp, unlock_amount, t; simpl; by rewrite Hs).
  assert (row_of (trading_key (rq_user rq) (quote_currency_of m (sd_currencies (odb_settle d)))) b
    = row_of (trading_key (rq_user rq) (quote_currency_of m (sd_currencies (odb_settle d)))) (sd_balances (odb_settle d))) as Hsame.
  { rewrite Hr. apply add_buckets_0. }
  destruct (cancel_commit_ok "cancelled" (ot_user t) id uuid cp o d1) as (d2 & -> & b2 & (Hr2 & Hx2 & Hw2) & ->).
  { by apply Hw. }
  { done. }
  { set_solver. }
  { by rewrite Hcp. }
  { rewrite Hcp, Ham. unfold locked, d1; simpl. by rewrite Hsame. }
  do 2 eexists. split; [done|]. rewrite Hcp, Ham in *. unfold d1 in *; simpl in *.
  split; [|split; [|by auto]]; [by rewrite Hr2, Hsame|]. intros k Hk. by rewrite Hx2, Hx.
Qed.

(** ** Triggered stop orders *)
(** A stop order that has fired is cancelled behind the engine's back. Stop orders are
    inserted with the engine 'node'; when one fires, the engine is sent the order and the row
    becomes OPEN, but keeps 'node'. Every cancel then skips the engine: it sends nothing and
    goes on to release the funds, while the engine can still match the order. *)
Theorem triggered_order_unseen (cf : spot_config) (prices : string → option Z) (r : open_row) (d : orders_db)
    (sent : list engine_msg) (engine : string) (last : Z) (m : market) :
  cf_unified cf = true → cf_rust_enabled cf = true → cf_engine cf (ot_market (or_terms r)) = Some engine →
  row_held d r → so_status (or_order r) = "PENDING_TRIGGER" → ot_engine (or_terms r) = "node" →
  prices (ot_market (or_terms r)) = Some last → decide_trigger (or_terms r) last = TFire →
  markets (odb_settle d) !! ot_market (or_terms r) = Some m →
  0 < dminus (so_quantity (or_order r)) (so_filled (or_order r)) →
  ∃ d' ty price t, trigger_one cf true (λ _, true) prices r (Node d sent None)
      = (Ret tt, Node d' (sent ++ [EPlace (or_id r) (ot_user t) (ot_market t) (ot_side t) ty price
                                     (dminus (so_quantity (or_order r)) (so_filled (or_order r)))]) None) ∧
    terms d' !! or_id r = Some t ∧ so_status <$> order_of d' (or_id r) = Some "OPEN" ∧
    ∀ accepted n, cancelOnMatchingEngineIfNeeded cf (or_id r) (ot_user t) t accepted n = (Ret true, n).
Proof.
  intros Hu Hrust He [Ht Ho] Hst Hnode Hp Hd Hm Hrem. destruct r as [id t o]; simpl in *.
  set (ty := match ot_type t with OStopLoss | OTrailing => OMarket | _ => OLimit end).
  set (price := match ty with OMarket => None | _ => ot_price t end).
  set (d' := put_terms id (set_type ty t) (put_order id (set_status_so "OPEN" o) d)).
  exists d', ty, price, (set_type ty t).
  assert (trigger_tx true (OpenRow id t o) d
    = Ret (Some (EPlace id (ot_user t) (ot_market t) (ot_side t) ty price
             (dminus (so_quantity o) (so_filled o))), d')) as Htx.
  { unfold trigger_tx. cbn [or_id or_terms]. fold ty. erewrite bind_Ret.
    2: { unfold update_where. erewrite bind_Ret by reflexivity. rewrite Ho, Ht, Hst. simpl.
         erewrite bind_Ret; [reflexivity|]. unfold write_status. erewrite bind_Ret by reflexivity.
         rewrite Ho. reflexivity. }
    simpl. erewrite bind_Ret by reflexivity. erewrite bind_Ret by reflexivity.
    cbn [or_terms or_id put_terms put_order odb_settle set_spot_orders markets].
    rewrite Hm. unfold order_of; simpl. rewrite lookup_insert_eq. simpl.
    rewrite (proj2 (Z.leb_gt _ _)) by lia. done. }
  split; [|split; [apply lookup_insert_eq|split]].
  - unfold trigger_one. cbn [or_terms or_id]. rewrite Hp. simpl. rewrite Hd, Hrust, He. simpl.
    unfold try_catch. rewrite Hu. erewrite pbind_tx; [|done|exact Htx]. done.
  - unfold order_of; simpl. by rewrite lookup_insert_eq.
  - intros acc n. unfold cancelOnMatchingEngineIfNeeded; simpl. rewrite Hnode, orb_true_r. done.
Qed.

(** ** Lemmas behind two further findings *)
(** After [migrate.ts] has run, the older layout takes no order: the INSERT names a generated column. *)
Lemma migrated_layout_places_nothing cf pw rq id n cur amt d :
  cf_unified cf = false → cf_generated_remaining cf = true →
  ∃ e, place_tx cf pw rq id n cur amt d = Throw e.
Proof.
  intros Hu Hg. destruct (place_tx cf pw rq id n cur amt d) as [[e d']|e] eqn:E; [|by exists e].
  apply place_tx_inv in E as [_ Hb]. by rewrite Hu, Hg in Hb.
Qed.

(** The fifth failed order of a market, even for want of balance, stops the market for all. *)
Lemma failed_orders_pause_market cf pw rq id d sent msg :
  pw_gate pw = None → body_refusal rq = None → decide_place cf rq d = DThrow msg →
  CIRCUIT_BREAKER_THRESHOLD ≤ default 0 (circuit d !! rq_market rq) + 1 →
  ∃ d', placeOrder cf pw rq id (Node d sent None) = (Ret (PFailed msg), Node d' sent None) ∧
    ∀ rq', rq_market rq' = rq_market rq → decide_place cf rq' d' = DRefuse "MARKET_PAUSED".
Proof.
  intros Hg Hb Hd Hc. unfold placeOrder. rewrite Hg, Hb. unfold try_catch at 1, place_body.
  erewrite pbind_tx; [|done|unfold gets; cbn [nd_db]; rewrite Hd; reflexivity]. simpl.
  unfold pbind, try_catch, tx, transaction; simpl. rewrite (proj2 (Z.leb_le _ _)) by lia.
  eexists. split; [done|]. intros rq' Hrq'. unfold decide_place. simpl. rewrite Hrq', lookup_alter_eq.
  assert (is_Some (markets (odb_settle d) !! rq_market rq) ∧ is_Some (rules d !! rq_market rq)) as [[m ->] [r ->]].
  { unfold decide_place in Hd. destruct (markets _ !! _), (rules _ !! _); try done; eauto. }
  done.
Qed.
End Faults.
