(* ===== verification/OrdersDemo.v ===== *)
(** * Spot orders at a concrete market

    Two users trade on one market: a buy and a sell order are placed, matched and settled,
    and the rest of the buy order is cancelled; and the faults, each on a small database. *)
From stdpp Require Import base gmap strings list fin_maps.
From Stdlib Require Import ZArith Lia.
From S2P Require Import Prelude Money Balances Escrow Halt SettlementModel Settlement SettlementDemo OrdersModel Orders OrdersRuns OrdersFaults.
Local Open Scope Z_scope.
Local Open Scope prog_scope.

Definition spot_cf (unified : bool) : spot_config :=
  SpotConfig unified false true true 50 0 0 (λ _, Some "engine-0").
Definition demo_pw (accepted : bool) : place_world := PlaceWorld None true accepted "ref-2" None.

(** The market, with [pp] decimals for prices. *)
Definition spot_market (pp : Z) : gmap string market :=
  {["BTC_USDT" := Market "BTC" "USDT" (Some "btc") (Some "usdt") (Some pp) (Some 6)]}.
Definition spot_rules : gmap string market_rules :=
  {["BTC_USDT" := MarketRules "active" (dec 1 4) (dec 1 0)]}.
Definition spot_rows (usdt_locked : Z) : gmap bal_key user_balance :=
  list_to_map
    [(trading_key taker_id "usdt", wallet (dec 30000 0) usdt_locked);
     (trading_key maker_id "btc", wallet (dec 1 0) 0);
     (trading_key maker_id "usdt", wallet (dec 50 0) 0)].
Definition spot_settle (pp usdt_locked : Z) (orders : gmap string spot_order) : settle_db :=
  {| sd_balances := Balances (spot_rows usdt_locked) []; events := ∅; ledger := [];
     settlement_trades := []; spot_orders := orders; spot_trades := []; dlq := [];
     markets := spot_market pp; sd_currencies := demo_currencies; sd_users := {[taker_id; maker_id]};
     trading_pairs := {["BTC_USDT" := "pair-1"]} |}.
Definition spot_db (pp usdt_locked : Z) : orders_db :=
  OrdersDb (spot_settle pp usdt_locked ∅) ∅ spot_rules ∅.

(** Balances decided row by row. *)
Definition wf_b (rows : gmap bal_key user_balance) : bool :=
  forallb (λ x, row_nonneg (snd x)) (map_to_list rows).
Lemma wf_b_true b : wf_b (user_balances b) = true → balances_wf b.
Proof.
  unfold wf_b. rewrite forallb_forall. intros Hb k r Hr. apply (Hb (k, r)).
  by apply list_elem_of_In, elem_of_map_to_list.
Qed.

Lemma start_inv d : balances_wf (sd_balances (odb_settle d)) → terms d = ∅ → orders_inv d.
Proof.
  intros Hwf Ht. assert (book d = ∅) as Hb.
  { apply map_empty. intros i. unfold book. by rewrite map_lookup_zip_with, Ht, lookup_empty. }
  split; [done|by rewrite Hb|]. intros u c. unfold owed_locks, locked. rewrite Hb, msum_empty.
  by pose proof (wf_row_of _ (trading_key u c) Hwf) as (_ & ? & _)%row_nonneg_true.
Qed.

Lemma spot_wf pp : balances_wf (sd_balances (odb_settle (spot_db pp 0))).
Proof. apply wf_b_true. vm_compute. reflexivity. Qed.

(** ** Requests *)
Definition limit_order (user : string) (sd : side) (price qty : Z) : order_request :=
  OrderRequest user "BTC_USDT" sd OLimit (Some (Fin price)) (Fin qty) None None GTC None false false.
Definition buy_rq : order_request := limit_order taker_id Buy (dec 50001 0) (dec 5 1).
Definition sell_rq : order_request := limit_order maker_id Sell (dec 500005 1) (dec 2 1).

Lemma limit_fine user sd price qty :
  0 ≤ price < dec 1000000 0 → 0 ≤ qty < dec 1000000 0 → request_fine (limit_order user sd price qty).
Proof.
  assert (dec 1000000 0 < 10 ^ (28 + Money.precision) ∧
    dec 1000000 0 * dec 1000000 0 < 10 ^ (56 + Money.precision)) as [H1 H2] by (split; vm_compute; reflexivity).
  intros Hp Hq. split.
  - intros _. by left.
  - intros q [= <-]. lia.
  - intros q p [= <-] [= <-] _. nia.
Qed.

(** ** A run *)
Definition after {A} (p : Proc onode A) (d : orders_db) : orders_db := nd_db (snd (p (Node d [] None))).
Lemma ran_after {A} (p : Proc onode A) d : ran p d (after p d).
Proof. by exists [], None. Qed.

Definition bought : orders_db := after (placeOrder (spot_cf false) (demo_pw true) buy_rq "order-t") (spot_db 8 0).
Definition offered : orders_db := after (placeOrder (spot_cf false) (demo_pw true) sell_rq "order-m") bought.
Definition traded : option (EngineLiveNotifyPayload * settle_db) :=
  settled_db (processSettlementEventRow (demo_env false) (demo_row Buy) (odb_settle offered)).
Definition settled : orders_db := settled_into (default (odb_settle offered) (snd <$> traded)) offered.

Definition spot_assets : market_assets := MarketAssets "BTC" "USDT" "btc" "usdt" 8 6 6.

Lemma fresh_b id d :
  match terms d !! id, order_of d id with None, None => true | _, _ => false end = true → fresh id d.
Proof. unfold fresh. by destruct (terms d !! id), (order_of d id). Qed.

Lemma fine_b rq d :
  match markets (odb_settle d) !! rq_market rq with
  | Some m => (default 8 (m_price_precision m) =? 8) && (default 8 (m_qty_precision m) <=? 8)
  | None => true
  end = true → market_fine rq d.
Proof. intros Hb m Hm. rewrite Hm in Hb. bool_prop. lia. Qed.

Lemma step_buy : order_step (spot_cf false) (spot_db 8 0) bought.
Proof.
  apply (step_place _ _ (demo_pw true) buy_rq "order-t").
  - apply fresh_b. vm_compute. reflexivity.
  - apply fine_b. vm_compute. reflexivity.
  - apply limit_fine; vm_compute; split; congruence.
  - unfold bought. exact (ran_after _ _).
Qed.

Lemma step_sell : order_step (spot_cf false) bought offered.
Proof.
  apply (step_place _ _ (demo_pw true) sell_rq "order-m").
  - apply fresh_b. vm_compute. reflexivity.
  - apply fine_b. vm_compute. reflexivity.
  - apply limit_fine; vm_compute; split; congruence.
  - unfold offered. exact (ran_after _ _).
Qed.

Definition buy_terms : spot_terms :=
  SpotTerms taker_id "BTC_USDT" Buy OLimit (Some (dec 50001 0)) None None None GTC None "engine-0".
Definition sell_terms : spot_terms :=
  SpotTerms maker_id "BTC_USDT" Sell OLimit (Some (dec 500005 1)) None None None GTC None "engine-0".

Lemma offered_rows :
  book offered !! "order-t" = Some (buy_terms, SpotOrder (dec 5 1) 0 (Some (dec 5 1)) "new") ∧
  book offered !! "order-m" = Some (sell_terms, SpotOrder (dec 2 1) 0 (Some (dec 2 1)) "new").
Proof. split; vm_compute; reflexivity. Qed.

Lemma offered_catalog :
  markets (odb_settle offered) = spot_market 8 ∧ sd_currencies (odb_settle offered) = demo_currencies ∧
  sd_users (odb_settle offered) = {[taker_id; maker_id]} ∧ ledger (odb_settle offered) = [].
Proof. repeat split; vm_compute; reflexivity. Qed.

Lemma spot_resolve d :
  markets d = spot_market 8 → sd_currencies d = demo_currencies →
  resolveMarketAssets "BTC_USDT" d = Ret (spot_assets, d).
Proof.
  intros Hm Hc. unfold resolveMarketAssets, bind, gets.
  assert (spot_market 8 !! "BTC_USDT"
    = Some (Market "BTC" "USDT" (Some "btc") (Some "usdt") (Some 8) (Some 6))) as Hl
    by (vm_compute; reflexivity).
  rewrite Hm, Hl. simpl. rewrite Hc. vm_compute. reflexivity.
Qed.

Lemma spot_amounts_run (d : settle_db) :
  settlement_amounts (row_payload (demo_row Buy)) spot_assets d = Ret (demo_amounts, d).
Proof. vm_compute. reflexivity. Qed.

Lemma offered_input : settle_input (demo_row Buy) (odb_settle offered) spot_assets demo_amounts.
Proof.
  destruct offered_catalog as (Hm & Hc & Hu & Hl). split.
  - rewrite Hl. reflexivity.
  - exact (spot_resolve _ Hm Hc).
  - exact (spot_amounts_run _).
  - split; [done|done|simpl; lia|simpl; lia].
  - intros x Hx. pose proof (eq_trans (eq_sym demo_price) Hx) as Ex. injection Ex as <-.
    vm_compute. discriminate.
  - unfold users_uuid. rewrite Hu.
    intros u Hin. apply elem_of_union in Hin as [->%elem_of_singleton| ->%elem_of_singleton]; done.
  - apply fits_b_true. vm_compute. reflexivity.
Qed.

Lemma divide_b u x : u <> 0 → (x mod u =? 0) = true → (u | x).
Proof. intros Hu Hx. apply Z.mod_divide; [done|]. by apply Z.eqb_eq. Qed.

Lemma offered_match : fair_match (demo_row Buy) spot_assets demo_amounts offered.
Proof.
  destruct offered_rows as [Hb Hs]. split.
  - vm_compute. reflexivity.
  - vm_compute. reflexivity.
  - vm_compute. congruence.
  - exists buy_terms, (SpotOrder (dec 5 1) 0 (Some (dec 5 1)) "new"), (dec 500005 1). cbv zeta.
    split; [split; [exact Hb|reflexivity|reflexivity|reflexivity|reflexivity|vm_compute; split; congruence]|].
    split; [vm_compute; reflexivity|]. split; [vm_compute; reflexivity|].
    split; [apply divide_b; [vm_compute; congruence|vm_compute; reflexivity]|vm_compute; split; congruence].
  - exists sell_terms, (SpotOrder (dec 2 1) 0 (Some (dec 2 1)) "new"). cbv zeta.
    split; [exact Hs|reflexivity|reflexivity|reflexivity|reflexivity|vm_compute; split; congruence].
  - apply divide_b; [vm_compute; congruence|vm_compute; reflexivity].
Qed.

Lemma traded_run : ∃ n s', processSettlementEventRow (demo_env false) (demo_row Buy) (odb_settle offered) = Ret (Some n, s')
  ∧ settled = settled_into s' offered.
Proof.
  assert (match traded with Some _ => true | None => false end = true) as Hb by (vm_compute; reflexivity).
  unfold settled, traded. unfold traded, settled_db in Hb.
  destruct (processSettlementEventRow (demo_env false) (demo_row Buy) (odb_settle offered)) as [[[n|] s']|e] eqn:E;
    [|discriminate Hb|discriminate Hb].
  exists n, s'. split; reflexivity.
Qed.

Lemma run_to_settled : rtc (order_step (spot_cf false)) (spot_db 8 0) settled.
Proof.
  destruct traded_run as (n & s' & Hrun & ->).
  eapply rtc_l; [exact step_buy|]. eapply rtc_l; [exact step_sell|].
  apply rtc_once. exact (step_settle _ _ _ _ _ _ _ _ offered_input offered_match Hrun).
Qed.

Lemma spot_start : orders_inv (spot_db 8 0).
Proof. apply start_inv; [apply spot_wf|reflexivity]. Qed.

(** ** The theorems *)
Lemma orders_stay_covered_witness :
  rtc (order_step (spot_cf false)) (spot_db 8 0) settled ∧
  (∀ u c, owed_locks u c settled ≤ locked u c settled) ∧
  owed_locks taker_id "usdt" settled = dec 150003 1 ∧ locked taker_id "usdt" settled = dec 150004 1.
Proof.
  split; [exact run_to_settled|].
  split; [exact (proj1 (orders_stay_covered _ _ _ spot_start run_to_settled))|].
  split; vm_compute; reflexivity.
Defined.

Lemma settled_order :
  terms settled !! "order-t" = Some buy_terms ∧
  order_of settled "order-t" = Some (SpotOrder (dec 5 1) (dec 2 1) (Some (dec 3 1)) "partially_filled").
Proof. split; vm_compute; reflexivity. Qed.

Lemma open_order_cancels_witness :
  ∃ d', cancelSpotOrder (spot_cf false) taker_id "order-t" "ref-3" true (Node settled [] None)
      = (Ret CCancelled, Node d' [ECancel "order-t" "engine-0" taker_id] None) ∧
    closed "cancelled" taker_id "order-t" "usdt" (dec 150003 1)
      (SpotOrder (dec 5 1) (dec 2 1) (Some (dec 3 1)) "partially_filled") settled d'.
Proof.
  destruct settled_order as [Ht Ho].
  assert (currencies_of settled "BTC_USDT" Buy = "usdt") as Hc by (vm_compute; reflexivity).
  assert (need buy_terms (dec 5 1 - dec 2 1) = dec 150003 1) as Hn by (vm_compute; reflexivity).
  destruct (open_order_cancels (spot_cf false) (spot_db 8 0) settled "order-t" "ref-3" buy_terms _ []
    spot_start run_to_settled eq_refl Ht Ho eq_refl) as (d' & Hrun & Hcl).
  { change (ot_market buy_terms) with "BTC_USDT". change (ot_side buy_terms) with Buy. rewrite Hc. discriminate. }
  exists d'. split; [exact Hrun|].
  change (ot_market buy_terms) with "BTC_USDT" in Hcl. change (ot_side buy_terms) with Buy in Hcl.
  cbn [so_quantity so_filled] in Hcl. rewrite Hc, Hn in Hcl. exact Hcl.
Defined.

Lemma placement_exact_witness :
  ∃ n', placeOrder (spot_cf false) (demo_pw true) buy_rq "order-t" (Node (spot_db 8 0) [] None)
      = (Ret (PPlaced "order-t"), n') ∧
    place_outcome (spot_cf false) (demo_pw true) buy_rq "order-t" (spot_db 8 0) (PPlaced "order-t") (nd_db n').
Proof.
  pose proof (placement_exact (spot_cf false) (demo_pw true) buy_rq "order-t" (spot_db 8 0) (spot_wf 8)
    (Node (spot_db 8 0) [] None) (conj eq_refl eq_refl)) as Hp.
  assert (fst (placeOrder (spot_cf false) (demo_pw true) buy_rq "order-t" (Node (spot_db 8 0) [] None))
    = Ret (PPlaced "order-t")) as Hr by (vm_compute; reflexivity).
  destruct (placeOrder (spot_cf false) (demo_pw true) buy_rq "order-t" (Node (spot_db 8 0) [] None)) as [r n'].
  simpl in Hr. subst r. exists n'. split; [reflexivity|]. exact (proj2 Hp).
Defined.

(** The engine has the order and reading its matches throws: the client is told that the order
    failed, while it is open with its lock, at the engine too. *)
Definition lost_events : place_world := PlaceWorld None true true "ref-2" (Some "fetch failed").
Example accepted_order_answers_failure :
  let '(r, n) := placeOrder (spot_cf false) lost_events buy_rq "order-t" (Node (spot_db 8 0) [] None) in
  r = Ret (PFailed "fetch failed") ∧ length (nd_sent n) = 1%nat ∧
  so_status <$> order_of (nd_db n) "order-t" = Some "new" ∧
  locked taker_id "cur-usdt" (nd_db n) = locked taker_id "cur-usdt" bought.
Proof. vm_compute. repeat split. Qed.

(** In the unified layout the order that was placed cannot be cancelled. *)
Definition bought_unified : orders_db :=
  after (placeOrder (spot_cf true) (demo_pw true) buy_rq "order-t") (spot_db 8 0).

Lemma unified_cancel_always_fails_witness :
  cancelSpotOrder (spot_cf true) taker_id "order-t" "ref-3" true (Node bought_unified [] None)
  = (Ret (CFailed "violates check constraint spot_orders_status_check"),
     Node bought_unified [ECancel "order-t" "engine-0" taker_id] None).
Proof.
  assert (terms bought_unified !! "order-t" = Some buy_terms) as Ht by (vm_compute; reflexivity).
  assert (order_of bought_unified "order-t" = Some (SpotOrder (dec 5 1) 0 None "OPEN")) as Ho
    by (vm_compute; reflexivity).
  exact (unified_cancel_always_fails (spot_cf true) "order-t" "ref-3" bought_unified buy_terms _ []
    eq_refl Ht Ho eq_refl).
Defined.

(** With 30000 locked for other orders, two cancels release 50001 for an order of 25000.5. *)
Definition bought_more : orders_db :=
  after (placeOrder (spot_cf false) (demo_pw true) buy_rq "order-t") (spot_db 8 (dec 30000 0)).

Lemma bought_more_inv : orders_inv bought_more.
Proof.
  apply (order_step_kept (spot_cf false) (spot_db 8 (dec 30000 0))).
  - apply start_inv; [apply wf_b_true; vm_compute; reflexivity|reflexivity].
  - apply (step_place _ _ (demo_pw true) buy_rq "order-t").
    + apply fresh_b. vm_compute. reflexivity.
    + apply fine_b. vm_compute. reflexivity.
    + apply limit_fine; vm_compute; split; congruence.
    + unfold bought_more. exact (ran_after _ _).
Qed.

Lemma two_cancels_release_twice_witness :
  let cp := CancelPlan buy_terms "usdt" (dec 250005 1) in
  ∃ d1 d2, cancel_commit false "cancelled" taker_id "order-t" "u1" cp bought_more = Ret (tt, d1) ∧
    cancel_commit false "cancelled" taker_id "order-t" "u2" cp d1 = Ret (tt, d2) ∧
    shifted taker_id "usdt" (- (2 * dec 250005 1)) (sd_balances (odb_settle bought_more))
      (sd_balances (odb_settle d2)).
Proof.
  intros cp.
  assert (cancel_reads taker_id "order-t" bought_more = inl cp) as Hr by (vm_compute; reflexivity).
  refine (two_cancels_release_twice taker_id "order-t" "u1" "u2" bought_more cp bought_more_inv Hr _ _).
  - discriminate.
  - vm_compute. congruence.
Defined.

(** Two decimals for prices: 0.005 BTC at 50000 locks nothing and gives back 250. *)
Definition tiny_rq : order_request := limit_order taker_id Buy (dec 50000 0) (dec 5 3).
Definition tiny_placed : orders_db :=
  after (placeOrder (spot_cf false) (demo_pw true) tiny_rq "order-s") (spot_db 2 (dec 300 0)).

Lemma tiny_run :
  ∃ sent1, placeOrder (spot_cf false) (demo_pw true) tiny_rq "order-s" (Node (spot_db 2 (dec 300 0)) [] None)
    = (Ret (PPlaced "order-s"), Node tiny_placed sent1 None).
Proof.
  assert (fst (placeOrder (spot_cf false) (demo_pw true) tiny_rq "order-s" (Node (spot_db 2 (dec 300 0)) [] None))
    = Ret (PPlaced "order-s") ∧
    nd_budget (snd (placeOrder (spot_cf false) (demo_pw true) tiny_rq "order-s" (Node (spot_db 2 (dec 300 0)) [] None)))
    = None) as [H1 H2] by (split; vm_compute; reflexivity).
  unfold tiny_placed, after.
  destruct (placeOrder (spot_cf false) (demo_pw true) tiny_rq "order-s" (Node (spot_db 2 (dec 300 0)) [] None))
    as [r [d s b]].
  simpl in *. subst. by exists s.
Qed.

Definition tiny_numbers : order_numbers := OrderNumbers (dec 5 3) (Some (dec 50000 0)) None None.
Lemma tiny_order_frees_locks_witness :
  ∃ sent1 d2 sent2, cancelSpotOrder (spot_cf false) taker_id "order-s" "u1" true (Node tiny_placed sent1 None)
      = (Ret CCancelled, Node d2 sent2 None) ∧
    shifted taker_id "usdt" (- dec 250 0) (sd_balances (odb_settle (spot_db 2 (dec 300 0))))
      (sd_balances (odb_settle d2)).
Proof.
  destruct tiny_run as [sent1 Hrun].
  assert (decide_place (spot_cf false) tiny_rq (spot_db 2 (dec 300 0)) = DPlace tiny_numbers "usdt" 0) as Hd
    by (vm_compute; reflexivity).
  assert (balances_wf (sd_balances (odb_settle (spot_db 2 (dec 300 0))))) as Hwf
    by (apply wf_b_true; vm_compute; reflexivity).
  assert (markets (odb_settle (spot_db 2 (dec 300 0))) !! "BTC_USDT"
    = Some (Market "BTC" "USDT" (Some "btc") (Some "usdt") (Some 2) (Some 6))) as Hm by (vm_compute; reflexivity).
  assert (unlockAmountQuote (default (default 0 (on_stop tiny_numbers)) (on_price tiny_numbers))
    (toDP 8 (dminus (on_qty tiny_numbers) 0)) 8 = dec 250 0) as Hb by (vm_compute; reflexivity).
  destruct (tiny_order_frees_locks (spot_cf false) (demo_pw true) tiny_rq "order-s" "u1" (spot_db 2 (dec 300 0))
    tiny_placed _ tiny_numbers "usdt" 0 [] sent1 Hwf eq_refl eq_refl eq_refl Hm Hd) as (_ & d2 & sent2 & Hc & Hs).
  - vm_compute. reflexivity.
  - exact Hrun.
  - discriminate.
  - rewrite Hb. vm_compute. split; congruence.
  - exists sent1, d2, sent2. split; [exact Hc|]. rewrite Hb in Hs. exact Hs.
Defined.

(** A stop order to buy at 50000, limit 50001, in the unified layout; it fires at 50500, and the
    bulk cancel then closes it with one message sent: the order itself. *)
Definition stop_terms : spot_terms :=
  SpotTerms taker_id "BTC_USDT" Buy OStopLimit (Some (dec 50001 0)) (Some (dec 50000 0)) None None GTC None "node".
Definition stop_rq : order_request :=
  OrderRequest taker_id "BTC_USDT" Buy OStopLimit (Some (Fin (dec 50001 0))) (Fin (dec 5 1))
    (Some (Fin (dec 50000 0))) None GTC None false false.
Definition stop_row : open_row := OpenRow "order-p" stop_terms (SpotOrder (dec 5 1) 0 None "PENDING_TRIGGER").
Definition stop_placed : orders_db :=
  after (placeOrder (spot_cf true) (demo_pw true) stop_rq "order-p") (spot_db 8 0).

Lemma triggered_order_unseen_witness :
  (∃ d' ty price t, trigger_one (spot_cf true) true (λ _, true) (λ _, Some (dec 50500 0)) stop_row
        (Node stop_placed [] None)
      = (Ret tt, Node d' [EPlace "order-p" (ot_user t) (ot_market t) (ot_side t) ty price
                             (dminus (dec 5 1) 0)] None) ∧
    terms d' !! "order-p" = Some t ∧ so_status <$> order_of d' "order-p" = Some "OPEN" ∧
    ∀ accepted n, cancelOnMatchingEngineIfNeeded (spot_cf true) "order-p" (ot_user t) t accepted n = (Ret true, n)) ∧
  let p := trigger_one (spot_cf true) true (λ _, true) (λ _, Some (dec 50500 0)) stop_row >>>
           cancelAll (spot_cf true) taker_id "BTC_USDT" "u1" (λ _, true) in
  let '(r, n) := p (Node stop_placed [] None) in
  r = Ret (AllCancelled ["order-p"] []) ∧ length (nd_sent n) = 1%nat ∧
  locked taker_id "usdt" (nd_db n) = 0 ∧ so_status <$> order_of (nd_db n) "order-p" = Some "CANCELLED".
Proof.
  split.
  - assert (row_held stop_placed stop_row) as Hh by (split; vm_compute; reflexivity).
    refine (triggered_order_unseen (spot_cf true) (λ _, Some (dec 50500 0)) stop_row stop_placed [] "engine-0"
      (dec 50500 0) (Market "BTC" "USDT" (Some "btc") (Some "usdt") (Some 8) (Some 6))
      eq_refl eq_refl eq_refl Hh eq_refl eq_refl eq_refl _ _ _); vm_compute; reflexivity.
  - vm_compute. repeat split.
Defined.
