(* ===== verification/OrderBookModel.v ===== *)
(** * The public order book: memory, broadcast, and the client's copy

    [services/spot-in-memory-orderbook.service.ts] keeps the levels of every market,
    [spot-memory-hydrate.service.ts] loads them from the orders, the order routes of
    [routes/spot.fastify.ts] and [spot-engine-live-bridge.service.ts] change them,
    [spot-orderbook-ws-engine.service.ts] numbers and publishes them as full books and
    deltas, and the web client's [lib/orderbookDelta.ts] applies those
    ([SpotMarketDataContext.tsx], [useSpotWs.ts]).

    A quantity is a text the code prints itself with [toString] of a decimal, so equal
    texts are equal numbers and the model keeps the number; a price is a text that is
    never normalised, and the order of two prices is that of their [parseFloat], an argument
    ([px]). *)
From stdpp Require Import base gmap strings list fin_maps.
From Stdlib Require Import ZArith Lia.
From S2P Require Import Prelude Money SettlementModel.
Local Open Scope Z_scope.

(** ** [Map<string, string>], in order of insertion *)
Abbreviation book_levels := (list (string * Z)).
Definition map_get (k : string) (m : book_levels) : option Z :=
  snd <$> find (λ l, String.eqb (fst l) k) m.
Fixpoint map_set (k : string) (v : Z) (m : book_levels) : book_levels :=
  match m with
  | [] => [(k, v)]
  | (k', v') :: m' => if String.eqb k' k then (k, v) :: m' else (k', v') :: map_set k v m'
  end.
Definition map_delete (k : string) (m : book_levels) : book_levels :=
  filter (λ l, fst l ≠ k) m.
(** [new Map(entries)] *)
Definition map_of (entries : book_levels) : book_levels :=
  foldl (λ m l, map_set (fst l) (snd l) m) [] entries.

Record symbol_book := SymbolBook { bids : book_levels; asks : book_levels }.
Definition empty_book : symbol_book := SymbolBook [] [].
Definition levels (b : symbol_book) (s : side) : book_levels :=
  match s with Buy => bids b | Sell => asks b end.
Definition set_levels (b : symbol_book) (s : side) (m : book_levels) : symbol_book :=
  match s with Buy => SymbolBook m (asks b) | Sell => SymbolBook (bids b) m end.
Definition opposite (s : side) : side := match s with Buy => Sell | Sell => Buy end.

(** [snapshotAtMs] is left out. *)
Record snapshot := Snapshot {
  sn_symbol : string; sn_bids : book_levels; sn_asks : book_levels; sn_lastUpdateId : Z }.

(** ** The books *)
Section Book.
Context `{DecimalJs}.

Definition normQty (qty qtyPrecision : Z) : Z := toDP qtyPrecision qty.

Definition addLiquidity (s : side) (price : string) (qty qtyPrecision : Z) (b : symbol_book) :
    symbol_book :=
  let q := normQty qty qtyPrecision in
  if q <=? 0 then b
  else
    let prev := default 0 (map_get price (levels b s)) in
    set_levels b s (map_set price (toDP qtyPrecision (dplus prev q)) (levels b s)).

Definition removeLiquidity (s : side) (price : string) (qty qtyPrecision : Z) (b : symbol_book) :
    symbol_book :=
  let q := normQty qty qtyPrecision in
  if q <=? 0 then b
  else
    let prev := default 0 (map_get price (levels b s)) in
    let next := toDP qtyPrecision (dminus prev q) in
    set_levels b s (if next <=? 0 then map_delete price (levels b s)
                    else map_set price next (levels b s)).
(** The default of [qtyPrecision], which every caller uses. *)
Definition QTY_PRECISION : Z := 8.

Definition replace_side (l : book_levels) : book_levels :=
  foldl (λ m l, if 0 <? snd l then map_set (fst l) (normQty (snd l) 12) m else m) [] l.
Definition replaceFromSnapshot (sn : snapshot) : symbol_book :=
  SymbolBook (replace_side (sn_bids sn)) (replace_side (sn_asks sn)).

Context (px : string → Z).

Definition bid_before (x y : string * Z) : bool := px (fst y) <=? px (fst x).
Definition ask_before (x y : string * Z) : bool := px (fst x) <=? px (fst y).
Definition DEFAULT_L2_DEPTH : nat := 50.
Definition snapshotTop (symbol : string) (depth : nat) (b : symbol_book) : snapshot :=
  Snapshot symbol (take depth (sort_by bid_before (bids b))) (take depth (sort_by ask_before (asks b))) 0.

(** ** [getOrderbookFromDb]: the open orders of the market, as rows *)
Record book_order := BookOrder {
  bo_id : string; bo_side : side; bo_price : string; bo_remaining : Z; bo_open : bool }.
Definition in_db_book (s : side) (o : book_order) : bool :=
  bool_decide (bo_side o = s) && bo_open o && (0 <? bo_remaining o).
Definition db_side (s : side) (limit : nat) (orders : list book_order) : book_levels :=
  let rows := filter (λ o, Is_true (in_db_book s o)) orders in
  let before := match s with Buy => bid_before | Sell => ask_before end in
  take limit (sort_by before
    ((λ p, (p, lsum (λ o, if String.eqb (bo_price o) p then bo_remaining o else 0) rows))
       <$> dedup_by id [] (bo_price <$> rows))).
Definition getOrderbookFromDb (symbol : string) (orders : list book_order) : snapshot :=
  Snapshot symbol (db_side Buy 50 orders) (db_side Sell 50 orders) 0.

(** ** The publisher, for one market *)
Record ws_engine := WsEngine {
  we_book : symbol_book;
  (** [spotOrderbookWsSeq], 0 if there is no entry *)
  we_seq : Z;
  (** [lastBroadcastOrderbook] *)
  we_last : option snapshot;
  (** [warmed.has(symbol)] *)
  we_warm : bool;
}.
Definition set_book (w : ws_engine) (b : symbol_book) : ws_engine :=
  WsEngine b (we_seq w) (we_last w) (we_warm w).

Definition ensureMemoryBookHydrated (symbol : string) (orders : list book_order) (w : ws_engine) :
    ws_engine :=
  if we_warm w then w
  else WsEngine (replaceFromSnapshot (getOrderbookFromDb symbol orders)) (we_seq w) (we_last w) true.

Abbreviation changes := (list (string * Z)).
(** One side of [computeOrderbookWsDelta]: prices whose quantity differs, with 0 for a price
    that is gone. *)
Definition side_delta (prev next : book_levels) : changes :=
  let prevM := map_of prev in
  let nextM := map_of next in
  omap (λ k, let a := default 0 (map_get k prevM) in
             let b := default 0 (map_get k nextM) in
             if a =? b then None else Some (k, b))
    (dedup_by id [] ((fst <$> prevM) ++ (fst <$> nextM))).

Inductive wire :=
  | Update (sn : snapshot)
  | Delta (symbol : string) (seq : Z) (bids asks : changes)
  | Resync (sn : snapshot)
  (** [orderbook_snapshot], the answer to a subscription *)
  | Full (sn : snapshot).

Definition numbered (symbol : string) (seq : Z) (sn : snapshot) : snapshot :=
  Snapshot symbol (sn_bids sn) (sn_asks sn) seq.

(** [computeOrderbookWire]: [None] when nothing changed; a full book when more than 40 levels
    or half of them did. *)
Definition computeOrderbookWire (symbol : string) (sn : snapshot) (w : ws_engine) :
    option wire * ws_engine :=
  let seq := we_seq w + 1 in
  let snap := numbered symbol seq sn in
  let w' := WsEngine (we_book w) seq (Some snap) (we_warm w) in
  match we_last w with
  | None => (Some (Update snap), w')
  | Some prev =>
      let db := side_delta (sn_bids prev) (sn_bids snap) in
      let da := side_delta (sn_asks prev) (sn_asks snap) in
      let changed := (length db + length da)%nat in
      let denom := Nat.max (Nat.max (length (sn_bids prev) + length (sn_asks prev))
                              (length (sn_bids snap) + length (sn_asks snap))) 1 in
      if (changed =? 0)%nat then (None, w')
      else if (40 <? changed)%nat || (denom <? 2 * changed)%nat then (Some (Update snap), w')
      else (Some (Delta symbol seq db da), w')
  end.
Definition ingestOrderbookFromMemory (symbol : string) (w : ws_engine) : option wire * ws_engine :=
  computeOrderbookWire symbol (snapshotTop symbol DEFAULT_L2_DEPTH (we_book w)) w.

(** [buildOrderbookResyncWire] *)
Definition buildOrderbookResyncWire (symbol : string) (w : ws_engine) : wire * ws_engine :=
  let seq := we_seq w + 1 in
  let snap := numbered symbol seq (snapshotTop symbol DEFAULT_L2_DEPTH (we_book w)) in
  (Resync snap, WsEngine (we_book w) seq (Some snap) (we_warm w)).

(** [primeOrderbookStateFromSubscribe]: the answer to a subscription. It replaces the last
    book under its old number. *)
Definition primeOrderbookStateFromSubscribe (symbol : string) (sn : snapshot) (w : ws_engine) :
    snapshot * ws_engine :=
  let fresh := we_seq w + 1 in
  let '(seq, counter) :=
    match we_last w with
    | Some e => if 0 <? sn_lastUpdateId e then (sn_lastUpdateId e, we_seq w) else (fresh, fresh)
    | None => (fresh, fresh)
    end in
  let snap := numbered symbol seq sn in
  (snap, WsEngine (we_book w) counter (Some snap) (we_warm w)).
(** The subscription handler of the websocket route, when hydration succeeds. *)
Definition subscribe (symbol : string) (orders : list book_order) (w : ws_engine) :
    wire * ws_engine :=
  let w1 := ensureMemoryBookHydrated symbol orders w in
  let '(snap, w2) := primeOrderbookStateFromSubscribe symbol
                       (snapshotTop symbol DEFAULT_L2_DEPTH (we_book w1)) w1 in
  (Full snap, w2).

(** [resolvePublicOrderbookSnapshot]: the cached book under the number of the last
    broadcast. *)
Definition resolvePublicOrderbookSnapshot (symbol : string) (cached : snapshot) (limit : nat)
    (w : ws_engine) : snapshot :=
  Snapshot symbol (take limit (sn_bids cached)) (take limit (sn_asks cached))
    (match we_last w with
     | Some l => if 0 <? sn_lastUpdateId l then sn_lastUpdateId l else sn_lastUpdateId cached
     | None => sn_lastUpdateId cached
     end).

(** ** The routes' changes of the book, without the message pipeline *)

(** A fill of the engine: [applyEngineMatchLive], [applyCommittedEngineNotify]. *)
Definition apply_engine_match (takerSide : side) (price : string) (qty : Z) (w : ws_engine) :
    ws_engine :=
  set_book w (removeLiquidity (opposite takerSide) price qty QTY_PRECISION (we_book w)).

(** [POST /order] after the engine's answer: hydration, the fills, and the order itself if it
    is a limit order that was open when its row was written. *)
Definition place_on_book (symbol : string) (orders : list book_order) (s : side) (price : string)
    (quantity : Z) (limit_order : bool) (fills : list (string * Z)) (w : ws_engine) : ws_engine :=
  let w1 := ensureMemoryBookHydrated symbol orders w in
  let w2 := foldl (λ w f, apply_engine_match s (fst f) (snd f) w) w1 fills in
  if limit_order && (0 <? quantity)
  then set_book w2 (addLiquidity s price quantity QTY_PRECISION (we_book w2))
  else w2.

(** [DELETE /order/:id] after the commit. *)
Definition cancel_on_book (symbol : string) (orders : list book_order) (s : side) (price : string)
    (remaining : Z) (w : ws_engine) : ws_engine :=
  let w1 := ensureMemoryBookHydrated symbol orders w in
  set_book w1 (removeLiquidity s price remaining QTY_PRECISION (we_book w1)).

(** ** The client *)
Definition isZeroQty (q : Z) : bool := q <=? 0.
Definition apply_changes (l : changes) (m : book_levels) : book_levels :=
  foldl (λ m c, if isZeroQty (snd c) then map_delete (fst c) m else map_set (fst c) (snd c) m) m l.
Definition applyOrderbookDelta (sn : snapshot) (symbol : string) (seq : Z) (db da : changes) :
    snapshot :=
  Snapshot symbol (sort_by bid_before (apply_changes db (map_of (sn_bids sn))))
    (sort_by ask_before (apply_changes da (map_of (sn_asks sn)))) seq.

(** [committedOrderbookRef], [lastSeqRef], and how often the client asked the REST route for
    the book. *)
Record feed_client := FeedClient {
  fc_symbol : string;
  fc_book : option snapshot;
  fc_lastSeq : option Z;
  fc_resnapshots : nat;
}.
Definition ask_snapshot (c : feed_client) : feed_client :=
  FeedClient (fc_symbol c) (fc_book c) (fc_lastSeq c) (S (fc_resnapshots c)).
Definition commit (c : feed_client) (sn : snapshot) (seq : Z) : feed_client :=
  FeedClient (fc_symbol c) (Some sn) (Some seq) (fc_resnapshots c).

Definition onOrderbook (sn : snapshot) (c : feed_client) : feed_client :=
  if String.eqb (sn_symbol sn) (fc_symbol c) then commit c sn (sn_lastUpdateId sn) else c.
Definition onOrderbookDelta (symbol : string) (seq : Z) (db da : changes) (c : feed_client) :
    feed_client :=
  if negb (String.eqb symbol (fc_symbol c)) then c
  else match fc_book c, fc_lastSeq c with
       | None, _ | _, None => ask_snapshot c
       | Some cur, Some expected =>
           if seq =? expected then c
           else if seq <? expected then ask_snapshot c
           else if negb (seq =? expected + 1) then ask_snapshot c
           else commit c (applyOrderbookDelta cur symbol seq db da) seq
       end.
(** [resnapshotOrderbook], when the REST route answers with a book. *)
Definition rest_answer (sn : snapshot) (c : feed_client) : feed_client :=
  if 0 <? sn_lastUpdateId sn then commit c sn (sn_lastUpdateId sn) else c.
(** [ws.onmessage] *)
Definition onmessage (m : wire) (c : feed_client) : feed_client :=
  match m with
  | Update sn | Resync sn | Full sn => onOrderbook sn c
  | Delta symbol seq db da => onOrderbookDelta symbol seq db da c
  end.
End Book.
