(* ===== verification/OrderBook.v ===== *)
(** * Theorems on the public order book

    On [OrderBookModel]: the levels keep their shape under every change, they are the sums
    of the resting orders (and what they hold more than that), and a client that applies
    the published messages, whatever is lost, repeated or reordered, shows the book the
    server published under its number. *)
From stdpp Require Import base gmap strings list fin_maps sorting relations.
From Stdlib Require Import ZArith Lia.
From S2P Require Import Prelude Money SettlementModel OrderBookModel.
Local Open Scope Z_scope.

(** ** Sorting and deduplication *)
Lemma sort_by_sorted {A} (le : A → A → bool) l :
  (∀ a b, le a b = true ∨ le b a = true) → (∀ a b c, le a b = true → le b c = true → le a c = true) →
  StronglySorted (λ a b, le a b = true) (sort_by le l).
Proof.
  intros Htot Htrans. induction l as [|x l IH]; [constructor|]. simpl.
  induction IH as [|y s Hs IHs Hy]; simpl; [by repeat constructor|].
  destruct (le x y) eqn:E.
  - constructor; [by constructor|]. constructor; [done|].
    eapply Forall_impl; [exact Hy|]. intros z Hz. by apply Htrans with y.
  - constructor; [done|]. rewrite sort_insert_Permutation. constructor; [|done].
    by destruct (Htot x y) as [?|?]; [congruence|].
Qed.

Lemma dedup_by_spec (seen l : list string) :
  NoDup (dedup_by id seen l) ∧ ∀ k, k ∈ dedup_by id seen l ↔ k ∈ l ∧ k ∉ seen.
Proof.
  revert seen. induction l as [|x l IH]; intros seen; simpl.
  { split; [constructor|]. set_solver. }
  case_bool_decide as Hx.
  - destruct (IH seen) as [Hn Hin]. split; [done|]. intros k. rewrite Hin, elem_of_cons.
    split; [tauto|]. by intros [[->|?] ?].
  - destruct (IH (x :: seen)) as [Hn Hin]. split.
    + constructor; [|done]. rewrite Hin. set_solver.
    + intros k. rewrite !elem_of_cons, Hin, elem_of_cons.
      destruct (decide (k = x)) as [->|]; tauto.
Qed.

(** ** Levels *)
Definition keys (m : book_levels) : list string := fst <$> m.

Lemma map_get_cons k k' v m :
  map_get k ((k', v) :: m) = if String.eqb k' k then Some v else map_get k m.
Proof. unfold map_get. simpl. by destruct (String.eqb k' k). Qed.

Lemma map_get_set k k' v m :
  map_get k (map_set k' v m) = if String.eqb k' k then Some v else map_get k m.
Proof.
  induction m as [|[k1 v1] m IH]; simpl.
  - rewrite map_get_cons. done.
  - destruct (String.eqb_spec k1 k') as [->|Hne]; rewrite !map_get_cons.
    + by destruct (String.eqb k' k).
    + rewrite IH. destruct (String.eqb_spec k1 k) as [->|]; [|done].
      by rewrite (proj2 (String.eqb_neq k' k)).
Qed.

Lemma map_get_delete k k' m :
  map_get k (map_delete k' m) = if String.eqb k' k then None else map_get k m.
Proof.
  unfold map_delete. induction m as [|[k1 v1] m IH]; [by destruct (String.eqb k' k)|].
  rewrite filter_cons. simpl. destruct (decide (k1 ≠ k')) as [Hne|Heq].
  - rewrite !map_get_cons, IH. destruct (String.eqb_spec k1 k) as [->|]; [|done].
    by rewrite (proj2 (String.eqb_neq k' k)).
  - apply dec_stable in Heq as ->. rewrite IH, map_get_cons. by destruct (String.eqb k' k).
Qed.

Lemma map_set_keys k v m : ∀ x, x ∈ keys (map_set k v m) ↔ x = k ∨ x ∈ keys m.
Proof.
  intros x. induction m as [|[k1 v1] m IH]; simpl; [set_solver|].
  destruct (String.eqb_spec k1 k) as [->|]; simpl; rewrite !elem_of_cons; [tauto|].
  rewrite IH. tauto.
Qed.

Lemma map_set_NoDup k v m : NoDup (keys m) → NoDup (keys (map_set k v m)).
Proof.
  induction m as [|[k1 v1] m IH]; simpl; [intros _; repeat constructor; set_solver|].
  intros [Hk1 Hm]%NoDup_cons. destruct (String.eqb_spec k1 k) as [->|Hne]; simpl.
  - by constructor.
  - constructor; [|by apply IH]. change (k1 ∉ keys (map_set k v m)). rewrite map_set_keys. tauto.
Qed.

Lemma map_delete_NoDup k m : NoDup (keys m) → NoDup (keys (map_delete k m)).
Proof.
  unfold map_delete. induction m as [|[k1 v1] m IH]; [done|]. intros [Hk1 Hm]%NoDup_cons.
  rewrite filter_cons. simpl. case_decide; [|by apply IH]. simpl. constructor; [|by apply IH].
  intros Hin. apply Hk1. apply list_elem_of_fmap in Hin as (y & -> & Hy).
  apply list_elem_of_filter in Hy as [_ Hy]. apply list_elem_of_fmap. by exists y.
Qed.

Lemma map_get_elem k v m : NoDup (keys m) → map_get k m = Some v ↔ (k, v) ∈ m.
Proof.
  induction m as [|[k1 v1] m IH]; simpl; [intros _; unfold map_get; set_solver|].
  intros [Hk1 Hm]%NoDup_cons. rewrite map_get_cons, elem_of_cons.
  destruct (String.eqb_spec k1 k) as [->|Hne].
  - split; [intros [= ->]; by left|]. intros [[= ->]|Hin]; [done|].
    destruct Hk1. apply list_elem_of_fmap. by exists (k, v).
  - rewrite IH by done. split; [by right|]. intros [[= -> ->]|]; done.
Qed.

Lemma map_get_None k m : map_get k m = None ↔ k ∉ keys m.
Proof.
  induction m as [|[k1 v1] m IH]; simpl; [set_solver|].
  rewrite map_get_cons, elem_of_cons. destruct (String.eqb_spec k1 k) as [->|Hne]; [|].
  - split; [done|tauto].
  - rewrite IH. split; [|tauto]. intros Hn [->|?]; done.
Qed.

(** Maps with the same entries are permutations of each other. *)
Lemma map_get_ext m1 m2 :
  NoDup (keys m1) → NoDup (keys m2) → (∀ k, map_get k m1 = map_get k m2) → m1 ≡ₚ m2.
Proof.
  intros H1 H2 Heq. apply NoDup_Permutation; [by eapply NoDup_fmap_1|by eapply NoDup_fmap_1|].
  intros [k v]. rewrite <- !map_get_elem by done. by rewrite Heq.
Qed.

Lemma map_get_Permutation k m1 m2 : NoDup (keys m1) → m1 ≡ₚ m2 → map_get k m1 = map_get k m2.
Proof.
  intros H1 Hp. assert (NoDup (keys m2)) as H2 by (unfold keys in *; by rewrite <- Hp).
  destruct (map_get k m1) as [v|] eqn:E.
  - symmetry. apply map_get_elem; [done|]. rewrite <- Hp. by apply map_get_elem.
  - symmetry. apply map_get_None. unfold keys. rewrite <- Hp. by apply map_get_None.
Qed.

Lemma map_set_new k v m : k ∉ keys m → map_set k v m = m ++ [(k, v)].
Proof.
  induction m as [|[k1 v1] m IH]; [done|]. simpl. rewrite not_elem_of_cons. intros [Hne Hk].
  rewrite (proj2 (String.eqb_neq k1 k)) by congruence. by rewrite IH.
Qed.

(** [new Map] of entries with different keys is the entries. *)
Lemma map_of_NoDup m : NoDup (keys m) → map_of m = m.
Proof.
  unfold map_of. assert (∀ acc, NoDup (keys (acc ++ m)) →
    foldl (λ m l, map_set (fst l) (snd l) m) acc m = acc ++ m) as Hgen; [|by apply (Hgen [])].
  induction m as [|[k v] m IH]; intros acc Hn; [by rewrite app_nil_r|]. simpl.
  unfold keys in Hn. rewrite fmap_app in Hn. apply NoDup_app in Hn as (Hacc & Hdisj & Hm).
  simpl in Hm. rewrite map_set_new.
  - rewrite IH; [by rewrite <- app_assoc|].
    unfold keys. rewrite <- app_assoc, fmap_app. by apply NoDup_app.
  - intros Hk. apply (Hdisj k Hk). by left.
Qed.

(** ** The shape of a book *)
Definition positive (m : book_levels) : Prop := Forall (λ l, 0 < snd l) m.
Definition levels_ok (m : book_levels) : Prop := NoDup (keys m) ∧ positive m.
Definition book_ok (b : symbol_book) : Prop := levels_ok (bids b) ∧ levels_ok (asks b).

Lemma levels_ok_get m : levels_ok m → ∀ k v, map_get k m = Some v → 0 < v.
Proof.
  intros [Hn Hp] k v Hk. apply map_get_elem in Hk; [|done]. unfold positive in Hp.
  rewrite Forall_forall in Hp. exact (Hp _ Hk).
Qed.

Lemma levels_ok_intro m : NoDup (keys m) → (∀ k v, map_get k m = Some v → 0 < v) → levels_ok m.
Proof.
  intros Hn Hg. split; [done|]. apply Forall_forall. intros [k v] Hin.
  by apply (Hg k), map_get_elem.
Qed.

Lemma levels_ok_set k v m : 0 < v → levels_ok m → levels_ok (map_set k v m).
Proof.
  intros Hv Hm. apply levels_ok_intro; [apply map_set_NoDup, Hm|]. intros k' v'.
  rewrite map_get_set. destruct (String.eqb k k'); [by intros [= <-]|by apply levels_ok_get].
Qed.

Lemma levels_ok_delete k m : levels_ok m → levels_ok (map_delete k m).
Proof.
  intros Hm. apply levels_ok_intro; [apply map_delete_NoDup, Hm|]. intros k' v'.
  rewrite map_get_delete. destruct (String.eqb k k'); [done|by apply levels_ok_get].
Qed.

Lemma book_ok_levels b s : book_ok b → levels_ok (levels b s).
Proof. intros [? ?]. by destruct s. Qed.

Lemma book_ok_set b s m : book_ok b → levels_ok m → book_ok (set_levels b s m).
Proof. intros [? ?] ?. by destruct s; split. Qed.

(** ** Publishing *)
Section Feed.
Context (px : string → Z).

Definition snapshot_ok (sn : snapshot) : Prop := levels_ok (sn_bids sn) ∧ levels_ok (sn_asks sn).

Lemma levels_ok_take n m : levels_ok m → levels_ok (take n m).
Proof.
  intros [Hn Hp]. rewrite <- (take_drop n m) in Hn, Hp. split.
  - unfold keys in *. rewrite fmap_app in Hn. by apply NoDup_app in Hn as (? & _ & _).
  - by apply Forall_app in Hp as [? _].
Qed.

Lemma levels_ok_Permutation m1 m2 : m1 ≡ₚ m2 → levels_ok m1 → levels_ok m2.
Proof. intros Hp [Hn Hpos]. unfold levels_ok, keys, positive in *. by rewrite <- Hp. Qed.

Lemma snapshotTop_ok symbol depth b : book_ok b → snapshot_ok (snapshotTop px symbol depth b).
Proof.
  intros [Hb Ha]. split; simpl; apply levels_ok_take;
    (eapply levels_ok_Permutation; [symmetry; apply sort_by_Permutation|done]).
Qed.

(** Two copies of a book: the same levels on each side. *)
Definition same_levels (x y : snapshot) : Prop := sn_bids x ≡ₚ sn_bids y ∧ sn_asks x ≡ₚ sn_asks y.

Lemma apply_changes_get l m k :
  NoDup (fst <$> l) →
  map_get k (apply_changes l m) =
    match map_get k l with
    | Some v => if isZeroQty v then None else Some v
    | None => map_get k m
    end.
Proof.
  revert m. induction l as [|[k1 v1] l IH]; intros m Hn; [done|].
  simpl in Hn. apply NoDup_cons in Hn as [Hk1 Hn]. cbn [apply_changes foldl fst snd].
  change (foldl _ ?x l) with (apply_changes l x). rewrite IH by done. rewrite map_get_cons.
  destruct (String.eqb_spec k1 k) as [->|Hne].
  - assert (map_get k l = None) as -> by by apply map_get_None.
    destruct (isZeroQty v1); [rewrite map_get_delete|rewrite map_get_set];
      by rewrite String.eqb_refl.
  - destruct (map_get k l); [done|]. destruct (isZeroQty v1); [rewrite map_get_delete|rewrite map_get_set];
      by rewrite (proj2 (String.eqb_neq k1 k)).
Qed.

Lemma apply_changes_NoDup l m : NoDup (keys m) → NoDup (keys (apply_changes l m)).
Proof.
  revert m. induction l as [|[k v] l IH]; intros m Hm; [done|]. cbn [apply_changes foldl].
  apply IH. simpl. destruct (isZeroQty v); [by apply map_delete_NoDup|by apply map_set_NoDup].
Qed.

Lemma side_delta_get prev next k :
  levels_ok prev → levels_ok next →
  NoDup (fst <$> side_delta prev next) ∧
  map_get k (side_delta prev next) =
    let a := default 0 (map_get k prev) in
    let b := default 0 (map_get k next) in
    if a =? b then None else Some b.
Proof.
  intros Hp Hn. unfold side_delta. rewrite !map_of_NoDup by (apply Hp || apply Hn).
  destruct (dedup_by_spec [] ((fst <$> prev) ++ (fst <$> next))) as [Hnd Hin].
  set (ks := dedup_by _ _ _) in *. cbv zeta.
  set (f k := if default 0 (map_get k prev) =? default 0 (map_get k next) then None
              else Some (k, default 0 (map_get k next))).
  assert (∀ l, NoDup l → NoDup (fst <$> omap f l) ∧
    ∀ k, map_get k (omap f l) = if bool_decide (k ∈ l) then snd <$> f k else None) as Hom.
  { clear. induction l as [|x l IH]; intros Hl; [by split; [constructor|]|].
    apply NoDup_cons in Hl as [Hx Hl]. destruct (IH Hl) as [Hn Hg].
    assert (∀ k, k ∈ fst <$> omap f l → k ∈ l) as Hsub.
    { intros k Hk. apply list_elem_of_fmap in Hk as ([k' v] & -> & Hk).
      apply list_elem_of_omap in Hk as (y & Hy & Hfy). unfold f in Hfy.
      destruct (_ =? _); [done|]. by injection Hfy as <- _. }
    unfold f at 1 3. simpl. unfold f at 1 2. destruct (_ =? _) eqn:E; simpl.
    - split; [done|]. intros k. rewrite Hg. destruct (decide (k = x)) as [->|Hne].
      + rewrite bool_decide_eq_false_2 by done. rewrite bool_decide_eq_true_2 by by left.
        unfold f. by rewrite E.
      + by rewrite (bool_decide_ext (k ∈ x :: l) (k ∈ l)) by set_solver.
    - split; [constructor; [|done]; by intros ?%Hsub|]. intros k. rewrite map_get_cons, Hg.
      destruct (String.eqb_spec x k) as [->|Hne].
      + rewrite bool_decide_eq_true_2 by by left. unfold f. by rewrite E.
      + by rewrite (bool_decide_ext (k ∈ x :: l) (k ∈ l)) by set_solver. }
  destruct (Hom ks Hnd) as [Hn1 Hg1]. split; [exact Hn1|]. rewrite Hg1.
  case_bool_decide as Hk.
  - unfold f. by destruct (_ =? _).
  - assert (map_get k prev = None ∧ map_get k next = None) as [-> ->]; [|done].
    rewrite !map_get_None. rewrite Hin in Hk. unfold keys. set_solver.
Qed.

(** Applying the published changes to the previous levels gives the next ones. *)
Lemma side_delta_apply prev prev' next :
  levels_ok prev → levels_ok next → prev' ≡ₚ prev →
  apply_changes (side_delta prev next) (map_of prev') ≡ₚ next.
Proof.
  intros Hp Hn Hperm. assert (levels_ok prev') as Hp'
    by (by eapply levels_ok_Permutation; [symmetry|]).
  rewrite map_of_NoDup by apply Hp'.
  apply map_get_ext; [apply apply_changes_NoDup, Hp'|apply Hn|]. intros k.
  destruct (side_delta_get prev next k Hp Hn) as [Hnd Hg].
  rewrite apply_changes_get, Hg by done. cbv zeta.
  rewrite (map_get_Permutation k prev' prev) by (apply Hp' || done).
  destruct (map_get k prev) as [a|] eqn:Ha, (map_get k next) as [b|] eqn:Hb; cbn [from_option id];
    try (apply (levels_ok_get _ Hp) in Ha); try (apply (levels_ok_get _ Hn) in Hb).
  - destruct (Z.eqb_spec a b) as [->|]; [done|]. unfold isZeroQty.
    by rewrite (proj2 (Z.leb_gt b 0)).
  - by rewrite (proj2 (Z.eqb_neq a 0)) by lia.
  - rewrite (proj2 (Z.eqb_neq 0 b)) by lia. unfold isZeroQty. by rewrite (proj2 (Z.leb_gt b 0)).
  - done.
Qed.
(** *** A market's publisher, the messages it sent, and a client *)
Record feed_sys := FeedSys {
  fs_ws : ws_engine;
  (** every message sent so far: the network may lose, repeat and reorder them *)
  fs_sent : list wire;
  fs_client : feed_client;
  (** the books published so far, with their numbers *)
  fs_published : list snapshot;
}.

Context (symbol : string).
Local Abbreviation top w := (snapshotTop px symbol DEFAULT_L2_DEPTH (we_book w)).

(** A subscription is quiet when the book in memory is the one last published. *)
Definition quiet (w : ws_engine) : Prop :=
  match we_last w with
  | Some l => same_levels (top w) l
  | None => True
  end.

(** The steps of the feed; subscriptions and REST answers are those that the two conditions
    of the theorem admit. *)
Inductive feed_step : feed_sys → feed_sys → Prop :=
  | fd_change w b sent c pub :
      book_ok b → feed_step (FeedSys w sent c pub) (FeedSys (set_book w b) sent c pub)
  | fd_publish w w' m sent c pub :
      ingestOrderbookFromMemory px symbol w = (m, w') →
      feed_step (FeedSys w sent c pub)
        (FeedSys w' (sent ++ option_list m) c (pub ++ option_list (we_last w')))
  | fd_resync w w' m sent c pub :
      buildOrderbookResyncWire px symbol w = (m, w') →
      feed_step (FeedSys w sent c pub)
        (FeedSys w' (sent ++ [m]) c (pub ++ option_list (we_last w')))
  (** a subscription of this or another client, of a market that is warm *)
  | fd_subscribe w w' sn sent c pub :
      quiet w → primeOrderbookStateFromSubscribe symbol (top w) w = (sn, w') →
      feed_step (FeedSys w sent c pub)
        (FeedSys w' (sent ++ [Full sn]) c
           (pub ++ match we_last w with None => [sn] | Some _ => [] end))
  | fd_receive w sent c pub m :
      m ∈ sent → feed_step (FeedSys w sent c pub) (FeedSys w sent (onmessage px m c) pub)
  (** the REST route answers with a published book *)
  | fd_rest w sent c pub sn p :
      p ∈ pub → sn_lastUpdateId sn = sn_lastUpdateId p → same_levels sn p →
      feed_step (FeedSys w sent c pub) (FeedSys w sent (rest_answer sn c) pub)
  | fd_reload w sent c pub n :
      feed_step (FeedSys w sent c pub) (FeedSys w sent (FeedClient symbol None None n) pub).

(** [x] is a copy of the published book [n]. *)
Definition copy_of (pub : list snapshot) (n : Z) (x : snapshot) : Prop :=
  ∃ p, p ∈ pub ∧ sn_lastUpdateId p = n ∧ same_levels x p.
Definition message_ok (pub : list snapshot) (m : wire) : Prop :=
  match m with
  | Update sn | Resync sn | Full sn =>
      sn_symbol sn = symbol ∧ copy_of pub (sn_lastUpdateId sn) sn
  | Delta s n db da =>
      s = symbol ∧ ∃ x y, snapshot_ok x ∧ snapshot_ok y ∧ copy_of pub (n - 1) x ∧ copy_of pub n y ∧
        db = side_delta (sn_bids x) (sn_bids y) ∧ da = side_delta (sn_asks x) (sn_asks y)
  end.
Definition client_ok (pub : list snapshot) (c : feed_client) : Prop :=
  fc_symbol c = symbol ∧
  match fc_book c, fc_lastSeq c with
  | Some b, Some n => copy_of pub n b
  | None, None => True
  | _, _ => False
  end.
Record feed_ok (s : feed_sys) : Prop := {
  fo_book : book_ok (we_book (fs_ws s));
  fo_published : ∀ p, p ∈ fs_published s → 0 < sn_lastUpdateId p ≤ we_seq (fs_ws s);
  fo_unique : ∀ p q, p ∈ fs_published s → q ∈ fs_published s →
    sn_lastUpdateId p = sn_lastUpdateId q → p = q;
  fo_last : match we_last (fs_ws s) with
            | None => we_seq (fs_ws s) = 0
            | Some l => snapshot_ok l ∧ 0 < sn_lastUpdateId l ∧
                        sn_lastUpdateId l = we_seq (fs_ws s) ∧
                        copy_of (fs_published s) (we_seq (fs_ws s)) l
            end;
  fo_sent : ∀ m, m ∈ fs_sent s → message_ok (fs_published s) m;
  fo_client : client_ok (fs_published s) (fs_client s);
}.

Lemma same_levels_refl x : same_levels x x.
Proof. by split. Qed.
Lemma same_levels_trans x y z : same_levels x y → same_levels y z → same_levels x z.
Proof. intros [H1 H2] [H3 H4]. split; [by rewrite H1|by rewrite H2]. Qed.
Lemma same_levels_sym x y : same_levels x y → same_levels y x.
Proof. intros [H1 H2]. by split. Qed.

Lemma copy_of_app pub pub' n x : copy_of pub n x → copy_of (pub ++ pub') n x.
Proof. intros (p & Hp & Hrest). exists p. split; [apply elem_of_app; by left|done]. Qed.
Lemma copy_of_snoc pub x : copy_of (pub ++ [x]) (sn_lastUpdateId x) x.
Proof. exists x. split; [apply elem_of_app; right; by left|]. split; [done|apply same_levels_refl]. Qed.
Lemma copy_of_same pub n x y : same_levels x y → copy_of pub n y → copy_of pub n x.
Proof. intros Hs (p & Hp & Hn & Hyp). exists p. do 2 (split; [done|]). by eapply same_levels_trans. Qed.

Lemma message_ok_app pub pub' m : message_ok pub m → message_ok (pub ++ pub') m.
Proof.
  destruct m as [sn|s n db da|sn|sn]; simpl.
  - intros [? ?]. split; [done|by apply copy_of_app].
  - intros (? & x & y & ? & ? & Hx & Hy & ?). split; [done|]. exists x, y.
    do 2 (split; [done|]). split; [by apply copy_of_app|]. split; [by apply copy_of_app|done].
  - intros [? ?]. split; [done|by apply copy_of_app].
  - intros [? ?]. split; [done|by apply copy_of_app].
Qed.
Lemma client_ok_app pub pub' c : client_ok pub c → client_ok (pub ++ pub') c.
Proof.
  intros [? Hc]. split; [done|]. destruct (fc_book c), (fc_lastSeq c); try done. by apply copy_of_app.
Qed.

(** A new book is published under the next number. *)
Lemma feed_ok_publish w sent c pub m sn :
  feed_ok (FeedSys w sent c pub) → snapshot_ok sn → sn_lastUpdateId sn = we_seq w + 1 →
  (∀ x, x ∈ m → message_ok (pub ++ [sn]) x) →
  feed_ok (FeedSys (WsEngine (we_book w) (we_seq w + 1) (Some sn) (we_warm w)) (sent ++ m) c
             (pub ++ [sn])).
Proof.
  intros [Hb Hp Hu Hl Hs Hc] Hsn Hnum Hm. simpl in *.
  assert (0 ≤ we_seq w) as Hpos by (destruct (we_last w); lia).
  split; simpl.
  - done.
  - intros p [Hin| ->%list_elem_of_singleton]%elem_of_app; [specialize (Hp p Hin)|]; lia.
  - intros p q [Hin| ->%list_elem_of_singleton]%elem_of_app
      [Hin'| ->%list_elem_of_singleton]%elem_of_app Heq; try done; [by apply Hu| |].
    + specialize (Hp p Hin). lia.
    + specialize (Hp q Hin'). lia.
  - split; [done|]. split; [lia|]. split; [done|]. rewrite <- Hnum. apply copy_of_snoc.
  - intros x [Hin|Hin]%elem_of_app; [apply message_ok_app; auto|auto].
  - by apply client_ok_app.
Qed.

Lemma numbered_ok sy n sn : snapshot_ok sn → snapshot_ok (numbered sy n sn).
Proof. done. Qed.

(** A copy of the book before a delta becomes a copy of the book after it. *)
Lemma delta_copy pub n b x y :
  snapshot_ok x → snapshot_ok y →
  (∀ p q, p ∈ pub → q ∈ pub → sn_lastUpdateId p = sn_lastUpdateId q → p = q) →
  copy_of pub n x → copy_of pub n b →
  copy_of pub (n + 1) y →
  copy_of pub (n + 1) (applyOrderbookDelta px b symbol (n + 1)
    (side_delta (sn_bids x) (sn_bids y)) (side_delta (sn_asks x) (sn_asks y))).
Proof.
  intros [Hxb Hxa] [Hyb Hya] Hu (p & Hp & Hpn & Hxp) (p' & Hp' & Hpn' & Hbp) Hy.
  assert (p' = p) as -> by (apply Hu; [done..|lia]).
  assert (same_levels b x) as [Hb Ha] by (eapply same_levels_trans; [done|by apply same_levels_sym]).
  apply copy_of_same with y; [|done]. split; simpl; rewrite sort_by_Permutation;
    by apply side_delta_apply.
Qed.

Lemma onmessage_ok pub m c :
  (∀ p q, p ∈ pub → q ∈ pub → sn_lastUpdateId p = sn_lastUpdateId q → p = q) →
  message_ok pub m → client_ok pub c → client_ok pub (onmessage px m c).
Proof.
  intros Hu Hm [Hsym Hc].
  assert (∀ sn, sn_symbol sn = symbol ∧ copy_of pub (sn_lastUpdateId sn) sn →
    client_ok pub (onOrderbook sn c)) as Hfull.
  { intros sn [Hs Hcopy]. unfold onOrderbook. rewrite Hs, Hsym, String.eqb_refl. by split. }
  destruct m as [sn|s n db da|sn|sn]; simpl in *; [by apply Hfull| |by apply Hfull..].
  destruct Hm as (-> & x & y & Hx & Hy & Hcx & Hcy & -> & ->).
  unfold onOrderbookDelta. rewrite Hsym, String.eqb_refl. cbn [negb].
  assert (client_ok pub c ∧ client_ok pub (ask_snapshot c)) as [Hc1 Hc2] by by split; split.
  destruct (fc_book c) as [b|] eqn:Hb, (fc_lastSeq c) as [k|] eqn:Hk; try done.
  destruct (n =? k); [done|]. destruct (n <? k); [done|].
  destruct (Z.eqb_spec n (k + 1)) as [->|]; [|done]. cbn [negb].
  split; [done|]. simpl. replace (k + 1 - 1) with k in Hcx by lia. by apply delta_copy.
Qed.

Lemma publish_ok w m w' sent c pub :
  feed_ok (FeedSys w sent c pub) → ingestOrderbookFromMemory px symbol w = (m, w') →
  feed_ok (FeedSys w' (sent ++ option_list m) c (pub ++ option_list (we_last w'))).
Proof.
  intros Hok. pose proof Hok as [Hb _ _ Hl _ _]. simpl in Hb, Hl.
  pose proof (snapshotTop_ok symbol DEFAULT_L2_DEPTH _ Hb) as Htop.
  unfold ingestOrderbookFromMemory, computeOrderbookWire.
  set (snap := numbered symbol (we_seq w + 1) (top w)).
  assert (∀ m0, (∀ x, x ∈ option_list m0 → message_ok (pub ++ [snap]) x) →
    feed_ok (FeedSys (WsEngine (we_book w) (we_seq w + 1) (Some snap) (we_warm w))
      (sent ++ option_list m0) c (pub ++ [snap]))) as Hpub.
  { intros m0 Hm0. by apply feed_ok_publish. }
  assert (message_ok (pub ++ [snap]) (Update snap)) as Hupd by (split; [done|apply copy_of_snoc]).
  destruct (we_last w) as [prev|] eqn:Hlast; cbv zeta.
  - destruct Hl as (Hprev & Hpos & Hnum & Hcopy).
    destruct (_ =? 0)%nat; [intros [= <- <-]; apply Hpub; by intros x Hx%elem_of_nil|].
    destruct (_ || _); intros [= <- <-]; apply Hpub; intros x ->%list_elem_of_singleton; [done|].
    split; [done|]. exists prev, snap. do 2 (split; [done|]).
    split; [|by split; [apply copy_of_snoc|]].
    replace (we_seq w + 1 - 1) with (we_seq w) by lia. by apply copy_of_app.
  - intros [= <- <-]. apply Hpub. by intros x ->%list_elem_of_singleton.
Qed.

Lemma feed_ok_step s s' : feed_ok s → feed_step s s' → feed_ok s'.
Proof.
  intros Hok Hst. destruct Hst as [w b sent c pub Hb|w w' m sent c pub Hrun|w w' m sent c pub Hrun
    |w w' sn sent c pub Hq Hrun|w sent c pub m Hm|w sent c pub sn p Hp Hnum Hsame|w sent c pub n].
  - destruct Hok as [_ Hp Hu Hl Hs Hc]. by split.
  - by eapply publish_ok.
  - unfold buildOrderbookResyncWire in Hrun. injection Hrun as <- <-.
    pose proof (snapshotTop_ok symbol DEFAULT_L2_DEPTH _ (fo_book _ Hok)) as Htop.
    apply feed_ok_publish; [done..|]. intros x ->%list_elem_of_singleton.
    split; [done|apply copy_of_snoc].
  - pose proof (snapshotTop_ok symbol DEFAULT_L2_DEPTH _ (fo_book _ Hok)) as Htop.
    unfold primeOrderbookStateFromSubscribe in Hrun. unfold quiet in Hq.
    destruct Hok as [Hb Hp Hu Hl Hs Hc]. simpl in *.
    destruct (we_last w) as [l|] eqn:Hlast.
    + destruct Hl as (Hlok & Hpos & Hnum & Hcopy).
      rewrite (proj2 (Z.ltb_lt _ _) Hpos) in Hrun. injection Hrun as <- <-. rewrite app_nil_r.
      set (snap := numbered _ _ _).
      assert (copy_of pub (sn_lastUpdateId l) snap) as Hsnap.
      { apply copy_of_same with l; [done|]. by rewrite Hnum. }
      split; simpl; try done.
      * split; [done|]. split; [done|]. split; [done|]. by rewrite <- Hnum.
      * intros x [Hin| ->%list_elem_of_singleton]%elem_of_app; [auto|]. by split.
    + injection Hrun as <- <-.
      pose proof (feed_ok_publish w sent c pub [Full (numbered symbol (we_seq w + 1) (top w))]
        (numbered symbol (we_seq w + 1) (top w))) as Hpub.
      apply Hpub; [|done|done|].
      * split; simpl; rewrite ?Hlast; done.
      * intros x ->%list_elem_of_singleton. split; [done|apply copy_of_snoc].
  - destruct Hok as [Hb Hp Hu Hl Hs Hc]. split; try done. simpl in *.
    apply onmessage_ok; [done|by apply Hs|done].
  - destruct Hok as [Hb Hpub Hu Hl Hs Hc]. split; try done. simpl in *. unfold rest_answer.
    destruct (_ <? _); [|done]. split; [apply Hc|]. simpl. by exists p.
  - destruct Hok as [Hb Hp Hu Hl Hs Hc]. by split.
Qed.

(** Before anything was published; the client has just opened the market. *)
Definition feed_start (s : feed_sys) : Prop :=
  book_ok (we_book (fs_ws s)) ∧ we_seq (fs_ws s) = 0 ∧ we_last (fs_ws s) = None ∧ fs_sent s = [] ∧
  fs_published s = [] ∧ fs_client s = FeedClient symbol None None 0.

(** C22. The client shows what the server published, under two conditions: a subscription, of
    any client, comes when the book in memory is the one last published ([quiet]), and the
    REST route answers with a published book under its own number. Then, whatever messages of
    a market are lost, repeated or reordered: the levels a client holds are those of the book
    the server published under the client's sequence number, no other book has that number,
    and a client at the server's current number holds the server's last book. Without the
    conditions it does not hold ([OrderBookDemo.subscription_hides_fill],
    [OrderBookDemo.cached_book_mislabelled]). *)
Theorem client_shows_published_book (s s' : feed_sys) (b : snapshot) (n : Z) :
  feed_start s → rtc feed_step s s' →
  fc_book (fs_client s') = Some b → fc_lastSeq (fs_client s') = Some n →
  (∃ p, p ∈ fs_published s' ∧ sn_lastUpdateId p = n ∧ same_levels b p ∧
     ∀ q, q ∈ fs_published s' → sn_lastUpdateId q = n → q = p) ∧
  n ≤ we_seq (fs_ws s') ∧
  (n = we_seq (fs_ws s') → ∀ l, we_last (fs_ws s') = Some l → same_levels b l).
Proof.
  intros (H1 & H2 & H3 & H4 & H5 & H6) Hrun Hb Hn.
  assert (feed_ok s) as Hok.
  { split; rewrite ?H3, ?H4, ?H5, ?H6; try done; try (by intros ? ?%elem_of_nil);
      try (by intros ? ? ?%elem_of_nil). }
  apply (rtc_invariant feed_step feed_ok s s' feed_ok_step Hok) in Hrun as [_ Hp Hu Hl _ [_ Hc]].
  rewrite Hb, Hn in Hc. destruct Hc as (p & Hpin & Hpn & Hbp). split; [|split].
  - exists p. do 3 (split; [done|]). intros q Hq Hqn. apply Hu; [done..|congruence].
  - specialize (Hp p Hpin). lia.
  - intros Heq l Hlast. rewrite Hlast in Hl. destruct Hl as (_ & _ & _ & q & Hq & Hqn & Hlq).
    assert (q = p) as -> by (apply Hu; [done..|congruence]).
    eapply same_levels_trans; [done|by apply same_levels_sym].
Qed.

(** When nothing changed no message is sent, but the number advances: every client that was up
    to date refuses the next delta and asks the REST route. *)
Theorem unchanged_publish_makes_gap (w w1 w2 : ws_engine) (b : symbol_book) (c : feed_client)
    (cur : snapshot) (s : string) (n : Z) (db da : book_levels) :
  ingestOrderbookFromMemory px symbol w = (None, w1) →
  ingestOrderbookFromMemory px symbol (set_book w1 b) = (Some (Delta s n db da), w2) →
  fc_symbol c = symbol → fc_book c = Some cur → fc_lastSeq c = Some (we_seq w) →
  onmessage px (Delta s n db da) c = ask_snapshot c.
Proof.
  intros Hnone Hdelta Hsym Hcur Hseq.
  assert (we_seq w1 = we_seq w + 1) as Hw1.
  { unfold ingestOrderbookFromMemory, computeOrderbookWire in Hnone.
    destruct (we_last w) as [prev|]; [|done]. cbv zeta in Hnone.
    destruct (_ =? 0)%nat; [by injection Hnone as <-|]. by destruct (_ || _). }
  unfold ingestOrderbookFromMemory, computeOrderbookWire in Hdelta.
  destruct (we_last (set_book w1 b)) as [prev|]; [|done]. cbv zeta in Hdelta.
  destruct (_ =? 0)%nat; [done|]. destruct (_ || _); [done|].
  injection Hdelta as <- <- _ _ _. simpl. rewrite Hw1. unfold onOrderbookDelta.
  rewrite Hsym, String.eqb_refl, Hcur, Hseq. simpl.
  rewrite (proj2 (Z.eqb_neq _ _)), (proj2 (Z.ltb_ge _ _)), (proj2 (Z.eqb_neq _ _)) by lia. done.
Qed.
End Feed.

(** ** The levels *)
Section Levels.
Context `{DecimalJs}.

(** A level: positive, of at most 12 decimals. *)
Definition level_typed (v : Z) : Prop := 0 < v ∧ (ulp 12 | v).
Definition side_typed (m : book_levels) : Prop := NoDup (keys m) ∧ Forall (λ l, level_typed (snd l)) m.
Definition book_typed (b : symbol_book) : Prop := side_typed (bids b) ∧ side_typed (asks b).

Inductive book_op :=
  | Add (s : side) (price : string) (qty : Z)
  | Remove (s : side) (price : string) (qty : Z)
  | Replace (sn : snapshot).
Definition run_op (b : symbol_book) (o : book_op) : symbol_book :=
  match o with
  | Add s p q => addLiquidity s p q QTY_PRECISION b
  | Remove s p q => removeLiquidity s p q QTY_PRECISION b
  | Replace sn => replaceFromSnapshot sn
  end.

(** Where no digit is lost: sums below 10^(precision - 12). A loaded snapshot may have any
    decimals, but what it lists as positive is at least 10^-12. *)
Definition LEVEL_LIMIT : Z := 10 ^ (24 + precision).
Definition op_fits (b : symbol_book) (o : book_op) : Prop :=
  match o with
  | Add s p q => default 0 (map_get p (levels b s)) + q < LEVEL_LIMIT
  | Remove _ _ _ => True
  | Replace sn => Forall (λ l, snd l ≤ 0 ∨ ulp 12 ≤ snd l) (sn_bids sn ++ sn_asks sn)
  end.
Fixpoint ops_fit (b : symbol_book) (l : list book_op) : Prop :=
  match l with
  | [] => True
  | o :: l' => op_fits b o ∧ ops_fit (run_op b o) l'
  end.

Lemma ulp_8_12 v : (ulp 8 | v) → (ulp 12 | v).
Proof. apply Z.divide_trans. exists (10 ^ 4). reflexivity. Qed.

Lemma side_typed_get m k v : side_typed m → map_get k m = Some v → level_typed v.
Proof.
  intros [Hn Hp] Hk. apply map_get_elem in Hk; [|done].
  rewrite Forall_forall in Hp. exact (Hp _ Hk).
Qed.

Lemma side_typed_intro m :
  NoDup (keys m) → (∀ k v, map_get k m = Some v → level_typed v) → side_typed m.
Proof.
  intros Hn Hg. split; [done|]. apply Forall_forall. intros [k v] Hin.
  by apply (Hg k), map_get_elem.
Qed.

Lemma side_typed_set k v m : level_typed v → side_typed m → side_typed (map_set k v m).
Proof.
  intros Hv Hm. apply side_typed_intro; [apply map_set_NoDup, Hm|]. intros k' v'.
  rewrite map_get_set. destruct (String.eqb k k'); [by intros [= <-]|by apply side_typed_get].
Qed.

Lemma side_typed_delete k m : side_typed m → side_typed (map_delete k m).
Proof.
  intros Hm. apply side_typed_intro; [apply map_delete_NoDup, Hm|]. intros k' v'.
  rewrite map_get_delete. destruct (String.eqb k k'); [done|by apply side_typed_get].
Qed.

Lemma book_typed_levels b s : book_typed b → side_typed (levels b s).
Proof. intros [? ?]. by destruct s. Qed.
Lemma book_typed_set b s m : book_typed b → side_typed m → book_typed (set_levels b s m).
Proof. intros [? ?] ?. by destruct s; split. Qed.

Lemma toDP_ulp p x : (ulp p | toDP p x).
Proof. apply trunc_divide. Qed.

Lemma level_nonneg m k : side_typed m → 0 ≤ default 0 (map_get k m) ∧ (ulp 12 | default 0 (map_get k m)).
Proof.
  intros Hm. destruct (map_get k m) as [v|] eqn:E; simpl; [|by split; [|apply Z.divide_0_r]].
  destruct (side_typed_get _ _ _ Hm E). split; [lia|done].
Qed.

Lemma replace_side_typed l :
  Forall (λ l, snd l ≤ 0 ∨ ulp 12 ≤ snd l) l → side_typed (replace_side l).
Proof.
  unfold replace_side. assert (side_typed []) as Hnil by (split; constructor). revert Hnil.
  generalize (@nil (string * Z)). induction l as [|[k v] l IH]; intros acc Hacc Hl; [done|].
  apply Forall_cons in Hl as [Hv Hl]. cbn [foldl]. apply IH; [|done]. simpl.
  destruct (Z.ltb_spec 0 v) as [Hpos|]; [|done]. apply side_typed_set; [|done].
  destruct Hv as [Hv|Hv]; simpl in Hv; [lia|]. unfold normQty. split; [|apply toDP_ulp].
  pose proof (trunc_mono (ulp 12) (ulp_pos 12) (ulp 12) v Hv) as Hmono. pose proof (ulp_pos 12).
  rewrite (trunc_exact (ulp 12) (ulp_pos 12) (ulp 12)) in Hmono by done. unfold toDP. lia.
Qed.

Lemma run_op_typed b o : book_typed b → op_fits b o → book_typed (run_op b o).
Proof.
  intros Hb Hfit. destruct o as [s p q|s p q|sn]; simpl.
  - unfold addLiquidity. destruct (Z.leb_spec (normQty q QTY_PRECISION) 0) as [|Hq]; [done|].
    apply book_typed_set; [done|]. apply side_typed_set; [|by apply book_typed_levels].
    destruct (level_nonneg (levels b s) p (book_typed_levels b s Hb)) as [Hprev Hdiv].
    set (prev := default 0 _) in *. unfold normQty in *.
    pose proof (toDP_ulp QTY_PRECISION q) as Hqdiv. simpl in Hfit.
    assert (0 ≤ q) as Hqnn.
    { destruct (Z.le_gt_cases 0 q) as [|Hneg]; [done|]. unfold toDP in Hq.
      pose proof (trunc_opp (ulp QTY_PRECISION) (ulp_pos _) (- q)) as Hopp.
      rewrite Z.opp_involutive in Hopp.
      pose proof (trunc_bounds (ulp QTY_PRECISION) (ulp_pos _) (- q)). lia. }
    pose proof (toDP_bounds QTY_PRECISION q Hqnn) as [_ [Hqle _]].
    assert (dplus prev (toDP QTY_PRECISION q) = prev + toDP QTY_PRECISION q) as ->.
    { unfold dplus. apply (sig_in_range 24). split; [lia|]. split.
      - apply Z.divide_add_r; [done|by apply ulp_8_12].
      - unfold LEVEL_LIMIT in Hfit. lia. }
    split; [|by apply ulp_8_12, toDP_ulp].
    enough (toDP QTY_PRECISION q ≤ toDP QTY_PRECISION (prev + toDP QTY_PRECISION q)) by lia.
    rewrite <- (toDP_idem QTY_PRECISION q) at 1. unfold toDP.
    apply trunc_mono; [apply ulp_pos|]. unfold toDP in *. lia.
  - unfold removeLiquidity. destruct (_ <=? 0); [done|]. apply book_typed_set; [done|].
    pose proof (book_typed_levels b s Hb) as Hs.
    destruct (Z.leb_spec (toDP QTY_PRECISION (dminus (default 0 (map_get p (levels b s)))
      (normQty q QTY_PRECISION))) 0) as [|Hpos]; [by apply side_typed_delete|].
    apply side_typed_set; [|done]. split; [done|]. apply ulp_8_12, toDP_ulp.
  - simpl in Hfit. apply Forall_app in Hfit as [H1 H2]. by split; apply replace_side_typed.
Qed.

(** C21. The levels of the in-memory book are well typed: whatever the order routes, the
    engine's fills and the loaded snapshots, of any number of decimals, do to a market's book,
    each side has every price text once, with a positive quantity of at most 12 decimals; no
    level of zero or less is ever kept. Two bounds: no sum loses digits, and no positive
    quantity of a snapshot is below 10^-12 ([dust_level] shows what such dust does). *)
Theorem book_levels_typed (ops : list book_op) :
  ops_fit empty_book ops → book_typed (foldl run_op empty_book ops).
Proof.
  assert (book_typed empty_book) as Hb by (by repeat constructor). revert Hb.
  generalize empty_book. induction ops as [|o ops IH]; intros b Hb Hfit; [done|].
  destruct Hfit as [Ho Hops]. apply IH; [by apply run_op_typed|done].
Qed.

(** Dust of a loaded snapshot becomes a level of quantity zero. *)
Lemma dust_level (price : string) (q : Z) :
  0 < q < ulp 12 → replaceFromSnapshot (Snapshot "" [(price, q)] [] 0) = SymbolBook [(price, 0)] [].
Proof.
  intros Hq. unfold replaceFromSnapshot, replace_side, normQty; simpl.
  rewrite (proj2 (Z.ltb_lt 0 q)) by lia. unfold toDP, trunc. by rewrite Z.quot_small by lia.
Qed.

Lemma book_typed_ok b : book_typed b → book_ok b.
Proof.
  assert (∀ m, side_typed m → levels_ok m) as Hs.
  { intros m [Hn Hp]. split; [done|]. eapply Forall_impl; [exact Hp|]. by intros ? [? _]. }
  intros [? ?]. by split; apply Hs.
Qed.
End Levels.

(** ** The book and the resting orders *)
Section Tracking.
Context `{DecimalJs} (px : string → Z).

Definition level (b : symbol_book) (s : side) (p : string) : Z :=
  default 0 (map_get p (levels b s)).

Lemma levels_set b s s' m :
  levels (set_levels b s m) s' = if bool_decide (s = s') then m else levels b s'.
Proof. by destruct s, s'. Qed.

(** Sums of 8 decimals that keep all their digits. *)
Definition BOOK_LIMIT : Z := 10 ^ (28 + precision).
Definition lots (v : Z) : Prop := (ulp 8 | v).

Lemma lots_sig x : lots x → Z.abs x < BOOK_LIMIT → sig x = x.
Proof. intros Hx Hb. apply (sig_in_range 28). by split. Qed.
Lemma lots_toDP x : lots x → toDP QTY_PRECISION x = x.
Proof. intros Hx. apply trunc_exact; [apply ulp_pos|exact Hx]. Qed.

Lemma addLiquidity_level b s p q s' p' :
  0 < q → lots q → 0 ≤ level b s p → lots (level b s p) → level b s p + q < BOOK_LIMIT →
  level (addLiquidity s p q QTY_PRECISION b) s' p' =
    level b s' p' + (if bool_decide (s = s' ∧ p = p') then q else 0).
Proof.
  intros Hq Hlq Hl Hll Hfit. unfold addLiquidity, normQty. rewrite lots_toDP by done.
  rewrite (proj2 (Z.leb_gt q 0)) by done. fold (level b s p). unfold dplus.
  rewrite lots_sig, lots_toDP; [| |by apply Z.divide_add_r|lia]; [|by apply Z.divide_add_r].
  unfold level at 1. rewrite levels_set. case_bool_decide as Hs; [subst s'|].
  - rewrite map_get_set. destruct (String.eqb_spec p p') as [->|Hp].
    + by rewrite bool_decide_eq_true_2.
    + rewrite bool_decide_eq_false_2 by (by intros [_ ?]). unfold level. lia.
  - rewrite bool_decide_eq_false_2 by (by intros [? _]). unfold level. lia.
Qed.

Lemma removeLiquidity_level b s p q s' p' :
  0 < q ≤ level b s p → lots q → lots (level b s p) → level b s p < BOOK_LIMIT →
  level (removeLiquidity s p q QTY_PRECISION b) s' p' =
    level b s' p' - (if bool_decide (s = s' ∧ p = p') then q else 0).
Proof.
  intros Hq Hlq Hll Hfit. unfold removeLiquidity, normQty. rewrite lots_toDP by done.
  rewrite (proj2 (Z.leb_gt q 0)) by lia. fold (level b s p). unfold dminus.
  rewrite lots_sig, lots_toDP; [| |by apply Z.divide_sub_r|lia]; [|by apply Z.divide_sub_r].
  unfold level at 1. rewrite levels_set. case_bool_decide as Hs; [subst s'|].
  - destruct (Z.leb_spec (level b s p - q) 0) as [Hz|Hz].
    + rewrite map_get_delete. destruct (String.eqb_spec p p') as [->|Hp].
      * rewrite bool_decide_eq_true_2 by done. simpl. lia.
      * rewrite bool_decide_eq_false_2 by (by intros [_ ?]). unfold level. lia.
    + rewrite map_get_set. destruct (String.eqb_spec p p') as [->|Hp].
      * by rewrite bool_decide_eq_true_2.
      * rewrite bool_decide_eq_false_2 by (by intros [_ ?]). unfold level. lia.
  - rewrite bool_decide_eq_false_2 by (by intros [? _]). unfold level. lia.
Qed.

(** The engine's resting orders of the market, and what the book holds beyond them. *)
Record resting := Resting { rs_side : side; rs_price : string; rs_rem : Z }.
Record book_spec := BookSpec {
  bs_orders : gmap string resting;
  bs_phantom : side → string → Z;
}.
Definition at_level (s : side) (p : string) (o : resting) : Z :=
  if bool_decide (rs_side o = s ∧ rs_price o = p) then rs_rem o else 0.
Definition resting_total (orders : gmap string resting) (s : side) (p : string) : Z :=
  msum (λ _, at_level s p) orders.
Definition total (sp : book_spec) (s : side) (p : string) : Z :=
  resting_total (bs_orders sp) s p + bs_phantom sp s p.

(** A fill of a maker's order; the order is gone when nothing remains. *)
Definition fill_order (takerSide : side) (id : string) (q : Z) (orders : gmap string resting) :
    option (string * gmap string resting) :=
  o ← orders !! id;
  if bool_decide (rs_side o = opposite takerSide ∧ 0 < q ≤ rs_rem o)
  then Some (rs_price o,
             if q =? rs_rem o then delete id orders
             else <[id := Resting (rs_side o) (rs_price o) (rs_rem o - q)]> orders)
  else None.
Definition bump (f : side → string → Z) (s : side) (p : string) (a : Z) : side → string → Z :=
  λ s' p', f s' p' + (if bool_decide (s = s' ∧ p = p') then a else 0).

(** A fill: [t] is the engine's text of the price, under which the quantity is taken out of
    the book; the order was added under the text of its column, [rs_price]. Either the two
    texts are the same, or [t] is the text of no level, and then what was filled stays in
    the book as phantom quantity. *)
Inductive fill_step (s : side) : book_spec * ws_engine → string * Z → book_spec * ws_engine → Prop :=
  | fill_one sp w id t q p orders' :
      lots q → fill_order s id q (bs_orders sp) = Some (p, orders') →
      t = p ∨ map_get t (levels (we_book w) (opposite s)) = None →
      fill_step s (sp, w) (t, q)
        (BookSpec orders' (if bool_decide (t = p) then bs_phantom sp
                           else bump (bs_phantom sp) (opposite s) p q),
         apply_engine_match s t q w).
(** The fills of one taker. *)
Inductive fills_run (s : side) : book_spec * ws_engine → list (string * Z) → book_spec * ws_engine → Prop :=
  | fills_nil st : fills_run s st [] st
  | fills_cons st f st1 fs st2 :
      fill_step s st f st1 → fills_run s st1 fs st2 → fills_run s st (f :: fs) st2.

(** What the exchange does to the orders, and what the routes do to the book, once the
    market is warm. [rests]: the rest of a limit order stays (it is neither IOC nor FOK). An
    order is cancelled when its fills have been settled, so that its row tells what is left. *)
Inductive book_step : book_spec * ws_engine → book_spec * ws_engine → Prop :=
  | bt_place sp w symbol rows id s p qty limit rests fills sp' w' :
      bs_orders sp !! id = None → 0 < qty → lots qty →
      fills_run s (sp, ensureMemoryBookHydrated px symbol rows w) fills (sp', w') →
      lsum snd fills ≤ qty → total sp s p + qty < BOOK_LIMIT →
      let rest := qty - lsum snd fills in
      let keeps := limit && rests && (0 <? rest) in
      book_step (sp, w)
        (BookSpec (if keeps then <[id := Resting s p rest]> (bs_orders sp') else bs_orders sp')
           (if limit then bump (bs_phantom sp') s p (if keeps then qty - rest else qty)
            else bs_phantom sp'),
         place_on_book px symbol rows s p qty limit fills w)
  | bt_fill st s f st' : fill_step s st f st' → book_step st st'
  | bt_cancel sp w symbol rows id o :
      bs_orders sp !! id = Some o →
      book_step (sp, w)
        (BookSpec (delete id (bs_orders sp)) (bs_phantom sp),
         cancel_on_book px symbol rows (rs_side o) (rs_price o) (rs_rem o) w).

Record tracked (st : book_spec * ws_engine) : Prop := {
  tk_warm : we_warm (snd st) = true;
  tk_level : ∀ s p, level (we_book (snd st)) s p = total (fst st) s p;
  tk_orders : ∀ id o, bs_orders (fst st) !! id = Some o → 0 < rs_rem o ∧ lots (rs_rem o);
  tk_phantom : ∀ s p, 0 ≤ bs_phantom (fst st) s p ∧ lots (bs_phantom (fst st) s p);
  tk_limit : ∀ s p, total (fst st) s p < BOOK_LIMIT;
}.

Definition good_orders (orders : gmap string resting) : Prop :=
  ∀ id o, orders !! id = Some o → 0 < rs_rem o ∧ lots (rs_rem o).

Lemma at_level_nonneg s p o : 0 < rs_rem o → 0 ≤ at_level s p o.
Proof. unfold at_level. case_bool_decide; lia. Qed.

Lemma resting_total_nonneg orders s p : good_orders orders → 0 ≤ resting_total orders s p.
Proof. intros Hg. apply msum_nonneg. intros id o Ho. apply at_level_nonneg, (Hg _ _ Ho). Qed.

Lemma resting_total_lots orders s p : good_orders orders → lots (resting_total orders s p).
Proof.
  unfold resting_total, lots. induction orders as [|id o orders Hid IH] using map_ind; intros Hg.
  - rewrite msum_empty. apply Z.divide_0_r.
  - rewrite msum_insert_None by done. apply Z.divide_add_r.
    + unfold at_level. case_bool_decide; [|apply Z.divide_0_r].
      apply (Hg id). apply lookup_insert_eq.
    + apply IH. intros id' o' Ho'. apply (Hg id'). rewrite lookup_insert_ne; [done|].
      intros ->. congruence.
Qed.

(** A fill takes its quantity from one level. *)
Lemma fill_order_total s id q orders p orders' :
  good_orders orders → lots q → fill_order s id q orders = Some (p, orders') →
  0 < q ≤ resting_total orders (opposite s) p ∧ good_orders orders' ∧
  (∀ s' p', resting_total orders' s' p' = resting_total orders s' p'
     - (if bool_decide (opposite s = s' ∧ p = p') then q else 0)) ∧
  (∀ id', orders !! id' = None → orders' !! id' = None).
Proof.
  intros Hg Hq Hf. unfold fill_order in Hf. destruct (orders !! id) as [o|] eqn:Ho; [|done].
  cbn [mbind option_bind] in Hf. case_bool_decide as Hc; [|done]. destruct Hc as [Hside Hqr].
  injection Hf as Hp Ho'. subst p. destruct (Hg id o Ho) as [Hrem Hlots].
  assert (∀ s' p', resting_total orders s' p' = at_level s' p' o + resting_total (delete id orders) s' p')
    as Hsplit by (intros s' p'; exact (msum_lookup (λ _, at_level s' p') orders id o Ho)).
  assert (good_orders (delete id orders)) as Hgd.
  { intros id' o1 H1. apply lookup_delete_Some in H1 as [_ H1]. by apply (Hg id'). }
  assert (∀ s' p', at_level s' p' o = if bool_decide (opposite s = s' ∧ rs_price o = p') then rs_rem o else 0)
    as Hat by (intros; unfold at_level; by rewrite Hside).
  split; [|split; [|split]].
  - rewrite Hsplit, Hat, bool_decide_eq_true_2 by done.
    pose proof (resting_total_nonneg _ (opposite s) (rs_price o) Hgd). lia.
  - subst orders'. destruct (Z.eqb_spec q (rs_rem o)); [done|]. intros id' o1.
    destruct (decide (id = id')) as [<-|Hne].
    + rewrite lookup_insert_eq. intros [= <-]. simpl. split; [lia|]. by apply Z.divide_sub_r.
    + rewrite lookup_insert_ne by done. apply Hg.
  - intros s' p'. rewrite Hsplit, Hat. subst orders'.
    destruct (Z.eqb_spec q (rs_rem o)) as [->|Hne]; [case_bool_decide; lia|].
    unfold resting_total. rewrite (msum_insert_Some _ _ _ _ _ Ho).
    pose proof (Hsplit s' p') as Hsp. unfold resting_total in Hsp. rewrite Hsp, Hat.
    unfold at_level. simpl. rewrite Hside. case_bool_decide; lia.
  - intros id' Hid'. subst orders'. destruct (_ =? _).
    + by rewrite lookup_delete_None; right.
    + rewrite lookup_insert_ne; [done|]. intros ->. congruence.
Qed.

Lemma total_bounds sp s p :
  good_orders (bs_orders sp) → (∀ s p, 0 ≤ bs_phantom sp s p ∧ lots (bs_phantom sp s p)) →
  resting_total (bs_orders sp) s p ≤ total sp s p ∧ 0 ≤ total sp s p ∧ lots (total sp s p).
Proof.
  intros Hg Hph. destruct (Hph s p). pose proof (resting_total_nonneg _ s p Hg).
  unfold total. split; [lia|]. split; [lia|].
  apply Z.divide_add_r; [by apply resting_total_lots|done].
Qed.

Lemma tracked_removal sp orders' w s p q :
  tracked (sp, w) → 0 < q ≤ resting_total (bs_orders sp) s p → lots q → good_orders orders' →
  (∀ s' p', resting_total orders' s' p' = resting_total (bs_orders sp) s' p'
     - (if bool_decide (s = s' ∧ p = p') then q else 0)) →
  tracked (BookSpec orders' (bs_phantom sp),
           set_book w (removeLiquidity s p q QTY_PRECISION (we_book w))).
Proof.
  intros [Hw Hl Ho Hph Hlim] Hq Hlots Hg Htot. simpl in *.
  destruct (total_bounds sp s p Ho Hph) as (Hle & Hnn & Htl).
  split; simpl; [done| |done|done|].
  - intros s' p'. rewrite removeLiquidity_level; rewrite ?Hl; [|lia|done|done|apply Hlim].
    unfold total. simpl. rewrite Htot. lia.
  - intros s' p'. specialize (Hlim s' p'). unfold total in *. simpl. rewrite Htot.
    case_bool_decide; lia.
Qed.

Lemma map_delete_absent k m : map_get k m = None → map_delete k m = m.
Proof.
  unfold map_delete. induction m as [|[k1 v1] m IH]; [done|]. rewrite map_get_cons, filter_cons.
  simpl. destruct (String.eqb_spec k1 k) as [->|Hne]; [done|]. intros Hm.
  rewrite decide_True by done. by rewrite IH.
Qed.

(** A fill whose price is another text of the same number leaves the book as it is: the orders'
    prices come from the database with 18 decimals, those of the fills from the engine. *)
Theorem fill_of_other_text (s : side) (p : string) (q : Z) (w : ws_engine) :
  0 < q < BOOK_LIMIT → lots q → map_get p (levels (we_book w) (opposite s)) = None →
  apply_engine_match s p q w = w.
Proof.
  intros Hq Hlots Hnone. unfold apply_engine_match, removeLiquidity, normQty.
  rewrite (lots_toDP q Hlots), (proj2 (Z.leb_gt q 0)), Hnone by lia. cbn [from_option id].
  unfold dminus. change (0 - q) with (- q). assert (lots (- q)) as Hneg by by apply Z.divide_opp_r.
  rewrite lots_sig, lots_toDP, (proj2 (Z.leb_le (- q) 0)) by (done || lia).
  rewrite map_delete_absent by done. destruct w as [[b a] sq l wm]. by destruct s.
Qed.
(** What a fill keeps of the totals and does to the phantoms. *)
Record after_fills (sp sp' : book_spec) : Prop := {
  af_free : ∀ id, bs_orders sp !! id = None → bs_orders sp' !! id = None;
  af_total : ∀ s p, total sp' s p ≤ total sp s p;
  af_phantom : ∀ s p, bs_phantom sp s p ≤ bs_phantom sp' s p;
}.

Lemma tracked_fill s st f st' :
  tracked st → fill_step s st f st' →
  tracked st' ∧ after_fills (fst st) (fst st') ∧ 0 < snd f ∧ lots (snd f).
Proof.
  intros Ht Hst. destruct Hst as [sp w id t q p orders' Hq Hf Htext]. cbn [fst snd].
  destruct (fill_order_total _ _ _ _ _ _ (tk_orders _ Ht) Hq Hf) as (Hle & Hg & Htot & Hnone).
  cbn [fst] in Hle, Htot, Hnone. case_bool_decide as Hp; [subst t|destruct Htext as [?|Habs]; [done|]].
  - split; [by apply tracked_removal|]. split; [|by split; [lia|]]. split; [done| |done].
    intros s' p'. unfold total; simpl. rewrite Htot. case_bool_decide; lia.
  - pose proof Ht as [Hw Hl Ho Hph Hlim]. cbn [fst snd] in *.
    destruct (total_bounds sp (opposite s) p Ho Hph) as (Htl & _ & _). specialize (Hlim (opposite s) p) as Hlt.
    rewrite fill_of_other_text by (done || lia).
    assert (∀ s' p', total (BookSpec orders' (bump (bs_phantom sp) (opposite s) p q)) s' p' = total sp s' p')
      as Hsame.
    { intros s' p'. unfold total, bump; simpl. rewrite Htot. case_bool_decide; lia. }
    split; [|split; [|by split; [lia|]]].
    + split; simpl; [done| |done| |].
      * intros s' p'. by rewrite Hsame.
      * intros s' p'. destruct (Hph s' p') as [H1 H2]. unfold bump. case_bool_decide.
        -- split; [lia|]. by apply Z.divide_add_r.
        -- by rewrite Z.add_0_r.
      * intros s' p'. by rewrite Hsame.
    + split; [done| |]; intros s' p'; [by rewrite Hsame|].
      unfold bump; simpl. case_bool_decide; lia.
Qed.

Lemma after_fills_trans a b c : after_fills a b → after_fills b c → after_fills a c.
Proof.
  intros [H1 H2 H3] [K1 K2 K3]. split; [auto|intros; by etransitivity; [apply K2|apply H2]|].
  intros; by etransitivity; [apply H3|apply K3].
Qed.

Lemma tracked_fills s st fills st' :
  tracked st → fills_run s st fills st' →
  tracked st' ∧ after_fills (fst st) (fst st') ∧ 0 ≤ lsum snd fills ∧ lots (lsum snd fills) ∧
  snd st' = foldl (λ w f, apply_engine_match s (fst f) (snd f) w) (snd st) fills.
Proof.
  intros Ht Hrun. induction Hrun as [st|st f st1 fs st2 Hone Hrun IH].
  { split; [done|]. split; [by split|]. split; [done|]. split; [apply Z.divide_0_r|done]. }
  destruct (tracked_fill s st f st1 Ht Hone) as (Ht1 & Ha & Hpos & Hlots).
  destruct (IH Ht1) as (Ht2 & Ha2 & Hpos2 & Hlots2 & Hw). split; [done|].
  split; [by eapply after_fills_trans|]. split; [simpl; lia|]. split; [by apply Z.divide_add_r|].
  rewrite Hw. by destruct Hone.
Qed.

Lemma warm_hydrate symbol rows w :
  we_warm w = true → ensureMemoryBookHydrated px symbol rows w = w.
Proof. intros Hw. unfold ensureMemoryBookHydrated. by rewrite Hw. Qed.

Lemma warm_fills s prices w :
  we_warm w = true → we_warm (foldl (λ w f, apply_engine_match s (fst f) (snd f) w) w prices) = true.
Proof. revert w. induction prices as [|f prices IH]; intros w Hw; [done|]. by apply IH. Qed.

(** The order that is added: what rests of it, and a phantom for what does not. *)
Lemma tracked_add sp w s p qty id rest (keeps : bool) :
  tracked (sp, w) → bs_orders sp !! id = None → 0 < qty → lots qty → total sp s p + qty < BOOK_LIMIT →
  lots rest → rest ≤ qty → (keeps = true → 0 < rest) →
  tracked (BookSpec (if keeps then <[id := Resting s p rest]> (bs_orders sp) else bs_orders sp)
             (bump (bs_phantom sp) s p (if keeps then qty - rest else qty)),
           set_book w (addLiquidity s p qty QTY_PRECISION (we_book w))).
Proof.
  intros [Hw Hl Ho Hph Hlim] Hid Hqty Hlots Hfit Hrl Hrle Hrest. simpl in *.
  destruct (total_bounds sp s p Ho Hph) as (_ & Hnn & Htl).
  set (orders := if keeps then _ else _). set (ph := bump _ _ _ _).
  assert (∀ s' p', total (BookSpec orders ph) s' p'
    = total sp s' p' + (if bool_decide (s = s' ∧ p = p') then qty else 0)) as Htot.
  { intros s' p'. unfold total, orders, ph, bump. simpl. destruct keeps.
    - unfold resting_total. rewrite msum_insert_None by done. change (at_level s' p' (Resting s p rest))
        with (if bool_decide (s = s' ∧ p = p') then rest else 0).
      destruct (bool_decide (s = s' ∧ p = p')); lia.
    - destruct (bool_decide (s = s' ∧ p = p')); lia. }
  split; simpl; [done| | | |].
  - intros s' p'. rewrite addLiquidity_level; rewrite ?Hl; [|done..]. by rewrite Htot.
  - intros id' o. unfold orders. destruct keeps; [|apply Ho].
    destruct (decide (id = id')) as [<-|Hne].
    + rewrite lookup_insert_eq. intros [= <-]. simpl. auto.
    + rewrite lookup_insert_ne by done. apply Ho.
  - intros s' p'. destruct (Hph s' p') as [H1 H2]. unfold ph, bump.
    case_bool_decide; [|rewrite Z.add_0_r; done].
    destruct keeps; (split; [lia|]); apply Z.divide_add_r; try done. by apply Z.divide_sub_r.
  - intros s' p'. rewrite Htot. specialize (Hlim s' p').
    case_bool_decide as Hc; [destruct Hc as [-> ->]|]; lia.
Qed.

Lemma tracked_step st st' : tracked st → book_step st st' → tracked st'.
Proof.
  intros Ht Hst. destruct Hst as [sp w symbol rows id s p qty limit rests fills sp' w'
    Hid Hqty Hlots Hfills Hsum Hfit rest keeps|st s f st' Hf|sp w symbol rows id o Ho].
  - pose proof (tk_warm _ Ht) as Hw. simpl in Hw. unfold place_on_book.
    rewrite warm_hydrate in * by done.
    destruct (tracked_fills s _ fills _ Ht Hfills) as (Ht2 & [Hfree Htot _] & Hpos & Hfl & Hw2).
    cbn [fst snd] in *. rewrite <- Hw2. rewrite (proj2 (Z.ltb_lt 0 qty)) by done.
    destruct limit; simpl.
    + apply (tracked_add sp' w' s p qty id rest keeps); try done.
      * by apply Hfree.
      * eapply Z.le_lt_trans; [|exact Hfit]. specialize (Htot s p). lia.
      * by apply Z.divide_sub_r.
      * subst rest. lia.
      * subst keeps. intros Hk. apply andb_prop in Hk as [_ Hk]. bool_prop. done.
    + by destruct sp'.
  - by destruct (tracked_fill s st f st' Ht Hf) as [? _].
  - pose proof (tk_warm _ Ht) as Hw. simpl in Hw. unfold cancel_on_book.
    rewrite warm_hydrate by done. destruct (tk_orders _ Ht id o Ho) as [Hrem Hlots].
    simpl in Ho. assert (∀ s' p', resting_total (bs_orders sp) s' p'
      = at_level s' p' o + resting_total (delete id (bs_orders sp)) s' p') as Hsplit
      by (intros s' p'; exact (msum_lookup (λ _, at_level s' p') _ id o Ho)).
    assert (good_orders (delete id (bs_orders sp))) as Hgd.
    { intros id' o1 H1. apply lookup_delete_Some in H1 as [_ H1]. by apply (tk_orders _ Ht id'). }
    apply tracked_removal; [done| |done|done|].
    + rewrite Hsplit. unfold at_level. rewrite bool_decide_eq_true_2 by done.
      pose proof (resting_total_nonneg _ (rs_side o) (rs_price o) Hgd). lia.
    + intros s' p'. rewrite Hsplit. unfold at_level. case_bool_decide; lia.
Qed.

(** C20. The in-memory book refines the engine's resting orders: from an empty warm market,
    over placements, fills and cancels (of orders whose fills are settled), the quantity of
    every level is the sum of what remains of the orders at that side and price text, plus a
    phantom quantity, which no later step takes away: of limit orders that did not rest in
    full, what they traded on arrival (or all of an IOC or FOK order), and of every fill
    whose price the engine writes with another text than the order's column, what it filled.
    The engine's text of a price is that of the maker's order or of no level. *)
Theorem book_tracks_orders (w : ws_engine) (st : book_spec * ws_engine) (s : side) (p : string) :
  we_warm w = true → we_book w = empty_book →
  rtc book_step (BookSpec ∅ (λ _ _, 0), w) st →
  level (we_book (snd st)) s p = resting_total (bs_orders (fst st)) s p + bs_phantom (fst st) s p ∧
  0 ≤ bs_phantom (fst st) s p ∧
  (∀ st', book_step st st' → bs_phantom (fst st) s p ≤ bs_phantom (fst st') s p).
Proof.
  intros Hw Hb Hrun.
  assert (tracked (BookSpec ∅ (λ _ _, 0), w)) as H0.
  { split; simpl; rewrite ?Hb; try done.
    - intros s' p'. unfold total, resting_total. simpl. rewrite msum_empty. by destruct s'.
    - intros ? ?. split; [done|apply Z.divide_0_r].
    - intros s' p'. unfold total, resting_total. simpl. rewrite msum_empty. apply pow10_pos.
      pose proof precision_pos. lia. }
  apply (rtc_invariant book_step tracked _ _ tracked_step H0) in Hrun as Ht.
  split; [apply (tk_level _ Ht)|]. split; [apply (tk_phantom _ Ht)|].
  intros st' Hst. destruct Hst as [sp w1 symbol rows id s0 p0 qty limit rests fills sp' w'
    Hid Hqty Hlots Hfills Hsum Hfit rest keeps|st s0 f st' Hf|sp w1 symbol rows id o Ho]; simpl; [| |lia].
  - pose proof (tk_warm _ Ht) as Hw1. simpl in Hw1. rewrite warm_hydrate in Hfills by done.
    destruct (tracked_fills s0 _ fills _ Ht Hfills) as (_ & [_ _ Hph] & Hpos & _). cbn [fst] in Hph.
    specialize (Hph s p). destruct limit; [|lia]. unfold bump. case_bool_decide; [|lia].
    subst rest. destruct keeps; lia.
  - destruct (tracked_fill s0 st f st' Ht Hf) as (_ & [_ _ Hph] & _). apply Hph.
Qed.
End Tracking.
