(* ===== verification/OrderBookDemo.v ===== *)
(** * The order book of a concrete market

    The theorems of [OrderBook] applied to a few orders, and the runs in which the public
    book differs from the orders or a client from the server. *)
From stdpp Require Import base gmap strings list fin_maps relations.
From Stdlib Require Import ZArith Lia.
From S2P Require Import Prelude Money SettlementModel OrderBookModel OrderBook.
Local Open Scope Z_scope.

#[local] Existing Instance decimal_36.

Definition demo_px (p : string) : Z :=
  if String.eqb p "100" then 100 else if String.eqb p "101" then 101 else
  if String.eqb p "99" then 99 else 0.
Definition coins (n : Z) : Z := dec n 0.

Lemma book_levels_typed_witness :
  let ops := [Add Sell "101" (coins 5); Add Buy "100" (coins 2); Remove Sell "101" (coins 5);
              Remove Sell "101" (coins 1);
              Replace (Snapshot "BTC_USDT" [("99", coins 3 + 1); ("98", 0)] [] 0);
              Add Buy "99" (coins 1)] in
  book_typed (foldl run_op empty_book ops) ∧
  bids (foldl run_op empty_book ops) = [("99", coins 4)].
Proof.
  split; [|vm_compute; reflexivity]. apply book_levels_typed.
  vm_compute. repeat split; try reflexivity; try exact I.
  constructor; [right; discriminate|]. constructor; [left; discriminate|constructor].
Defined.

(** Alice sells 5 at 101; Bob's limit order buys 2 of them on arrival. *)
Definition warm_engine : ws_engine := WsEngine empty_book 0 None true.
Definition after_ask : ws_engine :=
  place_on_book demo_px "BTC_USDT" [] Sell "101" (coins 5) true [] warm_engine.
Definition after_buy : ws_engine :=
  place_on_book demo_px "BTC_USDT" [] Buy "101" (coins 2) true [("101", coins 2)] after_ask.

Lemma lots_coins n : lots (coins n).
Proof. exists (n * 10 ^ 8). unfold coins, dec, SCALE. change (ulp 8) with (10 ^ 28). lia. Qed.

(** Bob's order is filled, but the book shows a bid of 2 at 101. *)
Lemma book_tracks_orders_witness :
  level (we_book after_buy) Sell "101" = coins 3 ∧ level (we_book after_buy) Buy "101" = coins 2 ∧
  ∃ sp, rtc (book_step demo_px) (BookSpec ∅ (λ _ _, 0), warm_engine) (sp, after_buy) ∧
    resting_total (bs_orders sp) Buy "101" = 0 ∧ bs_phantom sp Buy "101" = coins 2.
Proof.
  split; [vm_compute; reflexivity|]. split; [vm_compute; reflexivity|].
  assert (∃ sp, rtc (book_step demo_px) (BookSpec ∅ (λ _ _, 0), warm_engine) (sp, after_buy) ∧
    resting_total (bs_orders sp) Buy "101" = 0) as (sp & Hrun & H0).
  { eexists. split.
    - eapply rtc_l; [|eapply rtc_l; [|apply rtc_refl]].
      + eapply (bt_place demo_px _ warm_engine "BTC_USDT" [] "o1" Sell "101" (coins 5) true true []);
          [reflexivity|vm_compute; reflexivity|apply lots_coins|apply fills_nil
          |vm_compute; discriminate|vm_compute; reflexivity].
      + eapply (bt_place demo_px _ after_ask "BTC_USDT" [] "o2" Buy "101" (coins 2) true true
          [("101", coins 2)]);
          [vm_compute; reflexivity|vm_compute; reflexivity|apply lots_coins
          |eapply fills_cons; [|apply fills_nil]; eapply (fill_one _ _ _ "o1");
             [apply lots_coins|vm_compute; reflexivity|by left]
          |vm_compute; discriminate|vm_compute; reflexivity].
    - vm_compute. reflexivity. }
  exists sp. split; [exact Hrun|]. split; [exact H0|].
  pose proof (book_tracks_orders demo_px warm_engine _ Buy "101" eq_refl eq_refl Hrun) as (Hl & _ & _).
  cbn [fst snd] in Hl. rewrite H0 in Hl. rewrite Z.add_0_l in Hl. rewrite <- Hl.
  vm_compute. reflexivity.
Defined.

(** The first order after a restart is in the database when the book is loaded, and added
    once more. *)
Lemma cold_placement_counted_twice :
  let w := WsEngine empty_book 0 None false in
  let rows := [BookOrder "o1" Sell "101" (coins 5) true] in
  level (we_book (place_on_book demo_px "BTC_USDT" rows Sell "101" (coins 5) true [] w)) Sell "101"
    = coins 10.
Proof. vm_compute. reflexivity. Qed.

(** A cancel that loads the book takes its quantity from another user's order. *)
Lemma cold_cancel_takes_other_order :
  let w := WsEngine empty_book 0 None false in
  let rows := [BookOrder "o1" Sell "101" (coins 5) false; BookOrder "o2" Sell "101" (coins 7) true] in
  level (we_book (cancel_on_book demo_px "BTC_USDT" rows Sell "101" (coins 5) w)) Sell "101" = coins 2.
Proof. vm_compute. reflexivity. Qed.

(** The order's price text of the database and the engine's: the fill removes nothing. *)
Lemma fill_of_other_text_witness :
  let w := place_on_book demo_px "BTC_USDT" [] Sell "101.000000000000000000" (coins 5) true []
             warm_engine in
  apply_engine_match Buy "101" (coins 5) w = w.
Proof.
  apply fill_of_other_text; [split; vm_compute; reflexivity|apply lots_coins|vm_compute; reflexivity].
Defined.

(** ** A client *)
Definition ask (q : Z) : symbol_book := SymbolBook [("99", coins 1); ("100", coins 1)] [("101", q)].
Definition published (q : Z) (w : ws_engine) : option wire * ws_engine :=
  ingestOrderbookFromMemory demo_px "BTC_USDT" (set_book w (ask q)).
Definition new_client : feed_client := FeedClient "BTC_USDT" None None 0.

Lemma demo_feed_start : feed_start "BTC_USDT" (FeedSys warm_engine [] new_client []).
Proof. split; [by split; split; constructor|]. by repeat split. Qed.

(** The first book, then a delta. *)
Lemma client_shows_published_book_witness :
  let '(m1, w1) := published (coins 5) warm_engine in
  let '(m2, w2) := published (coins 4) w1 in
  let c := foldl (λ c m, onmessage demo_px m c) new_client (option_list m1 ++ option_list m2) in
  (sn_asks <$> fc_book c, fc_lastSeq c) = (Some [("101", coins 4)], Some 2) ∧
  ∃ b, fc_book c = Some b ∧ ∀ l, we_last w2 = Some l → same_levels b l.
Proof.
  destruct (published (coins 5) warm_engine) as [m1 w1] eqn:E1.
  destruct (published (coins 4) w1) as [m2 w2] eqn:E2.
  set (c := foldl _ _ _). vm_compute in E1. injection E1 as <- <-.
  vm_compute in E2. injection E2 as <- <-.
  split; [vm_compute; reflexivity|]. eexists. split; [vm_compute; reflexivity|]. intros l Hl.
  assert (∀ q, 0 < q → book_ok (ask q)) as Hask.
  { intros q Hq. split; (split; [vm_compute; repeat constructor; set_solver|]);
      repeat constructor; done. }
  match goal with |- same_levels ?b _ => set (book := b) end.
  match type of Hl with we_last ?w = _ => set (w2 := w) in * end.
  match goal with c := foldl _ _ (option_list ?x ++ option_list ?y) |- _ =>
    set (m1 := x) in *; set (m2 := y) in * end.
  assert (rtc (feed_step demo_px "BTC_USDT") (FeedSys warm_engine [] new_client [])
    (FeedSys w2 ([] ++ option_list m1 ++ option_list m2) c
       (([] ++ option_list (we_last (snd (published (coins 5) warm_engine)))) ++ option_list (we_last w2))))
    as Hrun.
  { eapply rtc_l; [by apply (fd_change _ _ _ (ask (coins 5))), Hask|].
    eapply rtc_l; [eapply fd_publish; vm_compute; reflexivity|].
    eapply rtc_l; [by apply (fd_change _ _ _ (ask (coins 4))), Hask|].
    eapply rtc_l; [eapply fd_publish; vm_compute; reflexivity|].
    eapply rtc_l; [eapply (fd_receive _ _ _ _ _ _ (default (Full (Snapshot "" [] [] 0)) m1)); vm_compute; by left|].
    eapply rtc_l; [eapply (fd_receive _ _ _ _ _ _ (default (Full (Snapshot "" [] [] 0)) m2)); vm_compute; by right; left|].
    vm_compute. apply rtc_refl. }
  destruct (client_shows_published_book demo_px "BTC_USDT" _ _ book 2 demo_feed_start Hrun)
    as (_ & _ & Hlast); [vm_compute; reflexivity..|].
  by apply Hlast.
Defined.

(** Between two publications a fill changes the book, another client subscribes, and an order
    changes the other side: the first client misses the fill, under the server's number. *)
Lemma subscription_hides_fill :
  let '(m1, w1) := published (coins 5) warm_engine in
  let filled := set_book w1 (ask (coins 4)) in
  let '(_, w2) := subscribe demo_px "BTC_USDT" [] filled in
  let '(m3, w3) := ingestOrderbookFromMemory demo_px "BTC_USDT"
                     (set_book w2 (SymbolBook [("100", coins 1)] [("101", coins 4)])) in
  let c := foldl (λ c m, onmessage demo_px m c) new_client (option_list m1 ++ option_list m3) in
  fc_lastSeq c = Some (we_seq w3) ∧
  (sn_asks <$> fc_book c) = Some [("101", coins 5)] ∧
  (sn_asks <$> we_last w3) = Some [("101", coins 4)].
Proof. vm_compute. repeat split. Qed.

(** The REST route labels a cached book with the number of the last broadcast. *)
Lemma cached_book_mislabelled :
  let '(m1, w1) := published (coins 5) warm_engine in
  let '(m2, w2) := published (coins 4) w1 in
  let cached := Snapshot "BTC_USDT" [("99", coins 1); ("100", coins 1)] [("101", coins 5)] 1 in
  let c := rest_answer (resolvePublicOrderbookSnapshot "BTC_USDT" cached 50 w2) new_client in
  fc_lastSeq c = Some (we_seq w2) ∧
  (sn_asks <$> fc_book c) = Some [("101", coins 5)] ∧
  (sn_asks <$> we_last w2) = Some [("101", coins 4)].
Proof. vm_compute. repeat split. Qed.
