(* ===== verification/AuthModel.v ===== *)
(** * Signing in: definitions

    One-time codes ([services/otp.service.ts] and the reset codes of
    [services/auth.service.ts]), sessions and the lock of an account
    ([services/session.service.ts]), the routes of [routes/auth.fastify.ts] that open, renew
    and close sessions, and [app.authenticate] of [server.ts]. Requests run beside each other
    and Redis may fail at any statement, so they are threads. Three things are recorded
    that no table holds: every code ever created ([ad_codes]), every code that a request
    presented to be compared, with the clock it was judged by ([ad_presented]), and how a
    session or a login token came to be ([origin], [lt_first], [lt_proofs]). No operation
    reads them, but the uuid of a new code is its number in [ad_codes], for an id no other
    row has had. Request bodies
    that do not match the JSON schema of their route are [FST_ERR_VALIDATION]; the rate
    limits before the routes are left out. *)
From stdpp Require Import base gmap strings list fin_maps.
From Stdlib Require Import ZArith Lia Ascii.
From S2P Require Import Prelude Threads Halt SettlementModel.
Local Open Scope Z_scope.

(** What node's crypto, bcrypt and the TOTP library compute. *)
Class AuthCrypto := {
  (** [createHmac('sha256', salt).update(otp).digest('hex')] *)
  hmac_sha256 : string → string → string;
  (** [pbkdf2Sync(otp, salt, 10000, 64, 'sha512').toString('hex')] *)
  pbkdf2_sha512 : string → string → string;
  (** [bcrypt.hash(password, salt)] *)
  bcrypt_hash : string → string → string;
  (** decrypting the stored secret and [totp.validate({ token, window: 1 }) !== null], at a time *)
  totp_valid : string → string → Z → bool;
}.

(** ** Tables *)
Inductive otp_type := Email | Phone | PasswordReset.
#[export] Instance otp_type_eq_dec : EqDecision otp_type.
Proof. solve_decision. Defined.
#[export] Instance otp_type_countable : Countable otp_type.
Proof.
  refine (inj_countable' (λ t, match t with Email => 0%nat | Phone => 1%nat | PasswordReset => 2%nat end)
            (λ n, match n with 0%nat => Email | 1%nat => Phone | _ => PasswordReset end) _).
  by intros [].
Defined.
(** The codes of a type and identifier; also the Redis key [otp:type:identifier]. *)
Notation otp_key := (otp_type * string)%type.

(** [otp_verifications], in the order of [created_at] *)
Record otp_row := OtpRow {
  or_id : nat; or_user : option string; or_key : otp_key; or_hash : string; or_salt : string;
  or_attempts : Z; or_max : Z; or_expires : Z; or_verified : option Z;
}.
Record cached_otp := CachedOtp { co_hash : string; co_salt : string; co_attempts : Z; co_expires : Z }.

Record auth_user := AuthUser {
  au_id : string; au_email : string; au_phone : option string; au_status : string;
  au_email_verified : bool; au_phone_verified : bool; au_password : option string;
  au_failed : Z; au_locked : option Z; au_sms_auth : bool; au_email_auth : bool;
  au_totp : bool; au_totp_secret : option string; au_deleted : bool;
}.

(** A code that was presented for an identifier, with the clock when it was accepted. *)
Record code_claim := Claim { cl_key : otp_key; cl_code : string; cl_time : Z }.
(** A verified step of a login: ['sms'], ['email'] or ['2fa'], its code and the clock. *)
Record step_proof := StepProof { sp_step : string; sp_code : string; sp_time : Z }.

(** The select that found the user of a login: with the columns of the second factors,
    without them, or by the last ten digits of the phone. *)
Inductive login_select := FullSelect | MinimalSelect | DigitsSelect.

Inductive origin :=
  | ByVerifyOtp (c : code_claim)
  | BySignup (k : otp_key)
  | ByLogin (sel : login_select) (c : code_claim)
  | BySteps (sel : login_select) (c : code_claim) (proofs : list step_proof)
  | ByRefresh (old : string).

(** [user_sessions] *)
Record session := Session { se_user : string; se_active : bool; se_expires : Z; se_origin : origin }.
(** The value of [session:id]; the routes that write it themselves leave [expiresAt] out. *)
Record cached_session := CachedSession { cs_user : string; cs_active : bool; cs_expires : option Z }.

(** [login_verification_tokens], by token *)
Record login_token := LoginToken {
  lt_user : string; lt_completed : list string; lt_required : list string; lt_current : Z;
  lt_expires : Z; lt_completed_at : option Z;
  lt_select : login_select; lt_first : code_claim; lt_proofs : list step_proof;
}.

Record auth_db := AuthDb {
  ad_now : Z;
  ad_users : list auth_user;
  ad_otps : list otp_row;
  ad_sessions : gmap string session;
  (** [sessions], which only the older service writes *)
  ad_legacy : gmap string (string * bool);
  ad_tokens : gmap string login_token;
  ad_otp_cache : gmap otp_key cached_otp;
  ad_session_cache : gmap string cached_session;
  (** [otp:verified:identifier] *)
  ad_flags : gset string;
  ad_codes : list otp_row;
  ad_presented : list code_claim;
}.

Definition set_now (now : Z) (d : auth_db) : auth_db :=
  AuthDb now (ad_users d) (ad_otps d) (ad_sessions d) (ad_legacy d) (ad_tokens d) (ad_otp_cache d)
    (ad_session_cache d) (ad_flags d) (ad_codes d) (ad_presented d).
Definition set_users (us : list auth_user) (d : auth_db) : auth_db :=
  AuthDb (ad_now d) us (ad_otps d) (ad_sessions d) (ad_legacy d) (ad_tokens d) (ad_otp_cache d)
    (ad_session_cache d) (ad_flags d) (ad_codes d) (ad_presented d).
Definition set_otps (rows : list otp_row) (d : auth_db) : auth_db :=
  AuthDb (ad_now d) (ad_users d) rows (ad_sessions d) (ad_legacy d) (ad_tokens d) (ad_otp_cache d)
    (ad_session_cache d) (ad_flags d) (ad_codes d) (ad_presented d).
Definition set_sessions (ss : gmap string session) (d : auth_db) : auth_db :=
  AuthDb (ad_now d) (ad_users d) (ad_otps d) ss (ad_legacy d) (ad_tokens d) (ad_otp_cache d)
    (ad_session_cache d) (ad_flags d) (ad_codes d) (ad_presented d).
Definition set_legacy (ss : gmap string (string * bool)) (d : auth_db) : auth_db :=
  AuthDb (ad_now d) (ad_users d) (ad_otps d) (ad_sessions d) ss (ad_tokens d) (ad_otp_cache d)
    (ad_session_cache d) (ad_flags d) (ad_codes d) (ad_presented d).
Definition set_tokens (ts : gmap string login_token) (d : auth_db) : auth_db :=
  AuthDb (ad_now d) (ad_users d) (ad_otps d) (ad_sessions d) (ad_legacy d) ts (ad_otp_cache d)
    (ad_session_cache d) (ad_flags d) (ad_codes d) (ad_presented d).
Definition set_otp_cache (c : gmap otp_key cached_otp) (d : auth_db) : auth_db :=
  AuthDb (ad_now d) (ad_users d) (ad_otps d) (ad_sessions d) (ad_legacy d) (ad_tokens d) c
    (ad_session_cache d) (ad_flags d) (ad_codes d) (ad_presented d).
Definition set_session_cache (c : gmap string cached_session) (d : auth_db) : auth_db :=
  AuthDb (ad_now d) (ad_users d) (ad_otps d) (ad_sessions d) (ad_legacy d) (ad_tokens d) (ad_otp_cache d)
    c (ad_flags d) (ad_codes d) (ad_presented d).
Definition set_flags (fs : gset string) (d : auth_db) : auth_db :=
  AuthDb (ad_now d) (ad_users d) (ad_otps d) (ad_sessions d) (ad_legacy d) (ad_tokens d) (ad_otp_cache d)
    (ad_session_cache d) fs (ad_codes d) (ad_presented d).
Definition log_code (r : otp_row) (d : auth_db) : auth_db :=
  AuthDb (ad_now d) (ad_users d) (ad_otps d) (ad_sessions d) (ad_legacy d) (ad_tokens d) (ad_otp_cache d)
    (ad_session_cache d) (ad_flags d) (ad_codes d ++ [r]) (ad_presented d).
Definition log_claim (c : code_claim) (d : auth_db) : auth_db :=
  AuthDb (ad_now d) (ad_users d) (ad_otps d) (ad_sessions d) (ad_legacy d) (ad_tokens d) (ad_otp_cache d)
    (ad_session_cache d) (ad_flags d) (ad_codes d) (ad_presented d ++ [c]).

(** [Date.now()], and [NOW()] in a statement *)
Definition clock : thread auth_db Z := stmt (gets ad_now).
(** The clock that judges the code [otp] a request presents for [k]. *)
Definition present (k : otp_key) (otp : string) : thread auth_db Z :=
  stmt (let* now := gets ad_now in modify (log_claim (Claim k otp now)) ;;; ret now).

(** ** Identifiers *)
Fixpoint sfilter (p : ascii → bool) (s : string) : string :=
  match s with "" => "" | String a s' => if p a then String a (sfilter p s') else sfilter p s' end.
Fixpoint sall (p : ascii → bool) (s : string) : bool :=
  match s with "" => true | String a s' => p a && sall p s' end.
Definition is_digit (a : ascii) : bool := let n := N_of_ascii a in (48 <=? n)%N && (n <=? 57)%N.
Definition digits (s : string) : string := sfilter is_digit s.
(** The part before the first [c] and the part after it. *)
Fixpoint cut (c : ascii) (s : string) : option (string * string) :=
  match s with
  | "" => None
  | String a s' => if Ascii.eqb a c then Some ("", s')
                   else match cut c s' with Some (l, r) => Some (String a l, r) | None => None end
  end.
(** A dot that is not the last character. *)
Fixpoint has_dot (s : string) : bool :=
  match s with
  | String a ((String _ _) as s') => Ascii.eqb a "." || has_dot s'
  | _ => false
  end.

(** [/^[^\s@]+@[^\s@]+\.[^\s@]+$/] *)
Definition email_like (s : string) : bool :=
  match cut "@" s with
  | Some (l, String a r) =>
      negb (String.eqb l "") && sall (λ a, negb (js_space a || Ascii.eqb a "@")) (l +:+ String a r) && has_dot r
  | _ => false
  end.
(** [/^\+?[1-9]\d{6,14}$/], after [replace(/[\s\-\(\)]/g, '')] *)
Definition phone_like (s : string) : bool :=
  let t := sfilter (λ a, negb (js_space a || Ascii.eqb a "-" || Ascii.eqb a "(" || Ascii.eqb a ")")) s in
  let t := match t with String "+" t' => t' | _ => t end in
  match t with
  | String a t' => is_digit a && negb (Ascii.eqb a "0") && sall is_digit t'
                   && (6 <=? String.length t')%nat && (String.length t' <=? 14)%nat
  | "" => false
  end.
Definition getIdentifierType (s : string) : option otp_type :=
  if email_like s then Some Email else if phone_like s then Some Phone else None.

Definition normalizePhoneNumber (phone : string) : string :=
  let cleaned := sfilter (λ a, is_digit a || Ascii.eqb a "+") phone in
  match cleaned with
  | String "+" _ => cleaned
  | _ =>
      if (String.length cleaned =? 10)%nat && sall is_digit cleaned
         && match cleaned with String a _ => (54 <=? N_of_ascii a)%N | "" => false end
      then "+91" +:+ cleaned
      else if String.prefix "91" cleaned && (String.length cleaned =? 12)%nat then "+" +:+ cleaned
      else "+" +:+ cleaned
  end.
Definition cleanIdentifier (t : otp_type) (s : string) : string :=
  match t with Email => lower (js_trim s) | _ => normalizePhoneNumber (js_trim s) end.

(** [s.slice(-10)] *)
Definition last10 (s : string) : string := String.substring (String.length s - 10) (String.length s) s.
(** [p LIKE '%' || x], for digits [x] *)
Definition ends_with (x p : string) : bool :=
  (String.length x <=? String.length p)%nat
  && String.eqb (String.substring (String.length p - String.length x) (String.length p) p) x.

(** [generateOTP]: a digit for every random number below 10 *)
Fixpoint generateOTP (draws : list nat) : string :=
  match draws with [] => "" | n :: l => String (ascii_of_nat (48 + n)) (generateOTP l) end.

Section Auth.
Context `{AuthCrypto}.

(** ** [services/otp.service.ts] *)
Definition OTP_TTL : Z := 10 * 60 * 1000.

Definition open_code (k : otp_key) (r : otp_row) : bool :=
  bool_decide (or_key r = k) && bool_decide (or_verified r = None).
Definition hash_code (k : otp_key) (otp salt : string) : string :=
  match k.1 with PasswordReset => pbkdf2_sha512 otp salt | _ => hmac_sha256 salt otp end.

Definition delete_open (k : otp_key) : M auth_db unit :=
  modify (λ d, set_otps (filter (λ r, open_code k r = false) (ad_otps d)) d).
Definition insert_otp (userId : option string) (k : otp_key) (h salt : string) (expires : Z) : M auth_db unit :=
  modify (λ d, let r := OtpRow (length (ad_codes d)) userId k h salt 0 3 expires None in
               log_code r (set_otps (ad_otps d ++ [r]) d)).
Definition update_otps (p : otp_row → bool) (f : otp_row → otp_row) : M auth_db unit :=
  modify (λ d, set_otps ((λ r, if p r then f r else r) <$> ad_otps d) d).
Definition bump_attempts (r : otp_row) : otp_row :=
  OtpRow (or_id r) (or_user r) (or_key r) (or_hash r) (or_salt r) (or_attempts r + 1) (or_max r)
    (or_expires r) (or_verified r).
Definition mark_verified (now : Z) (r : otp_row) : otp_row :=
  OtpRow (or_id r) (or_user r) (or_key r) (or_hash r) (or_salt r) (or_attempts r) (or_max r)
    (or_expires r) (Some now).
(** [SET verified_at = NOW()] *)
Definition verify_rows (p : otp_row → bool) : M auth_db unit :=
  let* now := gets ad_now in update_otps p (mark_verified now).
(** [ORDER BY created_at DESC LIMIT 1] of the rows that are not verified *)
Definition newest_open (k : otp_key) : M auth_db (option otp_row) :=
  gets (λ d, last (filter (λ r, open_code k r = true) (ad_otps d))).

Definition get_cached_otp (k : otp_key) : M auth_db (option cached_otp) := gets (λ d, ad_otp_cache d !! k).
Definition put_cached_otp (k : otp_key) (c : cached_otp) : M auth_db unit :=
  modify (λ d, set_otp_cache (<[k := c]> (ad_otp_cache d)) d).
Definition del_cached_otp (k : otp_key) : M auth_db unit :=
  modify (λ d, set_otp_cache (delete k (ad_otp_cache d)) d).

(** The random values of one attempt: the draws of the code and the salt. *)
Notation otp_draw := (list nat * string)%type.

(** [/timeout|connection|ECONNREFUSED|ECONNRESET/i] *)
Fixpoint contains (x s : string) : bool :=
  String.prefix x s || match s with "" => false | String _ s' => contains x s' end.
Definition retryable (e : string) : bool :=
  let e := lower e in
  existsb (λ x, contains x e) ["timeout"; "connection"; "econnrefused"; "econnreset"].

(** One attempt; the answer is the code and when it expires. *)
Definition create_attempt (k : otp_key) (userId : option string) (w : otp_draw) : thread auth_db (string * Z) :=
  let '(draws, salt) := w in
  let otp := generateOTP draws in
  await* now := clock in
  let h := hash_code k otp salt in
  await* _ := stmt (delete_open k) in
  await* _ := stmt (insert_otp userId k h salt (now + OTP_TTL)) in
  await* _ := best_effort (stmt (put_cached_otp k (CachedOtp h salt 0 (now + OTP_TTL)))) in
  tret (otp, now + OTP_TTL).

(** It is tried again twice after an error of the connection. *)
Fixpoint createOTP (k : otp_key) (userId : option string) (ws : list otp_draw) : thread auth_db (string * Z) :=
  match ws with
  | [] => tthrow "OTP creation failed after retries"
  | w :: ws' =>
      tcatch (create_attempt k userId w)
        (λ e, match ws' with [] => tthrow e | _ => if retryable e then createOTP k userId ws' else tthrow e end)
  end.

(** The answer of a verification; [vr_at] is the clock it read, which the code does not return. *)
Record otp_result := Verification { vr_valid : bool; vr_message : string; vr_at : Z }.

Definition verifyOTPFromDb (k : otp_key) (otp : string) : thread auth_db otp_result :=
  await* found := stmt (newest_open k) in
  match found with
  | None => tret (Verification false "OTP not found or expired" 0)
  | Some r =>
      await* now := present k otp in
      if or_expires r <? now then tret (Verification false "OTP has expired" now)
      else if or_max r <=? or_attempts r then tret (Verification false "Maximum attempts exceeded" now)
      else if negb (String.eqb (hmac_sha256 (or_salt r) otp) (or_hash r)) then
        await* _ := stmt (update_otps (λ x, (or_id x =? or_id r)%nat) bump_attempts) in
        tret (Verification false "Invalid OTP" now)
      else
        await* _ := stmt (verify_rows (λ x, (or_id x =? or_id r)%nat)) in
        await* _ := best_effort (stmt (del_cached_otp k)) in
        tret (Verification true "OTP verified successfully" now)
  end.

(** [flip] says which request of a [Promise.all] is served first. *)
Definition verifyOTP (flip : bool) (k : otp_key) (otp : string) : thread auth_db otp_result :=
  await* cached := tcatch (stmt (get_cached_otp k)) (λ _, tret None) in
  match cached with
  | None => verifyOTPFromDb k otp
  | Some c =>
      await* now := present k otp in
      if co_expires c <? now then
        await* _ := best_effort (stmt (del_cached_otp k)) in
        tret (Verification false "OTP has expired" now)
      else if 3 <=? co_attempts c then tret (Verification false "Maximum attempts exceeded" now)
      else if negb (String.eqb (hmac_sha256 (co_salt c) otp) (co_hash c)) then
        await* _ := both flip
          (best_effort (stmt (put_cached_otp k (CachedOtp (co_hash c) (co_salt c) (co_attempts c + 1) (co_expires c)))))
          (stmt (update_otps (open_code k) bump_attempts)) in
        tret (Verification false "Invalid OTP" now)
      else
        await* _ := both flip (stmt (verify_rows (open_code k))) (best_effort (stmt (del_cached_otp k))) in
        tret (Verification true "OTP verified successfully" now)
  end.

(** ** [services/session.service.ts] *)
Definition SESSION_TTL : Z := 7 * 24 * 60 * 60 * 1000.

Definition insert_session (sid : string) (s : session) : M auth_db unit :=
  let* free := gets (λ d, bool_decide (ad_sessions d !! sid = None)) in
  require free "duplicate key value violates unique constraint" ;;;
  modify (λ d, set_sessions (<[sid := s]> (ad_sessions d)) d).
Definition get_cached_session (sid : string) : M auth_db (option cached_session) :=
  gets (λ d, ad_session_cache d !! sid).
Definition put_cached_session (sid : string) (c : cached_session) : M auth_db unit :=
  modify (λ d, set_session_cache (<[sid := c]> (ad_session_cache d)) d).
Definition del_cached_session (sid : string) : M auth_db unit :=
  modify (λ d, set_session_cache (delete sid (ad_session_cache d)) d).

Definition createSession (userId sid : string) (o : origin) : thread auth_db unit :=
  await* now := clock in
  await* _ := stmt (insert_session sid (Session userId true (now + SESSION_TTL) o)) in
  best_effort (stmt (put_cached_session sid (CachedSession userId true (Some (now + SESSION_TTL))))).
(** What signup, login and its steps do instead. *)
Definition open_session (userId sid : string) (o : origin) : thread auth_db unit :=
  await* now := clock in
  await* _ := stmt (insert_session sid (Session userId true (now + SESSION_TTL) o)) in
  best_effort (stmt (put_cached_session sid (CachedSession userId true None))).

Definition isSessionValid (sid : string) : thread auth_db bool :=
  await* fast := tcatch
    (await* cached := stmt (get_cached_session sid) in
     match cached with
     | Some c => await* now := clock in
                 tret (Some (cs_active c && match cs_expires c with Some e => negb (e <? now) | None => true end))
     | None => tret None
     end) (λ _, tret None) in
  match fast with
  | Some b => tret b
  | None =>
      tcatch (await* row := stmt (gets (λ d, ad_sessions d !! sid)) in
              await* now := clock in
              tret match row with Some s => se_active s && negb (se_expires s <? now) | None => false end)
        (λ _, tret false)
  end.

Definition deactivate (s : session) : session := Session (se_user s) false (se_expires s) (se_origin s).
Definition revokeSession (sid : string) : thread auth_db unit :=
  await* _ := stmt (modify (λ d, set_sessions (alter deactivate sid (ad_sessions d)) d)) in
  best_effort (stmt (del_cached_session sid)).

(** [UPDATE user_sessions ... WHERE user_id = $1 AND id != $2 AND is_active = TRUE RETURNING id] *)
Definition revoke_others (userId current : string) : M auth_db (list string) :=
  let others (d : auth_db) := filter (λ '(sid, s), se_user s = userId ∧ sid ≠ current ∧ se_active s = true) (ad_sessions d) in
  let* ids := gets (λ d, (map_to_list (others d)).*1) in
  modify (λ d, set_sessions (foldr (alter deactivate) (ad_sessions d) ids) d) ;;;
  ret ids.
Definition revokeAllExceptCurrent (userId current : string) : thread auth_db nat :=
  await* ids := stmt (revoke_others userId current) in
  await* _ := tfold (λ _ sid, best_effort (stmt (del_cached_session sid))) tt ids in
  tret (length ids).

(** ** Users *)
Definition update_user (id : string) (f : auth_user → auth_user) : M auth_db unit :=
  modify (λ d, set_users ((λ u, if String.eqb (au_id u) id then f u else u) <$> ad_users d) d).
(** The columns that change: status, verified flags, password, failed logins, lock. *)
Definition user_with (status : string) (ev pv : bool) (pw : option string) (failed : Z) (locked : option Z)
    (u : auth_user) : auth_user :=
  AuthUser (au_id u) (au_email u) (au_phone u) status ev pv pw failed locked (au_sms_auth u) (au_email_auth u)
    (au_totp u) (au_totp_secret u) (au_deleted u).

Definition getAccountLockUntil (userId : string) : M auth_db (option Z) :=
  gets (λ d, u ← find (λ u, String.eqb (au_id u) userId) (ad_users d);
             e ← au_locked u; if ad_now d <? e then Some e else None).

Definition maxFailedLoginAttempts : Z := 5.
Definition lockoutMinutes : Z := 30.
Definition recordFailedLogin (userId : string) : M auth_db unit :=
  let* now := gets ad_now in
  update_user userId (λ u,
    let n := au_failed u + 1 in
    user_with (au_status u) (au_email_verified u) (au_phone_verified u) (au_password u) n
      (if maxFailedLoginAttempts <=? n then Some (now + lockoutMinutes * 60000) else au_locked u) u).
Definition clearFailedLoginAttempts (userId : string) : M auth_db unit :=
  update_user userId (λ u,
    user_with (au_status u) (au_email_verified u) (au_phone_verified u) (au_password u) 0 None u).

(** [WHERE email = $1] or [WHERE phone = $1], [AND deleted_at IS NULL] *)
Definition has_identifier (t : otp_type) (x : string) (u : auth_user) : bool :=
  negb (au_deleted u) &&
  match t with Email => String.eqb (au_email u) x | _ => bool_decide (au_phone u = Some x) end.
Definition select_user (p : auth_user → bool) : M auth_db (option auth_user) := gets (λ d, find p (ad_users d)).

(** [INSERT INTO users], with unique id, email and phone *)
Definition insert_user (u : auth_user) : M auth_db unit :=
  let* free := gets (λ d, forallb (λ x, negb (String.eqb (au_id x) (au_id u) || String.eqb (au_email x) (au_email u)
                 || (bool_decide (au_phone x = au_phone u) && bool_decide (au_phone u ≠ None)))) (ad_users d)) in
  require free "duplicate key value violates unique constraint" ;;;
  modify (λ d, set_users (ad_users d ++ [u]) d).
Definition new_user (id : string) (t : otp_type) (x hash : string) : auth_user :=
  match t with
  | Email => AuthUser id x None "active" true false (Some hash) 0 None false true false None false
  | _ => AuthUser id (digits x +:+ "@phone.local") (Some x) "active" false true (Some hash) 0 None false true false None false
  end.

(** ** The routes of [routes/auth.fastify.ts] *)
Inductive auth_reply :=
  | Refused (code : string)
  (** the code is mailed, or sent to the phone *)
  | Sent (identifier otp : string)
  | Verified
  | LoggedIn (userId sessionId : string)
  | NeedsSteps (token : string) (steps : list string) (mail : option (string * string))
  | StepDone (remaining : list string) (mail : option (string * string))
  | LoggedOut (others : nat)
  | Allowed (userId sessionId : string)
  | PasswordSet.
Definition rejected (code : string) : thread auth_db auth_reply := tret (Refused code).

(** [POST /send-otp]; the lookup of the user only tells the client whether it is new. *)
Definition send_otp (identifier : string) (ws : list otp_draw) : thread auth_db auth_reply :=
  if (String.length identifier <? 5)%nat || String.eqb (js_trim identifier) "" then rejected "INVALID_IDENTIFIER"
  else match getIdentifierType (js_trim identifier) with
  | None => rejected "INVALID_IDENTIFIER"
  | Some t =>
      let x := cleanIdentifier t identifier in
      tcatch (await* created := createOTP (t, x) None ws in tret (Sent x created.1))
        (λ _, rejected "OTP_CREATE_FAILED")
  end.

(** The schema of an identifier and a code. *)
Definition body_ok (identifier otp : string) : bool :=
  (5 <=? String.length identifier)%nat && (String.length otp =? 6)%nat.

(** What [POST /verify-otp] does for a valid code that is not for a signup. *)
Definition otp_login (flip : bool) (k : otp_key) (c : code_claim) (newId sid hash : string) : thread auth_db auth_reply :=
  let finish userId :=
    await* _ := both flip (createSession userId sid (ByVerifyOtp c)) (stmt (clearFailedLoginAttempts userId)) in
    tret (LoggedIn userId sid) in
  await* found := stmt (select_user (has_identifier k.1 k.2)) in
  match found with
  | None =>
      await* _ := stmt (insert_user (new_user newId k.1 k.2 hash)) in
      finish newId
  | Some u =>
      await* r := both flip (stmt (getAccountLockUntil (au_id u)))
                    (stmt (update_user (au_id u) (λ u,
                       user_with "active" (au_email_verified u || bool_decide (k.1 = Email))
                         (au_phone_verified u || bool_decide (k.1 = Phone)) (au_password u) (au_failed u) (au_locked u) u))) in
      match r.1 with
      | Some _ => rejected "ACCOUNT_LOCKED"
      | None => finish (au_id u)
      end
  end.

Definition verify_otp (flip : bool) (identifier otp : string) (signup : bool) (newId sid hash : string) :
    thread auth_db auth_reply :=
  tcatch
    (if negb (body_ok identifier otp) then rejected "FST_ERR_VALIDATION"
     else match getIdentifierType (js_trim identifier) with
    | None => rejected "INVALID_IDENTIFIER"
    | Some t =>
        let k := (t, cleanIdentifier t identifier) in
        await* v := verifyOTP flip k otp in
        if negb (vr_valid v) then
          await* u := stmt (select_user (has_identifier k.1 k.2)) in
          await* _ := match u with Some u => stmt (recordFailedLogin (au_id u)) | None => tret tt end in
          rejected "INVALID_OTP"
        else if signup then
          await* _ := best_effort (stmt (modify (λ d, set_flags ({[k.2]} ∪ ad_flags d) d))) in
          await* u := stmt (select_user (has_identifier k.1 k.2)) in
          match u with Some _ => rejected "USER_EXISTS" | None => tret Verified end
        else otp_login flip k (Claim k otp (vr_at v)) newId sid hash
    end)
    (λ _, rejected "VERIFY_OTP_FAILED").

(** [POST /signup]: the identifier is flagged, or a row of it was verified in the last ten
    minutes. The wallets, the referral and the statistics of the new user are left out. *)
Definition upper_ok (a : ascii) : bool := let n := N_of_ascii a in (65 <=? n)%N && (n <=? 90)%N.
Definition lower_ok (a : ascii) : bool := let n := N_of_ascii a in (97 <=? n)%N && (n <=? 122)%N.
Definition sany (p : ascii → bool) (s : string) : bool := negb (sall (λ a, negb (p a)) s).
Definition strong (password : string) : bool :=
  sany upper_ok password && sany lower_ok password && sany is_digit password.
Definition recently_verified (k : otp_key) : M auth_db bool :=
  gets (λ d, existsb (λ r, bool_decide (or_key r = k) && match or_verified r with
                           | Some t => ad_now d - 10 * 60 * 1000 <? t
                           | None => false
                           end) (ad_otps d)).
Definition signup (email phone : option string) (password newId sid salt : string) :
    thread auth_db auth_reply :=
  tcatch
    (let given o := match o with Some s => negb (String.eqb s "") | None => false end in
     if (String.length password <? 8)%nat || (30 <? String.length password)%nat then rejected "FST_ERR_VALIDATION"
     else if negb (strong password) then rejected "INVALID_PASSWORD"
     else if negb (given email) && negb (given phone) then rejected "MISSING_IDENTIFIER"
     else
       let t := if given email then Email else Phone in
       let x := if given email then lower (js_trim (default "" email)) else normalizePhoneNumber (default "" phone) in
       await* flagged := tcatch (stmt (gets (λ d, bool_decide (x ∈ ad_flags d)))) (λ _, tret false) in
       await* verified := if flagged : bool then tret true else stmt (recently_verified (t, x)) in
       if negb verified then rejected "OTP_NOT_VERIFIED"
       else
         await* u := stmt (select_user (has_identifier t x)) in
         match u with
         | Some _ => rejected "USER_EXISTS"
         | None =>
             await* _ := stmt (insert_user (new_user newId t x (bcrypt_hash password salt))) in
             await* _ := open_session newId sid (BySignup (t, x)) in
             await* _ := best_effort (stmt (modify (λ d, set_flags (ad_flags d ∖ {[x]}) d))) in
             tret (LoggedIn newId sid)
         end)
    (λ _, rejected "INTERNAL_ERROR").

(** [if (s)]: neither null nor empty *)
Definition truthy (o : option string) : option string := match o with Some "" => None | _ => o end.

(** The second factors the settings of a user ask for after a code of [loginMethod]. *)
Definition login_steps (loginMethod : otp_type) (u : auth_user) : list string :=
  (if bool_decide (loginMethod = Email) && au_sms_auth u && bool_decide (truthy (au_phone u) ≠ None) then ["sms"] else [])
  ++ (if bool_decide (loginMethod = Phone) && au_email_auth u && negb (String.eqb (au_email u) "") then ["email"] else [])
  ++ (if au_totp u && bool_decide (truthy (au_totp_secret u) ≠ None) then ["2fa"] else []).
(** The row that is read when the full select fails: without the columns of the factors. *)
Definition minimal (u : auth_user) : auth_user :=
  AuthUser (au_id u) (au_email u) (au_phone u) (au_status u) (au_email_verified u) (au_phone_verified u)
    (au_password u) (au_failed u) (au_locked u) false true false None (au_deleted u).

(** Where the code of a step goes. *)
Definition step_target (step : string) (u : auth_user) : option otp_key :=
  match (if String.eqb step "sms" then truthy (au_phone u) else None) with
  | Some p => Some (Phone, p)
  | None => if String.eqb step "email" && negb (String.eqb (au_email u) "") then Some (Email, au_email u) else None
  end.
(** The code of the next step, for the user's phone or mail. *)
Definition step_code (step : string) (u : auth_user) (ws : list otp_draw) :
    thread auth_db (option (string * string)) :=
  match step_target step u with
  | Some k => await* r := createOTP k None ws in tret (Some (k.2, r.1))
  | None => tret None
  end.

Definition email_matches (x : string) (u : auth_user) : bool :=
  negb (au_deleted u) && String.eqb (lower (au_email u)) (lower x).
Definition phone_ends (x : string) (u : auth_user) : bool :=
  negb (au_deleted u) && match au_phone u with Some p => ends_with x p | None => false end.

(** A select that names the columns of the second factors; in an older schema ([old]) they
    are missing. *)
Definition select_settings (old : bool) (p : auth_user → bool) : M auth_db (option auth_user) :=
  require (negb old) "column totp_enabled does not exist" ;;; select_user p.
(** [/column|does not exist|relation/i] *)
Definition missing_column (e : string) : bool :=
  existsb (λ x, contains x (lower e)) ["column"; "does not exist"; "relation"].

(** The user of a login: by the identifier, else by the last ten digits of the phone. The
    second answer says by which select, the third is the row the factors are read from. *)
Definition login_user (old : bool) (t : otp_type) (x raw : string) :
    thread auth_db (option (auth_user * login_select * auth_user)) :=
  let p := match t with Email => email_matches x | _ => has_identifier Phone x end in
  await* found :=
    tcatch (await* r := stmt (select_settings old p) in tret ((λ u, (u, FullSelect, u)) <$> r))
      (λ e, if missing_column e
            then await* r := stmt (select_user p) in tret ((λ u, (u, MinimalSelect, minimal u)) <$> r)
            else tthrow e) in
  match found, t with
  | Some f, _ => tret (Some f)
  | None, Email => tret None
  | None, _ =>
      let p := phone_ends (last10 (digits raw)) in
      tcatch (await* r := stmt (select_settings old p) in tret ((λ u, (u, DigitsSelect, u)) <$> r))
        (λ _, await* r := stmt (select_user p) in tret ((λ u, (u, DigitsSelect, minimal u)) <$> r))
  end.

(** What [POST /login] does for a valid code; [token] and [sid] are new uuids. *)
Definition login_checked (old : bool) (t : otp_type) (x raw : string) (c : code_claim) (token sid : string) (ws : list otp_draw) :
    thread auth_db auth_reply :=
  await* found := login_user old t x raw in
  match found with
  | None => rejected "USER_NOT_FOUND"
  | Some (u, sel, factors) =>
      if negb (String.eqb (au_status u) "active") then rejected "ACCOUNT_INACTIVE"
      else match login_steps t factors with
      | [] =>
          await* _ := open_session (au_id u) sid (ByLogin sel c) in
          tret (LoggedIn (au_id u) sid)
      | (first :: _) as steps =>
          await* now := clock in
          await* _ := stmt
            (let* free := gets (λ d, bool_decide (ad_tokens d !! token = None)) in
             require free "duplicate key value violates unique constraint" ;;;
             modify (λ d, set_tokens (<[token := LoginToken (au_id u) [] steps 0 (now + OTP_TTL) None sel c []]> (ad_tokens d)) d)) in
          await* mail := step_code first u ws in
          tret (NeedsSteps token steps mail)
      end
  end.

Definition login (flip old : bool) (email phone : option string) (otp token sid : string) (ws : list otp_draw) :
    thread auth_db auth_reply :=
  tcatch
    (let given o := match o with Some s => negb (String.eqb s "") | None => false end in
     if negb (String.length otp =? 6)%nat then rejected "FST_ERR_VALIDATION"
     else if negb (given email) && negb (given phone) then rejected "MISSING_IDENTIFIER"
     else
       let t := if given email then Email else Phone in
       let raw := default "" (if given email then email else phone) in
       let x := if given email then lower (js_trim raw) else normalizePhoneNumber raw in
       await* v := verifyOTP flip (t, x) otp in
       if negb (vr_valid v) then rejected "INVALID_OTP"
       else login_checked old t x raw (Claim (t, x) otp (vr_at v)) token sid ws)
    (λ _, rejected "INTERNAL_ERROR").

(** [POST /login/verify-step] *)
Definition check_step (flip : bool) (step code : string) (u : auth_user) : thread auth_db (bool * Z) :=
  match step_target step u with
  | Some k => await* v := verifyOTP flip k code in tret (vr_valid v, vr_at v)
  | None =>
      match (if String.eqb step "2fa" then truthy (au_totp_secret u) else None) with
      | Some secret => await* now := clock in tret (totp_valid secret code now, now)
      | None => tret (false, 0)
      end
  end.

Definition update_token (token : string) (f : login_token → login_token) : M auth_db unit :=
  modify (λ d, set_tokens (alter f token (ad_tokens d)) d).
Definition with_steps (completed : list string) (current : Z) (proofs : list step_proof) (r : login_token) : login_token :=
  LoginToken (lt_user r) completed (lt_required r) current (lt_expires r) (lt_completed_at r) (lt_select r) (lt_first r) proofs.
Definition complete_token (now : Z) (r : login_token) : login_token :=
  LoginToken (lt_user r) (lt_completed r) (lt_required r) (lt_current r) (lt_expires r) (Some now) (lt_select r)
    (lt_first r) (lt_proofs r).
Definition open_token (token : string) : M auth_db (option login_token) :=
  gets (λ d, r ← ad_tokens d !! token; if bool_decide (lt_completed_at r = None) then Some r else None).
Definition by_id (id : string) (u : auth_user) : bool := negb (au_deleted u) && String.eqb (au_id u) id.

(** From the verified step on. *)
Definition step_verified (token : string) (r : login_token) (u : auth_user) (p : step_proof) (sid : string)
    (ws : list otp_draw) : thread auth_db auth_reply :=
  let completed := lt_completed r ++ [sp_step p] in
  let proofs := lt_proofs r ++ [p] in
  let left := filter (λ s, s ∉ completed) (lt_required r) in
  await* _ := stmt (update_token token (with_steps completed (lt_current r + 1) proofs)) in
  match left with
  | next :: _ =>
      await* mail := step_code next u ws in
      tret (StepDone left mail)
  | [] =>
      await* _ := stmt (let* now := gets ad_now in update_token token (complete_token now)) in
      await* _ := open_session (au_id u) sid (BySteps (lt_select r) (lt_first r) proofs) in
      tret (LoggedIn (au_id u) sid)
  end.

Definition verify_step (flip : bool) (token step code sid : string) (ws : list otp_draw) : thread auth_db auth_reply :=
  tcatch
    (if negb (bool_decide (step ∈ ["sms"; "email"; "2fa"]) && (String.length code =? 6)%nat)
     then rejected "FST_ERR_VALIDATION"
     else
     await* found := stmt (open_token token) in
     match found with
     | None => rejected "INVALID_TOKEN"
     | Some r =>
         await* now := clock in
         if lt_expires r <? now then rejected "TOKEN_EXPIRED"
         else
           await* user := stmt (select_user (by_id (lt_user r))) in
           match user with
           | None => rejected "USER_NOT_FOUND"
           | Some u =>
               await* ok := check_step flip step code u in
               if negb ok.1 then rejected "INVALID_CODE"
               else step_verified token r u (StepProof step code ok.2) sid ws
           end
     end)
    (λ _, rejected "INTERNAL_ERROR").

(** [POST /login/resend-otp] *)
Definition resend_otp (token step : string) (ws : list otp_draw) : thread auth_db auth_reply :=
  tcatch
    (if negb (bool_decide (step ∈ ["sms"; "email"])) then rejected "FST_ERR_VALIDATION"
     else
     await* found := stmt (open_token token) in
     match found with
     | None => rejected "INVALID_TOKEN"
     | Some r =>
         await* now := clock in
         if lt_expires r <? now then rejected "TOKEN_EXPIRED"
         else
           await* user := stmt (select_user (λ u, String.eqb (au_id u) (lt_user r))) in
           match user with
           | None => rejected "USER_NOT_FOUND"
           | Some u =>
               await* mail := step_code step u ws in
               match mail with Some m => tret (Sent m.1 m.2) | None => rejected "INVALID_STEP" end
           end
     end)
    (λ _, rejected "INTERNAL_ERROR").

(** What a signed token says, once the JWT library has verified it. *)
Record payload := Payload { pl_user : string; pl_session : string; pl_type : option string; pl_by : option string }.

(** [POST /refresh] *)
Definition refresh (p : payload) (sid : string) : thread auth_db auth_reply :=
  tcatch
    (if negb (bool_decide (pl_type p = Some "refresh")) then rejected "INVALID_TOKEN"
     else
       await* cached := stmt (get_cached_session (pl_session p)) in
       match cached with
       | Some c =>
           if negb (cs_active c) then rejected "SESSION_EXPIRED"
           else
             await* user := stmt (select_user (by_id (pl_user p))) in
             match user with
             | None => rejected "USER_NOT_FOUND"
             | Some u =>
                 await* _ := createSession (au_id u) sid (ByRefresh (pl_session p)) in
                 await* _ := revokeSession (pl_session p) in
                 tret (LoggedIn (au_id u) sid)
             end
       | None => rejected "SESSION_EXPIRED"
       end)
    (λ _, rejected "INVALID_TOKEN").

(** [app.authenticate] *)
Definition authenticate (p : payload) : thread auth_db auth_reply :=
  tcatch
    (if bool_decide (pl_type p = Some "admin") then rejected "INVALID_TOKEN"
     else if bool_decide (pl_type p = Some "impersonation") && bool_decide (pl_by p ≠ None)
     then tret (Allowed (pl_user p) (pl_session p))
     else
       await* valid := isSessionValid (pl_session p) in
       if valid : bool then tret (Allowed (pl_user p) (pl_session p)) else rejected "SESSION_EXPIRED")
    (λ _, rejected "INVALID_TOKEN").
(** A route behind [preHandler: [app.authenticate]]. *)
Definition authenticated (p : payload) (k : string → string → thread auth_db auth_reply) : thread auth_db auth_reply :=
  await* a := authenticate p in
  match a with Allowed u s => k u s | r => tret r end.

(** [POST /logout] and [POST /logout-all-other] *)
Definition logout (p : payload) : thread auth_db auth_reply :=
  authenticated p (λ _ s, tcatch (await* _ := revokeSession s in tret (LoggedOut 0)) (λ _, rejected "LOGOUT_FAILED")).
Definition logout_all_other (p : payload) : thread auth_db auth_reply :=
  authenticated p (λ u s, tcatch (await* n := revokeAllExceptCurrent u s in tret (LoggedOut n))
                            (λ _, rejected "LOGOUT_ALL_FAILED")).

(** ** Resetting a password *)
(** [POST /password/reset/request] *)
Definition reset_request (identifier : string) (ws : list otp_draw) : thread auth_db auth_reply :=
  tcatch
    (if (String.length identifier <? 5)%nat then rejected "FST_ERR_VALIDATION"
     else match getIdentifierType (js_trim identifier) with
    | None => rejected "INVALID_IDENTIFIER"
    | Some t =>
        let x := cleanIdentifier t identifier in
        await* u := stmt (select_user (has_identifier t x)) in
        match u with
        | None => tret (Sent x "")
        | Some u =>
            await* r := createOTP (PasswordReset, x) (Some (au_id u)) ws in
            tret (Sent x r.1)
        end
    end)
    (λ _, rejected "INTERNAL_ERROR").

(** [verifyOTP] of [services/auth.service.ts], for a code to reset a password: the user. *)
Definition verify_reset (x otp : string) : thread auth_db (option string) :=
  let k := (PasswordReset, x) in
  await* found := stmt (newest_open k) in
  match found with
  | None => tthrow "OTP not found or expired"
  | Some r =>
      await* now := present k otp in
      if or_expires r <? now then tthrow "OTP has expired"
      else if or_max r <=? or_attempts r then tthrow "Maximum attempts exceeded"
      else if negb (String.eqb (pbkdf2_sha512 otp (or_salt r)) (or_hash r)) then
        await* _ := stmt (update_otps (λ y, (or_id y =? or_id r)%nat) bump_attempts) in
        tthrow "Invalid OTP"
      else
        await* _ := stmt (verify_rows (λ y, (or_id y =? or_id r)%nat)) in
        tret (or_user r)
  end.

Definition logoutAll (userId : string) : thread auth_db unit :=
  await* ids := stmt (gets (λ d, (map_to_list (filter (λ '(_, (u, active)), u = userId ∧ active = true) (ad_legacy d))).*1)) in
  await* _ := tfold (λ _ sid, stmt (del_cached_session sid)) tt ids in
  stmt (modify (λ d, set_legacy ((λ '(u, a), (u, a && negb (String.eqb u userId))) <$> ad_legacy d) d)).

Definition resetPassword (x otp newPassword salt : string) : thread auth_db unit :=
  await* userId := verify_reset x otp in
  match userId with
  | None => tthrow "Invalid reset request"
  | Some u =>
      if (String.length newPassword <? 8)%nat then tthrow "Password must be at least 8 characters"
      else
        await* _ := stmt (update_user u (λ u, user_with (au_status u) (au_email_verified u) (au_phone_verified u)
                            (Some (bcrypt_hash newPassword salt)) (au_failed u) (au_locked u) u)) in
        logoutAll u
  end.

(** [POST /password/reset] *)
Definition password_reset (identifier otp newPassword salt : string) : thread auth_db auth_reply :=
  if negb (body_ok identifier otp) then rejected "FST_ERR_VALIDATION"
  else if (String.length newPassword <? 8)%nat || negb (strong newPassword) then rejected "WEAK_PASSWORD"
  else match getIdentifierType (js_trim identifier) with
  | None => rejected "INVALID_IDENTIFIER"
  | Some t => tcatch (await* _ := resetPassword (cleanIdentifier t identifier) otp newPassword salt in tret PasswordSet) rejected
  end.
End Auth.
