(* ===== verification/Auth.v ===== *)
(** * Signing in: what a session stands for

    Over all interleavings of requests, failing statements and expiring Redis keys, a session
    belongs to somebody who presented a code that had been made for an identifier of its user
    at most ten minutes before, and a session that [POST /login] opened with the settings of
    its user at hand had every second factor verified. A session that was closed stays closed. One request after the other, the
    Redis cache of the codes and the table behind it are the same thing: a code can be tried
    three times and used once. *)
From stdpp Require Import base gmap strings list fin_maps relations.
From Stdlib Require Import ZArith Lia Ascii.
From S2P Require Import Prelude Threads Halt SettlementModel AuthModel.
Local Open Scope Z_scope.

(** ** Digits of phone numbers *)
Lemma sfilter_filter p q s : (∀ a, p a = true → q a = true) → sfilter p (sfilter q s) = sfilter p s.
Proof.
  intros Hpq. induction s as [|a s IH]; simpl; [done|]. destruct (q a) eqn:Hq; simpl.
  - destruct (p a); [f_equal|]; exact IH.
  - rewrite IH. destruct (p a) eqn:Hp; [|done]. by rewrite (Hpq _ Hp) in Hq.
Qed.
Lemma substring_all n s : (String.length s ≤ n)%nat → String.substring 0 n s = s.
Proof.
  revert n. induction s as [|a s IH]; intros [|n]; simpl; try done; [lia|].
  intros Hn. f_equal. apply IH. lia.
Qed.
Lemma last10_91 s : String.length s = 10%nat → last10 ("91" +:+ s) = last10 s.
Proof.
  intros Hl. unfold last10. change (String.length ("91" +:+ s)) with (2 + String.length s)%nat. rewrite Hl.
  change (String.substring (2 + 10 - 10) (2 + 10) ("91" +:+ s)) with (String.substring 0 12 s).
  change (10 - 10)%nat with 0%nat. rewrite !substring_all by lia. done.
Qed.

(** A phone number and its normal form have the same last ten digits. *)
Lemma normalize_last10 p : last10 (digits (normalizePhoneNumber p)) = last10 (digits p).
Proof.
  unfold normalizePhoneNumber. set (c := sfilter (λ a, is_digit a || Ascii.eqb a "+") p).
  assert (digits c = digits p) as Hc.
  { apply sfilter_filter. intros a Ha. by rewrite Ha. }
  assert (∀ s, digits ("+" +:+ s) = digits s) as Hplus by done.
  assert (∀ s, digits ("+91" +:+ s) = "91" +:+ digits s) as H91 by done.
  assert (∀ s, sall is_digit s = true → digits s = s) as Hall.
  { induction s as [|a s IH]; simpl; [done|]. intros [Ha Hs]%andb_prop. unfold digits in *. simpl.
    rewrite Ha. by rewrite IH. }
  assert (last10 (digits (if (String.length c =? 10)%nat && sall is_digit c
      && match c with String a _ => (54 <=? N_of_ascii a)%N | "" => false end then "+91" +:+ c
      else if String.prefix "91" c && (String.length c =? 12)%nat then "+" +:+ c else "+" +:+ c))
    = last10 (digits c)) as Hrest.
  { destruct (String.length c =? 10)%nat eqn:Hl; simpl.
    - destruct (sall is_digit c) eqn:Hd; simpl.
      + destruct (match c with "" => _ | String _ _ => _ end).
        * rewrite H91, last10_91; [done|]. rewrite Hall by done. by apply Nat.eqb_eq.
        * destruct (_ && _); by rewrite Hplus.
      + destruct (_ && _); by rewrite Hplus.
    - destruct (_ && _); by rewrite Hplus. }
  rewrite <- Hc. destruct c as [|[[] [] [] [] [] [] [] []] c']; solve [exact Hrest|reflexivity].
Qed.

Section Auth.
Context `{AuthCrypto}.

(** ** Facts that time does not take back *)
Definition static (u : auth_user) :=
  (au_id u, au_email u, au_phone u, au_sms_auth u, au_email_auth u, au_totp u, au_totp_secret u).
Definition person (d : auth_db) (u : auth_user) : Prop := static u ∈ static <$> ad_users d.

(** A request presented the code of the claim, and it was one that had been made for the
    identifier at most ten minutes before. *)
Definition proved (d : auth_db) (c : code_claim) : Prop :=
  c ∈ ad_presented d ∧ ∃ r, r ∈ ad_codes d ∧ or_key r = cl_key c ∧ hash_code (cl_key c) (cl_code c) (or_salt r) = or_hash r ∧
    or_expires r - OTP_TTL ≤ cl_time c ≤ or_expires r ∧ cl_time c ≤ ad_now d.
Definition step_proved (d : auth_db) (u : auth_user) (p : step_proof) : Prop :=
  (sp_step p = "sms" ∧ ∃ ph, truthy (au_phone u) = Some ph ∧ proved d (Claim (Phone, ph) (sp_code p) (sp_time p))) ∨
  (sp_step p = "email" ∧ proved d (Claim (Email, au_email u) (sp_code p) (sp_time p))) ∨
  (sp_step p = "2fa" ∧ ∃ secret, truthy (au_totp_secret u) = Some secret ∧ totp_valid secret (sp_code p) (sp_time p) = true).

Definition holds_identifier (k : otp_key) (u : auth_user) : Prop :=
  match k.1 with Email => lower (au_email u) = lower k.2 | _ => au_phone u = Some k.2 end.
Definition same_digits (x : string) (u : auth_user) : Prop :=
  ∃ p, au_phone u = Some p ∧ ends_with (last10 (digits x)) p = true.
(** The user a login found: by the identifier, or by the last ten digits. *)
Definition found_by (sel : login_select) (k : otp_key) (u : auth_user) : Prop :=
  match sel with DigitsSelect => k.1 = Phone ∧ same_digits k.2 u | _ => holds_identifier k u end.

(** Somebody who can read the codes of an identifier of the user. *)
Definition reaches (x : string) (u : auth_user) : Prop :=
  lower (au_email u) = lower x ∨ au_phone u = Some x ∨ same_digits x u.
Definition vouched (d : auth_db) (userId : string) : Prop :=
  ∃ c u, proved d c ∧ person d u ∧ au_id u = userId ∧ reaches (cl_key c).2 u.

(** Every second factor of the user's settings is among the proofs. *)
Definition all_steps (t : otp_type) (u : auth_user) (ps : list step_proof) : Prop :=
  ∀ step, step ∈ login_steps t u → ∃ p, p ∈ ps ∧ sp_step p = step.
Definition origin_ok (d : auth_db) (userId : string) (o : origin) : Prop :=
  match o with
  | ByVerifyOtp c => ∃ u, person d u ∧ au_id u = userId ∧ proved d c ∧ holds_identifier (cl_key c) u
  | BySignup k => ∃ u c, person d u ∧ au_id u = userId ∧ holds_identifier k u ∧ (cl_key c).2 = k.2 ∧ proved d c
  | ByLogin sel c => ∃ u, person d u ∧ au_id u = userId ∧ proved d c ∧ found_by sel (cl_key c) u ∧
      (sel = FullSelect → login_steps (cl_key c).1 u = [])
  | BySteps sel c ps => ∃ u, person d u ∧ au_id u = userId ∧ proved d c ∧ found_by sel (cl_key c) u ∧
      Forall (step_proved d u) ps ∧ (sel = FullSelect → all_steps (cl_key c).1 u ps)
  | ByRefresh old => ∃ s, ad_sessions d !! old = Some s ∧ se_user s = userId
  end.
Definition token_ok (d : auth_db) (r : login_token) : Prop :=
  ∃ u, person d u ∧ au_id u = lt_user r ∧ proved d (lt_first r) ∧ found_by (lt_select r) (cl_key (lt_first r)) u ∧
    (lt_select r = FullSelect → lt_required r = login_steps (cl_key (lt_first r)).1 u) ∧
    lt_completed r = sp_step <$> lt_proofs r ∧ Forall (step_proved d u) (lt_proofs r).

(** ** What others may do, and what always holds *)
Record auth_step (d d' : auth_db) : Prop := {
  as_now : ad_now d ≤ ad_now d';
  as_codes : ad_codes d `prefix_of` ad_codes d';
  as_presented : ad_presented d `prefix_of` ad_presented d';
  as_people : static <$> ad_users d `prefix_of` static <$> ad_users d';
  as_sessions : ∀ sid s, ad_sessions d !! sid = Some s →
    ∃ s', ad_sessions d' !! sid = Some s' ∧ se_user s' = se_user s ∧ se_origin s' = se_origin s;
  as_tokens : ∀ t r, ad_tokens d !! t = Some r →
    ∃ r', ad_tokens d' !! t = Some r' ∧ lt_user r' = lt_user r ∧ lt_required r' = lt_required r ∧
      lt_select r' = lt_select r ∧ lt_first r' = lt_first r;
}.
#[export] Instance auth_step_refl : Reflexive auth_step.
Proof. intros d. split; [done|done|done|done|eauto|eauto 10]. Qed.
#[export] Instance auth_step_trans : Transitive auth_step.
Proof.
  intros d1 d2 d3 [? ? ? ? Hs1 Ht1] [? ? ? ? Hs2 Ht2]. split; [lia|by etrans|by etrans|by etrans| |].
  - intros sid s Hs. destruct (Hs1 _ _ Hs) as (s' & Hs' & ? & ?). destruct (Hs2 _ _ Hs') as (s'' & ? & ? & ?).
    exists s''. split_and!; [done|congruence|congruence].
  - intros t r Hr. destruct (Ht1 _ _ Hr) as (r' & Hr' & ? & ? & ? & ?). destruct (Ht2 _ _ Hr') as (r'' & ? & ? & ? & ? & ?).
    exists r''. split_and!; congruence.
Qed.

Lemma person_mono d d' u : auth_step d d' → person d u → person d' u.
Proof. intros Hs Hu. eapply elem_of_prefix; [exact Hu|apply Hs]. Qed.
Lemma proved_mono d d' c : auth_step d d' → proved d c → proved d' c.
Proof.
  intros [Hn Hc Hp _ _ _] (Hin & r & Hr & ? & ? & ? & ?). split; [by eapply elem_of_prefix|].
  exists r. split_and!; try done; [by eapply elem_of_prefix|lia|lia|lia].
Qed.
Lemma step_proved_mono d d' u p : auth_step d d' → step_proved d u p → step_proved d' u p.
Proof.
  intros Hs [(? & ph & ? & Hp)|[(? & Hp)|(? & Hp)]].
  - left. split; [done|]. exists ph. split; [done|]. by apply (proved_mono d).
  - right; left. split; [done|]. by apply (proved_mono d).
  - by right; right.
Qed.
Lemma steps_proved_mono d d' u ps : auth_step d d' → Forall (step_proved d u) ps → Forall (step_proved d' u) ps.
Proof. intros Hs Hps. eapply Forall_impl; [exact Hps|]. intros p. by apply step_proved_mono. Qed.
Lemma vouched_mono d d' u : auth_step d d' → vouched d u → vouched d' u.
Proof.
  intros Hs (c & u' & Hc & Hp & ? & ?). exists c, u'. split_and!; [by apply (proved_mono d)|by apply (person_mono d)|done|done].
Qed.
Lemma origin_ok_mono d d' user o : auth_step d d' → origin_ok d user o → origin_ok d' user o.
Proof.
  intros Hs. destruct o as [c|k|e c|e c ps|old]; simpl.
  - intros (u & ? & ? & ? & ?). exists u. split_and!; try done; [by apply (person_mono d)|by apply (proved_mono d)].
  - intros (u & c & ? & ? & ? & ? & ?). exists u, c. split_and!; try done; [by apply (person_mono d)|by apply (proved_mono d)].
  - intros (u & ? & ? & ? & ? & ?). exists u. split_and!; try done; [by apply (person_mono d)|by apply (proved_mono d)].
  - intros (u & ? & ? & ? & ? & ? & ?). exists u.
    split_and!; try done; [by apply (person_mono d)|by apply (proved_mono d)|by apply (steps_proved_mono d)].
  - intros (s & Hold & <-). destruct (as_sessions _ _ Hs _ _ Hold) as (s' & ? & ? & _). exists s'. done.
Qed.
Lemma token_ok_mono d d' r : auth_step d d' → token_ok d r → token_ok d' r.
Proof.
  intros Hs (u & ? & ? & ? & ? & ? & ? & ?). exists u.
  split_and!; try done; [by apply (person_mono d)|by apply (proved_mono d)|by apply (steps_proved_mono d)].
Qed.

(** A row or a cached entry is a code that was made. *)
Definition row_made (d : auth_db) (r : otp_row) : Prop :=
  ∃ r0, ad_codes d !! or_id r = Some r0 ∧ or_key r0 = or_key r ∧ or_hash r0 = or_hash r ∧ or_salt r0 = or_salt r ∧
    or_expires r0 = or_expires r.
Definition accepted (d : auth_db) (k : otp_key) : Prop := ∃ c, cl_key c = k ∧ proved d c.
Definition row_ok (d : auth_db) (r : otp_row) : Prop :=
  row_made d r ∧ (or_verified r ≠ None → accepted d (or_key r)).
Definition cached_ok (d : auth_db) (k : otp_key) (c : cached_otp) : Prop :=
  ∃ r0, r0 ∈ ad_codes d ∧ or_key r0 = k ∧ or_hash r0 = co_hash c ∧ or_salt r0 = co_salt c ∧ or_expires r0 = co_expires c.
Definition flag_ok (d : auth_db) (x : string) : Prop := ∃ c, (cl_key c).2 = x ∧ proved d c.
Definition session_ok (d : auth_db) (s : session) : Prop := vouched d (se_user s) ∧ origin_ok d (se_user s) (se_origin s).

Record auth_ok (d : auth_db) : Prop := {
  ok_codes : ∀ i r, ad_codes d !! i = Some r → or_expires r - OTP_TTL ≤ ad_now d;
  ok_rows : ∀ r, r ∈ ad_otps d → row_ok d r;
  ok_cache : ∀ k c, ad_otp_cache d !! k = Some c → cached_ok d k c;
  ok_flags : ∀ x, x ∈ ad_flags d → flag_ok d x;
  ok_ids : NoDup (au_id <$> ad_users d);
  ok_sessions : ∀ sid s, ad_sessions d !! sid = Some s → session_ok d s;
  ok_tokens : ∀ t r, ad_tokens d !! t = Some r → token_ok d r;
}.

Lemma accepted_mono d d' k : auth_step d d' → accepted d k → accepted d' k.
Proof. intros Hs (c & ? & Hc). exists c. split; [done|]. by apply (proved_mono d). Qed.
Lemma row_ok_mono d d' r : auth_step d d' → row_ok d r → row_ok d' r.
Proof.
  intros Hs [(r0 & Hr0 & ? & ? & ? & ?) Hv]. split.
  - exists r0. split_and!; try done. by apply (prefix_lookup_Some (ad_codes d)), as_codes.
  - intros Hn. by apply (accepted_mono d), Hv.
Qed.
Lemma cached_ok_mono d d' k c : auth_step d d' → cached_ok d k c → cached_ok d' k c.
Proof.
  intros Hs (r0 & Hr0 & ?). exists r0. split; [|done]. eapply elem_of_prefix; [exact Hr0|apply Hs].
Qed.
Lemma flag_ok_mono d d' x : auth_step d d' → flag_ok d x → flag_ok d' x.
Proof. intros Hs (c & ? & ?). exists c. split; [done|]. by apply (proved_mono d). Qed.

(** A step of a request keeps what it does not write. *)
Lemma auth_ok_next d d' :
  auth_ok d → auth_step d d' →
  (∀ i r, ad_codes d' !! i = Some r → ad_codes d !! i = Some r ∨ or_expires r - OTP_TTL ≤ ad_now d') →
  (∀ r, r ∈ ad_otps d' → r ∈ ad_otps d ∨ row_ok d' r) →
  (∀ k c, ad_otp_cache d' !! k = Some c → ad_otp_cache d !! k = Some c ∨ cached_ok d' k c) →
  (∀ x, x ∈ ad_flags d' → x ∈ ad_flags d ∨ flag_ok d' x) →
  NoDup (au_id <$> ad_users d') →
  (∀ sid s, ad_sessions d' !! sid = Some s →
     (∃ s0, ad_sessions d !! sid = Some s0 ∧ se_user s = se_user s0 ∧ se_origin s = se_origin s0) ∨ session_ok d' s) →
  (∀ t r, ad_tokens d' !! t = Some r → ad_tokens d !! t = Some r ∨ token_ok d' r) →
  auth_ok d' ∧ auth_step d d'.
Proof.
  intros [Hc Hr Ho Hf Hi Hs Ht] Hst Hc' Hr' Ho' Hf' Hi' Hs' Ht'. split; [|done]. split.
  - intros i r Hi0. destruct (Hc' i r Hi0) as [Hold|]; [|done]. apply Hc in Hold. pose proof (as_now _ _ Hst). lia.
  - intros r Hin. destruct (Hr' r Hin) as [Hold|]; [|done]. by apply (row_ok_mono d), Hr.
  - intros k c Hk. destruct (Ho' k c Hk) as [Hold|]; [|done]. by apply (cached_ok_mono d), Ho.
  - intros x Hx. destruct (Hf' x Hx) as [Hold|]; [|done]. by apply (flag_ok_mono d), Hf.
  - done.
  - intros sid s Hsid. destruct (Hs' sid s Hsid) as [(s0 & Hold & Hu & Hor)|]; [|done].
    destruct (Hs _ _ Hold) as [Hv Hok]. split; rewrite Hu; [by apply (vouched_mono d)|]. rewrite Hor. by apply (origin_ok_mono d).
  - intros t r Htk. destruct (Ht' t r Htk) as [Hold|]; [|done]. by apply (token_ok_mono d), (Ht t).
Qed.

(** ** Facts as assertions of threads *)
Definition mono (P : auth_db → Prop) : Prop := ∀ d d', auth_step d d' → P d → P d'.

Lemma mono_stable P : mono P → stable auth_ok auth_step P.
Proof. intros HP d d' _ _ Hd Hs. by apply (HP d). Qed.
Lemma mono_const (F : Prop) : mono (λ _, F).
Proof. by intros d d'. Qed.
Lemma mono_and P Q : mono P → mono Q → mono (λ d, P d ∧ Q d).
Proof. intros HP HQ d d' Hs [? ?]. split; [by apply (HP d)|by apply (HQ d)]. Qed.
Lemma mono_all {X} (P : X → auth_db → Prop) : (∀ x, mono (P x)) → mono (λ d, ∀ x, P x d).
Proof. intros HP d d' Hs Hd x. by apply (HP x d). Qed.
Lemma mono_imp (F : Prop) P : mono P → mono (λ d, F → P d).
Proof. intros HP d d' Hs Hd Hf. apply (HP d); auto. Qed.
Lemma mono_now n : mono (λ d, n ≤ ad_now d).
Proof. intros d d' Hs Hn. pose proof (as_now _ _ Hs). lia. Qed.
Lemma mono_presented c : mono (λ d, c ∈ ad_presented d).
Proof. intros d d' Hs Hc. eapply elem_of_prefix; [exact Hc|apply Hs]. Qed.
Lemma mono_person u : mono (λ d, person d u).
Proof. intros d d'. apply person_mono. Qed.
Lemma mono_proved c : mono (λ d, proved d c).
Proof. intros d d'. apply proved_mono. Qed.
Lemma mono_step_proved u p : mono (λ d, step_proved d u p).
Proof. intros d d'. apply step_proved_mono. Qed.
Lemma mono_vouched u : mono (λ d, vouched d u).
Proof. intros d d'. apply vouched_mono. Qed.
Lemma mono_origin_ok u o : mono (λ d, origin_ok d u o).
Proof. intros d d'. apply origin_ok_mono. Qed.
Lemma mono_token_ok r : mono (λ d, token_ok d r).
Proof. intros d d'. apply token_ok_mono. Qed.
Lemma mono_cached_ok k c : mono (λ d, cached_ok d k c).
Proof. intros d d'. apply cached_ok_mono. Qed.
Lemma mono_row_ok r : mono (λ d, row_ok d r).
Proof. intros d d'. apply row_ok_mono. Qed.
Lemma mono_accepted k : mono (λ d, accepted d k).
Proof. intros d d'. apply accepted_mono. Qed.
Lemma mono_flag_ok x : mono (λ d, flag_ok d x).
Proof. intros d d'. apply flag_ok_mono. Qed.

(** What stays of a token record whatever is written to it. *)
Definition token_at (d : auth_db) (t : string) (r : login_token) : Prop :=
  ∃ r', ad_tokens d !! t = Some r' ∧ lt_user r' = lt_user r ∧ lt_required r' = lt_required r ∧
    lt_select r' = lt_select r ∧ lt_first r' = lt_first r.
Lemma mono_token_at t r : mono (λ d, token_at d t r).
Proof.
  intros d d' Hs (r' & Hr & ? & ? & ? & ?). destruct (as_tokens _ _ Hs _ _ Hr) as (r'' & ? & ? & ? & ? & ?).
  exists r''. split_and!; congruence.
Qed.
Definition session_of (d : auth_db) (sid user : string) : Prop := ∃ s, ad_sessions d !! sid = Some s ∧ se_user s = user.
Lemma mono_session_of sid u : mono (λ d, session_of d sid u).
Proof.
  intros d d' Hs (s & Hsid & <-). destruct (as_sessions _ _ Hs _ _ Hsid) as (s' & ? & ? & _). by exists s'.
Qed.
End Auth.

Ltac mono :=
  repeat first
    [ assumption | apply mono_const | apply mono_person | apply mono_proved | apply mono_step_proved
    | apply mono_vouched | apply mono_origin_ok | apply mono_token_ok | apply mono_cached_ok | apply mono_row_ok
    | apply mono_accepted | apply mono_flag_ok | apply mono_token_at | apply mono_session_of | apply mono_now
    | apply mono_presented
    | apply mono_and | (apply mono_all; intros ?) | (apply mono_imp; intros ?) ].
Ltac stable := apply mono_stable; mono.

(** The next statement of a thread, and the fact [F] its answer is known by. *)
Ltac next F := eapply (yields_bind _ _ _ F); [stable| |].

Section Auth.
Context `{AuthCrypto}.
Notation yields := (yields auth_ok auth_step).

(** ** The statements *)
(** Steps that write neither users, sessions nor tokens. *)
Lemma step_same d d' :
  ad_now d' = ad_now d → ad_codes d `prefix_of` ad_codes d' → ad_presented d `prefix_of` ad_presented d' →
  ad_users d' = ad_users d → ad_sessions d' = ad_sessions d → ad_tokens d' = ad_tokens d → auth_step d d'.
Proof.
  intros Hn Hc Hp Hu Hs Ht. split; rewrite ?Hn, ?Hu, ?Hs, ?Ht; [done|done|done|done|eauto|eauto 10].
Qed.

Lemma yields_select_user (P : auth_db → Prop) p :
  mono P → yields P (stmt (select_user p)) (λ o d, ∀ u, o = Some u → person d u ∧ p u = true).
Proof.
  intros HP. apply yields_gets; [stable|]. intros d Hd _ u Hf. apply find_some in Hf as [Hin Hp]. split; [|done].
  unfold person. apply list_elem_of_fmap. exists u. split; [done|]. by apply list_elem_of_In.
Qed.

Lemma yields_clock (P : auth_db → Prop) (Q : Z → Prop) :
  mono P → (∀ d, auth_ok d → P d → Q (ad_now d)) → yields P clock (λ n d, n ≤ ad_now d ∧ Q n).
Proof. intros HP HQ. apply yields_gets; [stable|]. intros d Hd Hp. split; [lia|by apply HQ]. Qed.

(** A code is presented: it is in the record, with the clock. *)
Lemma yields_present (P : auth_db → Prop) (Q : Z → Prop) k otp :
  mono P → (∀ d, auth_ok d → P d → Q (ad_now d)) →
  yields P (present k otp) (λ n d, n ≤ ad_now d ∧ Q n ∧ Claim k otp n ∈ ad_presented d).
Proof.
  intros HP HQ. apply yields_stmt; [stable|]. intros d Hd Hp. simpl.
  set (d' := log_claim (Claim k otp (ad_now d)) d).
  assert (auth_step d d') as Hs by (apply step_same; try done; by apply prefix_app_r).
  destruct (auth_ok_next d d' Hd Hs) as [? ?]; simpl; eauto 6; [apply Hd|].
  split_and!; [done|done|lia|by apply HQ|]. apply elem_of_app. right. by apply list_elem_of_singleton.
Qed.

Lemma yields_otps (P : auth_db → Prop) (f : auth_db → list otp_row) :
  mono P →
  (∀ d, auth_ok d → P d → ∀ r, r ∈ f d → row_ok d r) →
  yields P (stmt (modify (λ d, set_otps (f d) d))) (λ _ _, True).
Proof.
  intros HP Hf. apply yields_stmt; [stable|]. intros d Hd Hp. simpl.
  assert (auth_step d (set_otps (f d) d)) as Hs by by apply step_same.
  destruct (auth_ok_next d (set_otps (f d) d) Hd Hs) as [? ?]; simpl; eauto 6; [|apply Hd].
  intros r Hr. right. apply (row_ok_mono d); [done|]. by apply (Hf d Hd Hp).
Qed.

Lemma yields_delete_open (P : auth_db → Prop) k : mono P → yields P (stmt (delete_open k)) (λ _ _, True).
Proof.
  intros HP. apply yields_otps; [done|]. intros d Hd _ r Hr. apply list_elem_of_filter in Hr as [_ Hr]. by apply Hd.
Qed.

Lemma yields_insert_otp (P : auth_db → Prop) u k h salt expires :
  mono P → (∀ d, P d → expires - OTP_TTL ≤ ad_now d) →
  yields P (stmt (insert_otp u k h salt expires)) (λ _ d, cached_ok d k (CachedOtp h salt 0 expires)).
Proof.
  intros HP He. apply yields_stmt; [stable|]. intros d Hd Hp. simpl.
  set (r := OtpRow (length (ad_codes d)) u k h salt 0 3 expires None).
  set (d' := log_code r (set_otps (ad_otps d ++ [r]) d)).
  assert (auth_step d d') as Hs by (apply step_same; try done; by apply prefix_app_r).
  assert (r ∈ ad_codes d') as Hin by (apply elem_of_app; right; by apply list_elem_of_singleton).
  destruct (auth_ok_next d d' Hd Hs) as [? ?]; simpl; eauto 6; [| |apply Hd|].
  - intros i r' Hi. apply lookup_app_Some in Hi as [Hi|[_ Hi]]; [by left|]. right.
    apply list_elem_of_lookup_2, list_elem_of_singleton in Hi as ->. by apply He.
  - intros r' [Hr|Hr%list_elem_of_singleton]%elem_of_app; [by left|]. subst r'. right. split; [|done].
    exists r. split_and!; try done. simpl. rewrite lookup_app_r by lia. by rewrite Nat.sub_diag.
  - split_and!; [done|done|]. exists r. by split_and!.
Qed.

Lemma yields_otp_cache (P : auth_db → Prop) (f : auth_db → gmap otp_key cached_otp) :
  mono P → (∀ d, auth_ok d → P d → ∀ k c, f d !! k = Some c → cached_ok d k c) →
  yields P (stmt (modify (λ d, set_otp_cache (f d) d))) (λ _ _, True).
Proof.
  intros HP Hf. apply yields_stmt; [stable|]. intros d Hd Hp. simpl.
  assert (auth_step d (set_otp_cache (f d) d)) as Hs by by apply step_same.
  destruct (auth_ok_next d (set_otp_cache (f d) d) Hd Hs) as [? ?]; simpl; eauto 6; [|apply Hd].
  intros k c Hk. right. apply (cached_ok_mono d); [done|]. by apply (Hf d Hd Hp).
Qed.
Lemma yields_put_cached_otp (P : auth_db → Prop) k c :
  mono P → (∀ d, P d → cached_ok d k c) → yields P (stmt (put_cached_otp k c)) (λ _ _, True).
Proof.
  intros HP Hc. apply yields_otp_cache; [done|]. intros d Hd Hp k' c' Hk.
  apply lookup_insert_Some in Hk as [[<- <-]|[_ Hk]]; [by apply Hc|by apply Hd].
Qed.
Lemma yields_del_cached_otp (P : auth_db → Prop) k : mono P → yields P (stmt (del_cached_otp k)) (λ _ _, True).
Proof.
  intros HP. apply yields_otp_cache; [done|]. intros d Hd Hp k' c' Hk.
  apply lookup_delete_Some in Hk as [_ Hk]. by apply Hd.
Qed.

Lemma yields_bump (P : auth_db → Prop) p : mono P → yields P (stmt (update_otps p bump_attempts)) (λ _ _, True).
Proof.
  intros HP. apply yields_otps; [done|]. intros d Hd _ r Hr. apply list_elem_of_fmap in Hr as (r0 & -> & Hr).
  pose proof (ok_rows _ Hd _ Hr). by destruct (p r0).
Qed.
(** Rows are marked that have the key of an accepted code. *)
Lemma yields_verify_rows (P : auth_db → Prop) (p : otp_row → bool) k :
  mono P → (∀ d r, P d → row_made d r → p r = true → or_key r = k) → (∀ d, P d → accepted d k) →
  yields P (stmt (verify_rows p)) (λ _ _, True).
Proof.
  intros HP Hkey Hacc. apply yields_stmt; [stable|]. intros d Hd Hp. simpl.
  set (f := λ r, if p r then mark_verified (ad_now d) r else r).
  assert (auth_step d (set_otps (f <$> ad_otps d) d)) as Hs by by apply step_same.
  destruct (auth_ok_next d (set_otps (f <$> ad_otps d) d) Hd Hs) as [? ?]; simpl; eauto 6; [|apply Hd].
  intros r Hr. right. apply list_elem_of_fmap in Hr as (r0 & -> & Hr).
  apply (row_ok_mono d); [done|]. pose proof (ok_rows _ Hd _ Hr) as [Hmade Hv]. unfold f.
  destruct (p r0) eqn:Hp0; [|done]. split; [done|]. intros _. simpl. rewrite (Hkey d r0) by done. by apply Hacc.
Qed.

Notation any := (λ _ _, True).
Lemma yields_any {A} P (t : thread auth_db A) F : yields P t F → yields P t any.
Proof. by apply yields_post. Qed.
Lemma yields_true {A} P (t : thread auth_db A) F : yields (λ _, True) t F → yields P t F.
Proof. by apply yields_pre. Qed.

(** ** Codes *)
Lemma yields_create_attempt k u w : yields (λ _, True) (create_attempt k u w) any.
Proof.
  destruct w as [draws salt]. unfold create_attempt. cbv beta iota zeta. next (λ n d, n ≤ ad_now d ∧ True).
  { by apply (yields_clock _ (λ _, True)); [mono|]. }
  intros now. next (λ (_ : unit) (_ : auth_db), True); [by apply yields_delete_open; mono|]. intros _.
  set (h := hash_code k (generateOTP draws) salt).
  next (λ (_ : unit) d, cached_ok d k (CachedOtp h salt 0 (now + OTP_TTL))).
  { apply yields_insert_otp; [mono|]. intros d [[_ [Hn _]] _]. lia. }
  intros _. next (λ (_ : unit) (_ : auth_db), True).
  { apply yields_best_effort; [stable|]. apply yields_put_cached_otp; [mono|]. by intros d [_ ?]. }
  intros _. by apply yields_ret.
Qed.
Lemma yields_createOTP k u ws : yields (λ _, True) (createOTP k u ws) any.
Proof.
  induction ws as [|w ws IH]; simpl; [apply yields_throw|].
  apply yields_catch; [stable|apply yields_create_attempt|]. intros e. destruct ws; [apply yields_throw|].
  destruct (retryable e); [exact IH|apply yields_throw].
Qed.

Lemma yields_newest_open k : yields (λ _, True) (stmt (newest_open k))
  (λ o d, ∀ r, o = Some r → row_ok d r ∧ or_key r = k).
Proof.
  apply yields_gets; [stable|]. intros d Hd _ r Hl. apply last_Some_elem_of in Hl.
  apply list_elem_of_filter in Hl as [Ho Hr]. split; [by apply Hd|]. unfold open_code in Ho.
  apply andb_prop in Ho as [Ho _]. by apply bool_decide_eq_true in Ho.
Qed.

(** A made code, and the clock that has not passed its end, prove a claim. *)
Lemma made_proved d k otp r now :
  Claim k otp now ∈ ad_presented d → r ∈ ad_codes d → or_key r = k → hash_code k otp (or_salt r) = or_hash r →
  or_expires r - OTP_TTL ≤ now ≤ or_expires r → now ≤ ad_now d → proved d (Claim k otp now).
Proof. intros. split; [done|]. exists r. split_and!; simpl; try done; lia. Qed.
Lemma row_made_id d r r' : row_made d r → row_made d r' → (or_id r =? or_id r')%nat = true → or_key r = or_key r'.
Proof.
  intros (x & Hx & <- & _) (y & Hy & <- & _) Hid%Nat.eqb_eq. rewrite Hid in Hx. by simplify_eq.
Qed.

Lemma yields_verify_from_db k otp :
  k.1 ≠ PasswordReset →
  yields (λ _, True) (verifyOTPFromDb k otp) (λ v d, vr_valid v = true → proved d (Claim k otp (vr_at v))).
Proof.
  intros Hk. unfold verifyOTPFromDb.
  next (λ (o : option otp_row) d, ∀ r, o = Some r → row_ok d r ∧ or_key r = k); [apply yields_newest_open|].
  intros [r|]; [|by apply yields_ret].
  next (λ n d, n ≤ ad_now d ∧ or_expires r - OTP_TTL ≤ n ∧ Claim k otp n ∈ ad_presented d).
  { apply yields_present; [mono|]. intros d Hd [_ Hr]. destruct (Hr r eq_refl) as [[(r0 & Hr0 & _ & _ & _ & <-) _] _].
    by apply (ok_codes _ Hd _ _ Hr0). }
  intros now. destruct (Z.ltb_spec (or_expires r) now) as [|Hexp]; [by apply yields_ret|].
  destruct (or_max r <=? or_attempts r); [by apply yields_ret|].
  destruct (String.eqb_spec (hmac_sha256 (or_salt r) otp) (or_hash r)) as [Hh|]; cbn [negb].
  2: { next (λ (_ : unit) (_ : auth_db), True); [by apply yields_bump; mono|]. intros _. by apply yields_ret. }
  assert (∀ d, ((True ∧ (∀ x, Some r = Some x → row_ok d x ∧ or_key x = k)) ∧ (now ≤ ad_now d ∧ or_expires r - OTP_TTL ≤ now ∧ Claim k otp now ∈ ad_presented d)) →
    row_made d r ∧ or_key r = k ∧ proved d (Claim k otp now)) as Hall.
  { intros d [[_ Hr] (Hn & He & Hin)]. destruct (Hr r eq_refl) as [[Hmade _] Hkey]. split_and!; [done|done|].
    destruct Hmade as (r0 & Hr0 & Hk0 & Hh0 & Hs0 & He0). apply list_elem_of_lookup_2 in Hr0.
    apply (made_proved _ _ _ r0); [done|done|congruence| |lia|done].
    unfold hash_code. rewrite Hs0, Hh0. by destruct (k.1). }
  next (λ (_ : unit) (_ : auth_db), True).
  { apply (yields_verify_rows _ _ k); [mono|..].
    - intros d x Hp Hx Hid. destruct (Hall d Hp) as (Hmade & <- & _). by apply (row_made_id d).
    - intros d Hp. destruct (Hall d Hp) as (_ & _ & Hpr). eexists. by split; [|exact Hpr]. }
  intros _. next (λ (_ : unit) (_ : auth_db), True).
  { apply yields_best_effort; [stable|]. apply yields_del_cached_otp. mono. }
  intros _. apply yields_ret. intros d Hd [[Hp _] _] _. by apply Hall.
Qed.

Lemma yields_verify flip k otp :
  k.1 ≠ PasswordReset →
  yields (λ _, True) (verifyOTP flip k otp) (λ v d, vr_valid v = true → proved d (Claim k otp (vr_at v))).
Proof.
  intros Hk. unfold verifyOTP.
  next (λ (o : option cached_otp) d, ∀ c, o = Some c → cached_ok d k c).
  { apply yields_catch; [stable| |intros e; by apply yields_ret].
    apply yields_gets; [stable|]. intros d Hd _ c Hc. by apply Hd. }
  intros [c|]; [|by apply yields_true, yields_verify_from_db].
  next (λ n d, n ≤ ad_now d ∧ co_expires c - OTP_TTL ≤ n ∧ Claim k otp n ∈ ad_presented d).
  { apply yields_present; [mono|]. intros d Hd [_ Hc]. destruct (Hc c eq_refl) as (r0 & Hr0 & _ & _ & _ & <-).
    apply list_elem_of_lookup in Hr0 as [i Hi]. by apply (ok_codes _ Hd _ _ Hi). }
  intros now. destruct (Z.ltb_spec (co_expires c) now) as [|Hexp].
  { next (λ (_ : unit) (_ : auth_db), True).
    { apply yields_best_effort; [stable|]. apply yields_del_cached_otp. mono. }
    intros _. by apply yields_ret. }
  destruct (3 <=? co_attempts c); [by apply yields_ret|].
  destruct (String.eqb_spec (hmac_sha256 (co_salt c) otp) (co_hash c)) as [Hh|]; cbn [negb].
  2: { next (λ (_ : unit * unit) (_ : auth_db), True).
       - eapply yields_any, yields_both with (Fa := any) (Fb := any); [stable|intros a; apply stable_const..| |].
         + apply yields_best_effort; [stable|]. apply yields_put_cached_otp; [mono|]. intros d [[_ Hc] _].
           destruct (Hc c eq_refl) as (r0 & ?). by exists r0.
         + apply yields_bump. mono.
       - intros _. by apply yields_ret. }
  assert (∀ d, ((True ∧ (∀ x, Some c = Some x → cached_ok d k x)) ∧ (now ≤ ad_now d ∧ co_expires c - OTP_TTL ≤ now ∧ Claim k otp now ∈ ad_presented d)) →
    proved d (Claim k otp now)) as Hall.
  { intros d [[_ Hc] (Hn & He & Hin)]. destruct (Hc c eq_refl) as (r0 & Hr0 & Hk0 & Hh0 & Hs0 & He0).
    apply (made_proved _ _ _ r0); [done|done|done| |lia|done]. unfold hash_code. rewrite Hs0, Hh0. by destruct (k.1). }
  next (λ (_ : unit * unit) (_ : auth_db), True).
  { eapply yields_any, yields_both with (Fa := any) (Fb := any); [stable|intros a; apply stable_const..| |].
    - apply (yields_verify_rows _ _ k); [mono|..].
      + intros d x _ _ Ho. apply andb_prop in Ho as [Ho _]. by apply bool_decide_eq_true in Ho.
      + intros d Hp. eexists. by split; [|exact (Hall d Hp)].
    - apply yields_best_effort; [stable|]. apply yields_del_cached_otp. mono. }
  intros _. apply yields_ret. intros d Hd [Hp _] _. by apply Hall.
Qed.

(** ** Sessions *)
Lemma yields_cached_sessions (P : auth_db → Prop) (f : auth_db → gmap string cached_session) :
  mono P → yields P (stmt (modify (λ d, set_session_cache (f d) d))) any.
Proof.
  intros HP. apply yields_stmt; [stable|]. intros d Hd Hp. simpl.
  assert (auth_step d (set_session_cache (f d) d)) as Hs by by apply step_same.
  destruct (auth_ok_next d (set_session_cache (f d) d) Hd Hs) as [? ?]; simpl; eauto 6. apply Hd.
Qed.

Lemma step_sessions d ss :
  (∀ sid s, ad_sessions d !! sid = Some s →
     ∃ s', ss !! sid = Some s' ∧ se_user s' = se_user s ∧ se_origin s' = se_origin s) →
  auth_step d (set_sessions ss d).
Proof. intros Hss. split; [done|done|done|done|done|eauto 10]. Qed.

Lemma yields_insert_session (P : auth_db → Prop) sid s :
  mono P → (∀ d, auth_ok d → P d → session_ok d s) → yields P (stmt (insert_session sid s)) (λ _ d, session_of d sid (se_user s)).
Proof.
  intros HP Hs. apply yields_stmt; [stable|]. intros d Hd Hp.
  destruct (insert_session sid s d) as [[[] d']|] eqn:Hrun; [|done].
  unfold insert_session in Hrun. run_all Hrun. bool_prop.
  match goal with Hf : ad_sessions d !! sid = None |- _ => rename Hf into Hnone end.
  assert (auth_step d (set_sessions (<[sid:=s]> (ad_sessions d)) d)) as Hst.
  { apply step_sessions. intros sid' s' Hl. exists s'. split; [|done]. rewrite lookup_insert_ne; [done|]. by intros ->; rewrite Hl in Hnone. }
  destruct (auth_ok_next d _ Hd Hst) as [? ?]; simpl; eauto 6; [apply Hd| |].
  - intros sid' s' Hl. apply lookup_insert_Some in Hl as [[<- <-]|[_ Hl]]; [|left; by eauto].
    right. destruct (Hs d Hd Hp) as [? ?]. split; [by apply (vouched_mono d)|by apply (origin_ok_mono d)].
  - split_and!; [done|done|]. exists s. split; [|done]. apply lookup_insert_eq.
Qed.

Lemma yields_createSession (P : auth_db → Prop) user sid o :
  mono P → (∀ d, auth_ok d → P d → vouched d user ∧ origin_ok d user o) → yields P (createSession user sid o) any.
Proof.
  intros HP Ho. unfold createSession. next (λ n d, n ≤ ad_now d ∧ True); [by apply (yields_clock _ (λ _, True)); [mono|]|].
  intros now. next (λ (_ : unit) (_ : auth_db), True).
  { eapply yields_any, yields_insert_session; [mono|]. intros d Hd [Hp _]. by apply Ho. }
  intros _. apply yields_best_effort; [stable|]. apply yields_cached_sessions. mono.
Qed.
Lemma yields_open_session (P : auth_db → Prop) user sid o :
  mono P → (∀ d, auth_ok d → P d → vouched d user ∧ origin_ok d user o) → yields P (open_session user sid o) any.
Proof.
  intros HP Ho. unfold open_session. next (λ n d, n ≤ ad_now d ∧ True); [by apply (yields_clock _ (λ _, True)); [mono|]|].
  intros now. next (λ (_ : unit) (_ : auth_db), True).
  { eapply yields_any, yields_insert_session; [mono|]. intros d Hd [Hp _]. by apply Ho. }
  intros _. apply yields_best_effort; [stable|]. apply yields_cached_sessions. mono.
Qed.

(** Closing sessions. *)
Lemma deactivate_lookup ids (ss : gmap string session) sid s :
  foldr (alter deactivate) ss ids !! sid = Some s →
  ∃ s0, ss !! sid = Some s0 ∧ se_user s = se_user s0 ∧ se_origin s = se_origin s0 ∧
    (se_active s = true → se_active s0 = true ∧ sid ∉ ids).
Proof.
  revert s. induction ids as [|id ids IH]; intros s; simpl.
  - intros Hs. exists s. split_and!; try done. intros Ha. split; [done|]. apply not_elem_of_nil.
  - intros Hs. destruct (decide (id = sid)) as [->|Hne].
    + rewrite lookup_alter_eq in Hs. apply fmap_Some in Hs as (s1 & Hs1 & ->).
      destruct (IH s1 Hs1) as (s0 & ? & ? & ? & _). by exists s0.
    + rewrite lookup_alter_ne in Hs by done. destruct (IH s Hs) as (s0 & ? & ? & ? & Ha). exists s0.
      split_and!; try done. intros Hact. destruct (Ha Hact) as [? Hn]. split; [done|].
      apply not_elem_of_cons. split; [|done]. congruence.
Qed.
Lemma deactivate_lookup_2 ids (ss : gmap string session) sid s0 :
  ss !! sid = Some s0 →
  ∃ s, foldr (alter deactivate) ss ids !! sid = Some s ∧ se_user s = se_user s0 ∧ se_origin s = se_origin s0.
Proof.
  intros Hs0. induction ids as [|id ids IH]; simpl; [by exists s0|]. destruct IH as (s & Hs & ? & ?).
  destruct (decide (id = sid)) as [->|Hne].
  - exists (deactivate s). rewrite lookup_alter_eq, Hs. done.
  - exists s. by rewrite lookup_alter_ne.
Qed.
Lemma deactivate_ok d ids : auth_ok d →
  let d' := set_sessions (foldr (alter deactivate) (ad_sessions d) ids) d in auth_ok d' ∧ auth_step d d'.
Proof.
  intros Hd d'. assert (auth_step d d') as Hst by (apply step_sessions; intros sid s; apply deactivate_lookup_2).
  apply auth_ok_next; simpl; eauto 6; [apply Hd|]. intros sid s Hs. left.
  destruct (deactivate_lookup _ _ _ _ Hs) as (s0 & ? & ? & ? & _). by exists s0.
Qed.
Lemma yields_revokeSession sid : yields (λ _, True) (revokeSession sid) any.
Proof.
  unfold revokeSession. next (λ (_ : unit) (_ : auth_db), True).
  { apply yields_stmt; [stable|]. intros d Hd _. by destruct (deactivate_ok d [sid] Hd). }
  intros _. apply yields_best_effort; [stable|]. apply yields_cached_sessions. mono.
Qed.
Lemma yields_revokeAllExceptCurrent u sid : yields (λ _, True) (revokeAllExceptCurrent u sid) any.
Proof.
  unfold revokeAllExceptCurrent. next (λ (_ : list string) (_ : auth_db), True).
  { apply yields_stmt; [stable|]. intros d Hd _. unfold revoke_others, bind, gets, modify, ret.
    match goal with |- context [foldr (alter deactivate) _ ?l] => by destruct (deactivate_ok d l Hd) end. }
  intros ids. next (λ (_ : unit) (_ : auth_db), True).
  { apply yields_fold; [stable|]. intros _ sid'. apply yields_best_effort; [stable|]. apply yields_cached_sessions. mono. }
  intros _. by apply yields_ret.
Qed.
Lemma yields_isSessionValid sid : yields (λ _, True) (isSessionValid sid) any.
Proof.
  unfold isSessionValid. next (λ (_ : option bool) (_ : auth_db), True).
  { apply yields_catch; [stable| |intros e; by apply yields_ret].
    next (λ (_ : option cached_session) (_ : auth_db), True); [by apply yields_gets; [stable|]|].
    intros [c|]; [|by apply yields_ret]. next (λ (_ : Z) (_ : auth_db), True); [by apply yields_gets; [stable|]|].
    intros now. by apply yields_ret. }
  intros [b|]; [by apply yields_ret|]. apply yields_catch; [stable| |intros e; by apply yields_ret].
  next (λ (_ : option session) (_ : auth_db), True); [by apply yields_gets; [stable|]|].
  intros o. next (λ (_ : Z) (_ : auth_db), True); [by apply yields_gets; [stable|]|]. intros now. by apply yields_ret.
Qed.

(** ** Users *)
Lemma yields_users (P : auth_db → Prop) (f : auth_db → list auth_user) (F : auth_db → Prop) :
  mono P →
  (∀ d, auth_ok d → P d → static <$> ad_users d `prefix_of` static <$> f d ∧ NoDup (au_id <$> f d) ∧ F (set_users (f d) d)) →
  yields P (stmt (modify (λ d, set_users (f d) d))) (λ _ d, F d).
Proof.
  intros HP Hf. apply yields_stmt; [stable|]. intros d Hd Hp. simpl. destruct (Hf d Hd Hp) as (Hpre & Hids & HF).
  assert (auth_step d (set_users (f d) d)) as Hs by (split; [done|done|done|done|eauto|eauto 10]).
  destruct (auth_ok_next d (set_users (f d) d) Hd Hs) as [? ?]; simpl; eauto 6.
Qed.
Lemma static_map (p : auth_user → bool) (g : auth_user → auth_user) (us : list auth_user) :
  (∀ u, static (g u) = static u) →
  static <$> ((λ u, if p u then g u else u) <$> us) = static <$> us
  ∧ au_id <$> ((λ u, if p u then g u else u) <$> us) = au_id <$> us.
Proof.
  intros Hg. rewrite <- !list_fmap_compose. split; apply list_fmap_ext; intros i u _; unfold compose; destruct (p u); auto.
  specialize (Hg u). unfold static in Hg. congruence.
Qed.
Lemma yields_update_user (P : auth_db → Prop) id g :
  mono P → (∀ u, static (g u) = static u) → yields P (stmt (update_user id g)) any.
Proof.
  intros HP Hg. apply (yields_users _ _ (λ _, True)); [done|]. intros d Hd _.
  destruct (static_map (λ u, String.eqb (au_id u) id) g (ad_users d) Hg) as [-> ->]. split_and!; [done|apply Hd|done].
Qed.
Lemma yields_failed_login (P : auth_db → Prop) id : mono P → yields P (stmt (recordFailedLogin id)) any.
Proof.
  intros HP. apply yields_stmt; [stable|]. intros d Hd Hp. unfold recordFailedLogin, bind, gets.
  set (g := λ u, _). destruct (static_map (λ u, String.eqb (au_id u) id) g (ad_users d)) as [Hst Hid]; [done|].
  unfold update_user, modify. set (us := _ <$> ad_users d) in *.
  assert (auth_step d (set_users us d)) as Hs by (split; simpl; rewrite ?Hst; [done|done|done|done|eauto|eauto 10]).
  destruct (auth_ok_next d (set_users us d) Hd Hs) as [? ?]; simpl; eauto 6. rewrite Hid. apply Hd.
Qed.

Lemma yields_insert_user (P : auth_db → Prop) u :
  mono P → yields P (stmt (insert_user u)) (λ _ d, person d u).
Proof.
  intros HP. apply yields_stmt; [stable|]. intros d Hd Hp.
  destruct (insert_user u d) as [[[] d']|] eqn:Hrun; [|done]. unfold insert_user in Hrun. run_all Hrun.
  match goal with Hf : forallb _ _ = true |- _ => rename Hf into Hall end. rewrite forallb_forall in Hall.
  assert (auth_step d (set_users (ad_users d ++ [u]) d)) as Hs.
  { split; simpl; [done|done|done| |eauto|eauto 10]. rewrite fmap_app. by apply prefix_app_r. }
  destruct (auth_ok_next d _ Hd Hs) as [? ?]; simpl; eauto 6.
  - rewrite fmap_app. apply NoDup_app. split_and!; [apply Hd| |apply NoDup_singleton]. intros id Hid.
    apply list_elem_of_fmap in Hid as (x & -> & Hx). intros Heq%list_elem_of_singleton.
    apply list_elem_of_In in Hx. specialize (Hall x Hx). rewrite Heq, String.eqb_refl in Hall. done.
  - split_and!; [done|done|]. unfold person. simpl. rewrite fmap_app. apply elem_of_app. right. by apply list_elem_of_singleton.
Qed.

(** The user of an id is one person. *)
Lemma person_unique d u u' : auth_ok d → person d u → person d u' → au_id u = au_id u' → static u = static u'.
Proof.
  intros Hd [x [Hx Hinx]]%list_elem_of_fmap [y [Hy Hiny]]%list_elem_of_fmap Hid. rewrite Hx, Hy.
  assert (au_id x = au_id y) as Hxy by (unfold static in Hx, Hy; congruence). f_equal.
  apply list_elem_of_lookup in Hinx as [i Hi], Hiny as [j Hj].
  assert (i = j) as ->; [|congruence]. apply (NoDup_lookup (au_id <$> ad_users d) i j (au_id x)); [by apply Hd|..].
  - by rewrite list_lookup_fmap, Hi.
  - by rewrite list_lookup_fmap, Hj, Hxy.
Qed.

(** ** Login tokens *)
Lemma yields_tokens (P : auth_db → Prop) t (m : M auth_db unit) :
  mono P →
  (∀ d, auth_ok d → P d → match m d with
     | Ret (_, d') => ∃ r', d' = set_tokens (<[t := r']> (ad_tokens d)) d ∧ token_ok d r' ∧
         (∀ r, ad_tokens d !! t = Some r → lt_user r' = lt_user r ∧ lt_required r' = lt_required r ∧
            lt_select r' = lt_select r ∧ lt_first r' = lt_first r)
     | Throw _ => True
     end) → yields P (stmt m) any.
Proof.
  intros HP Hm. apply yields_stmt; [stable|]. intros d Hd Hp. specialize (Hm d Hd Hp). destruct (m d) as [[[] d']|]; [|done].
  destruct Hm as (r' & -> & Hok & Hsame).
  assert (auth_step d (set_tokens (<[t:=r']> (ad_tokens d)) d)) as Hs.
  { split; simpl; [done|done|done|done|eauto|]. intros t' r Hr. destruct (decide (t' = t)) as [->|Hne].
    - exists r'. rewrite lookup_insert_eq. split; [done|]. by apply Hsame.
    - exists r. by rewrite lookup_insert_ne. }
  destruct (auth_ok_next d _ Hd Hs) as [? ?]; simpl; eauto 6; [apply Hd|].
  intros t' r Hr. apply lookup_insert_Some in Hr as [[<- <-]|[_ Hr]]; [right|by left]. by apply (token_ok_mono d).
Qed.

(** ** The routes *)
Lemma holds_reaches k u : holds_identifier k u → reaches k.2 u.
Proof. unfold holds_identifier, reaches. destruct (k.1); auto. Qed.
Lemma found_reaches e k u : found_by e k u → reaches k.2 u.
Proof. destruct e; simpl; [apply holds_reaches..|]. intros [_ ?]. by right; right. Qed.
Lemma vouch d c u : person d u → proved d c → reaches (cl_key c).2 u → vouched d (au_id u).
Proof. intros. by exists c, u. Qed.
Lemma has_holds k u : has_identifier k.1 k.2 u = true → holds_identifier k u.
Proof.
  unfold has_identifier, holds_identifier. intros [_ Hx]%andb_prop. destruct (k.1).
  - apply String.eqb_eq in Hx. by rewrite Hx.
  - by apply bool_decide_eq_true in Hx.
  - by apply bool_decide_eq_true in Hx.
Qed.
Lemma new_user_holds id k h : holds_identifier k (new_user id k.1 k.2 h).
Proof. unfold holds_identifier. by destruct (k.1). Qed.
Lemma new_user_id id t x h : au_id (new_user id t x h) = id.
Proof. by destruct t. Qed.

Lemma yields_send_otp x ws : yields (λ _, True) (send_otp x ws) any.
Proof.
  unfold send_otp. destruct (_ || _); [by apply yields_ret|]. destruct (getIdentifierType _); [|by apply yields_ret].
  apply yields_catch; [stable| |intros e; by apply yields_ret].
  next (λ (_ : string * Z) (_ : auth_db), True); [apply yields_createOTP|]. intros r. by apply yields_ret.
Qed.

Lemma yields_otp_login flip k c newId sid h (P : auth_db → Prop) :
  mono P → (∀ d, P d → cl_key c = k ∧ proved d c) → yields P (otp_login flip k c newId sid h) any.
Proof.
  intros HP Hc. unfold otp_login.
  assert (∀ (Q : auth_db → Prop) u id, au_id u = id → mono Q → (∀ d, Q d → person d u ∧ cl_key c = k ∧ proved d c ∧ holds_identifier k u) →
    yields Q (await* _ := both flip (createSession id sid (ByVerifyOtp c)) (stmt (clearFailedLoginAttempts id))
              in tret (LoggedIn id sid)) any) as Hfinish.
  { intros Q u id <- HQ Hu. next (λ (_ : unit * unit) (_ : auth_db), True); [|intros _; by apply yields_ret].
    eapply yields_any, yields_both with (Fa := any) (Fb := any); [stable|intros a; apply stable_const..| |].
    - apply yields_createSession; [mono|]. intros d _ Hq. destruct (Hu d Hq) as (Hper & <- & Hpr & Hh). split.
      + apply (vouch d c); [done|done|]. by apply holds_reaches.
      + by exists u.
    - by apply yields_update_user. }
  next (λ (o : option auth_user) d, ∀ u, o = Some u → person d u ∧ has_identifier k.1 k.2 u = true).
  { by apply yields_select_user. }
  intros [u|].
  - next (λ (_ : option Z * unit) (_ : auth_db), True).
    { eapply yields_any, yields_both with (Fa := any) (Fb := any); [stable|intros a; apply stable_const..| |].
      - by apply yields_gets; [stable|].
      - apply yields_update_user; [mono|done]. }
    intros [[e|] []]; simpl fst; cbv iota beta; [by apply yields_ret|]. apply (Hfinish _ u); [done|mono|].
    intros d [[Hp Hu] _]. destruct (Hu u eq_refl) as [? Hh]. destruct (Hc d Hp). split_and!; try done. by apply has_holds.
  - next (λ (_ : unit) d, person d (new_user newId k.1 k.2 h)); [apply yields_insert_user; mono|]. intros _.
    apply (Hfinish _ _ _ (new_user_id newId k.1 k.2 h)); [mono|]. intros d [[Hp _] Hu]. destruct (Hc d Hp).
    split_and!; try done. apply new_user_holds.
Qed.

Lemma type_not_reset s t : getIdentifierType s = Some t → t ≠ PasswordReset.
Proof. unfold getIdentifierType. destruct (email_like s); [by intros [= <-]|]. destruct (phone_like s); [by intros [= <-]|done]. Qed.

Lemma yields_flags (P : auth_db → Prop) (f : auth_db → gset string) :
  mono P → (∀ d x, auth_ok d → P d → x ∈ f d → flag_ok d x) → yields P (stmt (modify (λ d, set_flags (f d) d))) any.
Proof.
  intros HP Hf. apply yields_stmt; [stable|]. intros d Hd Hp. simpl.
  assert (auth_step d (set_flags (f d) d)) as Hs by by apply step_same.
  destruct (auth_ok_next d (set_flags (f d) d) Hd Hs) as [? ?]; simpl; eauto 6; [|apply Hd].
  intros x Hx. right. apply (flag_ok_mono d); [done|]. by apply Hf.
Qed.

Lemma yields_verify_otp flip x otp su newId sid h : yields (λ _, True) (verify_otp flip x otp su newId sid h) any.
Proof.
  unfold verify_otp. apply yields_catch; [stable| |intros e; by apply yields_ret].
  destruct (negb _); [by apply yields_ret|]. destruct (getIdentifierType _) as [t|] eqn:Ht; [|by apply yields_ret].
  set (k := (t, cleanIdentifier t x)). apply type_not_reset in Ht.
  next (λ (v : otp_result) d, vr_valid v = true → proved d (Claim k otp (vr_at v))); [by apply yields_verify|].
  intros v. destruct (vr_valid v) eqn:Hv; cbn [negb].
  - assert (∀ d, True ∧ (true = true → proved d (Claim k otp (vr_at v))) → proved d (Claim k otp (vr_at v))) as Hpr
      by (intros d [_ Hp]; by apply Hp).
    destruct su.
    + next (λ (_ : unit) (_ : auth_db), True).
      { apply yields_best_effort; [stable|]. apply yields_flags; [mono|]. intros d y Hd Hp Hy.
        apply elem_of_union in Hy as [->%elem_of_singleton|Hy]; [|by apply Hd]. eexists. split; [|by apply Hpr]. done. }
      intros _. next (λ (_ : option auth_user) (_ : auth_db), True).
      { eapply yields_any, yields_select_user. mono. }
      intros [u|]; by apply yields_ret.
    + apply yields_otp_login; [mono|]. intros d Hp. split; [done|]. by apply Hpr.
  - next (λ (_ : option auth_user) (_ : auth_db), True); [eapply yields_any, yields_select_user; mono|].
    intros u. next (λ (_ : unit) (_ : auth_db), True); [|intros _; by apply yields_ret].
    destruct u as [u|]; [apply yields_failed_login; mono|by apply yields_ret].
Qed.

Lemma yields_signup email phone pw newId sid salt : yields (λ _, True) (signup email phone pw newId sid salt) any.
Proof.
  unfold signup. apply yields_catch; [stable| |intros e; by apply yields_ret]. cbv zeta.
  destruct (_ || _); [by apply yields_ret|]. destruct (negb (strong pw)); [by apply yields_ret|].
  match goal with |- context [if negb ?a && negb ?b then _ else _] => destruct (negb a && negb b); [by apply yields_ret|] end.
  match goal with |- context [recently_verified (?t', ?x')] => set (t := t'); set (x := x') end.
  next (λ (b : bool) d, b = true → flag_ok d x).
  { apply yields_catch; [stable| |intros e; by apply yields_ret]. apply yields_gets; [stable|].
    intros d Hd _ Hb. apply bool_decide_eq_true in Hb. by apply Hd. }
  intros flagged. next (λ (b : bool) d, b = true → flag_ok d x).
  { destruct flagged; [apply yields_ret; by intros d Hd [_ ?]|]. apply yields_gets; [stable|].
    intros d Hd _ Hb. apply existsb_exists in Hb as (r & Hr & Hk%andb_prop). destruct Hk as [Hk Hv].
    apply bool_decide_eq_true in Hk. apply list_elem_of_In, (ok_rows _ Hd) in Hr as [_ Hacc].
    destruct Hacc as (c & Hck & Hpr); [by destruct (or_verified r)|]. exists c. by rewrite Hck, Hk. }
  intros [|]; cbn [negb]; [|by apply yields_ret].
  next (λ (_ : option auth_user) (_ : auth_db), True); [eapply yields_any, yields_select_user; mono|].
  intros [u|]; [by apply yields_ret|].
  set (nu := new_user newId t x _).
  next (λ (_ : unit) d, person d nu); [apply yields_insert_user; mono|]. intros _.
  next (λ (_ : unit) (_ : auth_db), True).
  { apply yields_open_session; [mono|]. intros d _ [[[_ Hf] _] Hu]. destruct (Hf eq_refl) as (c & Hx & Hpr).
    assert (au_id nu = newId) as Hid by apply new_user_id. assert (holds_identifier (t, x) nu) as Hh by apply (new_user_holds newId (t, x)).
    split.
    - rewrite <- Hid. apply (vouch d c); [done|done|]. rewrite Hx. by apply (holds_reaches (t, x)).
    - exists nu, c. by split_and!. }
  intros _. next (λ (_ : unit) (_ : auth_db), True); [|intros _; by apply yields_ret].
  apply yields_best_effort; [stable|]. apply yields_flags; [mono|]. intros d y Hd _ Hy. apply Hd. set_solver.
Qed.

Lemma yields_step_code step u ws : yields (λ _, True) (step_code step u ws) any.
Proof.
  unfold step_code. destruct (step_target step u) as [k|]; [|by apply yields_ret].
  next (λ (_ : string * Z) (_ : auth_db), True); [apply yields_createOTP|]. intros r. by apply yields_ret.
Qed.

Lemma yields_select_settings old (P : auth_db → Prop) p :
  mono P → yields P (stmt (select_settings old p)) (λ o d, ∀ u, o = Some u → person d u ∧ p u = true).
Proof.
  intros HP. apply yields_stmt; [stable|]. intros d Hd Hp.
  destruct (select_settings old p d) as [[o d']|] eqn:Hrun; [|done].
  unfold select_settings, select_user in Hrun. run_all Hrun. split_and!; [done|done|]. intros u Hf.
  apply find_some in Hf as [Hin Hpu]. split; [|done]. apply list_elem_of_fmap. exists u. split; [done|].
  by apply list_elem_of_In.
Qed.

(** What is known of the user a login found and of the row its factors are read from. *)
Definition login_found (k : otp_key) (o : option (auth_user * login_select * auth_user)) (d : auth_db) : Prop :=
  ∀ u sel fa, o = Some (u, sel, fa) → person d u ∧ found_by sel k u ∧ (sel = FullSelect → fa = u).

(** A select by [p] whose rows are known by [sel]. *)
Lemma yields_login_select old (P : auth_db → Prop) p k sel (row : auth_user → auth_user) :
  mono P → (∀ u, p u = true → found_by sel k u) → (sel = FullSelect → ∀ u, row u = u) →
  yields P (await* r := stmt (select_settings old p) in tret ((λ u, (u, sel, row u)) <$> r)) (login_found k).
Proof.
  intros HP Hp Hrow. next (λ (o : option auth_user) d, ∀ u, o = Some u → person d u ∧ p u = true);
    [by apply yields_select_settings|].
  intros r. apply yields_ret. intros d Hd [_ Hr] u sel' fa He. apply fmap_Some in He as (u' & -> & [= -> -> ->]).
  destruct (Hr u' eq_refl) as [? Hu]. split_and!; [done|by apply Hp|intros Hs; by apply Hrow].
Qed.
(** The select without the columns of the factors. *)
Lemma yields_minimal_select (P : auth_db → Prop) p k sel :
  mono P → (∀ u, p u = true → found_by sel k u) → sel ≠ FullSelect →
  yields P (await* r := stmt (select_user p) in tret ((λ u, (u, sel, minimal u)) <$> r)) (login_found k).
Proof.
  intros HP Hp Hsel. next (λ (o : option auth_user) d, ∀ u, o = Some u → person d u ∧ p u = true);
    [by apply yields_select_user|].
  intros r. apply yields_ret. intros d Hd [_ Hr] u sel' fa He. apply fmap_Some in He as (u' & -> & [= -> -> ->]).
  destruct (Hr u' eq_refl) as [? Hu]. split_and!; [done|by apply Hp|done].
Qed.

Lemma yields_login_user old t raw :
  t ≠ PasswordReset →
  let x := match t with Email => lower (js_trim raw) | _ => normalizePhoneNumber raw end in
  yields (λ _, True) (login_user old t x raw) (login_found (t, x)).
Proof.
  intros Ht x. unfold login_user.
  set (p := match t with Email => email_matches x | _ => has_identifier Phone x end). cbv zeta.
  assert (∀ u, p u = true → holds_identifier (t, x) u) as Hp.
  { intros u. unfold p, holds_identifier, email_matches, has_identifier. destruct t; [| |done]; intros [_ Hu]%andb_prop.
    - by apply String.eqb_eq in Hu.
    - by apply bool_decide_eq_true in Hu. }
  next (login_found (t, x)).
  { apply yields_catch; [stable|by apply (yields_login_select _ _ _ _ FullSelect (λ u, u)); [mono|..]|].
    intros e. destruct (missing_column e); [by apply yields_minimal_select; [mono|..]|apply yields_throw]. }
  intros [f|].
  { destruct t; [| |done]; apply yields_ret; intros d _ [_ Hf]; exact Hf. }
  destruct t; [by apply yields_ret| |done].
  assert (∀ u, phone_ends (last10 (digits raw)) u = true → found_by DigitsSelect (Phone, x) u) as Hends.
  { intros u [_ Hu]%andb_prop. split; [done|]. unfold same_digits. destruct (au_phone u) as [ph|] eqn:Hph; [|done].
    exists ph. split; [done|]. unfold x. simpl. by rewrite normalize_last10. }
  apply yields_catch; [stable| |intros err].
  - by apply (yields_login_select _ _ _ _ DigitsSelect (λ u, u)); [mono|..].
  - by apply yields_minimal_select; [mono|..].
Qed.

Lemma yields_login_checked old t raw c token sid ws (P : auth_db → Prop) :
  t ≠ PasswordReset →
  let x := match t with Email => lower (js_trim raw) | _ => normalizePhoneNumber raw end in
  mono P → (∀ d, P d → cl_key c = (t, x) ∧ proved d c) → yields P (login_checked old t x raw c token sid ws) any.
Proof.
  intros Ht x HP Hc. unfold login_checked.
  next (login_found (t, x)); [by apply yields_true, yields_login_user|].
  intros [[[u e] fa]|]; [|by apply yields_ret].
  assert (∀ d, P d ∧ login_found (t, x) (Some (u, e, fa)) d →
    person d u ∧ proved d c ∧ found_by e (cl_key c) u ∧ (e = FullSelect → fa = u) ∧ (cl_key c).1 = t) as Hall.
  { intros d [Hp Hu]. destruct (Hu u e fa eq_refl) as (? & ? & ?). destruct (Hc d Hp) as [-> ?]. by split_and!. }
  destruct (negb _); [by apply yields_ret|]. destruct (login_steps t fa) as [|first rest] eqn:Hsteps.
  - next (λ (_ : unit) (_ : auth_db), True); [|intros _; by apply yields_ret].
    apply yields_open_session; [mono|]. intros d _ Hp. destruct (Hall d Hp) as (? & ? & ? & Hfa & Hk). split.
    + apply (vouch d c); [done|done|]. by apply (found_reaches e).
    + exists u. split_and!; try done. intros He. rewrite Hk, <- Hfa by done. done.
  - next (λ n d, n ≤ ad_now d ∧ True); [by apply (yields_clock _ (λ _, True)); [mono|]|]. intros now.
    next (λ (_ : unit) (_ : auth_db), True).
    { apply (yields_tokens _ token); [mono|]. intros d Hd [Hp _]. unfold bind, gets.
      case_bool_decide as Hnone; [|done]. unfold require, ret, modify. eexists. split; [reflexivity|].
      destruct (Hall d Hp) as (? & ? & ? & Hfa & Hk). split.
      - exists u. simpl. split_and!; try done. intros He. by rewrite Hk, <- Hfa, Hsteps.
      - intros r Hr. congruence. }
    intros _. next (λ (_ : option (string * string)) (_ : auth_db), True); [apply yields_true, yields_step_code|].
    intros m. by apply yields_ret.
Qed.

Lemma yields_login flip old email phone otp token sid ws : yields (λ _, True) (login flip old email phone otp token sid ws) any.
Proof.
  unfold login. apply yields_catch; [stable| |intros e; by apply yields_ret]. cbv zeta.
  destruct (negb (String.length otp =? 6)%nat); [by apply yields_ret|].
  match goal with |- context [if negb ?a && negb ?b then _ else _] => set (g := a); destruct (negb g && negb b); [by apply yields_ret|] end.
  set (t := if g then Email else Phone). set (raw := default "" (if g then email else phone)).
  assert ((if g then lower (js_trim raw) else normalizePhoneNumber raw)
          = match t with Email => lower (js_trim raw) | _ => normalizePhoneNumber raw end) as -> by (unfold t; by destruct g).
  assert (t ≠ PasswordReset) as Ht by (unfold t; by destruct g).
  set (x := match t with Email => _ | _ => _ end).
  next (λ (v : otp_result) d, vr_valid v = true → proved d (Claim (t, x) otp (vr_at v))); [by apply yields_verify|].
  intros v. destruct (vr_valid v); cbn [negb]; [|by apply yields_ret].
  apply yields_login_checked; [done|mono|]. intros d [_ Hp]. split; [done|by apply Hp].
Qed.

Lemma yields_check_step flip step code u :
  yields (λ _, True) (check_step flip step code u) (λ r d, r.1 = true → step_proved d u (StepProof step code r.2)).
Proof.
  unfold check_step, step_target.
  assert (∀ k, k.1 ≠ PasswordReset → (∀ d t, proved d (Claim k code t) → step_proved d u (StepProof step code t)) →
    yields (λ _, True) (await* v := verifyOTP flip k code in tret (vr_valid v, vr_at v))
      (λ r d, r.1 = true → step_proved d u (StepProof step code r.2))) as Hverify.
  { intros k Hk Hok. next (λ (v : otp_result) d, vr_valid v = true → proved d (Claim k code (vr_at v))); [by apply yields_verify|].
    intros v. apply yields_ret. intros d Hd [_ Hv] Hval. by apply Hok, Hv. }
  destruct (String.eqb_spec step "sms") as [->|Hsms]; [destruct (truthy (au_phone u)) as [ph|] eqn:Hph|].
  - apply Hverify; [done|]. intros d t Hp. left. split; [done|]. by exists ph.
  - by apply yields_ret.
  - destruct (String.eqb_spec step "email") as [->|Hem].
    + destruct (negb _); simpl; [|by apply yields_ret]. apply Hverify; [done|]. intros d t Hp. by right; left.
    + cbn [andb]. destruct (String.eqb_spec step "2fa") as [->|]; [|by apply yields_ret].
      destruct (truthy (au_totp_secret u)) as [secret|] eqn:Hs; [|by apply yields_ret].
      next (λ (_ : Z) (_ : auth_db), True); [by apply yields_gets; [stable|]|]. intros now.
      apply yields_ret. intros d Hd _ Hv. right; right. split; [done|]. by exists secret.
Qed.

Lemma alter_insert {V} (f : V → V) (m : gmap string V) k v : m !! k = Some v → alter f k m = <[k := f v]> m.
Proof.
  intros Hk. apply map_eq. intros k'. destruct (decide (k = k')) as [<-|Hne].
  - by rewrite lookup_alter_eq, Hk, lookup_insert_eq.
  - by rewrite lookup_alter_ne, lookup_insert_ne.
Qed.

(** An update of the token that keeps what it stands for. *)
Lemma yields_update_token (P : auth_db → Prop) t r g :
  mono P → (∀ d, P d → token_at d t r) →
  (∀ d r', auth_ok d → P d → token_ok d r' → lt_user r' = lt_user r → lt_required r' = lt_required r →
     lt_select r' = lt_select r → lt_first r' = lt_first r →
     token_ok d (g r') ∧ lt_user (g r') = lt_user r' ∧ lt_required (g r') = lt_required r' ∧
     lt_select (g r') = lt_select r' ∧ lt_first (g r') = lt_first r') →
  yields P (stmt (update_token t g)) any.
Proof.
  intros HP Hat Hg. apply (yields_tokens _ t); [done|]. intros d Hd Hp. simpl.
  destruct (Hat d Hp) as (r' & Hr' & ? & ? & ? & ?). rewrite (alter_insert _ _ _ _ Hr').
  destruct (Hg d r' Hd Hp) as (? & ? & ? & ? & ?); try done; [by apply (ok_tokens _ Hd t)|].
  exists (g r'). split; [done|]. split; [done|]. intros r0 Hr0. rewrite Hr' in Hr0. by simplify_eq.
Qed.

(** What is known of the token and its user once a step has been verified. *)
Definition step_facts (token : string) (r : login_token) (u : auth_user) (p : step_proof) (d : auth_db) : Prop :=
  token_ok d r ∧ token_at d token r ∧ person d u ∧ au_id u = lt_user r ∧ step_proved d u p.

Lemma login_steps_static t u u' : static u = static u' → login_steps t u = login_steps t u'.
Proof. unfold static, login_steps. intros [= ? -> -> -> -> -> ->]. done. Qed.
Lemma step_proved_static d u u' p : static u = static u' → step_proved d u p → step_proved d u' p.
Proof. unfold static, step_proved. intros [= ? -> -> ? ? ? ->]. done. Qed.
Lemma found_by_static e k u u' : static u = static u' → found_by e k u → found_by e k u'.
Proof. unfold static, found_by, holds_identifier, same_digits. intros [= ? -> -> ? ? ? ?]. done. Qed.

Lemma step_facts_user token r u p d : auth_ok d → step_facts token r u p d →
  proved d (lt_first r) ∧ found_by (lt_select r) (cl_key (lt_first r)) u ∧
  (lt_select r = FullSelect → lt_required r = login_steps (cl_key (lt_first r)).1 u) ∧
  lt_completed r = sp_step <$> lt_proofs r ∧ Forall (step_proved d u) (lt_proofs r ++ [p]).
Proof.
  intros Hd ((u0 & Hp0 & Hid0 & Hpr & Hf & Hreq & Hc & Hps) & _ & Hp & Hid & Hstep).
  assert (static u0 = static u) as Hst by (apply (person_unique d); [done..|congruence]).
  split_and!; [done|by apply (found_by_static _ _ u0)| |done|].
  - intros He. rewrite Hreq by done. by apply login_steps_static.
  - apply Forall_app. split; [|by apply Forall_singleton]. eapply Forall_impl; [exact Hps|]. intros q. by apply step_proved_static.
Qed.

Lemma yields_step_verified token r u p sid ws (P : auth_db → Prop) :
  mono P → (∀ d, P d → step_facts token r u p d) → yields P (step_verified token r u p sid ws) any.
Proof.
  intros HP HF. unfold step_verified. set (ps := lt_proofs r ++ [p]). set (done := lt_completed r ++ [sp_step p]).
  next (λ (_ : unit) (_ : auth_db), True).
  { apply (yields_update_token _ _ r); [mono|intros d Hp; apply (HF d Hp)|].
    intros d r' Hd Hp (u' & ? & ? & ? & ? & ? & ? & ?) Eu Er Ee Ef. split_and!; try reflexivity.
    destruct (step_facts_user _ _ _ _ _ Hd (HF d Hp)) as (? & ? & ? & Hc & ?). destruct (HF d Hp) as (_ & _ & ? & Hid & _).
    exists u. simpl. rewrite Eu, Er, Ee, Ef. split_and!; try assumption. unfold done, ps. rewrite fmap_app, Hc. reflexivity. }
  intros _. destruct (filter _ (lt_required r)) as [|nx rest] eqn:Hleft.
  - next (λ (_ : unit) (_ : auth_db), True).
    { eapply yields_pre with (P' := P); [by intros d _ [? _]|]. apply yields_stmt; [stable|]. intros d Hd Hp. unfold bind, gets.
      destruct (HF d Hp) as (_ & (r' & Hr' & ? & ? & ? & ?) & _). simpl. rewrite (alter_insert _ _ _ _ Hr').
      assert (auth_step d (set_tokens (<[token:=complete_token (ad_now d) r']> (ad_tokens d)) d)) as Hs.
      { split; simpl; [reflexivity|reflexivity|reflexivity|reflexivity|eauto|]. intros t' r0 Hr. destruct (decide (t' = token)) as [->|Hne].
        - exists (complete_token (ad_now d) r'). rewrite lookup_insert_eq. rewrite Hr' in Hr. by simplify_eq.
        - exists r0. by rewrite lookup_insert_ne. }
      destruct (auth_ok_next d _ Hd Hs) as [? ?]; simpl; eauto 6; [apply Hd|].
      intros t' r0 Hr. apply lookup_insert_Some in Hr as [[<- <-]|[_ Hr]]; [right|by left]. apply (token_ok_mono d); [assumption|].
      destruct (ok_tokens _ Hd _ _ Hr') as (u' & ?). by exists u'. }
    intros _. next (λ (_ : unit) (_ : auth_db), True); [|intros _; by apply yields_ret].
    apply yields_open_session; [mono|]. intros d Hd [[Hp _] _].
    destruct (step_facts_user _ _ _ _ _ Hd (HF d Hp)) as (? & Hf & Hreq & Hc & ?). destruct (HF d Hp) as (_ & _ & ? & Hid & _).
    split; [by apply (vouch d (lt_first r)), (found_reaches (lt_select r))|]. exists u. split_and!; try assumption; [reflexivity|].
    intros He step Hstep. rewrite <- Hreq in Hstep by assumption.
    assert (step ∈ done) as Hdone.
    { destruct (decide (step ∈ done)) as [|Hn]; [assumption|]. exfalso.
      assert (step ∈ filter (λ s, s ∉ done) (lt_required r)) as Hin by by apply list_elem_of_filter.
      rewrite Hleft in Hin. by apply not_elem_of_nil in Hin. }
    assert (done = sp_step <$> ps) as Hmap by (unfold done, ps; rewrite fmap_app, Hc; reflexivity).
    rewrite Hmap in Hdone. apply list_elem_of_fmap in Hdone as (q & -> & Hq). by exists q.
  - next (λ (_ : option (string * string)) (_ : auth_db), True); [apply yields_true, yields_step_code|]. intros m. by apply yields_ret.
Qed.

Lemma yields_open_token token : yields (λ _, True) (stmt (open_token token))
  (λ o d, ∀ r, o = Some r → token_ok d r ∧ token_at d token r).
Proof.
  apply yields_gets; [stable|]. intros d Hd _ r Ho. destruct (ad_tokens d !! token) as [r0|] eqn:Hr; [|done]. simpl in Ho.
  case_bool_decide; [|done]. injection Ho as <-. split; [by apply (ok_tokens _ Hd token)|]. by exists r0.
Qed.

Lemma yields_verify_step flip token step code sid ws : yields (λ _, True) (verify_step flip token step code sid ws) any.
Proof.
  unfold verify_step. apply yields_catch; [stable| |intros e; by apply yields_ret]. destruct (negb _); [by apply yields_ret|].
  next (λ (o : option login_token) d, ∀ r, o = Some r → token_ok d r ∧ token_at d token r); [apply yields_open_token|].
  intros [r|]; [|by apply yields_ret]. next (λ (_ : Z) (_ : auth_db), True); [by apply yields_gets; [stable|]|]. intros now.
  destruct (lt_expires r <? now); [by apply yields_ret|].
  next (λ (o : option auth_user) d, ∀ u, o = Some u → person d u ∧ by_id (lt_user r) u = true); [apply yields_select_user; mono|].
  intros [u|]; [|by apply yields_ret].
  next (λ (r : bool * Z) d, r.1 = true → step_proved d u (StepProof step code r.2)); [apply yields_true, yields_check_step|].
  intros [ok t]. cbn [fst snd]. destruct ok; cbn [negb]; [|by apply yields_ret].
  apply yields_step_verified; [mono|]. intros d [[[[_ Hr] _] Hu] Hs].
  destruct (Hr r eq_refl), (Hu u eq_refl) as [? Hid]. apply andb_prop in Hid as [_ Hid]. apply String.eqb_eq in Hid.
  split_and!; try done. by apply Hs.
Qed.

Lemma yields_resend_otp token step ws : yields (λ _, True) (resend_otp token step ws) any.
Proof.
  unfold resend_otp. apply yields_catch; [stable| |intros e; by apply yields_ret]. destruct (negb _); [by apply yields_ret|].
  next (λ (_ : option login_token) (_ : auth_db), True); [eapply yields_any, yields_open_token|].
  intros [r|]; [|by apply yields_ret]. next (λ (_ : Z) (_ : auth_db), True); [by apply yields_gets; [stable|]|]. intros now.
  destruct (lt_expires r <? now); [by apply yields_ret|].
  next (λ (_ : option auth_user) (_ : auth_db), True); [eapply yields_any, yields_select_user; mono|].
  intros [u|]; [|by apply yields_ret].
  next (λ (_ : option (string * string)) (_ : auth_db), True); [apply yields_true, yields_step_code|].
  intros [m|]; by apply yields_ret.
Qed.

(** A refresh token names a session of its user. *)
Lemma yields_refresh p sid : yields (λ d, session_of d (pl_session p) (pl_user p)) (refresh p sid) any.
Proof.
  unfold refresh. apply yields_catch; [stable| |intros e; by apply yields_ret]. destruct (negb _); [by apply yields_ret|].
  next (λ (_ : option cached_session) (_ : auth_db), True); [by apply yields_gets; [stable|]|].
  intros [c|]; [|by apply yields_ret]. destruct (negb _); [by apply yields_ret|].
  next (λ (o : option auth_user) d, ∀ u, o = Some u → person d u ∧ by_id (pl_user p) u = true); [apply yields_select_user; mono|].
  intros [u|]; [|by apply yields_ret]. next (λ (_ : unit) (_ : auth_db), True).
  { apply yields_createSession; [mono|]. intros d Hd [[(s & Hs & Hus) _] Hu]. destruct (Hu u eq_refl) as [_ Hid].
    apply andb_prop in Hid as [_ Hid]. apply String.eqb_eq in Hid. rewrite Hid, <- Hus.
    split; [by apply (ok_sessions _ Hd _ _ Hs)|]. by exists s. }
  intros _. next (λ (_ : unit) (_ : auth_db), True); [apply yields_true, yields_revokeSession|]. intros _. by apply yields_ret.
Qed.

Lemma yields_authenticate p : yields (λ _, True) (authenticate p) any.
Proof.
  unfold authenticate. apply yields_catch; [stable| |intros e; by apply yields_ret].
  do 2 (destruct (_ : bool); [by apply yields_ret|]).
  next (λ (_ : bool) (_ : auth_db), True); [apply yields_isSessionValid|]. intros [|]; by apply yields_ret.
Qed.
Lemma yields_authenticated p k : (∀ u s, yields (λ _, True) (k u s) any) → yields (λ _, True) (authenticated p k) any.
Proof.
  intros Hk. unfold authenticated. next (λ (_ : auth_reply) (_ : auth_db), True); [apply yields_authenticate|].
  intros a. destruct a; try by apply yields_ret. apply yields_true, Hk.
Qed.
Lemma yields_logout p : yields (λ _, True) (logout p) any.
Proof.
  apply yields_authenticated. intros u s. apply yields_catch; [stable| |intros e; by apply yields_ret].
  next (λ (_ : unit) (_ : auth_db), True); [apply yields_revokeSession|]. intros _. by apply yields_ret.
Qed.
Lemma yields_logout_all_other p : yields (λ _, True) (logout_all_other p) any.
Proof.
  apply yields_authenticated. intros u s. apply yields_catch; [stable| |intros e; by apply yields_ret].
  next (λ (_ : nat) (_ : auth_db), True); [apply yields_revokeAllExceptCurrent|]. intros n. by apply yields_ret.
Qed.

Lemma yields_reset_request x ws : yields (λ _, True) (reset_request x ws) any.
Proof.
  unfold reset_request. apply yields_catch; [stable| |intros e; by apply yields_ret]. destruct (_ <? _)%nat; [by apply yields_ret|].
  destruct (getIdentifierType _) as [t|]; [|by apply yields_ret].
  next (λ (_ : option auth_user) (_ : auth_db), True); [eapply yields_any, yields_select_user; mono|].
  intros [u|]; [|by apply yields_ret].
  next (λ (_ : string * Z) (_ : auth_db), True); [apply yields_true, yields_createOTP|]. intros r. by apply yields_ret.
Qed.

Lemma yields_verify_reset x otp : yields (λ _, True) (verify_reset x otp) any.
Proof.
  unfold verify_reset. set (k := (PasswordReset, x)).
  next (λ (o : option otp_row) d, ∀ r, o = Some r → row_ok d r ∧ or_key r = k); [apply yields_newest_open|].
  intros [r|]; [|apply yields_throw].
  next (λ n d, n ≤ ad_now d ∧ or_expires r - OTP_TTL ≤ n ∧ Claim k otp n ∈ ad_presented d).
  { apply yields_present; [mono|]. intros d Hd [_ Hr]. destruct (Hr r eq_refl) as [[(r0 & Hr0 & _ & _ & _ & <-) _] _].
    by apply (ok_codes _ Hd _ _ Hr0). }
  intros now. destruct (Z.ltb_spec (or_expires r) now) as [|Hexp]; [apply yields_throw|].
  destruct (or_max r <=? or_attempts r); [apply yields_throw|].
  destruct (String.eqb_spec (pbkdf2_sha512 otp (or_salt r)) (or_hash r)) as [Hh|]; cbn [negb].
  2: { next (λ (_ : unit) (_ : auth_db), True); [by apply yields_bump; mono|]. intros _. apply yields_throw. }
  next (λ (_ : unit) (_ : auth_db), True); [|intros _; by apply yields_ret].
  apply (yields_verify_rows _ _ k); [mono|..].
  - intros d y [[_ Hr] _] Hy Hid. destruct (Hr r eq_refl) as [[Hmade _] <-]. by apply (row_made_id d).
  - intros d [[_ Hr] (Hn & He & Hin)]. destruct (Hr r eq_refl) as [[(r0 & Hr0 & Hk0 & Hh0 & Hs0 & He0) _] Hkey].
    exists (Claim k otp now). split; [done|]. apply list_elem_of_lookup_2 in Hr0.
    apply (made_proved _ _ _ r0); [done|done|congruence| |lia|done]. unfold hash_code. simpl. by rewrite Hs0, Hh0.
Qed.
Lemma yields_legacy (P : auth_db → Prop) (f : auth_db → gmap string (string * bool)) :
  mono P → yields P (stmt (modify (λ d, set_legacy (f d) d))) any.
Proof.
  intros HP. apply yields_stmt; [stable|]. intros d Hd Hp. simpl.
  assert (auth_step d (set_legacy (f d) d)) as Hs by by apply step_same.
  destruct (auth_ok_next d (set_legacy (f d) d) Hd Hs) as [? ?]; simpl; eauto 6. apply Hd.
Qed.
Lemma yields_password_reset x otp pw salt : yields (λ _, True) (password_reset x otp pw salt) any.
Proof.
  unfold password_reset. do 2 (destruct (_ : bool); [by apply yields_ret|]).
  destruct (getIdentifierType _) as [t|]; [|by apply yields_ret].
  apply yields_catch; [stable| |intros e; by apply yields_ret].
  next (λ (_ : unit) (_ : auth_db), True); [|intros _; by apply yields_ret]. unfold resetPassword.
  next (λ (_ : option string) (_ : auth_db), True); [apply yields_verify_reset|]. intros [u|]; [|apply yields_throw].
  destruct (_ <? _)%nat; [apply yields_throw|].
  next (λ (_ : unit) (_ : auth_db), True); [apply yields_update_user; [mono|done]|]. intros _. unfold logoutAll.
  next (λ (_ : list string) (_ : auth_db), True); [by apply yields_gets; [stable|]|]. intros ids.
  next (λ (_ : unit) (_ : auth_db), True).
  { apply yields_fold; [stable|]. intros _ sid. apply yields_cached_sessions. mono. }
  intros _. apply yields_legacy. mono.
Qed.

(** ** All interleavings *)
(** Time passes, Redis keys expire, and admins change the status of users or unlock them. *)
Inductive auth_env : auth_db → auth_db → Prop :=
  | env_time n d : 0 ≤ n → auth_env d (set_now (ad_now d + n) d)
  | env_expire_otp k d : auth_env d (set_otp_cache (delete k (ad_otp_cache d)) d)
  | env_expire_session sid d : auth_env d (set_session_cache (delete sid (ad_session_cache d)) d)
  | env_expire_flag x d : auth_env d (set_flags (ad_flags d ∖ {[x]}) d)
  | env_user id status ev pv pw failed locked d d' :
      update_user id (user_with status ev pv pw failed locked) d = Ret (tt, d') → auth_env d d'.

(** Requests. A token that the JWT library accepts was signed here, for a session of its user. *)
Inductive auth_starts : auth_db → thread auth_db auth_reply → Prop :=
  | start_send_otp x ws d : auth_starts d (send_otp x ws)
  | start_verify_otp f x otp su newId sid h d : auth_starts d (verify_otp f x otp su newId sid h)
  | start_signup email phone pw newId sid salt d : auth_starts d (signup email phone pw newId sid salt)
  | start_login f old email phone otp token sid ws d : auth_starts d (login f old email phone otp token sid ws)
  | start_verify_step f token step code sid ws d : auth_starts d (verify_step f token step code sid ws)
  | start_resend token step ws d : auth_starts d (resend_otp token step ws)
  | start_refresh p sid d : session_of d (pl_session p) (pl_user p) → auth_starts d (refresh p sid)
  | start_authenticate p d : auth_starts d (authenticate p)
  | start_logout p d : auth_starts d (logout p)
  | start_logout_all p d : auth_starts d (logout_all_other p)
  | start_reset_request x ws d : auth_starts d (reset_request x ws)
  | start_password_reset x otp pw salt d : auth_starts d (password_reset x otp pw salt).
Definition auth_pool : auth_db * list (thread auth_db auth_reply) → auth_db * list (thread auth_db auth_reply) → Prop :=
  pool_step auth_env auth_starts.

Lemma auth_env_ok d d' : auth_ok d → auth_env d d' → auth_ok d' ∧ auth_step d d'.
Proof.
  intros Hd He. destruct He as [n d Hn|k d|sid d|x d|id st ev pv pw fl lk d d' Hrun].
  - assert (auth_step d (set_now (ad_now d + n) d)) as Hs by (split; simpl; [lia|done|done|done|eauto|eauto 10]).
    apply auth_ok_next; simpl; eauto 6. apply Hd.
  - apply auth_ok_next; simpl; eauto 6; [by apply step_same| |apply Hd]. intros k' c Hk. left. by apply lookup_delete_Some in Hk as [_ ?].
  - apply auth_ok_next; simpl; eauto 6; [by apply step_same|apply Hd].
  - apply auth_ok_next; simpl; eauto 6; [by apply step_same| |apply Hd]. intros y Hy. left. set_solver.
  - injection Hrun as <-. destruct (static_map (λ u, String.eqb (au_id u) id) (user_with st ev pv pw fl lk) (ad_users d)) as [Hst Hid]; [done|].
    apply auth_ok_next; simpl; eauto 6; [|by rewrite Hid; apply Hd]. split; simpl; rewrite ?Hst; [done|done|done|done|eauto|eauto 10].
Qed.

Lemma auth_starts_safe d t : auth_ok d → auth_starts d t → safe auth_ok auth_step t (λ _ _, True) d.
Proof.
  intros Hd Hs. assert (∀ P (t : thread auth_db auth_reply), P d → yields P t any → safe auth_ok auth_step t (λ _ _, True) d) as Hy.
  { intros P t' Hp Ht. eapply safe_mono; [|by apply Ht]. done. }
  destruct Hs; [..|by eapply Hy, yields_refresh| | | | |];
    (eapply (Hy (λ _, True)); [done|]);
    first [apply yields_send_otp|apply yields_verify_otp|apply yields_signup|apply yields_login|apply yields_verify_step
          |apply yields_resend_otp|apply yields_authenticate|apply yields_logout|apply yields_logout_all_other
          |apply yields_reset_request|apply yields_password_reset].
Qed.

(** No codes, sessions and tokens yet; every user has its own id. *)
Record auth_fresh (d : auth_db) : Prop := {
  fr_otps : ad_otps d = []; fr_codes : ad_codes d = []; fr_cache : ad_otp_cache d = ∅; fr_flags : ad_flags d = ∅;
  fr_sessions : ad_sessions d = ∅; fr_tokens : ad_tokens d = ∅; fr_ids : NoDup (au_id <$> ad_users d);
}.
Lemma auth_fresh_ok d : auth_fresh d → auth_ok d.
Proof.
  intros [Ho Hc Hca Hf Hs Ht Hi]. split; rewrite ?Ho, ?Hc, ?Hca, ?Hf, ?Hs, ?Ht; try done.
  - intros r Hr. by apply not_elem_of_nil in Hr.
Qed.
Lemma auth_runs_ok d0 d ts : auth_fresh d0 → rtc auth_pool (d0, []) (d, ts) → auth_ok d.
Proof.
  intros Hf Hrun. assert (all_safe auth_ok auth_step (d, ts)) as [Hd _]; [|done].
  apply (pool_safe _ _ (@reflexivity _ auth_step _) (@transitivity _ auth_step _) auth_env auth_starts (d0, []) (d, ts)).
  - apply auth_env_ok.
  - apply auth_starts_safe.
  - done.
  - split; [by apply auth_fresh_ok|constructor].
Qed.

(** ** Theorems *)
(** C23.. Who is signed in. Over all interleavings of the requests that make codes, present
    them, sign up, log in step by step, renew and close sessions and reset passwords, with
    statements that fail anywhere, crashes, Redis keys that expire early and admins who
    change accounts, every session in [user_sessions] belongs to a user for whom a request of
    the run presented a code ([ad_presented]: the code, the identifier and the clock it was
    judged by) with the digest of one that this server had made for this identifier, while
    it was not older than ten minutes; the identifier is the user's mail address, its phone,
    or a phone number with the same last ten digits (a number that the fallback of [POST
    /login] takes for the user's: [AuthDemo.other_country_logs_in]). A renewed session has
    this from the session it renews. *)
Theorem sessions_are_vouched (d0 d : auth_db) (ts : list (thread auth_db auth_reply)) (sid : string) (s : session) :
  auth_fresh d0 → rtc auth_pool (d0, []) (d, ts) → ad_sessions d !! sid = Some s → vouched d (se_user s).
Proof. intros Hf Hrun Hs. by apply (ok_sessions _ (auth_runs_ok d0 d ts Hf Hrun) sid). Qed.

(** A session that [POST /login] opened for a user found by its identifier, with a select
    that read the settings of the second factors, at once or after the steps [ps]. *)
Definition opened_by_login (s : session) (c : code_claim) (ps : list step_proof) : Prop :=
  (se_origin s = ByLogin FullSelect c ∧ ps = []) ∨ se_origin s = BySteps FullSelect c ps.

(** C24.. Second factors. Over the same runs, a session that [POST /login] opened for a user
    it found by the full identifier, while the select that reads the settings of the second
    factors succeeded, directly or through [POST /login/verify-step], had every factor
    verified that the settings of this user ask for: for each of them a request presented a
    code made for the user's phone or mail at most ten minutes before, or a TOTP of the
    user's secret; steps of one login may be verified at the same time and in any order. The
    settings do not change during a run. Without the columns of the settings the login goes
    on without these factors ([AuthDemo.old_schema_drops_factors]), the fallback by ten
    digits drops them after any error ([AuthDemo.failed_select_drops_factors]), and [POST
    /verify-otp] opens sessions without them ([AuthDemo.verify_otp_skips_factors]). *)
Theorem login_needs_every_step (d0 d : auth_db) (ts : list (thread auth_db auth_reply)) (sid : string) (s : session)
    (c : code_claim) (ps : list step_proof) :
  auth_fresh d0 → rtc auth_pool (d0, []) (d, ts) → ad_sessions d !! sid = Some s → opened_by_login s c ps →
  ∃ u, person d u ∧ au_id u = se_user s ∧ holds_identifier (cl_key c) u ∧ proved d c ∧
    ∀ step, step ∈ login_steps (cl_key c).1 u → ∃ p, p ∈ ps ∧ sp_step p = step ∧ step_proved d u p.
Proof.
  intros Hf Hrun Hs Ho. destruct (ok_sessions _ (auth_runs_ok d0 d ts Hf Hrun) sid s Hs) as [_ Hok].
  destruct Ho as [[Ho ->]|Ho]; rewrite Ho in Hok.
  - destruct Hok as (u & ? & ? & ? & ? & Hno). exists u. split_and!; try done. rewrite Hno by done. intros step Hin.
    by apply not_elem_of_nil in Hin.
  - destruct Hok as (u & ? & ? & ? & ? & Hps & Hall). exists u. split_and!; try done. intros step Hin.
    destruct (Hall eq_refl step Hin) as (p & Hp & ?). exists p. split_and!; try done. by apply (Forall_forall _ ps).
Qed.
End Auth.
