(* ===== verification/AuthCodes.v ===== *)
(** * One-time codes and closed sessions

    Requests that run one after the other see the codes as [spec_op] describes them: a new
    code replaces the old one, it can be tried three times, accepted once, and lives for ten
    minutes, whether Redis still has it or not. A session that was closed by a
    request alone, while Redis answered, is refused from then on, whatever starts later. *)
From stdpp Require Import base gmap strings list fin_maps relations.
From Stdlib Require Import ZArith Lia Ascii.
From S2P Require Import Prelude Threads Halt SettlementModel AuthModel Auth.
Local Open Scope Z_scope.

(** ** The specification *)
Record live_code := Live { lv_hash : string; lv_salt : string; lv_attempts : Z; lv_expires : Z }.
Record otp_spec := OtpSpec { os_now : Z; os_live : gmap otp_key live_code }.

Section Codes.
Context `{AuthCrypto}.

Inductive otp_op :=
  | Create (k : otp_key) (w : list nat * string)
  | Verify (flip : bool) (k : otp_key) (otp : string)
  | Forget (k : otp_key)
  | Wait (n : Z).
(** What the caller learns: the new code and its end, or whether a code was right. *)
Inductive otp_answer := Made (otp : string) (expires : Z) | Checked (valid : bool) (message : string) | Nothing.

(** One verification of the live code. *)
Definition spec_verify (now : Z) (otp : string) (o : option live_code) : otp_answer * option live_code :=
  match o with
  | None => (Checked false "OTP not found or expired", None)
  | Some l =>
      if lv_expires l <? now then (Checked false "OTP has expired", o)
      else if 3 <=? lv_attempts l then (Checked false "Maximum attempts exceeded", o)
      else if String.eqb (hmac_sha256 (lv_salt l) otp) (lv_hash l) then (Checked true "OTP verified successfully", None)
      else (Checked false "Invalid OTP", Some (Live (lv_hash l) (lv_salt l) (lv_attempts l + 1) (lv_expires l)))
  end.
Definition spec_op (op : otp_op) (s : otp_spec) : otp_answer * otp_spec :=
  match op with
  | Create k (draws, salt) =>
      let otp := generateOTP draws in
      (Made otp (os_now s + OTP_TTL),
       OtpSpec (os_now s) (<[k := Live (hash_code k otp salt) salt 0 (os_now s + OTP_TTL)]> (os_live s)))
  | Verify _ k otp =>
      let '(a, o) := spec_verify (os_now s) otp (os_live s !! k) in
      (a, OtpSpec (os_now s) (partial_alter (λ _, o) k (os_live s)))
  | Forget _ => (Nothing, s)
  | Wait n => (Nothing, OtpSpec (os_now s + n) (os_live s))
  end.

(** The same operations of the service, one after the other; [Forget] is Redis losing a key. *)
Definition run_op (op : otp_op) (d : auth_db) : otp_answer * auth_db :=
  match op with
  | Create k w =>
      let '(o, d') := alone (createOTP k None [w]) d in
      (match o with Ret (otp, e) => Made otp e | Throw _ => Nothing end, d')
  | Verify flip k otp =>
      let '(o, d') := alone (verifyOTP flip k otp) d in
      (match o with Ret v => Checked (vr_valid v) (vr_message v) | Throw _ => Nothing end, d')
  | Forget k => (Nothing, set_otp_cache (delete k (ad_otp_cache d)) d)
  | Wait n => (Nothing, set_now (ad_now d + n) d)
  end.
Fixpoint run_ops {S} (step : otp_op → S → otp_answer * S) (ops : list otp_op) (s : S) : list otp_answer * S :=
  match ops with
  | [] => ([], s)
  | op :: l => let '(a, s1) := step op s in let '(answers, s2) := run_ops step l s1 in (a :: answers, s2)
  end.

(** ** The simulation relation *)
Local Notation opens k l := (filter (λ r, open_code k r = true) l).
Definition is_live (r : otp_row) (l : live_code) : Prop :=
  or_hash r = lv_hash l ∧ or_salt r = lv_salt l ∧ or_attempts r = lv_attempts l ∧ or_expires r = lv_expires l ∧ or_max r = 3.
Definition rows_agree (rows : list otp_row) (o : option live_code) : Prop :=
  match o with None => rows = [] | Some l => ∃ r, rows = [r] ∧ is_live r l end.
Definition cache_agrees (c : option cached_otp) (o : option live_code) : Prop :=
  c = None ∨ ∃ l, o = Some l ∧ c = Some (CachedOtp (lv_hash l) (lv_salt l) (lv_attempts l) (lv_expires l)).
Record codes_agree (d : auth_db) (s : otp_spec) : Prop := {
  ca_now : ad_now d = os_now s;
  ca_rows : ∀ k, k.1 ≠ PasswordReset → rows_agree (opens k (ad_otps d)) (os_live s !! k);
  ca_cache : ∀ k, k.1 ≠ PasswordReset → cache_agrees (ad_otp_cache d !! k) (os_live s !! k);
  ca_ids : NoDup (or_id <$> ad_otps d);
  ca_fresh : ∀ r, r ∈ ad_otps d → (or_id r < length (ad_codes d))%nat;
}.

Lemma open_code_key k k' r : open_code k r = true → open_code k' r = true → k = k'.
Proof.
  unfold open_code. intros [H1 _]%andb_prop [H2 _]%andb_prop. apply bool_decide_eq_true in H1, H2. congruence.
Qed.

(** Rows of one key are updated: those of another key are as they were. *)
Lemma opens_update_ne k k' f (rows : list otp_row) :
  k ≠ k' → (∀ r, or_key (f r) = or_key r) →
  opens k' ((λ r, if open_code k r then f r else r) <$> rows) = opens k' rows.
Proof.
  intros Hne Hf. induction rows as [|r rows IH]; [done|]. rewrite fmap_cons, !filter_cons, IH.
  destruct (open_code k r) eqn:Ho; [|done].
  assert (or_key r = k) as Hk by (unfold open_code in Ho; apply andb_prop in Ho as [Ho _]; by apply bool_decide_eq_true in Ho).
  assert (open_code k' r ≠ true) as H1 by (intros H1; by apply Hne, (open_code_key _ _ r)).
  assert (open_code k' (f r) ≠ true) as H2.
  { unfold open_code. rewrite Hf, Hk, bool_decide_eq_false_2 by done. done. }
  by rewrite !decide_False.
Qed.
Lemma opens_bump k (rows : list otp_row) :
  opens k ((λ r, if open_code k r then bump_attempts r else r) <$> rows) = bump_attempts <$> opens k rows.
Proof.
  induction rows as [|r rows IH]; [done|]. rewrite fmap_cons, !filter_cons, IH.
  destruct (open_code k r) eqn:Ho; [rewrite !decide_True by done; done|]. by rewrite !decide_False by congruence.
Qed.
Lemma opens_verified k now (rows : list otp_row) :
  opens k ((λ r, if open_code k r then mark_verified now r else r) <$> rows) = [].
Proof.
  induction rows as [|r rows IH]; [done|]. rewrite fmap_cons, filter_cons, IH.
  destruct (open_code k r) eqn:Ho; rewrite decide_False; try done; try congruence.
  unfold open_code. simpl. by rewrite andb_false_r.
Qed.
Lemma opens_deleted k k' (rows : list otp_row) :
  opens k' (filter (λ r, open_code k r = false) rows) = if decide (k = k') then [] else opens k' rows.
Proof.
  induction rows as [|r rows IH]; [by case_decide|]. rewrite !filter_cons. destruct (open_code k r) eqn:Ho.
  - rewrite decide_False by done. rewrite IH. case_decide; [done|]. rewrite decide_False; [done|].
    intros Ho'. by apply (open_code_key k k' r) in Ho.
  - rewrite decide_True, filter_cons by done. rewrite IH. case_decide as Hk; [|done]. subst k'. by rewrite decide_False by congruence.
Qed.

(** The row of an id is the open row of its key. *)
Lemma by_id_open d k r (f : otp_row → otp_row) :
  NoDup (or_id <$> ad_otps d) → opens k (ad_otps d) = [r] →
  (λ x, if (or_id x =? or_id r)%nat then f x else x) <$> ad_otps d
  = (λ x, if open_code k x then f x else x) <$> ad_otps d.
Proof.
  intros Hnd Hr. apply list_fmap_ext. intros i x Hx. assert (r ∈ opens k (ad_otps d)) as Hin by (rewrite Hr; by apply list_elem_of_singleton).
  apply list_elem_of_filter in Hin as [Ho Hin]. destruct (Nat.eqb_spec (or_id x) (or_id r)) as [Hid|Hid].
  - apply list_elem_of_lookup in Hin as [j Hj].
    assert (i = j) as ->; [|simplify_eq; by rewrite Ho].
    apply (NoDup_lookup (or_id <$> ad_otps d) i j (or_id r)); [done|..]; rewrite list_lookup_fmap; [by rewrite Hx; simpl; rewrite Hid|by rewrite Hj].
  - destruct (open_code k x) eqn:Hox; [|done]. assert (x ∈ opens k (ad_otps d)) as Hxin.
    { apply list_elem_of_filter. split; [done|]. by apply list_elem_of_lookup_2 in Hx. }
    rewrite Hr in Hxin. apply list_elem_of_singleton in Hxin. congruence.
Qed.

Lemma agree_update d s k f o' c' :
  codes_agree d s → (∀ r, or_key (f r) = or_key r) → (∀ r, or_id (f r) = or_id r) →
  rows_agree (opens k ((λ r, if open_code k r then f r else r) <$> ad_otps d)) o' → cache_agrees (c' !! k) o' →
  (∀ k', k' ≠ k → c' !! k' = ad_otp_cache d !! k') →
  codes_agree (set_otp_cache c' (set_otps ((λ r, if open_code k r then f r else r) <$> ad_otps d) d))
    (OtpSpec (os_now s) (partial_alter (λ _, o') k (os_live s))).
Proof.
  intros [Hn Hr Hc Hi Hf] Hkey Hid Hrows Hcache Hothers. split; simpl.
  - done.
  - intros k' Hk'. destruct (decide (k' = k)) as [->|Hne]; [by rewrite lookup_partial_alter_eq|].
    rewrite lookup_partial_alter_ne, opens_update_ne by done. by apply Hr.
  - intros k' Hk'. destruct (decide (k' = k)) as [->|Hne]; [by rewrite lookup_partial_alter_eq|].
    rewrite lookup_partial_alter_ne, Hothers by done. by apply Hc.
  - rewrite <- list_fmap_compose. erewrite list_fmap_ext; [exact Hi|]. intros i r _. unfold compose.
    by destruct (open_code k r).
  - intros r Hin. apply list_elem_of_fmap in Hin as (r0 & -> & Hin). destruct (open_code k r0); rewrite ?Hid; by apply Hf.
Qed.

Lemma agree_same k s : OtpSpec (os_now s) (partial_alter (λ _, os_live s !! k) k (os_live s)) = s.
Proof. destruct s as [n m]. simpl. f_equal. by apply partial_alter_id. Qed.
(** A key that Redis no longer has. *)
Lemma agree_forget d s k : codes_agree d s → codes_agree (set_otp_cache (delete k (ad_otp_cache d)) d) s.
Proof.
  intros [Hn Hr Hc Hi Hf]. split; simpl; try done. intros k' Hk'. destruct (decide (k' = k)) as [->|Hne].
  - rewrite lookup_delete_eq. by left.
  - rewrite lookup_delete_ne by done. by apply Hc.
Qed.

(** The record of the presented codes is beside the codes. *)
Lemma agree_present d s c : codes_agree d s → codes_agree (log_claim c d) s.
Proof. by intros [Hn Hr Hc Hi Hf]. Qed.
Lemma alone_present k otp d : alone (present k otp) d = (Ret (ad_now d), log_claim (Claim k otp (ad_now d)) d).
Proof. done. Qed.

(** What a wrong and a right code do to the table and to Redis. *)
Definition bumped (k : otp_key) (c' : gmap otp_key cached_otp) (d : auth_db) : auth_db :=
  set_otp_cache c' (set_otps ((λ r, if open_code k r then bump_attempts r else r) <$> ad_otps d) d).
Definition verified_db (k : otp_key) (d : auth_db) : auth_db :=
  set_otp_cache (delete k (ad_otp_cache d))
    (set_otps ((λ r, if open_code k r then mark_verified (ad_now d) r else r) <$> ad_otps d) d).

Lemma agree_verified d s k : codes_agree d s →
  codes_agree (verified_db k d) (OtpSpec (os_now s) (partial_alter (λ _, None) k (os_live s))).
Proof.
  intros Hd. apply agree_update; try done; [by rewrite opens_verified|left; by apply lookup_delete_eq|].
  intros k' Hne. by rewrite lookup_delete_ne.
Qed.
Lemma agree_bumped d s k l c' :
  codes_agree d s → k.1 ≠ PasswordReset → os_live s !! k = Some l →
  let l' := Live (lv_hash l) (lv_salt l) (lv_attempts l + 1) (lv_expires l) in
  (c' = ad_otp_cache d ∧ ad_otp_cache d !! k = None
   ∨ c' = <[k := CachedOtp (lv_hash l) (lv_salt l) (lv_attempts l + 1) (lv_expires l)]> (ad_otp_cache d)) →
  codes_agree (bumped k c' d) (OtpSpec (os_now s) (partial_alter (λ _, Some l') k (os_live s))).
Proof.
  intros Hd Hk Hl l' Hc. apply agree_update; try done.
  - rewrite opens_bump. pose proof (ca_rows _ _ Hd k Hk) as Hr. rewrite Hl in Hr. destruct Hr as (r & -> & ? & ? & ? & ? & ?).
    exists (bump_attempts r). split; [done|]. split_and!; simpl; try done. by f_equal.
  - destruct Hc as [[-> Hnone]| ->]; [by left|]. right. exists l'. by rewrite lookup_insert_eq.
  - intros k' Hne. destruct Hc as [[-> _]| ->]; [done|]. by rewrite lookup_insert_ne.
Qed.

(** The verification without Redis. *)
Lemma alone_verify_from_db k otp d s :
  codes_agree d s → k.1 ≠ PasswordReset →
  let '(a, o') := spec_verify (os_now s) otp (os_live s !! k) in
  ∃ v d1 d', alone (verifyOTPFromDb k otp) d = (Ret v, d') ∧ Checked (vr_valid v) (vr_message v) = a ∧
    codes_agree d1 s ∧ ad_otp_cache d1 = ad_otp_cache d ∧
    (d' = d1 ∧ o' = os_live s !! k ∨ d' = verified_db k d1 ∧ o' = None ∨
     ∃ l, os_live s !! k = Some l ∧ d' = bumped k (ad_otp_cache d1) d1 ∧
       o' = Some (Live (lv_hash l) (lv_salt l) (lv_attempts l + 1) (lv_expires l))).
Proof.
  intros Hd Hk. pose proof (ca_rows _ _ Hd k Hk) as Hr. pose proof (ca_now _ _ Hd) as Hn. unfold verifyOTPFromDb, newest_open.
  rewrite alone_bind, alone_gets. cbv beta iota.
  destruct (os_live s !! k) as [l|] eqn:Hl; simpl in Hr.
  2: { rewrite Hr. simpl. exists (Verification false "OTP not found or expired" 0), d, d. split_and!; try done. by left. }
  destruct Hr as (r & Hr & Hh & Hs & Ha & He & Hm). rewrite Hr. simpl last. cbv beta iota.
  rewrite alone_bind, alone_present. cbv beta iota. unfold spec_verify. rewrite Hn, He, Ha, Hm, Hs, Hh.
  set (d1 := log_claim _ d). assert (codes_agree d1 s) as Hd1 by by apply agree_present.
  assert (opens k (ad_otps d1) = [r]) as Hr1 by done.
  destruct (lv_expires l <? os_now s).
  { exists (Verification false "OTP has expired" (os_now s)), d1, d1. split_and!; try done. by left. }
  destruct (3 <=? lv_attempts l).
  { exists (Verification false "Maximum attempts exceeded" (os_now s)), d1, d1. split_and!; try done. by left. }
  destruct (String.eqb _ _); cbn [negb].
  - rewrite alone_bind, alone_stmt. unfold transaction, verify_rows, update_otps, bind, gets, modify.
    rewrite (by_id_open d1 k r) by (try done; apply Hd1). cbv beta iota. rewrite alone_bind, alone_best_effort. cbv beta iota.
    exists (Verification true "OTP verified successfully" (os_now s)), d1. eexists. split_and!; [reflexivity|done..|].
    right; left. done.
  - rewrite alone_bind, alone_stmt. unfold transaction, update_otps, modify.
    rewrite (by_id_open d1 k r) by (try done; apply Hd1). cbv beta iota.
    exists (Verification false "Invalid OTP" (os_now s)), d1. eexists. split_and!; [reflexivity|done..|].
    right; right. exists l. split_and!; [done| |done]. unfold bumped. by destruct d.
Qed.

Lemma sim_verify flip k otp d s :
  codes_agree d s → k.1 ≠ PasswordReset →
  let '(a, d') := run_op (Verify flip k otp) d in
  let '(a', s') := spec_op (Verify flip k otp) s in a = a' ∧ codes_agree d' s'.
Proof.
  intros Hd Hk. cbn [run_op spec_op]. unfold verifyOTP, get_cached_otp. rewrite alone_bind, alone_catch, alone_gets. cbv beta iota.
  destruct (ad_otp_cache d !! k) as [c|] eqn:Hc.
  - pose proof (ca_cache _ _ Hd k Hk) as Hcache. rewrite Hc in Hcache. destruct Hcache as [|(l & Hl & [= ->])]; [done|].
    rewrite Hl. simpl co_hash. simpl co_salt. simpl co_attempts. simpl co_expires. pose proof (ca_now _ _ Hd) as Hn.
    rewrite alone_bind, alone_present. cbv beta iota. unfold spec_verify. rewrite Hn.
    set (d1 := log_claim _ d). assert (codes_agree d1 s) as Hd1 by by apply agree_present.
    assert (OtpSpec (os_now s) (partial_alter (λ _, Some l) k (os_live s)) = s) as Hsame by (rewrite <- Hl; apply agree_same).
    destruct (lv_expires l <? os_now s).
    { rewrite alone_bind, alone_best_effort. cbv beta iota. simpl. rewrite Hsame. split; [done|]. exact (agree_forget d1 s k Hd1). }
    destruct (3 <=? lv_attempts l); [simpl; by rewrite Hsame|].
    destruct (String.eqb _ _); cbn [negb]; rewrite alone_bind, alone_both.
    + pose proof (agree_verified d1 s k Hd1) as Hv. unfold verified_db in Hv.
      destruct flip; rewrite ?alone_best_effort, ?alone_stmt; unfold transaction, verify_rows, update_otps, bind, gets, modify,
        del_cached_otp; cbv beta iota; rewrite ?alone_best_effort; (split; [reflexivity|]); by destruct d.
    + pose proof (agree_bumped d1 s k l _ Hd1 Hk Hl (or_intror eq_refl)) as Hb. unfold bumped in Hb.
      destruct flip; rewrite ?alone_best_effort, ?alone_stmt; unfold transaction, update_otps, modify, put_cached_otp;
        cbv beta iota; rewrite ?alone_stmt; (split; [reflexivity|]); by destruct d.
  - pose proof (alone_verify_from_db k otp d s Hd Hk) as Hdb. destruct (spec_verify _ _ _) as [a o'].
    destruct Hdb as (v & d1 & d' & -> & <- & Hd1 & Hc1 & Hcase). split; [done|].
    destruct Hcase as [[-> ->]|[[-> ->]|(l & Hl & -> & ->)]].
    + by rewrite agree_same.
    + by apply agree_verified.
    + apply agree_bumped; try done. left. split; [done|]. by rewrite Hc1.
Qed.

Lemma sim_create k w d s :
  codes_agree d s →
  let '(a, d') := run_op (Create k w) d in
  let '(a', s') := spec_op (Create k w) s in a = a' ∧ codes_agree d' s'.
Proof.
  intros [Hn Hr Hc Hi Hf]. destruct w as [draws salt]. cbn [run_op spec_op createOTP].
  rewrite alone_catch. unfold create_attempt. cbv zeta beta iota. rewrite alone_bind. unfold clock. rewrite alone_gets. cbv beta iota.
  rewrite alone_bind, alone_stmt. unfold transaction, delete_open, modify. cbv beta iota.
  rewrite alone_bind, alone_stmt. unfold transaction, insert_otp, modify. cbv beta iota.
  rewrite alone_bind, alone_best_effort. unfold put_cached_otp, modify. cbn [alone tret]. cbv beta iota. rewrite Hn. split; [done|].
  set (h := hash_code k _ salt). set (e := os_now s + OTP_TTL). split; simpl.
  - done.
  - intros k' Hk'. rewrite filter_app, opens_deleted. destruct (decide (k = k')) as [<-|Hne].
    + rewrite lookup_insert_eq. rewrite filter_cons_True by (unfold open_code; simpl; by rewrite bool_decide_eq_true_2).
      eexists. split; [done|]. done.
    + rewrite lookup_insert_ne, filter_cons_False by (try done; unfold open_code; simpl; by rewrite bool_decide_eq_false_2).
      rewrite filter_nil, app_nil_r. by apply Hr.
  - intros k' Hk'. destruct (decide (k = k')) as [<-|Hne].
    + rewrite !lookup_insert_eq. right. by eexists.
    + rewrite !lookup_insert_ne by done. by apply Hc.
  - rewrite fmap_app. apply NoDup_app. split_and!.
    + eapply sublist_NoDup; [exact Hi|]. apply fmap_sublist, sublist_filter.
    + intros i Hin Hi'. apply list_elem_of_singleton in Hi' as ->. apply list_elem_of_fmap in Hin as (r & Hid & Hin).
      apply list_elem_of_filter in Hin as [_ Hin]. apply Hf in Hin. simpl in Hid. lia.
    + apply NoDup_singleton.
  - intros r Hin. rewrite length_app. simpl. apply elem_of_app in Hin as [Hin|Hin].
    + apply list_elem_of_filter in Hin as [_ Hin]. apply Hf in Hin. lia.
    + apply list_elem_of_singleton in Hin as ->. simpl. lia.
Qed.

(** Codes for mail addresses and phones; those that reset passwords are verified elsewhere. *)
Definition login_op (op : otp_op) : Prop :=
  match op with Create k _ | Verify _ k _ => k.1 ≠ PasswordReset | _ => True end.

Lemma sim_op op d s :
  codes_agree d s → login_op op →
  (run_op op d).1 = (spec_op op s).1 ∧ codes_agree (run_op op d).2 (spec_op op s).2.
Proof.
  intros Hd Hok. destruct op as [k w|flip k otp|k|n].
  - pose proof (sim_create k w d s Hd) as Hs. destruct (run_op _ d), (spec_op _ s). exact Hs.
  - pose proof (sim_verify flip k otp d s Hd Hok) as Hs. destruct (run_op _ d), (spec_op _ s). exact Hs.
  - split; [done|]. by apply agree_forget.
  - split; [done|]. destruct Hd as [Hn Hr Hc Hi Hf]. split; simpl; try done. by rewrite Hn.
Qed.

(** ** Closed sessions *)
Section Closed.
Context (sid : string).

(** Revoked in the table, and not in Redis. *)
Definition closed (d : auth_db) : Prop :=
  (∃ s, ad_sessions d !! sid = Some s ∧ se_active s = false) ∧ ad_session_cache d !! sid = None.
Definition any_step (d d' : auth_db) : Prop := True.
#[local] Instance any_step_refl : Reflexive any_step.
Proof. done. Qed.

(** [kept t]: the thread leaves the session closed. *)
Definition kept {A} (t : thread auth_db A) : Prop := yields closed any_step (λ _, True) t (λ _ _, True).

Lemma true_any : stable closed any_step (λ _, True).
Proof. by intros d d'. Qed.
Lemma kept_ret {A} (a : A) : kept (tret a).
Proof. by apply yields_ret. Qed.
Lemma kept_throw {A} e : kept (@tthrow auth_db A e).
Proof. apply yields_throw. Qed.
Lemma kept_bind {A B} (t : thread auth_db A) (f : A → thread auth_db B) : kept t → (∀ a, kept (f a)) → kept (tbind t f).
Proof.
  intros Ht Hf. apply (yields_bind _ _ _ (λ _ _, True)); [apply true_any|done|]. intros a. eapply yields_pre; [|apply Hf]. done.
Qed.
Lemma kept_catch {A} (t : thread auth_db A) h : kept t → (∀ e, kept (h e)) → kept (tcatch t h).
Proof. intros Ht Hh. by apply yields_catch; [apply true_any|..]. Qed.
Lemma kept_stmt {A} (m : M auth_db A) :
  (∀ d, closed d → match m d with Ret (_, d') => closed d' | Throw _ => True end) → kept (stmt m).
Proof.
  intros Hm. apply yields_stmt; [apply true_any|]. intros d Hd _. specialize (Hm d Hd). by destruct (m d) as [[a d']|].
Qed.
Lemma kept_gets {A} (f : auth_db → A) : kept (stmt (gets f)).
Proof. by apply kept_stmt. Qed.
Lemma kept_best_effort p : kept p → kept (best_effort p).
Proof. intros Hp. apply yields_best_effort; [apply true_any|done]. Qed.
Lemma kept_both {A B} f (p : thread auth_db A) (q : thread auth_db B) : kept p → kept q → kept (both f p q).
Proof.
  intros Hp Hq. eapply yields_post; [|apply yields_both with (Fa := λ _ _, True) (Fb := λ _ _, True)]; try done; intros; apply true_any.
Qed.
Lemma kept_fold {A B} (f : B → A → thread auth_db B) acc l : (∀ acc x, kept (f acc x)) → kept (tfold f acc l).
Proof. intros Hf. apply yields_fold; [apply true_any|done]. Qed.

Lemma kept_del sid' : kept (stmt (del_cached_session sid')).
Proof.
  apply kept_stmt. intros d [Hs Hc]. split; [done|]. simpl. destruct (decide (sid' = sid)) as [->|]; [by rewrite lookup_delete_eq|].
  by rewrite lookup_delete_ne.
Qed.
(** The id of a session is taken. *)
Lemma insert_other sid' s d d' : closed d → insert_session sid' s d = Ret (tt, d') → sid' ≠ sid ∧ closed d'.
Proof.
  intros [(s0 & Hs0 & Ha) Hc] Hrun. unfold insert_session in Hrun. run_all Hrun. bool_prop.
  assert (sid' ≠ sid) as Hne by congruence. split; [done|]. split; [|done]. exists s0. simpl. by rewrite lookup_insert_ne.
Qed.
Lemma kept_opening user sid' o c :
  kept (await* now := clock in
        await* _ := stmt (insert_session sid' (Session user true (now + SESSION_TTL) o)) in
        best_effort (stmt (put_cached_session sid' (c now)))).
Proof.
  apply kept_bind; [apply kept_gets|]. intros now. apply (yields_bind _ _ _ (λ _ _, sid' ≠ sid)); [apply true_any| |].
  - apply yields_stmt; [apply true_any|]. intros d Hd _.
    destruct (insert_session _ _ d) as [[[] d']|] eqn:Hrun; [|done]. by destruct (insert_other _ _ _ _ Hd Hrun).
  - intros _. apply yields_best_effort; [by intros d d'|]. apply yields_stmt; [by intros d d'|].
    intros d [Hs Hc] [_ Hne]. split_and!; [|done|done]. split; [done|]. simpl. by rewrite lookup_insert_ne.
Qed.
Lemma closed_deactivate d ids : closed d → closed (set_sessions (foldr (alter deactivate) (ad_sessions d) ids) d).
Proof.
  intros [(s & Hs & Ha) Hc]. split; [|done]. simpl. destruct (deactivate_lookup_2 ids _ _ _ Hs) as (s' & Hs' & _).
  exists s'. split; [done|]. destruct (deactivate_lookup _ _ _ _ Hs') as (s0 & Hs0 & _ & _ & Hact).
  destruct (se_active s') eqn:He; [|done]. destruct (Hact eq_refl). congruence.
Qed.
Lemma kept_revoke_others u cur : kept (stmt (revoke_others u cur)).
Proof. apply kept_stmt. intros d Hd. unfold revoke_others, bind, gets, modify, ret. by apply closed_deactivate. Qed.
Lemma kept_revoke sid' : kept (stmt (modify (λ d, set_sessions (alter deactivate sid' (ad_sessions d)) d))).
Proof. apply kept_stmt. intros d Hd. by apply (closed_deactivate d [sid']). Qed.
End Closed.

(** The requests. *)
Ltac kept_stmt_tac :=
  apply kept_stmt; intros ? ?;
  unfold select_settings, select_user, delete_open, insert_otp, put_cached_otp, del_cached_otp, update_otps, verify_rows, insert_user, update_user,
    recordFailedLogin, clearFailedLoginAttempts, update_token, bind, gets, modify, require, throw, ret;
  simpl; repeat case_match; simplify_eq; done.
Ltac kept :=
  repeat first
    [ match goal with Hk : ∀ _, _ |- _ => solve [apply Hk] end
    | apply kept_ret | apply kept_throw | apply kept_gets | apply kept_del | apply kept_revoke | apply kept_revoke_others
    | apply kept_opening | assumption
    | (apply kept_bind; [|intros ?]) | (apply kept_catch; [|intros ?]) | apply kept_best_effort | apply kept_both
    | (apply kept_fold; intros ? ?)
    | kept_stmt_tac
    | match goal with
      | |- kept _ (match ?x with _ => _ end) => destruct x
      | |- kept _ (if ?b then _ else _) => destruct b
      end ].

Lemma kept_createOTP sid k u ws : kept sid (createOTP k u ws).
Proof.
  induction ws as [|w ws IH]; cbn [createOTP]; [apply kept_throw|]. apply kept_catch.
  - destruct w as [draws salt]. unfold create_attempt, clock. kept.
  - intros e. destruct ws; [apply kept_throw|]. destruct (retryable e); [exact IH|apply kept_throw].
Qed.
Lemma kept_verify sid flip k otp : kept sid (verifyOTP flip k otp).
Proof. unfold verifyOTP, verifyOTPFromDb, clock, get_cached_otp, newest_open. kept. Qed.
Lemma kept_valid sid sid' : kept sid (isSessionValid sid').
Proof. unfold isSessionValid, get_cached_session, clock. kept. Qed.
Lemma kept_step_code sid step u ws : kept sid (step_code step u ws).
Proof. unfold step_code. pose proof (kept_createOTP sid) as Hc. destruct (step_target step u); [|apply kept_ret]. apply kept_bind; [apply Hc|]. kept. Qed.
Lemma kept_authenticated sid p k : (∀ u s, kept sid (k u s)) → kept sid (authenticated p k).
Proof.
  intros Hk. unfold authenticated, authenticate. apply kept_bind.
  - kept.
  - intros a. destruct a; try apply kept_ret. apply Hk.
Qed.

#[local] Opaque createOTP verifyOTP step_code isSessionValid.
(** Every request leaves a closed session closed. *)
Lemma kept_start sid d t : auth_starts d t → kept sid t.
Proof.
  pose proof (kept_createOTP sid) as Hcreate. pose proof (kept_verify sid) as Hverify. pose proof (kept_step_code sid) as Hstep.
  pose proof (kept_valid sid) as Hvalid.
  pose proof (kept_authenticated sid) as Hauth.
  intros Hs. destruct Hs.
  - unfold send_otp. kept.
  - unfold verify_otp, otp_login, createSession, select_user, clock, getAccountLockUntil. kept.
  - unfold signup, open_session, select_user, clock, recently_verified. kept.
  - unfold login, login_checked, login_user, open_session, select_user, clock. kept.
  - unfold verify_step, check_step, step_verified, open_session, open_token, select_user, clock. kept.
  - unfold resend_otp, open_token, select_user, clock. kept.
  - unfold refresh, get_cached_session, createSession, revokeSession, select_user, clock. kept.
  - unfold authenticate. kept.
  - unfold logout, revokeSession. apply Hauth. intros u s. kept.
  - unfold logout_all_other, revokeAllExceptCurrent. apply Hauth. intros u s. kept.
  - unfold reset_request, select_user. kept.
  - unfold password_reset, resetPassword, verify_reset, logoutAll, newest_open, clock. kept.
Qed.

(** Threads that start after the session was closed. *)
Lemma closed_runs sid d1 d ts : closed sid d1 → rtc auth_pool (d1, []) (d, ts) → closed sid d.
Proof.
  intros Hd Hrun. assert (all_safe (closed sid) any_step (d, ts)) as [Hc _]; [|done].
  apply (pool_safe (closed sid) any_step (λ _, I) (λ _ _ _ _ _, I) auth_env auth_starts (d1, []) (d, ts)); try done.
  - intros d0 d' [Hs Hc] He. split; [|done].
    destruct He as [n d0 Hn|k d0|sid' d0|x d0|id st ev pv pw fl lk d0 d' Hupd]; try done.
    + split; [done|]. simpl. apply lookup_delete_None. by right.
    + injection Hupd as <-. done.
  - intros d0 t Hd0 Ht. eapply safe_mono; [|by apply (kept_start sid d0 t Ht)]. done.
Qed.

#[local] Transparent isSessionValid.
(** What a closed session is good for. *)
Lemma closed_invalid sid d : closed sid d → alone (isSessionValid sid) d = (Ret false, d).
Proof.
  intros [(s & Hs & Ha) Hc]. unfold isSessionValid, get_cached_session, clock.
  rewrite alone_bind, alone_catch, alone_bind, alone_gets, Hc. cbn [alone tret]. cbv beta iota.
  rewrite alone_catch, alone_bind, alone_gets, Hs. cbv beta iota. rewrite alone_bind, alone_gets, Ha. done.
Qed.
Lemma closed_refused sid p d :
  closed sid d → pl_session p = sid → pl_type p ≠ Some "impersonation" →
  ∃ code, alone (authenticate p) d = (Ret (Refused code), d).
Proof.
  intros Hc <- Ht. unfold authenticate. rewrite alone_catch. destruct (bool_decide (pl_type p = Some "admin")).
  { by eexists. }
  rewrite (bool_decide_eq_false_2 _ Ht). cbn [andb]. rewrite alone_bind, closed_invalid by done. by eexists.
Qed.
Lemma closed_not_renewed sid p new d :
  closed sid d → pl_session p = sid → ∃ code, alone (refresh p new) d = (Ret (Refused code), d).
Proof.
  intros [_ Hc] <-. unfold refresh, get_cached_session. rewrite alone_catch. destruct (negb _); [by eexists|].
  rewrite alone_bind, alone_gets, Hc. by eexists.
Qed.
Lemma valid_same sid d : ∃ b, alone (isSessionValid sid) d = (Ret b, d).
Proof.
  unfold isSessionValid, get_cached_session, clock. rewrite alone_bind, alone_catch, alone_bind, alone_gets.
  destruct (ad_session_cache d !! _); cbv beta iota.
  - rewrite alone_bind, alone_gets. by eexists.
  - cbn [alone tret]. cbv beta iota. rewrite alone_catch, alone_bind, alone_gets. cbv beta iota.
    rewrite alone_bind, alone_gets. by eexists.
Qed.
Lemma authenticate_same p d :
  ∃ r, alone (authenticate p) d = (Ret r, d) ∧ (r = Allowed (pl_user p) (pl_session p) ∨ ∃ code, r = Refused code).
Proof.
  unfold authenticate. rewrite alone_catch. destruct (bool_decide _); [by eauto|]. destruct (_ && _); [by eauto|].
  rewrite alone_bind. destruct (valid_same (pl_session p) d) as [[] ->]; by eauto.
Qed.
Lemma authenticated_runs p k d r d' :
  alone (authenticated p k) d = (Ret r, d') → (∀ code, r ≠ Refused code) →
  alone (k (pl_user p) (pl_session p)) d = (Ret r, d').
Proof.
  unfold authenticated. rewrite alone_bind. destruct (authenticate_same p d) as (a & -> & [->|[code ->]]); [done|].
  intros Hr Hn. injection Hr as <- <-. by destruct (Hn code).
Qed.
#[local] Opaque isSessionValid.

(** How the user closes a session: by logging out, by logging out everywhere else, or by
    renewing it. *)
Inductive closes (sid : string) (d d' : auth_db) : Prop :=
  | by_logout p : pl_session p = sid → alone (logout p) d = (Ret (LoggedOut 0), d') → closes sid d d'
  | by_logout_others p n s :
      alone (logout_all_other p) d = (Ret (LoggedOut n), d') → ad_sessions d !! sid = Some s → se_user s = pl_user p →
      se_active s = true → sid ≠ pl_session p → closes sid d d'
  | by_refresh p u new : pl_session p = sid → alone (refresh p new) d = (Ret (LoggedIn u new), d') → closes sid d d'.

Lemma closed_revoked sid s d : ad_sessions d !! sid = Some s → closed sid (alone (revokeSession sid) d).2.
Proof.
  intros Hs. unfold revokeSession. rewrite alone_bind, alone_stmt. unfold transaction, modify. cbv beta iota.
  rewrite alone_best_effort. unfold del_cached_session, modify. split; simpl; [|by apply lookup_delete_eq].
  exists (deactivate s). by rewrite lookup_alter_eq, Hs.
Qed.
Lemma alone_dels ids d :
  alone (tfold (λ _ sid, best_effort (stmt (del_cached_session sid))) tt ids) d
  = (Ret tt, set_session_cache (foldl (λ c sid, delete sid c) (ad_session_cache d) ids) d).
Proof.
  revert d. induction ids as [|id ids IH]; intros d; cbn [tfold foldl]; [by destruct d|].
  rewrite alone_bind, alone_best_effort. unfold del_cached_session, modify. cbv beta iota. by rewrite IH.
Qed.
Lemma dels_none sid ids (c : gmap string cached_session) :
  sid ∈ ids ∨ c !! sid = None → foldl (λ c sid, delete sid c) c ids !! sid = None.
Proof.
  revert c. induction ids as [|id ids IH]; intros c Hin; simpl.
  - destruct Hin as [Hin|]; [by apply not_elem_of_nil in Hin|done].
  - apply IH. destruct (decide (id = sid)) as [->|Hne]; [right; by apply lookup_delete_eq|].
    destruct Hin as [[->|Hin]%elem_of_cons|Hn]; [done|by left|right; by rewrite lookup_delete_ne].
Qed.
Lemma closed_others u cur sid s d :
  ad_sessions d !! sid = Some s → se_user s = u → se_active s = true → sid ≠ cur →
  closed sid (alone (revokeAllExceptCurrent u cur) d).2.
Proof.
  intros Hs Hu Ha Hne. unfold revokeAllExceptCurrent. rewrite alone_bind, alone_stmt.
  unfold transaction, revoke_others, bind, gets, modify, ret. cbv beta iota zeta.
  match goal with |- context [alone (tbind (tfold _ _ ?l) _)] => set (ids := l) end.
  assert (sid ∈ ids) as Hin.
  { apply list_elem_of_fmap. exists (sid, s). split; [done|]. apply elem_of_map_to_list. by apply map_lookup_filter_Some. }
  rewrite alone_bind, alone_dels. split; simpl.
  - destruct (deactivate_lookup_2 ids _ _ _ Hs) as (s' & Hs' & _). exists s'. split; [done|].
    destruct (se_active s') eqn:He; [|done]. destruct (deactivate_lookup _ _ _ _ Hs') as (s0 & _ & _ & _ & Hact).
    by destruct (Hact He).
  - apply dels_none. by left.
Qed.
Lemma closes_closed sid d d' : is_Some (ad_sessions d !! sid) → closes sid d d' → closed sid d'.
Proof.
  intros [s0 Hs0] [p <- Hrun|p n s Hrun Hs Hu Ha Hne|p u new <- Hrun].
  - apply authenticated_runs in Hrun; [|done]. rewrite alone_catch, alone_bind in Hrun.
    pose proof (closed_revoked _ _ d Hs0) as Hc. destruct (alone (revokeSession _) d) as [[[]|e] d1]; [|done].
    by injection Hrun as <-.
  - apply authenticated_runs in Hrun; [|done]. rewrite alone_catch, alone_bind in Hrun.
    pose proof (closed_others (pl_user p) (pl_session p) sid s d Hs Hu Ha Hne) as Hc.
    destruct (alone (revokeAllExceptCurrent _ _) d) as [[n'|e] d1]; [|done]. by injection Hrun as <- <-.
  - unfold refresh, get_cached_session, select_user in Hrun. rewrite alone_catch in Hrun. destruct (negb _); [done|].
    rewrite alone_bind, alone_gets in Hrun. cbv beta iota in Hrun.
    destruct (ad_session_cache d !! pl_session p) as [c|]; [|done]. destruct (negb (cs_active c)); [done|].
    rewrite alone_bind, alone_gets in Hrun. cbv beta iota in Hrun. destruct (find _ _) as [usr|]; [|done].
    rewrite alone_bind in Hrun. unfold createSession, clock in Hrun.
    rewrite alone_bind, alone_gets in Hrun. cbv beta iota in Hrun. rewrite alone_bind, alone_stmt in Hrun.
    unfold transaction, insert_session, bind, gets, require, modify, throw, ret in Hrun.
    destruct (bool_decide_reflect (ad_sessions d !! new = None)) as [Hnew|]; [|done]. cbv beta iota in Hrun.
    rewrite alone_best_effort in Hrun. unfold put_cached_session, modify in Hrun. cbv beta iota in Hrun.
    rewrite alone_bind in Hrun.
    match type of Hrun with context [alone (revokeSession _) ?d1] =>
      assert (ad_sessions d1 !! pl_session p = Some s0) as Hs1
        by (simpl; rewrite lookup_insert_ne; [done|congruence]);
      pose proof (closed_revoked _ _ d1 Hs1) as Hc; destruct (alone (revokeSession _) d1) as [[[]|e] d2]; [|done] end.
    by injection Hrun as <- <-.
Qed.

(** ** Theorems *)
(** C25.. One-time codes. For requests that run one after the other, in any order and for
    any identifiers, [createOTP] and [verifyOTP] give the answers of [spec_op] and leave a
    state that agrees with it: each identifier has at most one live code, a new code replaces
    it, a wrong try counts, three wrong tries or ten minutes end it and a right try uses it
    up; whether Redis lost the key in between makes no difference. (With requests beside
    each other one code can be accepted twice: [AuthDemo.code_accepted_twice].) *)
Theorem codes_refine (ops : list otp_op) (d : auth_db) (s : otp_spec) :
  codes_agree d s → Forall login_op ops →
  (run_ops run_op ops d).1 = (run_ops spec_op ops s).1 ∧ codes_agree (run_ops run_op ops d).2 (run_ops spec_op ops s).2.
Proof.
  intros Hd Hops. revert d s Hd. induction Hops as [|op ops Hop Hops IH]; intros d s Hd; [done|]. simpl.
  destruct (sim_op op d s Hd Hop) as [Ha Hd1]. destruct (run_op op d) as [a d1], (spec_op op s) as [a' s1]. simpl in *.
  destruct (IH d1 s1 Hd1) as [Has Hd2]. destruct (run_ops run_op ops d1), (run_ops spec_op ops s1). simpl in *.
  split; [congruence|done].
Qed.

(** C26.. Closed sessions. Once a logout, a logout of every other session or a renewal has
    closed a session ([closes]: the request ran alone, and none of its statements failed, the
    delete of the Redis key included), and no request was under way when it ended, then
    whatever requests start afterwards and whatever fails, in any interleaving, the session
    is not valid again: every token that carries its id is refused by [app.authenticate],
    and none is renewed. Without these conditions it can be: the session of a login that is
    being written meanwhile stays open ([AuthDemo.login_outlives_logout_all]), and so does
    one whose Redis key the closing request failed to delete
    ([AuthDemo.lost_delete_keeps_session]). *)
Theorem closed_session_stays_closed (sid : string) (d0 d1 d : auth_db) (ts : list (thread auth_db auth_reply)) :
  is_Some (ad_sessions d0 !! sid) → closes sid d0 d1 → rtc auth_pool (d1, []) (d, ts) →
  alone (isSessionValid sid) d = (Ret false, d) ∧
  ∀ p, pl_session p = sid →
    (pl_type p ≠ Some "impersonation" → ∃ code, alone (authenticate p) d = (Ret (Refused code), d)) ∧
    ∀ new, ∃ code, alone (refresh p new) d = (Ret (Refused code), d).
Proof.
  intros Hs Hcl Hrun. assert (closed sid d) as Hc by (eapply closed_runs; [by eapply closes_closed|done]).
  split; [by apply closed_invalid|]. intros p Hp. split; [by apply (closed_refused sid)|intros new; by apply (closed_not_renewed sid)].
Qed.
End Codes.
