(* ===== verification/AuthDemo.v ===== *)
(** * Signing in at a concrete database

    Ann's account asks for a text message and an authenticator after a code by mail, Bob has
    an Indian phone number and no second factor, Carl is suspended, and Dora's phone was
    stored without its country code. The witnesses of [Auth] and [AuthCodes], and what the
    routes also do. *)
From stdpp Require Import base gmap strings list fin_maps relations.
From Stdlib Require Import ZArith Lia.
From S2P Require Import Prelude Threads AuthModel Auth AuthCodes.
Local Open Scope Z_scope.

(** Digests that keep their arguments apart, and an authenticator that shows its secret. *)
#[local] Instance demo_crypto : AuthCrypto := {|
  hmac_sha256 salt otp := salt +:+ ":" +:+ otp;
  pbkdf2_sha512 otp salt := otp +:+ "/" +:+ salt;
  bcrypt_hash pw salt := salt +:+ "$" +:+ pw;
  totp_valid secret code now := String.eqb secret code;
|}.

Definition ann : auth_user :=
  AuthUser "ann" "ann@example.com" (Some "+14155550100") "active" true true None 0 None true true true (Some "246810") false.
Definition bob : auth_user :=
  AuthUser "bob" "bob@example.com" (Some "+919876543210") "active" true true None 0 None false false false None false.
Definition carl : auth_user :=
  AuthUser "carl" "carl@example.com" None "suspended" true false None 0 None false true false None false.
Definition dora : auth_user :=
  AuthUser "dora" "dora@example.com" (Some "9123456780") "active" true true None 0 None false false true (Some "135790") false.
Definition demo_auth : auth_db := AuthDb 1000 [ann; bob; carl; dora] [] ∅ ∅ ∅ ∅ ∅ ∅ [] [].

Lemma demo_auth_fresh : auth_fresh demo_auth.
Proof. split; try reflexivity. apply (bool_decide_unpack _). vm_compute. exact Logic.I. Qed.

Definition draws (n : nat) : list (list nat * string) := [([n; n; n; n; n; n], "salt")].
Definition code (n : nat) : string := generateOTP [n; n; n; n; n; n].
Definition after (t : thread auth_db auth_reply) (d : auth_db) : auth_db := (alone t d).2.
Definition reply_of (t : thread auth_db auth_reply) (d : auth_db) : outcome auth_reply := (alone t d).1.
(** Twenty steps of every thread in turn. *)
Definition in_turn (n : nat) : list (nat * bool) := mjoin ((λ i, repeat (i, false) 20) <$> seq 0 n).

(** ** Logging in with every factor *)
Definition ann_requests : list (thread auth_db auth_reply) :=
  [send_otp "Ann@example.com" (draws 1);
   login false false (Some "ann@example.com") None (code 1) "token-1" "sid-0" (draws 2);
   verify_step false "token-1" "sms" (code 2) "sid-1" (draws 3);
   verify_step true "token-1" "2fa" "246810" "sid-2" []].
Definition ann_run : auth_db * list (thread auth_db auth_reply) := schedule (in_turn 4) (demo_auth, ann_requests).

Lemma ann_runs : rtc auth_pool (demo_auth, []) (ann_run.1, ann_run.2).
Proof. rewrite <- surjective_pairing. apply schedule_pool. repeat (apply Forall_cons; split; [constructor|]). constructor. Qed.
Lemma ann_replies : ann_run.2 =
  [tret (Sent "ann@example.com" "111111");
   tret (NeedsSteps "token-1" ["sms"; "2fa"] (Some ("+14155550100", "222222")));
   tret (StepDone ["2fa"] None); tret (LoggedIn "ann" "sid-2")].
Proof. vm_compute. reflexivity. Qed.
Definition ann_claim : code_claim := Claim (Email, "ann@example.com") "111111" 1000.
Definition ann_proofs : list step_proof := [StepProof "sms" "222222" 1000; StepProof "2fa" "246810" 1000].
Lemma ann_session : ad_sessions ann_run.1 !! "sid-2"
  = Some (Session "ann" true (1000 + SESSION_TTL) (BySteps FullSelect ann_claim ann_proofs)).
Proof. vm_compute. reflexivity. Qed.

Lemma sessions_are_vouched_witness : vouched ann_run.1 "ann".
Proof. exact (sessions_are_vouched demo_auth ann_run.1 ann_run.2 "sid-2" _ demo_auth_fresh ann_runs ann_session). Defined.

Lemma login_needs_every_step_witness :
  ∃ u, au_id u = "ann" ∧ holds_identifier (Email, "ann@example.com") u ∧ proved ann_run.1 ann_claim ∧
    ∀ step, step ∈ login_steps Email u → ∃ p, p ∈ ann_proofs ∧ sp_step p = step ∧ step_proved ann_run.1 u p.
Proof.
  destruct (login_needs_every_step demo_auth ann_run.1 ann_run.2 "sid-2" _ ann_claim ann_proofs demo_auth_fresh ann_runs
              ann_session (or_intror eq_refl)) as (u & _ & Hid & Hk & Hp & Hs).
  exists u. split; [exact Hid|]. split; [exact Hk|]. split; [exact Hp|exact Hs].
Defined.

(** [POST /verify-otp] opens a session for Ann with the code alone. *)
Lemma verify_otp_skips_factors :
  reply_of (verify_otp false "ann@example.com" (code 1) false "new" "sid-1" "hash") (after (send_otp "ann@example.com" (draws 1)) demo_auth)
  = Ret (LoggedIn "ann" "sid-1") ∧ login_steps Email ann = ["sms"; "2fa"].
Proof. vm_compute. split; reflexivity. Qed.

(** It also makes a suspended account active. *)
Lemma verify_otp_reactivates :
  let d := after (verify_otp false "carl@example.com" (code 1) false "new" "sid-1" "hash")
             (after (send_otp "carl@example.com" (draws 1)) demo_auth) in
  (au_status <$> ad_users demo_auth !! 2%nat, au_status <$> ad_users d !! 2%nat, se_user <$> ad_sessions d !! "sid-1")
  = (Some "suspended", Some "active", Some "carl").
Proof. vm_compute. reflexivity. Qed.

(** Whoever holds +1 987 654 3210 logs in as Bob, whose number is +91 98765 43210. *)
Lemma other_country_logs_in :
  reply_of (login false false None (Some "+19876543210") (code 1) "token-1" "sid-1" []) (after (send_otp "+19876543210" (draws 1)) demo_auth)
  = Ret (LoggedIn "bob" "sid-1").
Proof. vm_compute. reflexivity. Qed.

(** In a schema without the columns of the settings Ann logs in with the code alone. *)
Lemma old_schema_drops_factors :
  reply_of (login false true (Some "ann@example.com") None (code 1) "token-1" "sid-1" [])
    (after (send_otp "ann@example.com" (draws 1)) demo_auth) = Ret (LoggedIn "ann" "sid-1")
  ∧ login_steps Email ann = ["sms"; "2fa"].
Proof. vm_compute. split; reflexivity. Qed.

(** When the select with the settings fails, Dora is asked for a code by mail in place of
    the one of her authenticator. *)
Lemma failed_select_drops_factors :
  let d := after (send_otp "9123456780" (draws 1)) demo_auth in
  let request := login false false None (Some "9123456780") (code 1) "token-1" "sid-1" (draws 2) in
  reply_of request d = Ret (NeedsSteps "token-1" ["2fa"] None) ∧
  (schedule (repeat (0%nat, false) 5 ++ [(0%nat, true)] ++ repeat (0%nat, false) 20) (d, [request])).2
  = [tret (NeedsSteps "token-1" ["email"] (Some ("dora@example.com", "222222")))].
Proof. vm_compute. split; reflexivity. Qed.

(** ** Codes *)
Definition code_ops : list otp_op :=
  let k := (Email, "ann@example.com") in
  [Create k ([1%nat; 2%nat], "s1"); Verify false k "99"; Forget k; Verify true k "12"; Verify false k "12";
   Create k ([3%nat; 4%nat], "s2"); Verify false k "12"; Verify true k "00"; Verify false k "00"; Verify false k "34";
   Create k ([5%nat; 6%nat], "s3"); Wait 600001; Verify false k "56"].
Definition no_codes : otp_spec := OtpSpec 1000 ∅.
Lemma demo_codes_agree : codes_agree demo_auth no_codes.
Proof.
  split; try done; [by left|constructor|]. intros r Hr. by apply not_elem_of_nil in Hr.
Qed.

Lemma codes_refine_witness :
  (run_ops run_op code_ops demo_auth).1 =
  [Made "12" 601000; Checked false "Invalid OTP"; Nothing; Checked true "OTP verified successfully";
   Checked false "OTP not found or expired"; Made "34" 601000; Checked false "Invalid OTP"; Checked false "Invalid OTP";
   Checked false "Invalid OTP"; Checked false "Maximum attempts exceeded"; Made "56" 601000; Nothing;
   Checked false "OTP has expired"].
Proof.
  destruct (codes_refine code_ops demo_auth no_codes demo_codes_agree) as [-> _];
    [repeat (apply Forall_cons; split; [try exact Logic.I; discriminate|]); constructor|].
  vm_compute. reflexivity.
Defined.

(** Two requests with one code, the second before the first has used it up. *)
Lemma code_accepted_twice :
  let d := after (send_otp "bob@example.com" (draws 1)) demo_auth in
  let request sid := verify_otp false "bob@example.com" (code 1) false "new" sid "hash" in
  (schedule ([(0%nat, false); (1%nat, false)] ++ in_turn 2) (d, [request "sid-1"; request "sid-2"])).2
  = [tret (LoggedIn "bob" "sid-1"); tret (LoggedIn "bob" "sid-2")].
Proof. vm_compute. reflexivity. Qed.

(** Five guesses that are read together are all compared with the code. *)
Lemma fifth_guess_accepted :
  let d := after (send_otp "bob@example.com" (draws 1)) demo_auth in
  let request n := verify_otp false "bob@example.com" (code n) false "new" "sid-1" "hash" in
  last (schedule (((λ i, (i, false)) <$> seq 0 5) ++ in_turn 5) (d, request <$> [9; 8; 7; 6; 1]%nat)).2
  = Some (tret (LoggedIn "bob" "sid-1")).
Proof. vm_compute. reflexivity. Qed.

(** Redis misses the write of the second code: the first one is still good, the second not. *)
Lemma replaced_code_still_accepted :
  let d1 := after (send_otp "bob@example.com" (draws 1)) demo_auth in
  let d2 := (schedule (repeat (0%nat, false) 3 ++ [(0%nat, true)]) (d1, [send_otp "bob@example.com" (draws 2)])).1 in
  let request n := verify_otp false "bob@example.com" (code n) false "new" "sid-1" "hash" in
  reply_of (request 2%nat) d2 = Ret (Refused "INVALID_OTP") ∧ reply_of (request 1%nat) d2 = Ret (LoggedIn "bob" "sid-1").
Proof. vm_compute. split; reflexivity. Qed.

(** ** Sessions *)
Definition bob_token (sid : string) : payload := Payload "bob" sid None None.
Definition bob_refresh (sid : string) : payload := Payload "bob" sid (Some "refresh") None.
Definition bob_in : auth_db :=
  after (verify_otp false "bob@example.com" (code 1) false "new" "sid-1" "hash") (after (send_otp "bob@example.com" (draws 1)) demo_auth).
Definition bob_twice : auth_db :=
  after (verify_otp false "bob@example.com" (code 2) false "new" "sid-2" "hash") (after (send_otp "bob@example.com" (draws 2)) bob_in).
Definition bob_out : auth_db := after (logout_all_other (bob_token "sid-2")) bob_twice.
(** After he has closed the first session it is used and closed again, and a login gets its id. *)
Definition later_requests : list (thread auth_db auth_reply) :=
  [authenticate (bob_token "sid-1"); logout (bob_token "sid-1"); send_otp "bob@example.com" (draws 3);
   verify_otp true "bob@example.com" (code 3) false "new" "sid-1" "hash"; authenticate (bob_token "sid-2")].
Definition later_run : auth_db * list (thread auth_db auth_reply) := schedule (in_turn 5) (bob_out, later_requests).

Lemma later_replies : later_run.2 =
  [tret (Refused "SESSION_EXPIRED"); tret (Refused "SESSION_EXPIRED"); tret (Sent "bob@example.com" "333333");
   tret (Refused "VERIFY_OTP_FAILED"); tret (Allowed "bob" "sid-2")].
Proof. vm_compute. reflexivity. Qed.
Lemma bob_closes : closes "sid-1" bob_twice bob_out.
Proof.
  apply (by_logout_others _ _ _ (bob_token "sid-2") 1
           (Session "bob" true (1000 + SESSION_TTL) (ByVerifyOtp (Claim (Email, "bob@example.com") "111111" 1000))));
    [|vm_compute; reflexivity|vm_compute; reflexivity|vm_compute; reflexivity|discriminate].
  unfold bob_out, after. rewrite (surjective_pairing (alone _ _)) at 1. f_equal.
Qed.
Lemma later_runs : rtc auth_pool (bob_out, []) (later_run.1, later_run.2).
Proof. rewrite <- surjective_pairing. apply schedule_pool. repeat (apply Forall_cons; split; [constructor|]). constructor. Qed.

Lemma closed_session_stays_closed_witness :
  (alone (isSessionValid "sid-1") bob_twice).1 = Ret true ∧
  alone (isSessionValid "sid-1") later_run.1 = (Ret false, later_run.1) ∧
  ∃ c, alone (refresh (bob_refresh "sid-1") "sid-3") later_run.1 = (Ret (Refused c), later_run.1).
Proof.
  split; [vm_compute; reflexivity|].
  assert (is_Some (ad_sessions bob_twice !! "sid-1")) as Hs by (vm_compute; eauto).
  destruct (closed_session_stays_closed "sid-1" bob_twice bob_out later_run.1 later_run.2 Hs bob_closes later_runs) as [Hv Hp].
  split; [exact Hv|]. exact (proj2 (Hp (bob_refresh "sid-1") eq_refl) "sid-3").
Defined.

(** A login is written while the user logs out everywhere else: the row of its session is
    closed, and Redis says it is open. *)
Lemma login_outlives_logout_all :
  let d := after (send_otp "bob@example.com" (draws 2)) bob_in in
  let request := verify_otp false "bob@example.com" (code 2) false "new" "sid-2" "hash" in
  let '(d', ts) := schedule (repeat (0%nat, false) 9 ++ repeat (1%nat, false) 20 ++ repeat (0%nat, false) 20)
                     (d, [request; logout_all_other (bob_token "sid-1")]) in
  ts = [tret (LoggedIn "bob" "sid-2"); tret (LoggedOut 1)] ∧
  se_active <$> ad_sessions d' !! "sid-2" = Some false ∧ (alone (isSessionValid "sid-2") d').1 = Ret true.
Proof. vm_compute. split_and!; reflexivity. Qed.

(** Redis misses the delete of a logout: the row is closed, the answer is a success, and the
    session stays good. *)
Lemma lost_delete_keeps_session :
  let '(d, ts) := schedule (repeat (0%nat, false) 3 ++ [(0%nat, true)]) (bob_in, [logout (bob_token "sid-1")]) in
  ts = [tret (LoggedOut 0)] ∧ se_active <$> ad_sessions d !! "sid-1" = Some false
  ∧ (alone (isSessionValid "sid-1") d).1 = Ret true.
Proof. vm_compute. split_and!; reflexivity. Qed.

(** One refresh token, presented twice at the same time, opens two sessions. *)
Lemma refreshed_twice :
  let '(d, ts) := schedule ([(0%nat, false); (1%nat, false)] ++ in_turn 2)
                    (bob_in, [refresh (bob_refresh "sid-1") "sid-2"; refresh (bob_refresh "sid-1") "sid-3"]) in
  ts = [tret (LoggedIn "bob" "sid-2"); tret (LoggedIn "bob" "sid-3")] ∧
  ((alone (isSessionValid "sid-2") d).1, (alone (isSessionValid "sid-3") d).1) = (Ret true, Ret true).
Proof. vm_compute. split; reflexivity. Qed.

(** A refresh token is also taken as an access token. *)
Lemma refresh_token_authenticates : reply_of (authenticate (bob_refresh "sid-1")) bob_in = Ret (Allowed "bob" "sid-1").
Proof. vm_compute. reflexivity. Qed.

(** The sessions of a user outlive the reset of the password. *)
Lemma reset_keeps_sessions :
  let d := after (reset_request "bob@example.com" (draws 4)) bob_in in
  reply_of (password_reset "bob@example.com" (code 4) "NewPass123" "salt") d = Ret PasswordSet ∧
  (alone (isSessionValid "sid-1") (after (password_reset "bob@example.com" (code 4) "NewPass123" "salt") d)).1 = Ret true.
Proof. vm_compute. split; reflexivity. Qed.
