(* ===== verification/ConvertModel.v ===== *)
(** * Conversions: definitions

    [routes/convert.fastify.ts]: a user exchanges one currency for another at the price of
    [market_prices], at once or by a limit order that takes the amount when it is placed,
    and cancels such orders. The answers to an Idempotency-Key are kept in Redis as for
    transfers. The transaction of an instant conversion reads before it locks, so its reads
    are statements of their own and requests are threads; the statements under the row locks
    are one. Ids of currencies are uuids in canonical form, and the number of days of a
    limit order gives a valid date, which nothing reads. *)
From stdpp Require Import base gmap strings list fin_maps.
From Stdlib Require Import ZArith Lia Ascii.
From S2P Require Import Prelude Threads Money Balances Escrow SettlementModel TransferModel.
Local Open Scope Z_scope.

(** ** State *)
Inductive conversion_status := CvPending | CvCompleted | CvCancelled.
#[export] Instance conversion_status_eq_dec : EqDecision conversion_status.
Proof. solve_decision. Defined.

(** [conversions]; [cv_limit] is [conversion_type = 'limit'] *)
Record conversion := Conversion {
  cv_user : string; cv_limit : bool; cv_from : string; cv_amount : Z; cv_to : string; cv_to_amount : Z;
  cv_rate : Z; cv_account : string; cv_status : conversion_status;
}.
(** The [data] of an answer. *)
Record convert_answer := ConvertAnswer {
  ca_id : string; ca_from : string * Z; ca_to : string * Z; ca_rate : Z; ca_status : conversion_status;
}.

Record convert_db := ConvertDb {
  cd_balances : balances;
  cd_currencies : list currency;
  (** [market_prices], by base and quote currency *)
  cd_prices : gmap (string * string) Z;
  cd_rows : gmap string conversion;
  cd_cache : gmap idem_key (string * convert_answer);
  cd_locks : gset idem_key;
}.
#[export] Instance convert_db_balances : Store convert_db balances.
Proof.
  refine {| sget := cd_balances;
            sput := λ b d, ConvertDb b (cd_currencies d) (cd_prices d) (cd_rows d) (cd_cache d) (cd_locks d) |};
    by intros [].
Defined.

Definition set_rows (rows : gmap string conversion) (d : convert_db) : convert_db :=
  ConvertDb (cd_balances d) (cd_currencies d) (cd_prices d) rows (cd_cache d) (cd_locks d).
Definition set_prices (prices : gmap (string * string) Z) (d : convert_db) : convert_db :=
  ConvertDb (cd_balances d) (cd_currencies d) prices (cd_rows d) (cd_cache d) (cd_locks d).
Definition set_keys (cache : gmap idem_key (string * convert_answer)) (locks : gset idem_key) (d : convert_db) : convert_db :=
  ConvertDb (cd_balances d) (cd_currencies d) (cd_prices d) (cd_rows d) cache locks.

Inductive convert_reply :=
  | CvRefused (code : string)
  | CvAnswer (a : convert_answer)
  | CvOrderCancelled.
Definition turned_down (code : string) : thread convert_db convert_reply := tret (CvRefused code).

(** [accountType] of a body, as it is used. *)
Definition convert_account (accountType : string) : string :=
  if bool_decide (accountType ∈ ["funding"; "spot"; "trading"]) then accountType else "funding".

Record convert_body := ConvertBody {
  cb_from : string; cb_to : string; cb_amount : string; cb_account : option string;
  (** of a limit order: [targetRate] and [String(expiresInDays)] *)
  cb_rate : string; cb_days : option string;
}.

Section Convert.
Context `{DecimalJs, Runtime}.

Definition buildConvertInstantRequestHash (b : convert_body) : string :=
  sha256 (json_fields [("fromCurrencyId", js_trim (cb_from b)); ("toCurrencyId", js_trim (cb_to b));
                       ("fromAmount", js_trim (cb_amount b));
                       ("accountType", js_trim (default "funding" (cb_account b)))]).
Definition buildConvertLimitRequestHash (b : convert_body) : string :=
  sha256 (json_fields [("fromCurrencyId", js_trim (cb_from b)); ("toCurrencyId", js_trim (cb_to b));
                       ("fromAmount", js_trim (cb_amount b)); ("targetRate", js_trim (cb_rate b));
                       ("expiresInDays", js_trim (default "" (cb_days b)));
                       ("accountType", js_trim (default "funding" (cb_account b)))]).

(** ** Rates *)
Definition RATE_PRECISION : Z := 18.
Definition price_of (base quote : string) : M convert_db (option Z) := gets (λ d, cd_prices d !! (base, quote)).
(** [a.div(b).toDecimalPlaces(RATE_PRECISION, ROUND_DOWN)]: for a price of zero an infinity,
    whose amount no column takes (the NaN of two prices of zero, which they do, is left out) *)
Definition quotient (a b : Z) : decval := if b =? 0 then NonFinite else Fin (toDP RATE_PRECISION (ddiv a b)).
Definition rate_price (p : Z) : Z := toDP RATE_PRECISION p.

(** What the selected prices give: of the pair, of the reverse pair, and of the id of USDT with
    the prices of both currencies in it. *)
Definition rate_from (from to : string) (direct reverse : option Z) (usdt : option (string * option Z * option Z)) :
    option decval :=
  match direct, reverse with
  | Some p, _ => Some (Fin (rate_price p))
  | None, Some p => Some (quotient one p)
  | None, None =>
      match usdt with
      | Some (_, Some pf, Some pt) => Some (quotient (rate_price pf) (rate_price pt))
      | Some (u, None, Some pt) => if String.eqb from u then Some (quotient one pt) else None
      | Some (u, Some pf, None) => if String.eqb to u then Some (Fin (rate_price pf)) else None
      | _ => None
      end
  end.
Definition usdt_id : M convert_db (option string) :=
  gets (λ d, cur_id <$> find (λ c, String.eqb (upper (cur_symbol c)) "USDT") (cd_currencies d)).
Definition read_rate (from to : string) : thread convert_db (option decval) :=
  await* direct := stmt (price_of from to) in
  match direct with
  | Some p => tret (rate_from from to (Some p) None None)
  | None =>
      await* reverse := stmt (price_of to from) in
      match reverse with
      | Some p => tret (rate_from from to None (Some p) None)
      | None =>
          await* usdt := stmt usdt_id in
          match usdt with
          | None => tret None
          | Some u =>
              await* pf := stmt (price_of from u) in
              await* pt := stmt (price_of to u) in
              tret (rate_from from to None None (Some (u, pf, pt)))
          end
      end
  end.

(** ** The writes *)
Definition convert_key (userId currencyId accountType : string) : bal_key :=
  BalKey userId currencyId CHAIN_ID_GLOBAL accountType.
Definition convert_entry (k : bal_key) (debit credit before after : Z) (refId : string) : ledger_entry :=
  LedgerEntry (user_id k) (currency_id k) (account_type k) debit credit
    (toDP AMOUNT_PRECISION before) (toDP AMOUNT_PRECISION after) "internal_transfer" refId Available.

(** A value of a column with [digits] digits before the point: [user_balances] has
    [NUMERIC(36,18)], [conversions] has [DECIMAL(30,18)]. All values have at most 18
    decimals. *)
Definition column_fits (digits x : Z) : bool := Z.abs x <? 10 ^ digits * one.

(** [ensureUserBalanceRow], the select for update, the update under the constraint
    [user_balances_available_non_negative], and the ledger entry. *)
Definition add_to_available (k : bal_key) (x : Z) : M balances user_balance :=
  ensureUserBalanceRow k ;;;
  let* sel := select_balance k (λ _, true) in
  let* before := get_or sel "balance row not found" in
  let* upd := update_balance k (λ _, true) (λ r, add_buckets r x 0 0 0 0) in
  let* row := assertUserBalanceUpdated upd in
  require (column_fits 18 (available_balance row)) "numeric field overflow" ;;;
  require (0 <=? available_balance row) "violates check constraint user_balances_available_non_negative" ;;;
  ret before.
Definition convert_debit (k : bal_key) (amount : Z) (refId : string) : M balances unit :=
  let* before := add_to_available k (- amount) in
  insertBalanceLedger (convert_entry k amount 0 (available_balance before) (dminus (available_balance before) amount) refId).
Definition convert_credit (k : bal_key) (amount : Z) (refId : string) : M balances unit :=
  let* before := add_to_available k amount in
  insertBalanceLedger (convert_entry k 0 amount (available_balance before) (dplus (available_balance before) amount) refId).

Definition insert_conversion (id : string) (c : conversion) : M convert_db unit :=
  require (column_fits 12 (cv_amount c) && column_fits 12 (cv_to_amount c) && column_fits 12 (cv_rate c))
    "numeric field overflow" ;;;
  let* free := gets (λ d, bool_decide (cd_rows d !! id = None)) in
  require free "duplicate key value violates unique constraint" ;;;
  modify (λ d, set_rows (<[id := c]> (cd_rows d)) d).

Definition instant_writes (id userId from to account : string) (amount toAmount rate : Z) : M convert_db unit :=
  zoom (convert_debit (convert_key userId from account) amount id ;;;
        convert_credit (convert_key userId to account) toAmount id) ;;;
  insert_conversion id (Conversion userId false from amount to toAmount rate account CvCompleted).
Definition limit_writes (id userId from to account : string) (amount toAmount rate : Z) : M convert_db unit :=
  zoom (convert_debit (convert_key userId from account) amount id) ;;;
  insert_conversion id (Conversion userId true from amount to toAmount rate account CvPending).

(** ** Requests *)

(** The two currencies, and whether the global row of the account has the amount. *)
Definition find_currencies (from to : string) : M convert_db (option (currency * currency)) :=
  gets (λ d, let get id := find (λ c, String.eqb (cur_id c) id) (cd_currencies d) in
             cf ← get from; ct ← get to; Some (cf, ct)).
Definition available_now (k : bal_key) : M convert_db Z :=
  gets (λ d, match user_balances (cd_balances d) !! k with
             | Some r => toDP AMOUNT_PRECISION (available_balance r)
             | None => 0
             end).
Definition checked (userId from to account : string) (amount : Z) : thread convert_db (currency * currency) :=
  await* found := stmt (find_currencies from to) in
  match found with
  | Some cur =>
      await* available := stmt (available_now (convert_key userId from account)) in
      if available <? amount then tthrow "Insufficient balance" else tret cur
  | None => tthrow "Invalid currencies"
  end.
(** Errors that carry [statusCode = 400]; the others are not told to the client. *)
Definition failure (otherwise e : string) : thread convert_db convert_reply :=
  turned_down (if bool_decide (e ∈ ["Invalid currencies"; "Insufficient balance"; "Conversion rate not available"])
               then e else otherwise).

Definition put_answer (k : idem_key) (hash : string) (a : convert_answer) : thread convert_db unit :=
  best_effort (stmt (modify (λ d, set_keys (<[k := (hash, a)]> (cd_cache d)) (cd_locks d) d))).
(** [redis.setNxEx]; nothing deletes the lock. *)
Definition take_lock (k : idem_key) : M convert_db bool :=
  let* free := gets (λ d, bool_decide (k ∉ cd_locks d)) in
  (if free then modify (λ d, set_keys (cd_cache d) ({[k]} ∪ cd_locks d) d) else ret tt) ;;;
  ret free.

(** The beginning of both routes. *)
Definition once (ik : idem_key) (hash : string) (k : thread convert_db convert_reply) : thread convert_db convert_reply :=
  match key_refusal ik.2 with
  | Some code => turned_down code
  | None =>
      await* cached := stmt (gets (λ d, cd_cache d !! ik)) in
      match cached with
      | Some (hash', a) =>
          if negb (String.eqb hash' hash) then turned_down "IDEMPOTENCY_KEY_REUSED_WITH_DIFFERENT_BODY" else tret (CvAnswer a)
      | None =>
          await* locked := stmt (take_lock ik) in
          if negb locked then turned_down "DUPLICATE_REQUEST" else k
      end
  end.

(** [POST /instant]; [id] is the random uuid. *)
Definition convert_instant (userId header : string) (b : convert_body) (id : string) : thread convert_db convert_reply :=
  let ik := ("convert:instant", userId, js_trim header) in
  let hash := buildConvertInstantRequestHash b in
  let account := convert_account (default "funding" (cb_account b)) in
  once ik hash
    (if String.eqb (cb_from b) "" || String.eqb (cb_to b) "" || String.eqb (cb_amount b) ""
     then turned_down "Missing required fields"
     else match parse_amount (cb_amount b) with
     | None => turned_down "Invalid amount"
     | Some amount =>
         tcatch
           (await* cur := checked userId (cb_from b) (cb_to b) account amount in
            await* rate := read_rate (cb_from b) (cb_to b) in
            match rate with
            | None => tthrow "Conversion rate not available"
            | Some NonFinite => tthrow "numeric field overflow"
            | Some (Fin rate) =>
                let toAmount := toDP AMOUNT_PRECISION (dtimes amount rate) in
                await* _ := stmt (instant_writes id userId (cb_from b) (cb_to b) account amount toAmount rate) in
                let a := ConvertAnswer id (cur_symbol cur.1, amount) (cur_symbol cur.2, toAmount) rate CvCompleted in
                await* _ := put_answer ik hash a in
                tret (CvAnswer a)
            end)
           (failure "Failed to execute conversion")
     end).

(** [targetRate], positive. *)
Definition parse_rate (s : string) : option Z :=
  match parse_decimal s with
  | Some (Fin x) => let r := toDP RATE_PRECISION x in if r <=? 0 then None else Some r
  | _ => None
  end.

(** [POST /limit] *)
Definition convert_limit (userId header : string) (b : convert_body) (id : string) : thread convert_db convert_reply :=
  let ik := ("convert:limit", userId, js_trim header) in
  let hash := buildConvertLimitRequestHash b in
  let account := convert_account (default "funding" (cb_account b)) in
  once ik hash
    (if String.eqb (cb_from b) "" || String.eqb (cb_to b) "" || String.eqb (cb_amount b) "" || String.eqb (cb_rate b) ""
     then turned_down "Missing required fields"
     else match parse_amount (cb_amount b), parse_rate (cb_rate b) with
     | Some amount, Some rate =>
         tcatch
           (await* cur := checked userId (cb_from b) (cb_to b) account amount in
            let toAmount := toDP AMOUNT_PRECISION (dtimes amount rate) in
            await* _ := stmt (limit_writes id userId (cb_from b) (cb_to b) account amount toAmount rate) in
            let a := ConvertAnswer id (cur_symbol cur.1, amount) (cur_symbol cur.2, toAmount) rate CvPending in
            await* _ := put_answer ik hash a in
            tret (CvAnswer a))
           (failure "Failed to place limit order")
     | _, _ => turned_down "Invalid amount or rate"
     end).

(** The transaction of [POST /limit/:orderId/cancel]; it locks the order first. *)
Definition cancel_writes (userId orderId : string) : M convert_db unit :=
  let* row := gets (λ d, c ← cd_rows d !! orderId;
                         if String.eqb (cv_user c) userId && cv_limit c then Some c else None) in
  let* order := get_or row "ORDER_NOT_FOUND" in
  require (bool_decide (cv_status order = CvPending)) "ORDER_ALREADY_PROCESSED" ;;;
  zoom (convert_credit (convert_key userId (cv_from order) (convert_account (cv_account order))) (cv_amount order) orderId) ;;;
  modify (λ d, set_rows (<[orderId := Conversion (cv_user order) (cv_limit order) (cv_from order) (cv_amount order)
                             (cv_to order) (cv_to_amount order) (cv_rate order) (cv_account order) CvCancelled]> (cd_rows d)) d).
Definition convert_cancel (userId orderId : string) : thread convert_db convert_reply :=
  tcatch (await* _ := stmt (cancel_writes userId orderId) in tret CvOrderCancelled)
    (λ e, turned_down (if bool_decide (e ∈ ["ORDER_NOT_FOUND"; "ORDER_ALREADY_PROCESSED"]) then e
                       else "Failed to cancel order")).
End Convert.
