(* ===== verification/Conversions.v ===== *)
(** * Conversions: what the routes do and keep

    Over all interleavings the rows of [conversions] explain every change of the funds: an
    instant conversion takes its amount and makes its proceeds, a limit order takes its
    amount and a cancel gives it back, once. Each row has its ledger entries. At fixed
    prices nobody gains by converting there and back. *)
From stdpp Require Import base gmap strings list fin_maps relations.
From Stdlib Require Import ZArith Lia.
From S2P Require Import Prelude Threads Money Balances Escrow SettlementModel TransferModel Transfers ConvertModel.
Local Open Scope Z_scope.

Section Writes.
Context `{DecimalJs, Runtime}.

(** ** One row and its ledger entry *)
(** [b'] is [b] with [x] added to the available bucket of [k], and the entry [e]. *)
Record posted (k : bal_key) (x : Z) (e : ledger_entry) (b b' : balances) : Prop := {
  po_rows : ∀ k', row_of k' b' = if decide (k' = k) then more x (row_of k b) else row_of k' b;
  po_ledger : balance_ledger b' = balance_ledger b ++ [e];
  po_funds : ∀ c, funds c b' = funds c b + (if String.eqb (currency_id k) c then x else 0);
  po_wf : balances_wf b → balances_wf b';
}.

Lemma add_to_available_run k x b :
  add_to_available k x b =
  if negb (column_fits 18 (available_balance (row_of k b) + x)) then Throw "numeric field overflow"
  else if 0 <=? available_balance (row_of k b) + x
  then Ret (row_of k b, post k (more x (row_of k b)) [] b)
  else Throw "violates check constraint user_balances_available_non_negative".
Proof.
  unfold add_to_available. balance_exec. fold (more x (row_of k b)). simpl available_balance.
  destruct (column_fits _ _); [|done]. simpl. by destruct (_ <=? _).
Qed.
Lemma posted_intro k x e b :
  0 ≤ available_balance (row_of k b) + x → posted k x e b (post k (more x (row_of k b)) [e] b).
Proof.
  intros Hav. destruct (row_change_post k (more x (row_of k b)) [e] b) as (Hr & Hf & Hw). split; [done|done| |].
  - intros c. rewrite Hf. unfold worth, more. simpl. destruct (String.eqb _ _); lia.
  - intros Hb. apply Hw; [done|]. pose proof (wf_row_of b k Hb) as Hn. rewrite row_nonneg_true in Hn |- *. simpl. lia.
Qed.

Definition convert_debit_entry (k : bal_key) (amount : Z) (refId : string) (b : balances) : ledger_entry :=
  convert_entry k amount 0 (available_balance (row_of k b)) (dminus (available_balance (row_of k b)) amount) refId.
Definition convert_credit_entry (k : bal_key) (amount : Z) (refId : string) (b : balances) : ledger_entry :=
  convert_entry k 0 amount (available_balance (row_of k b)) (dplus (available_balance (row_of k b)) amount) refId.

Lemma convert_debit_run k amount refId b :
  match convert_debit k amount refId b with
  | Ret (_, b') => amount ≤ available_balance (row_of k b) ∧ posted k (- amount) (convert_debit_entry k amount refId b) b b'
  | Throw _ => available_balance (row_of k b) < amount ∨ column_fits 18 (available_balance (row_of k b) - amount) = false
  end.
Proof.
  unfold convert_debit, bind. rewrite add_to_available_run, Z.add_opp_r.
  destruct (column_fits _ _); [|by right]. cbn [negb]. rewrite <- Z.add_opp_r.
  destruct (Z.leb_spec 0 (available_balance (row_of k b) + - amount)) as [Hle|Hlt]; [|lia].
  cbv beta iota. rewrite insert_ledger_post. simpl app. split; [lia|]. by apply posted_intro.
Qed.
Lemma convert_credit_run k amount refId b :
  match convert_credit k amount refId b with
  | Ret (_, b') => column_fits 18 (available_balance (row_of k b) + amount) = true ∧
                   posted k amount (convert_credit_entry k amount refId b) b b'
  | Throw _ => available_balance (row_of k b) + amount < 0
               ∨ column_fits 18 (available_balance (row_of k b) + amount) = false
  end.
Proof.
  unfold convert_credit, bind. rewrite add_to_available_run.
  destruct (column_fits _ _); [|by right]. cbn [negb].
  destruct (Z.leb_spec 0 (available_balance (row_of k b) + amount)) as [Hle|Hlt]; [|by left].
  cbv beta iota. rewrite insert_ledger_post. simpl app. split; [done|]. by apply posted_intro.
Qed.
End Writes.

(** ** What a conversion did *)
(** What it took from the funds of a currency. *)
Definition spent (c : string) (v : conversion) : Z :=
  (if String.eqb (cv_from v) c && negb (bool_decide (cv_status v = CvCancelled)) then cv_amount v else 0)
  - (if String.eqb (cv_to v) c && bool_decide (cv_status v = CvCompleted) then cv_to_amount v else 0).
(** Its entries in the ledger: user, currency, debit and credit. *)
Definition conversion_terms (v : conversion) : list (string * string * Z * Z) :=
  (cv_user v, cv_from v, cv_amount v, 0) ::
  match cv_status v with
  | CvPending => []
  | CvCompleted => [(cv_user v, cv_to v, 0, cv_to_amount v)]
  | CvCancelled => [(cv_user v, cv_from v, 0, cv_amount v)]
  end.
(** Limit orders wait or are cancelled, instant conversions are complete. *)
Definition conversion_typed (v : conversion) : Prop :=
  0 < cv_amount v ∧ if cv_limit v then cv_status v ≠ CvCompleted else cv_status v = CvCompleted.

Section Interleavings.
Context `{DecimalJs, Runtime}.
Context (d0 : convert_db).

Record cv_ok (d : convert_db) : Prop := {
  co_wf : balances_wf (cd_balances d);
  co_funds : ∀ c, funds c (cd_balances d) + msum (λ _, spent c) (cd_rows d) = funds c (cd_balances d0);
  co_typed : ∀ id v, cd_rows d !! id = Some v → conversion_typed v;
  co_ledger : ∀ id, ∃ es, entries_of id (balance_ledger (cd_balances d)) = entries_of id (balance_ledger (cd_balances d0)) ++ es ∧
    entry_terms <$> es = match cd_rows d !! id with Some v => conversion_terms v | None => [] end;
}.
Definition cv_any (_ _ : convert_db) : Prop := True.
#[local] Instance cv_any_reflexive : Reflexive cv_any.
Proof. done. Qed.
Notation keeps := (keeps cv_ok cv_any).

Lemma cv_keeps_same {A} (m : M convert_db A) :
  (∀ d, match m d with Ret (_, d') => cd_balances d' = cd_balances d ∧ cd_rows d' = cd_rows d | Throw _ => True end) →
  keeps (stmt m).
Proof.
  intros Hm. apply keeps_stmt. intros d [Hw Hf Ht Hl]. specialize (Hm d). destruct (m d) as [[a d']|]; [|done].
  destruct Hm as [Hb Hr]. split; [|done]. split; by rewrite ?Hb, ?Hr.
Qed.

Lemma entries_of_own id es : Forall (λ e, le_reference_id e = id) es → entries_of id es = es.
Proof. intros Hids. induction Hids as [|e es He _ IH]; [done|]. unfold entries_of in *. by rewrite filter_cons_True, IH. Qed.

(** The row of an id changes from [o] to [v], with the entries [es]. *)
Lemma cv_ok_row d b' id v es :
  cv_ok d → balances_wf b' → conversion_typed v → Forall (λ e, le_reference_id e = id) es →
  balance_ledger b' = balance_ledger (cd_balances d) ++ es →
  (∀ c, funds c b' = funds c (cd_balances d) + match cd_rows d !! id with Some v0 => spent c v0 | None => 0 end - spent c v) →
  match cd_rows d !! id with Some v0 => conversion_terms v0 | None => [] end ++ (entry_terms <$> es) = conversion_terms v →
  cv_ok (set_rows (<[id := v]> (cd_rows d)) (sput b' d)).
Proof.
  intros [Hw Hf Ht Hl] Hwf Hty Hids Hled Hfun Hterms. split; simpl.
  - done.
  - intros c. specialize (Hf c). rewrite Hfun. destruct (cd_rows d !! id) as [v0|] eqn:Hid.
    + rewrite (msum_insert_Some _ _ _ _ _ Hid). lia.
    + rewrite (msum_insert_None _ _ _ _ Hid). lia.
  - intros id' v' Hv. apply lookup_insert_Some in Hv as [[<- <-]|[_ Hv]]; [done|by apply (Ht id')].
  - intros id'. destruct (Hl id') as (es0 & He & Het). rewrite Hled, entries_of_app, He.
    destruct (decide (id = id')) as [<-|Hne].
    + assert (entries_of id es = es) as -> by (by apply entries_of_own).
      exists (es0 ++ es). split; [by rewrite app_assoc|]. by rewrite lookup_insert_eq, fmap_app, Het, Hterms.
    + assert (entries_of id' es = []) as ->.
      { apply elem_of_nil_inv. intros e. unfold entries_of. rewrite list_elem_of_filter. intros [Hr Hin].
        rewrite Forall_forall in Hids. specialize (Hids e Hin). congruence. }
      exists es0. rewrite app_nil_r, lookup_insert_ne by done. done.
Qed.

(** ** The statements *)
Lemma instant_writes_keeps id u from to account amount toAmount rate :
  0 < amount → keeps (stmt (instant_writes id u from to account amount toAmount rate)).
Proof.
  intros Ha. apply keeps_stmt. intros d Hd. destruct (instant_writes _ _ _ _ _ _ _ _ d) as [[[] d']|] eqn:Hrun; [|done].
  split; [|done]. unfold instant_writes in Hrun. apply bind_Ret_inv in Hrun as ([] & d1 & Hz & Hins).
  unfold zoom in Hz. destruct (bind _ _ (sget d)) as [[[] b']|] eqn:Hb; [|done]. injection Hz as <-.
  apply bind_Ret_inv in Hb as ([] & b1 & Hd1 & Hc1).
  pose proof (convert_debit_run (convert_key u from account) amount id (sget d)) as Hdeb. rewrite Hd1 in Hdeb.
  pose proof (convert_credit_run (convert_key u to account) toAmount id b1) as Hcred. rewrite Hc1 in Hcred.
  destruct Hdeb as [_ [_ Hl1 Hf1 Hw1]], Hcred as [_ [_ Hl2 Hf2 Hw2]].
  unfold insert_conversion in Hins. run_all Hins. bool_prop. simpl in *.
  match goal with Hn : cd_rows d !! id = None |- _ => rename Hn into Hnone end.
  apply (cv_ok_row d b' id _ [convert_debit_entry (convert_key u from account) amount id (cd_balances d); convert_credit_entry (convert_key u to account) toAmount id b1]); [done|by apply Hw2, Hw1, Hd|done|..].
  - repeat (apply Forall_cons; split; [done|]). constructor.
  - rewrite Hl2, Hl1, <- app_assoc. done.
  - intros c. rewrite Hnone, Hf2, Hf1. unfold spent. simpl. destruct (String.eqb from c), (String.eqb to c); simpl; lia.
  - by rewrite Hnone.
Qed.
Lemma limit_writes_keeps id u from to account amount toAmount rate :
  0 < amount → keeps (stmt (limit_writes id u from to account amount toAmount rate)).
Proof.
  intros Ha. apply keeps_stmt. intros d Hd. destruct (limit_writes _ _ _ _ _ _ _ _ d) as [[[] d']|] eqn:Hrun; [|done].
  split; [|done]. unfold limit_writes in Hrun. apply bind_Ret_inv in Hrun as ([] & d1 & Hz & Hins).
  unfold zoom in Hz. destruct (convert_debit _ _ _ (sget d)) as [[[] b']|] eqn:Hd1; [|done]. injection Hz as <-.
  pose proof (convert_debit_run (convert_key u from account) amount id (sget d)) as Hdeb. rewrite Hd1 in Hdeb.
  destruct Hdeb as [_ [_ Hl1 Hf1 Hw1]]. unfold insert_conversion in Hins. run_all Hins. bool_prop. simpl in *.
  match goal with Hn : cd_rows d !! id = None |- _ => rename Hn into Hnone end.
  apply (cv_ok_row d b' id _ [convert_debit_entry (convert_key u from account) amount id (cd_balances d)]); [done|by apply Hw1, Hd|done|..].
  - repeat (apply Forall_cons; split; [done|]). constructor.
  - by rewrite Hl1.
  - intros c. rewrite Hnone, Hf1. unfold spent. simpl. destruct (String.eqb from c), (String.eqb to c); simpl; lia.
  - by rewrite Hnone.
Qed.
Lemma cancel_writes_keeps u id : keeps (stmt (cancel_writes u id)).
Proof.
  apply keeps_stmt. intros d Hd. destruct (cancel_writes u id d) as [[[] d']|] eqn:Hrun; [|done].
  split; [|done]. unfold cancel_writes in Hrun. apply bind_Ret_inv in Hrun as (row & d1 & Hg & Hrun).
  injection Hg as <- <-. destruct (cd_rows d !! id) as [v|] eqn:Hv; simpl in Hrun; [|done].
  destruct (String.eqb_spec (cv_user v) u) as [<-|]; simpl in Hrun; [|done]. destruct (cv_limit v) eqn:Hlim; simpl in Hrun; [|done].
  apply bind_Ret_inv in Hrun as (v' & d1 & Hg & Hrun). injection Hg as <- <-.
  apply bind_Ret_inv in Hrun as ([] & d1 & Hreq & Hrun).
  destruct (bool_decide_reflect (cv_status v = CvPending)) as [Hst|]; [|done]. injection Hreq as <-.
  apply bind_Ret_inv in Hrun as ([] & d1 & Hz & Hmod). unfold zoom in Hz.
  destruct (convert_credit _ _ _ (sget d)) as [[[] b']|] eqn:Hc1; [|done]. injection Hz as <-. injection Hmod as <-.
  pose proof (convert_credit_run (convert_key (cv_user v) (cv_from v) (convert_account (cv_account v))) (cv_amount v) id (sget d)) as Hcred.
  rewrite Hc1 in Hcred. destruct Hcred as [_ [_ Hl1 Hf1 Hw1]]. simpl in *. destruct (co_typed _ Hd id v Hv) as [Ha _].
  apply (cv_ok_row d b' id _ [convert_credit_entry (convert_key (cv_user v) (cv_from v) (convert_account (cv_account v))) (cv_amount v) id (cd_balances d)]); [done|by apply Hw1, Hd|by (split; simpl; rewrite ?Hlim)| | |intros c|].
  - repeat (apply Forall_cons; split; [done|]). constructor.
  - by rewrite Hl1.
  - rewrite Hv, Hf1. unfold spent. simpl. rewrite Hst. destruct (String.eqb (cv_from v) c), (String.eqb (cv_to v) c); simpl; lia.
  - rewrite Hv. unfold conversion_terms. by rewrite Hst.
Qed.

Lemma take_lock_keeps k : keeps (stmt (take_lock k)).
Proof. apply cv_keeps_same. intros d. unfold take_lock, bind, gets. by case_bool_decide. Qed.
Lemma put_answer_keeps k hash a : keeps (put_answer k hash a).
Proof. apply best_effort_keeps. by apply cv_keeps_same. Qed.
Lemma once_keeps ik hash t : keeps t → keeps (once ik hash t).
Proof.
  intros Ht. unfold once. destruct (key_refusal _); [apply keeps_ret|].
  apply keeps_bind; [apply keeps_gets|]. intros [[h a]|]; [destruct (negb _); apply keeps_ret|].
  apply keeps_bind; [apply take_lock_keeps|]. intros [|]; [exact Ht|apply keeps_ret].
Qed.
Lemma checked_keeps u from to account amount : keeps (checked u from to account amount).
Proof.
  apply keeps_bind; [apply keeps_gets|]. intros [cur|]; [|apply keeps_throw].
  apply keeps_bind; [apply keeps_gets|]. intros av. destruct (_ <? _); [apply keeps_throw|apply keeps_ret].
Qed.
Lemma read_rate_keeps from to : keeps (read_rate from to).
Proof.
  apply keeps_bind; [apply keeps_gets|]. intros [p|]; [apply keeps_ret|].
  apply keeps_bind; [apply keeps_gets|]. intros [p|]; [apply keeps_ret|].
  apply keeps_bind; [apply keeps_gets|]. intros [u|]; [|apply keeps_ret].
  do 2 (apply keeps_bind; [apply keeps_gets|]; intros ?). apply keeps_ret.
Qed.

Lemma convert_instant_keeps u header b id : keeps (convert_instant u header b id).
Proof.
  apply once_keeps. destruct (_ || _ || _); [apply keeps_ret|].
  destruct (parse_amount _) as [amount|] eqn:Ha; [|apply keeps_ret]. apply parse_amount_pos in Ha.
  apply keeps_catch; [|intros e; apply keeps_ret]. apply keeps_bind; [apply checked_keeps|]. intros cur.
  apply keeps_bind; [apply read_rate_keeps|]. intros [[rate|]|]; [|apply keeps_throw..].
  apply keeps_bind; [by apply instant_writes_keeps|]. intros _.
  apply keeps_bind; [apply put_answer_keeps|]. intros _. apply keeps_ret.
Qed.
Lemma convert_limit_keeps u header b id : keeps (convert_limit u header b id).
Proof.
  apply once_keeps. destruct (_ || _ || _ || _); [apply keeps_ret|].
  destruct (parse_amount _) as [amount|] eqn:Ha; [|apply keeps_ret]. apply parse_amount_pos in Ha.
  destruct (parse_rate _) as [rate|]; [|apply keeps_ret].
  apply keeps_catch; [|intros e; apply keeps_ret]. apply keeps_bind; [apply checked_keeps|]. intros cur.
  apply keeps_bind; [by apply limit_writes_keeps|]. intros _.
  apply keeps_bind; [apply put_answer_keeps|]. intros _. apply keeps_ret.
Qed.
Lemma convert_cancel_keeps u id : keeps (convert_cancel u id).
Proof.
  apply keeps_catch; [|intros e; apply keeps_ret]. apply keeps_bind; [apply cancel_writes_keeps|]. intros _. apply keeps_ret.
Qed.

(** ** All interleavings *)
(** Prices change, and keys of Redis expire. *)
Inductive convert_env : convert_db → convert_db → Prop :=
  | env_prices prices d : convert_env d (set_prices prices d)
  | env_answer_expires k d : convert_env d (set_keys (delete k (cd_cache d)) (cd_locks d) d)
  | env_lock_expires k d : convert_env d (set_keys (cd_cache d) (cd_locks d ∖ {[k]}) d).
Inductive convert_starts : convert_db → thread convert_db convert_reply → Prop :=
  | start_instant u header b id d : convert_starts d (convert_instant u header b id)
  | start_limit u header b id d : convert_starts d (convert_limit u header b id)
  | start_cancel u id d : convert_starts d (convert_cancel u id).
Definition convert_step : convert_db * list (thread convert_db convert_reply) →
    convert_db * list (thread convert_db convert_reply) → Prop := pool_step convert_env convert_starts.

Lemma convert_runs_ok d ts : cv_ok d0 → rtc convert_step (d0, []) (d, ts) → cv_ok d.
Proof.
  intros Hd Hrun. assert (all_safe cv_ok cv_any (d, ts)) as [Hd' _]; [|done].
  apply (pool_safe _ _ (λ _, I) (λ _ _ _ _ _, I) convert_env convert_starts (d0, []) (d, ts)).
  - intros d1 d2 [Hw Hf Ht Hl] He. split; [|done]. by destruct He.
  - intros d1 t Hd1 Hs. assert (∀ t : thread convert_db convert_reply, keeps t → safe cv_ok cv_any t (λ _ _, True) d1) as Hk.
    { intros t' Ht'. eapply safe_mono; [|apply (Ht' (λ _, True)); [apply stable_const|done..]]. done. }
    destruct Hs; apply Hk; [apply convert_instant_keeps|apply convert_limit_keeps|apply convert_cancel_keeps].
  - done.
  - split; [done|constructor].
Qed.
End Interleavings.

(** ** Rates *)
Section Rates.
Context `{DecimalJs, Runtime}.

(** The rate at the prices of one moment. *)
Definition rate_of (from to : string) (d : convert_db) : option decval :=
  let price a b := cd_prices d !! (a, b) in
  rate_from from to (price from to) (price to from)
    ((λ u, (u, price from u, price to u)) <$> (cur_id <$> find (λ c, String.eqb (upper (cur_symbol c)) "USDT") (cd_currencies d))).


(** Prices are positive, and no pair is listed both ways. *)
Record prices_ok (d : convert_db) : Prop := {
  pr_pos : ∀ k p, cd_prices d !! k = Some p → 0 < p;
  pr_one_way : ∀ a b p q, cd_prices d !! (a, b) = Some p → cd_prices d !! (b, a) = Some q → False;
}.

Lemma rate_price_bounds p : 0 < p → 0 ≤ rate_price p ≤ p.
Proof. intros Hp. unfold rate_price. pose proof (toDP_bounds RATE_PRECISION p ltac:(lia)). lia. Qed.
Lemma quotient_bounds a b r : 0 ≤ a → 0 ≤ b → quotient a b = Fin r → 0 < b ∧ 0 ≤ r ∧ r * b ≤ a * one.
Proof.
  intros Ha Hb. unfold quotient. destruct (Z.eqb_spec b 0) as [|Hne]; [done|]. intros [= <-]. split; [lia|].
  assert (0 ≤ Z.quot (a * one) b ∧ Z.quot (a * one) b * b ≤ a * one) as [Hq Hqb].
  { pose proof one_pos. rewrite Z.quot_div_nonneg by nia. split; [apply Z.div_pos; nia|].
    rewrite Z.mul_comm. apply Z.mul_div_le. lia. }
  pose proof (sig_bounds _ Hq) as Hs. unfold ddiv. set (q := sig _) in *.
  pose proof (toDP_bounds RATE_PRECISION q ltac:(lia)). nia.
Qed.

Lemma rates_multiply from to d r1 r2 :
  prices_ok d → rate_of from to d = Some (Fin r1) → rate_of to from d = Some (Fin r2) →
  0 ≤ r1 ∧ 0 ≤ r2 ∧ r1 * r2 ≤ one * one.
Proof.
  intros [Hpos Hway] H1 H2. pose proof one_pos as Hone. unfold rate_of in *.
  destruct (cd_prices d !! (from, to)) as [p|] eqn:Hft; destruct (cd_prices d !! (to, from)) as [q|] eqn:Htf; simpl in *.
  - destruct (Hway from to p q Hft Htf).
  - specialize (Hpos _ _ Hft). pose proof (rate_price_bounds p Hpos). injection H1 as <-. injection H2 as H2.
    apply quotient_bounds in H2 as (_ & ? & ?); [|lia..]. nia.
  - specialize (Hpos _ _ Htf). pose proof (rate_price_bounds q Hpos). injection H2 as <-. injection H1 as H1.
    apply quotient_bounds in H1 as (_ & ? & ?); [|lia..]. nia.
  - destruct (find _ _) as [cu|]; simpl in *; [|done]. set (u := cur_id cu) in *.
    destruct (cd_prices d !! (from, u)) as [pf|] eqn:Hf, (cd_prices d !! (to, u)) as [pt|] eqn:Ht; simpl in *; try done.
    + apply Hpos in Hf, Ht. pose proof (rate_price_bounds pf Hf). pose proof (rate_price_bounds pt Ht).
      injection H1 as H1. injection H2 as H2. apply quotient_bounds in H1 as (? & ? & ?); [|lia..].
      apply quotient_bounds in H2 as (? & ? & ?); [|lia..]. split_and!; [done|done|].
      apply (Z.mul_le_mono_pos_r _ _ (rate_price pf * rate_price pt)); [nia|]. nia.
    + destruct (String.eqb_spec to u) as [->|]; [|done]. by rewrite Hft in Hf.
    + destruct (String.eqb_spec from u) as [->|]; [|done]. by rewrite Htf in Ht.
Qed.

(** What an amount becomes. *)
Definition proceeds (amount rate : Z) : Z := toDP AMOUNT_PRECISION (dtimes amount rate).
Lemma proceeds_bounds amount rate : 0 ≤ amount → 0 ≤ rate → 0 ≤ proceeds amount rate ∧ proceeds amount rate * one ≤ amount * rate.
Proof.
  intros Ha Hr. pose proof one_pos. unfold proceeds, dtimes.
  assert (0 ≤ Z.quot (amount * rate) one ∧ Z.quot (amount * rate) one * one ≤ amount * rate) as [Hq Hqb].
  { rewrite Z.quot_div_nonneg by nia. split; [apply Z.div_pos; nia|]. rewrite Z.mul_comm. apply Z.mul_div_le. lia. }
  pose proof (sig_bounds _ Hq) as Hs. set (q := sig _) in *.
  pose proof (toDP_bounds AMOUNT_PRECISION q ltac:(lia)). nia.
Qed.

(** C40.. No gain. While the prices stay as they are, positive and with no pair listed both
    ways, an amount converted to another currency and back is never more than it was,
    whichever of the direct, the reverse and the USDT prices give the two rates, and however
    decimal.js rounds down. ([ConvertDemo.listed_both_ways_gains] shows the second condition
    is needed.) *)
Theorem round_trip_gains_nothing (d : convert_db) (from to : string) (amount r1 r2 : Z) :
  prices_ok d → 0 ≤ amount → rate_of from to d = Some (Fin r1) → rate_of to from d = Some (Fin r2) →
  proceeds (proceeds amount r1) r2 ≤ amount.
Proof.
  intros Hd Ha H1 H2. destruct (rates_multiply from to d r1 r2 Hd H1 H2) as (Hr1 & Hr2 & Hr). pose proof one_pos.
  destruct (proceeds_bounds amount r1 Ha Hr1) as [Hp Hp1]. destruct (proceeds_bounds (proceeds amount r1) r2 Hp Hr2) as [_ Hp2].
  apply (Z.mul_le_mono_pos_r _ _ (one * one)); [nia|]. nia.
Qed.
End Rates.

(** ** Theorems *)
Section Theorems.
Context `{DecimalJs, Runtime}.

(** C38.. The rows of [conversions] explain the funds. Over all interleavings of instant
    conversions, limit orders and cancels, with prices that change, keys that expire from
    Redis, failures and crashes anywhere, no bucket is negative; the funds of every currency
    changed by what the rows say: an instant conversion took its amount and added its
    proceeds, a limit order took its amount unless it is cancelled. Every row has exactly
    its debit, and its credit when it is complete or cancelled, in the ledger. So an order
    is given back once, and a limit order is only ever cancelled: none is executed. *)
Theorem conversions_explain_funds (d0 d : convert_db) (ts : list (thread convert_db convert_reply)) :
  balances_wf (cd_balances d0) → cd_rows d0 = ∅ → rtc convert_step (d0, []) (d, ts) →
  balances_wf (cd_balances d) ∧
  (∀ c, funds c (cd_balances d) = funds c (cd_balances d0) - msum (λ _, spent c) (cd_rows d)) ∧
  (∀ id v, cd_rows d !! id = Some v → conversion_typed v) ∧
  ∀ id, ∃ es, entries_of id (balance_ledger (cd_balances d)) = entries_of id (balance_ledger (cd_balances d0)) ++ es ∧
    entry_terms <$> es = match cd_rows d !! id with Some v => conversion_terms v | None => [] end.
Proof.
  intros Hwf Hrows Hrun. assert (cv_ok d0 d0) as Hd0.
  { split; rewrite ?Hrows; [done|intros c; rewrite msum_empty; lia|done|].
    intros id. exists []. by rewrite app_nil_r, lookup_empty. }
  destruct (convert_runs_ok d0 d ts Hd0 Hrun) as [Hw Hf Ht Hl]. split_and!; [done| |done|done].
  intros c. specialize (Hf c). lia.
Qed.








End Theorems.
