(* ===== verification/ConvertDemo.v ===== *)
(** * Conversions at a concrete database

    Ann has 100 USDT and a little BTC in her funding account; BTC and ETH are priced in
    USDT. The witnesses of [Conversions], and what the routes also do. *)
From stdpp Require Import base gmap strings list fin_maps relations.
From Stdlib Require Import ZArith Lia.
From S2P Require Import Prelude Threads Money Balances Escrow SettlementModel SettlementDemo TransferModel Transfers ConvertModel Conversions.
Local Open Scope Z_scope.

#[local] Existing Instance decimal_36.

Definition usdt_row : bal_key := convert_key "ann" "usdt" "funding".
Definition btc_row : bal_key := convert_key "ann" "btc" "funding".
Definition demo_prices : gmap (string * string) Z :=
  <[("btc", "usdt") := dec 50000 0]> {[("eth", "usdt") := dec 2500 0]}.
Definition demo_convert : convert_db :=
  ConvertDb (Balances (<[usdt_row := wallet (dec 100 0) 0]> {[btc_row := wallet (dec 1123456789 9) 0]}) [])
    [Currency "usdt" "USDT"; Currency "btc" "BTC"; Currency "eth" "ETH"] demo_prices ∅ ∅ ∅.

Lemma demo_convert_wf : balances_wf (cd_balances demo_convert).
Proof.
  refine (wf_insert (Balances {[btc_row := wallet (dec 1123456789 9) 0]} []) usdt_row (wallet (dec 100 0) 0) [] _ _);
    [apply wf_singleton|]; vm_compute; reflexivity.
Qed.
Lemma demo_prices_ok : prices_ok demo_convert.
Proof.
  assert (∀ k p, demo_prices !! k = Some p → k.2 = "usdt" ∧ k.1 ≠ "usdt" ∧ 0 < p) as Hp.
  { intros k p. unfold demo_prices. intros [[<- <-]|[_ [<- <-]%lookup_singleton_Some]]%lookup_insert_Some;
      (split; [done|]; split; [discriminate|vm_compute; reflexivity]). }
  split; [intros k p Hk; by apply (Hp k)|]. intros a b p q Ha Hb. apply Hp in Ha as (Hb2 & _). apply Hp in Hb as (_ & Hne & _).
  simpl in *. congruence.
Qed.

Definition body (from to amount : string) : convert_body := ConvertBody from to amount None "" None.
Definition available_of (k : bal_key) (d : convert_db) : Z := available_balance (row_of k (cd_balances d)).




Lemma round_trip_gains_nothing_witness :
  rate_of "btc" "eth" demo_convert = Some (Fin (dec 20 0)) ∧ rate_of "eth" "btc" demo_convert = Some (Fin (dec 5 2)) ∧
  proceeds (proceeds (dec 123456789 10) (dec 20 0)) (dec 5 2) ≤ dec 123456789 10.
Proof.
  split; [vm_compute; reflexivity|]. split; [vm_compute; reflexivity|].
  apply (round_trip_gains_nothing demo_convert "btc" "eth"); [exact demo_prices_ok|vm_compute; discriminate|vm_compute; reflexivity..].
Defined.

(** An instant conversion, a limit order that is cancelled twice, and one that waits. *)
Definition limit_body (amount rate : string) : convert_body := ConvertBody "usdt" "eth" amount None rate None.
Definition convert_requests : list (thread convert_db convert_reply) :=
  [convert_instant "ann" "key-1" (body "usdt" "btc" "25.5") "conv-1"; convert_limit "ann" "key-2" (limit_body "10" "0.001") "conv-2";
   convert_limit "ann" "key-3" (limit_body "7" "0.001") "conv-3"; convert_cancel "ann" "conv-2"; convert_cancel "ann" "conv-2"].
Definition convert_run : convert_db * list (thread convert_db convert_reply) :=
  schedule (mjoin ((λ i, repeat (i, false) 12) <$> seq 0 5)) (demo_convert, convert_requests).

Lemma convert_runs : rtc convert_step (demo_convert, []) (convert_run.1, convert_run.2).
Proof.
  rewrite <- surjective_pairing. apply (schedule_pool convert_env convert_starts demo_convert convert_requests).
  apply Forall_cons. split; [apply start_instant|]. do 2 (apply Forall_cons; split; [apply start_limit|]).
  do 2 (apply Forall_cons; split; [apply start_cancel|]). constructor.
Qed.
Lemma conversions_explain_funds_witness :
  convert_run.2 !! 4%nat = Some (tret (CvRefused "ORDER_ALREADY_PROCESSED")) ∧
  cv_status <$> cd_rows convert_run.1 !! "conv-3" = Some CvPending ∧
  funds "usdt" (cd_balances convert_run.1) = dec 675 1 ∧
  funds "btc" (cd_balances convert_run.1) = dec 1123456789 9 + dec 51 5.
Proof.
  destruct (conversions_explain_funds demo_convert convert_run.1 convert_run.2 demo_convert_wf eq_refl convert_runs)
    as (_ & Hf & _ & _).
  split; [vm_compute; reflexivity|]. split; [vm_compute; reflexivity|]. rewrite !Hf. split; vm_compute; reflexivity.
Defined.

(** ** What the routes also do *)
(** A pair that is listed both ways, at prices that do not match. *)
Lemma listed_both_ways_gains :
  let d := set_prices (<[("usdt", "btc") := dec 21 6]> demo_prices) demo_convert in
  rate_of "btc" "usdt" d = Some (Fin (dec 50000 0)) ∧ rate_of "usdt" "btc" d = Some (Fin (dec 21 6)) ∧
  proceeds (proceeds (dec 1 0) (dec 50000 0)) (dec 21 6) = dec 105 2.
Proof. vm_compute. split_and!; reflexivity. Qed.

(** The process stops after its transaction and the lock expires: the request with the same
    key converts again. *)
Lemma retried_conversion_moves_twice :
  let request id := convert_instant "ann" "key-1" (body "usdt" "btc" "25.5") id in
  let d1 := (schedule (repeat (0%nat, false) 7) (demo_convert, [request "conv-1"])).1 in
  let '(o, d2) := alone (request "conv-2") (set_keys (cd_cache d1) ∅ d1) in
  (available_of usdt_row d1, available_of usdt_row d2, size (cd_rows d2)) = (dec 745 1, dec 49 0, 2%nat).
Proof. vm_compute. reflexivity. Qed.

(** A request without an amount keeps its lock: the corrected one is a duplicate. *)
Lemma refused_request_keeps_lock :
  (alone (convert_instant "ann" "key-1" (body "usdt" "btc" "1") "conv-2")
     (alone (convert_instant "ann" "key-1" (body "usdt" "btc" "") "conv-1") demo_convert).2).1
  = Ret (CvRefused "DUPLICATE_REQUEST").
Proof. vm_compute. reflexivity. Qed.

(** The smallest amount of USDT is no BTC at all, and is taken. *)
Lemma dust_becomes_nothing :
  let '(o, d) := alone (convert_instant "ann" "key-1" (body "usdt" "btc" "0.00000001") "conv-1") demo_convert in
  o = Ret (CvAnswer (ConvertAnswer "conv-1" ("USDT", dec 1 8) ("BTC", 0) (dec 2 5) CvCompleted)) ∧
  available_of usdt_row d = dec 100 0 - dec 1 8 ∧ available_of btc_row d = available_of btc_row demo_convert.
Proof. vm_compute. split_and!; reflexivity. Qed.

(** The ledger says that Ann had 1.12345678 BTC before; she had 1.123456789. *)
Lemma ledger_balances_are_truncated :
  let d := (alone (convert_instant "ann" "key-1" (body "btc" "usdt" "1") "conv-1") demo_convert).2 in
  le_balance_before <$> balance_ledger (cd_balances d) !! 0%nat = Some (dec 112345678 8) ∧
  available_of btc_row demo_convert = dec 1123456789 9.
Proof. vm_compute. split; reflexivity. Qed.

(** Two conversions of everything pass the check together; the constraint stops the second. *)
Lemma second_conversion_fails :
  let request key id := convert_instant "ann" key (body "usdt" "btc" "100") id in
  (schedule (repeat (0%nat, false) 6 ++ repeat (1%nat, false) 12 ++ repeat (0%nat, false) 6)
     (demo_convert, [request "key-1" "conv-1"; request "key-2" "conv-2"])).2 !! 0%nat
  = Some (tret (CvRefused "Failed to execute conversion")).
Proof. vm_compute. reflexivity. Qed.

(** [conversions] does not hold amounts from 10^12 on: the conversion is taken back. *)
Lemma huge_conversion_fails :
  let d := ConvertDb (Balances {[usdt_row := wallet (dec 2000000000000 0) 0]} []) (cd_currencies demo_convert) demo_prices ∅ ∅ ∅ in
  let '(o, d') := alone (convert_instant "ann" "key-1" (body "usdt" "btc" "1000000000000") "conv-1") d in
  o = Ret (CvRefused "Failed to execute conversion") ∧ available_of usdt_row d' = dec 2000000000000 0 ∧
  cd_rows d' !! "conv-1" = None.
Proof. vm_compute. split_and!; reflexivity. Qed.
